(* ===== verification/_CoqProject ===== *)
-Q . S2P
Prelude.v
ListSpec.v
KList.v
KListFacts.v
KListOps.v
KListProps.v
Kernel.v
Thread.v
Synch.v
Timer.v
KernelStep.v
KernelCore.v
KernelSafe.v
LockSafe.v
StepSafe.v
KernelProps.v
Bitmap.v
BitmapFacts.v
BitmapProps.v
Mem.v
CString.v
CStringFacts.v
CStringProps.v
CStdlib.v
CStdlibFacts.v
CStdlibProps.v
Random.v
Arith.v
Hash.v
HashFacts.v
HashProps.v
Vaddr.v
Palloc.v
PallocFacts.v
PallocProps.v
Malloc.v
MallocFacts.v
MallocWp.v
MallocProps.v
Pagedir.v
PagedirFacts.v
PagedirProps.v
CStdio.v
CStdioFacts.v
CStdioProps.v
Ustar.v
UstarProps.v
Block.v
BlockFacts.v
BlockProps.v
Intq.v
IntqProps.v
Inode.v
InodeFacts.v
InodeBody.v
FreeMap.v
InodeAlloc.v
File.v
Directory.v
DirectoryFacts.v
Filesys.v
Loader.v
UserMem.v
Syscall.v
InodeCheck.v
InodeProps.v
DirectoryProps.v
LoaderProps.v
SyscallProps.v
Process.v
ProcessProps.v
Boot.v
BootProps.v
UserLib.v
Devices.v
DeviceProps.v
Interrupts.v
InterruptProps.v
Shell.v
ShellProps.v
