(* ===== verification/Prelude.v ===== *)
(** * Pintos: a verification development (root file)

    Pintos is a small operating system kernel for the x86 (src/pintos/src).  This
    library models its core and proves what makes it correct.

    ** How C is modelled

    A C function is a program in the state and error monad [M S A] below: it
    returns a result and a new state, or one of the errors that bring the kernel
    down (a failed [ASSERT], a [PANIC], a bad pointer).  Integers are [Z] with the
    wrap-around of their width written out where it can occur.  Loops are [loop]
    with an iteration bound; running into the bound is the error [EFuel], which the
    properties exclude: they say that the code returns, so each bound is proved
    sufficient.  (Only the lemmas on what a system call may change in the table of
    descriptors, [handler_table] and [descriptor_table] of SyscallProps.v, speak of
    calls that return.)  [wp m s Q] is total correctness.  The limits within which a
    property holds, such as free sectors on the disk, are in the comment before it.

    ** Files

    - Prelude.v: the monad, [wp] and its rules and tactics, machine integers.
    - ListSpec.v: what the list functions mean on Rocq lists (module [Spec]),
      strict weak orders, stable sorting.
    - KList.v: lib/kernel/list.c on a heap of [prev]/[next] cells, every function.
      KListFacts.v and KListOps.v prove each function against [Spec];
      KListProps.v states the results (sorting, ordered insertion, round trips).
    - Kernel.v, Thread.v, Synch.v, Timer.v: threads/thread.c, threads/synch.c,
      devices/timer.c and the interrupt flag of threads/interrupt.c.  A function
      that switches threads in the middle saves the rest of its work as a [frame]
      of the thread that calls it.  KernelStep.v makes a state machine of it: the
      running thread calls an operation, continues inside one, or is interrupted
      by the timer, and defines the invariant; KernelCore.v, KernelSafe.v,
      LockSafe.v and StepSafe.v prove that every step keeps it, KernelProps.v
      states what follows: the kernel never goes down, mutual exclusion, no lost
      wake-ups, queue discipline, exact priority donation, wake-up order,
      priorities after a release, and punctual sleepers.
    - Bitmap.v: lib/kernel/bitmap.c on 32-bit words; BitmapFacts.v, BitmapProps.v
      (first fit, single bits, files).
    - Mem.v: byte memory, the state of the C library.  CString.v: lib/string.c;
      CStdlib.v: lib/stdlib.c and lib/ctype.h; CStdio.v: lib/stdio.c; each with a
      Facts file of specifications and a Props file of results (copying with
      overlap, bounded copies, searching, tokens, sorting, bsearch, atoi, output
      that is cut off at the buffer, printing and reading back a number).
    - Random.v: lib/random.c.  Arith.v: lib/arithmetic.c, 64-bit division from
      32-bit machine instructions.
    - Hash.v, HashFacts.v, HashProps.v: lib/kernel/hash.c refines a set of
      elements, and its iterators visit each of them once.
    - Vaddr.v: threads/vaddr.h and threads/pte.h.
    - Palloc.v, PallocFacts.v, PallocProps.v: threads/palloc.c, pages from two
      bitmaps.  Malloc.v: threads/malloc.c on top of it; MallocFacts.v is the
      invariant of arenas and free lists, MallocWp.v its preservation, MallocProps.v the results: live blocks are disjoint and
      keep their contents under malloc, free and realloc.
    - Pagedir.v, PagedirFacts.v, PagedirProps.v: userprog/pagedir.c, page tables
      in the memory of the page allocator, as a map from user pages to frames.
      Destroying a directory gives back what belongs to it.
    - Ustar.v, UstarProps.v: lib/ustar.c, headers of tar archives, which are read
      back as they were written.
    - Intq.v, IntqProps.v: devices/intq.c; threads in the queue stand at the places
      where they block, and runs of steps are those of a bounded queue.
    - Block.v: devices/block.c and devices/partition.c, a table of disks and of
      partitions on them.  BlockFacts.v is what a device promises to its clients,
      BlockProps.v the results (transfers, errors, partition bounds).
    - Inode.v: filesys/inode.c and the allocation of filesys/free-map.c; File.v:
      filesys/file.c and the rest of free-map.c; Directory.v:
      filesys/directory.c; Filesys.v: filesys/filesys.c.  The state [fs] is the
      devices, the free map and a heap of in-memory inodes, files and
      directories.  InodeFacts.v reads a file off the disk image and proves
      [inode_read_at]; InodeBody.v, FreeMap.v and InodeAlloc.v are the parts
      of [inode_write_at], from the data loop to the allocation of direct and
      indirect blocks, and the last puts them together as the interface [open_file], against which DirectoryFacts.v
      proves directories.  InodeCheck.v decides [open_file] on
      small states.  InodeProps.v and DirectoryProps.v state the results: files
      are independent sequences of bytes, directories are maps from names.
      Closing files gives back the references to their inodes (File.v).
    - Loader.v: the part of userprog/process.c that loads a program, on the state
      [proc] of a process, which joins the file system and the memory with its page
      tables; the kernel reaches user addresses through the tables ([user_access]).
      UserMem.v is the memory of a process as its page tables map it, LoaderProps.v
      states the results: the stack that main finds, segments that may be loaded.
    - Syscall.v: userprog/syscall.c, every call, and the end of exceptions of
      userprog/exception.c, on the same state.  SyscallProps.v: closing descriptors, the
      check of pointers; a process that ends gives back what it has.
    - Process.v, ProcessProps.v: exec, wait and exit of userprog/process.c and
      threads/thread.c between threads, as a machine whose steps may interleave in
      any way; the structures of ended threads are freed and never used again, and
      wait returns the status of the child.
    - UserLib.v: lib/user/syscall.c and lib/user/console.c: the calls of the user
      library, but mmap and munmap, which the kernel does not have, reach the functions
      of Syscall.v with their arguments, and buffered output is what was printed.
    - Boot.v: threads/init.c.  BootProps.v: the page tables of the kernel as the
      processor walks them and as the directories of processes share them; the
      command line, its options and actions; the roles of block devices.
    - Interrupts.v: the rest of threads/interrupt.c, userprog/gdt.c, userprog/tss.c,
      devices/pit.c and the delays of devices/timer.c: descriptors, registration of
      handlers by all drivers, dispatch.  InterruptProps.v: what the processor reads in
      the tables, what user code can call, and how long delays are.
    - Devices.v, DeviceProps.v: the clock of devices/rtc.c, the screen of
      devices/vga.c, the keyboard of devices/kbd.c.
    - Shell.v, ShellProps.v: the shell of src/project0 (msh.c, jobs.c, util.c), a
      machine whose steps interleave with its signal handlers and its children.

    ** Bounds

    A loop along memory may make as many turns as there are bytes ([scan]); loops
    over counts take the count; the donation loop takes the number of threads;
    digits of a number take 65 turns; printf takes the length of its format and
    the longest message about an unsupported conversion.  [inode_write_at] calls
    itself for the file of the free map, which never grows: its depth is 3, one
    more than is needed.  A search in a directory takes as many turns as the
    directory has bytes.  A string of a process takes at most twice as many turns
    as there are bytes of memory, since a byte is mapped at most for the process and
    for the kernel.  Loading a segment takes a turn for each of its pages, and its
    bound is the number of its bytes.  The theorems on writing are for files below 138 sectors,
    those that do not use the doubly indirect block.  Every property is
    about total correctness, so all of these are shown to be enough.

    ** Not modelled

    The locks of palloc.c, malloc.c and the file system are seen by one thread
    only (their behaviour between threads is that of the locks of Synch.v).
    Creating and ending threads is modelled in Process.v, apart from the scheduler
    of KernelStep.v.  The loader, the entry code and context switches are assembly;
    the drivers of disks, of the serial port and of the speaker are sequences of port
    I/O whose meaning is that of the devices, so only their registration of handlers is
    modelled.  Messages on the console are left out but for the one that a process
    prints when it ends.  filesys/fsutil.c, the example programs, the tools for the
    host, and the programs of src/project0 other than the shell are not modelled.
*)
From Stdlib Require Export ZArith Lia.
From stdpp Require Export base gmap list sets fin_maps numbers tactics sorting.

Declare Scope pintos_scope.
Delimit Scope pintos_scope with pintos.

(** ** Outcomes and the kernel monad

    A C function either returns (with a new state) or brings the kernel down.
    The ways of going down are kept apart, because the theorems say which of
    them cannot happen:
    - [EAssert]: an [ASSERT] of the source is false;
    - [EPanic]: an explicit [PANIC] (or [NOT_REACHED]) is executed;
    - [EFault]: an invalid pointer is dereferenced, or an object is used in a
      way the source declares to be undefined;
    - [EFuel]: the iteration bound of the model is exhausted.  The properties
      exclude it, so every loop is shown to terminate. *)
Inductive err : Type := EAssert | EPanic | EFault | EFuel.

Inductive res (A : Type) : Type :=
| Ok (a : A)
| Err (e : err).
Arguments Ok {A} a.
Arguments Err {A} e.

Definition M (S A : Type) : Type := S → res (A * S).

#[global] Instance M_ret (S : Type) : MRet (M S) := λ A a s, Ok (a, s).
#[global] Instance M_bind (S : Type) : MBind (M S) := λ A B f m s,
  match m s with
  | Ok (a, s') => f a s'
  | Err e => Err e
  end.

Section primitives.
Context {S : Type}.

Definition throw {A} (e : err) : M S A := λ _, Err e.
Definition gets {A} (f : S → A) : M S A := λ s, Ok (f s, s).
Definition modify (f : S → S) : M S unit := λ s, Ok (tt, f s).
(** [ASSERT (b)] of lib/debug.h (NDEBUG is not defined in this build). *)
Definition ASSERT (b : bool) : M S unit :=
  if b then mret tt else throw EAssert.
Definition PANIC {A} : M S A := throw EPanic.
(** Reading through a pointer: a value that is not there is a fault. *)
Definition the {A} (o : option A) : M S A :=
  match o with Some a => mret a | None => throw EFault end.

(** C's short-circuit connectives, for tests that read memory. *)
Definition and_also (b : bool) (m : M S bool) : M S bool :=
  if b then m else mret false.
Definition or_else (m n : M S bool) : M S bool :=
  b ← m; if (b : bool) then mret true else n.

(** Iteration: [inl] goes round again, [inr] leaves the loop. *)
Fixpoint loop {A B} (fuel : nat) (body : A → M S (A + B)) (a : A) : M S B :=
  match fuel with
  | O => throw EFuel
  | Datatypes.S n =>
      r ← body a;
      match (r : A + B) with
      | inl a' => loop n body a'
      | inr b => mret b
      end
  end.

(** [for (i = 0; i < n; i++) f (i)], with the index as a [nat]. *)
Fixpoint for_upto (n : nat) (f : nat → M S unit) : M S unit :=
  match n with
  | O => mret tt
  | Datatypes.S k => for_upto k f ;; f k
  end.
End primitives.
Arguments loop : simpl never.

(** A program on a part of the state. *)
Definition zoom {S T A} (get : S → T) (put : T → S → S) (m : M T A) : M S A := λ s,
  match m (get s) with
  | Ok (a, t) => Ok (a, put t s)
  | Err e => Err e
  end.

(** ** Total correctness

    [wp m s Q]: from state [s], [m] returns (no failed assertion, no panic,
    no fault, no exhausted bound) with a result and state that satisfy [Q]. *)
Definition wp {S A} (m : M S A) (s : S) (Q : A → S → Prop) : Prop :=
  match m s with
  | Ok (a, s') => Q a s'
  | Err _ => False
  end.

Section wp_rules.
Context {S : Type}.

Lemma wp_ok {A} (m : M S A) s Q :
  wp m s Q ↔ ∃ a s', m s = Ok (a, s') ∧ Q a s'.
Proof.
  unfold wp. destruct (m s) as [[a s']|e]; split.
  - eauto.
  - by intros (? & ? & [= -> ->] & ?).
  - done.
  - by intros (? & ? & [=] & _).
Qed.

Lemma wp_det_ok {A} (m : M S A) s a0 s0 :
  wp m s (λ a s', a = a0 ∧ s' = s0) → m s = Ok (a0, s0).
Proof. intros (a & s' & -> & -> & ->)%wp_ok. done. Qed.

Lemma wp_ret {A} (a : A) (s : S) (Q : A → S → Prop) :
  Q a s → wp (mret a) s Q.
Proof. done. Qed.

Lemma wp_bind {A B} (m : M S A) (f : A → M S B) s Q :
  wp m s (λ a s', wp (f a) s' Q) → wp (m ≫= f) s Q.
Proof. unfold wp, mbind, M_bind. by destruct (m s) as [[a s']|e]. Qed.

Lemma wp_mono {A} (m : M S A) s (Q Q' : A → S → Prop) :
  wp m s Q → (∀ a s', Q a s' → Q' a s') → wp m s Q'.
Proof. unfold wp. destruct (m s) as [[a s']|e]; naive_solver. Qed.

Lemma wp_gets {A} (f : S → A) s Q : Q (f s) s → wp (gets f) s Q.
Proof. done. Qed.

Lemma wp_modify (f : S → S) s Q : Q tt (f s) → wp (modify f) s Q.
Proof. done. Qed.

Lemma wp_assert b s (Q : unit → S → Prop) : b = true → Q tt s → wp (ASSERT b) s Q.
Proof. by intros ->. Qed.

Lemma wp_the {A} (o : option A) a s (Q : A → S → Prop) :
  o = Some a → Q a s → wp (the o) s Q.
Proof. by intros ->. Qed.

Lemma wp_det {A} (m : M S A) s Q Q' :
  wp m s Q → wp m s Q' → wp m s (λ a s', Q a s' ∧ Q' a s').
Proof. unfold wp. by destruct (m s) as [[a s']|e]. Qed.

Lemma wp_zoom {T A} (get : S → T) (put : T → S → S) (m : M T A) s (Q : A → S → Prop) :
  wp m (get s) (λ a t, Q a (put t s)) → wp (zoom get put m) s Q.
Proof. unfold wp, zoom. by destruct (m (get s)) as [[a t]|e]. Qed.

(** What a program that returns has gone through. *)
Lemma ok_bind {A B} (m : M S A) (k : A → M S B) s b s' :
  (m ≫= k) s = Ok (b, s') → ∃ a s1, m s = Ok (a, s1) ∧ k a s1 = Ok (b, s').
Proof. unfold mbind, M_bind. destruct (m s) as [[a s1]|]; [|done]. intros E. by exists a, s1. Qed.
Lemma run_bind {A B} (m : M S A) (k : A → M S B) s a s' : m s = Ok (a, s') → (m ≫= k) s = k a s'.
Proof. unfold mbind, M_bind. by intros ->. Qed.
Lemma run_bind_err {A B} (m : M S A) (k : A → M S B) s e : m s = Err e → (m ≫= k) s = Err e.
Proof. unfold mbind, M_bind. by intros ->. Qed.
Lemma ok_assert b (s s' : S) x : ASSERT b s = Ok (x, s') → b = true ∧ s' = s.
Proof. destruct b; [|done]. by intros [= _ <-]. Qed.
Lemma ok_the {A} (o : option A) a (s s' : S) : the o s = Ok (a, s') → o = Some a ∧ s' = s.
Proof. destruct o; [|done]. by intros [= <- <-]. Qed.

(** Loop rule: an invariant over some ghost data [g], and a measure of the
    ghost data that decreases on every turn.  A bound above the initial
    measure is never exhausted. *)
Lemma wp_loop {G A B} (I : G → A → S → Prop) (meas : G → nat)
    (body : A → M S (A + B)) (Q : B → S → Prop) :
  (∀ g a s, I g a s →
     wp (body a) s (λ r s',
       match r with
       | inl a' => ∃ g', I g' a' s' ∧ (meas g' < meas g)%nat
       | inr b => Q b s'
       end)) →
  ∀ n g a s, I g a s → (meas g < n)%nat → wp (loop n body a) s Q.
Proof.
  intros Hbody. induction n as [|n IH]; intros g a s HI Hlt; [lia|].
  unfold loop; fold (@loop S A B). apply wp_bind.
  eapply wp_mono; [apply (Hbody g a s HI)|].
  intros [a'|b] s' H; [|done]. destruct H as (g' & HI' & Hm).
  apply (IH g'); [done|lia].
Qed.

(** [for] loops: an invariant over the number of turns done. *)
Lemma wp_for_upto (I : nat → S → Prop) n (f : nat → M S unit) s (Q : unit → S → Prop) :
  I O s →
  (∀ k s', (k < n)%nat → I k s' → wp (f k) s' (λ _ s'', I (Datatypes.S k) s'')) →
  (∀ s', I n s' → Q tt s') →
  wp (for_upto n f) s Q.
Proof.
  revert Q. induction n as [|n IH]; intros Q H0 Hf HQ; [by apply HQ|]. simpl.
  apply wp_bind. apply IH; [done|intros; apply Hf; auto with lia|].
  intros s' Hs'. eapply wp_mono; [apply Hf; [lia|done]|]. intros []. apply HQ.
Qed.
End wp_rules.

Create HintDb pintos.
#[export] Hint Resolve wp_ret wp_gets wp_modify : pintos.

(** Run the next command of a monadic program inside a [wp] goal. *)
Ltac wp_step :=
  match goal with
  | |- wp (_ ≫= _) _ _ => apply wp_bind
  | |- wp (mret _) _ _ => apply wp_ret
  | |- wp (gets _) _ _ => apply wp_gets
  | |- wp (modify _) _ _ => apply wp_modify
  | |- wp (zoom _ _ _) _ _ => apply wp_zoom
  end.
Ltac wp_steps := repeat (wp_step; cbn beta iota).

(** ** Machine integers *)
Definition u32 (x : Z) : Z := x `mod` 2 ^ 32.
Definition u64 (x : Z) : Z := x `mod` 2 ^ 64.
(** Two's complement reading of a [w]-bit pattern. *)
Definition sext (w x : Z) : Z := (x + 2 ^ (w - 1)) `mod` 2 ^ w - 2 ^ (w - 1).
Definition s32 (x : Z) : Z := sext 32 x.
Definition s64 (x : Z) : Z := sext 64 x.
(** Values of [uint8_t] and [uint32_t]. *)
Definition is_byte (b : Z) : Prop := (0 ≤ b < 256)%Z.
Definition is_word (w : Z) : Prop := (0 ≤ w < 2 ^ 32)%Z.

Section machine_integers.
Local Open Scope Z_scope.

Lemma u32_small x : 0 ≤ x < 2 ^ 32 → u32 x = x.
Proof. intros. by apply Z.mod_small. Qed.
Lemma u32_range x : 0 ≤ u32 x < 2 ^ 32.
Proof. by apply Z.mod_pos_bound. Qed.
Lemma u64_small x : 0 ≤ x < 2 ^ 64 → u64 x = x.
Proof. intros. by apply Z.mod_small. Qed.
Lemma s32_small x : - 2 ^ 31 ≤ x < 2 ^ 31 → s32 x = x.
Proof. unfold s32, sext. intros. rewrite Z.mod_small; simpl in *; lia. Qed.
Lemma s64_small x : - 2 ^ 63 ≤ x < 2 ^ 63 → s64 x = x.
Proof. unfold s64, sext. intros. rewrite Z.mod_small; simpl in *; lia. Qed.
End machine_integers.
Create Rewrite HintDb pintos_int.
#[export] Hint Rewrite u32_small u64_small s32_small s64_small
  using (simpl; lia) : pintos_int.
