(* ===== verification/ListSpec.v ===== *)
(** * Reference operations on plain lists

    What the ordered operations of lib/kernel/list.c compute, on Rocq lists:
    the specification the pointer programs of KList.v are proved against, and
    the list operations the scheduler model uses. *)
From S2P Require Import Prelude.

(** What the library asks of a comparison function: "a is less than b" is a
    strict weak order. *)
Class StrictWeakOrder {A} (less : A → A → bool) : Prop := {
  swo_asym a b : less a b = true → less b a = false;
  swo_ntrans a b c : less a b = false → less b c = false → less a c = false;
}.

(** "Not after": the order in which a sorted list lists its elements. *)
Definition not_after {A} (less : A → A → bool) (a b : A) : Prop :=
  less b a = false.

Module Spec.
Section spec.
Context {A : Type} (less : A → A → bool).

Fixpoint insert_ordered (x : A) (xs : list A) : list A :=
  match xs with
  | [] => [x]
  | y :: ys => if less x y then x :: y :: ys else y :: insert_ordered x ys
  end.

Fixpoint sortedb (xs : list A) : bool :=
  match xs with
  | x :: ((y :: _) as t) => negb (less y x) && sortedb t
  | _ => true
  end.

(** The longest nondecreasing run that starts with [x], and what follows. *)
Fixpoint take_run (x : A) (xs : list A) : list A * list A :=
  match xs with
  | [] => ([x], [])
  | y :: ys =>
      if less y x then ([x], y :: ys)
      else let '(r, rest) := take_run y ys in (x :: r, rest)
  end.

Fixpoint merge (l1 : list A) : list A → list A :=
  fix go l2 :=
    match l1, l2 with
    | [], _ => l2
    | _, [] => l1
    | a :: l1', b :: l2' => if less b a then b :: go l2' else a :: merge l1' l2
    end.

(** One pass of the natural merge sort: the list of the runs it leaves. *)
Inductive pass : list A → list (list A) → Prop :=
| pass_nil : pass [] []
| pass_last x xs r : take_run x xs = (r, []) → pass (x :: xs) [r]
| pass_two x xs r1 y ys r2 rest rs :
    take_run x xs = (r1, y :: ys) →
    take_run y ys = (r2, rest) →
    pass rest rs →
    pass (x :: xs) (merge r1 r2 :: rs).

(** The number of maximal nondecreasing runs. *)
Fixpoint runs (xs : list A) : nat :=
  match xs with
  | [] => 0
  | x :: ys =>
      match ys with
      | [] => 1
      | y :: _ => if less y x then S (runs ys) else runs ys
      end
  end.

(** Drop every element equivalent to the last one kept. *)
Fixpoint unique (x : A) (xs : list A) : list A * list A :=
  match xs with
  | [] => ([x], [])
  | y :: ys =>
      if negb (less x y) && negb (less y x)
      then let '(k, d) := unique x ys in (k, y :: d)
      else let '(k, d) := unique y ys in (x :: k, d)
  end.

Definition max (x : A) (xs : list A) : A :=
  fold_left (λ m e, if less m e then e else m) xs x.
Definition min (x : A) (xs : list A) : A :=
  fold_left (λ m e, if less e m then e else m) xs x.
End spec.
End Spec.

Section order_facts.
Context {A : Type} (less : A → A → bool) `{!StrictWeakOrder less}.
Local Abbreviation le := (not_after less).

#[global] Instance not_after_refl : Reflexive le.
Proof.
  intros a. unfold not_after. destruct (less a a) eqn:E; [|done].
  by apply swo_asym in E as E'; congruence.
Qed.
#[global] Instance not_after_trans : Transitive le.
Proof. intros a b c. unfold not_after. eauto using swo_ntrans. Qed.

Lemma less_not_after a b : less a b = true → le a b.
Proof. apply swo_asym. Qed.

(** A strict comparison is kept when its right side moves up. *)
Lemma less_le_trans a b c : less a b = true → le b c → less a c = true.
Proof.
  intros Hab Hbc. destruct (less a c) eqn:E; [done|].
  by rewrite (swo_ntrans a c b E Hbc) in Hab.
Qed.
End order_facts.

(** Two elements the comparison function does not tell apart. *)
Definition same {A} (less : A → A → bool) (z a : A) : bool :=
  negb (less z a) && negb (less a z).

(** [ys] sorts [xs]: ordered, the same elements, and elements that compare
    equal keep their order (so equal priorities are served first come, first
    served). *)
Definition stable_sort_of {A} (less : A → A → bool) (xs ys : list A) : Prop :=
  Sorted (not_after less) ys ∧ xs ≡ₚ ys ∧
  ∀ z, filter (same less z) xs = filter (same less z) ys.

(** ** Sortedness and insertion *)
Section sorted_facts.
Context {A : Type} (less : A → A → bool).
Local Abbreviation le := (not_after less).

Lemma sortedb_spec xs : Spec.sortedb less xs = true ↔ Sorted le xs.
Proof.
  induction xs as [|x [|y ys] IH]; simpl.
  - split; [constructor|done].
  - split; [repeat constructor|done].
  - simpl in IH. rewrite andb_true_iff, IH, negb_true_iff. split.
    + intros [??]. constructor; [done|by constructor].
    + intros Hs. inversion Hs as [|?? Hs' Hd]; subst.
      by inversion Hd.
Qed.

Lemma sorted_suffix xs ys : Sorted le (xs ++ ys) → Sorted le ys.
Proof. induction xs as [|x xs IH]; simpl; [done|]. inversion 1; auto. Qed.

Lemma insert_ordered_split x xs :
  ∃ xs1 xs2, xs = xs1 ++ xs2 ∧ Spec.insert_ordered less x xs = xs1 ++ x :: xs2 ∧
    Forall (λ y, less x y = false) xs1 ∧
    (∀ y, head xs2 = Some y → less x y = true).
Proof.
  induction xs as [|y ys (xs1 & xs2 & -> & IH & Hf & Hh)]; simpl.
  - by exists [], [].
  - destruct (less x y) eqn:E.
    + exists [], (y :: xs1 ++ xs2). split_and!; [done..|]. by intros ? [= <-].
    + exists (y :: xs1), xs2. simpl. rewrite IH. split_and!; eauto.
Qed.

Lemma insert_ordered_perm x xs : Spec.insert_ordered less x xs ≡ₚ x :: xs.
Proof.
  destruct (insert_ordered_split x xs) as (xs1 & xs2 & -> & -> & _).
  by rewrite Permutation_middle.
Qed.

Lemma insert_ordered_in x y xs : y ∈ Spec.insert_ordered less x xs ↔ y = x ∨ y ∈ xs.
Proof. rewrite insert_ordered_perm. set_solver. Qed.

Context `{!StrictWeakOrder less}.

Lemma insert_ordered_sorted x xs :
  Sorted le xs → Sorted le (Spec.insert_ordered less x xs).
Proof.
  induction 1 as [|y ys Hs IH Hd]; simpl; [repeat constructor|].
  destruct (less x y) eqn:E.
  - repeat constructor; auto. by apply swo_asym.
  - constructor; [done|]. destruct ys as [|z zs]; simpl; [by constructor|].
    inversion Hd; subst. destruct (less x z); by constructor.
Qed.

Lemma sorted_forall x xs : Sorted le (x :: xs) → Forall (le x) xs.
Proof. apply Sorted_extends. intros a b c. apply not_after_trans, _. Qed.
End sorted_facts.

(** ** Runs and merging *)
Section merge_facts.
Context {A : Type} (less : A → A → bool).
Local Abbreviation le := (not_after less).

Lemma take_run_spec x xs r rest :
  Spec.take_run less x xs = (r, rest) →
  ∃ r', r = x :: r' ∧ x :: xs = r ++ rest ∧ Sorted le r ∧
    Spec.runs less (x :: xs) = S (Spec.runs less rest).
Proof.
  revert x r rest. induction xs as [|y ys IH]; simpl; intros x r rest H.
  { simplify_eq. exists []. repeat split; repeat constructor. }
  destruct (less y x) eqn:E.
  { simplify_eq. exists []. repeat split; repeat constructor. }
  destruct (Spec.take_run less y ys) as [r0 rest0] eqn:E'. simplify_eq.
  destruct (IH y r0 rest E') as (r' & -> & Heq & Hs & Hr).
  exists (y :: r'). simpl in *. split_and!; [done|by rewrite Heq| |done].
  by repeat constructor; inversion Hs.
Qed.

Lemma merge_nil_l ys : Spec.merge less [] ys = ys.
Proof. by destruct ys. Qed.
Lemma merge_nil_r xs : Spec.merge less xs [] = xs.
Proof. by destruct xs. Qed.
Lemma merge_cons a xs b ys :
  Spec.merge less (a :: xs) (b :: ys) =
  if less b a then b :: Spec.merge less (a :: xs) ys
  else a :: Spec.merge less xs (b :: ys).
Proof. done. Qed.

(** Induction along the two arguments of [merge]. *)
Lemma merge_rect (P : list A → list A → Prop) :
  (∀ ys, P [] ys) → (∀ a xs, P (a :: xs) []) →
  (∀ a xs b ys, less b a = true → P (a :: xs) ys → P (a :: xs) (b :: ys)) →
  (∀ a xs b ys, less b a = false → P xs (b :: ys) → P (a :: xs) (b :: ys)) →
  ∀ xs ys, P xs ys.
Proof.
  intros H1 H2 H3 H4. induction xs as [|a xs IHx]; [done|].
  induction ys as [|b ys IHy]; [done|].
  destruct (less b a) eqn:E; auto.
Qed.

Lemma merge_perm xs ys : Spec.merge less xs ys ≡ₚ xs ++ ys.
Proof.
  revert xs ys. refine (merge_rect _ _ _ _ _); [intros ys|intros a xs|intros a xs b ys E IH..].
  - by rewrite merge_nil_l.
  - by rewrite app_nil_r.
  - rewrite merge_cons, E, IH. by rewrite Permutation_middle.
  - by rewrite merge_cons, E, IH.
Qed.

Lemma merge_hd z xs ys :
  HdRel le z xs → HdRel le z ys → HdRel le z (Spec.merge less xs ys).
Proof.
  destruct xs as [|a xs]; [by rewrite merge_nil_l|].
  destruct ys as [|b ys]; [done|]. intros Ha Hb. rewrite merge_cons. inversion Ha; inversion Hb; subst.
  destruct (less b a); constructor; done.
Qed.

Context `{!StrictWeakOrder less}.

Lemma merge_sorted xs ys :
  Sorted le xs → Sorted le ys → Sorted le (Spec.merge less xs ys).
Proof.
  revert xs ys. refine (merge_rect _ _ _ _ _); [intros ys|intros a xs|intros a xs b ys E IH..].
  - by rewrite merge_nil_l.
  - by rewrite merge_nil_r.
  - intros Hx Hy. rewrite merge_cons, E. inversion Hy; subst.
    constructor; [auto|]. apply merge_hd; [|done]. constructor.
    by apply swo_asym.
  - intros Hx Hy. rewrite merge_cons, E. inversion Hx; subst.
    constructor; [auto|]. apply merge_hd; [done|]. by constructor.
Qed.

Lemma same_above z b a xs :
  Sorted le (a :: xs) → less b a = true → same less z b →
  filter (same less z) (a :: xs) = [].
Proof.
  intros Hs Hba Hzb. apply sorted_forall in Hs; [|done].
  assert (∀ c, c ∈ a :: xs → less z c = true) as Hz.
  { intros c Hc. assert (le a c) as Hac.
    { apply list_elem_of_In in Hc as [->|Hc]; [by apply not_after_refl|].
      rewrite Forall_forall in Hs. apply Hs. by apply list_elem_of_In. }
    unfold same in Hzb. apply andb_prop_elim in Hzb as [H1 H2].
    apply negb_prop_elim in H1, H2.
    destruct (less z c) eqn:E; [done|].
    assert (less b a = false); [|congruence].
    apply (swo_ntrans _ z); [by destruct (less b z)|].
    by apply (swo_ntrans _ c). }
  destruct (filter (same less z) (a :: xs)) as [|c l] eqn:E; [done|].
  assert (c ∈ filter (same less z) (a :: xs)) as Hc by (rewrite E; set_solver).
  apply list_elem_of_filter in Hc as [Hsame Hin]. exfalso.
  unfold same in Hsame. by rewrite (Hz c Hin) in Hsame.
Qed.

Lemma merge_stable z xs ys :
  Sorted le xs → Sorted le ys →
  filter (same less z) (Spec.merge less xs ys) =
  filter (same less z) xs ++ filter (same less z) ys.
Proof.
  revert xs ys. refine (merge_rect _ _ _ _ _); [intros ys|intros a xs|intros a xs b ys E IH..].
  - by rewrite merge_nil_l.
  - intros _ _. by rewrite merge_nil_r, filter_nil, app_nil_r.
  - intros Hx Hy. inversion Hy; subst. rewrite merge_cons, E.
    rewrite !(filter_cons _ b). case_decide as Hb; [|by apply IH].
    rewrite IH by done. by rewrite (same_above z b a xs).
  - intros Hx Hy. inversion Hx; subst. rewrite merge_cons, E.
    rewrite !(filter_cons _ a). case_decide; rewrite IH by done; done.
Qed.
End merge_facts.

(** ** Passes of the natural merge sort *)
Section pass_facts.
Context {A : Type} (less : A → A → bool) `{!StrictWeakOrder less}.
Local Abbreviation le := (not_after less).

Lemma runs_cons x xs :
  (Spec.runs less (x :: xs) ≤ S (Spec.runs less xs))%nat.
Proof. simpl. destruct xs as [|y ys]; [lia|]. destruct (less y x); lia. Qed.

Lemma runs_cons_ge x xs : (Spec.runs less xs ≤ Spec.runs less (x :: xs))%nat.
Proof. simpl. destruct xs as [|y ys]; simpl; [lia|]. destruct (less y x); lia. Qed.

Lemma runs_app xs ys :
  (Spec.runs less (xs ++ ys) ≤ Spec.runs less xs + Spec.runs less ys)%nat.
Proof.
  induction xs as [|x xs IH]; [done|]. destruct xs as [|y xs].
  - simpl app. pose proof (runs_cons x ys). simpl in *. lia.
  - simpl in *. destruct (less y x); lia.
Qed.

Lemma runs_sorted xs : Sorted le xs → (Spec.runs less xs ≤ 1)%nat.
Proof.
  induction 1 as [|x xs Hs IH Hd]; simpl; [lia|].
  destruct xs as [|y ys]; [lia|]. inversion Hd as [|?? Hyx]; subst.
  unfold not_after in Hyx. by rewrite Hyx.
Qed.

Lemma runs_le_length xs : (Spec.runs less xs ≤ length xs)%nat.
Proof.
  induction xs as [|x xs IH]; [done|]. pose proof (runs_cons x xs). simpl in *. lia.
Qed.

(** A pass is defined on every list. *)
Lemma pass_total xs : ∃ rs, Spec.pass less xs rs.
Proof.
  remember (length xs) as n eqn:Hn. revert xs Hn.
  induction (lt_wf n) as [n _ IH]. intros xs ->.
  destruct xs as [|x xs]; [eexists; constructor|].
  destruct (Spec.take_run less x xs) as [r1 [|y ys]] eqn:E1;
    [eexists; by constructor|].
  destruct (Spec.take_run less y ys) as [r2 rest] eqn:E2.
  apply take_run_spec in E1 as Hr1. apply take_run_spec in E2 as Hr2.
  destruct Hr1 as (r1' & -> & Heq1 & _), Hr2 as (r2' & -> & Heq2 & _).
  destruct (IH (length rest)) with (xs := rest) as [rs Hrs]; [|done|].
  { apply (f_equal length) in Heq1, Heq2.
    rewrite length_app in Heq1, Heq2. simpl in *. lia. }
  eexists. by eapply Spec.pass_two.
Qed.

(** What a pass leaves: sorted runs with the same elements, at most half as
    many (rounded up) as there were. *)
Lemma pass_spec xs rs :
  Spec.pass less xs rs →
  Forall (Sorted le) rs ∧ xs ≡ₚ concat rs ∧
  (∀ z, filter (same less z) xs = filter (same less z) (concat rs)) ∧
  (2 * length rs ≤ S (Spec.runs less xs))%nat.
Proof.
  induction 1 as [|x xs r E|x xs r1 y ys r2 rest rs E1 E2 Hp (Hs & Hperm & Hst & Hlen)].
  - split_and!; [constructor|done|done|simpl; lia].
  - apply take_run_spec in E as (r' & -> & Heq & Hs & Hr).
    rewrite app_nil_r in Heq. rewrite Heq.
    simpl concat. rewrite app_nil_r. split_and!; [by constructor|done|done|].
    rewrite <-Heq, Hr. simpl. lia.
  - apply take_run_spec in E1 as (r1' & -> & Heq1 & Hs1 & Hr1).
    apply take_run_spec in E2 as (r2' & -> & Heq2 & Hs2 & Hr2).
    set (R1 := x :: r1') in *. set (R2 := y :: r2') in *.
    assert (x :: xs = R1 ++ R2 ++ rest) as Heq by (rewrite Heq1, Heq2; done).
    split_and!.
    + constructor; [by apply merge_sorted|done].
    + rewrite Heq. cbn [concat]. by rewrite (merge_perm less R1 R2), <-Hperm, <-app_assoc.
    + intros z. rewrite Heq. cbn [concat].
      rewrite !filter_app, merge_stable, Hst, <-app_assoc by done. done.
    + rewrite Hr1, Hr2. simpl. lia.
Qed.

Lemma runs_concat rs :
  Forall (Sorted le) rs → (Spec.runs less (concat rs) ≤ length rs)%nat.
Proof.
  induction 1 as [|r rs Hr _ IH]; simpl; [done|].
  pose proof (runs_app r (concat rs)). pose proof (runs_sorted r Hr). lia.
Qed.

Lemma stable_sort_refl_of xs : Sorted le xs → stable_sort_of less xs xs.
Proof. done. Qed.

Lemma sorted_concat_one rs :
  Forall (Sorted le) rs → (length rs ≤ 1)%nat → Sorted le (concat rs).
Proof.
  intros Hs Hl. destruct rs as [|r [|? ?]]; simpl in *; [constructor| |lia].
  rewrite app_nil_r. by inversion Hs.
Qed.
End pass_facts.

(** ** Extremal elements and duplicates *)
Section extremal_facts.
Context {A : Type} (less : A → A → bool) `{!StrictWeakOrder less}.
Local Abbreviation le := (not_after less).

(** The maximum is in the list, nothing is greater, and everything before it
    is strictly smaller. *)
Lemma max_spec x xs :
  ∃ xs1 xs2, x :: xs = xs1 ++ Spec.max less x xs :: xs2 ∧
    Forall (λ y, less y (Spec.max less x xs) = true) xs1 ∧
    Forall (λ y, le y (Spec.max less x xs)) xs2.
Proof.
  unfold Spec.max. induction xs as [|y ys IH] using rev_ind.
  { exists [], []. by repeat constructor. }
  destruct IH as (xs1 & xs2 & Heq & H1 & H2).
  rewrite fold_left_app. simpl.
  set (m := fold_left _ ys x) in *.
  rewrite app_comm_cons, Heq, <-app_assoc. destruct (less m y) eqn:E.
  - exists (xs1 ++ m :: xs2), []. rewrite <-app_assoc. split_and!; [done| |constructor].
    apply Forall_app. split; [|constructor; [done|]].
    + eapply Forall_impl; [apply H1|]. intros a Ha. cbn beta in *.
      eapply less_le_trans; [done|apply Ha|]. by apply less_not_after.
    + eapply Forall_impl; [apply H2|]. intros a Ha. cbn beta in *.
      destruct (less a y) eqn:E'; [done|]. unfold not_after in Ha.
      rewrite (swo_ntrans _ _ _ Ha E') in E. done.
  - exists xs1, (xs2 ++ [y]). split_and!; [done|done|].
    apply Forall_app. split; [done|]. by repeat constructor.
Qed.

Lemma max_upper_bound x xs y : y ∈ x :: xs → le y (Spec.max less x xs).
Proof.
  destruct (max_spec x xs) as (xs1 & xs2 & Heq & H1 & H2). rewrite Heq.
  rewrite Forall_forall in H1, H2.
  intros [Hy|[->|Hy]%elem_of_cons]%elem_of_app.
  - by apply less_not_after, H1.
  - apply not_after_refl, _.
  - by apply H2.
Qed.

Lemma max_in x xs : Spec.max less x xs ∈ x :: xs.
Proof. destruct (max_spec x xs) as (xs1 & xs2 & -> & _). set_solver. Qed.
End extremal_facts.

(** The order seen from the other side is again a strict weak order, and the
    minimum is its maximum. *)
Definition flip_less {A} (less : A → A → bool) (a b : A) : bool := less b a.

#[global] Instance flip_less_swo {A} (less : A → A → bool) :
  StrictWeakOrder less → StrictWeakOrder (flip_less less).
Proof.
  intros H. split; unfold flip_less.
  - intros a b. apply swo_asym.
  - intros a b c Hab Hbc. eapply swo_ntrans; eauto.
Qed.

Lemma min_is_flip_max {A} (less : A → A → bool) x xs :
  Spec.min less x xs = Spec.max (flip_less less) x xs.
Proof. done. Qed.

Lemma unique_perm {A} (less : A → A → bool) x xs k d :
  Spec.unique less x xs = (k, d) → x :: xs ≡ₚ k ++ d.
Proof.
  revert x k d. induction xs as [|y ys IH]; simpl; intros x k d H; [by simplify_eq|].
  destruct (negb (less x y) && negb (less y x)).
  - destruct (Spec.unique less x ys) as [k' d'] eqn:E. simplify_eq.
    rewrite <-Permutation_middle, <-(IH _ _ _ E). apply perm_swap.
  - destruct (Spec.unique less y ys) as [k' d'] eqn:E. simplify_eq.
    simpl. by rewrite <-(IH _ _ _ E).
Qed.

(** Neighbours of the result are never equivalent. *)
Fixpoint no_adjacent_same {A} (less : A → A → bool) (xs : list A) : Prop :=
  match xs with
  | x :: ((y :: _) as t) => same less x y = false ∧ no_adjacent_same less t
  | _ => True
  end.

Lemma unique_no_adjacent {A} (less : A → A → bool) x xs :
  ∃ k', (Spec.unique less x xs).1 = x :: k' ∧ no_adjacent_same less (x :: k').
Proof.
  revert x. induction xs as [|y ys IH]; simpl; intros x; [by exists []|].
  destruct (negb (less x y) && negb (less y x)) eqn:E.
  - destruct (IH x) as (k' & Hk & Hn). exists k'.
    destruct (Spec.unique less x ys) as [k d]. by simpl in *.
  - destruct (IH y) as (k' & Hk & Hn).
    destruct (Spec.unique less y ys) as [k d]. simpl in *. subst k.
    exists (y :: k'). split_and!; done.
Qed.

(** Comparison by an integer key, the form of every comparison function of the
    kernel; [flip_less (by_key k)] is the decreasing order. *)
Definition by_key {A} (k : A → Z) (a b : A) : bool := (k a <? k b)%Z.

#[global] Instance by_key_swo {A} (k : A → Z) : StrictWeakOrder (by_key k).
Proof. split; unfold by_key; intros; rewrite ?Z.ltb_lt, ?Z.ltb_ge in *; lia. Qed.

(** ** The stable sort as a function: insertion, one element after the other *)
Definition sort_list {A} (less : A → A → bool) (xs : list A) : list A :=
  fold_left (λ acc x, Spec.insert_ordered less x acc) xs [].

Section sort_list.
Context {A : Type} (less : A → A → bool).

Lemma fold_insert_perm xs acc :
  fold_left (λ acc x, Spec.insert_ordered less x acc) xs acc ≡ₚ xs ++ acc.
Proof.
  revert acc. induction xs as [|x xs IH]; intros acc; simpl; [done|].
  by rewrite IH, insert_ordered_perm, Permutation_middle.
Qed.
Lemma sort_list_perm xs : sort_list less xs ≡ₚ xs.
Proof. unfold sort_list. by rewrite fold_insert_perm, app_nil_r. Qed.

Context `{!StrictWeakOrder less}.

Lemma same_less z a b : same less z a → less a b = true → ¬ same less z b.
Proof.
  unfold same. intros [Hza Haz]%andb_prop_elim Hab [Hzb Hbz]%andb_prop_elim.
  apply negb_prop_elim in Hza, Haz, Hzb, Hbz.
  assert (less a b = false); [|congruence].
  apply (swo_ntrans _ z); by apply not_true_is_false; intros E; rewrite E in *.
Qed.

Lemma insert_ordered_filter z x xs :
  Sorted (not_after less) xs →
  filter (same less z) (Spec.insert_ordered less x xs) =
  filter (same less z) xs ++ filter (same less z) [x].
Proof.
  intros Hs. destruct (insert_ordered_split less x xs) as (xs1 & xs2 & -> & -> & _ & Hh).
  apply sorted_suffix in Hs. rewrite !filter_app, filter_cons, <-app_assoc. f_equal.
  rewrite (filter_cons _ x), filter_nil. case_decide as Hx; [|by rewrite app_nil_r].
  assert (filter (same less z) xs2 = []) as ->; [|done].
  destruct xs2 as [|y ys]; [done|]. pose proof (Hh y eq_refl) as Hxy.
  apply (same_above less z x y ys Hs Hxy Hx).
Qed.

Lemma sort_list_stable xs : stable_sort_of less xs (sort_list less xs).
Proof.
  assert (∀ ys acc, Sorted (not_after less) acc →
    Sorted (not_after less) (fold_left (λ acc x, Spec.insert_ordered less x acc) ys acc) ∧
    ∀ z, filter (same less z) (fold_left (λ acc x, Spec.insert_ordered less x acc) ys acc) =
         filter (same less z) acc ++ filter (same less z) ys) as H.
  { induction ys as [|y ys IH]; intros acc Hs; simpl; [split; [done|]; intros; by rewrite filter_nil, app_nil_r|].
    destruct (IH (Spec.insert_ordered less y acc)) as [H1 H2]; [by apply insert_ordered_sorted|].
    split; [done|]. intros z. rewrite H2, insert_ordered_filter, <-app_assoc by done. f_equal.
    by rewrite <-filter_app. }
  destruct (H xs [] ltac:(constructor)) as [Hs Hst]. split_and!; [done|by rewrite sort_list_perm|].
  intros z. by rewrite Hst.
Qed.

(** A stable sort is determined by its input: [list_sort] computes
    [sort_list]. *)
Lemma stable_unique ys zs :
  Sorted (not_after less) ys → Sorted (not_after less) zs →
  (∀ z, filter (same less z) ys = filter (same less z) zs) → ys = zs.
Proof.
  assert (∀ a, same less a a) as Hrefl.
  { intros a. unfold same. pose proof (not_after_refl less a) as Ha. unfold not_after in Ha.
    by rewrite Ha. }
  revert zs. induction ys as [|y ys IH]; intros [|z zs] Hy Hz Hf; [done| | |].
  { specialize (Hf z). rewrite filter_nil, filter_cons, decide_True in Hf by done. done. }
  { specialize (Hf y). rewrite filter_nil, filter_cons, decide_True in Hf by done. done. }
  assert (y = z) as ->.
  { destruct (decide (same less y z)) as [Hsame|Hns].
    - specialize (Hf y). rewrite !filter_cons, !decide_True in Hf by done. by simplify_eq.
    - (* one of them is strictly below everything in the other list *)
      destruct (less y z) eqn:Hyz.
      + pose proof (same_above less y y z zs Hz Hyz (Hrefl y)) as Hno.
        rewrite <-Hf, filter_cons, decide_True in Hno by done. done.
      + destruct (less z y) eqn:Hzy.
        * pose proof (same_above less z z y ys Hy Hzy (Hrefl z)) as Hno.
          rewrite Hf, filter_cons, decide_True in Hno by done. done.
        * exfalso. apply Hns. unfold same. by rewrite Hyz, Hzy. }
  f_equal. apply IH; [by inversion Hy|by inversion Hz|].
  intros a. specialize (Hf a). rewrite !filter_cons in Hf. case_decide; by simplify_eq.
Qed.

Lemma stable_sort_is_sort_list xs ys : stable_sort_of less xs ys → ys = sort_list less xs.
Proof.
  intros (Hs & _ & Hf). destruct (sort_list_stable xs) as (Hs' & _ & Hf').
  apply stable_unique; [done..|]. intros z. by rewrite <-Hf, <-Hf'.
Qed.

(** The first element of the sorted list is the first of the least elements. *)
Lemma sort_list_head xs t ts :
  sort_list less xs = t :: ts →
  ∃ xs1 xs2, xs = xs1 ++ t :: xs2 ∧ ts ≡ₚ xs1 ++ xs2 ∧
    Forall (λ y, less t y = true) xs1 ∧ Forall (λ y, less y t = false) xs2.
Proof.
  intros Hsort. destruct (sort_list_stable xs) as (Hs & Hperm & Hf). rewrite Hsort in *.
  assert (∀ y, y ∈ xs → less y t = false) as Hle.
  { intros y. rewrite Hperm. intros [->|Hy]%elem_of_cons; [apply not_after_refl, _|].
    eapply Forall_forall in Hy; [|by apply (sorted_forall less)]. done. }
  specialize (Hf t). rewrite (filter_cons _ t), decide_True in Hf.
  2: { unfold same. pose proof (not_after_refl less t) as Ht. unfold not_after in Ht. by rewrite Ht. }
  assert (∃ xs1 xs2, xs = xs1 ++ t :: xs2 ∧ Forall (λ y, ¬ same less t y) xs1) as (xs1 & xs2 & -> & Hns).
  { clear Hs Hsort Hperm Hle. induction xs as [|x xs IH]; [done|]. rewrite filter_cons in Hf.
    case_decide as Hx; [simplify_eq; by exists [], xs|].
    destruct (IH Hf) as (xs1 & xs2 & -> & ?). exists (x :: xs1), xs2. split; [done|by constructor]. }
  exists xs1, xs2. split_and!; [done| | |].
  - apply (inj (cons t)). by rewrite <-Hperm, Permutation_middle.
  - rewrite Forall_forall in Hns |- *. intros y Hy. specialize (Hns y Hy). unfold same in Hns.
    rewrite (Hle y) in Hns by set_solver. destruct (less t y); [done|]. by destruct Hns.
  - apply Forall_forall. intros y Hy. apply Hle. set_solver.
Qed.
End sort_list.
