(* ===== verification/KList.v ===== *)
(** * lib/kernel/list.c: the doubly linked list

    The list library is modelled on the memory it works on: a heap of
    [struct list_elem] cells with their [prev] and [next] pointers.  A
    [struct list] is the pair of addresses of its two header cells.  Every
    function of list.c is a program in the monad [M heap]; its assertions are
    kept, an access through a bad pointer is [EFault], and a loop takes one
    turn per cell of the heap and one more as its bound.

    [Module Spec] of ListSpec.v has the same operations on plain Rocq lists,
    and the theorems say that the pointer programs implement them on every well
    formed list ([dlist]), touching no cell outside the list. *)
From S2P Require Import Prelude ListSpec.
Local Open Scope Z_scope.

(** ** Data *)

(** Addresses of list elements; the null pointer is 0. *)
Abbreviation elem := Z (only parsing).
Definition NULL : elem := 0.

(** [struct list_elem]. *)
Record node := Node { prev : elem; next : elem }.
(** [struct list]: the addresses of its members [head] and [tail]. *)
Record klist := KList { l_head : elem; l_tail : elem }.

Abbreviation heap := (gmap Z node) (only parsing).
(** [list_less_func] applied to its auxiliary data.  Comparison functions
    read the structures the elements are embedded in, never the links. *)
Abbreviation less_func := (elem → elem → bool) (only parsing).

#[global] Instance node_eq_dec : EqDecision node.
Proof. solve_decision. Defined.

Definition get_prev (e : elem) : M heap elem :=
  n ← gets (.!! e); n ← the n; mret (prev n).
Definition get_next (e : elem) : M heap elem :=
  n ← gets (.!! e); n ← the n; mret (next n).

Definition set_prev (e v : elem) : M heap unit :=
  n ← gets (.!! e); n ← the n; modify <[e := Node v (next n)]>.
Definition set_next (e v : elem) : M heap unit :=
  n ← gets (.!! e); n ← the n; modify <[e := Node (prev n) v]>.

(** Loops over list elements: a list has no more cells than the heap. *)
Definition while {A B} (body : A → M heap (A + B)) (a : A) : M heap B :=
  λ h, loop (S (size h)) body a h.

(** ** Operations, in the order of list.c *)

Definition is_head (e : elem) : M heap bool :=
  and_also (negb (e =? NULL))
    (p ← get_prev e; and_also (p =? NULL)
      (n ← get_next e; mret (negb (n =? NULL)))).

Definition is_interior (e : elem) : M heap bool :=
  and_also (negb (e =? NULL))
    (p ← get_prev e; and_also (negb (p =? NULL))
      (n ← get_next e; mret (negb (n =? NULL)))).

Definition is_tail (e : elem) : M heap bool :=
  and_also (negb (e =? NULL))
    (p ← get_prev e; and_also (negb (p =? NULL))
      (n ← get_next e; mret (n =? NULL))).

Definition list_init (l : klist) : M heap unit :=
  set_prev (l_head l) NULL ;;
  set_next (l_head l) (l_tail l) ;;
  set_prev (l_tail l) (l_head l) ;;
  set_next (l_tail l) NULL.

Definition list_begin (l : klist) : M heap elem := get_next (l_head l).

Definition list_next (e : elem) : M heap elem :=
  b ← or_else (is_head e) (is_interior e);
  ASSERT b ;; get_next e.

Definition list_end (l : klist) : M heap elem := mret (l_tail l).

Definition list_rbegin (l : klist) : M heap elem := get_prev (l_tail l).

Definition list_prev (e : elem) : M heap elem :=
  b ← or_else (is_interior e) (is_tail e);
  ASSERT b ;; get_prev e.

Definition list_rend (l : klist) : M heap elem := mret (l_head l).
Definition list_head (l : klist) : M heap elem := mret (l_head l).
Definition list_tail (l : klist) : M heap elem := mret (l_tail l).

Definition list_insert (before e : elem) : M heap unit :=
  b ← or_else (is_interior before) (is_tail before);
  ASSERT b ;;
  ASSERT (negb (e =? NULL)) ;;
  p ← get_prev before;
  set_prev e p ;;
  set_next e before ;;
  p ← get_prev before;
  set_next p e ;;
  set_prev before e.

Definition list_splice (before first last : elem) : M heap unit :=
  b ← or_else (is_interior before) (is_tail before);
  ASSERT b ;;
  if first =? last then mret tt
  else
    last ← list_prev last;
    b ← is_interior first; ASSERT b ;;
    b ← is_interior last; ASSERT b ;;
    fp ← get_prev first; ln ← get_next last; set_next fp ln ;;
    ln ← get_next last; fp ← get_prev first; set_prev ln fp ;;
    bp ← get_prev before; set_prev first bp ;;
    set_next last before ;;
    bp ← get_prev before; set_next bp first ;;
    set_prev before last.

Definition list_push_front (l : klist) (e : elem) : M heap unit :=
  b ← list_begin l; list_insert b e.

Definition list_push_back (l : klist) (e : elem) : M heap unit :=
  b ← list_end l; list_insert b e.

Definition list_remove (e : elem) : M heap elem :=
  b ← is_interior e; ASSERT b ;;
  p ← get_prev e; n ← get_next e; set_next p n ;;
  n ← get_next e; p ← get_prev e; set_prev n p ;;
  get_next e.

Definition list_empty (l : klist) : M heap bool :=
  b ← list_begin l; e ← list_end l; mret (b =? e).

Definition list_front (l : klist) : M heap elem :=
  b ← list_empty l; ASSERT (negb b) ;; get_next (l_head l).

Definition list_back (l : klist) : M heap elem :=
  b ← list_empty l; ASSERT (negb b) ;; get_prev (l_tail l).

Definition list_pop_front (l : klist) : M heap elem :=
  front ← list_front l; list_remove front ;; mret front.

Definition list_pop_back (l : klist) : M heap elem :=
  back ← list_back l; list_remove back ;; mret back.

Definition list_size (l : klist) : M heap Z :=
  e ← list_begin l;
  while (λ '(e, cnt),
    t ← list_end l;
    if e =? t then mret (inr cnt)
    else e' ← list_next e; mret (inl (e', cnt + 1))) (e, 0).

(** [swap] on the [prev] and [next] members of one element. *)
Definition swap_links (e : elem) : M heap unit :=
  t ← get_prev e; n ← get_next e; set_prev e n ;; set_next e t.

(** The two [swap]s after the loop of [list_reverse]. *)
Definition swap_ends (l : klist) : M heap unit :=
  (* swap (&list->head.next, &list->tail.prev) *)
  hn ← get_next (l_head l); tp ← get_prev (l_tail l);
  set_next (l_head l) tp ;; set_prev (l_tail l) hn ;;
  (* swap (&list->head.next->prev, &list->tail.prev->next) *)
  hn ← get_next (l_head l); tp ← get_prev (l_tail l);
  a ← get_prev hn; b ← get_next tp;
  set_prev hn b ;; set_next tp a.

Definition list_reverse (l : klist) : M heap unit :=
  b ← list_empty l;
  if (b : bool) then mret tt
  else
    e ← list_begin l;
    while (λ e : elem,
      t ← list_end l;
      if e =? t then mret (inr tt)
      else swap_links e ;; e' ← get_prev e; mret (inl e')) e ;;
    swap_ends l.

Definition is_sorted (a b : elem) (less : less_func) : M heap bool :=
  if a =? b then mret true
  else
    while (λ a : elem,
      a ← list_next a;
      if a =? b then mret (inr true)
      else
        p ← list_prev a;
        if less a p then mret (inr false) else mret (inl a)) a.

Definition find_end_of_run (a b : elem) (less : less_func) : M heap elem :=
  ASSERT (negb (a =? NULL)) ;; ASSERT (negb (b =? NULL)) ;;
  ASSERT (negb (a =? b)) ;;
  while (λ a : elem,
    a ← list_next a;
    if a =? b then mret (inr a)
    else
      p ← list_prev a;
      if less a p then mret (inr a) else mret (inl a)) a.

Definition inplace_merge (a0 a1b0 b1 : elem) (less : less_func) : M heap unit :=
  ASSERT (negb (a0 =? NULL)) ;; ASSERT (negb (a1b0 =? NULL)) ;;
  ASSERT (negb (b1 =? NULL)) ;;
  b ← is_sorted a0 a1b0 less; ASSERT b ;;
  b ← is_sorted a1b0 b1 less; ASSERT b ;;
  while (λ '(a0, a1b0),
    if (a0 =? a1b0) || (a1b0 =? b1) then mret (inr tt)
    else if negb (less a1b0 a0) then
      a0 ← list_next a0; mret (inl (a0, a1b0))
    else
      a1b0 ← list_next a1b0;
      p ← list_prev a1b0;
      list_splice a0 p a1b0 ;;
      mret (inl (a0, a1b0))) (a0, a1b0).

(** One pass of the [do ... while] loop of [list_sort]; its result is
    [output_run_cnt]. *)
Definition sort_pass (l : klist) (less : less_func) : M heap Z :=
  a0 ← list_begin l;
  while (λ '(a0, output_run_cnt),
    t ← list_end l;
    if a0 =? t then mret (inr output_run_cnt)
    else
      let output_run_cnt := output_run_cnt + 1 in
      t ← list_end l;
      a1b0 ← find_end_of_run a0 t less;
      if a1b0 =? t then mret (inr output_run_cnt)
      else
        b1 ← find_end_of_run a1b0 t less;
        inplace_merge a0 a1b0 b1 less ;;
        mret (inl (b1, output_run_cnt))) (a0, 0).

Definition list_sort (l : klist) (less : less_func) : M heap unit :=
  while (λ _ : unit,
    output_run_cnt ← sort_pass l less;
    if 1 <? output_run_cnt then mret (inl tt) else mret (inr tt)) tt ;;
  b ← list_begin l; e ← list_end l;
  ok ← is_sorted b e less; ASSERT ok.

Definition list_insert_ordered (l : klist) (e : elem) (less : less_func) : M heap unit :=
  ASSERT (negb (e =? NULL)) ;;
  b ← list_begin l;
  p ← while (λ p : elem,
        t ← list_end l;
        if p =? t then mret (inr p)
        else if less e p then mret (inr p)
        else p' ← list_next p; mret (inl p')) b;
  list_insert p e.

Definition list_unique (l : klist) (duplicates : option klist) (less : less_func)
    : M heap unit :=
  b ← list_empty l;
  if (b : bool) then mret tt
  else
    e ← list_begin l;
    while (λ e : elem,
      n ← list_next e;
      t ← list_end l;
      if n =? t then mret (inr tt)
      else if negb (less e n) && negb (less n e) then
        list_remove n ;;
        match duplicates with
        | Some d => list_push_back d n
        | None => mret tt
        end ;;
        mret (inl e)
      else mret (inl n)) e.

Definition list_max (l : klist) (less : less_func) : M heap elem :=
  mx ← list_begin l;
  t ← list_end l;
  if mx =? t then mret mx
  else
    e ← list_next mx;
    while (λ '(e, mx),
      t ← list_end l;
      if e =? t then mret (inr mx)
      else
        let mx' := if less mx e then e else mx in
        e' ← list_next e; mret (inl (e', mx'))) (e, mx).

Definition list_min (l : klist) (less : less_func) : M heap elem :=
  mn ← list_begin l;
  t ← list_end l;
  if mn =? t then mret mn
  else
    e ← list_next mn;
    while (λ '(e, mn),
      t ← list_end l;
      if e =? t then mret (inr mn)
      else
        let mn' := if less e mn then e else mn in
        e' ← list_next e; mret (inl (e', mn'))) (e, mn).
