(* ===== verification/KListFacts.v ===== *)
(** * The pointer list implements the plain list

    [dlist h l xs]: in heap [h] the list [l] is well formed and its elements
    are [xs], front to back.  Each section below proves the operations of one
    part of list.c against [dlist]. *)
From S2P Require Import Prelude ListSpec KList.
Local Open Scope Z_scope.

(** ** Cells *)

Definition nx (h : heap) (e : elem) : option elem := next <$> h !! e.
Definition pv (h : heap) (e : elem) : option elem := prev <$> h !! e.

Definition upd_prev (h : heap) (e v : elem) : heap := alter (λ n, Node v (next n)) e h.
Definition upd_next (h : heap) (e v : elem) : heap := alter (λ n, Node (prev n) v) e h.

Section cells.
Implicit Types (h : heap) (e a v : elem).

Lemma nx_upd_prev h e v a : nx (upd_prev h e v) a = nx h a.
Proof.
  unfold nx, upd_prev. rewrite lookup_alter. case_decide; [subst|done].
  by destruct (h !! a).
Qed.
Lemma pv_upd_next h e v a : pv (upd_next h e v) a = pv h a.
Proof.
  unfold pv, upd_next. rewrite lookup_alter. case_decide; [subst|done].
  by destruct (h !! a).
Qed.
Lemma pv_upd_prev h e v a :
  pv (upd_prev h e v) a = if decide (e = a) then (λ _, v) <$> pv h a else pv h a.
Proof.
  unfold pv, upd_prev. rewrite lookup_alter. case_decide; [subst|done].
  by destruct (h !! a).
Qed.
Lemma nx_upd_next h e v a :
  nx (upd_next h e v) a = if decide (e = a) then (λ _, v) <$> nx h a else nx h a.
Proof.
  unfold nx, upd_next. rewrite lookup_alter. case_decide; [subst|done].
  by destruct (h !! a).
Qed.

Lemma pv_is_Some h e : is_Some (pv h e) ↔ is_Some (h !! e).
Proof. unfold pv. by rewrite fmap_is_Some. Qed.
Lemma nx_is_Some h e : is_Some (nx h e) ↔ is_Some (h !! e).
Proof. unfold nx. by rewrite fmap_is_Some. Qed.

Lemma cell_ext h h' a : nx h' a = nx h a → pv h' a = pv h a → h' !! a = h !! a.
Proof.
  unfold nx, pv. destruct (h !! a) as [[]|], (h' !! a) as [[]|]; simpl; congruence.
Qed.

Lemma nx_ext h h' a : h' !! a = h !! a → nx h' a = nx h a.
Proof. unfold nx. by intros ->. Qed.
Lemma pv_ext h h' a : h' !! a = h !! a → pv h' a = pv h a.
Proof. unfold pv. by intros ->. Qed.

Lemma wp_get_prev h e p (Q : elem → heap → Prop) :
  pv h e = Some p → Q p h → wp (get_prev e) h Q.
Proof.
  unfold pv, get_prev. intros (n & Hn & ->)%fmap_Some HQ.
  wp_steps. eapply wp_the; [done|]. by apply wp_ret.
Qed.
Lemma wp_get_next h e p (Q : elem → heap → Prop) :
  nx h e = Some p → Q p h → wp (get_next e) h Q.
Proof.
  unfold nx, get_next. intros (n & Hn & ->)%fmap_Some HQ.
  wp_steps. eapply wp_the; [done|]. by apply wp_ret.
Qed.
Lemma wp_set_prev h e v (Q : unit → heap → Prop) :
  is_Some (h !! e) → Q tt (upd_prev h e v) → wp (set_prev e v) h Q.
Proof.
  unfold set_prev, upd_prev. intros [n Hn] HQ.
  wp_steps. eapply wp_the; [done|]. apply wp_modify.
  replace (<[e:=Node v (next n)]> h) with (alter (λ n, Node v (next n)) e h);
    [done|]; apply map_eq; intros i; rewrite lookup_alter, lookup_insert;
    case_decide; [subst; by rewrite Hn|done].
Qed.
Lemma wp_set_next h e v (Q : unit → heap → Prop) :
  is_Some (h !! e) → Q tt (upd_next h e v) → wp (set_next e v) h Q.
Proof.
  unfold set_next, upd_next. intros [n Hn] HQ.
  wp_steps. eapply wp_the; [done|]. apply wp_modify.
  replace (<[e:=Node (prev n) v]> h) with (alter (λ n, Node (prev n) v) e h);
    [done|]; apply map_eq; intros i; rewrite lookup_alter, lookup_insert;
    case_decide; [subst; by rewrite Hn|done].
Qed.

Lemma upd_prev_is_Some h e v a : is_Some (upd_prev h e v !! a) ↔ is_Some (h !! a).
Proof. by rewrite <-!nx_is_Some, nx_upd_prev. Qed.
Lemma upd_next_is_Some h e v a : is_Some (upd_next h e v !! a) ↔ is_Some (h !! a).
Proof. by rewrite <-!pv_is_Some, pv_upd_next. Qed.
End cells.

Create Rewrite HintDb cells.
#[export] Hint Rewrite nx_upd_prev pv_upd_next pv_upd_prev nx_upd_next
  upd_prev_is_Some upd_next_is_Some : cells.
#[export] Hint Resolve <- pv_is_Some nx_is_Some : pintos.
#[global] Opaque nx pv upd_prev upd_next.

Lemma const_pv (h : heap) (e v : elem) : is_Some (h !! e) → (λ _, v) <$> pv h e = Some v.
Proof. intros [? Hp]%pv_is_Some. by rewrite Hp. Qed.
Lemma const_nx (h : heap) (e v : elem) : is_Some (h !! e) → (λ _, v) <$> nx h e = Some v.
Proof. intros [? Hp]%nx_is_Some. by rewrite Hp. Qed.

(** Split membership facts down to single cells. *)
Ltac mem_facts :=
  repeat match goal with
  | H : _ ∈ _ ++ _ |- _ => apply elem_of_app in H as [H|H]
  | H : _ ∈ _ :: _ |- _ => apply elem_of_cons in H as [H|H]
  | H : _ ∈ [] |- _ => by apply elem_of_nil in H
  | H : _ ∉ _ ++ _ |- _ => apply not_elem_of_app in H as [? ?]
  | H : _ ∉ _ :: _ |- _ => apply not_elem_of_cons in H as [? ?]
  end.

(** Compute the links of an updated heap: a test between a cell and itself
    succeeds, the others are refuted by the facts at hand. *)
Ltac cells :=
  autorewrite with cells;
  repeat (let Hc := fresh "Hc" in case_decide as Hc;
          [first [match type of Hc with ?x = ?x => clear Hc end
                 |exfalso; congruence
                 |exfalso; subst; mem_facts; subst; done]
          |try (exfalso; congruence)]);
  rewrite ?const_pv, ?const_nx by (autorewrite with cells; done);
  try done.

(** ** Chains *)

Section chains.
Implicit Types (h : heap) (xs ys : list elem) (a b e : elem).

(** Consecutive elements point at each other. *)
Fixpoint linked h ys : Prop :=
  match ys with
  | a :: ((b :: _) as t) => nx h a = Some b ∧ pv h b = Some a ∧ linked h t
  | _ => True
  end.

Lemma linked_app h xs a ys :
  linked h (xs ++ a :: ys) ↔ linked h (xs ++ [a]) ∧ linked h (a :: ys).
Proof.
  induction xs as [|x [|x' xs] IH]; simpl in *; [tauto| |];
    destruct ys; simpl in *; tauto.
Qed.

Lemma linked_pair h xs a b ys :
  linked h (xs ++ a :: b :: ys) ↔
  linked h (xs ++ [a]) ∧ nx h a = Some b ∧ pv h b = Some a ∧ linked h (b :: ys).
Proof. rewrite linked_app. done. Qed.

Lemma linked_adj h xs a b ys :
  linked h (xs ++ a :: b :: ys) → nx h a = Some b ∧ pv h b = Some a.
Proof. rewrite linked_pair. tauto. Qed.

(** The [next] of the last and the [prev] of the first cell do not matter. *)
Lemma linked_frame h h' ys :
  linked h ys →
  (∀ a, a ∈ removelast ys → nx h' a = nx h a) →
  (∀ a, a ∈ tail ys → pv h' a = pv h a) →
  linked h' ys.
Proof.
  induction ys as [|a [|b ys] IH]; [done|done|].
  intros (Hn & Hp & Hl) Hnx Hpv. split_and!.
  - rewrite Hnx; [done|]. simpl. set_solver.
  - rewrite Hpv; [done|]. simpl. set_solver.
  - apply IH; [done| |].
    + intros c Hc. apply Hnx. simpl in *. destruct ys; set_solver.
    + intros c Hc. apply Hpv. simpl in *. set_solver.
Qed.

Lemma removelast_snoc xs a : removelast (xs ++ [a]) = xs.
Proof. apply removelast_last. Qed.
Lemma removelast_sub xs a : a ∈ removelast xs → a ∈ xs.
Proof.
  destruct xs as [|x xs _] using rev_ind; [done|].
  rewrite removelast_snoc. set_solver.
Qed.
Lemma tail_sub xs a : a ∈ tail xs → a ∈ xs.
Proof. destruct xs; set_solver. Qed.

Lemma linked_frame_snoc h h' xs z :
  linked h (xs ++ [z]) →
  (∀ a, a ∈ xs → nx h' a = nx h a) →
  (∀ a, a ∈ xs ++ [z] → pv h' a = pv h a) →
  linked h' (xs ++ [z]).
Proof.
  intros Hl Hn Hp. apply (linked_frame h); [done| |].
  - rewrite removelast_snoc. done.
  - intros a Ha. apply Hp. by apply tail_sub.
Qed.

Lemma linked_frame_cons h h' z xs :
  linked h (z :: xs) →
  (∀ a, a ∈ z :: xs → nx h' a = nx h a) →
  (∀ a, a ∈ xs → pv h' a = pv h a) →
  linked h' (z :: xs).
Proof.
  intros Hl Hn Hp. apply (linked_frame h); [done| |done].
  intros a Ha. apply Hn. by apply removelast_sub.
Qed.

Lemma linked_frame_all h h' ys :
  linked h ys → (∀ a, a ∈ ys → h' !! a = h !! a) → linked h' ys.
Proof.
  intros Hl Hc. apply (linked_frame h); [done| |].
  - intros a Ha%removelast_sub. by apply nx_ext, Hc.
  - intros a Ha%tail_sub. by apply pv_ext, Hc.
Qed.
End chains.

(** ** Well formed lists *)

Definition cells_of (l : klist) (xs : list elem) : list elem :=
  l_head l :: xs ++ [l_tail l].

Record dlist (h : heap) (l : klist) (xs : list elem) : Prop := {
  dl_nodup : NoDup (cells_of l xs);
  dl_null : NULL ∉ cells_of l xs;
  dl_head : pv h (l_head l) = Some NULL;
  dl_tail : nx h (l_tail l) = Some NULL;
  dl_linked : linked h (cells_of l xs);
}.

#[global] Instance linked_dec h ys : Decision (linked h ys).
Proof.
  induction ys as [|a [|b ys] IH]; simpl; [left; done|left; done|].
  repeat apply and_dec; apply _.
Defined.

(** Well-formedness can be checked on a concrete heap. *)
Definition dlistb (h : heap) (l : klist) (xs : list elem) : bool :=
  bool_decide (NoDup (cells_of l xs)) && bool_decide (NULL ∉ cells_of l xs) &&
  bool_decide (pv h (l_head l) = Some NULL) &&
  bool_decide (nx h (l_tail l) = Some NULL) &&
  bool_decide (linked h (cells_of l xs)).

Lemma dlistb_sound h l xs : dlistb h l xs = true → dlist h l xs.
Proof.
  unfold dlistb. rewrite !andb_true_iff, !bool_decide_eq_true.
  intros ((((?&?)&?)&?)&?). by split.
Qed.

(** Nothing changes outside the given cells. *)
Definition outside (C : list elem) (h h' : heap) : Prop :=
  ∀ a, a ∉ C → h' !! a = h !! a.

Lemma outside_trans C h1 h2 h3 : outside C h1 h2 → outside C h2 h3 → outside C h1 h3.
Proof. unfold outside. intros H1 H2 a Ha. rewrite H2, H1; done. Qed.
Lemma outside_refl C h : outside C h h.
Proof. done. Qed.
Lemma outside_mono C C' h h' : C ⊆ C' → outside C h h' → outside C' h h'.
Proof. unfold outside. set_solver. Qed.
#[export] Hint Resolve outside_refl : pintos.

(** A list none of whose cells changed is still the same list. *)
Lemma dlist_outside C h h' l xs :
  dlist h l xs → outside C h h' → (∀ a, a ∈ cells_of l xs → a ∉ C) → dlist h' l xs.
Proof.
  intros [? ? Hh Ht ?] Ho Hd.
  assert (∀ a, a ∈ cells_of l xs → h' !! a = h !! a) as Hs by (intros; auto).
  split; [done|done| | |by eapply linked_frame_all].
  - rewrite (pv_ext h); [done|]. apply Hs. unfold cells_of. set_solver.
  - rewrite (nx_ext h); [done|]. apply Hs. unfold cells_of. set_solver.
Qed.

Section dlist_facts.
Context {h : heap} {l : klist} {xs : list elem} (Hdl : dlist h l xs).
Implicit Types (a b e : elem).

Lemma dl_adj P a b Q :
  cells_of l xs = P ++ a :: b :: Q → nx h a = Some b ∧ pv h b = Some a.
Proof.
  intros Heq. pose proof (dl_linked _ _ _ Hdl) as Hl. rewrite Heq in Hl.
  by apply linked_adj in Hl.
Qed.

Lemma dl_nonnull a : a ∈ cells_of l xs → a ≠ NULL.
Proof. intros Ha ->. by apply (dl_null _ _ _ Hdl). Qed.

Lemma dl_cell a : a ∈ cells_of l xs → is_Some (h !! a).
Proof.
  intros Ha. unfold cells_of in Ha. rewrite elem_of_cons, elem_of_app in Ha.
  destruct Ha as [->|[Ha|Ha%list_elem_of_singleton]].
  - apply pv_is_Some. rewrite (dl_head _ _ _ Hdl). eauto.
  - apply list_elem_of_split in Ha as (x1 & x2 & Hx).
    assert (∃ P p, l_head l :: x1 = P ++ [p]) as (P & p & HP).
    { destruct (exists_last (l := l_head l :: x1)) as (P & p & ->); [done|eauto]. }
    destruct (dl_adj P p a (x2 ++ [l_tail l])) as [_ Hpv].
    { unfold cells_of. rewrite Hx, <-app_assoc. simpl.
      by rewrite app_comm_cons, HP, <-app_assoc. }
    apply pv_is_Some. rewrite Hpv. eauto.
  - subst. apply nx_is_Some. rewrite (dl_tail _ _ _ Hdl). eauto.
Qed.

(** Loops over the list stay within their bound. *)
Lemma dl_length : (S (S (length xs)) ≤ size h)%nat.
Proof.
  assert (list_to_set (cells_of l xs) ⊆ (dom h : gset Z)) as Hsub.
  { intros a Ha%elem_of_list_to_set. apply elem_of_dom. by apply dl_cell. }
  apply subseteq_size in Hsub.
  rewrite size_list_to_set in Hsub by apply (dl_nodup _ _ _ Hdl).
  rewrite size_dom in Hsub. unfold cells_of in Hsub. simpl in Hsub.
  rewrite length_app in Hsub. simpl in Hsub. lia.
Qed.
End dlist_facts.

(** The contents of a list determine its cells: two heaps in which it has the
    same elements agree on all of them. *)
Lemma linked_nx h h' ys a :
  linked h ys → linked h' ys → a ∈ removelast ys → nx h' a = nx h a.
Proof.
  induction ys as [|x [|y ys] IH]; [set_solver..|].
  intros (Hn & _ & Hl) (Hn' & _ & Hl') [->|Ha]%elem_of_cons; [congruence|auto].
Qed.
Lemma linked_pv h h' ys a :
  linked h ys → linked h' ys → a ∈ tail ys → pv h' a = pv h a.
Proof.
  induction ys as [|x [|y ys] IH]; [set_solver..|].
  intros (_ & Hp & Hl) (_ & Hp' & Hl') [->|Ha]%elem_of_cons; [congruence|auto].
Qed.
Lemma dlist_cell_unique h h' l xs a :
  dlist h l xs → dlist h' l xs → a ∈ cells_of l xs → h' !! a = h !! a.
Proof.
  intros [_ _ Hh Ht Hl] [_ _ Hh' Ht' Hl'] Ha. unfold cells_of in *. apply cell_ext.
  - rewrite app_comm_cons in Ha. apply elem_of_app in Ha as [Ha|Ha%list_elem_of_singleton].
    + eapply linked_nx; [done..|]. by rewrite app_comm_cons, removelast_snoc.
    + congruence.
  - apply elem_of_cons in Ha as [->|Ha]; [congruence|]. by eapply linked_pv.
Qed.

(** Around any position of the list there is a cell before and a cell after. *)
Lemma cells_split l xs1 xs2 :
  ∃ P p Q, l_head l :: xs1 = P ++ [p] ∧
    xs2 ++ [l_tail l] = hd (l_tail l) xs2 :: Q ∧
    cells_of l (xs1 ++ xs2) = P ++ p :: hd (l_tail l) xs2 :: Q.
Proof.
  destruct (exists_last (l := l_head l :: xs1)) as (P & p & HP); [done|].
  assert (∃ Q, xs2 ++ [l_tail l] = hd (l_tail l) xs2 :: Q) as [Q HQ].
  { destruct xs2; simpl; eauto. }
  exists P, p, Q. split_and!; [done|done|].
  unfold cells_of. by rewrite <-app_assoc, HQ, app_comm_cons, HP, <-app_assoc.
Qed.

Lemma NoDup_middle (P R : list elem) p :
  NoDup (P ++ p :: R) ↔ p ∉ P ∧ p ∉ R ∧ NoDup (P ++ R).
Proof.
  rewrite <-Permutation_middle, NoDup_cons, not_elem_of_app. tauto.
Qed.

(** ** Traversal *)
Section traversal.
Implicit Types (h : heap) (l : klist) (xs : list elem) (a b e p n : elem).

Lemma wp_is_head h e p n (Q : bool → heap → Prop) :
  e ≠ NULL → pv h e = Some p → nx h e = Some n →
  Q ((p =? NULL) && negb (n =? NULL)) h → wp (is_head e) h Q.
Proof.
  intros He Hp Hn HQ. unfold is_head, and_also.
  rewrite (proj2 (Z.eqb_neq e NULL)) by done. simpl. wp_step.
  eapply wp_get_prev; [done|]. destruct (p =? NULL); simpl in *; [|done].
  wp_step. by eapply wp_get_next.
Qed.
Lemma wp_is_interior h e p n (Q : bool → heap → Prop) :
  e ≠ NULL → pv h e = Some p → nx h e = Some n →
  Q (negb (p =? NULL) && negb (n =? NULL)) h → wp (is_interior e) h Q.
Proof.
  intros He Hp Hn HQ. unfold is_interior, and_also.
  rewrite (proj2 (Z.eqb_neq e NULL)) by done. simpl. wp_step.
  eapply wp_get_prev; [done|]. destruct (p =? NULL); simpl in *; [done|].
  wp_step. by eapply wp_get_next.
Qed.
Lemma wp_is_tail h e p n (Q : bool → heap → Prop) :
  e ≠ NULL → pv h e = Some p → nx h e = Some n →
  Q (negb (p =? NULL) && (n =? NULL)) h → wp (is_tail e) h Q.
Proof.
  intros He Hp Hn HQ. unfold is_tail, and_also.
  rewrite (proj2 (Z.eqb_neq e NULL)) by done. simpl. wp_step.
  eapply wp_get_prev; [done|]. destruct (p =? NULL); simpl in *; [done|].
  wp_step. by eapply wp_get_next.
Qed.

Lemma wp_or_else h (m n : M heap bool) (b c : bool) (Q : bool → heap → Prop) :
  wp m h (λ r h', r = b ∧ h' = h) → (b = false → wp n h (λ r h', r = c ∧ h' = h)) →
  Q (b || c) h → wp (or_else m n) h Q.
Proof.
  intros Hm Hn HQ. unfold or_else. wp_step. eapply wp_mono; [done|].
  intros ? ? [-> ->]. destruct b; simpl in *; [by apply wp_ret|].
  eapply wp_mono; [by apply Hn|]. by intros ? ? [-> ->].
Qed.

(** [before] of an insertion: interior or tail, i.e. not a head. *)
Lemma wp_not_head h e p n (Q : bool → heap → Prop) :
  e ≠ NULL → pv h e = Some p → nx h e = Some n → p ≠ NULL →
  Q true h → wp (or_else (is_interior e) (is_tail e)) h Q.
Proof.
  intros He Hp Hn Hpn HQ.
  apply (wp_or_else _ _ _ (negb (n =? NULL)) (n =? NULL)).
  - eapply wp_is_interior; [done..|]. rewrite (proj2 (Z.eqb_neq p NULL)) by done. done.
  - intros _. eapply wp_is_tail; [done..|].
    rewrite (proj2 (Z.eqb_neq p NULL)) by done. done.
  - by destruct (n =? NULL).
Qed.

Lemma wp_list_next_cell h e p n (Q : elem → heap → Prop) :
  e ≠ NULL → pv h e = Some p → nx h e = Some n → n ≠ NULL →
  Q n h → wp (list_next e) h Q.
Proof.
  intros He Hp Hn Hnn HQ. unfold list_next. wp_step.
  apply (wp_or_else _ _ _ (p =? NULL) (negb (p =? NULL))).
  - eapply wp_is_head; [done..|]. rewrite (proj2 (Z.eqb_neq n NULL)) by done.
    by rewrite andb_true_r.
  - intros _. eapply wp_is_interior; [done..|].
    rewrite (proj2 (Z.eqb_neq n NULL)) by done. by rewrite andb_true_r.
  - wp_step. apply wp_assert; [by destruct (p =? NULL)|]. by eapply wp_get_next.
Qed.

Lemma wp_list_prev_cell h e p n (Q : elem → heap → Prop) :
  e ≠ NULL → pv h e = Some p → nx h e = Some n → p ≠ NULL →
  Q p h → wp (list_prev e) h Q.
Proof.
  intros He Hp Hn Hpn HQ. unfold list_prev. wp_step.
  eapply wp_not_head; [done..|]. wp_step. apply wp_assert; [done|].
  by eapply wp_get_prev.
Qed.

(** The same, at a position of a list. *)
Lemma wp_list_next_at h l xs P a b R (Q : elem → heap → Prop) :
  dlist h l xs → cells_of l xs = P ++ a :: b :: R → Q b h → wp (list_next a) h Q.
Proof.
  intros Hdl Heq HQ. destruct (dl_adj Hdl _ _ _ _ Heq) as [Hn _].
  assert (a ∈ cells_of l xs ∧ b ∈ cells_of l xs) as [Ha Hb] by (rewrite Heq; set_solver).
  destruct (proj2 (pv_is_Some _ _) (dl_cell Hdl _ Ha)) as [p Hp].
  eapply wp_list_next_cell; eauto using dl_nonnull.
Qed.
Lemma wp_list_prev_at h l xs P a b R (Q : elem → heap → Prop) :
  dlist h l xs → cells_of l xs = P ++ a :: b :: R → Q a h → wp (list_prev b) h Q.
Proof.
  intros Hdl Heq HQ. destruct (dl_adj Hdl _ _ _ _ Heq) as [_ Hp].
  assert (a ∈ cells_of l xs ∧ b ∈ cells_of l xs) as [Ha Hb] by (rewrite Heq; set_solver).
  destruct (proj2 (nx_is_Some _ _) (dl_cell Hdl _ Hb)) as [n Hn].
  eapply wp_list_prev_cell; eauto using dl_nonnull.
Qed.

Lemma wp_list_begin h l xs (Q : elem → heap → Prop) :
  dlist h l xs → Q (hd (l_tail l) xs) h → wp (list_begin l) h Q.
Proof.
  intros Hdl HQ. destruct (cells_split l [] xs) as (P & p & R & HP & _ & Heq).
  destruct P as [|? [|]]; simplify_eq/=.
  destruct (dl_adj Hdl [] _ _ _ Heq) as [Hn _].
  by eapply wp_get_next.
Qed.

(** From an interior element to the one after it. *)
Lemma wp_list_next h l xs1 x xs2 (Q : elem → heap → Prop) :
  dlist h l (xs1 ++ x :: xs2) → Q (hd (l_tail l) xs2) h → wp (list_next x) h Q.
Proof.
  intros Hdl HQ. destruct (cells_split l (xs1 ++ [x]) xs2) as (P & p & R & HP & _ & Heq).
  rewrite <-app_assoc in Heq. simpl in Heq.
  rewrite app_comm_cons in HP. apply app_inj_tail in HP as [_ ->].
  by eapply wp_list_next_at.
Qed.

Lemma dl_not_tail h l xs1 x xs2 : dlist h l (xs1 ++ x :: xs2) → (x =? l_tail l) = false.
Proof.
  intros [Hnd _ _ _ _]. apply Z.eqb_neq. unfold cells_of in Hnd.
  rewrite <-app_assoc, app_comm_cons in Hnd. apply NoDup_middle in Hnd as (_ & Hx & _).
  set_solver.
Qed.

Lemma wp_list_empty h l xs (Q : bool → heap → Prop) :
  dlist h l xs → Q (bool_decide (xs = [])) h → wp (list_empty l) h Q.
Proof.
  intros Hdl HQ. unfold list_empty. wp_step. eapply wp_list_begin; [done|].
  wp_steps. unfold list_end. wp_steps.
  destruct xs as [|x xs]; simpl; [by rewrite Z.eqb_refl|].
  by rewrite (dl_not_tail h l [] x xs).
Qed.
End traversal.

(** ** Insertion, removal, splicing *)
Section linking.
Implicit Types (h : heap) (l : klist) (xs : list elem) (a b e p n : elem).

Lemma dl_before h l xs1 xs2 :
  dlist h l (xs1 ++ xs2) →
  ∃ P p R n, cells_of l (xs1 ++ xs2) = P ++ p :: hd (l_tail l) xs2 :: R ∧
    l_head l :: xs1 = P ++ [p] ∧ xs2 ++ [l_tail l] = hd (l_tail l) xs2 :: R ∧
    p ≠ NULL ∧ hd (l_tail l) xs2 ≠ NULL ∧
    pv h (hd (l_tail l) xs2) = Some p ∧ nx h (hd (l_tail l) xs2) = Some n.
Proof.
  intros Hdl. destruct (cells_split l xs1 xs2) as (P & p & R & HP & HR & Heq).
  destruct (dl_adj Hdl _ _ _ _ Heq) as [_ Hp].
  assert (p ∈ cells_of l (xs1 ++ xs2) ∧ hd (l_tail l) xs2 ∈ cells_of l (xs1 ++ xs2))
    as [Hpc Hbc] by (rewrite Heq; set_solver).
  destruct (proj2 (nx_is_Some _ _) (dl_cell Hdl _ Hbc)) as [n Hn].
  exists P, p, R, n. split_and!; eauto using dl_nonnull.
Qed.

(** The cells after the four assignments of [list_insert]. *)
Definition inserted h p b e : heap :=
  upd_prev (upd_next (upd_next (upd_prev h e p) e b) p e) b e.

Lemma wp_list_insert_cells h b e p n (Q : unit → heap → Prop) :
  b ≠ NULL → pv h b = Some p → nx h b = Some n → p ≠ NULL → e ≠ NULL → e ≠ b →
  is_Some (h !! p) → is_Some (h !! e) → Q tt (inserted h p b e) →
  wp (list_insert b e) h Q.
Proof.
  intros Hb Hp Hn Hpn He Heb Hpc Hec HQ.
  assert (is_Some (h !! b)) as Hbc by (apply pv_is_Some; eauto).
  unfold list_insert. wp_step. eapply wp_not_head; [eassumption..|].
  wp_step. apply wp_assert; [done|].
  wp_step. apply wp_assert; [by rewrite (proj2 (Z.eqb_neq e NULL))|].
  wp_step. eapply wp_get_prev; [eassumption|].
  wp_step. apply wp_set_prev; [done|].
  wp_step. apply wp_set_next; [by autorewrite with cells|].
  wp_step. apply (wp_get_prev _ _ p); [by cells|].
  wp_step. apply wp_set_next; [by autorewrite with cells|].
  apply wp_set_prev; [by autorewrite with cells|done].
Qed.

Lemma inserted_linked h P p b R e :
  linked h (P ++ p :: b :: R) → NoDup (P ++ p :: b :: R) → e ∉ P ++ p :: b :: R →
  is_Some (h !! e) → linked (inserted h p b e) (P ++ p :: e :: b :: R).
Proof.
  intros (Hl1 & Hpb & Hbp & Hl2)%linked_pair (HpP & HpR & HndR)%NoDup_middle He Hec.
  apply NoDup_middle in HndR as (HbP & HbR & _).
  assert (is_Some (h !! p)) by (apply nx_is_Some; eauto).
  assert (is_Some (h !! b)) by (apply pv_is_Some; eauto).
  mem_facts. unfold inserted. apply linked_pair. split_and!; [|by cells|by cells|].
  - apply (linked_frame_snoc h); [done|intros a Ha; cells..].
  - apply (linked_pair _ []). split_and!; [done|by cells|by cells|].
    apply (linked_frame_cons h); [done|intros a Ha; cells..].
Qed.

Lemma dlist_inserted h l xs1 xs2 e p :
  dlist h l (xs1 ++ xs2) → e ∉ cells_of l (xs1 ++ xs2) → e ≠ NULL → is_Some (h !! e) →
  pv h (hd (l_tail l) xs2) = Some p →
  dlist (inserted h p (hd (l_tail l) xs2) e) l (xs1 ++ e :: xs2) ∧
  outside (e :: cells_of l (xs1 ++ xs2)) h (inserted h p (hd (l_tail l) xs2) e).
Proof.
  intros Hdl He Hen Hcell Hp.
  destruct (dl_before _ _ _ _ Hdl) as (P & p' & R & n & Heq & HP & HR & Hpn & Hbn & Hpv & Hnx).
  set (b := hd (l_tail l) xs2) in *. simplify_eq.
  assert (cells_of l (xs1 ++ e :: xs2) = P ++ p :: e :: b :: R) as Heq'.
  { unfold cells_of. rewrite <-app_assoc. simpl.
    by rewrite HR, app_comm_cons, HP, <-app_assoc. }
  destruct Hdl as [Hnd Hnull Hh Ht Hl]. rewrite Heq in *.
  assert (l_head l ∈ P ++ [p]) as Hhd by (rewrite <-HP; set_solver).
  assert (l_tail l ∈ b :: R) as Htl by (rewrite <-HR; set_solver).
  pose proof Hnd as (HpP & HpR & HndR)%NoDup_middle.
  apply NoDup_middle in HndR as (HbP & HbR & _).
  split; [split; rewrite ?Heq'|].
  - change (p :: e :: b :: R) with ([p] ++ e :: b :: R).
    rewrite app_assoc. apply NoDup_middle.
    rewrite <-app_assoc. simpl. split_and!; [set_solver|set_solver|done].
  - set_solver.
  - unfold inserted. mem_facts; cells.
  - unfold inserted. mem_facts; cells.
  - by apply inserted_linked.
  - clear Hhd Htl. intros a Ha. mem_facts. apply cell_ext; unfold inserted; cells.
Qed.

Lemma wp_list_insert h l xs1 xs2 e :
  dlist h l (xs1 ++ xs2) → e ∉ cells_of l (xs1 ++ xs2) → e ≠ NULL → is_Some (h !! e) →
  wp (list_insert (hd (l_tail l) xs2) e) h (λ _ h',
    dlist h' l (xs1 ++ e :: xs2) ∧ outside (e :: cells_of l (xs1 ++ xs2)) h h').
Proof.
  intros Hdl He Hen Hcell.
  destruct (dl_before _ _ _ _ Hdl) as (P & p & R & n & Heq & _ & _ & Hpn & Hbn & Hpv & Hnx).
  assert (is_Some (h !! p)) as Hpc by (apply (dl_cell Hdl); rewrite Heq; set_solver).
  apply (wp_list_insert_cells h _ e p n); try done; [rewrite Heq in He; set_solver|].
  by apply dlist_inserted.
Qed.

(** Removal. *)
Definition removed h p n : heap := upd_prev (upd_next h p n) n p.

Lemma dl_around h l xs1 e xs2 :
  dlist h l (xs1 ++ e :: xs2) →
  ∃ P p R, cells_of l (xs1 ++ e :: xs2) = P ++ p :: e :: hd (l_tail l) xs2 :: R ∧
    cells_of l (xs1 ++ xs2) = P ++ p :: hd (l_tail l) xs2 :: R ∧
    l_head l ∈ P ++ [p] ∧ l_tail l ∈ hd (l_tail l) xs2 :: R ∧
    pv h e = Some p ∧ nx h e = Some (hd (l_tail l) xs2) ∧
    nx h p = Some e ∧ pv h (hd (l_tail l) xs2) = Some e ∧
    p ≠ NULL ∧ e ≠ NULL ∧ hd (l_tail l) xs2 ≠ NULL.
Proof.
  intros Hdl. destruct (cells_split l xs1 xs2) as (P & p & R & HP & HR & Heq).
  set (n := hd (l_tail l) xs2) in *.
  assert (cells_of l (xs1 ++ e :: xs2) = P ++ p :: e :: n :: R) as Heq'.
  { unfold cells_of. rewrite <-app_assoc. simpl.
    by rewrite HR, app_comm_cons, HP, <-app_assoc. }
  destruct (dl_adj Hdl _ _ _ _ Heq') as [Hpe Hep].
  destruct (dl_adj Hdl (P ++ [p]) e n R) as [Hen Hne]; [by rewrite <-app_assoc|].
  exists P, p, R. split_and!; try eassumption.
  - rewrite <-HP. set_solver.
  - rewrite <-HR. set_solver.
  - apply (dl_nonnull Hdl). rewrite Heq'. set_solver.
  - apply (dl_nonnull Hdl). rewrite Heq'. set_solver.
  - apply (dl_nonnull Hdl). rewrite Heq'. set_solver.
Qed.

Lemma dlist_removed h l xs1 e xs2 p :
  dlist h l (xs1 ++ e :: xs2) → pv h e = Some p →
  dlist (removed h p (hd (l_tail l) xs2)) l (xs1 ++ xs2) ∧
  removed h p (hd (l_tail l) xs2) !! e = h !! e ∧ e ∉ cells_of l (xs1 ++ xs2) ∧
  outside (cells_of l (xs1 ++ xs2)) h (removed h p (hd (l_tail l) xs2)).
Proof.
  intros Hdl Hp.
  destruct (dl_around _ _ _ _ _ Hdl)
    as (P & p' & R & Heq' & Heq & Hhd & Htl & Hep & Hen & Hpe & Hne & Hp0 & He0 & Hn0).
  set (n := hd (l_tail l) xs2) in *. simplify_eq.
  assert (is_Some (h !! p)) as Hpc by (apply nx_is_Some; eauto).
  assert (is_Some (h !! n)) as Hnc by (apply pv_is_Some; eauto).
  destruct Hdl as [Hnd Hnull Hh Ht Hl]. rewrite Heq' in *.
  pose proof Hnd as (HpP & HpR & HndR)%NoDup_middle.
  apply NoDup_middle in HndR as (HeP & HeR & HndR').
  apply NoDup_middle in HndR' as HndR2. destruct HndR2 as (HnP & HnR & _).
  split_and!; [split; rewrite ?Heq| | |].
  - apply NoDup_middle. set_solver.
  - set_solver.
  - unfold removed. mem_facts; cells.
  - unfold removed. mem_facts; cells.
  - apply linked_pair in Hl as (Hl1 & _ & _ & Hl2).
    apply (linked_pair _ []) in Hl2 as (_ & _ & _ & Hl3).
    clear Hhd Htl. mem_facts. unfold removed. apply linked_pair.
    split_and!; [|by cells|by cells|].
    + apply (linked_frame_snoc h); [done|intros a Ha; cells..].
    + apply (linked_frame_cons h); [done|intros a Ha; cells..].
  - clear Hhd Htl. mem_facts. apply cell_ext; unfold removed; cells.
  - rewrite Heq. set_solver.
  - clear Hhd Htl. intros a Ha. rewrite Heq in Ha. mem_facts.
    apply cell_ext; unfold removed; cells.
Qed.

Lemma wp_list_remove h l xs1 e xs2 :
  dlist h l (xs1 ++ e :: xs2) →
  wp (list_remove e) h (λ r h', r = hd (l_tail l) xs2 ∧
    dlist h' l (xs1 ++ xs2) ∧ h' !! e = h !! e ∧ e ∉ cells_of l (xs1 ++ xs2) ∧
    outside (cells_of l (xs1 ++ xs2)) h h').
Proof.
  intros Hdl.
  destruct (dl_around _ _ _ _ _ Hdl)
    as (P & p & R & Heq' & _ & _ & _ & Hep & Hen & Hpe & Hne & Hp0 & He0 & Hn0).
  destruct (dlist_removed _ _ _ _ _ _ Hdl Hep) as (Hdl' & Hsame & Hnot & Ho).
  set (n := hd (l_tail l) xs2) in *.
  assert (e ≠ p) as Hepn.
  { intros ->. pose proof (dl_nodup _ _ _ Hdl) as Hnd. rewrite Heq' in Hnd.
    apply NoDup_middle in Hnd. set_solver. }
  unfold list_remove. wp_step.
  eapply wp_is_interior; [eassumption..|].
  wp_step. apply wp_assert;
    [by rewrite (proj2 (Z.eqb_neq p NULL)), (proj2 (Z.eqb_neq n NULL))|].
  wp_step. eapply wp_get_prev; [eassumption|]. wp_step. eapply wp_get_next; [eassumption|].
  wp_step. apply wp_set_next; [apply nx_is_Some; eauto|].
  wp_step. apply (wp_get_next _ _ n); [by cells|].
  wp_step. apply (wp_get_prev _ _ p); [by autorewrite with cells|].
  wp_step. apply wp_set_prev; [autorewrite with cells; apply pv_is_Some; eauto|].
  fold (removed h p n). apply (wp_get_next _ _ n); [unfold removed; by cells|].
  split_and!; done.
Qed.

(** Splicing [first .. last] in front of [y]: [q] and [z] are the cells
    around the moved segment [f .. g], [p] the one before [y]. *)
Definition spliced h p y q f g z : heap :=
  upd_prev (upd_next (upd_next (upd_prev
    (upd_prev (upd_next h q z) z q) f p) g y) p f) y g.

Lemma wp_list_splice_cells h p y q f g z (Q : unit → heap → Prop) :
  Forall (λ a, a ≠ NULL ∧ is_Some (h !! a)) [p; y; q; f; g; z] →
  pv h y = Some p → pv h z = Some g → nx h g = Some z → pv h f = Some q →
  (∃ n, nx h f = Some n ∧ n ≠ NULL) → (∃ n, pv h g = Some n ∧ n ≠ NULL) →
  f ≠ z → g ≠ q → y ≠ z → y ≠ f →
  Q tt (spliced h p y q f g z) → wp (list_splice y f z) h Q.
Proof.
  rewrite !Forall_cons.
  intros ((Hp0&Hp)&(Hy0&Hy)&(Hq0&Hq)&(Hf0&Hf)&(Hg0&Hg)&(Hz0&Hz)&_)
    Hyp Hzg Hgz Hfq (fn & Hfn & Hfn0) (gp & Hgp & Hgp0) Hfz Hgq Hyz Hyf HQ.
  destruct (proj2 (nx_is_Some _ _) Hy) as [yn Hyn].
  destruct (proj2 (nx_is_Some _ _) Hz) as [zn Hzn].
  unfold list_splice. wp_step. eapply wp_not_head; [eassumption..|].
  wp_step. apply wp_assert; [done|].
  rewrite (proj2 (Z.eqb_neq f z)) by done.
  wp_step. eapply wp_list_prev_cell; [eassumption..|].
  wp_step. eapply wp_is_interior; [eassumption..|]. wp_step. apply wp_assert.
  { by rewrite (proj2 (Z.eqb_neq q NULL)), (proj2 (Z.eqb_neq fn NULL)). }
  wp_step. eapply wp_is_interior; [eassumption..|]. wp_step. apply wp_assert.
  { by rewrite (proj2 (Z.eqb_neq gp NULL)), (proj2 (Z.eqb_neq z NULL)). }
  wp_step. eapply wp_get_prev; [eassumption|]. wp_step. eapply wp_get_next; [eassumption|].
  wp_step. apply wp_set_next; [done|].
  wp_step. apply (wp_get_next _ _ z); [by cells|].
  wp_step. apply (wp_get_prev _ _ q); [by cells|].
  wp_step. apply wp_set_prev; [by autorewrite with cells|].
  wp_step. apply (wp_get_prev _ _ p); [by cells|].
  wp_step. apply wp_set_prev; [by autorewrite with cells|].
  wp_step. apply wp_set_next; [by autorewrite with cells|].
  wp_step. apply (wp_get_prev _ _ p); [by cells|].
  wp_step. apply wp_set_next; [by autorewrite with cells|].
  apply wp_set_prev; [by autorewrite with cells|done].
Qed.

(** Moving one element towards the front: what the merge does. *)
Lemma spliced_one h p y q f z :
  spliced h p y q f f z = inserted (removed h q z) p y f.
Proof. done. Qed.

Lemma wp_list_splice_one h l X y Y f Z :
  dlist h l (X ++ (y :: Y) ++ f :: Z) →
  wp (list_splice y f (hd (l_tail l) Z)) h (λ _ h',
    dlist h' l (X ++ f :: (y :: Y) ++ Z) ∧
    outside (cells_of l (X ++ (y :: Y) ++ f :: Z)) h h').
Proof.
  intros Hdl. pose proof Hdl as Hdl0. rewrite app_assoc in Hdl0.
  destruct (dl_around _ _ _ _ _ Hdl0)
    as (P & q & R & Heq & Heq1 & _ & _ & Hfq & Hfz & Hqf & Hzf & Hq0 & Hf0 & Hz0).
  destruct (dlist_removed _ _ _ _ _ _ Hdl0 Hfq) as (Hdl1 & Hsame & Hnot & Ho).
  set (z := hd (l_tail l) Z) in *.
  destruct (dl_before h l X ((y :: Y) ++ f :: Z)) as
    (P' & p & R' & n & Heq2 & _ & _ & Hp0 & Hy0 & Hyp & Hyn); [done|].
  change (hd (l_tail l) ((y :: Y) ++ f :: Z)) with y in *.
  rewrite <-app_assoc in Heq, Heq1, Hdl1, Hnot.
  assert (∀ a, a ∈ [p; y; q; f; z] → is_Some (h !! a)) as Hcell.
  { intros a Ha. apply (dl_cell Hdl).
    rewrite !elem_of_cons in Ha. destruct Ha as [->|[->|Ha]]; [rewrite Heq2; set_solver..|].
    rewrite Heq. set_solver. }
  assert (z ∈ Z ++ [l_tail l]) as Hz by (subst z; destruct Z; set_solver).
  pose proof (dl_nodup _ _ _ Hdl) as Hnd.
  assert (f ≠ q ∧ f ≠ z) as [Hfq' Hfz'].
  { rewrite Heq in Hnd. apply NoDup_middle in Hnd as (_ & ? & Hnd).
    apply NoDup_middle in Hnd as (_ & ? & _). set_solver. }
  assert (y ≠ z ∧ y ≠ f) as [Hyz Hyf].
  { unfold cells_of in Hnd. rewrite <-app_assoc, app_comm_cons in Hnd. cbn [app] in Hnd.
    apply (NoDup_middle (l_head l :: X)) in Hnd as (_ & Hy & _). set_solver. }
  assert (pv (removed h q z) y = Some p) as Hyp' by (unfold removed; cells).
  destruct (dlist_inserted (removed h q z) l X ((y :: Y) ++ Z) f p) as [Hdl2 Ho2];
    [done..|by rewrite Hsame; apply Hcell; set_solver|done|].
  change (hd (l_tail l) ((y :: Y) ++ Z)) with y in *. rewrite <-spliced_one in *.
  apply (wp_list_splice_cells h p y q f f z); try done.
  - repeat (apply Forall_cons; split; [split; [done|apply Hcell; set_solver]|]). constructor.
  - eauto.
  - eauto.
  - split; [done|]. eapply outside_trans; (eapply outside_mono; [|eassumption]);
      unfold cells_of; set_solver.
Qed.
End linking.
