(* ===== verification/KListOps.v ===== *)
(** * The operations of list.c compute the operations on plain lists

    Each lemma says what a function of lib/kernel/list.c does to a well formed
    list: it returns, none of its assertions fails, the new contents are those
    of the reference operation, and no cell outside the list is changed. *)
From S2P Require Import Prelude ListSpec KList KListFacts.
Local Open Scope Z_scope.

(** Loops over the list: one turn per cell of the heap is enough. *)
Lemma wp_while {G A B} (I : G → A → gmap Z node → Prop) (meas : G → nat)
    (body : A → M (gmap Z node) (A + B)) (Q : B → gmap Z node → Prop) g a h :
  I g a h → (meas g ≤ size h)%nat →
  (∀ g a h', I g a h' →
     wp (body a) h' (λ r h'',
       match r with
       | inl a' => ∃ g', I g' a' h'' ∧ (meas g' < meas g)%nat
       | inr b => Q b h''
       end)) →
  wp (while body a) h Q.
Proof.
  intros HI Hm Hbody. unfold while.
  apply (wp_loop I meas body Q Hbody (S (size h)) g a h HI). lia.
Qed.

Section positions.
Context {h : gmap Z node} {l : klist}.
Implicit Types (xs seg : list Z) (x : Z).

(** Two cursors meet exactly when nothing lies between them. *)
Lemma dl_cursor_eq xs1 seg xs2 :
  dlist h l (xs1 ++ seg ++ xs2) →
  (hd (l_tail l) (seg ++ xs2) =? hd (l_tail l) xs2) = bool_decide (seg = []).
Proof.
  intros Hdl. destruct seg as [|x seg]; [by rewrite Z.eqb_refl|].
  rewrite bool_decide_false by done. apply Z.eqb_neq. simpl.
  pose proof (dl_nodup _ _ _ Hdl) as Hnd. unfold cells_of in Hnd.
  rewrite <-app_assoc, app_comm_cons in Hnd. simpl in Hnd.
  apply (NoDup_middle (l_head l :: xs1)) in Hnd as (_ & Hx & _).
  destruct xs2; set_solver.
Qed.

Lemma dl_end_eq xs1 xs2 :
  dlist h l (xs1 ++ xs2) → (hd (l_tail l) xs2 =? l_tail l) = bool_decide (xs2 = []).
Proof.
  intros Hdl. pose proof (dl_cursor_eq xs1 xs2 []) as H.
  rewrite app_nil_r in H. by apply H.
Qed.

(** One step back from a cursor. *)
Lemma wp_list_prev_hd xs1 x xs2 (Q : Z → gmap Z node → Prop) :
  dlist h l (xs1 ++ x :: xs2) → Q x h → wp (list_prev (hd (l_tail l) xs2)) h Q.
Proof.
  intros Hdl HQ.
  destruct (cells_split l (xs1 ++ [x]) xs2) as (P & p & R & HP & _ & Heq).
  rewrite <-app_assoc in Heq. simpl in Heq.
  rewrite app_comm_cons in HP. apply app_inj_tail in HP as [_ ->].
  by eapply wp_list_prev_at.
Qed.
End positions.

(** ** Construction and the ends of the list *)
Section ends.
Implicit Types (h : gmap Z node) (l : klist) (xs : list Z) (e : Z).

Lemma wp_list_init h l :
  is_Some (h !! l_head l) → is_Some (h !! l_tail l) →
  l_head l ≠ NULL → l_tail l ≠ NULL → l_head l ≠ l_tail l →
  wp (list_init l) h (λ _ h', dlist h' l [] ∧ outside [l_head l; l_tail l] h h').
Proof.
  intros Hh Ht Hh0 Ht0 Hne. unfold list_init.
  wp_step. apply wp_set_prev; [done|]. wp_step. apply wp_set_next; [by autorewrite with cells|].
  wp_step. apply wp_set_prev; [by autorewrite with cells|].
  apply wp_set_next; [by autorewrite with cells|].
  split; [split|].
  - unfold cells_of. simpl. repeat constructor; set_solver.
  - unfold cells_of. set_solver.
  - by cells.
  - by cells.
  - simpl. split_and!; [by cells..|done].
  - intros a Ha. mem_facts. apply cell_ext; cells.
Qed.

Lemma wp_list_push_front h l xs e :
  dlist h l xs → e ∉ cells_of l xs → e ≠ NULL → is_Some (h !! e) →
  wp (list_push_front l e) h (λ _ h',
    dlist h' l (e :: xs) ∧ outside (e :: cells_of l xs) h h').
Proof.
  intros Hdl He Hn Hc. unfold list_push_front. wp_step.
  eapply wp_list_begin; [done|]. by apply (wp_list_insert h l [] xs).
Qed.

Lemma wp_list_push_back h l xs e :
  dlist h l xs → e ∉ cells_of l xs → e ≠ NULL → is_Some (h !! e) →
  wp (list_push_back l e) h (λ _ h',
    dlist h' l (xs ++ [e]) ∧ outside (e :: cells_of l xs) h h').
Proof.
  intros Hdl He Hn Hc. unfold list_push_back, list_end. wp_steps.
  pose proof (wp_list_insert h l xs [] e) as H. rewrite app_nil_r in H. by apply H.
Qed.

Lemma wp_list_front h l x xs (Q : Z → gmap Z node → Prop) :
  dlist h l (x :: xs) → Q x h → wp (list_front l) h Q.
Proof.
  intros Hdl HQ. unfold list_front. wp_step. eapply wp_list_empty; [done|].
  wp_step. apply wp_assert; [done|]. by eapply (wp_list_begin h l (x :: xs)).
Qed.

Lemma dl_last h l xs x : dlist h l (xs ++ [x]) → pv h (l_tail l) = Some x.
Proof.
  intros Hdl. eapply (dl_adj Hdl (l_head l :: xs) x (l_tail l) []).
  unfold cells_of. by rewrite <-app_assoc.
Qed.

Lemma wp_list_back h l xs x (Q : Z → gmap Z node → Prop) :
  dlist h l (xs ++ [x]) → Q x h → wp (list_back l) h Q.
Proof.
  intros Hdl HQ. unfold list_back. wp_step. eapply wp_list_empty; [done|].
  wp_step. apply wp_assert; [by destruct xs|].
  eapply wp_get_prev; [by eapply dl_last|done].
Qed.

Lemma wp_list_pop_front h l x xs :
  dlist h l (x :: xs) →
  wp (list_pop_front l) h (λ r h', r = x ∧ dlist h' l xs ∧ h' !! x = h !! x ∧
    x ∉ cells_of l xs ∧ outside (cells_of l xs) h h').
Proof.
  intros Hdl. unfold list_pop_front. wp_step. eapply wp_list_front; [done|].
  wp_step. eapply wp_mono; [by apply (wp_list_remove h l [] x xs)|].
  intros r h' (_ & ?). by wp_steps.
Qed.

Lemma wp_list_pop_back h l xs x :
  dlist h l (xs ++ [x]) →
  wp (list_pop_back l) h (λ r h', r = x ∧ dlist h' l xs ∧ h' !! x = h !! x ∧
    x ∉ cells_of l xs ∧ outside (cells_of l xs) h h').
Proof.
  intros Hdl. unfold list_pop_back. wp_step. eapply wp_list_back; [done|].
  wp_step. eapply wp_mono; [by apply (wp_list_remove h l xs x [])|].
  rewrite app_nil_r. intros r h' (_ & ?). by wp_steps.
Qed.
End ends.

(** ** Walking the list *)
Section walks.
Context (h : gmap Z node) (l : klist).
Implicit Types (xs : list Z) (e x : Z).

Lemma wp_list_size xs :
  dlist h l xs → wp (list_size l) h (λ r h', r = Z.of_nat (length xs) ∧ h' = h).
Proof.
  intros Hdl. unfold list_size. wp_step. eapply wp_list_begin; [done|].
  apply (wp_while (λ '(xs1, xs2) '(e, cnt) h', h' = h ∧ xs = xs1 ++ xs2 ∧
    e = hd (l_tail l) xs2 ∧ cnt = Z.of_nat (length xs1)) (λ g, length g.2) _ _ ([], xs)).
  - done.
  - simpl. pose proof (dl_length Hdl). lia.
  - intros [xs1 xs2] [e cnt] h' (-> & Hxs & -> & ->). unfold list_end. wp_steps.
    rewrite Hxs in Hdl. rewrite (dl_end_eq xs1 xs2) by done. destruct xs2 as [|x xs2].
    + rewrite bool_decide_true by done. wp_steps. by rewrite Hxs, app_nil_r.
    + rewrite bool_decide_false by done. wp_step.
      eapply wp_list_next; [done|]. wp_steps.
      exists (xs1 ++ [x], xs2). rewrite length_app, <-app_assoc. simpl.
      split_and!; [done|done|done|lia|lia].
Qed.

Lemma wp_list_insert_ordered (less : Z → Z → bool) xs e :
  dlist h l xs → e ∉ cells_of l xs → e ≠ NULL → is_Some (h !! e) →
  wp (list_insert_ordered l e less) h (λ _ h',
    dlist h' l (Spec.insert_ordered less e xs) ∧ outside (e :: cells_of l xs) h h').
Proof.
  intros Hdl He Hn Hc. unfold list_insert_ordered. wp_step.
  apply wp_assert; [by rewrite (proj2 (Z.eqb_neq e NULL))|].
  wp_step. eapply wp_list_begin; [done|]. wp_step.
  apply (wp_while (λ '(xs1, xs2) p h', h' = h ∧ xs = xs1 ++ xs2 ∧ p = hd (l_tail l) xs2 ∧
    Spec.insert_ordered less e xs = xs1 ++ Spec.insert_ordered less e xs2)
    (λ g, length g.2) _ _ ([], xs)).
  - done.
  - simpl. pose proof (dl_length Hdl). lia.
  - intros [xs1 xs2] p h' (-> & Hxs & -> & Hins). unfold list_end. wp_steps.
    rewrite Hins. subst xs.
    rewrite (dl_end_eq xs1 xs2) by done. destruct xs2 as [|x xs2].
    + rewrite bool_decide_true by done. wp_steps. by apply (wp_list_insert h l xs1 []).
    + rewrite bool_decide_false by done. simpl in *. destruct (less e x) eqn:E.
      * wp_steps. by apply (wp_list_insert h l xs1 (x :: xs2)).
      * wp_step. eapply wp_list_next; [done|]. wp_steps.
        exists (xs1 ++ [x], xs2). rewrite <-!app_assoc. simpl.
        split_and!; [done..|lia].
Qed.

(** [list_max] and [list_min] keep the best element seen so far. *)
Lemma wp_list_max (less : Z → Z → bool) xs :
  dlist h l xs →
  wp (list_max l less) h (λ r h', h' = h ∧
    r = match xs with [] => l_tail l | x :: xs => Spec.max less x xs end).
Proof.
  intros Hdl. unfold list_max. wp_step. eapply wp_list_begin; [done|].
  unfold list_end. wp_steps. rewrite (dl_end_eq [] xs) by done.
  destruct xs as [|x xs]; [done|]. rewrite bool_decide_false by done.
  wp_step. eapply (wp_list_next h l []); [done|].
  apply (wp_while (λ '(xs1, xs2) '(e, mx) h', h' = h ∧ xs = xs1 ++ xs2 ∧
    e = hd (l_tail l) xs2 ∧ Spec.max less x xs = Spec.max less mx xs2)
    (λ g, length g.2) _ _ ([], xs)).
  - done.
  - simpl. pose proof (dl_length Hdl). simpl in *. lia.
  - intros [xs1 xs2] [e mx] h' (-> & Hxs & -> & Hmax). wp_steps.
    rewrite Hxs in Hdl. rewrite (dl_end_eq (x :: xs1) xs2) by done.
    destruct xs2 as [|y xs2]; [by rewrite bool_decide_true by done; wp_steps|].
    rewrite bool_decide_false by done. wp_step.
    eapply (wp_list_next h l (x :: xs1)); [done|]. wp_steps.
    exists (xs1 ++ [y], xs2). rewrite <-app_assoc. simpl. split_and!; [done..|lia].
Qed.

Lemma wp_list_min (less : Z → Z → bool) xs :
  dlist h l xs →
  wp (list_min l less) h (λ r h', h' = h ∧
    r = match xs with [] => l_tail l | x :: xs => Spec.min less x xs end).
Proof.
  (* [list_min] is [list_max] for the order seen from the other side. *)
  intros Hdl. exact (wp_list_max (flip_less less) xs Hdl).
Qed.
End walks.

(** ** The merge sort, reversal and duplicate removal of list.c

    [list_sort] is an iterative natural merge sort over the pointer structure;
    it is proved to terminate and to sort stably.  [list_reverse] swaps the
    links of every cell, [list_unique] moves duplicates to another list. *)

Section sort.
Context (l : klist) (less : Z → Z → bool).
Implicit Types (h : gmap Z node) (xs pre post A B : list Z) (e x : Z).

Lemma wp_is_sorted h pre seg post :
  dlist h l (pre ++ seg ++ post) →
  wp (is_sorted (hd (l_tail l) (seg ++ post)) (hd (l_tail l) post) less) h
     (λ r h', r = Spec.sortedb less seg ∧ h' = h).
Proof.
  intros Hdl. unfold is_sorted. rewrite (dl_cursor_eq pre seg post) by done.
  destruct seg as [|x seg]; [by rewrite bool_decide_true by done; wp_steps|].
  rewrite bool_decide_false by done.
  apply (wp_while (λ '(xs1, x', rest) a h', h' = h ∧ a = x' ∧
    x :: seg = xs1 ++ x' :: rest ∧
    Spec.sortedb less (x :: seg) = Spec.sortedb less (x' :: rest))
    (λ g, length g.2) _ _ ([], x, seg)).
  - done.
  - pose proof (dl_length Hdl) as Hlen. rewrite !length_app in Hlen. simpl in *. lia.
  - intros [[xs1 x'] rest] a h' (-> & -> & Hseg & Hs). rewrite Hseg in Hdl.
    rewrite <-app_assoc, app_assoc in Hdl. simpl in Hdl.
    wp_step. eapply wp_list_next; [done|].
    rewrite (dl_cursor_eq ((pre ++ xs1) ++ [x']) rest post)
      by (rewrite <-app_assoc; done).
    destruct rest as [|y rest]; [by rewrite bool_decide_true by done; wp_steps|].
    rewrite bool_decide_false by done. cbn [hd app].
    wp_step. eapply (wp_list_prev_hd (pre ++ xs1) x' (y :: rest ++ post)); [done|].
    rewrite Hs. cbn [Spec.sortedb]. destruct (less y x') eqn:E; [by wp_steps|]. wp_steps.
    exists (xs1 ++ [x'], y, rest). rewrite <-app_assoc. simpl. split_and!; [done..|lia].
Qed.

(** The run that starts at [x], up to the end of the list. *)
Lemma wp_find_end_of_run h pre x xs :
  dlist h l (pre ++ x :: xs) →
  wp (find_end_of_run x (l_tail l) less) h
     (λ r h', r = hd (l_tail l) (Spec.take_run less x xs).2 ∧ h' = h).
Proof.
  intros Hdl. unfold find_end_of_run.
  wp_step. apply wp_assert.
  { rewrite (proj2 (Z.eqb_neq x NULL)); [done|]. apply (dl_nonnull Hdl).
    unfold cells_of. set_solver. }
  wp_step. apply wp_assert.
  { rewrite (proj2 (Z.eqb_neq (l_tail l) NULL)); [done|]. apply (dl_nonnull Hdl).
    unfold cells_of. set_solver. }
  wp_step. apply wp_assert; [by rewrite (dl_not_tail h l pre x xs)|].
  apply (wp_while (λ '(xs1, x', rest) a h', h' = h ∧ a = x' ∧
    x :: xs = xs1 ++ x' :: rest ∧
    (Spec.take_run less x xs).2 = (Spec.take_run less x' rest).2)
    (λ g, length g.2) _ _ ([], x, xs)).
  - done.
  - pose proof (dl_length Hdl) as Hlen. rewrite !length_app in Hlen. simpl in *. lia.
  - intros [[xs1 x'] rest] a h' (-> & -> & Hseg & Hs). rewrite Hseg in Hdl.
    rewrite app_assoc in Hdl.
    wp_step. eapply wp_list_next; [done|].
    rewrite (dl_end_eq (h := h) ((pre ++ xs1) ++ [x']) rest) by (rewrite <-app_assoc; exact Hdl).
    rewrite Hs. destruct rest as [|y rest]; [by rewrite bool_decide_true by done; wp_steps|].
    rewrite bool_decide_false by done. cbn [hd app].
    wp_step. eapply (wp_list_prev_hd (pre ++ xs1) x' (y :: rest)); [done|].
    cbn [Spec.take_run]. destruct (less y x') eqn:E; [by wp_steps|]. wp_steps.
    exists (xs1 ++ [x'], y, rest). rewrite <-app_assoc. simpl.
    by destruct (Spec.take_run less y rest); split_and!; [done..|lia].
Qed.

Lemma cells_perm xs ys : xs ≡ₚ ys → cells_of l xs ⊆ cells_of l ys.
Proof. intros Hp a. unfold cells_of. by rewrite Hp. Qed.

(** Two adjacent runs become one. *)
Lemma wp_inplace_merge h pre A B post :
  dlist h l (pre ++ A ++ B ++ post) → A ≠ [] → B ≠ [] →
  Sorted (not_after less) A → Sorted (not_after less) B →
  wp (inplace_merge (hd (l_tail l) (A ++ B ++ post)) (hd (l_tail l) (B ++ post))
        (hd (l_tail l) post) less) h
     (λ _ h', dlist h' l (pre ++ Spec.merge less A B ++ post) ∧
        outside (cells_of l (pre ++ A ++ B ++ post)) h h').
Proof.
  intros Hdl HA HB HsA HsB. unfold inplace_merge.
  assert (∀ ys, hd (l_tail l) (ys ++ post) ∈ ys ++ post ++ [l_tail l]) as Hhd.
  { intros [|? ?]; simpl; [destruct post|]; set_solver. }
  assert (∀ ys, ys ⊆ A ++ B → negb (hd (l_tail l) (ys ++ post) =? NULL) = true) as Hnn.
  { intros ys Hys. rewrite (proj2 (Z.eqb_neq _ NULL)); [done|]. apply (dl_nonnull Hdl).
    specialize (Hhd ys). unfold cells_of. set_solver. }
  pose proof (Hnn (A ++ B) ltac:(set_solver)) as HnA. rewrite <-app_assoc in HnA.
  wp_step. apply wp_assert; [done|].
  wp_step. apply wp_assert; [apply Hnn; set_solver|].
  wp_step. apply wp_assert; [apply (Hnn []); set_solver|].
  wp_step. eapply wp_mono; [by apply (wp_is_sorted h pre A (B ++ post))|].
  intros ? ? [-> ->]. wp_step. apply wp_assert; [by apply sortedb_spec|].
  wp_step. eapply wp_mono; [apply (wp_is_sorted h (pre ++ A) B post)|].
  { by rewrite <-app_assoc. }
  intros ? ? [-> ->]. wp_step. apply wp_assert; [by apply sortedb_spec|].
  clear HA HB HsA HsB HnA Hnn Hhd.
  apply (wp_while (λ '(D, A', B') '(a0, a1b0) h', dlist h' l (pre ++ D ++ A' ++ B' ++ post) ∧
    a0 = hd (l_tail l) (A' ++ B' ++ post) ∧ a1b0 = hd (l_tail l) (B' ++ post) ∧
    D ++ Spec.merge less A' B' = Spec.merge less A B ∧
    outside (cells_of l (pre ++ A ++ B ++ post)) h h')
    (λ '(D, A', B'), length (A' ++ B')) _ _ ([], A, B)).
  - done.
  - pose proof (dl_length Hdl) as Hlen. rewrite !length_app in *. simpl in *. lia.
  - intros [[D A'] B'] [a0 a1b0] h' (Hdl' & -> & -> & Hm & Ho).
    assert (pre ++ D ++ A' ++ B' ++ post ≡ₚ pre ++ A ++ B ++ post) as Hperm.
    { rewrite (app_assoc A'), (app_assoc D), <-(merge_perm less A' B'), Hm, merge_perm.
      by rewrite <-app_assoc. }
    rewrite app_assoc in Hdl'.
    rewrite (dl_cursor_eq (pre ++ D) A' (B' ++ post)) by done.
    rewrite (dl_cursor_eq ((pre ++ D) ++ A') B' post) by (by rewrite <-app_assoc).
    destruct A' as [|a A']; simpl orb.
    { wp_steps. rewrite merge_nil_l in Hm. rewrite <-Hm, <-!app_assoc in *. done. }
    destruct B' as [|b B']; simpl orb.
    { rewrite bool_decide_true by done. wp_steps.
      rewrite merge_nil_r in Hm. rewrite <-Hm, <-!app_assoc in *. done. }
    rewrite !bool_decide_false by done. simpl. rewrite merge_cons in Hm.
    destruct (less b a) eqn:E; simpl.
    + wp_step. eapply (wp_list_next h' l ((pre ++ D) ++ a :: A') b (B' ++ post)).
      { by rewrite <-app_assoc. }
      wp_step. eapply (wp_list_prev_hd ((pre ++ D) ++ a :: A') b (B' ++ post)).
      { by rewrite <-app_assoc. }
      wp_step. eapply wp_mono; [by apply (wp_list_splice_one h' l (pre ++ D) a A' b (B' ++ post))|].
      intros _ h'' [Hdl'' Ho'']. wp_steps. exists (D ++ [b], a :: A', B').
      rewrite <-!app_assoc in *. simpl in *. split_and!; try done.
      * eapply outside_trans; [done|]. eapply outside_mono; [|done].
        by apply cells_perm.
      * rewrite !length_app. simpl. lia.
    + wp_step. eapply (wp_list_next h' l (pre ++ D) a (A' ++ b :: B' ++ post)); [done|].
      wp_steps. exists (D ++ [a], A', b :: B').
      rewrite <-!app_assoc in *. simpl in *. split_and!; try done. lia.
Qed.

(** One pass merges neighbouring runs two by two and counts what is left. *)
Lemma wp_sort_pass h xs rs :
  dlist h l xs → Spec.pass less xs rs →
  wp (sort_pass l less) h (λ r h', r = Z.of_nat (length rs) ∧
    dlist h' l (concat rs) ∧ outside (cells_of l xs) h h').
Proof.
  intros Hdl Hp. unfold sort_pass, list_end. wp_step. eapply wp_list_begin; [done|].
  apply (wp_while (λ '(done_rs, rem, rs') '(a0, cnt) h',
    dlist h' l (concat done_rs ++ rem) ∧ Spec.pass less rem rs' ∧ rs = done_rs ++ rs' ∧
    a0 = hd (l_tail l) rem ∧ cnt = Z.of_nat (length done_rs) ∧
    xs ≡ₚ concat done_rs ++ rem ∧ outside (cells_of l xs) h h')
    (λ g, length g.1.2) _ _ ([], xs, rs)).
  - done.
  - pose proof (dl_length Hdl). simpl. lia.
  - intros [[dn rem] rs'] [a0 cnt] h' (Hdl' & Hp' & -> & -> & -> & Hperm & Ho). wp_steps.
    rewrite (dl_end_eq (concat dn) rem) by done.
    destruct Hp' as [|x ys r E|x ys r1 y zs r2 rest rs' E1 E2 Hp'].
    { rewrite bool_decide_true by done. wp_steps. by rewrite !app_nil_r in *. }
    + rewrite bool_decide_false by done. wp_steps.
      eapply wp_mono; [by apply (wp_find_end_of_run h' (concat dn) x ys)|].
      intros ? ? [-> ->]. rewrite E. simpl hd. rewrite Z.eqb_refl. wp_steps.
      rewrite length_app, concat_app. simpl. rewrite app_nil_r.
      apply take_run_spec in E as (r' & -> & Heq & _). rewrite app_nil_r in Heq.
      rewrite <-Heq. split_and!; [lia|done|done].
    + rewrite bool_decide_false by done. wp_steps.
      eapply wp_mono; [by apply (wp_find_end_of_run h' (concat dn) x ys)|].
      intros ? ? [-> ->]. rewrite E1. cbn [snd hd].
      apply take_run_spec in E1 as (r1' & -> & Heq1 & Hs1 & _). rewrite Heq1 in Hdl'.
      rewrite (dl_end_eq (concat dn ++ x :: r1') (y :: zs)) by (by rewrite <-app_assoc).
      rewrite bool_decide_false by done. wp_step.
      eapply wp_mono; [apply (wp_find_end_of_run h' (concat dn ++ x :: r1') y zs)|].
      { by rewrite <-app_assoc. }
      intros ? ? [-> ->]. rewrite E2. cbn [snd].
      apply take_run_spec in E2 as (r2' & -> & Heq2 & Hs2 & _). rewrite Heq2 in Hdl', Heq1.
      wp_step. eapply wp_mono; [by apply (wp_inplace_merge h' (concat dn) _ _ rest Hdl')|].
      intros _ h'' [Hdl'' Ho'']. wp_steps.
      exists (dn ++ [Spec.merge less (x :: r1') (y :: r2')], rest, rs').
      rewrite concat_app, length_app, <-!app_assoc. cbn [concat length app] in *.
      rewrite app_nil_r. rewrite Heq1 in Hperm.
      assert (xs ≡ₚ concat dn ++ Spec.merge less (x :: r1') (y :: r2') ++ rest) as Hperm'.
      { rewrite Hperm, merge_perm. simpl. by rewrite <-app_assoc. }
      split_and!; [done..|lia|done| |].
      * eapply outside_trans; [done|]. eapply outside_mono; [|done].
        by apply cells_perm.
      * apply (f_equal length) in Heq1. simpl in *. rewrite length_app in Heq1.
        simpl in Heq1. rewrite length_app in Heq1. lia.
Qed.

Context `{!StrictWeakOrder less}.

(** The passes reduce the number of runs until one is left. *)
Lemma wp_list_sort h xs :
  dlist h l xs →
  wp (list_sort l less) h (λ _ h', ∃ ys,
    dlist h' l ys ∧ stable_sort_of less xs ys ∧ outside (cells_of l xs) h h').
Proof.
  intros Hdl. unfold list_sort, list_end. wp_step.
  apply (wp_while (λ ys _ h', dlist h' l ys ∧ xs ≡ₚ ys ∧
    (∀ z, filter (same less z) xs = filter (same less z) ys) ∧
    outside (cells_of l xs) h h') (Spec.runs less) _ _ xs).
  - done.
  - pose proof (dl_length Hdl). pose proof (runs_le_length less xs). lia.
  - intros ys _ h' (Hdl' & Hperm & Hst & Ho).
    destruct (pass_total less ys) as [rs Hp]. wp_step.
    eapply wp_mono; [by eapply wp_sort_pass|]. intros ? h'' (-> & Hdl'' & Ho').
    destruct (pass_spec less ys rs Hp) as (Hs & Hperm' & Hst' & Hlen).
    assert (outside (cells_of l xs) h h'') as Ho''.
    { eapply outside_trans; [done|]. eapply outside_mono; [|done]. by apply cells_perm. }
    pose proof (runs_concat less rs Hs). destruct (Z.ltb_spec 1 (Z.of_nat (length rs))).
    + wp_steps. exists (concat rs). split_and!; [done|by rewrite Hperm|by intros; rewrite Hst|done|lia].
    + wp_steps. eapply wp_list_begin; [done|]. wp_steps.
      assert (Sorted (not_after less) (concat rs)) as Hss by (apply sorted_concat_one; [done|lia]).
      pose proof (wp_is_sorted h'' [] (concat rs) []) as Hok. rewrite app_nil_r in Hok.
      eapply wp_mono; [by apply Hok|]. intros ? ? [-> ->]. apply wp_assert; [by apply sortedb_spec|].
      exists (concat rs). split_and!; [done|split_and!|done]; [done|by rewrite Hperm|].
      intros z. by rewrite Hst.
Qed.
End sort.

(** ** Reversal *)
Section reverse.
Implicit Types (h : gmap Z node) (l : klist) (xs ys : list Z) (e a : Z).

(** [h'] is [h] with the links of the cells [C] exchanged. *)
Definition swapped C h h' : Prop :=
  (∀ a, a ∈ C → nx h' a = pv h a ∧ pv h' a = nx h a) ∧ outside C h h'.

Lemma wp_swap_links h e :
  is_Some (h !! e) → wp (swap_links e) h (λ _ h', swapped [e] h h').
Proof.
  intros Hc. destruct (proj2 (pv_is_Some _ _) Hc) as [p Hp].
  destruct (proj2 (nx_is_Some _ _) Hc) as [n Hn]. unfold swap_links.
  wp_step. eapply wp_get_prev; [done|]. wp_step. eapply wp_get_next; [done|].
  wp_step. apply wp_set_prev; [done|]. apply wp_set_next; [by autorewrite with cells|]. split.
  - intros a ->%list_elem_of_singleton. rewrite Hp, Hn. split; by cells.
  - intros a Ha. mem_facts. apply cell_ext; cells.
Qed.

Lemma swapped_snoc C h h' h'' e :
  swapped C h h' → e ∉ C → swapped [e] h' h'' → swapped (C ++ [e]) h h''.
Proof.
  intros [Hs Ho] He [Hs' Ho']. split.
  - intros a [Ha| ->%list_elem_of_singleton]%elem_of_app.
    + assert (h'' !! a = h' !! a) as Heq by (apply Ho'; set_solver).
      rewrite (nx_ext h' h''), (pv_ext h' h'') by done. by apply Hs.
    + destruct (Hs' e) as [-> ->]; [set_solver|].
      assert (h' !! e = h !! e) as Heq by by apply Ho.
      by rewrite (nx_ext h h'), (pv_ext h h').
  - intros a Ha. rewrite Ho', Ho; set_solver.
Qed.

Lemma linked_rev h h' ys :
  linked h ys →
  (∀ a, a ∈ tail ys → nx h' a = pv h a) →
  (∀ a, a ∈ removelast ys → pv h' a = nx h a) →
  linked h' (rev ys).
Proof.
  induction ys as [|a [|b ys] IH]; [done|done|].
  intros (Hn & Hp & Hl) Hnx Hpv. cbn [rev] in *. rewrite <-app_assoc. simpl.
  apply linked_pair. split_and!; [| |rewrite Hpv; [done|simpl; set_solver]|done].
  - apply IH; [done| |].
    + intros c Hc. apply Hnx. simpl in *. set_solver.
    + intros c Hc. apply Hpv. simpl in *. destruct ys; set_solver.
  - rewrite Hnx; [done|]. simpl. set_solver.
Qed.

(** Both ends of a nonempty list. *)
Lemma dl_ends h l xs :
  dlist h l xs → xs ≠ [] →
  ∃ x z, (∃ t, xs = x :: t) ∧ (∃ t, xs = t ++ [z]) ∧
    nx h (l_head l) = Some x ∧ pv h x = Some (l_head l) ∧
    pv h (l_tail l) = Some z ∧ nx h z = Some (l_tail l).
Proof.
  intros Hdl Hne. destruct (exists_last Hne) as (t & z & Hz).
  destruct xs as [|x t']; [done|]. exists x, z.
  destruct (dl_adj Hdl [] (l_head l) x (t' ++ [l_tail l])) as [H1 H2]; [done|].
  destruct (dl_adj Hdl (l_head l :: t) z (l_tail l) []) as [H3 H4].
  { rewrite Hz. unfold cells_of. by rewrite <-app_assoc. }
  split_and!; eauto.
Qed.

Lemma dl_apart h l xs :
  dlist h l xs →
  l_head l ≠ l_tail l ∧ l_head l ∉ xs ∧ l_tail l ∉ xs ∧ NoDup xs ∧
  ∀ a, a ∈ xs → a ≠ l_head l ∧ a ≠ l_tail l.
Proof.
  intros [(Hhd & Hnd)%NoDup_cons _ _ _ _]. apply NoDup_app in Hnd as (? & Htl & _).
  assert (l_tail l ∉ xs) by (intros ?%Htl; set_solver). set_solver.
Qed.

Definition reversed h l x z : gmap Z node :=
  upd_next (upd_prev (upd_prev (upd_next h (l_head l) z) (l_tail l) x) z (l_head l)) x (l_tail l).

(** Facts about a list that runs from [x] to [z], after its cells were swapped. *)
Section reversed_list.
Context {h h' l xs x z} (Hdl : dlist h l xs) (Hx : ∃ t, xs = x :: t) (Hz : ∃ t, xs = t ++ [z]).
Context (Hsw : swapped xs h h').

Lemma rv_in : x ∈ xs ∧ z ∈ xs.
Proof. destruct Hx as [t1 H1], Hz as [t2 H2]. split; [rewrite H1|rewrite H2]; set_solver. Qed.

Lemma rv_cell a : a ∈ cells_of l xs → is_Some (h' !! a).
Proof.
  intros Ha. pose proof (dl_cell Hdl a Ha) as Hc. destruct Hsw as [Hs Ho].
  destruct (decide (a ∈ xs)) as [Hin|Hin]; [|by rewrite Ho].
  apply nx_is_Some. destruct (Hs a Hin) as [-> _]. by apply pv_is_Some.
Qed.

Lemma rv_interior : linked (reversed h' l x z) (rev xs).
Proof.
  destruct (dl_apart _ _ _ Hdl) as (Hht & Hhd & Htl & Hnd & Hne), rv_in as [Hxin Hzin].
  destruct (Hne x Hxin) as [Hxh Hxt], (Hne z Hzin) as [Hzh Hzt].
  pose proof (dl_linked _ _ _ Hdl) as Hl. unfold cells_of in Hl.
  destruct Hsw as [Hs Ho], Hx as [t1 H1], Hz as [t2 H2]. apply (linked_rev h).
  - rewrite H2 in Hl |- *. rewrite <-app_assoc, app_comm_cons in Hl.
    apply (linked_pair _ (l_head l :: t2)) in Hl as [Hl _].
    destruct t2; simpl in Hl |- *; tauto.
  - intros a Ha. assert (a ∈ xs) as Hin by (by apply tail_sub).
    assert (a ≠ x) by (intros ->; rewrite H1 in Hnd, Ha; by apply NoDup_cons in Hnd as [? _]).
    destruct (Hs a Hin) as [<- _], (Hne a Hin). unfold reversed. cells.
  - intros a Ha. assert (a ∈ xs) as Hin by (by apply removelast_sub).
    assert (a ≠ z).
    { intros ->. rewrite H2, removelast_snoc in Ha. rewrite H2 in Hnd.
      apply NoDup_app in Hnd as (_ & Hn & _). eapply Hn; [done|set_solver]. }
    destruct (Hs a Hin) as [_ <-], (Hne a Hin). unfold reversed. cells.
Qed.

Lemma dlist_reversed : dlist (reversed h' l x z) l (rev xs).
Proof.
  pose proof rv_interior as Hrev.
  destruct (dl_apart _ _ _ Hdl) as (Hht & Hhd & Htl & Hnd & Hne), rv_in as [Hxin Hzin].
  destruct (Hne x Hxin) as [Hxh Hxt], (Hne z Hzin) as [Hzh Hzt].
  pose proof (rv_cell (l_head l) ltac:(unfold cells_of; set_solver)).
  pose proof (rv_cell (l_tail l) ltac:(unfold cells_of; set_solver)).
  pose proof (rv_cell x ltac:(unfold cells_of; set_solver)).
  pose proof (rv_cell z ltac:(unfold cells_of; set_solver)).
  destruct Hsw as [_ Ho], Hdl as [? ? Hh Ht Hl].
  assert (pv h' (l_head l) = Some NULL) by (rewrite (pv_ext h); [done|by apply Ho]).
  assert (nx h' (l_tail l) = Some NULL) by (rewrite (nx_ext h); [done|by apply Ho]).
  split; [unfold cells_of; by rewrite <-(Permutation_rev xs)..
         |unfold reversed; cells|unfold reversed; cells|].
  destruct Hx as [t1 Ht1], Hz as [t2 Ht2]. unfold cells_of.
  assert (∃ R, rev xs = z :: R) as [R HR] by (rewrite Ht2, rev_app_distr; simpl; eauto).
  assert (∃ R', rev xs = R' ++ [x]) as [R' HR'] by (rewrite Ht1; simpl; eauto).
  rewrite HR', <-app_assoc, app_comm_cons. apply (linked_pair _ (l_head l :: R')).
  split_and!; [|unfold reversed; by cells|unfold reversed; by cells|done].
  simpl app. rewrite <-HR', HR. rewrite HR in Hrev.
  apply (linked_pair _ []). split_and!; [done|unfold reversed; by cells..|done].
Qed.

Lemma wp_swap_ends :
  wp (swap_ends l) h' (λ _ h'', dlist h'' l (rev xs) ∧ outside (cells_of l xs) h h'').
Proof.
  pose proof dlist_reversed as Hrev.
  destruct (dl_apart _ _ _ Hdl) as (Hht & Hhd & Htl & Hnd & Hne), rv_in as [Hxin Hzin].
  destruct (Hne x Hxin) as [Hxh Hxt], (Hne z Hzin) as [Hzh Hzt].
  assert (xs ≠ []) as Hnil by (intros ->; set_solver).
  destruct (dl_ends _ _ _ Hdl Hnil) as (x' & z' & [t1' H1'] & [t2' H2'] & Hhx & Hx1 & Htz & Hz1).
  destruct Hx as [t1 H1], Hz as [t2 H2].
  assert (x' = x) as -> by congruence.
  assert (z' = z) as -> by (rewrite H2' in H2; by apply app_inj_tail in H2 as [_ ->]).
  destruct Hsw as [Hs Ho], (Hs x Hxin) as [Hx2 _], (Hs z Hzin) as [_ Hz2].
  rewrite Hx1 in Hx2. rewrite Hz1 in Hz2.
  assert (nx h' (l_head l) = Some x) by (rewrite (nx_ext h); [done|by apply Ho]).
  assert (pv h' (l_tail l) = Some z) by (rewrite (pv_ext h); [done|by apply Ho]).
  assert (is_Some (h' !! l_head l) ∧ is_Some (h' !! l_tail l) ∧ is_Some (h' !! x) ∧
          is_Some (h' !! z)) as (? & ? & ? & ?).
  { split_and!; apply rv_cell; unfold cells_of; set_solver. }
  unfold swap_ends. wp_step. eapply wp_get_next; [done|]. wp_step. eapply wp_get_prev; [done|].
  wp_step. apply wp_set_next; [done|]. wp_step. apply wp_set_prev; [by autorewrite with cells|].
  wp_step. apply (wp_get_next _ _ z); [by cells|]. wp_step. apply (wp_get_prev _ _ x); [by cells|].
  wp_step. apply (wp_get_prev _ _ (l_tail l)); [by cells|].
  wp_step. apply (wp_get_next _ _ (l_head l)); [by cells|].
  wp_step. apply wp_set_prev; [by autorewrite with cells|].
  apply wp_set_next; [by autorewrite with cells|]. split; [done|].
  intros a Ha. unfold cells_of in Ha. rewrite <-(Ho a) by set_solver.
  assert (a ≠ x ∧ a ≠ z ∧ a ≠ l_head l ∧ a ≠ l_tail l) as (?&?&?&?) by set_solver.
  apply cell_ext; cells.
Qed.
End reversed_list.

Lemma wp_list_reverse h l xs :
  dlist h l xs →
  wp (list_reverse l) h (λ _ h', dlist h' l (rev xs) ∧ outside (cells_of l xs) h h').
Proof.
  intros Hdl. unfold list_reverse, list_end. wp_step. eapply wp_list_empty; [done|].
  case_bool_decide as Hne; [by subst; wp_steps|].
  destruct (dl_ends _ _ _ Hdl Hne) as (x & z & Hx & Hz & _).
  wp_step. eapply wp_list_begin; [done|]. wp_step.
  apply (wp_while (λ '(xs1, xs2) e h', xs = xs1 ++ xs2 ∧ e = hd (l_tail l) xs2 ∧
    swapped xs1 h h') (λ g, length g.2) _ _ ([], xs)).
  { split_and!; [done..|]. split; [set_solver|apply outside_refl]. }
  { pose proof (dl_length Hdl). simpl. lia. }
  intros [xs1 xs2] e h' (Hxs & -> & Hs). wp_steps.
  rewrite (dl_end_eq (h := h) xs1 xs2) by (by rewrite <-Hxs).
  destruct xs2 as [|y xs2].
  - rewrite app_nil_r in Hxs. subst xs1. rewrite bool_decide_true by done. wp_steps.
    by eapply wp_swap_ends.
  - rewrite bool_decide_false by done. simpl hd.
    assert (h' !! y = h !! y ∧ y ∉ xs1) as [Hyy Hy].
    { destruct (dl_apart _ _ _ Hdl) as (_ & _ & _ & Hnd & _). rewrite Hxs in Hnd.
      apply NoDup_middle in Hnd as (? & _). split; [by apply Hs|done]. }
    destruct (dl_adj Hdl (l_head l :: xs1) y (hd (l_tail l) xs2) (tail (xs2 ++ [l_tail l])))
      as [Hn _].
    { rewrite Hxs. unfold cells_of. rewrite <-app_assoc. by destruct xs2. }
    wp_step. eapply wp_mono; [apply wp_swap_links; rewrite Hyy; apply nx_is_Some; eauto|].
    intros ? h'' Hs'. wp_step. apply (wp_get_prev _ _ (hd (l_tail l) xs2)).
    { destruct (proj1 Hs' y) as [_ ->]; [set_solver|]. by rewrite (nx_ext h). }
    wp_steps. exists (xs1 ++ [y], xs2). rewrite <-app_assoc. simpl.
    split_and!; [done|done|by eapply swapped_snoc|lia].
Qed.
End reverse.

(** ** Removing duplicates *)
Section unique.
Context (less : Z → Z → bool) (l : klist) (dup : option klist).
Implicit Types (h : gmap Z node) (xs ds dd kept rest : list Z).

(** The optional list the duplicates are moved to. *)
Definition dups_at h ds : Prop :=
  match dup with Some d => dlist h d ds | None => True end.
Definition dup_cells ds : list Z :=
  match dup with Some d => cells_of d ds | None => [] end.

Lemma dup_cells_app ds dd : dup_cells (ds ++ dd) ⊆ dd ++ dup_cells ds.
Proof. unfold dup_cells, cells_of. destruct dup; set_solver. Qed.

(** Moving one removed element to the list of duplicates. *)
Lemma wp_push_dup h xs ds n :
  dlist h l xs → dups_at h ds → n ∉ cells_of l xs → n ∉ dup_cells ds → n ≠ NULL →
  is_Some (h !! n) → (∀ a, a ∈ cells_of l xs → a ∉ dup_cells ds) →
  wp (match dup with Some d => list_push_back d n | None => mret tt end) h (λ _ h',
    dlist h' l xs ∧ dups_at h' (ds ++ [n]) ∧ outside (n :: dup_cells ds) h h').
Proof.
  unfold dups_at, dup_cells. destruct dup as [d|]; intros Hdl Hds Hn Hnd Hn0 Hc Hdisj.
  - eapply wp_mono; [by apply (wp_list_push_back h d ds n)|].
    intros _ h' [Hd' Ho]. split_and!; [|done|done].
    eapply dlist_outside; [done..|]. intros a Ha. specialize (Hdisj a Ha). set_solver.
  - by wp_steps.
Qed.

(** An element leaves the list and joins the duplicates. *)
Lemma wp_move_dup h kept n rest ds :
  dlist h l (kept ++ n :: rest) → dups_at h ds →
  (∀ a, a ∈ cells_of l (kept ++ n :: rest) → a ∉ dup_cells ds) →
  wp (list_remove n) h (λ _ h1,
    wp (match dup with Some d => list_push_back d n | None => mret tt end) h1 (λ _ h',
      dlist h' l (kept ++ rest) ∧ dups_at h' (ds ++ [n]) ∧
      outside (cells_of l (kept ++ n :: rest) ++ dup_cells ds) h h')).
Proof.
  intros Hdl Hds Hdisj.
  assert (n ∈ cells_of l (kept ++ n :: rest)) as Hnc by (unfold cells_of; set_solver).
  assert (∀ a, a ∈ cells_of l (kept ++ rest) → a ∈ cells_of l (kept ++ n :: rest)) as Hsub
    by (intros a; unfold cells_of; set_solver).
  eapply wp_mono; [by apply (wp_list_remove h l kept n rest)|].
  intros ? h1 (_ & Hdl1 & Hsame & Hnot & Ho1).
  eapply wp_mono; [apply (wp_push_dup h1 (kept ++ rest) ds n)|]; [done| |done| | | | |].
  - unfold dups_at, dup_cells in *. destruct dup as [d|]; [|done].
    eapply dlist_outside; [done..|]. intros c Hc Hin. by eapply (Hdisj c); [apply Hsub|].
  - by apply Hdisj.
  - by apply (dl_nonnull Hdl).
  - rewrite Hsame. by apply (dl_cell Hdl).
  - intros c Hc. by apply Hdisj, Hsub.
  - intros _ h2 (? & ? & Ho2). split_and!; [done..|].
    eapply outside_trans; (eapply outside_mono; [|done]); set_solver.
Qed.

Lemma moved_disjoint h xs ys ds dd :
  dlist h l xs → (∀ a, a ∈ cells_of l xs → a ∉ dup_cells ds) → xs ≡ₚ dd ++ ys →
  ∀ a, a ∈ cells_of l ys → a ∉ dup_cells (ds ++ dd).
Proof.
  intros Hdl Hdisj Hperm a Ha. destruct (dl_apart _ _ _ Hdl) as (_ & _ & _ & Hnd & Hne).
  intros Hin. apply (dup_cells_app ds dd) in Hin. apply elem_of_app in Hin as [Hin|Hin].
  - rewrite Hperm in Hnd. apply NoDup_app in Hnd as (_ & Hnd & _).
    assert (a ∈ xs) as Hax by (rewrite Hperm; set_solver).
    destruct (Hne a Hax). eapply Hnd; [done|]. unfold cells_of in Ha. set_solver.
  - apply (Hdisj a); [|done]. unfold cells_of in *. rewrite Hperm. set_solver.
Qed.

Definition unique_result xs : list Z * list Z :=
  match xs with [] => ([], []) | x :: t => Spec.unique less x t end.

Lemma wp_list_unique h xs ds :
  dlist h l xs → dups_at h ds → (∀ a, a ∈ cells_of l xs → a ∉ dup_cells ds) →
  wp (list_unique l dup less) h (λ _ h',
    dlist h' l (unique_result xs).1 ∧ dups_at h' (ds ++ (unique_result xs).2) ∧
    outside (cells_of l xs ++ dup_cells ds) h h').
Proof.
  intros Hdl Hds Hdisj. unfold list_unique, list_end. wp_step. eapply wp_list_empty; [done|].
  destruct xs as [|x t] eqn:Hxs.
  { rewrite bool_decide_true by done. wp_steps. by rewrite app_nil_r. }
  rewrite bool_decide_false by done. rewrite <-Hxs in *.
  wp_step. eapply wp_list_begin; [done|].
  apply (wp_while (λ '(kept, rest, dd) e h',
    dlist h' l (kept ++ e :: rest) ∧ dups_at h' (ds ++ dd) ∧
    xs ≡ₚ dd ++ kept ++ e :: rest ∧
    unique_result xs = (kept ++ (Spec.unique less e rest).1, dd ++ (Spec.unique less e rest).2) ∧
    outside (cells_of l xs ++ dup_cells ds) h h') (λ '(kept, rest, dd), length rest)
    _ _ ([], t, [])).
  { subst xs. simpl hd. rewrite app_nil_r. split_and!; [done..| |apply outside_refl].
    simpl. by destruct (Spec.unique less x t). }
  { pose proof (dl_length Hdl) as Hlen. rewrite Hxs in Hlen. simpl in *. lia. }
  clear x t Hxs. intros [[kept rest] dd] e h' (Hdl' & Hds' & Hperm & Hu & Ho).
  pose proof (moved_disjoint h xs (kept ++ e :: rest) ds dd Hdl Hdisj Hperm) as Hdisj'.
  wp_step. eapply wp_list_next; [done|]. wp_steps.
  rewrite (dl_end_eq (h := h') (kept ++ [e]) rest) by (by rewrite <-app_assoc).
  destruct rest as [|n rest].
  { rewrite bool_decide_true by done. wp_steps. rewrite Hu. simpl. by rewrite app_nil_r. }
  rewrite bool_decide_false by done. simpl hd. cbn [Spec.unique] in Hu.
  destruct (negb (less e n) && negb (less n e)).
  - pose proof (app_assoc kept [e] (n :: rest) : kept ++ e :: n :: rest = _) as Ha.
    wp_step. eapply wp_mono;
      [apply (wp_move_dup h' (kept ++ [e]) n rest (ds ++ dd)); rewrite <-?Ha; done|].
    intros ? h1 Hpush. wp_step. eapply wp_mono; [exact Hpush|].
    intros ? h2 (Hdl2 & Hd2 & Ho2). wp_steps. exists (kept, rest, dd ++ [n]).
    rewrite <-Ha in Ho2. destruct (Spec.unique less e rest) as [k d].
    rewrite <-!app_assoc in *. simpl in *. split_and!; [done|done| |done| |lia].
    + rewrite Hperm. simpl. f_equiv. rewrite <-!Permutation_middle. apply perm_swap.
    + eapply outside_trans; [done|]. eapply outside_mono; [|done].
      pose proof (dup_cells_app ds dd). unfold cells_of. rewrite Hperm. set_solver.
  - wp_steps. exists (kept ++ [e], rest, dd).
    rewrite <-!app_assoc. simpl. split_and!; [done..| |done|lia].
    rewrite Hu. by destruct (Spec.unique less n rest).
Qed.
End unique.
