(* ===== verification/KListProps.v ===== *)
(** * Properties of lib/kernel/list.c

    The statements about the list library, each with an instance on a concrete
    heap. *)
From S2P Require Import Prelude ListSpec KList KListFacts KListOps.
Local Open Scope Z_scope.

(** Cells [e] and the two headers of [l], linked up as the list [xs]; cells
    [free] belong to no list. *)
Fixpoint chain (p : Z) (es : list Z) (t : Z) : gmap Z node :=
  match es with
  | [] => {[ t := Node p NULL ]}
  | e :: es' => <[e := Node p (hd t es')]> (chain e es' t)
  end.
Definition heap_of (l : klist) (xs free : list Z) : gmap Z node :=
  <[l_head l := Node NULL (hd (l_tail l) xs)]>
    (chain (l_head l) xs (l_tail l) ∪ list_to_map ((λ e, (e, Node NULL NULL)) <$> free)).

Definition ex_list : klist := KList 1 2.
Definition ex_dups : klist := KList 3 4.
Definition ex_less : Z → Z → bool := by_key (λ e, e `mod` 10).
Definition ex_heap : gmap Z node := heap_of ex_list [23; 12; 31; 11; 22] [50].

(** C25: [list_sort] terminates on every well formed list whatever strict weak
    order it is given, fails no assertion, and leaves the list sorted by
    [sort_list], which is the same elements in nondecreasing order with elements
    that compare equal in their old relative order; no cell outside the list is
    written. *)
Theorem list_sort_correct l less h xs :
  StrictWeakOrder less → dlist h l xs →
  ∃ h', list_sort l less h = Ok (tt, h') ∧ dlist h' l (sort_list less xs) ∧
    stable_sort_of less xs (sort_list less xs) ∧ outside (cells_of l xs) h h'.
Proof.
  intros Hswo Hdl. destruct (proj1 (wp_ok _ _ _) (wp_list_sort l less h xs Hdl))
    as ([] & h' & Hrun & ys & ? & Hst & ?).
  rewrite <-(stable_sort_is_sort_list less xs ys Hst). eauto.
Qed.

Lemma list_sort_correct_witness :
  ∃ h', list_sort ex_list ex_less ex_heap = Ok (tt, h') ∧
    dlist h' ex_list (sort_list ex_less [23; 12; 31; 11; 22]) ∧
    stable_sort_of ex_less [23; 12; 31; 11; 22] (sort_list ex_less [23; 12; 31; 11; 22]) ∧
    outside (cells_of ex_list [23; 12; 31; 11; 22]) ex_heap h'.
Proof.
  apply list_sort_correct; [apply by_key_swo|].
  apply dlistb_sound. vm_compute. reflexivity.
Defined.

(** [list_insert_ordered] puts the new element after every element that is
    not greater and before the first greater one, so a sorted list stays sorted
    and equal elements stay in order of arrival. *)
Theorem list_insert_ordered_correct l less h xs e :
  StrictWeakOrder less → dlist h l xs → Sorted (not_after less) xs →
  e ∉ cells_of l xs → e ≠ NULL → is_Some (h !! e) →
  ∃ h' xs1 xs2, list_insert_ordered l e less h = Ok (tt, h') ∧
    xs = xs1 ++ xs2 ∧ dlist h' l (xs1 ++ e :: xs2) ∧
    Sorted (not_after less) (xs1 ++ e :: xs2) ∧
    Forall (λ y, less e y = false) xs1 ∧ Forall (λ y, less e y = true) xs2 ∧
    outside (e :: cells_of l xs) h h'.
Proof.
  intros Hswo Hdl Hs He Hn Hc.
  destruct (proj1 (wp_ok _ _ _) (wp_list_insert_ordered h l less xs e Hdl He Hn Hc))
    as ([] & h' & Hrun & Hdl' & Ho).
  pose proof (insert_ordered_sorted less e xs Hs) as Hs'.
  destruct (insert_ordered_split less e xs) as (xs1 & xs2 & Hxs & Hins & Hf1 & Hh).
  rewrite Hins in *. exists h', xs1, xs2. split_and!; try done.
  destruct xs2 as [|y ys]; constructor; [by apply Hh|].
  rewrite Hxs in Hs. apply sorted_suffix in Hs.
  eapply Forall_impl; [by apply (sorted_forall less)|].
  intros z Hz. by eapply less_le_trans; [done|apply Hh|].
Qed.

Lemma list_insert_ordered_correct_witness :
  ∃ h' xs1 xs2,
    list_insert_ordered ex_list 51 ex_less (heap_of ex_list [11; 21; 32] [51]) = Ok (tt, h') ∧
    [11; 21; 32] = xs1 ++ xs2 ∧ dlist h' ex_list (xs1 ++ 51 :: xs2) ∧
    Sorted (not_after ex_less) (xs1 ++ 51 :: xs2) ∧
    Forall (λ y, ex_less 51 y = false) xs1 ∧ Forall (λ y, ex_less 51 y = true) xs2 ∧
    outside (51 :: cells_of ex_list [11; 21; 32]) (heap_of ex_list [11; 21; 32] [51]) h'.
Proof.
  apply list_insert_ordered_correct; [apply by_key_swo| | | |done|].
  - apply dlistb_sound. vm_compute. reflexivity.
  - apply sortedb_spec. vm_compute. reflexivity.
  - eapply bool_decide_eq_true_1. vm_compute. reflexivity.
  - vm_compute. eauto.
Defined.

(** [list_reverse] reverses the list in place. *)
Theorem list_reverse_correct l h xs :
  dlist h l xs →
  ∃ h', list_reverse l h = Ok (tt, h') ∧ dlist h' l (rev xs) ∧ outside (cells_of l xs) h h'.
Proof.
  intros Hdl. destruct (proj1 (wp_ok _ _ _) (wp_list_reverse h l xs Hdl))
    as ([] & h' & ?). eauto.
Qed.

Lemma list_reverse_correct_witness :
  ∃ h', list_reverse ex_list ex_heap = Ok (tt, h') ∧
    dlist h' ex_list [22; 11; 31; 12; 23] ∧
    outside (cells_of ex_list [23; 12; 31; 11; 22]) ex_heap h'.
Proof.
  apply (list_reverse_correct ex_list ex_heap [23; 12; 31; 11; 22]).
  apply dlistb_sound. vm_compute. reflexivity.
Defined.

(** Inserting an element and removing it again restores every link of the
    list: no cell other than the element's own differs from before. *)
Theorem list_insert_remove_roundtrip h l xs1 xs2 e :
  dlist h l (xs1 ++ xs2) → e ∉ cells_of l (xs1 ++ xs2) → e ≠ NULL → is_Some (h !! e) →
  ∃ h1 h2, list_insert (hd (l_tail l) xs2) e h = Ok (tt, h1) ∧
    dlist h1 l (xs1 ++ e :: xs2) ∧
    list_remove e h1 = Ok (hd (l_tail l) xs2, h2) ∧
    dlist h2 l (xs1 ++ xs2) ∧ ∀ a, a ≠ e → h2 !! a = h !! a.
Proof.
  intros Hdl He Hn Hc.
  destruct (proj1 (wp_ok _ _ _) (wp_list_insert h l xs1 xs2 e Hdl He Hn Hc))
    as ([] & h1 & Hins & Hdl1 & Ho1).
  destruct (proj1 (wp_ok _ _ _) (wp_list_remove h1 l xs1 e xs2 Hdl1))
    as (r & h2 & Hrem & -> & Hdl2 & _ & _ & Ho2).
  exists h1, h2. split_and!; try done. intros a Hae.
  destruct (decide (a ∈ cells_of l (xs1 ++ xs2))) as [Hin|Hin].
  - by eapply dlist_cell_unique.
  - rewrite Ho2, Ho1; [done|set_solver|done].
Qed.

Lemma list_insert_remove_roundtrip_witness :
  ∃ h1 h2, list_insert 31 50 ex_heap = Ok (tt, h1) ∧
    dlist h1 ex_list ([23; 12] ++ 50 :: [31; 11; 22]) ∧
    list_remove 50 h1 = Ok (31, h2) ∧
    dlist h2 ex_list [23; 12; 31; 11; 22] ∧ ∀ a, a ≠ 50 → h2 !! a = ex_heap !! a.
Proof.
  apply (list_insert_remove_roundtrip ex_heap ex_list [23; 12] [31; 11; 22] 50).
  - apply dlistb_sound. vm_compute. reflexivity.
  - eapply bool_decide_eq_true_1. vm_compute. reflexivity.
  - done.
  - vm_compute. eauto.
Defined.

(** [list_unique] keeps the first element of every group of adjacent
    equivalent elements, in order, so that no two neighbours are equivalent any
    more, and appends the others to [duplicates] in the order of the list. *)
Theorem list_unique_correct l d less h x xs ds :
  dlist h l (x :: xs) → dlist h d ds →
  (∀ a, a ∈ cells_of l (x :: xs) → a ∉ cells_of d ds) →
  ∃ h' kept dups, list_unique l (Some d) less h = Ok (tt, h') ∧
    Spec.unique less x xs = (kept, dups) ∧
    dlist h' l kept ∧ dlist h' d (ds ++ dups) ∧
    x :: xs ≡ₚ kept ++ dups ∧ no_adjacent_same less kept ∧
    outside (cells_of l (x :: xs) ++ cells_of d ds) h h'.
Proof.
  intros Hdl Hd Hdisj.
  destruct (proj1 (wp_ok _ _ _) (wp_list_unique less l (Some d) h (x :: xs) ds Hdl Hd Hdisj))
    as ([] & h' & Hrun & Hdl' & Hd' & Ho). simpl in *.
  destruct (unique_no_adjacent less x xs) as (k' & Hk & Hadj).
  destruct (Spec.unique less x xs) as [kept dups] eqn:Hu. simpl in *. subst kept.
  exists h', (x :: k'), dups. split_and!; try done. by apply unique_perm in Hu.
Qed.

Lemma list_unique_correct_witness :
  let h := heap_of ex_list [11; 21; 32; 41; 51] [] ∪ heap_of ex_dups [61] [] in
  ∃ h' kept dups, list_unique ex_list (Some ex_dups) ex_less h = Ok (tt, h') ∧
    Spec.unique ex_less 11 [21; 32; 41; 51] = (kept, dups) ∧
    dlist h' ex_list kept ∧ dlist h' ex_dups ([61] ++ dups) ∧
    [11; 21; 32; 41; 51] ≡ₚ kept ++ dups ∧ no_adjacent_same ex_less kept ∧
    outside (cells_of ex_list [11; 21; 32; 41; 51] ++ cells_of ex_dups [61]) h h'.
Proof.
  apply list_unique_correct.
  - apply dlistb_sound. vm_compute. reflexivity.
  - apply dlistb_sound. vm_compute. reflexivity.
  - intros a Ha. unfold cells_of in *. simpl in *. set_solver by lia.
Defined.

(** [list_max] returns the first of the greatest elements: everything
    before it is strictly smaller, nothing after it is greater. *)
Theorem list_max_correct l less h x xs :
  StrictWeakOrder less → dlist h l (x :: xs) →
  ∃ m xs1 xs2, list_max l less h = Ok (m, h) ∧ x :: xs = xs1 ++ m :: xs2 ∧
    Forall (λ y, less y m = true) xs1 ∧ Forall (λ y, less m y = false) xs2.
Proof.
  intros Hswo Hdl.
  destruct (proj1 (wp_ok _ _ _) (wp_list_max h l less (x :: xs) Hdl))
    as (m & h' & Hrun & -> & Hm).
  destruct (max_spec less x xs) as (xs1 & xs2 & Heq & H1 & H2). simpl in Hm. subst m.
  exists (Spec.max less x xs), xs1, xs2. split_and!; done.
Qed.

Lemma list_max_correct_witness :
  ∃ m xs1 xs2, list_max ex_list ex_less ex_heap = Ok (m, ex_heap) ∧
    [23; 12; 31; 11; 22] = xs1 ++ m :: xs2 ∧
    Forall (λ y, ex_less y m = true) xs1 ∧ Forall (λ y, ex_less m y = false) xs2.
Proof.
  apply list_max_correct; [apply by_key_swo|].
  apply dlistb_sound. vm_compute. reflexivity.
Defined.
