(* ===== verification/Kernel.v ===== *)
(** * The kernel state and the interrupt flag

    The state shared by threads/thread.c, threads/synch.c, devices/timer.c and
    threads/interrupt.c, and the smallest operations on it.

    A context switch happens in the middle of a C function.  What a thread
    still has to do when it is switched back in, its kernel stack from the
    return address of [schedule] upwards, is kept as a list of [frame]s: one
    constructor for each place in the source from which [schedule] can be
    reached.  A function that may switch pushes the frame of its own
    continuation before the call, and "returning" means that the top frame of
    the running thread is executed next (see [run_frame] in KernelStep.v).

    The queues are Rocq lists: KListProps.v shows that the pointer operations
    of list.c compute the operations of [Spec] used here.  The one exception is
    [lock_waiting], where one list element is put in several lists at once; it
    is kept as the memory cells themselves ([links]) and driven by the
    operations of KList.v. *)
From S2P Require Import Prelude ListSpec KList.
Local Open Scope Z_scope.

(** ** Data *)

Inductive thread_status := THREAD_RUNNING | THREAD_READY | THREAD_BLOCKED | THREAD_DYING.
Inductive intr_level := INTR_OFF | INTR_ON.

(** The address of a semaphore: a free-standing one, or the one embedded in a
    lock, in a thread ([sleep_mutex]), or in the [struct semaphore_elem] that a
    thread in [cond_wait] keeps on its stack. *)
Inductive sema_id :=
| SemObj (n : Z)
| SemLock (l : Z)
| SemSleep (t : Z)
| SemWaiter (t : Z).

#[global] Instance thread_status_eq_dec : EqDecision thread_status.
Proof. solve_decision. Defined.
#[global] Instance intr_level_eq_dec : EqDecision intr_level.
Proof. solve_decision. Defined.
#[global] Instance sema_id_eq_dec : EqDecision sema_id.
Proof. solve_decision. Defined.
#[global] Instance sema_id_countable : Countable sema_id.
Proof.
  refine (inj_countable'
    (λ s, match s with
          | SemObj n => inl (inl n) | SemLock n => inl (inr n)
          | SemSleep n => inr (inl n) | SemWaiter n => inr (inr n) end)
    (λ x, match x with
          | inl (inl n) => SemObj n | inl (inr n) => SemLock n
          | inr (inl n) => SemSleep n | inr (inr n) => SemWaiter n end) _).
  by intros [].
Defined.

(** Where a thread continues when it runs again. *)
Inductive frame :=
| FSetLevel (old_level : intr_level)            (* "intr_set_level (old_level);" and return *)
| FSemaDown (s : sema_id) (old_level : intr_level)  (* sema_down, back at its while *)
| FLockGot (l : Z) (old_level : intr_level)     (* lock_acquire, after sema_down *)
| FCondDown (l : Z)                             (* cond_wait, after lock_release *)
| FCondLock (l : Z)                             (* cond_wait, after sema_down *)
| FBroadcast (c l : Z)                          (* cond_broadcast, back at its while *)
| FKernelThread                                 (* kernel_thread, at its start *)
| FIdleStart (s : Z)                            (* idle, at its start *)
| FIdleBlock                                    (* idle, at the top of its loop *)
| FIdleSti                                      (* idle, after thread_block *)
| FIdleHlt                                      (* the processor waits in "hlt" *)
| FIret.                                        (* intr_handler, after thread_yield *)

(** [struct semaphore]. *)
Record semaphore := Semaphore { value : Z; waiters : list Z }.
(** [struct lock]: its semaphore is [SemLock], its list elements are in
    [lock_holding] and in [links]. *)
Record lock := Lock { holder : option Z; max_priority : Z }.
(** [struct thread], as far as thread.c, synch.c and timer.c use it: [pagedir]
    says whether the pointer of that name is not null. *)
Record thread := Thread {
  status : thread_status;
  priority : Z;
  old_priority : Z;
  tick_to_wake : Z;
  lock_holding : list Z;
  pagedir : bool;
  stack : list frame;
}.

(** The static variables of the four files.  A condition variable is its list
    of waiters: the priority recorded in each [struct semaphore_elem] and the
    thread whose stack it is on. *)
Record kernel := Kernel {
  threads : gmap Z thread;
  semas : gmap sema_id semaphore;
  locks : gmap Z lock;
  conds : gmap Z (list (Z * Z));
  links : gmap Z node;
  ready_list : list Z;
  sleep_list : list Z;
  current : Z;
  idle_thread : option Z;
  level : intr_level;
  in_external_intr : bool;
  yield_on_return : bool;
  ticks : Z;
  thread_ticks : Z;
  idle_ticks : Z;
  kernel_ticks : Z;
  user_ticks : Z;
  initial_thread : Z;
}.

(** Assignments to one member. *)
Definition with_status (v : thread_status) (th : thread) : thread :=
    Thread v (priority th) (old_priority th) (tick_to_wake th) (lock_holding th) (pagedir th)
    (stack th).
Definition with_priority (v : Z) (th : thread) : thread :=
    Thread (status th) v (old_priority th) (tick_to_wake th) (lock_holding th) (pagedir th) (stack
    th).
Definition with_old_priority (v : Z) (th : thread) : thread :=
  Thread (status th) (priority th) v (tick_to_wake th) (lock_holding th) (pagedir th) (stack th).
Definition with_tick_to_wake (v : Z) (th : thread) : thread :=
  Thread (status th) (priority th) (old_priority th) v (lock_holding th) (pagedir th) (stack th).
Definition with_lock_holding (v : list Z) (th : thread) : thread :=
  Thread (status th) (priority th) (old_priority th) (tick_to_wake th) v (pagedir th) (stack th).
Definition with_pagedir (v : bool) (th : thread) : thread :=
    Thread (status th) (priority th) (old_priority th) (tick_to_wake th) (lock_holding th) v
    (stack th).
Definition with_stack (v : list frame) (th : thread) : thread :=
    Thread (status th) (priority th) (old_priority th) (tick_to_wake th) (lock_holding th)
    (pagedir th) v.
Definition set_threads (v : gmap Z thread) (k : kernel) : kernel :=
    Kernel v (semas k) (locks k) (conds k) (links k) (ready_list k) (sleep_list k) (current k)
    (idle_thread k) (level k) (in_external_intr k) (yield_on_return k) (ticks k) (thread_ticks k)
    (idle_ticks k) (kernel_ticks k) (user_ticks k)
    (initial_thread k).
Definition set_semas (v : gmap sema_id semaphore) (k : kernel) : kernel :=
    Kernel (threads k) v (locks k) (conds k) (links k) (ready_list k) (sleep_list k) (current k)
    (idle_thread k) (level k) (in_external_intr k) (yield_on_return k) (ticks k) (thread_ticks k)
    (idle_ticks k) (kernel_ticks k) (user_ticks k)
    (initial_thread k).
Definition set_locks (v : gmap Z lock) (k : kernel) : kernel :=
    Kernel (threads k) (semas k) v (conds k) (links k) (ready_list k) (sleep_list k) (current k)
    (idle_thread k) (level k) (in_external_intr k) (yield_on_return k) (ticks k) (thread_ticks k)
    (idle_ticks k) (kernel_ticks k) (user_ticks k)
    (initial_thread k).
Definition set_conds (v : gmap Z (list (Z * Z))) (k : kernel) : kernel :=
    Kernel (threads k) (semas k) (locks k) v (links k) (ready_list k) (sleep_list k) (current k)
    (idle_thread k) (level k) (in_external_intr k) (yield_on_return k) (ticks k) (thread_ticks k)
    (idle_ticks k) (kernel_ticks k) (user_ticks k)
    (initial_thread k).
Definition set_links (v : gmap Z node) (k : kernel) : kernel :=
    Kernel (threads k) (semas k) (locks k) (conds k) v (ready_list k) (sleep_list k) (current k)
    (idle_thread k) (level k) (in_external_intr k) (yield_on_return k) (ticks k) (thread_ticks k)
    (idle_ticks k) (kernel_ticks k) (user_ticks k)
    (initial_thread k).
Definition set_ready_list (v : list Z) (k : kernel) : kernel :=
    Kernel (threads k) (semas k) (locks k) (conds k) (links k) v (sleep_list k) (current k)
    (idle_thread k) (level k) (in_external_intr k) (yield_on_return k) (ticks k) (thread_ticks k)
    (idle_ticks k) (kernel_ticks k) (user_ticks k)
    (initial_thread k).
Definition set_sleep_list (v : list Z) (k : kernel) : kernel :=
    Kernel (threads k) (semas k) (locks k) (conds k) (links k) (ready_list k) v (current k)
    (idle_thread k) (level k) (in_external_intr k) (yield_on_return k) (ticks k) (thread_ticks k)
    (idle_ticks k) (kernel_ticks k) (user_ticks k)
    (initial_thread k).
Definition set_current (v : Z) (k : kernel) : kernel :=
    Kernel (threads k) (semas k) (locks k) (conds k) (links k) (ready_list k) (sleep_list k) v
    (idle_thread k) (level k) (in_external_intr k) (yield_on_return k) (ticks k) (thread_ticks k)
    (idle_ticks k) (kernel_ticks k) (user_ticks k)
    (initial_thread k).
Definition set_idle_thread (v : option Z) (k : kernel) : kernel :=
    Kernel (threads k) (semas k) (locks k) (conds k) (links k) (ready_list k) (sleep_list k)
    (current k) v (level k) (in_external_intr k) (yield_on_return k) (ticks k) (thread_ticks k)
    (idle_ticks k) (kernel_ticks k) (user_ticks k)
    (initial_thread k).
Definition set_level (v : intr_level) (k : kernel) : kernel :=
    Kernel (threads k) (semas k) (locks k) (conds k) (links k) (ready_list k) (sleep_list k)
    (current k) (idle_thread k) v (in_external_intr k) (yield_on_return k) (ticks k) (thread_ticks
    k) (idle_ticks k) (kernel_ticks k) (user_ticks k)
    (initial_thread k).
Definition set_in_external_intr (v : bool) (k : kernel) : kernel :=
    Kernel (threads k) (semas k) (locks k) (conds k) (links k) (ready_list k) (sleep_list k)
    (current k) (idle_thread k) (level k) v (yield_on_return k) (ticks k) (thread_ticks k)
    (idle_ticks k) (kernel_ticks k) (user_ticks k)
    (initial_thread k).
Definition set_yield_on_return (v : bool) (k : kernel) : kernel :=
    Kernel (threads k) (semas k) (locks k) (conds k) (links k) (ready_list k) (sleep_list k)
    (current k) (idle_thread k) (level k) (in_external_intr k) v (ticks k) (thread_ticks k)
    (idle_ticks k) (kernel_ticks k) (user_ticks k)
    (initial_thread k).
Definition set_ticks (v : Z) (k : kernel) : kernel :=
    Kernel (threads k) (semas k) (locks k) (conds k) (links k) (ready_list k) (sleep_list k)
    (current k) (idle_thread k) (level k) (in_external_intr k) (yield_on_return k) v (thread_ticks
    k) (idle_ticks k) (kernel_ticks k) (user_ticks k)
    (initial_thread k).
Definition set_thread_ticks (v : Z) (k : kernel) : kernel :=
    Kernel (threads k) (semas k) (locks k) (conds k) (links k) (ready_list k) (sleep_list k)
    (current k) (idle_thread k) (level k) (in_external_intr k) (yield_on_return k) (ticks k) v
    (idle_ticks k) (kernel_ticks k) (user_ticks k)
    (initial_thread k).
Definition set_idle_ticks (v : Z) (k : kernel) : kernel :=
    Kernel (threads k) (semas k) (locks k) (conds k) (links k) (ready_list k) (sleep_list k)
    (current k) (idle_thread k) (level k) (in_external_intr k) (yield_on_return k) (ticks k)
    (thread_ticks k) v (kernel_ticks k) (user_ticks k)
    (initial_thread k).
Definition set_kernel_ticks (v : Z) (k : kernel) : kernel :=
    Kernel (threads k) (semas k) (locks k) (conds k) (links k) (ready_list k) (sleep_list k)
    (current k) (idle_thread k) (level k) (in_external_intr k) (yield_on_return k) (ticks k)
    (thread_ticks k) (idle_ticks k) v (user_ticks k)
    (initial_thread k).
Definition set_user_ticks (v : Z) (k : kernel) : kernel :=
    Kernel (threads k) (semas k) (locks k) (conds k) (links k) (ready_list k) (sleep_list k)
    (current k) (idle_thread k) (level k) (in_external_intr k) (yield_on_return k) (ticks k)
    (thread_ticks k) (idle_ticks k) (kernel_ticks k) v (initial_thread k).

Definition PRI_MIN : Z := 0.
Definition PRI_DEFAULT : Z := 31.
Definition PRI_MAX : Z := 63.
Definition TIME_SLICE : Z := 4.

Abbreviation K A := (M kernel A) (only parsing).

(** ** Access through pointers *)

Definition get_thread (t : Z) : K thread := o ← gets (λ k, threads k !! t); the o.
Definition mod_thread (t : Z) (f : thread → thread) : K unit :=
  th ← get_thread t; modify (λ k, set_threads (<[t := f th]> (threads k)) k).
Definition get_sema (s : sema_id) : K semaphore := o ← gets (λ k, semas k !! s); the o.
Definition put_sema (s : sema_id) (sm : semaphore) : K unit :=
  modify (λ k, set_semas (<[s := sm]> (semas k)) k).
Definition get_lock (l : Z) : K lock := o ← gets (λ k, locks k !! l); the o.
Definition put_lock (l : Z) (lk : lock) : K unit :=
  modify (λ k, set_locks (<[l := lk]> (locks k)) k).
Definition get_cond (c : Z) : K (list (Z * Z)) := o ← gets (λ k, conds k !! c); the o.
Definition put_cond (c : Z) (ws : list (Z * Z)) : K unit :=
  modify (λ k, set_conds (<[c := ws]> (conds k)) k).

(** Save a continuation of the running thread. *)
Definition push (f : frame) : K unit :=
  t ← gets current; mod_thread t (λ th, with_stack (f :: stack th) th).

(** ** The interrupt flag *)

Definition intr_context : K bool := gets in_external_intr.
Definition intr_get_level : K intr_level := gets level.
Definition intr_enable : K intr_level :=
  old_level ← intr_get_level;
  ext ← intr_context; ASSERT (negb ext) ;;
  modify (set_level INTR_ON) ;; mret old_level.
Definition intr_disable : K intr_level :=
  old_level ← intr_get_level;
  modify (set_level INTR_OFF) ;; mret old_level.
Definition intr_set_level (l : intr_level) : K intr_level :=
  if decide (l = INTR_ON) then intr_enable else intr_disable.
Definition intr_yield_on_return : K unit :=
  ext ← intr_context; ASSERT ext ;; modify (set_yield_on_return true).

(** ** Comparison functions *)

Definition prio (k : kernel) (t : Z) : Z := default 0 (priority <$> threads k !! t).
Definition wake_tick (k : kernel) (t : Z) : Z := default 0 (tick_to_wake <$> threads k !! t).
Definition lock_prio (k : kernel) (l : Z) : Z := default 0 (max_priority <$> locks k !! l).

Definition compare_priorities (k : kernel) (a b : Z) : bool := prio k b <? prio k a.
Definition compare_priorities_lock (k : kernel) (a b : Z) : bool := lock_prio k a <? lock_prio k b.
Definition compare_priorities_sema (a b : Z * Z) : bool := b.1 <? a.1.
Definition compare_ticks (k : kernel) (a b : Z) : bool := wake_tick k a <? wake_tick k b.

(** ** [lock_waiting]: addresses of the list headers in threads and of
    [waiting_elem] in locks, and [list_entry] back from an element. *)
Definition lock_waiting (t : Z) : klist := KList (4 * t + 1) (4 * t + 2).
Definition waiting_elem (l : Z) : Z := 4 * l + 3.
Definition lock_of_elem (e : Z) : Z := (e - 3) `div` 4.

Definition on_links {A} (m : M (gmap Z node) A) : K A := λ k,
  match m (links k) with
  | Ok (a, h) => Ok (a, set_links h k)
  | Err e => Err e
  end.
