(* ===== verification/Thread.v ===== *)
(** * threads/thread.c: scheduling

    Blocking, unblocking, yielding and the choice of the next thread. *)
From S2P Require Import Prelude ListSpec KList Kernel.
Local Open Scope Z_scope.

Definition running_thread : K Z := gets current.

(** [is_thread] (the magic number) is "the pointer is that of a live thread". *)
Definition thread_current : K Z :=
  t ← running_thread;
  th ← get_thread t;
  ASSERT (bool_decide (status th = THREAD_RUNNING)) ;;
  mret t.

Definition thread_get_priority : K Z :=
  t ← thread_current; th ← get_thread t; mret (priority th).

Definition thread_unblock (t : Z) : K unit :=
  th ← get_thread t;
  old_level ← intr_disable;
  ASSERT (bool_decide (status th = THREAD_BLOCKED)) ;;
  modify (λ k, set_ready_list
    (Spec.insert_ordered (compare_priorities k) t (ready_list k)) k) ;;
  mod_thread t (with_status THREAD_READY) ;;
  intr_set_level old_level ;; mret tt.

Definition next_thread_to_run : K (option Z) :=
  r ← gets ready_list;
  match r with
  | [] => gets idle_thread
  | t :: r' => modify (set_ready_list r') ;; mret (Some t)
  end.

(** [prev] is dead when its status is [THREAD_DYING]; its page is freed. *)
Definition thread_schedule_tail (prev : option Z) : K unit :=
  cur ← running_thread;
  l ← intr_get_level; ASSERT (bool_decide (l = INTR_OFF)) ;;
  mod_thread cur (with_status THREAD_RUNNING) ;;
  modify (set_thread_ticks 0) ;;
  match prev with
  | Some p =>
      th ← get_thread p;
      init ← gets initial_thread;
      if decide (status th = THREAD_DYING ∧ p ≠ init) then
        ASSERT (bool_decide (p ≠ cur)) ;;
        modify (λ k, set_threads (delete p (threads k)) k)
      else mret tt
  | None => mret tt
  end.

(** [switch_threads] makes [next] the running thread; the function returns in
    its context. *)
Definition schedule : K unit :=
  cur ← running_thread;
  next ← next_thread_to_run;
  l ← intr_get_level; ASSERT (bool_decide (l = INTR_OFF)) ;;
  th ← get_thread cur; ASSERT (bool_decide (status th ≠ THREAD_RUNNING)) ;;
  live ← gets (λ k, match next with Some n => bool_decide (is_Some (threads k !! n)) | None => false end);
  ASSERT live ;;
  n ← the next;
  if decide (cur = n) then thread_schedule_tail None
  else modify (set_current n) ;; thread_schedule_tail (Some cur).

Definition thread_block : K unit :=
  ext ← intr_context; ASSERT (negb ext) ;;
  l ← intr_get_level; ASSERT (bool_decide (l = INTR_OFF)) ;;
  cur ← thread_current;
  mod_thread cur (with_status THREAD_BLOCKED) ;;
  schedule.

Definition thread_yield : K unit :=
  cur ← thread_current;
  ext ← intr_context; ASSERT (negb ext) ;;
  old_level ← intr_disable;
  idle ← gets idle_thread;
  (if decide (Some cur = idle) then mret tt
   else modify (λ k, set_ready_list
          (Spec.insert_ordered (compare_priorities k) cur (ready_list k)) k)) ;;
  mod_thread cur (with_status THREAD_READY) ;;
  push (FSetLevel old_level) ;;
  schedule.

Definition check_preemption : K unit :=
  old_level ← intr_disable;
  r ← gets ready_list;
  match r with
  | [] => intr_set_level old_level ;; mret tt
  | t :: _ =>
      th ← get_thread t;
      cur ← thread_current;
      thc ← get_thread cur;
      if priority thc <? priority th then
        ext ← intr_context;
        if negb ext then push (FSetLevel old_level) ;; thread_yield
        else intr_yield_on_return ;; intr_set_level old_level ;; mret tt
      else intr_set_level old_level ;; mret tt
  end.

Definition thread_set_priority (new_priority : Z) : K unit :=
  old_level ← intr_disable;
  cur ← thread_current;
  th ← get_thread cur;
  (if decide (priority th = old_priority th)
   then mod_thread cur (with_priority new_priority) else mret tt) ;;
  mod_thread cur (with_old_priority new_priority) ;;
  push (FSetLevel old_level) ;;
  check_preemption.

(** Called at every timer interrupt. *)
Definition thread_tick : K unit :=
  t ← thread_current;
  th ← get_thread t;
  idle ← gets idle_thread;
  (if decide (Some t = idle) then modify (λ k, set_idle_ticks (idle_ticks k + 1) k)
   else if pagedir th then modify (λ k, set_user_ticks (user_ticks k + 1) k)
   else modify (λ k, set_kernel_ticks (kernel_ticks k + 1) k)) ;;
  modify (λ k, set_thread_ticks (u32 (thread_ticks k + 1)) k) ;;
  n ← gets thread_ticks;
  if TIME_SLICE <=? n then intr_yield_on_return else mret tt.

(** [kernel_thread]: what follows is the body of the thread. *)
Definition kernel_thread : K unit := intr_enable ;; mret tt.
