(* ===== verification/Synch.v ===== *)
(** * threads/synch.c: semaphores, locks with priority donation, monitors *)
From S2P Require Import Prelude ListSpec KList Kernel Thread.
Local Open Scope Z_scope.

(** ** Semaphores *)

Definition sema_init (s : sema_id) (v : Z) : K unit := put_sema s (Semaphore v []).

(** The [while] loop of [sema_down] and what follows it. *)
Definition sema_down_loop (s : sema_id) (old_level : intr_level) : K unit :=
  sm ← get_sema s;
  if value sm =? 0 then
    cur ← thread_current;
    cmp ← gets compare_priorities;
    put_sema s (Semaphore (value sm) (Spec.insert_ordered cmp cur (waiters sm))) ;;
    push (FSemaDown s old_level) ;;
    thread_block
  else
    put_sema s (Semaphore (value sm - 1) (waiters sm)) ;;
    intr_set_level old_level ;; mret tt.

Definition sema_down (s : sema_id) : K unit :=
  ext ← intr_context; ASSERT (negb ext) ;;
  old_level ← intr_disable;
  sema_down_loop s old_level.

Definition sema_try_down (s : sema_id) : K bool :=
  old_level ← intr_disable;
  sm ← get_sema s;
  success ← (if 0 <? value sm
             then put_sema s (Semaphore (value sm - 1) (waiters sm)) ;; mret true
             else mret false);
  intr_set_level old_level ;; mret success.

(** The part of [sema_up] before the preemption check.  [list_sort] on the
    waiters is the stable sort. *)
Definition sema_wake (s : sema_id) : K unit :=
  sm ← get_sema s;
  cmp ← gets compare_priorities;
  match sort_list cmp (waiters sm) with
  | [] => mret tt
  | t :: r => put_sema s (Semaphore (value sm) r) ;; thread_unblock t
  end ;;
  sm ← get_sema s;
  put_sema s (Semaphore (u32 (value sm + 1)) (waiters sm)).

(** In an interrupt handler [check_preemption] does not switch, so the
    handler goes on in the same step. *)
Definition sema_up (s : sema_id) : K unit :=
  old_level ← intr_disable;
  sema_wake s ;;
  ext ← intr_context;
  if (ext : bool) then check_preemption ;; intr_set_level old_level ;; mret tt
  else push (FSetLevel old_level) ;; check_preemption.

(** ** Locks *)

(** The memory of the lock, with its (uninitialised) [waiting_elem], is part of
    the state from here on. *)
Definition lock_init (l : Z) : K unit :=
  modify (λ k, set_links (<[waiting_elem l := Node NULL NULL]> (links k)) k) ;;
  put_lock l (Lock None 0) ;; sema_init (SemLock l) 1.

Definition lock_held_by_current_thread (l : Z) : K bool :=
  lk ← get_lock l; cur ← thread_current; mret (bool_decide (holder lk = Some cur)).

(** The donation loop of [lock_acquire]: the lock and its holder. *)
Definition donate (l : Z) (t : option Z) : K unit := λ k,
  loop (S (size (threads k))) (λ '(l, t),
    match t with
    | None => mret (inr tt)
    | Some t =>
        cur ← thread_current; thc ← get_thread cur; th ← get_thread t;
        if priority th <? priority thc then
          mod_thread t (with_priority (priority thc)) ;;
          th ← get_thread t; lk ← get_lock l;
          (if max_priority lk <? priority th
           then put_lock l (Lock (holder lk) (priority th)) else mret tt) ;;
          empty ← on_links (list_empty (lock_waiting t));
          if (empty : bool) then mret (inr tt)
          else
            e ← on_links (list_begin (lock_waiting t));
            let l' := lock_of_elem e in
            lk' ← get_lock l';
            mret (inl (l', holder lk'))
        else mret (inr tt)
    end) (l, t) k.

(** The [if (lock->holder != NULL)] of [lock_acquire]. *)
Definition donate_to_holder (l : Z) : K unit :=
  lk ← get_lock l;
  match holder lk with
  | Some h =>
      cur ← thread_current;
      on_links (list_push_back (lock_waiting cur) (waiting_elem l)) ;;
      donate l (Some h)
  | None => mret tt
  end.

Definition lock_acquire (l : Z) : K unit :=
  ext ← intr_context; ASSERT (negb ext) ;;
  held ← lock_held_by_current_thread l; ASSERT (negb held) ;;
  old_level ← intr_disable;
  donate_to_holder l ;;
  push (FLockGot l old_level) ;;
  sema_down (SemLock l).

(** [lock_acquire] once the semaphore is down. *)
Definition lock_acquired (l : Z) (old_level : intr_level) : K unit :=
  cur ← thread_current;
  cmp ← gets compare_priorities_lock;
  mod_thread cur (λ th, with_lock_holding (Spec.insert_ordered cmp l (lock_holding th)) th) ;;
  lk ← get_lock l;
  put_lock l (Lock (Some cur) (max_priority lk)) ;;
  intr_set_level old_level ;; mret tt.

Definition lock_try_acquire (l : Z) : K bool :=
  held ← lock_held_by_current_thread l; ASSERT (negb held) ;;
  success ← sema_try_down (SemLock l);
  (if (success : bool) then
     cur ← thread_current; lk ← get_lock l; put_lock l (Lock (Some cur) (max_priority lk))
   else mret tt) ;;
  mret success.

(** [list_remove (&lock->holding_elem)]: the element must be in a list. *)
Definition remove_holding (t l : Z) : K unit :=
  th ← get_thread t;
  if decide (l ∈ lock_holding th)
  then mod_thread t (with_lock_holding (filter (λ x, x ≠ l) (lock_holding th)))
  else throw EFault.

(** The priority left after a lock is gone. *)
Definition priority_after_release (k : kernel) (th : thread) : Z :=
  match lock_holding th with
  | [] => old_priority th
  | x :: xs =>
      let m := lock_prio k (Spec.max (compare_priorities_lock k) x xs) in
      if old_priority th <? m then m else old_priority th
  end.

(** [lock_release] up to its [sema_up]. *)
Definition lock_drop (l : Z) : K unit :=
  sm ← get_sema (SemLock l);
  lk ← get_lock l;
  match waiters sm with
  | _ :: second :: _ =>
      t ← get_thread second; put_lock l (Lock (holder lk) (priority t))
  | _ => put_lock l (Lock (holder lk) 0)
  end ;;
  cur ← thread_current;
  remove_holding cur l ;;
  th ← get_thread cur;
  p ← gets (λ k, priority_after_release k th);
  mod_thread cur (with_priority p) ;;
  lk ← get_lock l;
  put_lock l (Lock None (max_priority lk)).

Definition lock_release (l : Z) : K unit :=
  held ← lock_held_by_current_thread l; ASSERT held ;;
  old_level ← intr_disable;
  lock_drop l ;;
  push (FSetLevel old_level) ;;
  sema_up (SemLock l).

(** ** Monitors *)

Definition cond_init (c : Z) : K unit := put_cond c [].

Definition cond_wait (c l : Z) : K unit :=
  ext ← intr_context; ASSERT (negb ext) ;;
  held ← lock_held_by_current_thread l; ASSERT held ;;
  cur ← thread_current;
  sema_init (SemWaiter cur) 0 ;;
  p ← thread_get_priority;
  ws ← get_cond c;
  put_cond c (Spec.insert_ordered compare_priorities_sema (p, cur) ws) ;;
  push (FCondDown l) ;;
  lock_release l.

(** [cond_wait] after [lock_release]: [sema_down (&waiter.semaphore)]. *)
Definition cond_wait_down (l : Z) : K unit :=
  cur ← thread_current; push (FCondLock l) ;; sema_down (SemWaiter cur).

Definition cond_signal (c l : Z) : K unit :=
  ext ← intr_context; ASSERT (negb ext) ;;
  held ← lock_held_by_current_thread l; ASSERT held ;;
  ws ← get_cond c;
  match ws with
  | [] => mret tt
  | (_, t) :: ws' => put_cond c ws' ;; sema_up (SemWaiter t)
  end.

Definition cond_broadcast (c l : Z) : K unit :=
  ws ← get_cond c;
  match ws with
  | [] => mret tt
  | _ => push (FBroadcast c l) ;; cond_signal c l
  end.
