(* ===== verification/Timer.v ===== *)
(** * devices/timer.c and the timer's path through threads/interrupt.c *)
From S2P Require Import Prelude ListSpec KList Kernel Thread Synch.
Local Open Scope Z_scope.

Definition timer_ticks : K Z :=
  old_level ← intr_disable;
  t ← gets ticks;
  intr_set_level old_level ;; mret t.

Definition timer_elapsed (then_ : Z) : K Z := t ← timer_ticks; mret (s64 (t - then_)).

Definition timer_sleep (n : Z) : K unit :=
  if n <=? 0 then mret tt
  else
    l ← intr_get_level; ASSERT (bool_decide (l = INTR_ON)) ;;
    old_level ← intr_disable;
    t ← thread_current;
    now ← timer_ticks;
    mod_thread t (with_tick_to_wake (s64 (now + n))) ;;
    modify (λ k, set_sleep_list (Spec.insert_ordered (compare_ticks k) t (sleep_list k)) k) ;;
    push (FSetLevel old_level) ;;
    sema_down (SemSleep t).

(** The [while] loop of [timer_interrupt]. *)
Definition wake_sleepers : K unit := λ k,
  loop (S (length (sleep_list k))) (λ _ : unit,
    ss ← gets sleep_list;
    match ss with
    | [] => mret (inr tt)
    | t :: ss' =>
        th ← get_thread t;
        now ← timer_ticks;
        if now <? tick_to_wake th then mret (inr tt)
        else modify (set_sleep_list ss') ;; sema_up (SemSleep t) ;; mret (inl tt)
    end) tt k.

Definition timer_interrupt : K unit :=
  modify (λ k, set_ticks (s64 (ticks k + 1)) k) ;;
  thread_tick ;;
  old_level ← intr_disable;
  wake_sleepers ;;
  intr_set_level old_level ;; mret tt.

(** [intr_handler] for the timer's vector, between the processor's clearing
    the interrupt flag and the [iret] that restores it. *)
Definition intr_handler_timer : K unit :=
  modify (set_level INTR_OFF) ;;
  l ← intr_get_level; ASSERT (bool_decide (l = INTR_OFF)) ;;
  ext ← intr_context; ASSERT (negb ext) ;;
  modify (set_in_external_intr true) ;;
  modify (set_yield_on_return false) ;;
  timer_interrupt ;;
  l ← intr_get_level; ASSERT (bool_decide (l = INTR_OFF)) ;;
  ext ← intr_context; ASSERT ext ;;
  modify (set_in_external_intr false) ;;
  y ← gets yield_on_return;
  if (y : bool) then push FIret ;; thread_yield
  else modify (set_level INTR_ON).
