(* ===== verification/KernelStep.v ===== *)
(** * The kernel as a state machine

    What can happen next: the running thread calls an operation of the kernel
    (when it is not inside one), it continues inside one ([run_frame]), or the
    timer interrupts it.  [step] leaves open which operation a thread calls,
    within the rules of the interface ([allowed]). *)
From S2P Require Import Prelude ListSpec KList KListFacts Kernel Thread Synch Timer.
Local Open Scope Z_scope.

(** ** The idle thread *)

(** [idle] up to its loop. *)
Definition idle_start (s : Z) : K unit :=
  cur ← thread_current;
  modify (set_idle_thread (Some cur)) ;;
  push FIdleBlock ;;
  sema_up (SemObj s).
Definition idle_block : K unit :=
  intr_disable ;; push FIdleSti ;; thread_block.
(** "sti; hlt": interrupts are on and the processor waits for one. *)
Definition idle_sti : K unit := modify (set_level INTR_ON) ;; push FIdleHlt.

(** ** Steps *)

Definition run (f : frame) : K unit :=
  match f with
  | FSetLevel old_level => intr_set_level old_level ;; mret tt
  | FSemaDown s old_level => sema_down_loop s old_level
  | FLockGot l old_level => lock_acquired l old_level
  | FCondDown l => cond_wait_down l
  | FCondLock l => lock_acquire l
  | FBroadcast c l => cond_broadcast c l
  | FKernelThread => kernel_thread
  | FIdleStart s => idle_start s
  | FIdleBlock => idle_block
  | FIdleSti => idle_sti
  | FIdleHlt => throw EFault
  | FIret => modify (set_level INTR_ON)
  end.

(** The running thread returns into its top frame. *)
Definition run_frame : K unit :=
  t ← gets current;
  th ← get_thread t;
  match stack th with
  | [] => throw EFault
  | f :: r => mod_thread t (with_stack r) ;; run f
  end.

(** A timer interrupt; one that arrives during [hlt] ends it. *)
Definition timer_irq : K unit :=
  t ← gets current;
  th ← get_thread t;
  match stack th with
  | FIdleHlt :: r => mod_thread t (with_stack (FIdleBlock :: r))
  | _ => mret tt
  end ;;
  intr_handler_timer.

(** The operations a thread may call. *)
Inductive op :=
| OpSemaInit (n v : Z) | OpSemaDown (n : Z) | OpSemaUp (n : Z) | OpSemaTryDown (n : Z)
| OpLockInit (l : Z) | OpLockAcquire (l : Z) | OpLockRelease (l : Z)
| OpCondInit (c : Z) | OpCondWait (c l : Z) | OpCondSignal (c l : Z) | OpCondBroadcast (c l : Z)
| OpYield | OpSetPriority (p : Z) | OpSleep (n : Z).

Definition exec (o : op) : K unit :=
  match o with
  | OpSemaInit n v => sema_init (SemObj n) v
  | OpSemaDown n => sema_down (SemObj n)
  | OpSemaUp n => sema_up (SemObj n)
  | OpSemaTryDown n => sema_try_down (SemObj n) ;; mret tt
  | OpLockInit l => lock_init l
  | OpLockAcquire l => lock_acquire l
  | OpLockRelease l => lock_release l
  | OpCondInit c => cond_init c
  | OpCondWait c l => cond_wait c l
  | OpCondSignal c l => cond_signal c l
  | OpCondBroadcast c l => cond_broadcast c l
  | OpYield => thread_yield
  | OpSetPriority p => thread_set_priority p
  | OpSleep n => timer_sleep n
  end.

(** The rules of the interface: objects are initialised once, before they are
    used; a lock is not acquired again by its holder, and released only by its
    holder; a condition variable is used with its lock held. *)
Definition holds (k : kernel) (l : Z) : Prop :=
  locks k !! l ≫= holder = Some (current k).

Definition allowed (k : kernel) (o : op) : Prop :=
  match o with
  | OpSemaInit n v => semas k !! SemObj n = None ∧ 0 ≤ v < 2 ^ 32
  | OpSemaDown n | OpSemaUp n | OpSemaTryDown n => is_Some (semas k !! SemObj n)
  | OpLockInit l => locks k !! l = None
  | OpLockAcquire l => is_Some (locks k !! l) ∧ ¬ holds k l
  | OpLockRelease l => holds k l
  | OpCondInit c => conds k !! c = None
  | OpCondWait c l | OpCondSignal c l | OpCondBroadcast c l => is_Some (conds k !! c) ∧ holds k l
  | OpYield | OpSetPriority _ => True
  | OpSleep n => ticks k + n < 2 ^ 63
  end.

Definition stack_of (k : kernel) (t : Z) : list frame := default [] (stack <$> threads k !! t).

(** One step and its outcome.  The tick counter does not reach the end of its
    64-bit range (at 100 ticks a second, in some 3 billion years). *)
Inductive step (k : kernel) : res (unit * kernel) → Prop :=
| step_op o :
    is_Some (threads k !! current k) → stack_of k (current k) = [] → allowed k o →
    step k (exec o k)
| step_run f r :
    stack_of k (current k) = f :: r → f ≠ FIdleHlt → step k (run_frame k)
| step_timer :
    level k = INTR_ON → 0 ≤ ticks k < 2 ^ 63 - 1 → step k (timer_irq k).

Inductive reachable (k0 : kernel) : kernel → Prop :=
| reach_refl : reachable k0 k0
| reach_step k k' : reachable k0 k → step k (Ok (tt, k')) → reachable k0 k'.

(** ** Runs

    The same as a function: one event at a time, refused when its step is not
    possible in the state. *)
Inductive event := EvOp (o : op) | EvRun | EvTimer.

#[global] Instance allowed_dec k o : Decision (allowed k o).
Proof. destruct o; simpl; unfold holds; apply _. Defined.

Definition play1 (k : kernel) (e : event) : res (unit * kernel) :=
  match e with
  | EvOp o =>
      if decide (is_Some (threads k !! current k) ∧ allowed k o) then
        match stack_of k (current k) with [] => exec o k | _ => Err EPanic end
      else Err EPanic
  | EvRun =>
      match stack_of k (current k) with
      | [] | FIdleHlt :: _ => Err EPanic
      | _ => run_frame k
      end
  | EvTimer =>
      if decide (level k = INTR_ON ∧ 0 ≤ ticks k < 2 ^ 63 - 1) then timer_irq k else Err EPanic
  end.

Fixpoint play (k : kernel) (es : list event) : res kernel :=
  match es with
  | [] => Ok k
  | e :: es' => match play1 k e with Ok (_, k') => play k' es' | Err x => Err x end
  end.

Lemma play1_step k e k' : play1 k e = Ok (tt, k') → step k (Ok (tt, k')).
Proof.
  unfold play1. destruct e as [o| |].
  - case_decide as Hd; [|done]. destruct (stack_of k (current k)) eqn:Hs; [|done].
    intros <-. destruct Hd. by apply step_op.
  - destruct (stack_of k (current k)) as [|f r] eqn:Hs; [done|].
    intros H. assert (f ≠ FIdleHlt ∧ run_frame k = Ok (tt, k')) as [Hf <-] by (by destruct f).
    by eapply step_run.
  - case_decide as Hd; [|done]. intros <-. destruct Hd. by apply step_timer.
Qed.

Lemma play_reachable k0 es : ∀ k k', reachable k0 k → play k es = Ok k' → reachable k0 k'.
Proof.
  induction es as [|e es IH]; simpl; intros k k' Hr Hp; [by simplify_eq|].
  destruct (play1 k e) as [[[] k1]|] eqn:H1; [|done].
  eapply IH; [|done]. eapply reach_step; [done|]. by apply play1_step with e.
Qed.

(** ** The invariant of the kernel state machine

    What every state between two steps satisfies: each thread is in exactly the
    queue its status says, every semaphore's waiters are blocked on it, the
    saved frames fit together and with the interrupt level, each lock's
    semaphore agrees with its holder, sleepers are really asleep, and a waiter
    is never left behind while its semaphore is up. *)

(** ** Saved frames *)

(** Neither inside [sema_down] nor just past one in [lock_acquire]. *)
Definition plain (stk : list frame) : Prop :=
  match stk with FLockGot _ _ :: _ | FSemaDown _ _ :: _ => False | _ => True end.
Definition not_got (stk : list frame) : Prop :=
  match stk with FLockGot _ _ :: _ => False | _ => True end.

(** The frames fit together: [shape lvl stk] when returning into [stk] with the
    interrupt level [lvl] is fine.  [sema_down] is only ever the innermost
    function, [lock_acquire] waits for the semaphore of its own lock, and the
    operations on locks and monitors are only called from outside the kernel's
    own functions (an empty stack).  The idle thread never leaves its loop. *)
Fixpoint shape (idle : bool) (lvl : intr_level) (stk : list frame) : Prop :=
  match stk with
  | [] => lvl = INTR_ON ∧ idle = false
  | FSetLevel old :: r => plain r ∧ shape idle old r
  | FSemaDown s old :: r =>
      lvl = INTR_OFF ∧ shape idle old r ∧
      match s with
      | SemLock l => match r with FLockGot l' _ :: _ => l' = l | _ => False end
      | _ => plain r
      end
  | FLockGot _ old :: r => lvl = INTR_OFF ∧ old = INTR_ON ∧ r = [] ∧ idle = false
  | FCondDown _ :: r | FCondLock _ :: r | FBroadcast _ _ :: r =>
      lvl = INTR_ON ∧ r = [] ∧ idle = false
  | FKernelThread :: r | FIret :: r => shape idle INTR_ON r
  | FIdleStart _ :: _ => False
  | FIdleBlock :: r => r = [] ∧ idle = true
  | FIdleSti :: r => lvl = INTR_OFF ∧ r = [] ∧ idle = true
  | FIdleHlt :: r => lvl = INTR_ON ∧ r = [] ∧ idle = true
  end.

Definition holder_of (L : gmap Z lock) (l : Z) : option Z := L !! l ≫= holder.

Definition tick_in (T : gmap Z thread) (t : Z) : Z := default 0 (tick_to_wake <$> T !! t).

(** ** The invariant on the shared state

    [r]: the running thread, if one is marked running; [x]: a lock whose
    semaphore is down and which has no holder (it is being handed over by the
    running thread); [w]: the semaphore the running thread was woken from. *)
Section core.
Context (r x : option Z) (w : option sema_id).
Context (T : gmap Z thread) (S : gmap sema_id semaphore) (L : gmap Z lock)
  (C : gmap Z (list (Z * Z))) (N : gmap Z node) (R Q : list Z) (I : option Z) (now : Z).

Definition frame_ok (t : Z) (f : frame) : Prop :=
  match f with
  | FSemaDown s _ =>
      is_Some (S !! s) ∧ I ≠ Some t ∧
      match s with SemSleep t' | SemWaiter t' => t' = t | _ => True end
  | FLockGot l _ => is_Some (L !! l) ∧ holder_of L l ≠ Some t
  | FCondDown l | FCondLock l =>
      is_Some (L !! l) ∧ holder_of L l ≠ Some t ∧ is_Some (S !! SemWaiter t)
  | FBroadcast c l => is_Some (C !! c) ∧ holder_of L l = Some t
  | _ => True
  end.

(** Thread [t] is about to test semaphore [s] (again). *)
Definition at_sema (t : Z) (s : sema_id) : Prop :=
  ∃ th old rest, T !! t = Some th ∧ stack th = FSemaDown s old :: rest.

Definition has_status (t : Z) (st : thread_status) : Prop :=
  ∃ th, T !! t = Some th ∧ status th = st.

(** The two cells of the [lock_waiting] header of [t]. *)
Definition waiting_header (t : Z) : Prop :=
  ∃ n tp, nx N (l_head (lock_waiting t)) = Some n ∧
    pv N (l_tail (lock_waiting t)) = Some tp ∧ nx N (l_tail (lock_waiting t)) = Some NULL ∧
    ((n = l_tail (lock_waiting t) ∧ tp = l_head (lock_waiting t)) ∨
     (∃ l l', n = waiting_elem l ∧ is_Some (L !! l) ∧
              tp = waiting_elem l' ∧ is_Some (L !! l'))).

Record core : Prop := {
  c_ready_nodup : NoDup R;
  c_ready t : t ∈ R → has_status t THREAD_READY;
  c_status t th : T !! t = Some th →
    match status th with
    | THREAD_RUNNING => r = Some t
    | THREAD_READY => t ∈ R ∨ I = Some t
    | THREAD_BLOCKED => I = Some t ∨ ∃ s sm, S !! s = Some sm ∧ t ∈ waiters sm
    | THREAD_DYING => False
    end;
  c_idle : ∃ i, I = Some i ∧ is_Some (T !! i);
  c_sema s sm : S !! s = Some sm → NoDup (waiters sm) ∧ 0 ≤ value sm;
  c_wait s sm t : S !! s = Some sm → t ∈ waiters sm → has_status t THREAD_BLOCKED ∧ at_sema t s;
  c_frames t th : T !! t = Some th → Forall (frame_ok t) (stack th);
  c_others t th : T !! t = Some th → r ≠ Some t →
    shape (bool_decide (I = Some t)) INTR_OFF (stack th) ∧ not_got (stack th);
  c_hold_nodup t th : T !! t = Some th → NoDup (lock_holding th);
  c_hold t l : holder_of L l = Some t ↔ ∃ th, T !! t = Some th ∧ l ∈ lock_holding th;
  c_lock l lk : L !! l = Some lk →
    ∃ sm, S !! SemLock l = Some sm ∧
      match holder lk with
      | Some _ => value sm = 0 ∧ x ≠ Some l
      | None => value sm = if decide (x = Some l) then 0 else 1
      end;
  c_cond c ws p t : C !! c = Some ws → (p, t) ∈ ws → is_Some (S !! SemWaiter t);
  c_sleep_nodup : NoDup Q;
  c_sleep_sorted : Sorted (not_after (by_key (tick_in T))) Q;
  c_sleep t : t ∈ Q → ∃ sm, S !! SemSleep t = Some sm ∧ value sm = 0 ∧ t ∈ waiters sm;
  c_sleep_sema t : is_Some (T !! t) → is_Some (S !! SemSleep t);
  c_slept t sm : S !! SemSleep t = Some sm → value sm ≠ 0 →
    value sm = 1 ∧ (∃ th, T !! t = Some th ∧ tick_to_wake th ≤ now) ∧
    (w = Some (SemSleep t) ∨ ∃ th old, T !! t = Some th ∧ FSemaDown (SemSleep t) old ∈ stack th);
  c_header t : is_Some (T !! t) → waiting_header t;
  c_elem l : is_Some (L !! l) → is_Some (N !! waiting_elem l);
  c_wake s sm : S !! s = Some sm → waiters sm ≠ [] →
    ∃ W : list Z, NoDup W ∧ (∀ t, t ∈ W → t ∉ waiters sm ∧ at_sema t s) ∧
      value sm ≤ Z.of_nat (length W) + (if decide (w = Some s) then 1 else 0);
}.
End core.

Definition kcore (r x : option Z) (w : option sema_id) (k : kernel) : Prop :=
  core r x w (threads k) (semas k) (locks k) (conds k) (links k) (ready_list k) (sleep_list k)
    (idle_thread k) (ticks k).

(** The lock the running thread has just obtained the semaphore of. *)
Definition in_transit (stk : list frame) : option Z :=
  match stk with FLockGot l _ :: _ => Some l | _ => None end.

Definition is_idle (k : kernel) : bool := bool_decide (idle_thread k = Some (current k)).

(** The state between two steps; also the state inside a function of the
    running thread whose caller's frames are all saved. *)
Record inv (k : kernel) : Prop := {
  inv_core : kcore (Some (current k)) (in_transit (stack_of k (current k))) None k;
  inv_running : has_status (threads k) (current k) THREAD_RUNNING;
  inv_shape : shape (is_idle k) (level k) (stack_of k (current k));
  inv_ext : in_external_intr k = false;
}.
