(* ===== verification/KernelCore.v ===== *)
(** * How the operations change the shared state

    One lemma for each kind of change: what it does to [core]. *)
From S2P Require Import Prelude ListSpec KList KListFacts Kernel Thread Synch Timer KernelStep.
Local Open Scope Z_scope.

Lemma shape_on_plain d stk : shape d INTR_ON stk → plain stk.
Proof. destruct stk as [|[] stk]; simpl; naive_solver. Qed.
Lemma plain_not_got stk : plain stk → not_got stk.
Proof. by destruct stk as [|[] stk]. Qed.
Lemma plain_transit stk : not_got stk → in_transit stk = None.
Proof. by destruct stk as [|[] stk]. Qed.
#[export] Hint Resolve shape_on_plain plain_not_got plain_transit : pintos.

(** ** Changes the invariant does not see: priorities *)

Definition thread_sim (th th' : thread) : Prop :=
  status th = status th' ∧ tick_to_wake th = tick_to_wake th' ∧
  lock_holding th = lock_holding th' ∧ stack th = stack th'.
Definition threads_sim (T T' : gmap Z thread) : Prop :=
  ∀ t, option_Forall2 thread_sim (T !! t) (T' !! t).
Definition locks_sim (L L' : gmap Z lock) : Prop :=
  ∀ l, holder <$> L !! l = holder <$> L' !! l.

#[global] Instance thread_sim_refl : Reflexive thread_sim.
Proof. by intros th. Qed.
#[global] Instance thread_sim_sym : Symmetric thread_sim.
Proof. intros a b (? & ? & ? & ?). split_and!; congruence. Qed.
#[global] Instance thread_sim_trans : Transitive thread_sim.
Proof. intros a b c (? & ? & ? & ?) (? & ? & ? & ?). split_and!; congruence. Qed.
#[global] Instance threads_sim_equiv : Equivalence threads_sim.
Proof.
  split.
  - intros T t. reflexivity.
  - intros T T' H t. specialize (H t). by symmetry.
  - intros T T' T'' H H' t. specialize (H t). specialize (H' t). by etrans.
Qed.
#[global] Instance locks_sim_equiv : Equivalence locks_sim.
Proof.
  split; [done| |].
  - intros L L' H l. by rewrite (H l).
  - intros L L' L'' H H' l. by rewrite (H l).
Qed.

Lemma threads_sim_insert (T : gmap Z thread) t th th' :
  T !! t = Some th → thread_sim th th' → threads_sim T (<[t := th']> T).
Proof.
  intros Ht Hs u. rewrite lookup_insert. case_decide as E; [subst; rewrite Ht; by constructor|].
  reflexivity.
Qed.
Lemma locks_sim_insert (L : gmap Z lock) l lk p :
  L !! l = Some lk → locks_sim L (<[l := Lock (holder lk) p]> L).
Proof.
  intros Hl m. rewrite lookup_insert. case_decide; [subst; by rewrite Hl|done].
Qed.

Lemma threads_sim_lookup T T' t th' :
  threads_sim T T' → T' !! t = Some th' → ∃ th, T !! t = Some th ∧ thread_sim th th'.
Proof. intros H Ht. specialize (H t). rewrite Ht in H. inversion H; eauto. Qed.
Lemma threads_sim_is_Some T T' t : threads_sim T T' → is_Some (T' !! t) → is_Some (T !! t).
Proof. intros H [th Ht]. destruct (threads_sim_lookup _ _ _ _ H Ht) as (? & ? & _). eauto. Qed.

Lemma has_status_sim T T' t st : threads_sim T T' → has_status T t st → has_status T' t st.
Proof.
  intros H%symmetry (th & Ht & Hst). destruct (threads_sim_lookup _ _ _ _ H Ht) as (th' & ? & Hs & _).
  exists th'. split; congruence.
Qed.
Lemma at_sema_sim T T' t s : threads_sim T T' → at_sema T t s → at_sema T' t s.
Proof.
  intros H%symmetry (th & old & rest & Ht & Hst).
  destruct (threads_sim_lookup _ _ _ _ H Ht) as (th' & ? & _ & _ & _ & Hs).
  exists th', old, rest. split; congruence.
Qed.
Lemma holder_of_sim L L' l : locks_sim L L' → holder_of L' l = holder_of L l.
Proof.
  intros H. specialize (H l). unfold holder_of.
  destruct (L !! l), (L' !! l); simpl in *; congruence.
Qed.
Lemma locks_sim_is_Some L L' l : locks_sim L L' → is_Some (L !! l) ↔ is_Some (L' !! l).
Proof. intros H. specialize (H l). rewrite <-!(fmap_is_Some holder). by rewrite H. Qed.

Lemma tick_in_sim T T' t : threads_sim T T' → tick_in T' t = tick_in T t.
Proof.
  intros H. specialize (H t). unfold tick_in.
  inversion H as [? ? (_ & ? & _)|]; simpl; congruence.
Qed.

Lemma Sorted_ext {A} (P P' : A → A → Prop) (xs : list A) :
  (∀ a b, a ∈ xs → b ∈ xs → P a b → P' a b) → Sorted P xs → Sorted P' xs.
Proof.
  intros HP. induction 1 as [|y ys Hs IH Hd]; constructor.
  - apply IH. intros a b Ha Hb. apply HP; by apply list_elem_of_further.
  - destruct Hd; constructor. apply HP; set_solver.
Qed.

Lemma sleep_sorted_ext T T' Q :
  (∀ t, t ∈ Q → tick_in T' t = tick_in T t) →
  Sorted (not_after (by_key (tick_in T))) Q → Sorted (not_after (by_key (tick_in T'))) Q.
Proof.
  intros H. apply Sorted_ext. intros a b Ha Hb. unfold not_after, by_key. by rewrite !H.
Qed.

(** [core] does not depend on priorities. *)
Lemma core_sim r x w T T' S L L' C N R Q I now :
  threads_sim T T' → locks_sim L L' →
  core r x w T S L C N R Q I now → core r x w T' S L' C N R Q I now.
Proof.
  intros HT HL Hc. assert (threads_sim T' T) as HT' by done.
  assert (∀ t f, frame_ok S L C I t f → frame_ok S L' C I t f) as Hf.
  { intros t f. unfold frame_ok. destruct f; try done;
      rewrite ?(holder_of_sim L L'), <-?(locks_sim_is_Some L L') by done; done. }
  destruct Hc. split; auto.
  - intros t Ht. eauto using has_status_sim.
  - intros t th' Ht. destruct (threads_sim_lookup _ _ _ _ HT Ht) as (th & Hth & Hs & _).
    rewrite <-Hs. exact (c_status t th Hth).
  - destruct c_idle as (i & ? & ?). exists i. split; [done|]. by eapply threads_sim_is_Some.
  - intros s sm t HS Ht. destruct (c_wait s sm t HS Ht). eauto using has_status_sim, at_sema_sim.
  - intros t th' Ht. destruct (threads_sim_lookup _ _ _ _ HT Ht) as (th & Hth & _ & _ & _ & Hs).
    rewrite <-Hs. eapply Forall_impl; [by eapply c_frames|]. auto.
  - intros t th' Ht Hr. destruct (threads_sim_lookup _ _ _ _ HT Ht) as (th & Hth & _ & _ & _ & Hs).
    rewrite <-Hs. eauto.
  - intros t th' Ht. destruct (threads_sim_lookup _ _ _ _ HT Ht) as (th & Hth & _ & _ & Hs & _).
    rewrite <-Hs. eauto.
  - intros t l. rewrite (holder_of_sim L L'), c_hold by done.
    split; intros (th & Ht & Hl).
    + destruct (threads_sim_lookup _ _ _ _ HT' Ht) as (th' & ? & _ & _ & Hs & _).
      exists th'. split; [done|]. by rewrite Hs.
    + destruct (threads_sim_lookup _ _ _ _ HT Ht) as (th' & ? & _ & _ & Hs & _).
      exists th'. split; [done|]. by rewrite Hs.
  - intros l lk' Hl. specialize (HL l). rewrite Hl in HL. simpl in HL.
    destruct (L !! l) as [lk|] eqn:E; [|done]. injection HL as Hh.
    destruct (c_lock l lk E) as (sm & ? & ?). exists sm. split; [done|]. by rewrite <-Hh.
  - eapply sleep_sorted_ext; [|done]. intros. by apply tick_in_sim.
  - intros t Ht. apply c_sleep_sema. by eapply threads_sim_is_Some.
  - intros t sm HS Hv. destruct (c_slept t sm HS Hv) as (? & (th & Ht & ?) & Hw).
    destruct (threads_sim_lookup _ _ _ _ HT' Ht) as (th' & Ht' & Hsim).
    destruct Hsim as (_ & Htick & _ & Hstk).
    split_and!; [done|exists th'; split; [done|congruence]|].
    destruct Hw as [?|(th2 & old & Ht2 & Hin)]; [by left|right]. simplify_eq.
    exists th', old. split; [done|congruence].
  - intros t Ht. destruct (c_header t) as (n & tp & ? & ? & ? & Hh); [by eapply threads_sim_is_Some|].
    exists n, tp. split_and!; [done..|]. destruct Hh as [?|(l & l' & ? & ? & ? & ?)]; [by left|].
    right. exists l, l'. rewrite <-!(locks_sim_is_Some L L') by done. done.
  - intros l Hl. apply c_elem. by rewrite (locks_sim_is_Some L L').
  - intros s sm HS Hw. destruct (c_wake s sm HS Hw) as (W & ? & HW & ?).
    exists W. split_and!; [done| |done]. intros t Ht. destruct (HW t Ht).
    eauto using at_sema_sim.
Qed.

(** ** Saved frames of the running thread *)

Lemma is_Some_insert_same {A} (m : gmap Z A) i x y j :
  m !! i = Some x → is_Some (<[i := y]> m !! j) ↔ is_Some (m !! j).
Proof.
  intros H. rewrite lookup_insert. case_decide; [subst; rewrite H; split; eauto|done].
Qed.

Lemma has_status_other (T : gmap Z thread) t th' u st :
  u ≠ t → has_status (<[t := th']> T) u st ↔ has_status T u st.
Proof. intros. unfold has_status. by rewrite lookup_insert_ne. Qed.
Lemma at_sema_other (T : gmap Z thread) t th' u s :
  u ≠ t → at_sema (<[t := th']> T) u s ↔ at_sema T u s.
Proof. intros. unfold at_sema. by rewrite lookup_insert_ne. Qed.

(** Lookups in a map of threads in which one was replaced. *)
Ltac look H :=
  let E := fresh "E" in
  apply lookup_insert_Some in H as [[E H]|[E H]]; [symmetry in E|]; subst.

Lemma tick_in_insert T t th th' u :
  T !! t = Some th → tick_to_wake th' = tick_to_wake th → tick_in (<[t := th']> T) u = tick_in T u.
Proof.
  intros Ht Htick. unfold tick_in. rewrite lookup_insert. case_decide; [|done].
  subst. rewrite Ht. simpl. done.
Qed.

(** A thread that is not blocked waits nowhere. *)
Lemma not_waiting r x w T S L C N R Q I now t th s sm :
  core r x w T S L C N R Q I now → T !! t = Some th → status th ≠ THREAD_BLOCKED →
  S !! s = Some sm → t ∉ waiters sm.
Proof.
  intros Hc Ht Hst Hs Hin. destruct (c_wait _ _ _ _ _ _ _ _ _ _ _ _ Hc s sm t Hs Hin)
    as [(th' & ? & ?) _]. congruence.
Qed.
Lemma not_ready r x w T S L C N R Q I now t th :
  core r x w T S L C N R Q I now → T !! t = Some th → status th ≠ THREAD_READY → t ∉ R.
Proof.
  intros Hc Ht Hst Hin. destruct (c_ready _ _ _ _ _ _ _ _ _ _ _ _ Hc t Hin) as (th' & ? & ?).
  congruence.
Qed.

Lemma core_restack t x w w' T S L C N R Q I now th stk :
  core (Some t) x w T S L C N R Q I now →
  T !! t = Some th → status th = THREAD_RUNNING →
  Forall (frame_ok S L C I t) stk →
  (∀ s, w = Some s → w' = Some s) →
  (∀ s, at_sema T t s → w = None ∧ w' = Some s) →
  (∀ sm, S !! SemSleep t = Some sm → value sm ≠ 0 →
     w' = Some (SemSleep t) ∨ ∃ old, FSemaDown (SemSleep t) old ∈ stk) →
  core (Some t) x w' (<[t := with_stack stk th]> T) S L C N R Q I now.
Proof.
  intros Hc Ht Hrun Hstk Hw Hpop Hslept.
  pose proof (λ s sm, not_waiting _ _ _ _ _ _ _ _ _ _ _ _ t th s sm Hc Ht ltac:(congruence)) as Hnw.
  pose proof (not_ready _ _ _ _ _ _ _ _ _ _ _ _ t th Hc Ht ltac:(congruence)) as Hnr.
  destruct Hc. split; auto.
  - intros u Hu. apply has_status_other; [by intros ->|auto].
  - intros u thu Hu. look Hu; [|by eapply c_status]. exact (c_status t th Ht).
  - destruct c_idle as (i & ? & ?). exists i. by rewrite is_Some_insert_same.
  - intros s sm u Hs Hu. rewrite has_status_other, at_sema_other; [by eapply c_wait|..];
      intros ->; by apply (Hnw s sm).
  - intros u thu Hu. look Hu; [done|by eapply c_frames].
  - intros u thu Hu Hr. look Hu; [done|by eapply c_others].
  - intros u thu Hu. look Hu; [by eapply (c_hold_nodup t th)|by eapply c_hold_nodup].
  - intros u l. rewrite c_hold. split; intros (thu & Hu & Hl).
    + destruct (decide (u = t)) as [->|]; [|exists thu; by rewrite lookup_insert_ne].
      exists (with_stack stk th). rewrite lookup_insert_eq. split; [done|]. by simplify_eq.
    + look Hu; eauto.
  - eapply sleep_sorted_ext; [|done]. intros. by eapply tick_in_insert.
  - intros u Hu. apply c_sleep_sema. by rewrite is_Some_insert_same in Hu.
  - intros u sm Hs Hv. destruct (c_slept u sm Hs Hv) as (? & (thu & Hu & ?) & Hor).
    split_and!; [done| |].
    + destruct (decide (u = t)) as [->|]; [|exists thu; by rewrite lookup_insert_ne].
      exists (with_stack stk th). rewrite lookup_insert_eq. split; [done|]. by simplify_eq.
    + destruct (decide (u = t)) as [->|].
      * destruct (Hslept sm Hs Hv) as [?|[old ?]]; [by left|right].
        exists (with_stack stk th), old. by rewrite lookup_insert_eq.
      * destruct Hor as [?|(thu' & old & ? & ?)]; [left; auto|right].
        exists thu', old. by rewrite lookup_insert_ne.
  - intros u Hu. apply c_header. by rewrite is_Some_insert_same in Hu.
  - intros s sm Hs Hne. destruct (c_wake s sm Hs Hne) as (W & HndW & HW & Hv).
    destruct (decide (t ∈ W)) as [Hin|Hin].
    + destruct (Hpop s) as [-> ->]; [by apply HW|]. rewrite decide_True by done.
      rewrite decide_False in Hv by done.
      apply list_elem_of_split in Hin as (W1 & W2 & ->). exists (W1 ++ W2).
      apply NoDup_app in HndW as (? & Hd & [? ?]%NoDup_cons).
      assert (t ∉ W1) by (intros ?; eapply Hd; [done|set_solver]).
      split_and!.
      * apply NoDup_app. split_and!; [done| |done]. intros a Ha Ha'. eapply Hd; [done|set_solver].
      * intros u Hu. rewrite at_sema_other by set_solver. apply HW. set_solver.
      * rewrite length_app in *. simpl in Hv. lia.
    + exists W. split_and!; [done| |].
      * intros u Hu. rewrite at_sema_other by (by intros ->). by apply HW.
      * destruct (decide (w = Some s)) as [E|E]; [rewrite decide_True by auto; lia|].
        destruct (decide (w' = Some s)); lia.
Qed.

(** Saving one more frame, and returning into the top frame. *)
Definition not_down (stk : list frame) : Prop :=
  match stk with FSemaDown _ _ :: _ => False | _ => True end.
Lemma plain_not_down stk : plain stk → not_down stk.
Proof. by destruct stk as [|[] stk]. Qed.

Lemma core_push t x w T S L C N R Q I now th f :
  core (Some t) x w T S L C N R Q I now →
  T !! t = Some th → status th = THREAD_RUNNING → not_down (stack th) →
  frame_ok S L C I t f →
  core (Some t) x w (<[t := with_stack (f :: stack th) th]> T) S L C N R Q I now.
Proof.
  intros Hc Ht Hrun Hpl Hf. pose proof Hc as Hc'. destruct Hc'.
  eapply core_restack; try done.
  - constructor; [done|]. by eapply c_frames.
  - intros s (th' & old & rest & ? & Hstk). simplify_eq. by rewrite Hstk in Hpl.
  - intros sm Hs Hv. destruct (c_slept t sm Hs Hv) as (_ & _ & [?|(th' & old & ? & ?)]); [by left|].
    simplify_eq. right. exists old. set_solver.
Qed.

(** [FSemaDown] is only ever on top. *)
Lemma shape_no_down d lvl stk s old : shape d lvl stk → FSemaDown s old ∈ tail stk → False.
Proof.
  destruct stk as [|f stk]; simpl; [set_solver|].
  revert lvl f. induction stk as [|g stk IH]; intros lvl f Hsh Hin; [set_solver|].
  assert (∃ lvl', shape d lvl' (g :: stk)) as [lvl' Hsh'].
  { destruct f; simpl in Hsh; try (destruct_and? Hsh; eauto); done. }
  apply elem_of_cons in Hin as [<-|Hin]; [|by eapply IH].
  destruct f; simpl in Hsh; try (by destruct_and? Hsh); try naive_solver.
  destruct s0; naive_solver.
Qed.

Lemma core_pop t d lvl x T S L C N R Q I now th f rest :
  core (Some t) x None T S L C N R Q I now →
  T !! t = Some th → status th = THREAD_RUNNING → stack th = f :: rest → shape d lvl (f :: rest) →
  core (Some t) x (match f with FSemaDown s _ => Some s | _ => None end)
    (<[t := with_stack rest th]> T) S L C N R Q I now.
Proof.
  intros Hc Ht Hrun Hstk Hsh. pose proof Hc as Hc'. destruct Hc'.
  eapply core_restack; try done.
  - specialize (c_frames t th Ht). rewrite Hstk in c_frames. by inversion c_frames.
  - intros s (th' & old & r' & ? & Hstk'). simplify_eq. split; [done|].
    rewrite Hstk in Hstk'. by simplify_eq.
  - intros sm Hs Hv. destruct (c_slept t sm Hs Hv) as (_ & _ & [?|(th' & old & ? & Hin)]); [done|].
    simplify_eq. rewrite Hstk in Hin. apply elem_of_cons in Hin as [<-|Hin]; [by left|].
    exfalso. by eapply (shape_no_down d lvl (f :: rest)).
Qed.

(** ** Status changes *)

(** A thread that waits on no semaphore is marked running, ready, or (the idle
    thread only) blocked; [R'] is the run queue afterwards. *)
Lemma core_status r r' x w T S L C N R R' Q I now t th st :
  core r x w T S L C N R Q I now →
  T !! t = Some th → (∀ s sm, S !! s = Some sm → t ∉ waiters sm) →
  NoDup R' → (∀ u, u ≠ t → u ∈ R' ↔ u ∈ R) → (t ∈ R' → st = THREAD_READY) →
  match st with
  | THREAD_RUNNING => r' = Some t
  | THREAD_READY => t ∈ R' ∨ I = Some t
  | THREAD_BLOCKED => I = Some t
  | THREAD_DYING => False
  end →
  (∀ u, u ≠ t → r = Some u → r' = Some u) →
  (r' ≠ Some t → shape (bool_decide (I = Some t)) INTR_OFF (stack th) ∧ not_got (stack th)) →
  core r' x w (<[t := with_status st th]> T) S L C N R' Q I now.
Proof.
  intros Hc Ht Hnw HndR' HR' HtR' Hst Hr Hsh. destruct Hc. split; auto.
  - intros u Hu. destruct (decide (u = t)) as [->|].
    + exists (with_status st th). rewrite lookup_insert_eq. auto.
    + rewrite has_status_other by done. apply c_ready. by apply HR'.
  - intros u thu Hu. look Hu.
    + simpl. destruct st; auto.
    + specialize (c_status u thu Hu). destruct (status thu); auto.
      by rewrite HR'.
  - destruct c_idle as (i & ? & ?). exists i. by rewrite is_Some_insert_same.
  - intros s sm u Hs Hu. rewrite has_status_other, at_sema_other; [by eapply c_wait|..];
      intros ->; by apply (Hnw s sm).
  - intros u thu Hu. look Hu; [exact (c_frames t th Ht)|by eapply c_frames].
  - intros u thu Hu Hr'. look Hu; [auto|]. eapply c_others; [done|]. auto.
  - intros u thu Hu. look Hu; [by eapply (c_hold_nodup t th)|by eapply c_hold_nodup].
  - intros u l. rewrite c_hold. split; intros (thu & Hu & Hl).
    + destruct (decide (u = t)) as [->|]; [|exists thu; by rewrite lookup_insert_ne].
      exists (with_status st th). rewrite lookup_insert_eq. split; [done|]. by simplify_eq.
    + look Hu; eauto.
  - eapply sleep_sorted_ext; [|done]. intros. by eapply tick_in_insert.
  - intros u Hu. apply c_sleep_sema. by rewrite is_Some_insert_same in Hu.
  - intros u sm Hs Hv. destruct (c_slept u sm Hs Hv) as (? & (thu & Hu & ?) & Hor).
    destruct (decide (u = t)) as [->|].
    + split_and!; [done| |].
      * exists (with_status st th). rewrite lookup_insert_eq. split; [done|]. by simplify_eq.
      * destruct Hor as [?|(thu' & old & ? & ?)]; [by left|right]. simplify_eq.
        exists (with_status st th), old. by rewrite lookup_insert_eq.
    + rewrite !lookup_insert_ne by done. split_and!; [done|eauto|].
      destruct Hor as [?|(thu' & old & ? & ?)]; [by left|right; eauto].
  - intros u Hu. apply c_header. by rewrite is_Some_insert_same in Hu.
  - intros s sm Hs Hne. destruct (c_wake s sm Hs Hne) as (W & ? & HW & ?).
    exists W. split_and!; [done| |done]. intros u Hu. destruct (HW u Hu) as [? Hat]. split; [done|].
    destruct (decide (u = t)) as [->|]; [|by rewrite at_sema_other].
    destruct Hat as (th' & old & rest & ? & ?). simplify_eq.
    exists (with_status st th), old, rest. by rewrite lookup_insert_eq.
Qed.

(** ** Semaphores *)

Lemma is_Some_insert_sema (S : gmap sema_id semaphore) s sm s' :
  is_Some (S !! s') → is_Some (<[s := sm]> S !! s').
Proof. intros. rewrite lookup_insert. case_decide; eauto. Qed.

Lemma frame_ok_sema S L C I t f s sm :
  frame_ok S L C I t f → frame_ok (<[s := sm]> S) L C I t f.
Proof. destruct f; simpl; naive_solver eauto using is_Some_insert_sema. Qed.

(** How the lock in transit changes with the value of the semaphore. *)
Definition lock_value (L : gmap Z lock) (x x' : option Z) (s : sema_id) (v : Z) : Prop :=
  match s with
  | SemLock l =>
      holder_of L l = None ∧ v = (if decide (x' = Some l) then 0 else 1) ∧
      ∀ l', l' ≠ l → x' = Some l' ↔ x = Some l'
  | _ => x' = x
  end.

Lemma lock_value_lock r x x' w T S L C N R Q I now s sm v l lk :
  core r x w T S L C N R Q I now → S !! s = Some sm → lock_value L x x' s v → L !! l = Some lk →
  ∃ sm', (if decide (s = SemLock l) then Some (Semaphore v []) else S !! SemLock l) = Some sm' ∧
    match holder lk with
    | Some _ => value sm' = 0 ∧ x' ≠ Some l
    | None => value sm' = if decide (x' = Some l) then 0 else 1
    end.
Proof.
  intros Hc Hs Hv Hl. destruct (c_lock _ _ _ _ _ _ _ _ _ _ _ _ Hc l lk Hl) as (sm' & Hsm' & Hval).
  destruct (decide (s = SemLock l)) as [->|Hne].
  - destruct Hv as (Hh & Hv & _). eexists. split; [done|]. simpl.
    unfold holder_of in Hh. rewrite Hl in Hh. simpl in Hh. by rewrite Hh.
  - exists sm'. split; [done|]. destruct s as [| l0 | | ]; simpl in Hv; [by subst| |by subst..].
    destruct Hv as (_ & _ & Hx). assert (l ≠ l0) as Hll by congruence.
    specialize (Hx l Hll). destruct (holder lk).
    + rewrite Hx. done.
    + rewrite Hval. repeat case_decide; tauto.
Qed.

(** The value changes, the waiters do not. *)
Lemma core_value r x x' w T S L C N R Q I now s sm v :
  core r x w T S L C N R Q I now → S !! s = Some sm → 0 ≤ v →
  lock_value L x x' s v →
  (∀ t, s = SemSleep t → v = 0) →
  (∀ s', w = Some s' → s' = s) →
  (waiters sm ≠ [] → v = 0 ∨ v + (if decide (w = Some s) then 1 else 0) ≤ value sm) →
  core r x' None T (<[s := Semaphore v (waiters sm)]> S) L C N R Q I now.
Proof.
  intros Hc Hs Hv Hlv Hsl Hw Hwake.
  pose proof (λ l lk, lock_value_lock _ _ _ _ _ _ _ _ _ _ _ _ _ _ _ _ l lk Hc Hs Hlv) as Hlock.
  assert (∀ s' sm', <[s := Semaphore v (waiters sm)]> S !! s' = Some sm' →
    ∃ sm0, S !! s' = Some sm0 ∧ waiters sm' = waiters sm0) as Hold.
  { intros s' sm' H. look H; eauto. }
  destruct Hc. split; auto.
  - intros t th Ht. specialize (c_status t th Ht). destruct (status th); auto.
    destruct c_status as [?|(s' & sm' & Hs' & Hin)]; [by left|right].
    destruct (decide (s' = s)) as [->|].
    + eexists s, _. rewrite lookup_insert_eq. split; [done|]. by simplify_eq.
    + exists s', sm'. by rewrite lookup_insert_ne.
  - intros s' sm' Hs'. destruct (Hold s' sm' Hs') as (sm0 & Hs0 & ->).
    destruct (c_sema s' sm0 Hs0). split; [done|]. look Hs'; [done|]. by simplify_eq.
  - intros s' sm' t Hs' Ht. destruct (Hold s' sm' Hs') as (sm0 & Hs0 & Hw0).
    rewrite Hw0 in Ht. by eapply c_wait.
  - intros t th Ht. eapply Forall_impl; [by eapply c_frames|]. intros f. apply frame_ok_sema.
  - intros l lk Hl. destruct (Hlock l lk Hl) as (sm' & Hsm' & Hval).
    destruct (decide (s = SemLock l)) as [->|].
    + injection Hsm' as <-. eexists. rewrite lookup_insert_eq. split; [done|]. exact Hval.
    + exists sm'. by rewrite lookup_insert_ne.
  - intros c ws p t Hcc Hin. apply is_Some_insert_sema. by eapply c_cond.
  - intros t Ht. destruct (c_sleep t Ht) as (sm' & Hsm' & Hv0 & Hin).
    destruct (decide (s = SemSleep t)) as [->|].
    + eexists. rewrite lookup_insert_eq. split; [done|]. simpl. simplify_eq. split; [by eapply Hsl|done].
    + exists sm'. by rewrite lookup_insert_ne.
  - intros t Ht. apply is_Some_insert_sema. by apply c_sleep_sema.
  - intros t sm' Hs' Hne. look Hs'.
    + simpl in Hne. exfalso. by eapply Hne, Hsl.
    + destruct (c_slept t sm' Hs' Hne) as (? & ? & [Hws|?]); [|split_and!; auto].
      apply Hw in Hws. congruence.
  - intros s' sm' Hs' Hne. look Hs'.
    + simpl in *. destruct (c_wake s sm Hs Hne) as (W & ? & ? & ?).
      destruct (Hwake Hne) as [->|?].
      * exists []. split_and!; [constructor|set_solver|simpl; case_decide; lia].
      * exists W. split_and!; [done..|]. repeat case_decide; done || lia.
    + destruct (c_wake s' sm' Hs' Hne) as (W & ? & ? & Hle). exists W. split_and!; [done..|].
      rewrite decide_False in Hle; [by rewrite decide_False|].
      intros Hws. apply Hw in Hws. congruence.
Qed.

(** A waiter of [s] becomes ready and the value goes up. *)
Lemma core_unblock r x x' T S L C N R R' Q Q' I now s sm v t th ws :
  core r x None T S L C N R Q I now →
  S !! s = Some sm → waiters sm ≡ₚ t :: ws → T !! t = Some th →
  0 ≤ v ≤ value sm + 1 → lock_value L x x' s v →
  (∀ u, s = SemSleep u → v = 1 ∧ tick_to_wake th ≤ now ∧ t ∉ Q') →
  NoDup Q' → Sorted (not_after (by_key (tick_in T))) Q' → (∀ u, u ∈ Q' → u ∈ Q) →
  R' ≡ₚ t :: R →
  core r x' None (<[t := with_status THREAD_READY th]> T) (<[s := Semaphore v ws]> S)
    L C N R' Q' I now.
Proof.
  intros Hc Hs Hws Ht Hv Hlv Hsl HndQ HsQ HQ HR.
  pose proof (λ l lk, lock_value_lock _ _ _ _ _ _ _ _ _ _ _ _ _ _ _ _ l lk Hc Hs Hlv) as Hlock.
  assert (t ∈ waiters sm) as Htw by (rewrite Hws; set_solver).
  destruct (c_wait _ _ _ _ _ _ _ _ _ _ _ _ Hc s sm t Hs Htw)
    as [(th1 & ? & Hbl) (th2 & old & rest & ? & Hstk)]. simplify_eq.
  pose proof (not_ready _ _ _ _ _ _ _ _ _ _ _ _ t th Hc Ht ltac:(congruence)) as Hnr.
  destruct (c_sema _ _ _ _ _ _ _ _ _ _ _ _ Hc s sm Hs) as [HndW _]. rewrite Hws in HndW.
  apply NoDup_cons in HndW as [Htws HndW].
  assert (∀ s' sm', S !! s' = Some sm' → t ∈ waiters sm' → s' = s) as Honly.
  { intros s' sm' Hs' Hin. destruct (c_wait _ _ _ _ _ _ _ _ _ _ _ _ Hc s' sm' t Hs' Hin)
      as [_ (th2 & old2 & r2 & ? & Hstk2)]. congruence. }
  assert (∀ u s', at_sema (<[t := with_status THREAD_READY th]> T) u s' ↔ at_sema T u s') as Hat.
  { intros u s'. destruct (decide (u = t)) as [->|]; [|by apply at_sema_other].
    unfold at_sema. rewrite lookup_insert_eq. split; intros (? & o & q & ? & Heq); simplify_eq.
    - exists th, o, q. done.
    - exists (with_status THREAD_READY th), o, q. done. }
  destruct Hc. split; auto.
  - rewrite HR. by constructor.
  - intros u Hu. rewrite HR in Hu. apply elem_of_cons in Hu as [->|Hu].
    + exists (with_status THREAD_READY th). by rewrite lookup_insert_eq.
    + apply has_status_other; [by intros ->|auto].
  - intros u thu Hu. look Hu; [left; rewrite HR; set_solver|].
    specialize (c_status u thu Hu). destruct (status thu); auto.
    + rewrite HR. set_solver.
    + destruct c_status as [?|(s' & sm' & Hs' & Hin)]; [by left|right].
      destruct (decide (s' = s)) as [->|]; [|exists s', sm'; by rewrite lookup_insert_ne].
      simplify_eq. eexists s, _. rewrite lookup_insert_eq. split; [done|]. simpl.
      rewrite Hws in Hin. set_solver.
  - destruct c_idle as (i & ? & ?). exists i. by rewrite is_Some_insert_same.
  - intros s' sm' Hs'. look Hs'; [simpl; split; [done|lia]|by eapply c_sema].
  - intros s' sm' u Hs' Hu. assert (∃ sm0, S !! s' = Some sm0 ∧ u ∈ waiters sm0 ∧ u ≠ t)
      as (sm0 & Hs0 & Hu0 & Hne).
    { look Hs'; [exists sm; simpl in Hu; rewrite Hws; set_solver|]. exists sm'. split_and!; [done..|].
      intros ->. by apply Honly in Hs'. }
    rewrite Hat, has_status_other by done. by eapply c_wait.
  - intros u thu Hu. eapply Forall_impl; [|intros f; apply frame_ok_sema].
    look Hu; [exact (c_frames t th Ht)|by eapply c_frames].
  - intros u thu Hu Hr. look Hu; [|by eapply c_others].
    apply (c_others t th); [done|]. done.
  - intros u thu Hu. look Hu; [by eapply (c_hold_nodup t th)|by eapply c_hold_nodup].
  - intros u l. rewrite c_hold. split; intros (thu & Hu & Hl).
    + destruct (decide (u = t)) as [->|]; [|exists thu; by rewrite lookup_insert_ne].
      exists (with_status THREAD_READY th). rewrite lookup_insert_eq. split; [done|]. by simplify_eq.
    + look Hu; eauto.
  - intros l lk Hl. destruct (Hlock l lk Hl) as (sm' & Hsm' & Hval).
    destruct (decide (s = SemLock l)) as [->|]; [|exists sm'; by rewrite lookup_insert_ne].
    injection Hsm' as <-. eexists. rewrite lookup_insert_eq. split; [done|]. exact Hval.
  - intros c ws' p u Hcc Hin. apply is_Some_insert_sema. by eapply c_cond.
  - eapply sleep_sorted_ext; [|done]. intros. by eapply tick_in_insert.
  - intros u Hu. destruct (c_sleep u (HQ u Hu)) as (sm' & Hsm' & Hv0 & Hin).
    destruct (decide (s = SemSleep u)) as [->|]; [|exists sm'; by rewrite lookup_insert_ne].
    destruct (Hsl u eq_refl) as (_ & _ & HtQ).
    pose proof (c_frames t th Ht) as Hf. rewrite Hstk in Hf. inversion Hf as [|? ? Hf1]; subst.
    simpl in Hf1. destruct Hf1 as (_ & _ & ->). done.
  - intros u Hu. apply is_Some_insert_sema, c_sleep_sema. by rewrite is_Some_insert_same in Hu.
  - intros u sm' Hs' Hne. look Hs'.
    + destruct (Hsl u eq_refl) as (-> & Htick & _). split; [done|].
      pose proof (c_frames t th Ht) as Hf. rewrite Hstk in Hf. inversion Hf as [|? ? Hf1]; subst.
      simpl in Hf1. destruct Hf1 as (_ & _ & ->). split.
      * exists (with_status THREAD_READY th). by rewrite lookup_insert_eq.
      * right. exists (with_status THREAD_READY th), old. rewrite lookup_insert_eq.
        split; [done|]. simpl. rewrite Hstk. set_solver.
    + destruct (c_slept u sm' Hs' Hne) as (? & (thu & Hu & ?) & Hor).
      destruct (decide (u = t)) as [->|].
      * split_and!; [done| |].
        -- exists (with_status THREAD_READY th). rewrite lookup_insert_eq. by simplify_eq.
        -- destruct Hor as [?|(thu' & o & ? & ?)]; [by left|right]. simplify_eq.
           exists (with_status THREAD_READY th), o. by rewrite lookup_insert_eq.
      * rewrite !lookup_insert_ne by done. split_and!; [done|eauto|].
        destruct Hor as [?|(thu' & o & ? & ?)]; [by left|right; eauto].
  - intros u Hu. apply c_header. by rewrite is_Some_insert_same in Hu.
  - intros s' sm' Hs' Hne. setoid_rewrite Hat. look Hs'; [|by eapply c_wake].
    destruct (c_wake s sm Hs) as (W & HndWW & HW & Hle); [intros E; rewrite E in Htw; set_solver|].
    exists (t :: W). split_and!.
    + constructor; [|done]. intros HtW. by apply HW in HtW as [? _].
    + intros u [->|Hu]%elem_of_cons.
      * split; [done|]. exists th, old, rest. done.
      * destruct (HW u Hu) as [Hu1 ?]. split; [|done]. simpl. rewrite Hws in Hu1. set_solver.
    + simpl in *. lia.
Qed.

(** The running thread blocks on a semaphore that is down. *)
Lemma core_block t x w T S L C N R Q Q' I now th s sm old ws :
  core (Some t) x w T S L C N R Q I now →
  T !! t = Some th → status th = THREAD_RUNNING → not_down (stack th) →
  S !! s = Some sm → value sm = 0 → ws ≡ₚ t :: waiters sm →
  frame_ok S L C I t (FSemaDown s old) → 
  shape (bool_decide (I = Some t)) INTR_OFF (FSemaDown s old :: stack th) →
  (∀ s', w = Some s' → s' = s) →
  NoDup Q' → Sorted (not_after (by_key (tick_in T))) Q' →
  (∀ u, u ∈ Q' → u ∈ Q ∨ u = t ∧ s = SemSleep t) →
  core None x None
    (<[t := with_status THREAD_BLOCKED (with_stack (FSemaDown s old :: stack th) th)]> T)
    (<[s := Semaphore (value sm) ws]> S) L C N R Q' I now.
Proof.
  intros Hc Ht Hrun Hnd Hs Hv0 Hws Hf Hsh Hw HndQ HsQ HQ.
  set (th' := with_status THREAD_BLOCKED (with_stack (FSemaDown s old :: stack th) th)).
  pose proof (λ s sm, not_waiting _ _ _ _ _ _ _ _ _ _ _ _ t th s sm Hc Ht ltac:(congruence)) as Hnw.
  pose proof (not_ready _ _ _ _ _ _ _ _ _ _ _ _ t th Hc Ht ltac:(congruence)) as Hnr.
  assert (∀ u thu, T !! u = Some thu → Some t = Some u → u = t) as Hcur by (intros; congruence).
  destruct Hc. split; auto.
  - intros u Hu. apply has_status_other; [by intros ->|auto].
  - intros u thu Hu. look Hu.
    + right. eexists s, _. rewrite lookup_insert_eq. split; [done|]. simpl. rewrite Hws. set_solver.
    + specialize (c_status u thu Hu). destruct (status thu); auto; [congruence|].
      destruct c_status as [?|(s' & sm' & Hs' & Hin)]; [by left|right].
      destruct (decide (s' = s)) as [->|]; [|exists s', sm'; by rewrite lookup_insert_ne].
      simplify_eq. eexists s, _. rewrite lookup_insert_eq. split; [done|]. simpl. rewrite Hws. set_solver.
  - destruct c_idle as (i & ? & ?). exists i. by rewrite is_Some_insert_same.
  - intros s' sm' Hs'. look Hs'; [|by eapply c_sema]. simpl. destruct (c_sema s sm Hs). split; [|done].
    rewrite Hws. constructor; [by eapply Hnw|done].
  - intros s' sm' u Hs' Hu. destruct (decide (u = t)) as [->|].
    + look Hs'; [|exfalso; by eapply (Hnw s' sm')].
      split; [exists th'|exists th', old, (stack th)]; by rewrite lookup_insert_eq.
    + rewrite has_status_other, at_sema_other by done.
      look Hs'; [|by eapply c_wait]. simpl in Hu. rewrite Hws in Hu. eapply c_wait; [done|set_solver].
  - intros u thu Hu. eapply Forall_impl; [|intros f; apply frame_ok_sema].
    look Hu; [constructor; [done|exact (c_frames t th Ht)]|by eapply c_frames].
  - intros u thu Hu _. look Hu; [done|]. eapply c_others; [done|congruence].
  - intros u thu Hu. look Hu; [by eapply (c_hold_nodup t th)|by eapply c_hold_nodup].
  - intros u l. rewrite c_hold. split; intros (thu & Hu & Hl).
    + destruct (decide (u = t)) as [->|]; [|exists thu; by rewrite lookup_insert_ne].
      exists th'. rewrite lookup_insert_eq. split; [done|]. by simplify_eq.
    + look Hu; eauto.
  - intros l lk Hl. destruct (c_lock l lk Hl) as (sm' & Hsm' & Hval).
    destruct (decide (s = SemLock l)) as [->|]; [|exists sm'; by rewrite lookup_insert_ne].
    simplify_eq. eexists. rewrite lookup_insert_eq. split; [done|]. exact Hval.
  - intros c ws' p u Hcc Hin. apply is_Some_insert_sema. by eapply c_cond.
  - eapply sleep_sorted_ext; [|done]. intros. by eapply tick_in_insert.
  - intros u Hu. destruct (HQ u Hu) as [Hin|[-> ->]].
    + destruct (c_sleep u Hin) as (sm' & Hsm' & ? & Hw').
      destruct (decide (s = SemSleep u)) as [->|]; [|exists sm'; by rewrite lookup_insert_ne].
      simplify_eq. eexists. rewrite lookup_insert_eq. split; [done|]. simpl. rewrite Hws. set_solver.
    + eexists. rewrite lookup_insert_eq. split; [done|]. simpl. rewrite Hws. set_solver.
  - intros u Hu. apply is_Some_insert_sema, c_sleep_sema. by rewrite is_Some_insert_same in Hu.
  - intros u sm' Hs' Hne. look Hs'; [done|].
    destruct (c_slept u sm' Hs' Hne) as (? & (thu & Hu & ?) & Hor).
    assert (∃ thu' o, T !! u = Some thu' ∧ FSemaDown (SemSleep u) o ∈ stack thu') as (thu' & o & Hu' & Ho).
    { destruct Hor as [Hws'|?]; [|done]. apply Hw in Hws'. congruence. }
    destruct (decide (u = t)) as [->|].
    + rewrite !lookup_insert_eq. simplify_eq. split_and!; [done|by eexists|].
      right. exists th', o. split; [done|]. simpl. set_solver.
    + rewrite !lookup_insert_ne by done. split_and!; [done|eauto|right; eauto].
  - intros u Hu. apply c_header. by rewrite is_Some_insert_same in Hu.
  - intros s' sm' Hs' Hne. look Hs'.
    + exists []. split_and!; [constructor|set_solver|]. simpl. lia.
    + destruct (c_wake s' sm' Hs' Hne) as (W & ? & HW & Hle). exists W. split_and!; [done| |].
      * intros u Hu. destruct (HW u Hu) as [? Hat]. split; [done|]. apply at_sema_other; [|done].
        intros ->. destruct Hat as (? & o & q & ? & Hst). simplify_eq. by rewrite Hst in Hnd.
      * rewrite decide_False in Hle; [by rewrite decide_False|].
        intros Hws'. apply Hw in Hws'. congruence.
Qed.

(** ** Locks *)

(** The running thread takes or drops lock [l]. *)
Lemma core_relock t x x' w T S L C N R Q I now th th' l lk lk' sm :
  core (Some t) x w T S L C N R Q I now →
  T !! t = Some th → status th = THREAD_RUNNING → not_down (stack th) →
  status th' = THREAD_RUNNING → tick_to_wake th' = tick_to_wake th →
  (∀ old, FSemaDown (SemSleep t) old ∈ stack th → FSemaDown (SemSleep t) old ∈ stack th') →
  L !! l = Some lk → S !! SemLock l = Some sm →
  (∀ u, holder lk = Some u → u = t) → (∀ u, holder lk' = Some u → u = t) →
  NoDup (lock_holding th') →
  (∀ l', l' ≠ l → l' ∈ lock_holding th' ↔ l' ∈ lock_holding th) →
  (l ∈ lock_holding th' ↔ holder lk' = Some t) →
  Forall (frame_ok S (<[l := lk']> L) C I t) (stack th') →
  match holder lk' with
  | Some _ => value sm = 0 ∧ x' ≠ Some l
  | None => value sm = if decide (x' = Some l) then 0 else 1
  end →
  (∀ l', l' ≠ l → x' = Some l' ↔ x = Some l') →
  core (Some t) x' w (<[t := th']> T) S (<[l := lk']> L) C N R Q I now.
Proof.
  intros Hc Ht Hrun Hnd Hrun' Htick Hsd Hl Hsm Hh Hh' HndH HH HlH Hfr Hval Hx.
  pose proof (λ s sm, not_waiting _ _ _ _ _ _ _ _ _ _ _ _ t th s sm Hc Ht ltac:(congruence)) as Hnw.
  pose proof (not_ready _ _ _ _ _ _ _ _ _ _ _ _ t th Hc Ht ltac:(congruence)) as Hnr.
  assert (∀ l', is_Some (<[l := lk']> L !! l') ↔ is_Some (L !! l')) as HL
    by (intros l'; by eapply is_Some_insert_same).
  assert (∀ u l', u ≠ t → holder_of (<[l := lk']> L) l' = Some u ↔ holder_of L l' = Some u) as Hho.
  { intros u l' Hu. unfold holder_of. rewrite lookup_insert. destruct (decide (l = l')) as [->|]; [|done].
    rewrite Hl. simpl. split; intros E; [apply Hh' in E|apply Hh in E]; done. }
  destruct Hc. split; auto.
  - intros u Hu. apply has_status_other; [by intros ->|auto].
  - intros u thu Hu. look Hu; [by rewrite Hrun'|by eapply c_status].
  - destruct c_idle as (i & ? & ?). exists i. by rewrite is_Some_insert_same.
  - intros s sm' u Hs Hu. rewrite has_status_other, at_sema_other; [by eapply c_wait|..];
      intros ->; by apply (Hnw s sm').
  - intros u thu Hu. look Hu; [done|]. eapply Forall_impl; [by eapply c_frames|].
    intros f. destruct f; simpl; rewrite ?HL, ?Hho by done; done.
  - intros u thu Hu Hr. look Hu; [done|by eapply c_others].
  - intros u thu Hu. look Hu; [done|by eapply c_hold_nodup].
  - intros u l'. destruct (decide (u = t)) as [->|].
    + rewrite lookup_insert_eq. transitivity (l' ∈ lock_holding th').
      * destruct (decide (l' = l)) as [->|Hne].
        -- rewrite HlH. unfold holder_of. by rewrite lookup_insert_eq.
        -- rewrite HH by done. unfold holder_of. rewrite lookup_insert_ne by done.
           fold (holder_of L l'). rewrite c_hold. split; [|eauto]. intros (? & ? & ?). by simplify_eq.
      * split; [eauto|]. intros (? & ? & ?). by simplify_eq.
    + rewrite Hho, c_hold, lookup_insert_ne by done. done.
  - intros l' lk0 Hl'. look Hl'; [eauto|].
    destruct (c_lock l' lk0 Hl') as (sm' & Hsm' & Hv). exists sm'. split; [done|].
    specialize (Hx l' ltac:(done)). destruct (holder lk0); [by rewrite Hx|].
    rewrite Hv. repeat case_decide; tauto.
  - eapply sleep_sorted_ext; [|done]. intros. by eapply tick_in_insert.
  - intros u Hu. apply c_sleep_sema. by rewrite is_Some_insert_same in Hu.
  - intros u sm' Hs Hv. destruct (c_slept u sm' Hs Hv) as (? & (thu & Hu & ?) & Hor).
    destruct (decide (u = t)) as [->|].
    + rewrite !lookup_insert_eq. simplify_eq. split_and!; [done|exists th'; split; [done|congruence]|].
      destruct Hor as [?|(thu' & old & ? & ?)]; [by left|right]. simplify_eq. eauto.
    + rewrite !lookup_insert_ne by done. split_and!; [done|eauto|].
      destruct Hor as [?|(thu' & old & ? & ?)]; [by left|right; eauto].
  - intros u Hu. destruct (c_header u) as (n & tp & ? & ? & ? & Hor); [by rewrite is_Some_insert_same in Hu|].
    exists n, tp. split_and!; [done..|]. destruct Hor as [?|(a & b & ? & ? & ? & ?)]; [by left|].
    right. exists a, b. rewrite !HL. done.
  - intros l' Hl'. apply c_elem. by rewrite <-HL.
  - intros s sm' Hs Hne. destruct (c_wake s sm' Hs Hne) as (W & ? & HW & ?).
    exists W. split_and!; [done| |done]. intros u Hu. destruct (HW u Hu) as [? Hat]. split; [done|].
    apply at_sema_other; [|done]. intros ->.
    destruct Hat as (? & o & q & ? & Hst). simplify_eq. by rewrite Hst in Hnd.
Qed.

(** ** New objects *)

Lemma core_new_sema r x w T S L C N R Q I now s v :
  core r x w T S L C N R Q I now →
  (∀ sm, S !! s = Some sm → waiters sm = []) → 0 ≤ v →
  (∀ l, s = SemLock l → L !! l = None) → (∀ t, s ≠ SemSleep t) →
  core r x w T (<[s := Semaphore v []]> S) L C N R Q I now.
Proof.
  intros Hc Hs Hv Hlk Hsl. destruct Hc. split; auto.
  - intros t th Ht. specialize (c_status t th Ht). destruct (status th); auto.
    destruct c_status as [?|(s' & sm' & Hs' & Hin)]; [by left|right].
    exists s', sm'. rewrite lookup_insert_ne; [done|]. intros ->.
    rewrite (Hs _ Hs') in Hin. set_solver.
  - intros s' sm' Hs'. look Hs'; [split; [constructor|done]|by eapply c_sema].
  - intros s' sm' t Hs' Ht. look Hs'; [set_solver|by eapply c_wait].
  - intros t th Ht. eapply Forall_impl; [by eapply c_frames|]. intros f. apply frame_ok_sema.
  - intros l lk Hl. destruct (c_lock l lk Hl) as (sm' & Hsm' & ?). exists sm'.
    rewrite lookup_insert_ne; [done|]. intros ->. by rewrite (Hlk l) in Hl.
  - intros c ws p t Hcc Hin. apply is_Some_insert_sema. by eapply c_cond.
  - intros t Ht. rewrite lookup_insert_ne by (apply Hsl). auto.
  - intros t Ht. apply is_Some_insert_sema. auto.
  - intros t sm Hs' Hne. rewrite lookup_insert_ne in Hs' by (apply Hsl). by eapply c_slept.
  - intros s' sm' Hs' Hne. look Hs'; [done|by eapply c_wake].
Qed.

Lemma core_new_lock r x w T S L C N R Q I now l nd :
  core r x w T S L C N R Q I now → L !! l = None → x ≠ Some l →
  S !! SemLock l = Some (Semaphore 1 []) →
  core r x w T S (<[l := Lock None 0]> L) C (<[waiting_elem l := nd]> N) R Q I now.
Proof.
  intros Hc Hl Hx Hsm.
  assert (∀ l', is_Some (L !! l') → is_Some (<[l := Lock None 0]> L !! l')) as HL
    by (intros l' ?; rewrite lookup_insert; case_decide; eauto).
  assert (∀ u l', holder_of (<[l := Lock None 0]> L) l' = Some u ↔ holder_of L l' = Some u) as Hho.
  { intros u l'. unfold holder_of. rewrite lookup_insert. case_decide; [subst|done]. by rewrite Hl. }
  destruct Hc. split; auto.
  - intros t th Ht. eapply Forall_impl; [by eapply c_frames|].
    intros f. destruct f; simpl; rewrite ?Hho; naive_solver.
  - intros t l'. by rewrite Hho.
  - intros l' lk Hl'. look Hl'; [|by eapply c_lock]. eexists. split; [done|]. simpl.
    by rewrite decide_False.
  - intros t Ht. destruct (c_header t Ht) as (n & tp & ? & ? & ? & Hor).
    exists n, tp. unfold lock_waiting, waiting_elem in *. simpl in *.
    rewrite (nx_ext N _ (4 * t + 1)), (pv_ext N _ (4 * t + 2)), (nx_ext N _ (4 * t + 2))
      by (apply lookup_insert_ne; lia). split_and!; [done..|].
    destruct Hor as [?|(a & b & ? & ? & ? & ?)]; [by left|]. right. exists a, b. auto.
  - intros l' Hl'. rewrite lookup_insert. case_decide as E; [eauto|].
    apply c_elem. rewrite lookup_insert_ne in Hl'; [done|]. intros ->. done.
Qed.

Lemma core_cond r x w T S L C N R Q I now c ws :
  core r x w T S L C N R Q I now → (∀ p t, (p, t) ∈ ws → is_Some (S !! SemWaiter t)) →
  core r x w T S L (<[c := ws]> C) N R Q I now.
Proof.
  intros Hc Hws. destruct Hc. split; auto.
  - intros t th Ht. eapply Forall_impl; [by eapply c_frames|].
    intros f. destruct f; simpl; try done. intros [? ?]. split; [|done].
    rewrite lookup_insert. case_decide; eauto.
  - intros c' ws' p t Hc' Hin. look Hc'; [eauto|by eapply c_cond].
Qed.

(** ** Sleeping, and the passing of time *)

Lemma core_tick t x w T S L C N R Q I now th v :
  core (Some t) x w T S L C N R Q I now → T !! t = Some th → status th = THREAD_RUNNING →
  (∀ sm, S !! SemSleep t = Some sm → value sm = 0) →
  core (Some t) x w (<[t := with_tick_to_wake v th]> T) S L C N R Q I now.
Proof.
  intros Hc Ht Hrun Hv0.
  pose proof (λ s sm, not_waiting _ _ _ _ _ _ _ _ _ _ _ _ t th s sm Hc Ht ltac:(congruence)) as Hnw.
  assert (t ∉ Q) as HtQ.
  { intros Hin. destruct (c_sleep _ _ _ _ _ _ _ _ _ _ _ _ Hc t Hin) as (sm & ? & _ & ?).
    by eapply Hnw. }
  set (th' := with_tick_to_wake v th).
  assert (∀ u st, has_status (<[t := th']> T) u st ↔ has_status T u st) as Hst.
  { intros u st. destruct (decide (u = t)) as [->|]; [|by apply has_status_other].
    unfold has_status. rewrite lookup_insert_eq, Ht. naive_solver. }
  assert (∀ u s, at_sema (<[t := th']> T) u s ↔ at_sema T u s) as Hat.
  { intros u s. destruct (decide (u = t)) as [->|]; [|by apply at_sema_other].
    unfold at_sema. rewrite lookup_insert_eq, Ht. naive_solver. }
  destruct Hc. split; auto.
  - intros u Hu. rewrite Hst. auto.
  - intros u thu Hu. look Hu; [exact (c_status t th Ht)|by eapply c_status].
  - destruct c_idle as (i & ? & ?). exists i. by rewrite is_Some_insert_same.
  - intros s sm u Hs Hu. rewrite Hst, Hat. by eapply c_wait.
  - intros u thu Hu. look Hu; [exact (c_frames t th Ht)|by eapply c_frames].
  - intros u thu Hu Hr. look Hu; [done|by eapply c_others].
  - intros u thu Hu. look Hu; [exact (c_hold_nodup t th Ht)|by eapply c_hold_nodup].
  - intros u l. rewrite c_hold. destruct (decide (u = t)) as [->|]; [|by rewrite lookup_insert_ne].
    rewrite lookup_insert_eq, Ht. naive_solver.
  - eapply sleep_sorted_ext; [|done]. intros u Hu. unfold tick_in.
    rewrite lookup_insert_ne; [done|]. by intros ->.
  - intros u Hu. apply c_sleep_sema. by rewrite is_Some_insert_same in Hu.
  - intros u sm Hs Hne. destruct (decide (u = t)) as [->|]; [exfalso; eauto|].
    rewrite !lookup_insert_ne by done. by eapply c_slept.
  - intros u Hu. apply c_header. by rewrite is_Some_insert_same in Hu.
  - intros s sm Hs Hne. setoid_rewrite Hat. by eapply c_wake.
Qed.

Lemma core_now r x w T S L C N R Q I now now' :
  core r x w T S L C N R Q I now → now ≤ now' → core r x w T S L C N R Q I now'.
Proof.
  intros Hc Hle. destruct Hc. split; auto. intros t sm Hs Hv.
  destruct (c_slept t sm Hs Hv) as (? & (th & ? & ?) & ?). split_and!; [done| |done].
  exists th. split; [done|lia].
Qed.

Lemma core_links r x w T S L C N N' R Q I now :
  core r x w T S L C N R Q I now →
  (∀ t, is_Some (T !! t) → waiting_header L N' t) →
  (∀ l, is_Some (L !! l) → is_Some (N' !! waiting_elem l)) →
  core r x w T S L C N' R Q I now.
Proof. intros Hc ? ?. destruct Hc. split; auto. Qed.
