(* ===== verification/KernelSafe.v ===== *)
(** * Every function of the kernel keeps the invariant

    Specifications of the functions of thread.c, synch.c and timer.c in terms
    of the invariant: they return (no assertion fails, no pointer is bad, no
    loop runs on) in a state that satisfies it again. *)
From S2P Require Import Prelude ListSpec KList KListFacts KListOps Kernel Thread Synch Timer KernelStep KernelCore.
Local Open Scope Z_scope.

(** ** Small operations *)
Section small.
Implicit Types (k : kernel) (t : Z).

Lemma wp_get_thread k t th (Q : thread → kernel → Prop) :
  threads k !! t = Some th → Q th k → wp (get_thread t) k Q.
Proof. intros Ht HQ. unfold get_thread. wp_steps. by eapply wp_the. Qed.
Lemma wp_mod_thread k t th f (Q : unit → kernel → Prop) :
  threads k !! t = Some th → Q tt (set_threads (<[t := f th]> (threads k)) k) →
  wp (mod_thread t f) k Q.
Proof. intros Ht HQ. unfold mod_thread. wp_step. eapply wp_get_thread; [done|]. by wp_steps. Qed.
Lemma wp_get_sema k s sm (Q : semaphore → kernel → Prop) :
  semas k !! s = Some sm → Q sm k → wp (get_sema s) k Q.
Proof. intros Hs HQ. unfold get_sema. wp_steps. by eapply wp_the. Qed.
Lemma wp_get_lock k l lk (Q : lock → kernel → Prop) :
  locks k !! l = Some lk → Q lk k → wp (get_lock l) k Q.
Proof. intros Hs HQ. unfold get_lock. wp_steps. by eapply wp_the. Qed.
Lemma wp_get_cond k c ws (Q : list (Z * Z) → kernel → Prop) :
  conds k !! c = Some ws → Q ws k → wp (get_cond c) k Q.
Proof. intros Hs HQ. unfold get_cond. wp_steps. by eapply wp_the. Qed.

Lemma wp_push k th f (Q : unit → kernel → Prop) :
  threads k !! current k = Some th →
  Q tt (set_threads (<[current k := with_stack (f :: stack th) th]> (threads k)) k) →
  wp (push f) k Q.
Proof. intros Ht HQ. unfold push. wp_steps. by eapply wp_mod_thread. Qed.

Lemma wp_thread_current k (Q : Z → kernel → Prop) :
  has_status (threads k) (current k) THREAD_RUNNING → Q (current k) k → wp thread_current k Q.
Proof.
  intros (th & Ht & Hst) HQ. unfold thread_current, running_thread. wp_steps.
  eapply wp_get_thread; [done|]. wp_steps. apply wp_assert; [by apply bool_decide_true|].
  by wp_steps.
Qed.

Lemma wp_intr_disable k (Q : intr_level → kernel → Prop) :
  Q (level k) (set_level INTR_OFF k) → wp intr_disable k Q.
Proof. intros HQ. unfold intr_disable, intr_get_level. by wp_steps. Qed.
Lemma wp_intr_set_level k l (Q : intr_level → kernel → Prop) :
  in_external_intr k = false ∨ l = INTR_OFF → Q (level k) (set_level l k) →
  wp (intr_set_level l) k Q.
Proof.
  intros Hext HQ. unfold intr_set_level. case_decide as Hl.
  - subst l. destruct Hext as [Hext|]; [|done]. unfold intr_enable, intr_get_level, intr_context.
    wp_steps. apply wp_assert; [by rewrite Hext|]. by wp_steps.
  - apply wp_intr_disable. by destruct l.
Qed.
End small.

(** ** The running thread at work

    The state inside a function called by the running thread. *)
Record at_work (x : option Z) (w : option sema_id) (th : thread) (k : kernel) : Prop := {
  aw_core : kcore (Some (current k)) x w k;
  aw_thread : threads k !! current k = Some th;
  aw_status : status th = THREAD_RUNNING;
  aw_ext : in_external_intr k = false;
}.

Lemma at_work_running x w th k : at_work x w th k → has_status (threads k) (current k) THREAD_RUNNING.
Proof. intros []. by exists th. Qed.
#[export] Hint Resolve at_work_running : pintos.

Lemma inv_at_work k : inv k → ∃ th, at_work (in_transit (stack th)) None th k ∧ shape (is_idle k) (level k) (stack th).
Proof.
  intros [Hc (th & Ht & Hst) Hsh Hext]. exists th. unfold stack_of in *. rewrite Ht in *.
  split; [by split|done].
Qed.

Lemma at_work_inv x th k :
  at_work x None th k → x = in_transit (stack th) → shape (is_idle k) (level k) (stack th) → inv k.
Proof.
  intros [Hc Ht Hst Hext] -> Hsh. split; [| |unfold stack_of; by rewrite Ht|done].
  - unfold stack_of. by rewrite Ht.
  - by exists th.
Qed.

(** A function that leaves the shared state alone may return. *)
Lemma at_work_return x th k lvl :
  at_work x None th k → x = in_transit (stack th) → shape (is_idle k) lvl (stack th) → inv (set_level lvl k).
Proof. intros [] ? ?. by eapply (at_work_inv _ th). Qed.

Lemma at_work_push x w th k f :
  at_work x w th k → not_down (stack th) →
  frame_ok (semas k) (locks k) (conds k) (idle_thread k) (current k) f →
  at_work x w (with_stack (f :: stack th) th)
    (set_threads (<[current k := with_stack (f :: stack th) th]> (threads k)) k).
Proof.
  intros [Hc Ht Hst Hext] Hnd Hf. split; [|simpl; by rewrite lookup_insert_eq|done|done].
  eapply core_push; done.
Qed.

(** ** Scheduling *)

Lemma wp_schedule_tail k n th prev :
  kcore (Some n) None None (set_threads (<[n := with_status THREAD_RUNNING th]> (threads k)) k) →
  threads k !! n = Some th → current k = n → level k = INTR_OFF → in_external_intr k = false →
  shape (bool_decide (idle_thread k = Some n)) INTR_OFF (stack th) → not_got (stack th) →
  (∀ p, prev = Some p → p ≠ n ∧ ∃ thp, threads k !! p = Some thp ∧ status thp ≠ THREAD_DYING) →
  wp (thread_schedule_tail prev) k (λ _ k', inv k').
Proof.
  intros Hc Hn <- Hlvl Hext Hsh Hng Hprev. unfold thread_schedule_tail, running_thread, intr_get_level.
  wp_steps. apply wp_assert; [by apply bool_decide_true|]. wp_step.
  eapply wp_mod_thread; [done|]. wp_steps.
  match goal with |- wp _ ?k' _ => assert (inv k') as Hinv end.
  { eapply (at_work_inv None (with_status THREAD_RUNNING th)).
    - split; simpl; [exact Hc|by rewrite lookup_insert_eq|done|done].
    - simpl. symmetry. by apply plain_transit.
    - simpl. by rewrite Hlvl. }
  destruct prev as [p|]; [|done]. destruct (Hprev p eq_refl) as (Hne & thp & Hp & Hd).
  wp_step. eapply wp_get_thread; [simpl; by rewrite lookup_insert_ne|].
  wp_steps. rewrite decide_False by (by intros [? _]). done.
Qed.

Lemma wp_schedule k th :
  kcore None None None k → threads k !! current k = Some th → status th ≠ THREAD_RUNNING →
  level k = INTR_OFF → in_external_intr k = false →
  wp schedule k (λ _ k', inv k').
Proof.
  intros Hc Ht Hst Hlvl Hext. pose proof Hc as Hc'. destruct Hc'.
  assert (status th ≠ THREAD_DYING) as Hdy.
  { intros E. specialize (c_status _ _ Ht). by rewrite E in c_status. }
  unfold schedule, running_thread, next_thread_to_run, intr_get_level. wp_steps.
  (* the next thread, the run queue without it, and the invariant once it runs *)
  assert (∃ n thn R', threads k !! n = Some thn ∧
    kcore (Some n) None None
      (set_threads (<[n := with_status THREAD_RUNNING thn]> (threads k)) (set_ready_list R' k)) ∧
    match ready_list k with [] => idle_thread k = Some n ∧ R' = [] | t :: R => n = t ∧ R' = R end)
    as (n & thn & R' & Hn & Hcn & HR).
  { destruct (ready_list k) as [|n R] eqn:HR.
    - destruct c_idle as (i & Hi & thi & Hthi). exists i, thi, []. split_and!; [done| |done|done].
      assert (∀ s sm, semas k !! s = Some sm → i ∉ waiters sm) as Hnw.
      { intros s sm Hs Hin. destruct (c_wait s sm i Hs Hin) as [_ (th' & old & r & Hth' & Hstk)].
        specialize (c_frames _ _ Hth'). rewrite Hstk in c_frames.
        inversion c_frames as [|? ? Hf]; subst. by destruct Hf as (_ & ? & _). }
      unfold kcore. simpl. rewrite <-HR. eapply core_status; try done.
      + rewrite HR. constructor.
      + intros Hin. rewrite HR in Hin. set_solver.
    - destruct (c_ready n) as (thn & Hthn & Hrd); [set_solver|].
      exists n, thn, R. split_and!; [done| |done|done].
      apply NoDup_cons in c_ready_nodup as [HnR HndR].
      unfold kcore. simpl. eapply core_status; try done.
      + intros s sm Hs. eapply not_waiting; [done|done| |done]. by rewrite Hrd.
      + intros u Hu. rewrite HR. set_solver. }
  assert (shape (bool_decide (idle_thread k = Some n)) INTR_OFF (stack thn) ∧ not_got (stack thn)) as [Hsh Hng] by (by eapply c_others).
  eapply (wp_mono _ _ (λ nx k', nx = Some n ∧ k' = set_ready_list R' k)).
  { destruct (ready_list k) as [|t R] eqn:HRk; destruct HR as [HR1 ->]; wp_steps.
    - split; [done|]. destruct k; simpl in *. by subst.
    - by subst. }
  intros ? ? [-> ->]. wp_steps. apply wp_assert; [by apply bool_decide_true|].
  wp_step. eapply wp_get_thread; [done|]. wp_step. apply wp_assert; [by apply bool_decide_true|].
  wp_steps. apply wp_assert; [apply bool_decide_true; simpl; eauto|]. wp_step.
  eapply wp_the; [done|]. destruct (decide (current k = n)) as [Hcn'|Hcn'].
  - subst n. by apply (wp_schedule_tail _ (current k) thn).
  - wp_steps. apply (wp_schedule_tail _ n thn); try done.
    intros p [= <-]. split; [done|]. by exists th.
Qed.

Lemma insert_ordered_NoDup (less : Z → Z → bool) x xs :
  x ∉ xs → NoDup xs → NoDup (Spec.insert_ordered less x xs).
Proof. intros. rewrite insert_ordered_perm. by constructor. Qed.

Lemma wp_thread_yield k th :
  at_work None None th k → plain (stack th) → shape (is_idle k) (level k) (stack th) →
  wp thread_yield k (λ _ k', inv k').
Proof.
  intros Haw Hpl Hsh. pose proof Haw as [Hc Ht Hst Hext]. unfold thread_yield, intr_context.
  wp_step. apply wp_thread_current; [eauto with pintos|]. wp_steps.
  apply wp_assert; [by rewrite Hext|]. wp_step. apply wp_intr_disable. wp_steps.
  set (cur := current k). set (R' := if decide (Some cur = idle_thread k) then ready_list k
    else Spec.insert_ordered (compare_priorities (set_level INTR_OFF k)) cur (ready_list k)).
  eapply (wp_mono _ _ (λ _ k', k' = set_ready_list R' (set_level INTR_OFF k))).
  { subst R'. simpl. case_decide; by wp_steps. }
  intros _ ? ->. wp_step. eapply wp_mod_thread; [done|]. wp_step.
  eapply wp_push; [simpl; by rewrite lookup_insert_eq|]. simpl. rewrite insert_insert_eq.
  pose proof (at_work_push _ _ _ _ (FSetLevel (level k)) Haw (plain_not_down _ Hpl) I)
    as [Hcp Htp _ _]. simpl in Htp.
  pose proof (not_ready _ _ _ _ _ _ _ _ _ _ _ _ cur th Hc Ht ltac:(congruence)) as Hnr.
  eapply wp_schedule; simpl; [|by rewrite lookup_insert_eq|done|done|done].
  unfold kcore in *. simpl in *. set (th1 := with_stack (FSetLevel (level k) :: stack th) th) in *.
  change (with_stack (FSetLevel (level k) :: stack th) (with_status THREAD_READY th))
    with (with_status THREAD_READY th1).
  rewrite <-(insert_insert_eq _ cur _ th1). eapply (core_status (Some cur)); [exact Hcp|exact Htp|..].
  - intros s sm Hs. eapply not_waiting; [exact Hcp|exact Htp|simpl; congruence|done].
  - subst R'. case_decide; [apply Hc|]. apply insert_ordered_NoDup; [done|apply Hc].
  - intros u Hu. subst R'. case_decide; [done|]. rewrite insert_ordered_in. naive_solver.
  - done.
  - subst R'. case_decide; [by right|]. left. rewrite insert_ordered_in. by left.
  - intros u Hu [= ->]. done.
  - intros _. simpl. done.
Qed.

Lemma wp_check_preemption k th :
  at_work None None th k → plain (stack th) → shape (is_idle k) (level k) (stack th) →
  wp check_preemption k (λ _ k', inv k').
Proof.
  intros Haw Hpl Hsh. pose proof Haw as [Hc Ht Hst Hext]. unfold check_preemption.
  wp_step. apply wp_intr_disable. wp_steps.
  assert (wp (intr_set_level (level k) ;; mret tt) (set_level INTR_OFF k) (λ _ k', inv k')) as Hret.
  { wp_step. apply wp_intr_set_level; [by left|]. wp_steps.
    eapply at_work_return; [done| |done]. symmetry. auto with pintos. }
  simpl. destruct (ready_list k) as [|t R] eqn:HR; [done|].
  destruct (c_ready _ _ _ _ _ _ _ _ _ _ _ _ Hc t) as (tht & Htt & _); [rewrite HR; set_solver|].
  wp_step. eapply wp_get_thread; [done|]. wp_step. apply wp_thread_current; [by exists th|].
  wp_step. eapply wp_get_thread; [done|]. case_match; [|done].
  unfold intr_context. wp_steps. simpl. rewrite Hext. cbn [negb]. wp_step. eapply wp_push; [done|].
  eapply wp_thread_yield.
  - eapply (at_work_push None None th (set_level INTR_OFF k) (FSetLevel (level k)));
      [by split|by apply plain_not_down|done].
  - done.
  - done.
Qed.

(** ** Semaphores *)

(** The branch of [sema_down] that blocks. *)
Lemma wp_sema_block k th s sm old :
  threads k !! current k = Some th → status th = THREAD_RUNNING →
  in_external_intr k = false → level k = INTR_OFF →
  semas k !! s = Some sm → value sm = 0 →
  core None None None
    (<[current k := with_status THREAD_BLOCKED (with_stack (FSemaDown s old :: stack th) th)]> (threads k))
    (<[s := Semaphore (value sm) (Spec.insert_ordered (compare_priorities k) (current k) (waiters sm))]>
      (semas k)) (locks k) (conds k) (links k) (ready_list k) (sleep_list k) (idle_thread k) (ticks k) →
  wp (sema_down_loop s old) k (λ _ k', inv k').
Proof.
  intros Ht Hst Hext Hlvl Hs Hv Hc. unfold sema_down_loop. wp_step. eapply wp_get_sema; [done|].
  rewrite (proj2 (Z.eqb_eq (value sm) 0) Hv).
  wp_step. apply wp_thread_current; [by exists th|]. wp_steps. unfold put_sema. wp_steps.
  eapply wp_push; [done|]. simpl. unfold thread_block, intr_context, intr_get_level. wp_steps.
  apply wp_assert; [simpl; by rewrite Hext|]. wp_steps.
  apply wp_assert; [by apply bool_decide_true|]. wp_step. apply wp_thread_current.
  { eexists. simpl. rewrite lookup_insert_eq. done. }
  wp_step. eapply wp_mod_thread; [simpl; by rewrite lookup_insert_eq|].
  simpl. rewrite insert_insert_eq.
  eapply wp_schedule; simpl; [|by rewrite lookup_insert_eq|done|done|done]. exact Hc.
Qed.

Lemma wp_sema_down_loop k th s old w :
  at_work None w th k → (∀ s', w = Some s' → s' = s) → level k = INTR_OFF →
  frame_ok (semas k) (locks k) (conds k) (idle_thread k) (current k) (FSemaDown s old) →
  shape (is_idle k) INTR_OFF (FSemaDown s old :: stack th) →
  wp (sema_down_loop s old) k (λ _ k', inv k').
Proof.
  intros Haw Hw Hlvl Hf Hsh. pose proof Haw as [Hc Ht Hst Hext].
  pose proof Hf as ([sm Hs] & _ & _). pose proof Hsh as (_ & Hshr & Hbelow).
  assert (not_down (stack th)) as Hnd.
  { destruct s; [| |by apply plain_not_down..]; [by apply plain_not_down|].
    by destruct (stack th) as [|[] ?]. }
  destruct (Z.eqb_spec (value sm) 0) as [Hv|Hv].
  - eapply wp_sema_block; try done.
    eapply (core_block _ _ w); try done; [apply insert_ordered_perm|apply Hc|apply Hc|by left].
  - unfold sema_down_loop. wp_step. eapply wp_get_sema; [done|].
    rewrite (proj2 (Z.eqb_neq _ _) Hv). unfold put_sema. wp_steps.
    apply wp_intr_set_level; [by left|]. wp_steps.
    assert (0 ≤ value sm) as Hv0 by (by eapply (c_sema _ _ _ _ _ _ _ _ _ _ _ _ Hc)).
    assert (lock_value (locks k) None (in_transit (stack th)) s (value sm - 1)) as Hlv.
    { destruct s as [n|l|t|t]; simpl; try (by apply plain_transit, plain_not_got).
      destruct (stack th) as [|[| |l' ?| | | | | | | | |] r] eqn:Hstk; try done. simpl in *. subst l'.
      rewrite decide_True by done.
      destruct Hc. pose proof (c_frames _ _ Ht) as Hfr. rewrite Hstk in Hfr.
      inversion Hfr as [|? ? Hgot _]; subst. destruct Hgot as [[lk Hl] _].
      destruct (c_lock l lk Hl) as (sm' & Hs' & Hval). simplify_eq. unfold holder_of. rewrite Hl. simpl.
      destruct (holder lk); [lia|]. rewrite decide_False in Hval by done.
      split_and!; [done|lia|]. intros l' Hl'. split; [congruence|done]. }
    eapply (at_work_return (in_transit (stack th)) th _ old); [|done|done].
    split; [|done|done|done]. unfold kcore in *. simpl.
    eapply (core_value _ None _ w); try done; [lia| |].
    + intros t ->. destruct Hc. destruct (c_slept t sm Hs Hv) as [-> _]. done.
    + intros _. right. case_decide; lia.
Qed.

Lemma wp_sema_down k th s :
  at_work None None th k →
  frame_ok (semas k) (locks k) (conds k) (idle_thread k) (current k) (FSemaDown s (level k)) →
  shape (is_idle k) INTR_OFF (FSemaDown s (level k) :: stack th) →
  wp (sema_down s) k (λ _ k', inv k').
Proof.
  intros [Hc Ht Hst Hext] Hf Hsh. unfold sema_down, intr_context. wp_steps.
  apply wp_assert; [by rewrite Hext|]. wp_step. apply wp_intr_disable.
  eapply (wp_sema_down_loop _ th s (level k) None); [by split|done|done|done|done].
Qed.

(** The fields the wake-up leaves alone. *)
Definition cpu_eq (k k' : kernel) : Prop :=
  current k' = current k ∧ level k' = level k ∧ in_external_intr k' = in_external_intr k ∧
  idle_thread k' = idle_thread k ∧ locks k' = locks k ∧ conds k' = conds k ∧
  ticks k' = ticks k ∧ sleep_list k' = sleep_list k ∧
  ∀ t, tick_in (threads k') t = tick_in (threads k) t.

Lemma wp_thread_unblock k t th (Q : unit → kernel → Prop) :
  threads k !! t = Some th → status th = THREAD_BLOCKED → level k = INTR_OFF →
  Q tt (set_level INTR_OFF (set_threads (<[t := with_status THREAD_READY th]> (threads k))
    (set_ready_list (Spec.insert_ordered (compare_priorities k) t (ready_list k))
      (set_level INTR_OFF k)))) →
  wp (thread_unblock t) k Q.
Proof.
  intros Ht Hst Hlvl HQ. unfold thread_unblock. wp_step. eapply wp_get_thread; [done|].
  wp_step. apply wp_intr_disable. wp_step. apply wp_assert; [by apply bool_decide_true|].
  wp_steps. eapply wp_mod_thread; [done|]. wp_step. apply wp_intr_set_level; [by right|].
  wp_steps. by rewrite Hlvl.
Qed.

Lemma wp_sema_wake k r x x' s sm :
  kcore r x None k → semas k !! s = Some sm → level k = INTR_OFF →
  lock_value (locks k) x x' s (u32 (value sm + 1)) →
  (∀ u, s = SemSleep u → value sm = 0 ∧ u ∈ waiters sm ∧ u ∉ sleep_list k ∧
     ∃ th, threads k !! u = Some th ∧ tick_to_wake th ≤ ticks k) →
  wp (sema_wake s) k (λ _ k', kcore r x' None k' ∧ cpu_eq k k' ∧
    (∀ u th, threads k !! u = Some th → status th ≠ THREAD_BLOCKED → threads k' !! u = Some th) ∧
    (waiters sm ≠ [] → ∃ t, t ∈ waiters sm ∧ has_status (threads k') t THREAD_READY)).
Proof.
  intros Hc Hs Hlvl Hlv Hsl. unfold sema_wake. wp_step. eapply wp_get_sema; [done|]. wp_steps.
  pose proof (sort_list_perm (compare_priorities k) (waiters sm)) as Hperm.
  assert (0 ≤ value sm) as Hv0 by (by eapply (c_sema _ _ _ _ _ _ _ _ _ _ _ _ Hc)).
  assert (0 ≤ u32 (value sm + 1) ≤ value sm + 1) as Hv1.
  { split; [apply u32_range|]. apply Z.mod_le; lia. }
  destruct (sort_list (compare_priorities k) (waiters sm)) as [|t ws].
  - apply Permutation_nil_l in Hperm. wp_steps. eapply wp_get_sema; [done|].
    unfold put_sema. wp_steps. rewrite <-Hperm. split_and!; try done. unfold kcore in *. simpl. rewrite Hperm.
    eapply core_value; try done; [lia|].
    intros u ->. destruct (Hsl u eq_refl) as (_ & Hin & _). rewrite <-Hperm in Hin. set_solver.
  - destruct (c_wait _ _ _ _ _ _ _ _ _ _ _ _ Hc s sm t Hs) as [(th & Ht & Hst) (th' & o & q & Ht' & Hstk)];
      [rewrite <-Hperm; set_solver|]. simplify_eq.
    unfold put_sema. wp_steps. eapply wp_thread_unblock; [done|done|done|].
    wp_step. eapply wp_get_sema; [simpl; by rewrite lookup_insert_eq|]. wp_steps. simpl.
    split_and!; try done.
    + unfold kcore in *. simpl. rewrite insert_insert_eq.
      eapply core_unblock; [exact Hc|exact Hs|by symmetry|exact Ht|done|exact Hlv| |
        apply Hc|apply Hc|done|apply insert_ordered_perm].
      intros u ->. destruct (Hsl u eq_refl) as (-> & _ & HuQ & thu & Hthu & Htick).
      pose proof (c_frames _ _ _ _ _ _ _ _ _ _ _ _ Hc t th Ht) as Hf. rewrite Hstk in Hf.
      inversion Hf as [|? ? Hf1]; subst. destruct Hf1 as (_ & _ & ->). by simplify_eq.
    + split_and!; try done. intros u. simpl. by eapply tick_in_insert.
    + intros u thu Hu Hb. simpl. rewrite lookup_insert_ne; [done|]. intros ->. congruence.
    + intros _. exists t. split; [rewrite <-Hperm; set_solver|].
      eexists. simpl. by rewrite lookup_insert_eq.
Qed.

Lemma wp_sema_up k th x s sm :
  at_work x None th k → plain (stack th) → shape (is_idle k) (level k) (stack th) →
  semas k !! s = Some sm → (∀ u, s ≠ SemSleep u) →
  lock_value (locks k) x None s (u32 (value sm + 1)) →
  wp (sema_up s) k (λ _ k', inv k').
Proof.
  intros [Hc Ht Hst Hext] Hpl Hsh Hs Hsl Hlv. unfold sema_up. wp_step. apply wp_intr_disable.
  wp_step. eapply wp_mono; [eapply (wp_sema_wake _ _ x None s sm); try done; naive_solver|].
  intros _ k' (Hc' & (Hcur & Hlvl & Hext' & Hidl & _) & Hth & _). simpl in *.
  unfold intr_context. wp_steps. rewrite Hext', Hext. wp_step.
  eapply wp_push; [rewrite Hcur; apply Hth; [done|congruence]|].
  assert (at_work None None th k') as Haw.
  { split; [by rewrite Hcur|rewrite Hcur; apply Hth; [done|congruence]|done|congruence]. }
  eapply wp_check_preemption; [by apply at_work_push; [|apply plain_not_down|]|done|].
  unfold is_idle. simpl. by rewrite Hidl, Hcur.
Qed.
