(* ===== verification/LockSafe.v ===== *)
(** * Locks, donation and monitors keep the invariant *)
From S2P Require Import Prelude ListSpec KList KListFacts KListOps Kernel Thread Synch Timer KernelStep KernelCore KernelSafe.
Local Open Scope Z_scope.

(** ** [lock_waiting] *)
Section waiting.
Implicit Types (N : gmap Z node) (L : gmap Z lock).

Lemma wp_on_links {A} (m : M (gmap Z node) A) k (Q : A → kernel → Prop) :
  wp m (links k) (λ a h, Q a (set_links h k)) → wp (on_links m) k Q.
Proof. unfold wp, on_links. by destruct (m (links k)) as [[a h]|e]. Qed.

(** An element is appended to one list while it may be in others: each list
    still has a first element that is a lock, and the other lists the one they had. *)
Lemma wp_push_waiting L N t l :
  waiting_header L N t → is_Some (L !! l) →
  (∀ l, is_Some (L !! l) → is_Some (N !! waiting_elem l)) →
  wp (list_push_back (lock_waiting t) (waiting_elem l)) N (λ _ N',
    (∀ u, waiting_header L N u → waiting_header L N' u) ∧
    (∀ l, is_Some (L !! l) → is_Some (N' !! waiting_elem l)) ∧
    (∀ u, u ≠ t → nx N' (l_head (lock_waiting u)) = nx N (l_head (lock_waiting u)))).
Proof.
  intros (n & tp & Hn & Htp & Ht0 & Hor) Hl Helem.
  unfold lock_waiting, waiting_elem, NULL in *. simpl in *.
  assert (is_Some (N !! (4 * t + 1))) by (apply nx_is_Some; eauto).
  assert (tp ≠ 0 ∧ is_Some (N !! tp) ∧ tp ≠ 4 * t + 2 ∧ (∀ u, tp = 4 * u + 1 → u = t) ∧
          (∀ u, tp ≠ 4 * u + 2)) as (Htp0 & Htpc & Htp2 & Htp1 & Htp3).
  { destruct Hor as [[_ ->]|(a & b & _ & _ & -> & Hb)].
    - split_and!; [lia|done|lia|intros; lia|intros; lia].
    - split_and!; [lia|by apply Helem|lia|intros; lia|intros; lia]. }
  unfold list_push_back, list_end. wp_steps.
  apply (wp_list_insert_cells _ _ _ tp 0); unfold NULL; cbn [l_head l_tail];
    [lia|done|done|done|lia|lia|done|by apply Helem|].
  assert (is_Some (N !! (4 * t + 2))) by (apply pv_is_Some; eauto).
  pose proof (Helem l Hl). split_and!.
  - intros u (n' & tp' & Hn' & Htp' & Ht0' & Hor'). unfold waiting_header, lock_waiting, waiting_elem. simpl.
    destruct (decide (u = t)) as [->|Hut].
    + simplify_eq. exists (if decide (tp = 4 * t + 1) then 4 * l + 3 else n), (4 * l + 3).
      unfold inserted. split_and!.
      * autorewrite with cells. destruct (decide (tp = 4 * t + 1)) as [->|].
        -- rewrite decide_False by lia. by rewrite const_nx.
        -- by rewrite decide_False by lia.
      * autorewrite with cells. rewrite decide_True, decide_False by (done || lia).
        by rewrite const_pv.
      * autorewrite with cells. rewrite !decide_False by lia. done.
      * right. destruct (decide (tp = 4 * t + 1)); [by exists l, l|].
        destruct Hor as [[_ ?]|(a & b & -> & Ha & -> & Hb)]; [done|]. by exists a, l.
    + exists n', tp'. unfold inserted. split_and!; [..|done].
      * autorewrite with cells. rewrite decide_False by (intros ->; apply Hut; by apply Htp1).
        by rewrite decide_False by lia.
      * autorewrite with cells. by rewrite !decide_False by lia.
      * autorewrite with cells. by rewrite !decide_False by (lia || done).
  - intros l' Hl'. unfold inserted. autorewrite with cells. by apply Helem.
  - intros u Hut. unfold inserted. autorewrite with cells. rewrite decide_False by (intros E; apply Hut; by apply Htp1).
    by rewrite decide_False by lia.
Qed.

Lemma wp_waiting_begin N L k t (Q : Z → kernel → Prop) n :
  links k = N → nx N (l_head (lock_waiting t)) = Some n → waiting_header L N t →
  Q n k → wp (on_links (list_begin (lock_waiting t))) k Q.
Proof.
  intros <- Hn _ HQ. apply wp_on_links. unfold list_begin. eapply wp_get_next; [done|]. by destruct k.
Qed.
End waiting.

(** ** Donation *)

(** Priorities below [p] may have been raised to [p]; nothing else changed. *)
Definition raised (p : Z) (T T' : gmap Z thread) : Prop :=
  ∀ t, T' !! t = T !! t ∨
    ∃ th, T !! t = Some th ∧ priority th < p ∧ T' !! t = Some (with_priority p th).

Lemma raised_sim p T T' : raised p T T' → threads_sim T T'.
Proof.
  intros H t. destruct (H t) as [->|(th & -> & _ & ->)]; [reflexivity|by constructor].
Qed.
Lemma raised_set p T T' t th :
  raised p T T' → T' !! t = Some th → priority th < p → raised p T (<[t := with_priority p th]> T').
Proof.
  intros H Ht Hp u. rewrite lookup_insert. case_decide; [subst u|by apply H]. right.
  destruct (H t) as [E|(th0 & H0 & Hp0 & E)].
  - exists th. by rewrite <-E.
  - exists th0. split_and!; [done..|]. rewrite Ht in E. by simplify_eq.
Qed.

(** The threads that can still be raised. *)
Definition below (p : Z) (T : gmap Z thread) : nat :=
  size (filter (λ '(_, th), priority th < p) T).
Lemma below_le p T : (below p T ≤ size T)%nat.
Proof.
  unfold below. rewrite <-!size_dom. apply subseteq_size, dom_filter_subseteq.
Qed.
Lemma below_raise p T t th :
  T !! t = Some th → priority th < p → (below p (<[t := with_priority p th]> T) < below p T)%nat.
Proof.
  intros Ht Hp. unfold below. rewrite map_filter_insert_False by (simpl; lia).
  rewrite map_filter_delete. set (F := filter _ T).
  assert (F !! t = Some th) as Hf by (by apply map_lookup_filter_Some).
  rewrite map_size_delete, Hf. assert (size F ≠ O); [|lia].
  intros E%map_size_empty_inv. by rewrite E in Hf.
Qed.

(** The state of the donation loop that started in [k]: the current thread has
    priority [p]. *)
Record donating (k : kernel) (p : Z) (k' : kernel) : Prop := {
  dn_state : k' = set_locks (locks k') (set_threads (threads k') k);
  dn_raised : raised p (threads k) (threads k');
  dn_locks : locks_sim (locks k) (locks k');
}.

(** The holder of the first lock in [t]'s [lock_waiting]: where the donation
    goes on after [t]. *)
Definition next_holder (k : kernel) (t : Z) : option Z :=
  match nx (links k) (l_head (lock_waiting t)) with
  | Some e => if decide (e = l_tail (lock_waiting t)) then None
              else holder_of (locks k) (lock_of_elem e)
  | None => None
  end.

(** The threads that the loop with priority [p] goes through from [h] on: it goes on
    behind a thread only when it raised that thread.  (These are the threads that
    wait for each other as long as the lists are not stale, see KernelProps.v.) *)
Inductive donee (k : kernel) (p h : Z) : Z → Prop :=
| donee_first : donee k p h h
| donee_next t u : donee k p h t → prio k t < p → next_holder k t = Some u → donee k p h u.

Section donate.
Context (k : kernel) (th : thread) (Haw : at_work None None th k).
Local Abbreviation p := (priority th).

(** What the loop has done when [cur] is the thread it looks at: it has raised
    only donees, and it still has to look at a donee only if that is [cur]. *)
Record donated (h : Z) (cur : option Z) (k' : kernel) : Prop := {
  dd_cur t : cur = Some t → donee k p h t;
  dd_only t : prio k' t ≠ prio k t → donee k p h t;
  dd_first : p ≤ prio k' h ∨ cur = Some h;
  dd_next v u : prio k v < p → p ≤ prio k' v → next_holder k v = Some u → p ≤ prio k' u ∨ cur = Some u;
}.

Lemma donated_done h cur k' :
  donated h cur k' → (∀ t, cur = Some t → p ≤ prio k' t) → ∀ t, donee k p h t → p ≤ prio k' t.
Proof.
  intros [_ _ H1 Hn] Hc t. induction 1 as [|t u _ IH Hlt Hu].
  - destruct H1; auto.
  - destruct (Hn t u Hlt IH Hu); auto.
Qed.

Lemma donated_turn h t cur' k1 k2 :
  donated h (Some t) k1 → prio k t < p → next_holder k t = cur' →
  (∀ u, prio k2 u = if decide (u = t) then p else prio k1 u) →
  donated h cur' k2.
Proof.
  intros [Hcur Honly H1 Hn] Hlt <- Hp.
  assert (∀ u, p ≤ prio k1 u ∨ Some t = Some u → p ≤ prio k2 u) as Hup.
  { intros u Hu. rewrite Hp. case_decide; [lia|]. destruct Hu as [|[= ->]]; done. }
  split.
  - intros u Hu. by eapply donee_next; [apply Hcur|..].
  - intros u Hu. rewrite Hp in Hu. case_decide; [subst; auto|auto].
  - left. by apply Hup.
  - intros v u Hv Hv2 Hu. rewrite Hp in Hv2. case_decide as E; [subst v; by right|].
    left. apply Hup. eauto.
Qed.

Lemma donating_refl : donating k p k.
Proof. split; [by destruct k|intros t; by left|done]. Qed.

Lemma donating_current k' : donating k p k' → threads k' !! current k' = Some th ∧ current k' = current k.
Proof.
  intros [Hk' Hr _]. destruct Haw as [_ Ht _ _]. rewrite Hk'. simpl. split; [|done].
  destruct (Hr (current k)) as [->|(th' & Ht' & Hp & _)]; [done|]. simplify_eq. lia.
Qed.

Lemma donating_core k' : donating k p k' → at_work None None th k'.
Proof.
  intros Hd. destruct (donating_current k' Hd) as [Ht Hcur]. destruct Hd as [Hk' Hr Hl].
  destruct Haw as [Hc _ Hst Hext]. split; [|done|done|by rewrite Hk'].
  rewrite Hcur. unfold kcore in *. rewrite Hk'. simpl.
  eapply core_sim; [by eapply raised_sim|done|done].
Qed.

(** One turn of the loop, at a thread that must be raised. *)
Lemma donating_turn k' l lk t tht :
  donating k p k' → threads k' !! t = Some tht → priority tht < p → locks k' !! l = Some lk →
  donating k p
    (set_locks (if max_priority lk <? p then <[l := Lock (holder lk) p]> (locks k') else locks k')
      (set_threads (<[t := with_priority p tht]> (threads k')) k')).
Proof.
  intros [Hk' Hr Hl] Ht Hp Hlk. split; simpl.
  - rewrite Hk'. done.
  - by apply raised_set.
  - case_match; [|done]. etrans; [done|]. by apply locks_sim_insert.
Qed.

Lemma donating_next k' t : donating k p k' → next_holder k' t = next_holder k t.
Proof.
  intros [Hk' _ Hl]. unfold next_holder. rewrite Hk'. simpl.
  case_match; [|done]. case_decide; [done|]. by apply holder_of_sim.
Qed.

Lemma donating_prio k' t : donating k p k' → prio k' t < p → prio k t < p.
Proof.
  intros [_ Hr _]. unfold prio. destruct (Hr t) as [->|(th' & -> & ? & ->)]; [done|]. simpl. lia.
Qed.

Lemma wp_donate l h :
  is_Some (locks k !! l) → is_Some (threads k !! h) →
  wp (donate l (Some h)) k (λ _ k', donating k p k' ∧
    (∀ t, donee k p h t → p ≤ prio k' t) ∧ (∀ t, prio k' t ≠ prio k t → donee k p h t)).
Proof.
  intros Hl Hh. unfold donate.
  apply (wp_loop (λ n '(l, t) k', n = below p (threads k') ∧ donating k p k' ∧
    is_Some (locks k' !! l) ∧ (∀ u, t = Some u → is_Some (threads k' !! u)) ∧
    donated h t k') id) with (g := below p (threads k)).
  2: { split_and!; [done|by apply donating_refl|done|by intros ? [= ->]|].
       split; [intros ? [= <-]; constructor|done|by right|]. intros; lia. }
  2: { unfold id. pose proof (below_le p (threads k)). lia. }
  intros n [l' [t|]] k' (-> & Hd & [lk Hlk] & Hex & Hdd); cycle 1.
  { wp_steps. split_and!; [done| |apply Hdd]. by eapply donated_done. }
  destruct (Hex t eq_refl) as [tht Htt]. pose proof (donating_core k' Hd) as Haw'.
  pose proof Haw' as [Hc Hcur _ _].
  assert (prio k' t = priority tht) as Hpt by (unfold prio; by rewrite Htt).
  wp_step. apply wp_thread_current; [eauto with pintos|].
  wp_step. eapply wp_get_thread; [done|]. wp_step. eapply wp_get_thread; [done|].
  destruct (Z.ltb_spec (priority tht) p) as [Hlt|Hge].
  2: { wp_steps. split_and!; [done| |apply Hdd]. eapply donated_done; [done|].
       intros ? [= <-]. by rewrite Hpt. }
  wp_step. eapply wp_mod_thread; [done|]. wp_step. eapply wp_get_thread; [simpl; by rewrite lookup_insert_eq|].
  wp_step. eapply wp_get_lock; [done|]. simpl priority. wp_step.
  pose proof (donating_turn _ _ _ _ _ Hd Htt Hlt Hlk) as Hd'.
  match type of Hd' with donating _ _ ?k2 => set (k2' := k2) in * end.
  eapply (wp_mono _ _ (λ _ s, s = k2')).
  { unfold put_lock. subst k2'. case_match; wp_steps; [done|]. destruct k'; done. }
  intros _ ? ->. pose proof (donating_core k2' Hd') as [Hc2 _ _ _].
  assert (donated h (next_holder k t) k2') as Hdd'.
  { eapply donated_turn; [exact Hdd|apply (donating_prio k' t Hd); lia|done|].
    intros u. unfold prio, k2'. simpl. rewrite lookup_insert. by repeat case_decide. }
  rewrite <-(donating_next k2' t Hd') in Hdd'. unfold next_holder in Hdd'.
  destruct (c_header _ _ _ _ _ _ _ _ _ _ _ _ Hc2 t) as (nn & tp & Hnn & _ & _ & Hhdr).
  { unfold k2'. simpl. rewrite lookup_insert_eq. eauto. }
  rewrite Hnn in Hdd'.
  wp_step. apply wp_on_links. unfold list_empty, list_end. wp_step.
  eapply wp_get_next; [done|]. wp_steps.
  assert (set_links (links k2') k2' = k2') as Hid by done. rewrite Hid.
  destruct (Z.eqb_spec nn (l_tail (lock_waiting t))) as [->|Hne].
  { rewrite decide_True in Hdd' by done. wp_steps. split_and!; [done| |apply Hdd'].
    by eapply donated_done. }
  rewrite decide_False in Hdd' by done.
  destruct Hhdr as [[? _]|(a & b & -> & [lka Ha] & _)]; [done|].
  wp_step. apply wp_on_links. unfold list_begin. eapply wp_get_next; [done|].
  rewrite Hid. assert (lock_of_elem (waiting_elem a) = a) as Hent.
  { unfold lock_of_elem, waiting_elem. rewrite Z.add_simpl_r, Z.mul_comm. by apply Z.div_mul. }
  rewrite Hent in *. wp_step. eapply wp_get_lock; [done|]. wp_steps.
  unfold holder_of in Hdd'. rewrite Ha in Hdd'.
  exists (below p (threads k2')). split_and!; [done|done|eauto| |done|].
  - intros u Hu. assert (holder_of (locks k2') a = Some u) as Hho by (unfold holder_of; by rewrite Ha).
    apply (c_hold _ _ _ _ _ _ _ _ _ _ _ _ Hc2) in Hho as (thu & ? & _). eauto.
  - unfold id, k2'. simpl. by apply below_raise.
Qed.
End donate.

(** ** Acquiring *)

Lemma wp_lock_held k th l lk (Q : bool → kernel → Prop) :
  has_status (threads k) (current k) THREAD_RUNNING → locks k !! l = Some lk →
  threads k !! current k = Some th →
  Q (bool_decide (holder_of (locks k) l = Some (current k))) k →
  wp (lock_held_by_current_thread l) k Q.
Proof.
  intros Hrun Hl _ HQ. unfold lock_held_by_current_thread. wp_step. eapply wp_get_lock; [done|].
  wp_step. apply wp_thread_current; [done|]. wp_steps. unfold holder_of in HQ. by rewrite Hl in HQ.
Qed.

(** [sema_down] on the lock's semaphore, [lock_acquire]'s own frame saved. *)
Lemma wp_lock_down k th l old :
  at_work None None th k → stack th = [] → level k = INTR_OFF → old = INTR_ON →
  idle_thread k ≠ Some (current k) →
  is_Some (locks k !! l) → holder_of (locks k) l ≠ Some (current k) →
  wp (push (FLockGot l old) ;; sema_down (SemLock l)) k (λ _ k', inv k').
Proof.
  intros Haw Hstk Hlvl -> Hidle [lk Hl] Hnh. pose proof Haw as [Hc Ht Hst Hext].
  wp_step. eapply wp_push; [done|].
  destruct (c_lock _ _ _ _ _ _ _ _ _ _ _ _ Hc l lk Hl) as (sm & Hsm & _).
  eapply wp_sema_down.
  - apply (at_work_push _ _ _ _ (FLockGot l INTR_ON) Haw); [by rewrite Hstk|]. simpl. eauto.
  - simpl. rewrite Hsm. eauto.
  - simpl. rewrite Hlvl, Hstk. unfold is_idle. by rewrite bool_decide_false.
Qed.

(** The lock is held by another thread: its holder, and whoever that one waits
    for in turn, get the running thread's priority. *)
Lemma wp_donate_to_holder k th l h :
  at_work None None th k → holder_of (locks k) l = Some h →
  wp (donate_to_holder l) k (λ _ k', ∃ N,
    list_push_back (lock_waiting (current k)) (waiting_elem l) (links k) = Ok (tt, N) ∧
    at_work None None th (set_links N k) ∧
    donating (set_links N k) (priority th) k' ∧
    (∀ u, u ≠ current k → nx N (l_head (lock_waiting u)) = nx (links k) (l_head (lock_waiting u))) ∧
    let p := priority th in
    (∀ t, donee (set_links N k) p h t → p ≤ prio k' t) ∧
    (∀ t, prio k' t ≠ prio k t → donee (set_links N k) p h t)).
Proof.
  intros Haw Hho. pose proof Haw as [Hc Ht Hst Hext]. pose proof Hc as Hc'. destruct Hc'.
  assert (is_Some (threads k !! h)) as Hhe by (apply c_hold in Hho as (? & ? & _); eauto).
  unfold holder_of in Hho. destruct (locks k !! l) as [lk|] eqn:Hl; [simpl in Hho|done].
  unfold donate_to_holder. wp_step. eapply wp_get_lock; [done|]. rewrite Hho.
  wp_step. apply wp_thread_current; [by exists th|]. wp_step. apply wp_on_links.
  pose proof (wp_push_waiting (locks k) (links k) (current k) l) as Hpush.
  apply wp_ok in Hpush as ([] & N' & Hpush & Hhdr & Helem & Hrest); [|apply c_header; eauto|rewrite Hl; eauto|exact c_elem].
  apply wp_ok. exists tt, N'. split; [done|].
  assert (at_work None None th (set_links N' k)) as Haw1.
  { split; [|done|done|done]. eapply core_links; [apply Haw|auto|done]. }
  eapply wp_mono; [apply (wp_donate _ th Haw1 l h); [simpl; eauto|done]|].
  intros _ k2 (? & ? & ?). exists N'. by split_and!.
Qed.

Lemma wp_lock_acquire k th l :
  at_work None None th k → stack th = [] → level k = INTR_ON →
  idle_thread k ≠ Some (current k) →
  is_Some (locks k !! l) → holder_of (locks k) l ≠ Some (current k) →
  wp (lock_acquire l) k (λ _ k', inv k').
Proof.
  intros Haw Hstk Hlvl Hidle [lk Hl] Hnh. pose proof Haw as [Hc Ht Hst Hext].
  unfold lock_acquire, intr_context. wp_steps. apply wp_assert; [by rewrite Hext|]. wp_step.
  eapply wp_lock_held; [eauto with pintos|done|done|].
  wp_step. apply wp_assert; [by rewrite bool_decide_false|]. wp_step. apply wp_intr_disable.
  rewrite Hlvl. wp_step. destruct (holder_of (locks k) l) as [h|] eqn:Hh.
  - eapply wp_mono; [apply (wp_donate_to_holder _ th l h); [by split|done]|].
    intros _ k2 (N & _ & Haw1 & Hd & _). pose proof (donating_core _ th Haw1 k2 Hd) as Haw2.
    destruct (donating_current _ th Haw1 k2 Hd) as [_ Hcur2]. destruct Hd as [Hk2 _ HL]. simpl in *.
    apply (wp_lock_down k2 th); [done|done|by rewrite Hk2|done| | |].
    + rewrite Hcur2, Hk2. done.
    + apply (locks_sim_is_Some (locks k) (locks k2)); [done|eauto].
    + rewrite Hcur2, (holder_of_sim (locks k) (locks k2)), Hh by done. done.
  - unfold donate_to_holder. wp_step. eapply wp_get_lock; [done|].
    unfold holder_of in Hh. rewrite Hl in Hh. simpl in Hh. rewrite Hh.
    wp_step. apply (wp_lock_down _ th); try done. unfold holder_of. simpl. rewrite Hl.
    simpl. by rewrite Hh.
Qed.

(** The semaphore is down: the lock becomes the thread's. *)
Lemma wp_lock_acquired k th l old :
  at_work (Some l) None th k → stack th = [] → level k = INTR_OFF → old = INTR_ON →
  is_idle k = false → is_Some (locks k !! l) →
  wp (lock_acquired l old) k (λ _ k', inv k').
Proof.
  intros [Hc Ht Hst Hext] Hstk Hlvl -> Hidle [lk Hl]. pose proof Hc as Hc'. destruct Hc'.
  destruct (c_lock l lk Hl) as (sm & Hsm & Hval).
  destruct (holder lk) as [u|] eqn:Hh; [by destruct Hval|]. rewrite decide_True in Hval by done.
  assert (l ∉ lock_holding th) as Hnl.
  { intros Hin. assert (holder_of (locks k) l = Some (current k)) as Hho by (apply c_hold; eauto).
    unfold holder_of in Hho. rewrite Hl in Hho. simpl in Hho. congruence. }
  unfold lock_acquired. wp_step. apply wp_thread_current; [by exists th|]. wp_steps.
  eapply wp_mod_thread; [done|]. wp_step. eapply wp_get_lock; [done|]. unfold put_lock. wp_steps.
  apply wp_intr_set_level; [by left|]. wp_steps.
  set (hl := Spec.insert_ordered (compare_priorities_lock k) l (lock_holding th)).
  eapply (at_work_return None (with_lock_holding hl th)); [|by simpl; rewrite Hstk|].
  2: { simpl. by rewrite Hstk. }
  split; [|simpl; by rewrite lookup_insert_eq|done|done]. unfold kcore. simpl.
  eapply core_relock; try done; simpl.
  - by rewrite Hstk.
  - intros u. by rewrite Hh.
  - by intros u [= ->].
  - apply insert_ordered_NoDup; [done|by eapply c_hold_nodup].
  - intros l' Hl'. subst hl. rewrite insert_ordered_in. naive_solver.
  - subst hl. rewrite insert_ordered_in. naive_solver.
  - rewrite Hstk. constructor.
  - intros l' Hl'. split; [done|]. by intros [= ->].
Qed.

(** ** Releasing *)

(** The greatest of a thread's own priority and the priorities donated through
    the locks [ls]. *)
Definition effective_priority (k : kernel) (own : Z) (ls : list Z) : Z :=
  foldr (λ l, Z.max (lock_prio k l)) own ls.

Lemma effective_priority_spec k own ls m :
  (∀ l, l ∈ ls → lock_prio k l ≤ lock_prio k m) → m ∈ ls →
  effective_priority k own ls = Z.max own (lock_prio k m).
Proof.
  unfold effective_priority. intros Hle Hin. apply Z.le_antisymm.
  - clear Hin. induction ls as [|l ls IH]; simpl; [lia|].
    assert (lock_prio k l ≤ lock_prio k m) by (apply Hle; left).
    set (f := foldr _ own ls) in *. assert (f ≤ Z.max own (lock_prio k m)); [|lia].
    apply IH. intros. apply Hle. by right.
  - clear Hle. apply list_elem_of_split in Hin as (l1 & l2 & ->).
    assert (own ≤ foldr (λ l, Z.max (lock_prio k l)) own l2) by (induction l2; simpl; lia).
    induction l1; simpl; lia.
Qed.

Lemma priority_after_release_spec k th :
  priority_after_release k th = effective_priority k (old_priority th) (lock_holding th).
Proof.
  unfold priority_after_release. destruct (lock_holding th) as [|x xs]; [done|].
  change (compare_priorities_lock k) with (by_key (lock_prio k)).
  set (m := Spec.max (by_key (lock_prio k)) x xs).
  rewrite (effective_priority_spec k (old_priority th) (x :: xs) m).
  - cbn zeta. destruct (Z.ltb_spec (old_priority th) (lock_prio k m)); lia.
  - intros l Hl. pose proof (max_upper_bound (by_key (lock_prio k)) x xs l Hl) as Hle.
    unfold not_after, by_key in Hle. by apply Z.ltb_ge in Hle.
  - apply max_in, _.
Qed.

Lemma effective_priority_ext k k' own ls :
  (∀ l, l ∈ ls → lock_prio k l = lock_prio k' l) →
  effective_priority k own ls = effective_priority k' own ls.
Proof.
  unfold effective_priority. intros H. induction ls as [|l ls IH]; simpl; [done|].
  rewrite IH by (intros; apply H; by right). rewrite H by left. done.
Qed.

(** The locks a thread still holds once [l] is gone, and the priority donated
    through [l] to its next holder. *)
Definition other_locks (l : Z) (th : thread) : list Z := filter (λ x, x ≠ l) (lock_holding th).
Definition second_priority (k : kernel) (sm : semaphore) : Z :=
  match waiters sm with _ :: u :: _ => prio k u | _ => 0 end.

(** The state of a thread that has just given up lock [l]. *)
Definition dropped (k : kernel) (l : Z) (th : thread) (sm : semaphore) (k' : kernel) : Prop :=
  k' = set_locks (<[l := Lock None (second_priority k sm)]> (locks k))
    (set_threads (<[current k :=
      with_priority (effective_priority k (old_priority th) (other_locks l th))
        (with_lock_holding (other_locks l th) th)]> (threads k)) k).

Lemma wp_lock_drop k th l lk sm :
  threads k !! current k = Some th → status th = THREAD_RUNNING →
  locks k !! l = Some lk → semas k !! SemLock l = Some sm →
  (∀ u, u ∈ waiters sm → is_Some (threads k !! u)) → l ∈ lock_holding th →
  wp (lock_drop l) k (λ _ k', dropped k l th sm k').
Proof.
  intros Ht Hst Hl Hsm Hws Hin. unfold lock_drop, put_lock. wp_step. eapply wp_get_sema; [done|].
  wp_step. eapply wp_get_lock; [done|]. wp_step.
  eapply (wp_mono _ _ (λ _ k',
    k' = set_locks (<[l := Lock (holder lk) (second_priority k sm)]> (locks k)) k)).
  { unfold second_priority, prio. destruct (waiters sm) as [|u1 [|u2 us]]; [by wp_steps..|].
    destruct (Hws u2) as [thu Hu]; [set_solver|]. wp_step. eapply wp_get_thread; [done|].
    wp_steps. by rewrite Hu. }
  intros _ ? ->. wp_step. apply wp_thread_current; [by exists th|].
  unfold remove_holding. wp_steps. eapply wp_get_thread; [done|]. rewrite decide_True by done.
  eapply wp_mod_thread; [done|]. wp_step. eapply wp_get_thread; [simpl; by rewrite lookup_insert_eq|].
  wp_steps. eapply wp_mod_thread; [simpl; by rewrite lookup_insert_eq|].
  wp_step. eapply wp_get_lock; [simpl; by rewrite lookup_insert_eq|]. wp_steps.
  rewrite priority_after_release_spec. simpl old_priority. simpl lock_holding.
  erewrite (effective_priority_ext _ k); [unfold dropped, set_threads, set_locks; simpl; by rewrite !insert_insert_eq|].
  intros x Hx. apply list_elem_of_filter in Hx as [Hx _].
  unfold lock_prio. simpl. by rewrite lookup_insert_ne.
Qed.

Lemma wp_lock_release k th l :
  core (Some (current k)) None None (<[current k := with_stack [] th]> (threads k)) (semas k) (locks k)
    (conds k) (links k) (ready_list k) (sleep_list k) (idle_thread k) (ticks k) →
  threads k !! current k = Some th → status th = THREAD_RUNNING →
  in_external_intr k = false → level k = INTR_ON → is_idle k = false →
  stack th = [] ∨ stack th = [FCondDown l] ∧ is_Some (semas k !! SemWaiter (current k)) →
  holder_of (locks k) l = Some (current k) →
  wp (lock_release l) k (λ _ k', inv k').
Proof.
  intros Hc Ht Hst Hext Hlvl Hidle Hstk Hho. pose proof Hc as Hc'. destruct Hc'.
  assert (∃ lk, locks k !! l = Some lk ∧ holder lk = Some (current k)) as (lk & Hl & Hlh).
  { unfold holder_of in Hho. destruct (locks k !! l); [eauto|done]. }
  destruct (c_lock l lk Hl) as (sm & Hsm & Hval). rewrite Hlh in Hval. destruct Hval as [Hv0 _].
  assert (l ∈ lock_holding th) as Hin.
  { apply c_hold in Hho as (th' & Hth' & ?). rewrite lookup_insert_eq in Hth'. by simplify_eq. }
  assert (plain (stack th) ∧ shape false INTR_ON (stack th)) as [Hpl Hsh]
    by (destruct Hstk as [->|[-> _]]; done).
  unfold lock_release. wp_step. eapply wp_lock_held; [by exists th|done|done|].
  wp_step. apply wp_assert; [by apply bool_decide_true|]. wp_step. apply wp_intr_disable.
  rewrite Hlvl. wp_step. eapply wp_mono; [eapply (wp_lock_drop _ th l lk sm); try done|].
  { intros u Hu. destruct (c_wait _ _ _ Hsm Hu) as [(thu & Hthu & _) _].
    apply (is_Some_insert_same _ _ _ (with_stack [] th) u Ht). eauto. }
  intros _ k' ->. simpl.
  set (th' := with_priority _ (with_lock_holding (other_locks l th) th)). unfold other_locks in *.
  match goal with |- wp _ ?k' _ => assert (at_work (Some l) None th' k') as Haw end.
  { split; [|simpl; by rewrite lookup_insert_eq|done|done]. unfold kcore. simpl.
    rewrite <-(insert_insert_eq (threads k) (current k) th' (with_stack [] th)).
    eapply core_relock; [exact Hc|by rewrite lookup_insert_eq|done|done|done|done| |exact Hl|exact Hsm|..]; simpl.
    - set_solver.
    - intros u. rewrite Hlh. by intros [= ->].
    - done.
    - apply NoDup_filter. specialize (c_hold_nodup (current k) (with_stack [] th)).
      apply c_hold_nodup. by rewrite lookup_insert_eq.
    - intros l' Hl'. rewrite list_elem_of_filter. naive_solver.
    - rewrite list_elem_of_filter. naive_solver.
    - destruct Hstk as [->|[-> ?]]; repeat constructor; simpl; unfold holder_of;
        rewrite ?lookup_insert_eq; eauto.
    - by rewrite decide_True.
    - intros l' Hl'. split; [by intros [= ->]|done]. }
  wp_step. eapply wp_push; [apply Haw|].
  eapply (wp_sema_up _ _ (Some l) _ sm).
  - apply (at_work_push _ _ _ _ (FSetLevel INTR_ON) Haw); [by apply plain_not_down|done].
  - done.
  - simpl. unfold is_idle in *. simpl. rewrite Hidle. done.
  - done.
  - done.
  - simpl. unfold holder_of. rewrite lookup_insert_eq, Hv0. split_and!; [done|done|].
    intros l' Hl'. split; [done|]. by intros [= ->].
Qed.

(** ** Monitors *)

Lemma wp_cond_wait k th c l :
  at_work None None th k → stack th = [] → level k = INTR_ON → is_idle k = false →
  is_Some (conds k !! c) → holder_of (locks k) l = Some (current k) →
  wp (cond_wait c l) k (λ _ k', inv k').
Proof.
  intros [Hc Ht Hst Hext] Hstk Hlvl Hidle [ws Hws] Hho. pose proof Hc as Hc'. destruct Hc'.
  assert (is_Some (locks k !! l)) as [lk Hl].
  { unfold holder_of in Hho. by destruct (locks k !! l). }
  assert (∀ sm, semas k !! SemWaiter (current k) = Some sm → waiters sm = []) as Hnw.
  { intros sm Hsm. destruct (waiters sm) as [|u us] eqn:E; [done|].
    destruct (c_wait _ sm u Hsm) as [(thu & Hu & Hb) (thu' & o & r & Hu' & Hstk')]; [rewrite E; set_solver|].
    simplify_eq. pose proof (c_frames u thu Hu) as Hf. rewrite Hstk' in Hf.
    inversion Hf as [|? ? Hf1]; subst. destruct Hf1 as (_ & _ & <-). congruence. }
  unfold cond_wait, intr_context. wp_steps. apply wp_assert; [by rewrite Hext|].
  wp_step. eapply wp_lock_held; [by exists th|done|done|].
  wp_step. apply wp_assert; [by apply bool_decide_true|].
  wp_step. apply wp_thread_current; [by exists th|]. unfold sema_init, put_sema. wp_steps.
  unfold thread_get_priority. wp_steps. apply wp_thread_current; [by exists th|].
  wp_step. eapply wp_get_thread; [done|]. wp_steps. eapply wp_get_cond; [done|]. unfold put_cond. wp_steps.
  eapply wp_push; [done|]. simpl.
  eapply (wp_lock_release _ (with_stack (FCondDown l :: stack th) th)); simpl; try done.
  - rewrite insert_insert_eq.
    replace (with_stack [] (with_stack (FCondDown l :: stack th) th)) with th
      by (destruct th; simpl in *; by subst).
    rewrite insert_id by done. eapply core_cond; [eapply core_new_sema; try done|].
    intros p t [[= -> ->]|Hin]%insert_ordered_in; [rewrite lookup_insert_eq; eauto|].
    apply is_Some_insert_sema. by eapply c_cond.
  - by rewrite lookup_insert_eq.
  - right. rewrite Hstk, lookup_insert_eq. eauto.
Qed.

Lemma wp_cond_wait_down k th l :
  at_work None None th k → stack th = [] → level k = INTR_ON → is_idle k = false →
  frame_ok (semas k) (locks k) (conds k) (idle_thread k) (current k) (FCondLock l) →
  wp (cond_wait_down l) k (λ _ k', inv k').
Proof.
  intros Haw Hstk Hlvl Hidle Hf. pose proof Haw as [Hc Ht Hst Hext]. pose proof Hf as (_ & _ & [sm Hsm]).
  unfold cond_wait_down. wp_step. apply wp_thread_current; [eauto with pintos|].
  wp_step. eapply wp_push; [done|]. eapply wp_sema_down.
  - apply (at_work_push _ _ _ _ (FCondLock l) Haw); [by rewrite Hstk|done].
  - simpl. split_and!; [eauto| |done]. unfold is_idle in Hidle. by apply bool_decide_eq_false in Hidle.
  - simpl. rewrite Hlvl, Hstk. unfold is_idle in *. simpl. by rewrite Hidle.
Qed.

Lemma wp_cond_signal k th c l :
  at_work None None th k → plain (stack th) → shape (is_idle k) (level k) (stack th) →
  is_Some (conds k !! c) → holder_of (locks k) l = Some (current k) →
  wp (cond_signal c l) k (λ _ k', inv k').
Proof.
  intros Haw Hpl Hsh [ws Hws] Hho. pose proof Haw as [Hc Ht Hst Hext].
  assert (is_Some (locks k !! l)) as [lk Hl].
  { unfold holder_of in Hho. by destruct (locks k !! l). }
  unfold cond_signal, intr_context. wp_steps. apply wp_assert; [by rewrite Hext|].
  wp_step. eapply wp_lock_held; [by exists th|done|done|].
  wp_step. apply wp_assert; [by apply bool_decide_true|]. wp_step. eapply wp_get_cond; [done|].
  destruct ws as [|[p t] ws].
  - wp_steps. eapply at_work_inv; [done| |done]. symmetry. auto with pintos.
  - destruct Hc. destruct (c_cond c _ p t Hws) as [sm Hsm]; [set_solver|].
    unfold put_cond. wp_steps. eapply (wp_sema_up _ th None _ sm); try done.
    split; [|done|done|done]. eapply core_cond; [apply Haw|].
    intros p' t' Hin. eapply (c_cond c _ p' t' Hws). set_solver.
Qed.

Lemma wp_cond_broadcast k th c l :
  at_work None None th k → stack th = [] → level k = INTR_ON → is_idle k = false →
  is_Some (conds k !! c) → holder_of (locks k) l = Some (current k) →
  wp (cond_broadcast c l) k (λ _ k', inv k').
Proof.
  intros Haw Hstk Hlvl Hidle [ws Hws] Hho. pose proof Haw as [Hc Ht Hst Hext].
  unfold cond_broadcast. wp_step. eapply wp_get_cond; [done|].
  assert (inv k) as Hinv.
  { eapply at_work_inv; [done|by rewrite Hstk|]. by rewrite Hstk, Hlvl. }
  destruct ws as [|w ws]; [done|]. wp_step. eapply wp_push; [done|].
  eapply (wp_cond_signal _ (with_stack (FBroadcast c l :: stack th) th)); [|done| |eauto|done].
  - apply (at_work_push _ _ _ _ (FBroadcast c l) Haw); [by rewrite Hstk|]. simpl. eauto.
  - simpl. rewrite Hlvl, Hstk. unfold is_idle in *. simpl. by rewrite Hidle.
Qed.
