(* ===== verification/StepSafe.v ===== *)
(** * Every step keeps the invariant *)
From S2P Require Import Prelude ListSpec KList KListFacts KListOps Kernel Thread Synch Timer KernelStep KernelCore KernelSafe LockSafe.
Local Open Scope Z_scope.

Lemma at_work_sim x w th th' k :
  at_work x w th k → thread_sim th th' →
  at_work x w th' (set_threads (<[current k := th']> (threads k)) k).
Proof.
  intros [Hc Ht Hst Hext] Hsim. split; simpl; [|by rewrite lookup_insert_eq| |done].
  - eapply core_sim; [by eapply threads_sim_insert|done|done].
  - destruct Hsim. congruence.
Qed.

Lemma wp_thread_set_priority k th p :
  at_work None None th k → plain (stack th) → shape (is_idle k) (level k) (stack th) →
  wp (thread_set_priority p) k (λ _ k', inv k').
Proof.
  intros [Hc Ht Hst Hext] Hpl Hsh. unfold thread_set_priority. wp_step. apply wp_intr_disable.
  wp_step. apply wp_thread_current; [by exists th|]. wp_step. eapply wp_get_thread; [done|]. wp_step.
  eapply (wp_mono _ _ (λ _ k', ∃ th', thread_sim th th' ∧
    k' = set_threads (<[current k := th']> (threads k)) (set_level INTR_OFF k))).
  { case_decide.
    - eapply wp_mod_thread; [done|]. by exists (with_priority p th).
    - wp_steps. exists th. split; [done|]. simpl. rewrite insert_id by done. by destruct k. }
  intros _ ? (th' & Hsim & ->). wp_step. eapply wp_mod_thread; [simpl; by rewrite lookup_insert_eq|].
  wp_step. eapply wp_push; [simpl; by rewrite lookup_insert_eq|]. simpl. rewrite !insert_insert_eq.
  set (th2 := with_old_priority p th').
  assert (at_work None None th2 (set_threads (<[current k := th2]> (threads k)) (set_level INTR_OFF k))) as Haw.
  { apply (at_work_sim None None th th2 (set_level INTR_OFF k)); [by split|].
    etrans; [exact Hsim|done]. }
  assert (stack th' = stack th) as Hstk by (by destruct Hsim as (_ & _ & _ & ->)).
  pose proof (at_work_push _ _ _ _ (FSetLevel (level k)) Haw) as Hpush. simpl in Hpush.
  rewrite insert_insert_eq in Hpush.
  eapply (wp_check_preemption _ (with_stack (FSetLevel (level k) :: stack th2) th2)).
  - apply Hpush; [|done]. rewrite Hstk. by apply plain_not_down.
  - done.
  - simpl. rewrite Hstk. split; done.
Qed.

(** ** Sleeping *)

Lemma wp_timer_ticks k (Q : Z → kernel → Prop) :
  in_external_intr k = false ∨ level k = INTR_OFF →
  Q (ticks k) (set_level (level k) (set_level INTR_OFF k)) → wp timer_ticks k Q.
Proof.
  intros Hext HQ. unfold timer_ticks. wp_step. apply wp_intr_disable. wp_steps.
  apply wp_intr_set_level; [done|]. by wp_steps.
Qed.

Lemma wp_timer_sleep k th n :
  at_work None None th k → stack th = [] → level k = INTR_ON → is_idle k = false →
  wp (timer_sleep n) k (λ _ k', inv k').
Proof.
  intros Haw Hstk Hlvl Hidle. pose proof Haw as [Hc Ht Hst Hext]. unfold timer_sleep.
  case_match.
  { wp_steps. eapply at_work_inv; [done|by rewrite Hstk|by rewrite Hstk, Hlvl]. }
  pose proof Hc as Hc'. destruct Hc'.
  destruct (c_sleep_sema (current k)) as [sm Hsm]; [eauto|].
  assert (value sm = 0) as Hv0.
  { destruct (decide (value sm = 0)) as [|Hne]; [done|].
    destruct (c_slept _ sm Hsm Hne) as (_ & _ & [?|(th' & old & Hth' & Hin)]); [done|].
    simplify_eq. rewrite Hstk in Hin. set_solver. }
  assert (current k ∉ sleep_list k) as HnQ.
  { intros Hin. destruct (c_sleep _ Hin) as (sm' & Hsm' & _ & Hw).
    eapply not_waiting; [exact Hc|exact Ht|congruence|exact Hsm'|done]. }
  unfold intr_get_level. wp_steps. apply wp_assert; [by apply bool_decide_true|].
  wp_step. apply wp_intr_disable. rewrite Hlvl. wp_step. apply wp_thread_current; [by exists th|].
  wp_step. apply wp_timer_ticks; [by left|]. simpl.
  wp_step. eapply wp_mod_thread; [done|]. wp_steps. simpl.
  set (th1 := with_tick_to_wake (s64 (ticks k + n)) th).
  eapply wp_push; [simpl; by rewrite lookup_insert_eq|]. simpl. rewrite insert_insert_eq.
  set (th2 := with_stack (FSetLevel INTR_ON :: stack th1) th1).
  unfold sema_down, intr_context. wp_steps. apply wp_assert; [simpl; by rewrite Hext|].
  wp_step. apply wp_intr_disable. simpl.
  assert (core (Some (current k)) None None (<[current k := th2]> (threads k)) (semas k) (locks k)
    (conds k) (links k) (ready_list k) (sleep_list k) (idle_thread k) (ticks k)) as Hc2.
  { rewrite <-(insert_insert_eq _ (current k) th2 th1).
    apply core_push; [|by rewrite lookup_insert_eq|done|by simpl; rewrite Hstk|done].
    apply core_tick; [done|done|done|]. intros sm' ?. by simplify_eq. }
  eapply (wp_sema_block _ th2 _ sm); simpl; try done; [by rewrite lookup_insert_eq|].
  rewrite insert_insert_eq.
  rewrite <-(insert_insert_eq _ (current k)
    (with_status THREAD_BLOCKED (with_stack (FSemaDown (SemSleep (current k)) INTR_OFF :: stack th2) th2)) th2).
  match goal with |- context [Spec.insert_ordered (compare_ticks ?k0) _ _] => set (k' := k0) end.
  assert (∀ u, tick_in (<[current k := th2]> (threads k)) u = wake_tick k' u) as Htick.
  { intros u. unfold tick_in, wake_tick, k'. simpl. rewrite !lookup_insert. by case_decide. }
  eapply (core_block _ _ None); [exact Hc2|by rewrite lookup_insert_eq|done|done|exact Hsm|done|
    apply insert_ordered_perm| | |done|..].
  - simpl. split_and!; [eauto| |done]. unfold is_idle in Hidle. by apply bool_decide_eq_false in Hidle.
  - simpl. rewrite Hstk. unfold is_idle in Hidle. by rewrite Hidle.
  - by apply insert_ordered_NoDup.
  - assert (Sorted (not_after (by_key (tick_in (<[current k := th2]> (threads k))))) (sleep_list k)) as Hs
      by apply Hc2.
    eapply Sorted_ext; [|apply (insert_ordered_sorted (by_key (wake_tick k')))].
    + intros a b _ _. unfold not_after, by_key. by rewrite !Htick.
    + eapply Sorted_ext; [|exact Hs]. intros a b _ _. unfold not_after, by_key. by rewrite !Htick.
  - intros u [->|?]%insert_ordered_in; [by right|by left].
Qed.

(** ** The timer interrupt *)

(** The state inside the interrupt handler: [th] is the interrupted thread. *)
Record in_irq (k0 : kernel) (th : thread) (now : Z) (k : kernel) : Prop := {
  irq_core : kcore (Some (current k0)) None None k;
  irq_current : current k = current k0;
  irq_thread : threads k !! current k0 = Some th;
  irq_level : level k = INTR_OFF;
  irq_ext : in_external_intr k = true;
  irq_idle : idle_thread k = idle_thread k0;
  irq_ticks : ticks k = now;
  irq_tick t : tick_in (threads k) t = tick_in (threads k0) t;
}.

Section irq.
Context (k0 : kernel) (th : thread) (Hrun : status th = THREAD_RUNNING).
Implicit Types (k : kernel) (now : Z).

Lemma irq_running now k : in_irq k0 th now k → has_status (threads k) (current k) THREAD_RUNNING.
Proof. intros [_ Hcur Ht _ _ _ _ _]. exists th. by rewrite Hcur. Qed.

Lemma wp_check_preemption_irq now k :
  in_irq k0 th now k → wp check_preemption k (λ _ k', in_irq k0 th now k' ∧ sleep_list k' = sleep_list k ∧
    threads k' = threads k).
Proof.
  intros Hi. pose proof (irq_running now k Hi) as Hr. pose proof Hi as [Hc Hcur Ht Hlvl Hext Hidl Htk Htick0].
  unfold check_preemption. wp_step. apply wp_intr_disable. wp_steps. simpl. rewrite Hlvl.
  assert (∀ y, in_irq k0 th now (set_level INTR_OFF (set_yield_on_return y (set_level INTR_OFF k))))
    as Hy by (intros y; by split).
  destruct (ready_list k) as [|t R] eqn:HR.
  { wp_step. apply wp_intr_set_level; [by right|]. by wp_steps. }
  destruct (c_ready _ _ _ _ _ _ _ _ _ _ _ _ Hc t) as (tht & Htt & _); [rewrite HR; set_solver|].
  wp_step. eapply wp_get_thread; [done|]. wp_step. apply wp_thread_current; [done|].
  wp_step. eapply wp_get_thread; [simpl; by rewrite Hcur|]. case_match.
  - unfold intr_context, intr_yield_on_return. wp_steps. simpl. rewrite Hext. cbn [negb].
    unfold intr_context. wp_steps. apply wp_assert; [done|]. wp_steps.
    apply wp_intr_set_level; [by right|]. by wp_steps.
  - wp_step. apply wp_intr_set_level; [by right|]. by wp_steps.
Qed.

Lemma wp_sema_up_irq now k s sm :
  in_irq k0 th now k → semas k !! s = Some sm →
  (∀ u, s = SemSleep u → value sm = 0 ∧ u ∈ waiters sm ∧ u ∉ sleep_list k ∧
     ∃ th, threads k !! u = Some th ∧ tick_to_wake th ≤ now) →
  (∀ l, s ≠ SemLock l) →
  wp (sema_up s) k (λ _ k', in_irq k0 th now k' ∧ sleep_list k' = sleep_list k ∧
    (∀ t, has_status (threads k) t THREAD_READY → has_status (threads k') t THREAD_READY) ∧
    (waiters sm ≠ [] → ∃ t, t ∈ waiters sm ∧ has_status (threads k') t THREAD_READY)).
Proof.
  intros Hi Hs Hsl Hnl. pose proof Hi as [Hc Hcur Ht Hlvl Hext Hidl Htk Htick0]. unfold sema_up.
  wp_step. apply wp_intr_disable. rewrite Hlvl. wp_step.
  eapply wp_mono; [eapply (wp_sema_wake _ _ None None s sm); [exact Hc|exact Hs|done| |]|].
  { destruct s; simpl; done || by exfalso; eapply Hnl. }
  { simpl. by rewrite Htk. }
  intros _ k' (Hc' & (Hcur' & Hlvl' & Hext' & Hidl' & _ & _ & Htk' & Hsl' & Htick') & Hth & Hrd). simpl in *.
  assert (in_irq k0 th now k') as Hi'.
  { split; [done|congruence|apply Hth; [done|congruence]|congruence..|].
    intros t. by rewrite Htick'. }
  unfold intr_context. wp_steps. rewrite Hext', Hext. wp_step.
  eapply wp_mono; [by eapply wp_check_preemption_irq|]. intros _ k2 (Hi2 & Hs2 & Hth2).
  wp_step. apply wp_intr_set_level; [by right|]. wp_steps. simpl. rewrite Hth2.
  split_and!; [by destruct Hi2; split|congruence| |done].
  intros t (tht & Htt & Hrt). exists tht. split; [|done]. apply Hth; [done|congruence].
Qed.

(** The loop of [timer_interrupt] removes from the sleep list exactly the
    threads whose time has come. *)
Lemma wp_wake_sleepers now k :
  in_irq k0 th now k →
  wp wake_sleepers k (λ _ k', in_irq k0 th now k' ∧
    ∃ due, sleep_list k = due ++ sleep_list k' ∧
      Forall (λ t, tick_in (threads k0) t ≤ now ∧ has_status (threads k') t THREAD_READY) due ∧
      (∀ t, head (sleep_list k') = Some t → now < tick_in (threads k0) t)).
Proof.
  intros Hi0. unfold wake_sleepers.
  apply (wp_loop (λ n (_ : unit) k', n = length (sleep_list k') ∧ in_irq k0 th now k' ∧
    ∃ due, sleep_list k = due ++ sleep_list k' ∧
      Forall (λ t, tick_in (threads k0) t ≤ now ∧ has_status (threads k') t THREAD_READY) due) id) with (g := length (sleep_list k));
    [|split_and!; [done|done|]; by exists []|unfold id; lia].
  intros n [] k1 (-> & Hi & due & Hdue & Hall). pose proof Hi as [Hc Hcur Ht Hlvl Hext Hidl Htk Htick0].
  wp_steps. destruct (sleep_list k1) as [|t ss] eqn:HQ.
  { wp_steps. split; [done|]. exists due. rewrite HQ. by split_and!. }
  pose proof Hc as Hc'. destruct Hc'. rewrite HQ in c_sleep_nodup, c_sleep_sorted.
  destruct (c_sleep t) as (sm & Hsm & Hv0 & Hin); [rewrite HQ; set_solver|].
  destruct (c_wait _ sm t Hsm Hin) as [(tht & Htt & Hbl) _].
  wp_step. eapply wp_get_thread; [done|]. wp_step. apply wp_timer_ticks; [by right|]. rewrite Htk.
  assert (tick_in (threads k0) t = tick_to_wake tht) as Htick.
  { rewrite <-Htick0. unfold tick_in. by rewrite Htt. }
  rewrite Hlvl. destruct (Z.ltb_spec now (tick_to_wake tht)) as [Hlt|Hge].
  { wp_steps. split; [by split|]. exists due. simpl. rewrite HQ. split_and!; [done..|].
    intros ? [= <-]. by rewrite Htick. }
  wp_steps. apply NoDup_cons in c_sleep_nodup as [Hnss Hnd].
  assert (kcore (Some (current k0)) None None (set_sleep_list ss k1)) as Hcs.
  { unfold kcore. split; try done; simpl.
    - by inversion c_sleep_sorted.
    - intros u Hu. apply c_sleep. rewrite HQ. set_solver. }
  eapply wp_mono; [eapply (wp_sema_up_irq now _ (SemSleep t) sm); [by split|done| |done]|].
  { intros u [= <-]. simpl. split_and!; [done..|]. by exists tht. }
  intros _ k2 (Hi2 & HQ2 & Hrd2 & Hwoken). wp_steps. simpl in HQ2. exists (length ss). unfold id.
  rewrite HQ2. split_and!; [done|done| |simpl; lia].
  exists (due ++ [t]). rewrite <-app_assoc. split; [done|].
  apply Forall_app. split.
  - eapply Forall_impl; [done|]. intros u [? ?]. auto.
  - repeat constructor; [lia|]. destruct Hwoken as (u & Hu & ?); [by destruct (waiters sm); set_solver|].
    destruct (c_wait _ sm u Hsm Hu) as [_ (thu & old & rest & Hthu & Hstk)].
    specialize (c_frames _ _ Hthu). rewrite Hstk in c_frames.
    apply Forall_cons_1 in c_frames as [(_ & _ & ->) _]. done.
Qed.

Lemma wp_thread_tick now k :
  in_irq k0 th now k → wp thread_tick k (λ _ k', in_irq k0 th now k' ∧ sleep_list k' = sleep_list k).
Proof.
  intros Hi. pose proof Hi as [Hc Hcur Ht Hlvl Hext Hidl Htk Htick0]. unfold thread_tick.
  wp_step. apply wp_thread_current; [by eapply irq_running|].
  wp_step. eapply wp_get_thread; [by rewrite Hcur|]. wp_steps.
  eapply (wp_mono _ _ (λ _ k', in_irq k0 th now k' ∧ sleep_list k' = sleep_list k)).
  { repeat case_match; wp_steps; (split; [by split|done]). }
  intros _ k1 [[Hc1 Hcur1 Ht1 Hlvl1 Hext1 Hidl1 Htk1 Htick1] HQ1]. wp_steps. case_match.
  - unfold intr_yield_on_return, intr_context. wp_steps. apply wp_assert; [done|].
    wp_steps. split; [by split|done].
  - wp_steps. split; [by split|done].
Qed.
End irq.

Lemma wp_intr_handler_timer k th :
  at_work None None th k → shape (is_idle k) INTR_ON (stack th) → 0 ≤ ticks k < 2 ^ 63 - 1 →
  wp intr_handler_timer k (λ _ k', inv k').
Proof.
  intros Haw Hsh Htk. pose proof Haw as [Hc Ht Hst Hext]. pose proof (shape_on_plain _ _ Hsh) as Hpl.
  unfold intr_handler_timer, intr_get_level, intr_context, timer_interrupt.
  wp_steps. apply wp_assert; [done|]. wp_steps. apply wp_assert; [simpl; by rewrite Hext|]. wp_steps.
  match goal with |- wp _ ?k1 _ => assert (in_irq k th (s64 (ticks k + 1)) k1) as Hi end.
  { split; try done. unfold kcore in *. simpl. eapply core_now; [exact Hc|].
    rewrite s64_small by lia. lia. }
  eapply wp_mono; [by eapply wp_thread_tick|]. intros _ k1 [Hi1 _].
  wp_step. apply wp_intr_disable. wp_step. rewrite (irq_level _ _ _ _ Hi1).
  eapply wp_mono; [eapply (wp_wake_sleepers k th); [done|by destruct Hi1; split]|].
  intros _ k2 [Hi2 _]. wp_step. apply wp_intr_set_level; [by right|]. wp_steps.
  destruct Hi2 as [Hc2 Hcur2 Ht2 Hlvl2 Hext2 Hidl2 Htk2 _].
  apply wp_assert; [done|]. wp_steps. apply wp_assert; [done|]. wp_steps.
  match goal with |- wp (if yield_on_return ?k0 then _ else _) _ _ => destruct (yield_on_return k0) end.
  - match goal with |- wp _ ?k3 _ => assert (at_work None None th k3) as Haw3 end.
    { split; simpl; rewrite ?Hcur2; done. }
    wp_step. eapply wp_push; [apply Haw3|].
    eapply (wp_thread_yield _ (with_stack (FIret :: stack th) th)); [|done|].
    + apply (at_work_push _ _ _ _ FIret Haw3); [by apply plain_not_down|done].
    + simpl. unfold is_idle in *. simpl. by rewrite Hcur2, Hidl2.
  - wp_steps. eapply (at_work_inv None th); simpl.
    + split; simpl; rewrite ?Hcur2; done.
    + symmetry. auto with pintos.
    + unfold is_idle in *. simpl. by rewrite Hcur2, Hidl2.
Qed.

(** ** The idle thread *)

Lemma wp_idle_block k th :
  at_work None None th k → stack th = [] → is_idle k = true →
  wp idle_block k (λ _ k', inv k').
Proof.
  intros Haw Hstk Hidle. pose proof Haw as [Hc Ht Hst Hext]. unfold idle_block.
  apply bool_decide_eq_true in Hidle as HI.
  wp_step. apply wp_intr_disable. wp_step. eapply wp_push; [done|]. simpl.
  set (th1 := with_stack (FIdleSti :: stack th) th).
  pose proof (at_work_push _ _ _ _ FIdleSti Haw) as [Hc1 Ht1 _ _]; [by rewrite Hstk|done|].
  unfold thread_block, intr_context, intr_get_level. wp_steps.
  apply wp_assert; [simpl; by rewrite Hext|]. wp_steps.
  apply wp_assert; [by apply bool_decide_true|]. wp_step. apply wp_thread_current; [by exists th1|].
  wp_step. eapply wp_mod_thread; [exact Ht1|].
  eapply wp_schedule; simpl; [|by rewrite lookup_insert_eq|done|done|done].
  unfold kcore in *. simpl in *. eapply (core_status (Some (current k))); [exact Hc1|exact Ht1|..].
  - intros s sm Hs. eapply not_waiting; [exact Hc1|exact Ht1|simpl; congruence|done].
  - apply Hc.
  - done.
  - intros Hin. exfalso. eapply not_ready; [exact Hc|exact Ht|congruence|done].
  - done.
  - intros u Hu E. congruence.
  - intros _. simpl. rewrite Hstk, bool_decide_true by done. done.
Qed.

Lemma wp_idle_sti k th :
  at_work None None th k → stack th = [] → is_idle k = true →
  wp idle_sti k (λ _ k', inv k').
Proof.
  intros Haw Hstk Hidle. pose proof Haw as [Hc Ht Hst Hext]. unfold idle_sti. wp_steps.
  eapply wp_push; [done|].
  eapply (at_work_inv None (with_stack (FIdleHlt :: stack th) th)); [|done|].
  - apply (at_work_push None None th (set_level INTR_ON k) FIdleHlt); [by split|by rewrite Hstk|done].
  - simpl. rewrite Hstk. done.
Qed.

(** ** Continuing inside a function *)

Lemma wp_run_frame k f r :
  inv k → stack_of k (current k) = f :: r → f ≠ FIdleHlt → wp run_frame k (λ _ k', inv k').
Proof.
  intros Hinv Hstk0 Hhlt. destruct (inv_at_work k Hinv) as (th & Haw & Hsh).
  pose proof Haw as [Hc Ht Hst Hext].
  assert (stack th = f :: r) as Hstk by (unfold stack_of in Hstk0; by rewrite Ht in Hstk0).
  rewrite Hstk in *. unfold run_frame. wp_steps. eapply wp_get_thread; [done|]. rewrite Hstk.
  wp_step. eapply wp_mod_thread; [done|].
  set (k1 := set_threads (<[current k := with_stack r th]> (threads k)) k).
  assert (at_work (in_transit (f :: r)) (match f with FSemaDown s _ => Some s | _ => None end)
    (with_stack r th) k1) as Haw1.
  { split; [|simpl; by rewrite lookup_insert_eq|done|done]. eapply core_pop; done. }
  pose proof (c_frames _ _ _ _ _ _ _ _ _ _ _ _ Hc _ _ Ht) as Hfr. rewrite Hstk in Hfr.
  inversion Hfr as [|? ? Hf Hfr']; subst. change (is_idle k) with (is_idle k1) in Hsh.
  destruct f as [old|s old|l old|l|l|c l| |s| | | |]; simpl in Hsh; cbn [run].
  - destruct Hsh as [Hpl Hsh]. wp_step. apply wp_intr_set_level; [by left|]. wp_steps.
    eapply at_work_return; [done| |done]. symmetry. by apply plain_transit, plain_not_got.
  - destruct Hsh as (Hlvl & Hsh & Hbelow).
    eapply (wp_sema_down_loop k1 _ s old (Some s)); [done|by intros ? [= ->]|done|done|done].
  - destruct Hsh as (Hlvl & -> & -> & Hid).
    eapply (wp_lock_acquired k1 _ l INTR_ON); [done|done|done|done|done|apply Hf].
  - destruct Hsh as (Hlvl & -> & Hid). by eapply wp_cond_wait_down.
  - destruct Hsh as (Hlvl & -> & Hid). destruct Hf as (? & ? & ?).
    eapply wp_lock_acquire; [done|done|done| |done|done].
    unfold is_idle in Hid. by apply bool_decide_eq_false in Hid.
  - destruct Hsh as (Hlvl & -> & Hid). destruct Hf. by eapply wp_cond_broadcast.
  - unfold kernel_thread, intr_enable, intr_get_level, intr_context. wp_steps.
    apply wp_assert; [simpl; by rewrite Hext|]. wp_steps.
    eapply (at_work_return None (with_stack r th)); [done| |done].
    symmetry. by eapply plain_transit, plain_not_got, shape_on_plain.
  - done.
  - destruct Hsh as [-> Hid]. by eapply wp_idle_block.
  - destruct Hsh as (_ & -> & Hid). by eapply wp_idle_sti.
  - done.
  - wp_steps. eapply (at_work_return None (with_stack r th)); [done| |done].
    symmetry. by eapply plain_transit, plain_not_got, shape_on_plain.
Qed.

Lemma wp_timer_irq k :
  inv k → level k = INTR_ON → 0 ≤ ticks k < 2 ^ 63 - 1 → wp timer_irq k (λ _ k', inv k').
Proof.
  intros Hinv Hlvl Htk. destruct (inv_at_work k Hinv) as (th & Haw & Hsh). rewrite Hlvl in Hsh.
  assert (in_transit (stack th) = None) as Htr by (eapply plain_transit, plain_not_got, shape_on_plain, Hsh).
  rewrite Htr in Haw. pose proof Haw as [Hc Ht Hst Hext].
  unfold timer_irq. wp_steps. eapply wp_get_thread; [done|].
  assert ((∃ r, stack th = FIdleHlt :: r) ∨ ∀ r, stack th ≠ FIdleHlt :: r) as [[r Hstk]|Hno].
  { destruct (stack th) as [|[] ?]; eauto. }
  - rewrite Hstk in *. simpl in Hsh. destruct Hsh as (_ & -> & Hid).
    wp_step. eapply wp_mod_thread; [done|].
    eapply (wp_intr_handler_timer _ (with_stack [FIdleBlock] th)); [|done|done].
    split; [|simpl; by rewrite lookup_insert_eq|done|done]. unfold kcore. simpl.
    eapply core_restack; try done.
    + repeat constructor.
    + intros s (th' & old & rest & ? & Hst'). simplify_eq. congruence.
    + intros sm Hs Hv.
      destruct (c_slept _ _ _ _ _ _ _ _ _ _ _ _ Hc _ sm Hs Hv) as (_ & _ & [?|(th' & old & ? & Hin)]); [done|].
      simplify_eq. rewrite Hstk in Hin. set_solver.
  - assert (wp intr_handler_timer k (λ _ k', inv k')) as Hh by (by eapply wp_intr_handler_timer).
    destruct (stack th) as [|[] stk]; wp_steps; done || (by destruct (Hno stk)).
Qed.

(** ** Calling an operation *)

Lemma wp_sema_try_down k th n :
  at_work None None th k → stack th = [] → level k = INTR_ON → is_idle k = false →
  is_Some (semas k !! SemObj n) → wp (sema_try_down (SemObj n)) k (λ _ k', inv k').
Proof.
  intros [Hc Ht Hst Hext] Hstk Hlvl Hidle [sm Hs]. unfold sema_try_down, put_sema.
  wp_step. apply wp_intr_disable. rewrite Hlvl. wp_step. eapply wp_get_sema; [done|]. wp_step.
  assert (shape (is_idle k) INTR_ON (stack th)) as Hsh by (by rewrite Hstk).
  destruct (Z.ltb_spec 0 (value sm)) as [Hv|Hv]; wp_steps; (apply wp_intr_set_level; [by left|]); wp_steps.
  - eapply (at_work_inv None th); [|by rewrite Hstk|done]. split; try done.
    unfold kcore in *. simpl. eapply core_value; try done; [lia|]. intros _. right. simpl. lia.
  - eapply (at_work_inv None th); [by split|by rewrite Hstk|done].
Qed.

(** Nobody waits for the semaphore of a lock that does not exist yet. *)
Lemma no_lock_no_waiters k th x w l sm :
  at_work x w th k → locks k !! l = None → semas k !! SemLock l = Some sm → waiters sm = [].
Proof.
  intros [Hc Ht Hst _] Hl Hs. destruct (waiters sm) as [|t ws] eqn:Hw; [done|exfalso].
  pose proof (c_wait _ _ _ _ _ _ _ _ _ _ _ _ Hc _ sm t Hs) as [(tht & Htt & Hb) (tht' & old & rest & Htt' & Hstk)];
    [rewrite Hw; set_solver|]. simplify_eq.
  destruct (c_others _ _ _ _ _ _ _ _ _ _ _ _ Hc t tht Htt) as [Hsh _]; [congruence|].
  pose proof (c_frames _ _ _ _ _ _ _ _ _ _ _ _ Hc t tht Htt) as Hf. rewrite Hstk in Hf, Hsh.
  destruct Hsh as (_ & _ & Hbelow). destruct rest as [|[] rest]; try done. subst.
  apply Forall_cons_1 in Hf as [_ Hf]. apply Forall_cons_1 in Hf as [[[? ?] _] _]. congruence.
Qed.

Lemma wp_lock_init k th l :
  at_work None None th k → stack th = [] → level k = INTR_ON → is_idle k = false →
  locks k !! l = None → wp (lock_init l) k (λ _ k', inv k').
Proof.
  intros Haw Hstk Hlvl Hidle Hl. pose proof Haw as [Hc Ht Hst Hext].
  unfold lock_init, put_lock, sema_init, put_sema. wp_steps.
  eapply (at_work_inv None th); [|by rewrite Hstk|]; [split; try done|].
  - unfold kcore in *. simpl. apply core_new_lock; [|done|done|by rewrite lookup_insert_eq].
    apply core_new_sema; [done| |lia| |done].
    + intros sm Hs. by eapply no_lock_no_waiters.
    + by intros ? [= <-].
  - simpl. unfold is_idle in *. simpl. by rewrite Hstk, Hlvl, Hidle.
Qed.

Lemma holds_holder_of k l : holds k l ↔ holder_of (locks k) l = Some (current k).
Proof. done. Qed.

Lemma wp_exec k o :
  inv k → is_Some (threads k !! current k) → stack_of k (current k) = [] → allowed k o →
  wp (exec o) k (λ _ k', inv k').
Proof.
  intros Hinv Hcur Hstk0 Hok. destruct (inv_at_work k Hinv) as (th & Haw & Hsh).
  pose proof Haw as [Hc Ht Hst Hext].
  assert (stack th = []) as Hstk by (unfold stack_of in Hstk0; by rewrite Ht in Hstk0).
  rewrite Hstk in Haw. simpl in Haw.
  assert (plain (stack th)) as Hpl by (by rewrite Hstk).
  pose proof Hsh as Hsh'. rewrite Hstk in Hsh'. destruct Hsh' as [Hlvl Hidle].
  assert (idle_thread k ≠ Some (current k)) as Hni
    by (unfold is_idle in Hidle; by apply bool_decide_eq_false in Hidle).
  destruct o as [n v|n|n|n|l|l|l|c|c l|c l|c l| |p|n]; cbn [exec allowed] in *;
    rewrite ?holds_holder_of in Hok.
  - destruct Hok as [Hnone Hv]. unfold sema_init, put_sema. wp_steps.
    eapply (at_work_inv None th); [|by rewrite Hstk|done]. split; try done.
    apply core_new_sema; [apply Haw|by rewrite Hnone|lia|done|done].
  - by eapply (wp_sema_down k th); [|by split|rewrite Hstk, Hlvl, Hidle].
  - destruct Hok as [sm Hs]. by eapply (wp_sema_up k th None _ sm).
  - wp_step. eapply wp_mono; [by eapply (wp_sema_try_down k th)|]. intros b k' ?. by wp_steps.
  - by eapply wp_lock_init.
  - destruct Hok. by eapply wp_lock_acquire.
  - eapply (wp_lock_release k th); try done; [|by left].
    rewrite insert_id; [apply Haw|]. rewrite Ht. f_equal. destruct th; simpl in *. by subst.
  - unfold cond_init, put_cond. wp_steps. eapply (at_work_inv None th); [|by rewrite Hstk|done].
    split; try done. apply core_cond; [apply Haw|]. intros p t Hin. set_solver.
  - destruct Hok. by eapply wp_cond_wait.
  - destruct Hok. by eapply wp_cond_signal.
  - destruct Hok. by eapply wp_cond_broadcast.
  - by eapply wp_thread_yield.
  - by eapply wp_thread_set_priority.
  - by eapply wp_timer_sleep.
Qed.

(** ** Every step succeeds and keeps the invariant *)

Lemma step_inv k r : inv k → step k r → ∃ k', r = Ok (tt, k') ∧ inv k'.
Proof.
  intros Hinv Hstep.
  assert (∀ m : K unit, wp m k (λ _ k', inv k') → ∃ k', m k = Ok (tt, k') ∧ inv k') as Hwp.
  { intros m ([] & k' & Hk' & ?)%wp_ok. eauto. }
  destruct Hstep as [o Hcur Hstk Hok|f rest Hstk Hf|Hlvl Htk]; apply Hwp.
  - by apply wp_exec.
  - by eapply wp_run_frame.
  - by apply wp_timer_irq.
Qed.

Lemma reachable_inv k0 k : inv k0 → reachable k0 k → inv k.
Proof.
  intros H0. induction 1 as [|k k' _ IH Hstep]; [done|].
  destruct (step_inv k _ IH Hstep) as (k'' & [= <-] & ?). done.
Qed.
