(* ===== verification/KernelProps.v ===== *)
(** * What the kernel's invariant gives

    A booted system, runs of it, and the properties of threads, semaphores,
    locks, condition variables and sleeping that hold in every state the kernel
    can reach. *)
From S2P Require Import Prelude ListSpec KList KListFacts KListOps Kernel Thread Synch Timer KernelStep KernelCore KernelSafe LockSafe StepSafe.
Local Open Scope Z_scope.

(** ** A booted system

    The state in which [thread_start] returns, with three more threads waiting
    in the run queue for their first turn: the main thread (1) runs, the idle
    thread (2) is blocked in its loop. *)
Definition MAIN : Z := 1.
Definition IDLE : Z := 2.

Definition new_thread (st : thread_status) (p : Z) (stk : list frame) : thread :=
  Thread st p p 0 [] false stk.

Definition boot : kernel := Kernel
  (<[MAIN := new_thread THREAD_RUNNING PRI_DEFAULT []]>
  (<[IDLE := new_thread THREAD_BLOCKED PRI_MIN [FIdleSti]]>
  (<[3 := new_thread THREAD_READY 31 [FKernelThread]]>
  (<[4 := new_thread THREAD_READY 25 [FKernelThread]]>
  (<[5 := new_thread THREAD_READY 20 [FKernelThread]]> ∅)))))
  (list_to_map ((λ t, (SemSleep t, Semaphore 0 [])) <$> [1; 2; 3; 4; 5]))
  ∅ ∅
  (list_to_map (concat ((λ t, [(l_head (lock_waiting t), Node NULL (l_tail (lock_waiting t)));
    (l_tail (lock_waiting t), Node (l_head (lock_waiting t)) NULL)]) <$> [1; 2; 3; 4; 5])))
  [3; 4; 5] [] MAIN (Some IDLE) INTR_ON false false 0 0 0 0 0 MAIN.

Ltac entries H :=
  cbn in H; repeat (apply lookup_insert_Some in H as [[<- <-]|[_ H]]); try (by rewrite lookup_empty in H).

Lemma boot_thread t th : threads boot !! t = Some th →
  t ∈ [1; 2; 3; 4; 5] ∧ lock_holding th = [].
Proof. intros H. entries H; (split; [set_solver|done]). Qed.

Lemma boot_sema s sm : semas boot !! s = Some sm → sm = Semaphore 0 [].
Proof. intros H. by entries H. Qed.

Lemma inv_boot : inv boot.
Proof.
  split; [|by eexists|done|done].
  assert (∀ t, is_Some (threads boot !! t) → t ∈ [1; 2; 3; 4; 5]) as Hids.
  { intros t [th Ht]. by apply boot_thread in Ht as [? _]. }
  split; cbn -[threads semas links].
  - by apply (bool_decide_unpack _).
  - intros t Ht. repeat (apply elem_of_cons in Ht as [->|Ht]; [by eexists|]). by inversion Ht.
  - intros t th Ht. entries Ht; cbn; [done|by left|left..]; set_solver.
  - exists 2. by split.
  - intros s sm Hs. apply boot_sema in Hs as ->. split; [constructor|done].
  - intros s sm t Hs Ht. apply boot_sema in Hs as ->. set_solver.
  - intros t th Ht. entries Ht; cbn; repeat constructor.
  - intros t th Ht Hne. by entries Ht; cbn.
  - intros t th Ht. apply boot_thread in Ht as [_ ->]. constructor.
  - intros t l. unfold holder_of. rewrite lookup_empty. split; [done|].
    intros (th & Ht & Hl). apply boot_thread in Ht as [_ E]. rewrite E in Hl. set_solver.
  - done.
  - done.
  - constructor.
  - constructor.
  - set_solver.
  - intros t Ht. apply Hids in Ht.
    repeat (apply elem_of_cons in Ht as [->|Ht]; [by eexists|]). by inversion Ht.
  - intros t sm Hs. by apply boot_sema in Hs as ->.
  - intros t Ht. apply Hids in Ht.
    exists (l_tail (lock_waiting t)), (l_head (lock_waiting t)).
    repeat (apply elem_of_cons in Ht as [->|Ht]; [split_and!; [vm_compute; reflexivity..|by left]|]). by inversion Ht.
  - intros l Hl. by destruct Hl.
  - intros s sm Hs. by apply boot_sema in Hs as ->.
Qed.

(** The state after a run from [boot]. *)
Definition after (es : list event) : kernel :=
  match play boot es with Ok k => k | Err _ => boot end.
Definition plays (es : list event) : bool :=
  match play boot es with Ok _ => true | Err _ => false end.

Lemma after_reachable es : plays es = true → reachable boot (after es).
Proof.
  unfold plays, after. intros H. destruct (play boot es) as [k|] eqn:E; [|done].
  by eapply play_reachable; [constructor|].
Qed.

(** The main thread makes a lock and everybody sleeps but thread 5, which takes
    the lock; a timer interrupt wakes the others. *)
Definition run_contended : list event :=
  [EvOp (OpLockInit 0); EvOp (OpSleep 1); EvRun; EvOp (OpSleep 1); EvRun; EvOp (OpSleep 1); EvRun;
   EvOp (OpLockAcquire 0); EvRun; EvTimer; EvRun; EvRun].
(** ... and the main thread blocks on it. *)
Definition run_blocked : list event := run_contended ++ [EvOp (OpLockAcquire 0)].

(** ** Safety *)

(** C1: the kernel never goes down.  In every state that a booted system can
    reach by calls of the thread, semaphore, lock, condition variable and sleep
    operations, context switches and timer interrupts, in any order, each
    possible step returns: no [ASSERT] fails, no dangling or null pointer is
    used, the donation loop and the wake-up loop end; and the next state
    satisfies the kernel's invariant again. *)
Theorem kernel_safe k0 k r :
  inv k0 → reachable k0 k → step k r → ∃ k', r = Ok (tt, k') ∧ inv k'.
Proof. intros H0 Hr. by apply step_inv, (reachable_inv k0). Qed.

Lemma kernel_safe_witness :
  ∃ k', exec (OpLockAcquire 0) (after run_contended) = Ok (tt, k') ∧ inv k'.
Proof.
  apply (kernel_safe boot (after run_contended)).
  - apply inv_boot.
  - apply after_reachable. vm_compute. reflexivity.
  - apply (step_op _ (OpLockAcquire 0)).
    + vm_compute. by eexists.
    + vm_compute. reflexivity.
    + apply (bool_decide_unpack _). vm_compute. exact I.
Defined.

(** C5: the processor always has something to do: in every reachable state
    some step is possible (the running thread continues, or the processor is
    halted in the idle thread with interrupts on and the timer wakes it). *)
Theorem kernel_progress k0 k :
  inv k0 → reachable k0 k → 0 ≤ ticks k < 2 ^ 63 - 1 → ∃ k', step k (Ok (tt, k')) ∧ inv k'.
Proof.
  intros H0 Hr Htk. pose proof (reachable_inv _ _ H0 Hr) as Hinv.
  assert (∃ r, step k r) as [r Hs].
  { destruct Hinv as [_ (th & Ht & _) Hsh _].
    destruct (stack_of k (current k)) as [|f rest] eqn:Hstk.
    - eexists. by apply (step_op k OpYield); [eexists| |].
    - assert (f = FIdleHlt ∨ f ≠ FIdleHlt) as [->|Hf] by (clear; destruct f; (by left) || (right; discriminate)).
      + eexists. apply step_timer; [|done]. by destruct Hsh.
      + eexists. by eapply step_run. }
  destruct (step_inv k r Hinv Hs) as (k' & -> & ?). eauto.
Qed.

Lemma kernel_progress_witness : ∃ k', step (after run_blocked) (Ok (tt, k')) ∧ inv k'.
Proof.
  apply (kernel_progress boot).
  - apply inv_boot.
  - apply after_reachable. vm_compute. reflexivity.
  - vm_compute. split; [discriminate|reflexivity].
Defined.

(** ** Locks and semaphores *)
Definition holding (k : kernel) (t : Z) : list Z := default [] (lock_holding <$> threads k !! t).
Definition status_of (k : kernel) (t : Z) : option thread_status := status <$> threads k !! t.

Lemma holding_holder k t l : inv k → l ∈ holding k t → holder_of (locks k) l = Some t.
Proof.
  intros [Hc _ _ _] Hl. unfold holding in Hl. destruct (threads k !! t) as [th|] eqn:Ht; [|set_solver].
  apply (c_hold _ _ _ _ _ _ _ _ _ _ _ _ Hc). by exists th.
Qed.

(** C2: mutual exclusion.  A lock is in the [lock_holding] list of at most one
    thread, which is the thread its [holder] member names, and its semaphore is
    then down, so that nobody else can get past [sema_down]. *)
Theorem lock_mutual_exclusion k0 k l t1 t2 :
  inv k0 → reachable k0 k → l ∈ holding k t1 → l ∈ holding k t2 →
  t1 = t2 ∧ ∃ lk sm, locks k !! l = Some lk ∧ holder lk = Some t1 ∧
    semas k !! SemLock l = Some sm ∧ value sm = 0.
Proof.
  intros H0 Hr H1 H2. pose proof (reachable_inv _ _ H0 Hr) as Hinv.
  apply (holding_holder _ _ _ Hinv) in H1, H2. split; [congruence|].
  unfold holder_of in H1. destruct (locks k !! l) as [lk|] eqn:Hl; [|done]. simpl in H1.
  destruct (c_lock _ _ _ _ _ _ _ _ _ _ _ _ (inv_core _ Hinv) l lk Hl) as (sm & Hsm & Hv).
  rewrite H1 in Hv. destruct Hv. eauto 10.
Qed.

Lemma lock_mutual_exclusion_witness :
  5 = 5 ∧ ∃ lk sm, locks (after run_blocked) !! 0 = Some lk ∧ holder lk = Some 5 ∧
    semas (after run_blocked) !! SemLock 0 = Some sm ∧ value sm = 0.
Proof.
  apply (lock_mutual_exclusion boot).
  - apply inv_boot.
  - apply after_reachable. vm_compute. reflexivity.
  - apply (bool_decide_unpack _). vm_compute. exact I.
  - apply (bool_decide_unpack _). vm_compute. exact I.
Defined.

(** C4: no wake-up is lost.  While threads wait on a semaphore whose value is
    positive, at least that many other threads, ready or running, are on their
    way back from its wait queue to take it: a thread never stays blocked next to
    an available semaphore with nobody about to use it. *)
Theorem no_lost_wakeup k0 k s sm :
  inv k0 → reachable k0 k → semas k !! s = Some sm → waiters sm ≠ [] →
  ∃ W, NoDup W ∧ value sm ≤ Z.of_nat (length W) ∧
    ∀ t, t ∈ W → t ∉ waiters sm ∧ at_sema (threads k) t s ∧
      (status_of k t = Some THREAD_READY ∨ status_of k t = Some THREAD_RUNNING).
Proof.
  intros H0 Hr Hs Hne. pose proof (reachable_inv _ _ H0 Hr) as Hinv.
  destruct (inv_core _ Hinv). destruct (c_wake s sm Hs Hne) as (W & Hnd & HW & Hle).
  rewrite decide_False in Hle by done. exists W. split_and!; [done|lia|].
  intros t Ht. destruct (HW t Ht) as [Hnw Hat]. split_and!; [done..|].
  destruct Hat as (th & old & rest & Hth & Hstk). unfold status_of. rewrite Hth. simpl.
  specialize (c_status t th Hth). destruct (status th); [by right|by left| |done].
  specialize (c_frames t th Hth). rewrite Hstk in c_frames.
  apply Forall_cons_1 in c_frames as [(_ & Hni & _) _].
  destruct c_status as [|(s' & sm' & Hs' & Hin)]; [done|].
  destruct (c_wait s' sm' t Hs' Hin) as [_ (th' & old' & rest' & Hth' & Hstk')].
  assert (s' = s) as -> by congruence. by simplify_eq.
Qed.

(** Threads 3 and 4 wait for a semaphore that the main thread ups once. *)
Definition run_upped : list event :=
  [EvOp (OpSemaInit 7 0); EvOp (OpSleep 1); EvRun; EvOp (OpSemaDown 7); EvRun; EvOp (OpSemaDown 7);
   EvRun; EvTimer; EvRun; EvRun; EvOp (OpSetPriority 63); EvRun; EvOp (OpSemaUp 7)].

Lemma no_lost_wakeup_witness :
  ∃ W, NoDup W ∧ 1 ≤ Z.of_nat (length W) ∧
    ∀ t, t ∈ W → t ∉ [4] ∧ at_sema (threads (after run_upped)) t (SemObj 7) ∧
      (status_of (after run_upped) t = Some THREAD_READY ∨
       status_of (after run_upped) t = Some THREAD_RUNNING).
Proof.
  apply (no_lost_wakeup boot (after run_upped) (SemObj 7) (Semaphore 1 [4])).
  - apply inv_boot.
  - apply after_reachable. vm_compute. reflexivity.
  - vm_compute. reflexivity.
  - done.
Defined.

(** C6: the member [elem] of a thread serves two purposes safely: only ready
    threads are in the run queue and only blocked threads are in the wait queue
    of a semaphore, each at most once and in at most one queue; every ready or
    blocked thread other than the idle thread is in such a queue; exactly the
    current thread is marked running. *)
Theorem queues_exclusive k0 k :
  inv k0 → reachable k0 k →
  NoDup (ready_list k) ∧
  (∀ t, t ∈ ready_list k → status_of k t = Some THREAD_READY) ∧
  (∀ t, status_of k t = Some THREAD_READY → t ∈ ready_list k ∨ idle_thread k = Some t) ∧
  (∀ s sm, semas k !! s = Some sm → NoDup (waiters sm)) ∧
  (∀ s sm t, semas k !! s = Some sm → t ∈ waiters sm →
     status_of k t = Some THREAD_BLOCKED ∧ t ∉ ready_list k) ∧
  (∀ s s' sm sm' t, semas k !! s = Some sm → semas k !! s' = Some sm' →
     t ∈ waiters sm → t ∈ waiters sm' → s = s') ∧
  (∀ t, status_of k t = Some THREAD_BLOCKED →
     idle_thread k = Some t ∨ ∃ s sm, semas k !! s = Some sm ∧ t ∈ waiters sm) ∧
  (∀ t, status_of k t = Some THREAD_RUNNING ↔ t = current k).
Proof.
  intros H0 Hr. pose proof (reachable_inv _ _ H0 Hr) as [Hc (thc & Hcur & Hrun) _ _]. destruct Hc.
  assert (∀ t st, has_status (threads k) t st → status_of k t = Some st) as Hst.
  { intros t st (th & Ht & <-). unfold status_of. by rewrite Ht. }
  assert (∀ t st, status_of k t = Some st → ∃ th, threads k !! t = Some th ∧ status th = st) as Hth.
  { intros t st Ht. unfold status_of in Ht. destruct (threads k !! t) as [th|]; simplify_eq/=; eauto. }
  split_and!.
  - done.
  - auto.
  - intros t (th & Ht & E)%Hth. specialize (c_status t th Ht). by rewrite E in c_status.
  - intros s sm Hs. by eapply c_sema.
  - intros s sm t Hs Hin. destruct (c_wait s sm t Hs Hin) as [Hb%Hst _]. split; [done|].
    intros Hrd%c_ready%Hst. congruence.
  - intros s s' sm sm' t Hs Hs' Hin Hin'.
    destruct (c_wait s sm t Hs Hin) as [_ (th & ? & ? & ? & ?)].
    destruct (c_wait s' sm' t Hs' Hin') as [_ (th' & ? & ? & ? & ?)]. congruence.
  - intros t (th & Ht & E)%Hth. specialize (c_status t th Ht). by rewrite E in c_status.
  - intros t. split.
    + intros (th & Ht & E)%Hth. specialize (c_status t th Ht). rewrite E in c_status. congruence.
    + intros ->. apply Hst. by exists thc.
Qed.

Lemma queues_exclusive_witness :
  NoDup (ready_list (after run_blocked)) ∧
  ∀ t, status_of (after run_blocked) t = Some THREAD_RUNNING ↔ t = current (after run_blocked).
Proof.
  pose proof (queues_exclusive boot (after run_blocked) inv_boot) as H.
  destruct H as (? & _ & _ & _ & _ & _ & _ & ?).
  - apply after_reachable. vm_compute. reflexivity.
  - by split.
Defined.

(** ** Priorities *)

(** The lock that thread [t] is waiting for: it is in [sema_down] on its semaphore. *)
Definition waits_for (k : kernel) (t : Z) : option Z :=
  match stack_of k t with FSemaDown (SemLock l) _ :: _ => Some l | _ => None end.
(** The first lock in the [lock_waiting] list of [t]. *)
Definition first_waiting (k : kernel) (t : Z) : option Z :=
  match nx (links k) (l_head (lock_waiting t)) with
  | Some e => if decide (e = l_tail (lock_waiting t)) then None else Some (lock_of_elem e)
  | None => None
  end.
(** The list of [t] begins with the lock it waits for, and is empty if it waits for
    none. *)
Definition up_to_date (k : kernel) (t : Z) : Prop := first_waiting k t = waits_for k t.
#[local] Instance up_to_date_dec k t : Decision (up_to_date k t).
Proof. unfold up_to_date. apply _. Defined.






(** [sema_up] wakes the right thread.  Of the waiters it makes ready the
    one with the highest priority at that moment, and among those the one that
    is first in the queue; the rest of the queue, and every other thread and
    semaphore, stay as they were, and the value goes up by one (modulo 2^32). *)
Theorem sema_wake_highest k0 k s sm :
  inv k0 → reachable k0 k → semas k !! s = Some sm → waiters sm ≠ [] →
  ∃ k' t ws1 ws2 ws, sema_wake s (set_level INTR_OFF k) = Ok (tt, k') ∧
    waiters sm = ws1 ++ t :: ws2 ∧ ws ≡ₚ ws1 ++ ws2 ∧
    (∀ u, u ∈ ws1 → prio k u < prio k t) ∧ (∀ u, u ∈ ws2 → prio k u ≤ prio k t) ∧
    semas k' = <[s := Semaphore (u32 (value sm + 1)) ws]> (semas k) ∧
    status_of k' t = Some THREAD_READY ∧ t ∈ ready_list k' ∧
    (∀ u, u ≠ t → threads k' !! u = threads k !! u).
Proof.
  intros H0 Hr Hs Hne. pose proof (reachable_inv _ _ H0 Hr) as [Hc _ _ _].
  set (k1 := set_level INTR_OFF k).
  destruct (sort_list (compare_priorities k1) (waiters sm)) as [|t ws] eqn:Hsort.
  { pose proof (sort_list_perm (compare_priorities k1) (waiters sm)) as Hp. rewrite Hsort in Hp.
    apply Permutation_nil_l in Hp. by rewrite <-Hp in Hne. }
  assert (StrictWeakOrder (compare_priorities k1)).
  { change (compare_priorities k1) with (flip_less (by_key (prio k1))). apply _. }
  destruct (sort_list_head _ _ _ _ Hsort) as (ws1 & ws2 & Hws & Hperm & H1 & H2).
  destruct (c_wait _ _ _ _ _ _ _ _ _ _ _ _ Hc s sm t Hs) as [(th & Ht & Hb) _].
  { rewrite Hws. set_solver. }
  assert (wp (sema_wake s) k1 (λ _ k', semas k' = <[s := Semaphore (u32 (value sm + 1)) ws]> (semas k) ∧
    threads k' = <[t := with_status THREAD_READY th]> (threads k) ∧
    ready_list k' = Spec.insert_ordered (compare_priorities
      (set_level INTR_OFF (set_semas (<[s := Semaphore (value sm) ws]> (semas k1)) k1))) t (ready_list k))) as Hwp.
  { unfold sema_wake, put_sema. wp_step. eapply wp_get_sema; [exact Hs|]. wp_steps. rewrite Hsort. wp_steps.
    eapply wp_thread_unblock; [exact Ht|done|done|]. wp_step.
    eapply wp_get_sema; [simpl; by rewrite lookup_insert_eq|]. wp_steps. simpl.
    by rewrite insert_insert_eq. }
  apply wp_ok in Hwp as ([] & k' & Hrun & Hs' & Ht' & Hr'). rewrite Forall_forall in H1, H2.
  exists k', t, ws1, ws2, ws. split_and!; [done|done|done|..].
  - intros u Hu. specialize (H1 u Hu). by apply Z.ltb_lt in H1.
  - intros u Hu. specialize (H2 u Hu). by apply Z.ltb_ge in H2.
  - done.
  - unfold status_of. by rewrite Ht', lookup_insert_eq.
  - rewrite Hr', insert_ordered_in. by left.
  - intros u Hu. by rewrite Ht', lookup_insert_ne.
Qed.

Lemma sema_wake_highest_witness :
  ∃ k' t ws1 ws2 ws, sema_wake (SemObj 7) (set_level INTR_OFF (after (take 12 run_upped))) = Ok (tt, k') ∧
    [3; 4] = ws1 ++ t :: ws2 ∧ ws ≡ₚ ws1 ++ ws2 ∧ status_of k' t = Some THREAD_READY.
Proof.
  destruct (sema_wake_highest boot (after (take 12 run_upped)) (SemObj 7) (Semaphore 0 [3; 4]))
    as (k' & t & ws1 & ws2 & ws & Hrun & Hws & Hp & _ & _ & _ & Hst & _).
  - apply inv_boot.
  - apply after_reachable. vm_compute. reflexivity.
  - vm_compute. reflexivity.
  - done.
  - exists k', t, ws1, ws2, ws. by split_and!.
Defined.

(** Giving up a lock leaves the right priority.  Up to its [sema_up],
    [lock_release] takes the lock off the thread's list and clears its holder,
    and the thread's priority becomes the greatest of its own priority and the
    priorities donated through the locks it still holds; no other thread
    changes. *)
Theorem lock_drop_priority k0 k l :
  inv k0 → reachable k0 k → stack_of k (current k) = [] → holds k l →
  ∃ k' th th', lock_drop l (set_level INTR_OFF k) = Ok (tt, k') ∧
    threads k !! current k = Some th ∧ threads k' !! current k = Some th' ∧
    lock_holding th' = filter (λ x, x ≠ l) (lock_holding th) ∧
    priority th' = effective_priority k (old_priority th) (lock_holding th') ∧
    old_priority th' = old_priority th ∧ holder_of (locks k') l = None ∧
    (∀ u, u ≠ current k → threads k' !! u = threads k !! u).
Proof.
  intros H0 Hr Hstk Hho. change (holder_of (locks k) l = Some (current k)) in Hho. pose proof (reachable_inv _ _ H0 Hr) as Hinv.
  destruct (inv_at_work k Hinv) as (th & [Hc Ht Hst _] & _). destruct Hc.
  assert (l ∈ lock_holding th) as Hin.
  { apply c_hold in Hho as (th' & ? & ?). by simplify_eq. }
  assert (∃ lk, locks k !! l = Some lk) as [lk Hl].
  { unfold holder_of in Hho. destruct (locks k !! l); [eauto|done]. }
  destruct (c_lock l lk Hl) as (sm & Hsm & _).
  assert (wp (lock_drop l) (set_level INTR_OFF k) (λ _ k', dropped (set_level INTR_OFF k) l th sm k')) as Hwp.
  { eapply wp_lock_drop; try done. intros u Hu.
    destruct (c_wait _ sm u Hsm Hu) as [(thu & ? & _) _]. eauto. }
  apply wp_ok in Hwp as ([] & k' & Hrun & ->). eexists _, th, _. split_and!; [done|done|..]; simpl.
  - by rewrite lookup_insert_eq.
  - done.
  - by apply effective_priority_ext.
  - done.
  - unfold holder_of. by rewrite lookup_insert_eq.
  - intros u Hu. by rewrite lookup_insert_ne.
Qed.

(** Thread 5 runs again with the main thread's priority: it gives up the lock. *)
Definition run_donated : list event :=
  run_blocked ++ [EvRun; EvRun; EvOp (OpSleep 5); EvRun; EvRun; EvOp (OpSleep 5); EvRun; EvRun].

Lemma lock_drop_priority_witness :
  ∃ k', lock_drop 0 (set_level INTR_OFF (after run_donated)) = Ok (tt, k') ∧
    prio (after run_donated) 5 = 31 ∧ prio k' 5 = 20.
Proof.
  destruct (lock_drop_priority boot (after run_donated) 0)
    as (k' & th & th' & Hrun & Ht & Ht' & Hl & Hp & _).
  - apply inv_boot.
  - apply after_reachable. vm_compute. reflexivity.
  - vm_compute. reflexivity.
  - vm_compute. reflexivity.
  - assert (current (after run_donated) = 5) as E by (vm_compute; reflexivity).
    exists k'. split; [exact Hrun|]. split; [vm_compute; reflexivity|].
    unfold prio. rewrite E in *. rewrite Ht'. cbn [fmap option_fmap option_map default]. rewrite Hp, Hl.
    assert (threads (after run_donated) !! 5 =
      Some (Thread THREAD_RUNNING 31 20 0 [0] false [])) as Eth by (vm_compute; reflexivity).
    rewrite Eth in Ht. injection Ht as <-. vm_compute. reflexivity.
Defined.

(** ** Sleeping *)

(** C26: the timer interrupt wakes exactly the sleepers whose time has come.
    The tick counter goes up by one; the threads taken off the sleep list are a
    prefix of it, all due, and all made ready; the threads that stay are not due
    and still blocked.  So nobody sleeps on after the first interrupt at or
    after its wake-up time, and nobody is woken before it. *)
Theorem timer_wakes_due k0 k :
  inv k0 → reachable k0 k → level k = INTR_ON → 0 ≤ ticks k < 2 ^ 63 - 1 →
  ∃ k' due, timer_interrupt (set_in_external_intr true (set_level INTR_OFF k)) = Ok (tt, k') ∧
    ticks k' = ticks k + 1 ∧ sleep_list k = due ++ sleep_list k' ∧
    (∀ t, t ∈ due → wake_tick k t ≤ ticks k' ∧ status_of k' t = Some THREAD_READY) ∧
    (∀ t, t ∈ sleep_list k' → ticks k' < wake_tick k t ∧ status_of k' t = Some THREAD_BLOCKED).
Proof.
  intros H0 Hr Hlvl Htk. pose proof (reachable_inv _ _ H0 Hr) as Hinv.
  destruct (inv_at_work k Hinv) as (th & Haw & Hsh). rewrite Hlvl in Hsh.
  rewrite plain_transit in Haw by (by eapply plain_not_got, shape_on_plain).
  destruct Haw as [Hc Ht Hst Hext]. set (now := ticks k + 1).
  assert (∀ k' t st, has_status (threads k') t st → status_of k' t = Some st) as Hstat.
  { intros k' t st (th' & Ht' & <-). unfold status_of. by rewrite Ht'. }
  assert (wp timer_interrupt (set_in_external_intr true (set_level INTR_OFF k)) (λ _ k',
    in_irq k th now k' ∧ ∃ due, sleep_list k = due ++ sleep_list k' ∧
      Forall (λ t, tick_in (threads k) t ≤ now ∧ has_status (threads k') t THREAD_READY) due ∧
      (∀ t, head (sleep_list k') = Some t → now < tick_in (threads k) t))) as Hwp.
  { unfold timer_interrupt. wp_steps. simpl.
    assert (s64 (ticks k + 1) = now) as -> by (apply s64_small; lia).
    eapply wp_mono; [eapply (wp_thread_tick k th Hst now)|].
    { split; try done. unfold kcore in *. simpl. eapply core_now; [exact Hc|lia]. }
    intros _ k1 [Hi1 HQ1]. simpl in HQ1. wp_step. apply wp_intr_disable. rewrite (irq_level _ _ _ _ Hi1).
    wp_step. eapply wp_mono; [eapply (wp_wake_sleepers k th Hst now); by destruct Hi1; split|].
    intros _ k2 [Hi2 (due & Hdue & Hall & Hhd)]. wp_step. apply wp_intr_set_level; [by right|]. wp_steps.
    split; [by destruct Hi2; split|]. exists due. simpl in *. by rewrite <-HQ1. }
  apply wp_ok in Hwp as ([] & k' & Hrun & Hi & due & Hdue & Hall & Hhd).
  destruct Hi as [Hc' _ _ _ _ _ Htk' Htick]. destruct Hc'. exists k', due. rewrite Htk'.
  split_and!; [done|done|done|..].
  - intros t Hin. eapply Forall_forall in Hall as [? Hrd]; [|exact Hin]. split; [done|]. by apply Hstat.
  - intros t Hin. split.
    + destruct (sleep_list k') as [|u us]; [set_solver|]. specialize (Hhd u eq_refl).
      apply elem_of_cons in Hin as [->|Hin]; [done|].
      pose proof (sorted_forall (by_key (tick_in (threads k'))) u us c_sleep_sorted) as Hle.
      eapply Forall_forall in Hle; [|exact Hin]. unfold not_after, by_key in Hle.
      apply Z.ltb_ge in Hle. rewrite !Htick in Hle. change (now < tick_in (threads k) t). lia.
    + destruct (c_sleep t Hin) as (sm & Hsm & _ & Hw). apply Hstat. by eapply c_wait.
Qed.

(** Two sleepers, one of them due at the next tick. *)
Definition run_sleep : list event := [EvOp (OpSleep 1); EvRun; EvOp (OpSleep 2); EvRun].

Lemma timer_wakes_due_witness :
  ∃ k' due, timer_interrupt (set_in_external_intr true (set_level INTR_OFF (after run_sleep))) = Ok (tt, k') ∧
    ticks k' = 1 ∧ [1; 3] = due ++ sleep_list k' ∧
    (∀ t, t ∈ due → wake_tick (after run_sleep) t ≤ 1).
Proof.
  destruct (timer_wakes_due boot (after run_sleep)) as (k' & due & Hrun & Htk & Hq & Hdue & _).
  - apply inv_boot.
  - apply after_reachable. vm_compute. reflexivity.
  - vm_compute. reflexivity.
  - vm_compute. split; [discriminate|reflexivity].
  - exists k', due. split; [exact Hrun|]. split; [exact Htk|]. split; [exact Hq|].
    intros t Ht. pose proof (proj1 (Hdue t Ht)) as H. rewrite Htk in H. exact H.
Defined.

(** ** Where the code falls short of priority scheduling *)

(** Donation does not move a ready donee up in the run queue: when thread 3 goes
    to sleep, thread 4 (priority 25) runs although thread 5, raised to 31 by the
    main thread, is ready. *)
Definition run_inverted : list event := run_blocked ++ [EvRun; EvRun; EvOp (OpSleep 5)].

Lemma donation_keeps_queue_order :
  reachable boot (after run_inverted) ∧ current (after run_inverted) = 4 ∧
  prio (after run_inverted) 4 = 25 ∧ prio (after run_inverted) 5 = 31 ∧
  5 ∈ ready_list (after run_inverted).
Proof.
  split; [by apply after_reachable; vm_compute|]. split_and!; try (vm_compute; reflexivity).
  apply (bool_decide_unpack _). vm_compute. exact I.
Qed.

(** A lock is never taken off [lock_waiting] again, so the donation chain goes
    on at the first lock a thread ever waited for.  Thread 4 has waited for lock
    0 before and now waits for lock 1, which thread 5 holds.  When the main
    thread waits for lock 2, held by thread 4, its priority reaches thread 4 but
    not thread 5. *)
Definition run_nested : list event :=
  [EvOp (OpLockInit 0); EvOp (OpLockInit 1); EvOp (OpLockInit 2); EvOp (OpSleep 2); EvRun;
   EvOp (OpSleep 9); EvRun; EvOp (OpSleep 1); EvRun; EvOp (OpLockAcquire 0); EvRun; EvTimer; EvRun; EvRun;
   EvOp (OpLockAcquire 0); EvRun; EvRun; EvOp (OpLockRelease 0); EvRun; EvRun; EvOp (OpLockRelease 0);
   EvRun; EvRun; EvOp (OpLockAcquire 2); EvRun; EvOp (OpSleep 1); EvRun; EvRun; EvRun; EvRun;
   EvOp (OpLockAcquire 1); EvRun; EvTimer; EvRun; EvRun; EvOp (OpSleep 1); EvRun; EvRun;
   EvOp (OpLockAcquire 1); EvRun; EvRun; EvTimer; EvRun; EvRun; EvOp (OpLockAcquire 2)].

Lemma nested_donation_stops :
  reachable boot (after run_nested) ∧
  status_of (after run_nested) 1 = Some THREAD_BLOCKED ∧
  holder_of (locks (after run_nested)) 2 = Some 4 ∧
  (waiters <$> semas (after run_nested) !! SemLock 1) = Some [4] ∧
  holder_of (locks (after run_nested)) 1 = Some 5 ∧
  prio (after run_nested) 1 = 31 ∧ prio (after run_nested) 4 = 31 ∧ prio (after run_nested) 5 = 25.
Proof.
  split; [by apply after_reachable; vm_compute|]. split_and!; vm_compute; reflexivity.
Qed.

(** [lock_try_acquire] does not put the lock into [lock_holding], so the
    [list_remove] of the [lock_release] that follows works on an element that is
    in no list. *)
Lemma release_after_try_acquire :
  (lock_init 0 ;; lock_try_acquire 0 ;; lock_release 0) boot = Err EFault.
Proof. vm_compute. reflexivity. Qed.

(** [thread_set_priority] while a donation is in force only changes the base
    priority: a new base above the donated priority is not effective until the
    lock is released.  Thread 5 runs with a donated 31, asks for 63 and still has
    31. *)
Lemma set_priority_under_donation :
  let k := after (run_donated ++ [EvOp (OpSetPriority 63)]) in
  reachable boot k ∧ prio k 5 = 31 ∧ (old_priority <$> threads k !! 5) = Some 63.
Proof.
  split; [by apply after_reachable; vm_compute|]. split; vm_compute; reflexivity.
Qed.
