(* ===== verification/BitmapFacts.v ===== *)
(** * Bitmaps as functions from indexes to booleans

    [bit b i] is the value of bit [i]; the lemmas say what each operation of
    bitmap.c does to that function on a well formed bitmap. *)
From S2P Require Import Prelude Bitmap.
Local Open Scope Z_scope.

Definition bit (b : bitmap) (i : Z) : bool :=
  Z.testbit (default 0 (bits b !! Z.to_nat (i `div` 32))) (i `mod` 32).

(** The words are 32 bits wide, there are enough of them, and the number of
    bits can be rounded up to a word without wrapping. *)
Record wf (b : bitmap) : Prop := {
  wf_cnt : 0 ≤ bit_cnt b < 2 ^ 32 - 31;
  wf_len : elem_cnt (bit_cnt b) ≤ Z.of_nat (length (bits b));
  wf_words : Forall (λ e, 0 ≤ e < 2 ^ 32) (bits b);
}.

Section words.

Lemma elem_cnt_ceil n : 0 ≤ n < 2 ^ 32 - 31 → elem_cnt n = (n + 31) `div` 32.
Proof.
  intros Hn. unfold elem_cnt, DIV_ROUND_UP, ELEM_BITS.
  unfold u32 at 2. unfold u32. rewrite Zminus_mod_idemp_l, Z.mod_small by lia.
  f_equal. lia.
Qed.

Lemma elem_idx_in b i :
  wf b → 0 ≤ i < bit_cnt b → is_Some (bits b !! Z.to_nat (elem_idx i)).
Proof.
  intros [Hc Hl _] Hi. apply lookup_lt_is_Some. rewrite elem_cnt_ceil in Hl by done.
  unfold elem_idx, ELEM_BITS.
  assert (i `div` 32 < (bit_cnt b + 31) `div` 32)
    by (apply Z.div_lt_upper_bound; [lia|]; pose proof (Z.mod_pos_bound (bit_cnt b + 31) 32);
        pose proof (Z.div_mod (bit_cnt b + 31) 32); lia).
  pose proof (Z.div_pos i 32). lia.
Qed.

Lemma bit_mask_pow i : bit_mask i = 2 ^ (i `mod` 32).
Proof.
  unfold bit_mask, ELEM_BITS. pose proof (Z.mod_pos_bound i 32).
  rewrite Z.shiftl_1_l. apply u32_small. split; [lia|]. apply Z.pow_lt_mono_r; lia.
Qed.

Lemma bits_above e k : 0 ≤ e < 2 ^ 32 → 32 ≤ k → Z.testbit e k = false.
Proof.
  intros He Hk. destruct (decide (e = 0)) as [->|]; [apply Z.testbit_0_l|].
  apply Z.bits_above_log2; [lia|]. enough (Z.log2 e < 32) by lia.
  apply Z.log2_lt_pow2; lia.
Qed.

Lemma word_of_bits e : 0 ≤ e → (∀ k, 32 ≤ k → Z.testbit e k = false) → 0 ≤ e < 2 ^ 32.
Proof.
  intros He Hk. split; [done|]. destruct (decide (e = 0)) as [->|]; [lia|].
  apply Z.log2_lt_pow2; [lia|]. destruct (decide (Z.log2 e < 32)); [done|].
  specialize (Hk (Z.log2 e)). rewrite Z.bit_log2 in Hk by lia. discriminate Hk. lia.
Qed.

(** The three word updates, seen bit by bit. *)
Definition writes_bit (m : Z) (f : bool → bool) (e e' : Z) : Prop :=
  0 ≤ e' < 2 ^ 32 ∧
  ∀ k, 0 ≤ k < 32 → Z.testbit e' k = if k =? m then f (Z.testbit e k) else Z.testbit e k.

Lemma writes_bit_intro m f e e' :
  0 ≤ e' → 0 ≤ e < 2 ^ 32 → 0 ≤ m < 32 →
  (∀ k, 0 ≤ k → Z.testbit e' k = if k =? m then f (Z.testbit e k) else Z.testbit e k) →
  writes_bit m f e e'.
Proof.
  intros He' He Hm Hk. split; [|intros; apply Hk; lia]. apply word_of_bits; [done|].
  intros k ?. rewrite Hk by lia. rewrite (proj2 (Z.eqb_neq k m)) by lia. by apply bits_above.
Qed.

Lemma mark_bit e m : 0 ≤ e < 2 ^ 32 → 0 ≤ m < 32 → writes_bit m (λ _, true) e (Z.lor e (2 ^ m)).
Proof.
  intros He Hm. apply writes_bit_intro; [|done..|].
  - apply Z.lor_nonneg. split; [lia|]. apply Z.pow_nonneg. lia.
  - intros k Hk. rewrite Z.lor_spec, Z.pow2_bits_eqb, Z.eqb_sym by lia.
    destruct (k =? m); by rewrite ?orb_true_r, ?orb_false_r.
Qed.

Lemma flip_bit e m : 0 ≤ e < 2 ^ 32 → 0 ≤ m < 32 → writes_bit m negb e (Z.lxor e (2 ^ m)).
Proof.
  intros He Hm. apply writes_bit_intro; [|done..|].
  - apply Z.lxor_nonneg. split; [intros _; apply Z.pow_nonneg; lia|lia].
  - intros k Hk. rewrite Z.lxor_spec, Z.pow2_bits_eqb, Z.eqb_sym by lia.
    destruct (k =? m); by rewrite ?xorb_true_r, ?xorb_false_r.
Qed.

Lemma reset_bit e m :
  0 ≤ e < 2 ^ 32 → 0 ≤ m < 32 →
  writes_bit m (λ _, false) e (Z.land e (u32 (Z.lnot (2 ^ m)))).
Proof.
  intros He Hm. apply writes_bit_intro; [|done..|].
  - apply Z.land_nonneg. lia.
  - intros k Hk. unfold u32. rewrite <-Z.land_ones by lia.
    rewrite !Z.land_spec, Z.lnot_spec, Z.pow2_bits_eqb, Z.eqb_sym by lia.
    destruct (decide (k < 32)).
    + rewrite Z.ones_spec_low by lia. by destruct (k =? m), (Z.testbit e k).
    + rewrite (bits_above e k) by lia. by destruct (k =? m).
Qed.

Lemma test_mask e m : 0 ≤ m → negb (Z.land e (2 ^ m) =? 0) = Z.testbit e m.
Proof.
  intros Hm. destruct (Z.testbit e m) eqn:E.
  - rewrite (proj2 (Z.eqb_neq _ 0)); [done|]. intros H0.
    apply (f_equal (λ x, Z.testbit x m)) in H0.
    rewrite Z.land_spec, E, Z.pow2_bits_true, Z.testbit_0_l in H0 by done. done.
  - rewrite (proj2 (Z.eqb_eq _ 0)); [done|]. apply Z.bits_inj'. intros k Hk.
    rewrite Z.land_spec, Z.pow2_bits_eqb, Z.testbit_0_l by done.
    destruct (Z.eqb_spec m k) as [->|]; by rewrite ?E, ?andb_false_r.
Qed.
End words.

(** ** Single bits *)
Section single.
Implicit Types (b : bitmap) (i j : Z).

Lemma index_eq i j :
  0 ≤ i → 0 ≤ j → Z.to_nat (i `div` 32) = Z.to_nat (j `div` 32) → i `mod` 32 = j `mod` 32 → i = j.
Proof.
  intros Hi Hj Hd Hm. apply Z2Nat.inj in Hd; [|apply Z.div_pos; lia..].
  rewrite (Z.div_mod i 32), (Z.div_mod j 32) by lia. congruence.
Qed.

(** The new function of indexes: [i] changes, everything else stays. *)
Definition updated b i (v : bool) b' : Prop :=
  wf b' ∧ bit_cnt b' = bit_cnt b ∧
  ∀ j, 0 ≤ j → bit b' j = if j =? i then v else bit b j.

Lemma wp_write_bit b i f (g : Z → Z) :
  wf b → 0 ≤ i < bit_cnt b →
  (∀ e, 0 ≤ e < 2 ^ 32 → writes_bit (i `mod` 32) f e (g e)) →
  wp (e ← get_elem (elem_idx i); set_elem (elem_idx i) (g e)) b
     (λ _ b', updated b i (f (bit b i)) b').
Proof.
  intros Hwf Hi Hg. destruct (elem_idx_in b i Hwf Hi) as [e He].
  destruct Hwf as [Hc Hl Hw]. unfold get_elem, set_elem, get_elem, id. wp_steps.
  apply (wp_the _ e); [done|]. wp_steps. apply (wp_the _ e); [done|]. wp_steps.
  rewrite Forall_lookup in Hw. destruct (Hg e (Hw _ _ He)) as [Hr Hb]. split_and!; simpl.
  - split; simpl; [done|by rewrite length_insert|].
    apply Forall_insert; [by apply Forall_lookup|done].
  - done.
  - intros j Hj. unfold bit. simpl. unfold elem_idx, ELEM_BITS in *.
    destruct (decide (Z.to_nat (i `div` 32) = Z.to_nat (j `div` 32))) as [Heq|Hne].
    + rewrite <-Heq, list_lookup_insert_eq, He by (by eapply lookup_lt_Some). simpl.
      rewrite Hb by (apply Z.mod_pos_bound; lia).
      destruct (Z.eqb_spec j i) as [->|Hji]; [by rewrite Z.eqb_refl|].
      rewrite (proj2 (Z.eqb_neq _ _)); [done|]. intros Hm. apply Hji.
      by apply index_eq; [lia|lia|..].
    + rewrite list_lookup_insert_ne by done.
      rewrite (proj2 (Z.eqb_neq j i)); [done|]. by intros ->.
Qed.

Lemma wp_bitmap_mark b i :
  wf b → 0 ≤ i < bit_cnt b → wp (bitmap_mark i) b (λ _ b', updated b i true b').
Proof.
  intros Hwf Hi. unfold bitmap_mark. rewrite bit_mask_pow.
  apply (wp_write_bit b i (λ _, true)); [done..|].
  intros e He. apply mark_bit; [done|]. apply Z.mod_pos_bound. lia.
Qed.
Lemma wp_bitmap_reset b i :
  wf b → 0 ≤ i < bit_cnt b → wp (bitmap_reset i) b (λ _ b', updated b i false b').
Proof.
  intros Hwf Hi. unfold bitmap_reset. rewrite bit_mask_pow.
  apply (wp_write_bit b i (λ _, false)); [done..|].
  intros e He. apply reset_bit; [done|]. apply Z.mod_pos_bound. lia.
Qed.
Lemma wp_bitmap_flip b i :
  wf b → 0 ≤ i < bit_cnt b → wp (bitmap_flip i) b (λ _ b', updated b i (negb (bit b i)) b').
Proof.
  intros Hwf Hi. unfold bitmap_flip. rewrite bit_mask_pow.
  apply (wp_write_bit b i negb); [done..|].
  intros e He. apply flip_bit; [done|]. apply Z.mod_pos_bound. lia.
Qed.

Lemma wp_bitmap_set b i v :
  wf b → 0 ≤ i < bit_cnt b → wp (bitmap_set i v) b (λ _ b', updated b i v b').
Proof.
  intros Hwf Hi. unfold bitmap_set. wp_steps. apply wp_assert; [apply Z.ltb_lt; lia|].
  destruct v; [by apply wp_bitmap_mark|by apply wp_bitmap_reset].
Qed.

Lemma wp_bitmap_test b i (Q : bool → bitmap → Prop) :
  wf b → 0 ≤ i < bit_cnt b → Q (bit b i) b → wp (bitmap_test i) b Q.
Proof.
  intros Hwf Hi HQ. destruct (elem_idx_in b i Hwf Hi) as [e He].
  unfold bitmap_test, get_elem, id. wp_steps. apply wp_assert; [apply Z.ltb_lt; lia|].
  wp_steps. apply (wp_the _ e); [done|]. wp_steps.
  rewrite bit_mask_pow, test_mask by (apply Z.mod_pos_bound; lia).
  unfold bit in HQ. unfold elem_idx, ELEM_BITS in He. by rewrite He in HQ.
Qed.
End single.

(** ** Ranges of bits *)
Section ranges.
Implicit Types (b : bitmap) (i j start cnt : Z) (v : bool).

Definition range_updated b start cnt v b' : Prop :=
  wf b' ∧ bit_cnt b' = bit_cnt b ∧
  ∀ j, 0 ≤ j → bit b' j = if (start <=? j) && (j <? start + cnt) then v else bit b j.

(** Every bit of the range has value [v]. *)
Definition group b start cnt v : Prop :=
  ∀ k, start ≤ k < start + cnt → bit b k = v.

Context (b : bitmap) (Hwf : wf b).

Lemma range_small start cnt i :
  0 ≤ start → 0 ≤ cnt → start + cnt ≤ bit_cnt b → 0 ≤ i ≤ cnt → u32 (start + i) = start + i.
Proof. intros. destruct Hwf as [Hc _ _]. apply u32_small. lia. Qed.

Lemma wp_bitmap_set_multiple start cnt v :
  0 ≤ start → 0 ≤ cnt → start + cnt ≤ bit_cnt b →
  wp (bitmap_set_multiple start cnt v) b (λ _ b', range_updated b start cnt v b').
Proof.
  intros Hs Hc Hle. unfold bitmap_set_multiple. wp_steps.
  apply wp_assert; [apply Z.leb_le; lia|]. wp_steps.
  apply wp_assert; [rewrite (range_small start cnt) by lia; apply Z.leb_le; lia|].
  apply (wp_for_upto (λ n b', range_updated b start (Z.of_nat n) v b')).
  - split_and!; [done..|]. intros j Hj. destruct (Z.leb_spec start j); [|done].
    rewrite (proj2 (Z.ltb_ge _ _)) by lia. done.
  - intros k b' Hk (Hwf' & Hcnt & Hb). rewrite (range_small start cnt) by lia.
    eapply wp_mono; [apply wp_bitmap_set; [done|lia]|].
    intros _ b'' (Hwf'' & Hcnt' & Hb'). split_and!; [done|congruence|].
    intros j Hj. rewrite Hb', Hb by done.
    destruct (Z.eqb_spec j (start + Z.of_nat k)), (Z.leb_spec start j),
      (Z.ltb_spec j (start + Z.of_nat k)), (Z.ltb_spec j (start + Z.of_nat (S k)));
      simpl; done || lia.
  - intros b' H. by rewrite Z2Nat.id in H by lia.
Qed.

Lemma wp_bitmap_set_all v :
  wp (bitmap_set_all v) b (λ _ b', range_updated b 0 (bit_cnt b) v b').
Proof.
  unfold bitmap_set_all, bitmap_size. wp_steps. destruct Hwf as [? _ _].
  apply wp_bitmap_set_multiple; lia.
Qed.

Lemma wp_bitmap_contains start cnt v :
  0 ≤ start → 0 ≤ cnt → start + cnt ≤ bit_cnt b →
  wp (bitmap_contains start cnt v) b (λ r b', b' = b ∧
    if r then ∃ i, start ≤ i < start + cnt ∧ bit b i = v
    else group b start cnt (negb v)).
Proof.
  intros Hs Hc Hle. unfold bitmap_contains. wp_steps.
  apply wp_assert; [apply Z.leb_le; lia|]. wp_steps.
  apply wp_assert; [rewrite (range_small start cnt) by lia; apply Z.leb_le; lia|].
  apply (wp_loop (λ n i b', b' = b ∧ n = Z.to_nat (cnt - i) ∧ 0 ≤ i ≤ cnt ∧
    group b start i (negb v)) id) with (g := Z.to_nat cnt).
  - intros n i b' (-> & -> & Hi & Hg). destruct (Z.ltb_spec i cnt).
    + wp_step. rewrite (range_small start cnt) by lia. apply wp_bitmap_test; [done|lia|].
      destruct (eqb (bit b (start + i)) v) eqn:E; wp_steps.
      * apply eqb_prop in E. split; [done|]. exists (start + i). split; [lia|done].
      * exists (Z.to_nat (cnt - (i + 1))). unfold id. split_and!; [done|done|lia|lia| |lia].
        intros k Hk. destruct (decide (k = start + i)) as [->|]; [|apply Hg; lia].
        apply eqb_false_iff in E. by destruct (bit b (start + i)), v.
    + wp_steps. split; [done|]. by replace cnt with i by lia.
  - split_and!; [done|f_equal; lia|lia|lia|]. intros k Hk. lia.
  - unfold id. lia.
Qed.

(** The number of indexes of the range whose bit is [v]. *)
Definition count_in start cnt v : nat :=
  length (filter (λ i, bit b i = v) (seqZ start cnt)).

Lemma wp_bitmap_count start cnt v :
  0 ≤ start → 0 ≤ cnt → start + cnt ≤ bit_cnt b →
  wp (bitmap_count start cnt v) b (λ r b', b' = b ∧ r = Z.of_nat (count_in start cnt v)).
Proof.
  intros Hs Hc Hle. unfold bitmap_count. wp_steps.
  apply wp_assert; [apply Z.leb_le; lia|]. wp_steps.
  apply wp_assert; [rewrite (range_small start cnt) by lia; apply Z.leb_le; lia|].
  apply (wp_loop (λ n '(i, c) b', b' = b ∧ n = Z.to_nat (cnt - i) ∧ 0 ≤ i ≤ cnt ∧
    c = Z.of_nat (count_in start i v)) id) with (g := Z.to_nat cnt).
  - intros n [i c] b' (-> & -> & Hi & ->). destruct (Z.ltb_spec i cnt).
    + wp_step. rewrite (range_small start cnt) by lia. apply wp_bitmap_test; [done|lia|].
      wp_steps. exists (Z.to_nat (cnt - (i + 1))). unfold id.
      split_and!; [done|done|lia|lia| |lia]. unfold count_in.
      rewrite seqZ_app, filter_app, length_app by lia. change (seqZ (start + i) 1) with [0 + (start + i)].
      rewrite Z.add_0_l, filter_cons, filter_nil.
      destruct (eqb (bit b (start + i)) v) eqn:E.
      * apply eqb_prop in E. rewrite decide_True by done. simpl. lia.
      * apply eqb_false_iff in E. rewrite decide_False by done. simpl. lia.
    + wp_steps. by replace cnt with i by lia.
  - split_and!; [done|f_equal; lia|lia|lia|done].
  - unfold id. lia.
Qed.

(** [bitmap_scan] finds the first group at or after [start]. *)
Definition first_group start cnt v r : Prop :=
  start ≤ r ∧ r + cnt ≤ bit_cnt b ∧ group b r cnt v ∧
  ∀ j, start ≤ j < r → ¬ group b j cnt v.
Definition no_group start cnt v : Prop :=
  ∀ j, start ≤ j → j + cnt ≤ bit_cnt b → ¬ group b j cnt v.

Lemma wp_bitmap_scan start cnt v :
  0 ≤ start ≤ bit_cnt b → 0 ≤ cnt →
  wp (bitmap_scan start cnt v) b (λ r b', b' = b ∧
    ((r ≠ BITMAP_ERROR ∧ first_group start cnt v r) ∨
     (r = BITMAP_ERROR ∧ no_group start cnt v))).
Proof.
  intros Hs Hc. pose proof (wf_cnt _ Hwf) as Hn. unfold bitmap_scan. wp_steps.
  apply wp_assert; [apply Z.leb_le; lia|]. destruct (Z.leb_spec cnt (bit_cnt b)).
  2: { wp_steps. split; [done|]. right. split; [done|]. intros j ? ?. lia. }
  apply (wp_loop (λ n i b', b' = b ∧ n = Z.to_nat (bit_cnt b - i) ∧ start ≤ i ≤ bit_cnt b ∧
    ∀ j, start ≤ j < i → ¬ group b j cnt v) id) with (g := Z.to_nat (bit_cnt b - start)).
  - intros n i b' (-> & -> & Hi & Hg). destruct (Z.leb_spec i (bit_cnt b - cnt)).
    + wp_step. eapply wp_mono; [apply wp_bitmap_contains; lia|].
      intros [] b' [-> Hr]; simpl; wp_steps.
      * destruct Hr as (k & Hk & Hb).
        exists (Z.to_nat (bit_cnt b - (i + 1))). rewrite u32_small by lia. unfold id.
        split_and!; [done|done|lia|lia| |lia]. intros j Hj Hgr.
        destruct (decide (j = i)) as [->|]; [|by apply (Hg j); [lia|]]. rewrite (Hgr k Hk) in Hb. by destruct v.
      * split; [done|]. left. unfold BITMAP_ERROR. rewrite negb_involutive in Hr.
        split; [lia|]. split_and!; [lia|lia|done|done].
    + wp_steps. split; [done|]. right. split; [done|]. intros j ? ?. apply Hg. lia.
  - split_and!; [done|done|lia|lia|]. lia.
  - unfold id. lia.
Qed.
End ranges.

(** ** Words and bytes *)
Section bytes.
Implicit Types (ws : list Z).

Lemma word_bytes_value w :
  0 ≤ w < 2 ^ 32 → bytes_words (word_bytes w) = [w].
Proof.
  intros Hw. unfold word_bytes. simpl. f_equal. rewrite !Z.shiftr_div_pow2 by lia.
  change (2 ^ (8 * 0)) with 1. change (2 ^ (8 * 1)) with 256.
  change (2 ^ (8 * 2)) with 65536. change (2 ^ (8 * 3)) with 16777216.
  rewrite Z.div_1_r, (Z.mod_small (w `div` 16777216)).
  - change 65536 with (256 * 256). change 16777216 with (256 * 256 * 256).
    rewrite <-!Z.div_div by lia.
    pose proof (Z.div_mod w 256 ltac:(lia)).
    pose proof (Z.div_mod (w `div` 256) 256 ltac:(lia)).
    pose proof (Z.div_mod (w `div` 256 `div` 256) 256 ltac:(lia)). lia.
  - split; [apply Z.div_pos; lia|]. apply Z.div_lt_upper_bound; lia.
Qed.

Lemma bytes_words_app w ws : bytes_words (word_bytes w ++ ws) = bytes_words (word_bytes w) ++ bytes_words ws.
Proof. done. Qed.

Lemma mjoin_cons (x : list Z) (xs : list (list Z)) : mjoin (x :: xs) = x ++ mjoin xs.
Proof. done. Qed.

Lemma words_roundtrip ws :
  Forall (λ e, 0 ≤ e < 2 ^ 32) ws → bytes_words (mjoin (word_bytes <$> ws)) = ws.
Proof.
  induction 1 as [|w ws Hw _ IH]; [done|]. rewrite fmap_cons, mjoin_cons.
  by rewrite bytes_words_app, word_bytes_value, IH.
Qed.

Lemma length_word_bytes ws : length (mjoin (word_bytes <$> ws)) = (4 * length ws)%nat.
Proof.
  induction ws as [|w ws IH]; [done|]. rewrite fmap_cons, mjoin_cons, length_app, IH. simpl. lia.
Qed.

Lemma take_word_bytes n ws :
  take (4 * n) (mjoin (word_bytes <$> ws)) = mjoin (word_bytes <$> take n ws).
Proof.
  revert ws. induction n as [|n IH]; intros ws; [done|]. destruct ws as [|w ws]; [done|].
  replace (4 * S n)%nat with (4 + 4 * n)%nat by lia. rewrite fmap_cons, mjoin_cons. simpl take.
  rewrite fmap_cons, mjoin_cons, <-IH. done.
Qed.
Lemma drop_word_bytes n ws :
  drop (4 * n) (mjoin (word_bytes <$> ws)) = mjoin (word_bytes <$> drop n ws).
Proof.
  revert ws. induction n as [|n IH]; intros ws; [done|]. destruct ws as [|w ws]; [done|].
  replace (4 * S n)%nat with (4 + 4 * n)%nat by lia. rewrite fmap_cons, mjoin_cons. simpl drop.
  by rewrite IH.
Qed.
End bytes.
