(* ===== verification/BitmapProps.v ===== *)
(** * Properties of lib/kernel/bitmap.c *)
From S2P Require Import Prelude Bitmap BitmapFacts.
Local Open Scope Z_scope.

(** Well-formedness can be checked on a concrete bitmap. *)
Definition wfb (b : bitmap) : bool :=
  (0 <=? bit_cnt b) && (bit_cnt b <? 2 ^ 32 - 31) &&
  (elem_cnt (bit_cnt b) <=? Z.of_nat (length (bits b))) &&
  forallb (λ e, (0 <=? e) && (e <? 2 ^ 32)) (bits b).

Lemma wfb_sound b : wfb b = true → wf b.
Proof.
  unfold wfb. rewrite !andb_true_iff, forallb_forall, !Z.leb_le, Z.ltb_lt.
  intros (((? & ?) & ?) & Hf). split; [lia|done|]. apply Forall_forall. intros e He.
  apply list_elem_of_In in He. specialize (Hf e He).
  rewrite andb_true_iff, Z.leb_le, Z.ltb_lt in Hf. lia.
Qed.

(** 70 bits in three words: bits 0-3, 8 and 64 are set. *)
Definition ex_bitmap : bitmap := Bitmap 70 [271; 0; 1].

(** [bitmap_scan_and_flip] allocates: it returns the first index at or
    after [start] where [cnt] consecutive bits have the wanted value, inverts
    exactly those bits, and when there is no such place it returns
    [BITMAP_ERROR] and changes nothing. *)
Theorem bitmap_scan_and_flip_correct b start cnt v :
  wf b → 0 ≤ start ≤ bit_cnt b → 0 ≤ cnt →
  ∃ r b', bitmap_scan_and_flip start cnt v b = Ok (r, b') ∧ wf b' ∧
    ((r ≠ BITMAP_ERROR ∧ first_group b start cnt v r ∧
      ∀ j, 0 ≤ j → bit b' j = if (r <=? j) && (j <? r + cnt) then negb v else bit b j) ∨
     (r = BITMAP_ERROR ∧ no_group b start cnt v ∧ b' = b)).
Proof.
  intros Hwf Hs Hc. apply wp_ok. unfold bitmap_scan_and_flip. wp_step.
  eapply wp_mono; [by apply wp_bitmap_scan|].
  intros r b' [-> [[Hr Hg]|[-> Hg]]].
  - rewrite (proj2 (Z.eqb_neq r _)) by done. simpl. pose proof Hg as (? & ? & _).
    wp_step. eapply wp_mono; [apply wp_bitmap_set_multiple; [done|lia..]|].
    intros _ b' (Hwf' & _ & Hb). wp_steps. split; [done|]. by left.
  - rewrite Z.eqb_refl. simpl. wp_steps. split; [done|]. by right.
Qed.

Lemma bitmap_scan_and_flip_correct_witness :
  ∃ r b', bitmap_scan_and_flip 1 5 false ex_bitmap = Ok (r, b') ∧ wf b' ∧
    ((r ≠ BITMAP_ERROR ∧ first_group ex_bitmap 1 5 false r ∧
      ∀ j, 0 ≤ j → bit b' j = if (r <=? j) && (j <? r + 5) then negb false else bit ex_bitmap j) ∨
     (r = BITMAP_ERROR ∧ no_group ex_bitmap 1 5 false ∧ b' = ex_bitmap)).
Proof.
  apply bitmap_scan_and_flip_correct; [apply wfb_sound; reflexivity|simpl; lia|lia].
Defined.

(** Writing one bit changes that bit and no other, as [bitmap_test] sees
    them. *)
Theorem bitmap_set_test b i j v :
  wf b → 0 ≤ i < bit_cnt b → 0 ≤ j < bit_cnt b →
  ∃ b' old new, bitmap_test j b = Ok (old, b) ∧ bitmap_set i v b = Ok (tt, b') ∧
    bitmap_test j b' = Ok (new, b') ∧ new = (if j =? i then v else old) ∧ wf b'.
Proof.
  intros Hwf Hi Hj.
  destruct (proj1 (wp_ok _ _ _) (wp_bitmap_set b i v Hwf Hi)) as ([] & b' & Hset & Hwf' & Hc & Hb).
  destruct (proj1 (wp_ok _ _ (λ r s, r = bit b j ∧ s = b))
    (wp_bitmap_test b j _ Hwf Hj (conj eq_refl eq_refl))) as (old & ? & Hold & -> & ->).
  destruct (proj1 (wp_ok _ _ (λ r s, r = bit b' j ∧ s = b'))
    (wp_bitmap_test b' j _ Hwf' ltac:(lia) (conj eq_refl eq_refl))) as (new & ? & Hnew & -> & ->).
  exists b', (bit b j), (bit b' j). split_and!; try done. apply Hb. lia.
Qed.

Lemma bitmap_set_test_witness :
  ∃ b' old new, bitmap_test 40 ex_bitmap = Ok (old, ex_bitmap) ∧
    bitmap_set 41 true ex_bitmap = Ok (tt, b') ∧
    bitmap_test 40 b' = Ok (new, b') ∧ new = (if 40 =? 41 then true else old) ∧ wf b'.
Proof.
  apply bitmap_set_test; [apply wfb_sound; reflexivity|simpl; lia..].
Defined.

(** A new bitmap is all false, whatever the memory it was given held. *)
Theorem bitmap_create_clear n mem :
  0 ≤ n < 2 ^ 32 - 31 → Z.of_nat (length mem) = elem_cnt n →
  Forall (λ e, 0 ≤ e < 2 ^ 32) mem →
  ∃ b, bitmap_create n true (Some mem) = Ok (Some b) ∧ wf b ∧ bit_cnt b = n ∧
    ∀ i, 0 ≤ i < n → bit b i = false.
Proof.
  intros Hn Hlen Hw. assert (wf (Bitmap n mem)) as Hwf by (split; simpl; [done|lia|done]).
  destruct (proj1 (wp_ok _ _ _) (wp_bitmap_set_all _ Hwf false)) as ([] & b & Hrun & Hwf' & Hc & Hb).
  exists b. unfold bitmap_create. simpl. rewrite Hrun. split_and!; try done.
  intros i Hi. rewrite Hb by lia. cbn [bit_cnt].
  by rewrite (proj2 (Z.leb_le 0 i)), (proj2 (Z.ltb_lt i (0 + n))) by lia.
Qed.

Lemma bitmap_create_clear_witness :
  ∃ b, bitmap_create 70 true (Some [7; 2 ^ 32 - 1; 12345]) = Ok (Some b) ∧ wf b ∧ bit_cnt b = 70 ∧
    ∀ i, 0 ≤ i < 70 → bit b i = false.
Proof.
  apply bitmap_create_clear; [lia|reflexivity|repeat constructor; lia].
Defined.

Section file.
Context {F : Type} (file_write_at : list Z → F * Z) (file_read_at : F → Z → list Z).

Lemma wp_bitmap_write b (Q : F * bool → bitmap → Prop) :
  let data := take (Z.to_nat (byte_cnt (bit_cnt b))) (mjoin (word_bytes <$> bits b)) in
  Q ((file_write_at data).1, (file_write_at data).2 =? byte_cnt (bit_cnt b)) b →
  wp (bitmap_write file_write_at) b Q.
Proof. intros data HQ. unfold bitmap_write, id. wp_steps. fold data. by destruct (file_write_at data). Qed.

Lemma byte_cnt_words n : 0 ≤ n < 2 ^ 32 - 31 → byte_cnt n = 4 * elem_cnt n ∧ 0 ≤ elem_cnt n ≤ n.
Proof.
  intros Hn. unfold byte_cnt. rewrite elem_cnt_ceil by done.
  assert ((n + 31) `div` 32 < 2 ^ 27 + 1) by (apply Z.div_lt_upper_bound; lia).
  assert (0 ≤ (n + 31) `div` 32) by (apply Z.div_pos; lia).
  assert ((n + 31) `div` 32 ≤ n).
  { destruct (decide (n = 0)) as [->|]; [done|].
    apply Z.div_le_upper_bound; lia. }
  split; [apply u32_small; lia|lia].
Qed.

Lemma last_mask_bit b k :
  0 ≤ k < 32 → 0 ≤ bit_cnt b →
  Z.testbit (last_mask b) k = (bit_cnt b `mod` 32 =? 0) || (k <? bit_cnt b `mod` 32).
Proof.
  intros Hk Hb. unfold last_mask, ELEM_BITS. pose proof (Z.mod_pos_bound (bit_cnt b) 32).
  destruct (Z.eqb_spec (bit_cnt b `mod` 32) 0) as [E|E]; simpl.
  - change (u32 (-1)) with (Z.ones 32). apply Z.ones_spec_low. lia.
  - rewrite Z.shiftl_1_l. change (2 ^ (bit_cnt b `mod` 32) - 1)
      with (Z.pred (2 ^ (bit_cnt b `mod` 32))).
    rewrite <-Z.ones_equiv. unfold u32. rewrite <-Z.land_ones, Z.land_spec by lia.
    rewrite (Z.ones_spec_low 32), andb_true_r by lia. apply Z.testbit_ones_nonneg; lia.
Qed.

Lemma last_word_in_use n i :
  0 ≤ i < n → i `div` 32 = (n + 31) `div` 32 - 1 → n `mod` 32 = 0 ∨ i `mod` 32 < n `mod` 32.
Proof.
  intros Hi Hd. pose proof (Z.div_mod n 32 ltac:(lia)). pose proof (Z.div_mod i 32 ltac:(lia)).
  pose proof (Z.div_mod (n + 31) 32 ltac:(lia)).
  pose proof (Z.mod_pos_bound n 32 ltac:(lia)). pose proof (Z.mod_pos_bound (n + 31) 32 ltac:(lia)).
  pose proof (Z.mod_pos_bound i 32 ltac:(lia)). lia.
Qed.

(** Masking the last word keeps every bit in use. *)
Lemma masked_bit b b' ws i :
  wf b → 0 ≤ i < bit_cnt b → bit_cnt b' = bit_cnt b →
  ws !! Z.to_nat (i `div` 32) = bits b !! Z.to_nat (i `div` 32) →
  bits b' = alter (λ e, Z.land e (last_mask b)) (Z.to_nat (elem_cnt (bit_cnt b) - 1)) ws →
  bit b' i = bit b i.
Proof.
  intros Hwf Hi Hc Hws Hb'. pose proof (wf_cnt _ Hwf) as Hn.
  destruct (elem_idx_in b i Hwf Hi) as [e He]. unfold elem_idx, ELEM_BITS in He.
  unfold bit. rewrite Hb'. rewrite elem_cnt_ceil by done.
  destruct (decide (Z.to_nat ((bit_cnt b + 31) `div` 32 - 1) = Z.to_nat (i `div` 32))) as [Heq|Hne].
  - rewrite Heq, list_lookup_alter_eq, Hws, He. simpl. rewrite Z.land_spec.
    rewrite last_mask_bit by (try apply Z.mod_pos_bound; lia).
    assert (i `div` 32 = (bit_cnt b + 31) `div` 32 - 1) as Hd.
    { pose proof (Z.div_pos i 32). assert (1 ≤ (bit_cnt b + 31) `div` 32)
        by (apply Z.div_le_lower_bound; lia). lia. }
    destruct (last_word_in_use (bit_cnt b) i) as [->|Hlt]; [lia|done| |];
      [by rewrite andb_true_r|].
    rewrite (proj2 (Z.ltb_lt _ _) Hlt), orb_true_r. by rewrite andb_true_r.
  - by rewrite list_lookup_alter_ne, Hws.
Qed.

(** Reading a file that holds the words [ws]. *)
Lemma wp_bitmap_read_words (rd : Z → list Z) ws b :
  wf b → 0 < bit_cnt b → Z.of_nat (length ws) = elem_cnt (bit_cnt b) →
  Forall (λ e, 0 ≤ e < 2 ^ 32) ws →
  rd (byte_cnt (bit_cnt b)) = mjoin (word_bytes <$> ws) →
  wp (bitmap_read rd) b (λ r b', r = true ∧ bit_cnt b' = bit_cnt b ∧
    bits b' = alter (λ e, Z.land e (last_mask b)) (Z.to_nat (elem_cnt (bit_cnt b) - 1))
                (ws ++ drop (length ws) (bits b))).
Proof.
  intros Hwf Hpos Hlen Hws Hrd. pose proof (wf_cnt _ Hwf) as Hn.
  destruct (byte_cnt_words _ Hn) as [Hbc Hec].
  unfold bitmap_read, get_elem, set_elem, get_elem, id. wp_steps.
  rewrite (proj2 (Z.ltb_lt 0 _)) by done. rewrite Hrd. wp_steps. cbn [bit_cnt bits].
  rewrite length_word_bytes, drop_word_bytes, <-join_app, <-fmap_app, words_roundtrip.
  2: { apply Forall_app; split; [done|]. apply Forall_drop, Hwf. }
  assert (1 ≤ elem_cnt (bit_cnt b)).
  { rewrite elem_cnt_ceil by done. apply Z.div_le_lower_bound; lia. }
  rewrite u32_small by lia.
  assert (is_Some ((ws ++ drop (length ws) (bits b)) !! Z.to_nat (elem_cnt (bit_cnt b) - 1)))
    as [e He] by (apply lookup_lt_is_Some; rewrite length_app; lia).
  apply (wp_the _ e); [done|]. wp_steps. cbn [bits].
  apply (wp_the _ e); [done|]. wp_steps. split_and!; [apply Z.eqb_eq; lia|done|].
  simpl. rewrite list_insert_alter. apply list_alter_ext; [|done].
  intros x Hx. by simplify_eq.
Qed.

Context (Hio : ∀ bs, (file_write_at bs).2 = Z.of_nat (length bs) ∧
  file_read_at (file_write_at bs).1 (Z.of_nat (length bs)) = bs).

(** A bitmap written to a file and read back into a bitmap of the same
    size has the same bits, given that the file returns the bytes written. *)
Theorem bitmap_file_roundtrip b b2 :
  wf b → wf b2 → bit_cnt b2 = bit_cnt b →
  ∃ f b2', bitmap_write file_write_at b = Ok ((f, true), b) ∧
    bitmap_read (file_read_at f) b2 = Ok (true, b2') ∧
    bit_cnt b2' = bit_cnt b ∧ ∀ i, 0 ≤ i < bit_cnt b → bit b2' i = bit b i.
Proof.
  intros Hwf Hwf2 Hcnt. pose proof (wf_cnt _ Hwf) as Hn.
  destruct (byte_cnt_words _ Hn) as [Hbc Hec].
  set (ec := Z.to_nat (elem_cnt (bit_cnt b))).
  assert (Z.to_nat (byte_cnt (bit_cnt b)) = (4 * ec)%nat) as Hsz by (subst ec; lia).
  assert (ec ≤ length (bits b) ∧ ec ≤ length (bits b2))%nat as [Hl Hl2].
  { destruct Hwf as [_ ? _], Hwf2 as [_ ? _]. rewrite Hcnt in *. lia. }
  set (data := mjoin (word_bytes <$> take ec (bits b))).
  assert (length data = (4 * ec)%nat) as Hlen.
  { unfold data. rewrite length_word_bytes, length_take. lia. }
  destruct (Hio data) as [Hw Hr]. exists (file_write_at data).1.
  assert (bitmap_write file_write_at b = Ok ((file_write_at data).1, true, b)) as ->.
  { apply wp_det_ok, wp_bitmap_write. rewrite Hsz, take_word_bytes. fold data. split; [|done].
    f_equal. apply Z.eqb_eq. lia. }
  enough (wp (bitmap_read (file_read_at (file_write_at data).1)) b2 (λ r b2', r = true ∧
    bit_cnt b2' = bit_cnt b ∧ ∀ i, 0 ≤ i < bit_cnt b → bit b2' i = bit b i)) as Hwp.
  { apply wp_ok in Hwp as (? & b2' & ? & -> & ? & ?). by exists b2'. }
  destruct (decide (0 < bit_cnt b)).
  2: { unfold bitmap_read, id. wp_steps. rewrite (proj2 (Z.ltb_ge 0 _)) by lia.
       wp_steps. split_and!; [done..|lia]. }
  eapply wp_mono; [apply (wp_bitmap_read_words _ (take ec (bits b)) b2 Hwf2)|].
  - lia.
  - rewrite length_take, Hcnt. lia.
  - apply Forall_take, Hwf.
  - rewrite Hcnt, Hbc. by replace (4 * elem_cnt (bit_cnt b)) with (Z.of_nat (length data)) by lia.
  - intros ? b2' (-> & Hc & Hb). split_and!; [done|congruence|]. intros i Hi.
    eapply masked_bit; [done|done|congruence| |].
    2: { rewrite Hb, Hcnt. unfold last_mask. by rewrite Hcnt. }
    destruct (elem_idx_in b i Hwf Hi) as [e He]. unfold elem_idx, ELEM_BITS in He.
    assert (Z.to_nat (i `div` 32) < ec)%nat as Hlt.
    { unfold ec. rewrite elem_cnt_ceil by done. pose proof (Z.div_pos i 32).
      assert (i `div` 32 < (bit_cnt b + 31) `div` 32); [|lia].
      apply Z.div_lt_upper_bound; [lia|]. pose proof (Z.mod_pos_bound (bit_cnt b + 31) 32).
      pose proof (Z.div_mod (bit_cnt b + 31) 32). lia. }
    rewrite lookup_app_l by (rewrite length_take; lia). by rewrite lookup_take_lt.
Qed.
End file.

Lemma bitmap_file_roundtrip_witness :
  let wr bs := (bs, Z.of_nat (length bs)) in
  let rd (f : list Z) n := take (Z.to_nat n) f in
  ∃ f b2', bitmap_write wr ex_bitmap = Ok ((f, true), ex_bitmap) ∧
    bitmap_read (rd f) (Bitmap 70 [1; 2; 3]) = Ok (true, b2') ∧
    bit_cnt b2' = bit_cnt ex_bitmap ∧
    ∀ i, 0 ≤ i < bit_cnt ex_bitmap → bit b2' i = bit ex_bitmap i.
Proof.
  intros wr rd. apply (bitmap_file_roundtrip wr rd).
  - intros bs. split; [reflexivity|]. subst rd. cbn beta.
    rewrite Nat2Z.id. apply firstn_all.
  - apply wfb_sound. reflexivity.
  - apply wfb_sound. reflexivity.
  - reflexivity.
Defined.

(** With [cnt = 0] the scan returns [start] (not 0, as the comment above
    [bitmap_scan_and_flip] says). *)
Lemma bitmap_scan_zero_count b start v :
  wf b → 0 ≤ start ≤ bit_cnt b → bitmap_scan_and_flip start 0 v b = Ok (start, b).
Proof.
  intros Hwf Hs. pose proof (wf_cnt _ Hwf). apply wp_det_ok.
  unfold bitmap_scan_and_flip, bitmap_scan. wp_steps.
  apply wp_assert; [apply Z.leb_le; lia|]. rewrite (proj2 (Z.leb_le 0 _)) by lia.
  unfold loop. wp_steps. rewrite (proj2 (Z.leb_le start _)) by lia. wp_steps.
  eapply wp_mono; [apply wp_bitmap_contains; [done|lia..]|]. intros [] b' [-> Hr];
    [destruct Hr as (? & ? & _); lia|].
  simpl. wp_steps. unfold BITMAP_ERROR. rewrite (proj2 (Z.eqb_neq start _)) by lia. simpl.
  unfold bitmap_set_multiple. wp_steps. apply wp_assert; [apply Z.leb_le; lia|].
  wp_steps. apply wp_assert; [apply Z.leb_le; rewrite u32_small; lia|]. by wp_steps.
Qed.
