(* ===== verification/Mem.v ===== *)
(** * Byte-addressed memory

    The memory that the C library functions (string.c, stdlib.c, ustar.c) work
    on: a finite map from addresses to bytes.  An address that is not in the map
    is not part of any object, and using it is a fault. *)
From S2P Require Import Prelude.
Local Open Scope Z_scope.

Abbreviation mem := (gmap Z Z) (only parsing).

Definition load (a : Z) : M mem Z := o ← gets (λ m : mem, m !! a); the o.
Definition store (a v : Z) : M mem unit := load a ;; modify (λ m : mem, <[a := v]> m).

(** Values of type [unsigned char]. *)
Definition u8 (x : Z) : Z := x `mod` 256.

(** A loop that runs along an object: it cannot make more turns than there are
    bytes of memory. *)
Definition scan {A B} (body : A → M mem (A + B)) (a : A) : M mem B :=
  λ m, loop (S (size m)) body a m.

(** Bytes [bs] written at [a]. *)
Fixpoint write (m : mem) (a : Z) (bs : list Z) : mem :=
  match bs with
  | [] => m
  | b :: r => <[a := b]> (write m (a + 1) r)
  end.

Definition bytes_at (m : mem) (a : Z) (bs : list Z) : Prop :=
  ∀ i b, bs !! i = Some b → m !! (a + Z.of_nat i) = Some b.
(** [n] bytes at [a] are part of some object. *)
Definition mapped (m : mem) (a n : Z) : Prop := ∀ x, a ≤ x < a + n → is_Some (m !! x).
(** The null-terminated string [s] at [a]. *)
Definition is_char (c : Z) : Prop := 0 < c < 256.
Definition cstr (m : mem) (a : Z) (s : list Z) : Prop :=
  bytes_at m a (s ++ [0]) ∧ Forall is_char s.

Section mem_facts.
Implicit Types (m : mem) (a x : Z) (bs s : list Z).

Lemma lookup_write m a bs x :
  write m a bs !! x =
    if decide (a ≤ x < a + Z.of_nat (length bs)) then bs !! Z.to_nat (x - a) else m !! x.
Proof.
  revert a. induction bs as [|b bs IH]; intros a; simpl.
  { by rewrite decide_False by lia. }
  rewrite lookup_insert. destruct (decide (a = x)) as [->|Hne].
  - rewrite decide_True by lia. by rewrite Z.sub_diag.
  - rewrite IH. destruct (decide (a + 1 ≤ x < a + 1 + Z.of_nat (length bs))).
    + rewrite decide_True by lia. by replace (Z.to_nat (x - a)) with (S (Z.to_nat (x - (a + 1)))) by lia.
    + by rewrite decide_False by lia.
Qed.

Lemma lookup_write_in m a bs i b : bs !! i = Some b → write m a bs !! (a + Z.of_nat i) = Some b.
Proof.
  intros H. rewrite lookup_write. apply lookup_lt_Some in H as ?. rewrite decide_True by lia.
  by replace (Z.to_nat (a + Z.of_nat i - a)) with i by lia.
Qed.
Lemma lookup_write_out m a bs x :
  x < a ∨ a + Z.of_nat (length bs) ≤ x → write m a bs !! x = m !! x.
Proof. intros. rewrite lookup_write. by rewrite decide_False by lia. Qed.

Lemma write_app m a bs cs : write m a (bs ++ cs) = write (write m (a + Z.of_nat (length bs)) cs) a bs.
Proof.
  revert a. induction bs as [|b bs IH]; intros a; simpl; [by rewrite Z.add_0_r|].
  rewrite IH. by replace (a + 1 + Z.of_nat (length bs)) with (a + Z.of_nat (S (length bs))) by lia.
Qed.

Lemma write_snoc m a bs b :
  write m a (bs ++ [b]) = <[a + Z.of_nat (length bs) := b]> (write m a bs).
Proof.
  apply map_eq. intros x. rewrite lookup_insert, !lookup_write, length_app. simpl.
  destruct (decide (a + Z.of_nat (length bs) = x)) as [<-|].
  - rewrite decide_True by lia. rewrite lookup_app_r by lia.
    by replace (Z.to_nat (a + Z.of_nat (length bs) - a) - length bs)%nat with O by lia.
  - destruct (decide (a ≤ x < a + Z.of_nat (length bs))).
    + rewrite decide_True by lia. by rewrite lookup_app_l by lia.
    + by rewrite decide_False by lia.
Qed.

Lemma write_same m a bs : bytes_at m a bs → write m a bs = m.
Proof.
  intros H. apply map_eq. intros x. rewrite lookup_write. case_decide as E; [|done].
  destruct (lookup_lt_is_Some_2 bs (Z.to_nat (x - a))) as [b Hb]; [lia|].
  specialize (H _ _ Hb). by rewrite Z2Nat.id, Zplus_minus in H by lia; rewrite H.
Qed.

Lemma bytes_at_write m a bs : bytes_at (write m a bs) a bs.
Proof. intros i b. apply lookup_write_in. Qed.

Lemma bytes_at_write_out m a bs a' bs' :
  bytes_at m a bs → a + Z.of_nat (length bs) ≤ a' ∨ a' + Z.of_nat (length bs') ≤ a →
  bytes_at (write m a' bs') a bs.
Proof.
  intros H Hd i b Hi. apply lookup_lt_Some in Hi as ?. rewrite lookup_write_out by lia. auto.
Qed.

Lemma bytes_at_nil m a : bytes_at m a [].
Proof. by intros i b. Qed.
Lemma bytes_at_cons m a b bs : bytes_at m a (b :: bs) ↔ m !! a = Some b ∧ bytes_at m (a + 1) bs.
Proof.
  split.
  - intros H. split; [by specialize (H 0%nat b eq_refl); rewrite Z.add_0_r in H|].
    intros i c Hi. specialize (H (S i) c Hi). by replace (a + 1 + Z.of_nat i) with (a + Z.of_nat (S i)) by lia.
  - intros [H0 H] [|i] c Hi; simpl in Hi; [simplify_eq; by rewrite Z.add_0_r|].
    specialize (H i c Hi). by replace (a + Z.of_nat (S i)) with (a + 1 + Z.of_nat i) by lia.
Qed.
Lemma bytes_at_app m a bs cs :
  bytes_at m a (bs ++ cs) ↔ bytes_at m a bs ∧ bytes_at m (a + Z.of_nat (length bs)) cs.
Proof.
  revert a. induction bs as [|b bs IH]; intros a; simpl.
  - rewrite Z.add_0_r. split; [split; [apply bytes_at_nil|done]|by intros [_ ?]].
  - rewrite !bytes_at_cons, IH.
    replace (a + Z.of_nat (S (length bs))) with (a + 1 + Z.of_nat (length bs)) by lia. tauto.
Qed.
Lemma bytes_at_unique m a bs cs : bytes_at m a bs → bytes_at m a cs → length bs = length cs → bs = cs.
Proof.
  revert a cs. induction bs as [|b bs IH]; intros a [|c cs] Hb Hc Hl; try done.
  apply bytes_at_cons in Hb as [Hb0 Hb], Hc as [Hc0 Hc]. simpl in Hl.
  f_equal; [congruence|]. eapply IH; eauto.
Qed.

Lemma bytes_at_mapped m a bs : bytes_at m a bs → mapped m a (Z.of_nat (length bs)).
Proof.
  intros H x Hx. destruct (lookup_lt_is_Some_2 bs (Z.to_nat (x - a))) as [b Hb]; [lia|].
  exists b. specialize (H _ _ Hb). by rewrite Z2Nat.id, Zplus_minus in H by lia.
Qed.

(** An object is not larger than the memory. *)
Lemma bytes_at_size m a bs : bytes_at m a bs → (length bs ≤ size m)%nat.
Proof.
  intros H. rewrite <-(size_dom (D := gset Z)).
  assert (size (list_to_set ((λ i, a + Z.of_nat i) <$> seq 0 (length bs)) : gset Z) = length bs) as <-.
  { rewrite size_list_to_set; [by rewrite length_fmap, length_seq|].
    apply (NoDup_fmap_2_strong); [|apply NoDup_seq]. intros; lia. }
  apply subseteq_size. intros x Hx. apply elem_of_list_to_set, list_elem_of_fmap in Hx as (i & -> & Hi).
  apply elem_of_seq in Hi. apply elem_of_dom.
  apply (bytes_at_mapped m a bs H). lia.
Qed.

Lemma cstr_cons m a c s : cstr m a (c :: s) ↔ m !! a = Some c ∧ is_char c ∧ cstr m (a + 1) s.
Proof. unfold cstr. simpl. rewrite bytes_at_cons, Forall_cons. tauto. Qed.
Lemma cstr_nil m a : cstr m a [] ↔ m !! a = Some 0.
Proof.
  unfold cstr. simpl. rewrite bytes_at_cons. split; [tauto|].
  intros ?. split_and!; [done|apply bytes_at_nil|constructor].
Qed.
Lemma cstr_drop m a s i : cstr m a s → (i ≤ length s)%nat → cstr m (a + Z.of_nat i) (drop i s).
Proof.
  intros [H Hn] Hi. rewrite <-(take_drop i s), <-app_assoc in H. apply bytes_at_app in H as [_ H].
  rewrite length_take, Nat.min_l in H by lia. split; [done|]. by apply Forall_drop.
Qed.
Lemma cstr_bytes m a s : cstr m a s → bytes_at m a s.
Proof. intros [H _]. by apply bytes_at_app in H as [? _]. Qed.
Lemma cstr_size m a s : cstr m a s → (length s < size m)%nat.
Proof. intros [H _]. apply bytes_at_size in H. rewrite length_app in H. simpl in H. lia. Qed.
Lemma cstr_lookup m a s i c : cstr m a s → s !! i = Some c → m !! (a + Z.of_nat i) = Some c ∧ is_char c.
Proof.
  intros [H Hn] Hi. split; [apply H; by apply lookup_app_l_Some|]. by eapply Forall_lookup_1.
Qed.
Lemma cstr_end m a s : cstr m a s → m !! (a + Z.of_nat (length s)) = Some 0.
Proof. intros [H _]. apply bytes_at_app in H as [_ H]. by apply bytes_at_cons in H as [? _]. Qed.
Lemma cstr_write_out m a s a' bs :
  cstr m a s → a + Z.of_nat (length s) < a' ∨ a' + Z.of_nat (length bs) ≤ a → cstr (write m a' bs) a s.
Proof. intros [H Hn] Hd. split; [|done]. apply bytes_at_write_out; [done|]. rewrite length_app. simpl. lia. Qed.
Lemma cstr_write m a s : Forall is_char s → cstr (write m a (s ++ [0])) a s.
Proof. split; [apply bytes_at_write|done]. Qed.

Lemma wp_load m a b (Q : Z → mem → Prop) : m !! a = Some b → Q b m → wp (load a) m Q.
Proof. intros H HQ. unfold load. wp_steps. by eapply wp_the. Qed.
Lemma wp_store m a v (Q : unit → mem → Prop) : is_Some (m !! a) → Q tt (<[a := v]> m) → wp (store a v) m Q.
Proof. intros [b H] HQ. unfold store. wp_step. eapply wp_load; [done|]. by wp_steps. Qed.

(** Loops along memory: the measure stays within its size. *)
Lemma wp_scan {G A B} (I : G → A → mem → Prop) (meas : G → nat) (body : A → M mem (A + B))
    (Q : B → mem → Prop) (g : G) (a : A) m :
  (∀ (g : G) (a : A) m, I g a m →
     wp (body a) m (λ r m',
       match r with
       | inl a' => ∃ g', I g' a' m' ∧ (meas g' < meas g)%nat
       | inr b => Q b m'
       end)) →
  I g a m → (meas g ≤ size m)%nat → wp (scan body a) m Q.
Proof. intros Hb HI Hm. unfold scan. eapply (wp_loop I meas); [done|done|lia]. Qed.
End mem_facts.

#[export] Hint Resolve bytes_at_write bytes_at_nil cstr_bytes : pintos.
