(* ===== verification/CString.v ===== *)
(** * lib/string.c

    Every function, on the memory of Mem.v.  Pointers are addresses, the null
    pointer is 0; a [char] is the byte it is stored as. *)
From S2P Require Import Prelude Mem.
Local Open Scope Z_scope.

(** [ASSERT (p != NULL || size == 0)]. *)
Definition valid_block (p size : Z) : bool := negb (p =? 0) || (size =? 0).

(** [while (size-- > 0) *dst++ = *src++;] and the final value of [dst]. *)
Definition copy_up (dst src size : Z) : M mem Z :=
  loop (S (Z.to_nat size)) (λ '(dst, src, size),
    if 0 <? size then
      v ← load src; store dst v ;; mret (inl (dst + 1, src + 1, size - 1))
    else mret (inr dst)) (dst, src, size).
(** [while (size-- > 0) *--dst = *--src;] *)
Definition copy_down (dst src size : Z) : M mem Z :=
  loop (S (Z.to_nat size)) (λ '(dst, src, size),
    if 0 <? size then
      v ← load (src - 1); store (dst - 1) v ;; mret (inl (dst - 1, src - 1, size - 1))
    else mret (inr dst)) (dst, src, size).

Definition memcpy (dst_ src_ size : Z) : M mem Z :=
  ASSERT (valid_block dst_ size) ;;
  ASSERT (valid_block src_ size) ;;
  copy_up dst_ src_ size ;;
  mret dst_.

Definition memmove (dst_ src_ size : Z) : M mem Z :=
  ASSERT (valid_block dst_ size) ;;
  ASSERT (valid_block src_ size) ;;
  if dst_ <? src_ then copy_up dst_ src_ size
  else copy_down (dst_ + size) (src_ + size) size.

Definition memcmp (a_ b_ size : Z) : M mem Z :=
  ASSERT (valid_block a_ size) ;;
  ASSERT (valid_block b_ size) ;;
  loop (S (Z.to_nat size)) (λ '(a, b, size),
    if 0 <? size then
      x ← load a; y ← load b;
      if negb (x =? y) then mret (inr (if y <? x then 1 else -1))
      else mret (inl (a + 1, b + 1, size - 1))
    else mret (inr 0)) (a_, b_, size).

Definition strcmp (a_ b_ : Z) : M mem Z :=
  ASSERT (negb (a_ =? 0)) ;;
  ASSERT (negb (b_ =? 0)) ;;
  scan (λ '(a, b),
    x ← load a;
    if x =? 0 then y ← load b; mret (inr (if x <? y then -1 else if y <? x then 1 else 0))
    else
      y ← load b;
      if x =? y then mret (inl (a + 1, b + 1))
      else mret (inr (if x <? y then -1 else if y <? x then 1 else 0))) (a_, b_).

Definition memchr (block_ ch_ size : Z) : M mem Z :=
  let ch := u8 ch_ in
  ASSERT (valid_block block_ size) ;;
  loop (S (Z.to_nat size)) (λ '(block, size),
    if 0 <? size then
      x ← load block;
      if x =? ch then mret (inr block) else mret (inl (block + 1, size - 1))
    else mret (inr 0)) (block_, size).

Definition strchr (string c_ : Z) : M mem Z :=
  let c := u8 c_ in
  ASSERT (negb (string =? 0)) ;;
  scan (λ string,
    x ← load string;
    if x =? c then mret (inr string)
    else if x =? 0 then mret (inr 0)
    else mret (inl (string + 1))) string.

(** The common loop of [strcspn] and [strspn]: count while the test of
    [strchr (set, string[length])] against null comes out as [found]. *)
Definition span_loop (found : bool) (string set : Z) : M mem Z :=
  scan (λ length,
    x ← load (string + length);
    if negb (x =? 0) then
      p ← strchr set x;
      if eqb (negb (p =? 0)) found then mret (inr length) else mret (inl (length + 1))
    else mret (inr length)) 0.

Definition strcspn (string stop : Z) : M mem Z := span_loop true string stop.
Definition strspn (string skip : Z) : M mem Z := span_loop false string skip.

Definition strpbrk (string stop : Z) : M mem Z :=
  scan (λ string,
    x ← load string;
    if negb (x =? 0) then
      p ← strchr stop x;
      if negb (p =? 0) then mret (inr string) else mret (inl (string + 1))
    else mret (inr 0)) string.

Definition strrchr (string c_ : Z) : M mem Z :=
  let c := u8 c_ in
  scan (λ '(string, p),
    x ← load string;
    if negb (x =? 0) then mret (inl (string + 1, if x =? c then string else p))
    else mret (inr p)) (string, 0).

Definition strlen (string : Z) : M mem Z :=
  ASSERT (negb (string =? 0)) ;;
  scan (λ p,
    x ← load p;
    if negb (x =? 0) then mret (inl (p + 1)) else mret (inr (p - string))) string.

Definition strnlen (string maxlen : Z) : M mem Z :=
  scan (λ length,
    x ← load (string + length);
    if negb (x =? 0) && (length <? maxlen) then mret (inl (length + 1))
    else mret (inr length)) 0.

Definition strstr (haystack needle : Z) : M mem Z :=
  haystack_len ← strlen haystack;
  needle_len ← strlen needle;
  if needle_len <=? haystack_len then
    loop (S (S (Z.to_nat haystack_len))) (λ i,
      if i <=? haystack_len - needle_len then
        r ← memcmp (haystack + i) needle needle_len;
        if r =? 0 then mret (inr (haystack + i)) else mret (inl (i + 1))
      else mret (inr 0)) 0
  else mret 0.

(** [strtok_r]: [save] is what [*save_ptr] holds before the call; the result is
    the token (or null) and what [*save_ptr] holds afterwards. *)
Definition strtok_r (s delimiters save : Z) : M mem (Z * Z) :=
  ASSERT (negb (delimiters =? 0)) ;;
  let s := if s =? 0 then save else s in
  ASSERT (negb (s =? 0)) ;;
  r ← scan (λ s,
    x ← load s;
    p ← strchr delimiters x;
    if negb (p =? 0) then
      if x =? 0 then mret (inr (inl s)) else mret (inl (s + 1))
    else mret (inr (inr s))) s;
  match r with
  | inl e => mret (0, e)
  | inr token =>
      s ← scan (λ s,
        x ← load s;
        p ← strchr delimiters x;
        if p =? 0 then mret (inl (s + 1)) else mret (inr s)) token;
      x ← load s;
      if negb (x =? 0) then store s 0 ;; mret (token, s + 1)
      else mret (token, s)
  end.

Definition memset (dst_ value size : Z) : M mem Z :=
  ASSERT (valid_block dst_ size) ;;
  loop (S (Z.to_nat size)) (λ '(dst, size),
    if 0 <? size then store dst (u8 value) ;; mret (inl (dst + 1, size - 1))
    else mret (inr tt)) (dst_, size) ;;
  mret dst_.

Definition strlcpy (dst src size : Z) : M mem Z :=
  ASSERT (negb (dst =? 0)) ;;
  ASSERT (negb (src =? 0)) ;;
  src_len ← strlen src;
  (if 0 <? size then
     let dst_len := if src_len <? size - 1 then src_len else size - 1 in
     memcpy dst src dst_len ;;
     store (dst + dst_len) 0
   else mret tt) ;;
  mret src_len.

Definition strlcat (dst src size : Z) : M mem Z :=
  ASSERT (negb (dst =? 0)) ;;
  ASSERT (negb (src =? 0)) ;;
  src_len ← strlen src;
  dst_len ← strlen dst;
  (if (0 <? size) && (dst_len <? size) then
     let copy_cnt := if src_len <? size - dst_len - 1 then src_len else size - dst_len - 1 in
     memcpy (dst + dst_len) src copy_cnt ;;
     store (dst + dst_len + copy_cnt) 0
   else mret tt) ;;
  mret (u32 (src_len + dst_len)).
