(* ===== verification/CStringFacts.v ===== *)
(** * What the functions of lib/string.c compute

    Each function against a definition on lists of bytes. *)
From S2P Require Import Prelude Mem CString.
Local Open Scope Z_scope.

(** ** Reference definitions *)

(** Lexicographic comparison, a proper prefix being less. *)
Fixpoint str_cmp (s t : list Z) : Z :=
  match s, t with
  | [], [] => 0
  | [], _ => -1
  | _, [] => 1
  | x :: s', y :: t' => if x =? y then str_cmp s' t' else if x <? y then -1 else 1
  end.

(** The position of the first character that satisfies [P]. *)
Fixpoint find_from (P : Z → bool) (a : Z) (s : list Z) : option Z :=
  match s with
  | [] => None
  | x :: s' => if P x then Some a else find_from P (a + 1) s'
  end.
Definition pointer (o : option Z) : Z := default 0 o.

(** The last one. *)
Fixpoint find_last (P : Z → bool) (a p : Z) (s : list Z) : Z :=
  match s with
  | [] => p
  | x :: s' => find_last P (a + 1) (if P x then a else p) s'
  end.

(** The longest prefix whose characters satisfy [P], and the rest. *)
Fixpoint span (P : Z → bool) (s : list Z) : list Z * list Z :=
  match s with
  | [] => ([], [])
  | x :: s' => if P x then let '(u, v) := span P s' in (x :: u, v) else ([], s)
  end.

(** The tokens of a string: the maximal nonempty runs of characters that are
    not delimiters. *)
Definition is_delim (d : list Z) (x : Z) : bool := bool_decide (x ∈ d).
Fixpoint tokens_from (d : list Z) (cur : list Z) (s : list Z) : list (list Z) :=
  match s with
  | [] => if decide (cur = []) then [] else [cur]
  | x :: s' =>
      if is_delim d x
      then if decide (cur = []) then tokens_from d [] s' else cur :: tokens_from d [] s'
      else tokens_from d (cur ++ [x]) s'
  end.
Definition tokens (d s : list Z) : list (list Z) := tokens_from d [] s.

(** ** Blocks of memory *)
Section blocks.
Implicit Types (m : mem) (a dst src : Z) (bs : list Z).

Lemma u8_small x : 0 ≤ x < 256 → u8 x = x.
Proof. intros. by apply Z.mod_small. Qed.

Lemma take_S_snoc {A} (xs : list A) i x : xs !! i = Some x → take (S i) xs = take i xs ++ [x].
Proof. apply take_S_r. Qed.

Lemma wp_copy_up m dst src bs n (Q : Z → mem → Prop) :
  n = Z.of_nat (length bs) → bytes_at m src bs → mapped m dst n →
  dst ≤ src ∨ src + n ≤ dst →
  Q (dst + n) (write m dst bs) → wp (copy_up dst src n) m Q.
Proof.
  intros -> Hb Hm Hd HQ. unfold copy_up.
  apply (wp_loop (λ (i : nat) '(d, s, k) m', (i ≤ length bs)%nat ∧ d = dst + Z.of_nat i ∧
    s = src + Z.of_nat i ∧ k = Z.of_nat (length bs) - Z.of_nat i ∧ m' = write m dst (take i bs))
    (λ i, length bs - i)%nat) with (g := O);
    [|split_and!; simpl; lia || done|lia].
  intros i [[d s] k] m' (Hi & -> & -> & -> & ->). destruct (Z.ltb_spec 0 (Z.of_nat (length bs) - Z.of_nat i)).
  - destruct (lookup_lt_is_Some_2 bs i) as [b Hib]; [lia|].
    assert (length (take i bs) = i) as Hl by (rewrite length_take; lia).
    wp_step. eapply wp_load; [rewrite lookup_write_out by (rewrite Hl; lia); by apply Hb|].
    wp_step. apply wp_store; [rewrite lookup_write_out by (rewrite Hl; lia); apply Hm; lia|]. wp_steps.
    exists (S i). split_and!; try lia. by rewrite (take_S_snoc bs i b Hib), write_snoc, Hl.
  - wp_steps. replace i with (length bs) in * by lia. by rewrite take_ge by lia.
Qed.

Lemma wp_copy_down m dst src bs n (Q : Z → mem → Prop) :
  n = Z.of_nat (length bs) → bytes_at m src bs → mapped m dst n → src ≤ dst →
  Q dst (write m dst bs) → wp (copy_down (dst + n) (src + n) n) m Q.
Proof.
  intros -> Hb Hm Hd HQ. unfold copy_down.
  apply (wp_loop (λ (i : nat) '(d, s, k) m', (i ≤ length bs)%nat ∧ d = dst + Z.of_nat i ∧
    s = src + Z.of_nat i ∧ k = Z.of_nat i ∧ m' = write m (dst + Z.of_nat i) (drop i bs))
    id) with (g := length bs);
    [|split_and!; try (lia || done); by rewrite drop_ge by lia|unfold id; lia].
  intros i [[d s] k] m' (Hi & -> & -> & -> & ->). destruct (Z.ltb_spec 0 (Z.of_nat i)).
  - destruct i as [|j]; [lia|]. destruct (lookup_lt_is_Some_2 bs j) as [b Hjb]; [lia|].
    wp_step. eapply wp_load.
    { rewrite lookup_write_out by lia. replace (src + Z.of_nat (S j) - 1) with (src + Z.of_nat j) by lia.
      by apply Hb. }
    wp_step. apply wp_store; [rewrite lookup_write_out by lia; apply Hm; lia|]. wp_steps.
    exists j. unfold id. split_and!; try lia. rewrite (drop_S bs b j) by exact Hjb. simpl.
    replace (dst + Z.of_nat (S j) - 1) with (dst + Z.of_nat j) by lia.
    by replace (dst + Z.of_nat j + 1) with (dst + Z.of_nat (S j)) by lia.
  - wp_steps. replace i with O in * by lia. simpl. by rewrite Z.add_0_r, drop_0.
Qed.

Lemma valid_block_pos a n : 0 < a → valid_block a n = true.
Proof. intros. unfold valid_block. by rewrite (proj2 (Z.eqb_neq a 0)) by lia. Qed.

Lemma wp_memcpy m dst src bs n (Q : Z → mem → Prop) :
  n = Z.of_nat (length bs) → bytes_at m src bs → mapped m dst n → 0 < dst → 0 < src →
  dst ≤ src ∨ src + n ≤ dst →
  Q dst (write m dst bs) → wp (memcpy dst src n) m Q.
Proof.
  intros Hn Hb Hm H0 H1 Hd HQ. unfold memcpy. wp_step. apply wp_assert; [by apply valid_block_pos|].
  wp_step. apply wp_assert; [by apply valid_block_pos|]. wp_step. by eapply wp_copy_up.
Qed.

Lemma wp_memmove m dst src bs n (Q : Z → mem → Prop) :
  n = Z.of_nat (length bs) → bytes_at m src bs → mapped m dst n → 0 < dst → 0 < src →
  Q (if dst <? src then dst + n else dst) (write m dst bs) → wp (memmove dst src n) m Q.
Proof.
  intros Hn Hb Hm H0 H1 HQ. unfold memmove. wp_step. apply wp_assert; [by apply valid_block_pos|].
  wp_step. apply wp_assert; [by apply valid_block_pos|]. destruct (Z.ltb_spec dst src).
  - eapply wp_copy_up; try done. lia.
  - by eapply wp_copy_down.
Qed.

Lemma wp_memset m dst v n (Q : Z → mem → Prop) :
  0 ≤ n → mapped m dst n → 0 < dst →
  Q dst (write m dst (replicate (Z.to_nat n) (u8 v))) → wp (memset dst v n) m Q.
Proof.
  intros Hn Hm H0 HQ. unfold memset. wp_step. apply wp_assert; [by apply valid_block_pos|]. wp_step.
  apply (wp_loop (λ (i : nat) '(d, k) m', (i ≤ Z.to_nat n)%nat ∧ d = dst + Z.of_nat i ∧
    k = n - Z.of_nat i ∧ m' = write m dst (replicate i (u8 v))) (λ i, Z.to_nat n - i)%nat) with (g := O);
    [|split_and!; simpl; lia || done|lia].
  intros i [d k] m' (Hi & -> & -> & ->). destruct (Z.ltb_spec 0 (n - Z.of_nat i)).
  - wp_step. apply wp_store; [rewrite lookup_write_out by (rewrite length_replicate; lia); apply Hm; lia|].
    wp_steps. exists (S i). split_and!; try lia.
    by rewrite replicate_S_end, write_snoc, length_replicate.
  - wp_steps. by replace i with (Z.to_nat n) in * by lia.
Qed.

Lemma str_cmp_refl s : str_cmp s s = 0.
Proof. induction s as [|x s IH]; simpl; [done|]. by rewrite Z.eqb_refl. Qed.
Lemma str_cmp_eq s t : str_cmp s t = 0 ↔ s = t.
Proof.
  split; [|intros ->; apply str_cmp_refl].
  revert t. induction s as [|x s IH]; intros [|y t]; simpl; try done.
  destruct (Z.eqb_spec x y) as [->|]; [intros; f_equal; auto|]. by case_match.
Qed.
Lemma str_cmp_opp s t : str_cmp t s = - str_cmp s t.
Proof.
  revert t. induction s as [|x s IH]; intros [|y t]; simpl; try done. rewrite (Z.eqb_sym y x).
  destruct (Z.eqb_spec x y) as [->|]; [done|]. destruct (Z.ltb_spec x y), (Z.ltb_spec y x); lia.
Qed.

(** On blocks of the same length [memcmp] is the lexicographic order. *)
Lemma wp_memcmp m a b s t n (Q : Z → mem → Prop) :
  n = Z.of_nat (length s) → length t = length s → bytes_at m a s → bytes_at m b t → 0 < a → 0 < b →
  Q (str_cmp s t) m → wp (memcmp a b n) m Q.
Proof.
  intros Hn Hl Ha Hb H0 H1 HQ. unfold memcmp. wp_step. apply wp_assert; [by apply valid_block_pos|].
  wp_step. apply wp_assert; [by apply valid_block_pos|].
  apply (wp_loop (λ (g : list Z * list Z) '(a, b, k) m', m' = m ∧ k = Z.of_nat (length g.1) ∧
    length g.2 = length g.1 ∧ bytes_at m a g.1 ∧ bytes_at m b g.2 ∧ str_cmp g.1 g.2 = str_cmp s t)
    (λ g, length g.1)) with (g := (s, t)); [|by split_and!|simpl; lia].
  intros [s' t'] [[a' b'] k] m' (-> & -> & Hl' & Ha' & Hb' & Hc). simpl in *.
  destruct s' as [|x s'], t' as [|y t']; try done; simpl in *.
  { by rewrite <-Hc in HQ; wp_steps. }
  destruct (Z.ltb_spec 0 (Z.of_nat (S (length s')))); [|lia].
  apply bytes_at_cons in Ha' as [Hx Ha'], Hb' as [Hy Hb'].
  wp_step. eapply wp_load; [done|]. wp_step. eapply wp_load; [done|].
  destruct (Z.eqb_spec x y) as [->|Hne]; simpl; wp_steps.
  - exists (s', t'). simpl. split_and!; try done; lia.
  - rewrite <-Hc in HQ. destruct (Z.ltb_spec x y), (Z.ltb_spec y x); try lia; done.
Qed.
End blocks.

(** ** Searching strings *)
Section strings.
Implicit Types (m : mem) (a : Z) (s t d : list Z).

Lemma nonnull a : 0 < a → negb (a =? 0) = true.
Proof. intros. by rewrite (proj2 (Z.eqb_neq a 0)) by lia. Qed.

Lemma char_nonzero c : is_char c → (c =? 0) = false.
Proof. intros []. apply Z.eqb_neq. lia. Qed.

Lemma find_from_pos P a s p : find_from P a s = Some p → a ≤ p.
Proof.
  revert a. induction s as [|x s IH]; intros a; simpl; [done|].
  case_match; [intros [= ->]; lia|]. intros Hp%IH. lia.
Qed.
Lemma find_from_None P a s : find_from P a s = None ↔ Forall (λ x, P x = false) s.
Proof.
  revert a. induction s as [|x s IH]; intros a; simpl; [by split|].
  rewrite Forall_cons. destruct (P x); [split; [done|by intros [? _]]|]. rewrite IH. tauto.
Qed.

Lemma wp_strchr_find m a s c (Q : Z → mem → Prop) :
  cstr m a s → 0 < a → Q (pointer (find_from (λ x, x =? u8 c) a (s ++ [0]))) m → wp (strchr a c) m Q.
Proof.
  intros Hs Ha HQ. unfold strchr. wp_step. apply wp_assert; [by apply nonnull|].
  apply (wp_scan (λ s' a' m', m' = m ∧ cstr m a' s' ∧
    find_from (λ x, x =? u8 c) a' (s' ++ [0]) = find_from (λ x, x =? u8 c) a (s ++ [0]))
    length) with (g := s); [|done|apply cstr_size in Hs; lia].
  intros s' a' m' (-> & Hs' & Hf). rewrite <-Hf in HQ. destruct s' as [|x s']; cbn [app find_from] in *.
  - apply cstr_nil in Hs'. wp_step. eapply wp_load; [done|].
    destruct (0 =? u8 c); by wp_steps.
  - apply cstr_cons in Hs' as (Hx & Hc & Hs'). wp_step. eapply wp_load; [done|].
    destruct (x =? u8 c) eqn:E; [by wp_steps|]. rewrite char_nonzero by done. wp_steps.
    exists s'. simpl. split_and!; done || lia.
Qed.

(** [strchr] as a membership test. *)
Lemma wp_strchr_in m a d c (Q : Z → mem → Prop) :
  cstr m a d → 0 < a → 0 ≤ c < 256 →
  (∀ p, (p =? 0) = negb (is_delim d c || (c =? 0)) → Q p m) → wp (strchr a c) m Q.
Proof.
  intros Hd Ha Hc HQ. apply (wp_strchr_find m a d c); [done..|]. apply HQ. rewrite u8_small by done.
  destruct (find_from (λ x, x =? c) a (d ++ [0])) as [p|] eqn:Hf.
  - apply find_from_pos in Hf as Hp. simpl. rewrite (proj2 (Z.eqb_neq p 0)) by lia.
    symmetry. apply negb_false_iff. unfold is_delim. destruct (bool_decide_reflect (c ∈ d)) as [|Hn]; [done|].
    simpl. apply Z.eqb_eq. destruct (decide (c = 0)) as [|Hz]; [done|exfalso].
    assert (find_from (λ x, x =? c) a (d ++ [0]) = None); [|congruence].
    apply find_from_None, Forall_app. split; [|repeat constructor; apply Z.eqb_neq; lia].
    apply Forall_forall. intros x Hx. apply Z.eqb_neq. by intros ->.
  - apply find_from_None, Forall_app in Hf as [Hf1 Hf2]. symmetry. apply negb_true_iff, orb_false_iff. split.
    + apply bool_decide_false. intros Hin. rewrite Forall_forall in Hf1.
      specialize (Hf1 c Hin). by rewrite Z.eqb_refl in Hf1.
    + inversion Hf2; subst. by rewrite Z.eqb_sym.
Qed.

Lemma wp_strlen m a s (Q : Z → mem → Prop) :
  cstr m a s → 0 < a → Q (Z.of_nat (length s)) m → wp (strlen a) m Q.
Proof.
  intros Hs Ha HQ. unfold strlen. wp_step. apply wp_assert; [by apply nonnull|].
  apply (wp_scan (λ s' a' m', m' = m ∧ cstr m a' s' ∧ a' + Z.of_nat (length s') = a + Z.of_nat (length s))
    length) with (g := s); [|done|apply cstr_size in Hs; lia].
  intros s' a' m' (-> & Hs' & Hl). destruct s' as [|x s'].
  - apply cstr_nil in Hs'. wp_step. eapply wp_load; [done|]. simpl in *. wp_steps.
    by replace (a' - a) with (Z.of_nat (length s)) by lia.
  - apply cstr_cons in Hs' as (Hx & Hc & Hs'). wp_step. eapply wp_load; [done|].
    rewrite char_nonzero by done. simpl in *. wp_steps. exists s'. split_and!; done || lia.
Qed.

Lemma wp_strnlen m a s n (Q : Z → mem → Prop) :
  cstr m a s → 0 ≤ n → Q (Z.min (Z.of_nat (length s)) n) m → wp (strnlen a n) m Q.
Proof.
  intros Hs Hn HQ. unfold strnlen.
  apply (wp_scan (λ s' i m', m' = m ∧ cstr m (a + i) s' ∧ i + Z.of_nat (length s') = Z.of_nat (length s) ∧
    0 ≤ i ≤ n) length) with (g := s); [|by rewrite Z.add_0_r|apply cstr_size in Hs; lia].
  intros s' i m' (-> & Hs' & Hl & Hi). destruct s' as [|x s'].
  - apply cstr_nil in Hs'. wp_step. eapply wp_load; [done|]. simpl in *. wp_steps.
    by replace i with (Z.min (Z.of_nat (length s)) n) by lia.
  - apply cstr_cons in Hs' as (Hx & Hc & Hs'). wp_step. eapply wp_load; [done|].
    rewrite char_nonzero by done. simpl in *. destruct (Z.ltb_spec i n); wp_steps.
    + exists s'. replace (a + (i + 1)) with (a + i + 1) by lia. split_and!; done || lia.
    + by replace i with (Z.min (Z.of_nat (length s)) n) by lia.
Qed.

Lemma wp_strcmp m a b s t (Q : Z → mem → Prop) :
  cstr m a s → cstr m b t → 0 < a → 0 < b → Q (str_cmp s t) m → wp (strcmp a b) m Q.
Proof.
  intros Hs Ht Ha Hb HQ. unfold strcmp. wp_step. apply wp_assert; [by apply nonnull|].
  wp_step. apply wp_assert; [by apply nonnull|].
  apply (wp_scan (λ (g : list Z * list Z) '(a, b) m', m' = m ∧ cstr m a g.1 ∧ cstr m b g.2 ∧
    str_cmp g.1 g.2 = str_cmp s t) (λ g, length g.1)) with (g := (s, t));
    [|done|apply cstr_size in Hs; simpl; lia].
  intros [s' t'] [a' b'] m' (-> & Hs' & Ht' & Hc). simpl in *. rewrite <-Hc in HQ.
  assert (∃ y, m !! b' = Some y ∧ match t' with [] => y = 0 | z :: _ => y = z ∧ is_char z end) as (y & Hy & Hyt).
  { destruct t' as [|z t']; [apply cstr_nil in Ht'; eauto|]. apply cstr_cons in Ht' as (? & ? & _). eauto. }
  destruct s' as [|x s'].
  - apply cstr_nil in Hs'. wp_step. eapply wp_load; [done|]. simpl. wp_step. eapply wp_load; [done|]. wp_steps.
    destruct t' as [|z t']; [by subst|]. destruct Hyt as [-> [? ?]]. simpl in HQ.
    by rewrite (proj2 (Z.ltb_lt 0 z)) by lia.
  - apply cstr_cons in Hs' as (Hx & Hcx & Hs'). wp_step. eapply wp_load; [done|]. rewrite char_nonzero by done.
    wp_step. eapply wp_load; [done|]. destruct t' as [|z t']; simpl in *.
    + subst y. rewrite char_nonzero by done. wp_steps. destruct Hcx.
      destruct (Z.ltb_spec x 0); [lia|]. by rewrite (proj2 (Z.ltb_lt 0 x)) by lia.
    + destruct Hyt as [-> _]. destruct (Z.eqb_spec x z) as [->|Hne]; wp_steps.
      * apply cstr_cons in Ht' as (_ & _ & Ht'). exists (s', t'). simpl. split_and!; try done; try lia.
      * destruct (Z.ltb_spec x z); [done|]. by rewrite (proj2 (Z.ltb_lt z x)) by lia.
Qed.

Lemma wp_span_loop m a b s d found (Q : Z → mem → Prop) :
  cstr m a s → cstr m b d → 0 < b →
  Q (Z.of_nat (length (span (λ x, eqb (negb (is_delim d x)) found) s).1)) m →
  wp (span_loop found a b) m Q.
Proof.
  intros Hs Hd Hb HQ. unfold span_loop. set (P := λ x, eqb (negb (is_delim d x)) found) in *.
  apply (wp_scan (λ s' i m', m' = m ∧ cstr m (a + i) s' ∧
    i + Z.of_nat (length (span P s').1) = Z.of_nat (length (span P s).1)) length) with (g := s);
    [|by rewrite Z.add_0_r|apply cstr_size in Hs; lia].
  intros s' i m' (-> & Hs' & Hl). destruct s' as [|x s'].
  - apply cstr_nil in Hs'. wp_step. eapply wp_load; [done|]. simpl in *. wp_steps.
    by replace i with (Z.of_nat (length (span P s).1)) by lia.
  - apply cstr_cons in Hs' as (Hx & Hc & Hs'). wp_step. eapply wp_load; [done|].
    rewrite char_nonzero by done. simpl. wp_step.
    apply (wp_strchr_in m b d); [done|done|destruct Hc; lia|]. intros p Hp.
    rewrite (char_nonzero x Hc), orb_false_r in Hp. rewrite Hp. simpl in Hl. unfold P at 1 in Hl.
    destruct (is_delim d x), found; simpl in *; wp_steps;
      first [by replace i with (Z.of_nat (length (span P s).1)) by lia | idtac];
      destruct (span P s') as [u v] eqn:Hsp; simpl in Hl;
      exists s'; replace (a + (i + 1)) with (a + i + 1) by lia; rewrite Hsp; simpl; split_and!; done || lia.
Qed.

Lemma wp_strpbrk m a b s d (Q : Z → mem → Prop) :
  cstr m a s → cstr m b d → 0 < a → 0 < b →
  Q (pointer (find_from (is_delim d) a s)) m → wp (strpbrk a b) m Q.
Proof.
  intros Hs Hd Ha Hb HQ. unfold strpbrk.
  apply (wp_scan (λ s' a' m', m' = m ∧ cstr m a' s' ∧
    find_from (is_delim d) a' s' = find_from (is_delim d) a s) length) with (g := s);
    [|done|apply cstr_size in Hs; lia].
  intros s' a' m' (-> & Hs' & Hf). rewrite <-Hf in HQ. destruct s' as [|x s']; cbn [find_from] in *.
  - apply cstr_nil in Hs'. wp_step. by eapply wp_load; [done|].
  - apply cstr_cons in Hs' as (Hx & Hc & Hs'). wp_step. eapply wp_load; [done|].
    rewrite char_nonzero by done. simpl. wp_step.
    apply (wp_strchr_in m b d); [done|done|destruct Hc; lia|]. intros p Hp.
    rewrite (char_nonzero x Hc), orb_false_r in Hp. rewrite Hp, negb_involutive.
    destruct (is_delim d x) eqn:Hx'; wp_steps; [done|].
    exists s'. simpl. split_and!; done || lia.
Qed.

Lemma wp_strrchr m a s c (Q : Z → mem → Prop) :
  cstr m a s → Q (find_last (λ x, x =? u8 c) a 0 s) m → wp (strrchr a c) m Q.
Proof.
  intros Hs HQ. unfold strrchr.
  apply (wp_scan (λ s' '(a', p) m', m' = m ∧ cstr m a' s' ∧
    find_last (λ x, x =? u8 c) a' p s' = find_last (λ x, x =? u8 c) a 0 s) length) with (g := s);
    [|done|apply cstr_size in Hs; lia].
  intros s' [a' p] m' (-> & Hs' & Hf). rewrite <-Hf in HQ. destruct s' as [|x s'].
  - apply cstr_nil in Hs'. wp_step. by eapply wp_load; [done|].
  - apply cstr_cons in Hs' as (Hx & Hc & Hs'). wp_step. eapply wp_load; [done|].
    rewrite char_nonzero by done. simpl in *. wp_steps. exists s'. split_and!; done || lia.
Qed.
End strings.

(** ** Copying strings *)
Section copies.
Implicit Types (m : mem) (a : Z) (s t d : list Z).

Lemma mapped_le m a n k : mapped m a n → k ≤ n → mapped m a k.
Proof. intros H Hk x Hx. apply H. lia. Qed.

Lemma wp_strlcpy m dst src s n (Q : Z → mem → Prop) :
  cstr m src s → 0 < dst → 0 < src → 0 ≤ n → mapped m dst n →
  src + Z.of_nat (length s) < dst ∨ dst + n ≤ src →
  Q (Z.of_nat (length s))
    (if decide (n = 0) then m else write m dst (take (Z.to_nat (n - 1)) s ++ [0])) →
  wp (strlcpy dst src n) m Q.
Proof.
  intros Hs Hd0 Hs0 Hn Hm Hdis HQ. unfold strlcpy. wp_step. apply wp_assert; [by apply nonnull|].
  wp_step. apply wp_assert; [by apply nonnull|]. wp_step. eapply wp_strlen; [done|done|]. wp_step.
  destruct (Z.ltb_spec 0 n); [|by wp_steps; rewrite decide_True in HQ by lia].
  rewrite decide_False in HQ by lia. set (t := take (Z.to_nat (n - 1)) s) in *.
  assert ((if Z.of_nat (length s) <? n - 1 then Z.of_nat (length s) else n - 1) = Z.of_nat (length t)) as ->.
  { subst t. rewrite length_take. destruct (Z.ltb_spec (Z.of_nat (length s)) (n - 1)); lia. }
  assert (Z.of_nat (length t) ≤ n - 1 ∧ (length t ≤ length s)%nat) as [Ht1 Ht2] by (subst t; rewrite length_take; lia).
  wp_step. eapply (wp_memcpy _ _ _ t); [done| |eapply mapped_le; [done|lia]|done|done|lia|].
  { apply cstr_bytes in Hs. rewrite <-(take_drop (Z.to_nat (n - 1)) s) in Hs. by apply bytes_at_app in Hs as [? _]. }
  apply wp_store; [rewrite lookup_write_out by lia; apply Hm; lia|]. wp_steps.
  by rewrite <-write_snoc.
Qed.

Lemma wp_strlcat m dst src s t n (Q : Z → mem → Prop) :
  cstr m src s → cstr m dst t → 0 < dst → 0 < src → 0 ≤ n → mapped m dst n →
  src + Z.of_nat (length s) < dst ∨ dst + Z.max n (Z.of_nat (length t) + 1) ≤ src →
  Q (u32 (Z.of_nat (length s) + Z.of_nat (length t)))
    (if decide (Z.of_nat (length t) < n)
     then write m dst (t ++ take (Z.to_nat (n - Z.of_nat (length t) - 1)) s ++ [0]) else m) →
  wp (strlcat dst src n) m Q.
Proof.
  intros Hs Ht Hd0 Hs0 Hn Hm Hdis HQ. unfold strlcat. wp_step. apply wp_assert; [by apply nonnull|].
  wp_step. apply wp_assert; [by apply nonnull|]. wp_step. eapply wp_strlen; [done|done|].
  wp_step. eapply wp_strlen; [done|done|]. wp_step.
  destruct (Z.ltb_spec (Z.of_nat (length t)) n).
  2: { rewrite andb_false_r. wp_steps. by rewrite decide_False in HQ by lia. }
  rewrite decide_True in HQ by lia. rewrite (proj2 (Z.ltb_lt 0 n)) by lia. simpl.
  set (k := n - Z.of_nat (length t) - 1) in *. set (w := take (Z.to_nat k) s) in *.
  assert ((if Z.of_nat (length s) <? k then Z.of_nat (length s) else k) = Z.of_nat (length w)) as ->.
  { subst w. rewrite length_take. destruct (Z.ltb_spec (Z.of_nat (length s)) k); lia. }
  assert (Z.of_nat (length w) ≤ k ∧ (length w ≤ length s)%nat) as [Hw1 Hw2] by (subst w; rewrite length_take; lia).
  assert (∀ i, Z.of_nat (length t) ≤ i ≤ k + Z.of_nat (length t) → is_Some (m !! (dst + i))) as Hmk
    by (intros i Hi; apply Hm; lia).
  wp_step. eapply (wp_memcpy _ _ _ w); [done| | |lia|lia|lia|].
  { apply cstr_bytes in Hs. rewrite <-(take_drop (Z.to_nat k) s) in Hs. by apply bytes_at_app in Hs as [? _]. }
  { intros x Hx. replace x with (dst + (x - dst)) by lia. apply Hmk. lia. }
  apply wp_store; [rewrite lookup_write_out by lia; rewrite <-Z.add_assoc; apply Hmk; lia|]. wp_steps.
  rewrite <-write_snoc. rewrite write_app, write_same in HQ; [done|].
  apply bytes_at_write_out; [by apply cstr_bytes|lia].
Qed.

(** ** Substrings *)
Definition occurs (t s : list Z) (i : nat) : Prop := take (length t) (drop i s) = t ∧ (i + length t ≤ length s)%nat.

Lemma wp_strstr m a b s t (Q : Z → mem → Prop) :
  cstr m a s → cstr m b t → 0 < a → 0 < b →
  (∀ i, occurs t s i → (∀ j, (j < i)%nat → ¬ occurs t s j) → Q (a + Z.of_nat i) m) →
  ((∀ i, ¬ occurs t s i) → Q 0 m) →
  wp (strstr a b) m Q.
Proof.
  intros Hs Ht Ha Hb HQ1 HQ0. unfold strstr. wp_step. eapply wp_strlen; [done|done|].
  wp_step. eapply wp_strlen; [done|done|].
  destruct (Z.leb_spec (Z.of_nat (length t)) (Z.of_nat (length s))) as [Hl|Hl].
  2: { wp_steps. apply HQ0. intros i [_ ?]. lia. }
  set (n := (length s - length t)%nat).
  apply (wp_loop (λ (k : nat) i m', m' = m ∧ i = Z.of_nat k ∧ (k ≤ S n)%nat ∧
    ∀ j, (j < k)%nat → ¬ occurs t s j) (λ k, S n - k)%nat) with (g := O);
    [|split_and!; try done; intros; lia|lia].
  intros k i m' (-> & -> & Hk & Hno).
  destruct (Z.leb_spec (Z.of_nat k) (Z.of_nat (length s) - Z.of_nat (length t))).
  2: { wp_steps. apply HQ0. intros i [Hi1 Hi2]. apply (Hno i); [lia|by split]. }
  set (u := take (length t) (drop k s)).
  assert (length u = length t) as Hu by (subst u; rewrite length_take, length_drop; lia).
  wp_step. eapply (wp_memcmp _ _ _ u t); [by rewrite Hu|by rewrite Hu| |by apply cstr_bytes|lia|done|].
  { apply cstr_drop with (i := k), cstr_bytes in Hs; [|lia].
    rewrite <-(take_drop (length t) (drop k s)) in Hs. by apply bytes_at_app in Hs as [? _]. }
  destruct (Z.eqb_spec (str_cmp u t) 0) as [E|E]; wp_steps.
  - apply str_cmp_eq in E. apply HQ1; [split; [done|lia]|done].
  - exists (S k). split_and!; try lia || done. intros j Hj. destruct (decide (j = k)) as [->|]; [|apply Hno; lia].
    intros [Ho _]. by apply E, str_cmp_eq.
Qed.
End copies.

(** ** Tokens *)
Section tokens.
Implicit Types (m : mem) (a : Z) (s t d u v : list Z).

Lemma span_app P s : let '(u, v) := span P s in
  s = u ++ v ∧ Forall (λ x, P x = true) u ∧ match v with [] => True | x :: _ => P x = false end.
Proof.
  induction s as [|x s IH]; simpl; [by split_and!|].
  destruct (P x) eqn:Hx; [|by split_and!]. destruct (span P s) as [u v]. destruct IH as (-> & ? & ?).
  by split_and!; [|constructor|].
Qed.

Lemma tokens_skip d u v : Forall (λ x, is_delim d x = true) u → tokens d (u ++ v) = tokens d v.
Proof.
  unfold tokens. induction u as [|x u IH]; simpl; [done|]. intros [Hx Hu]%Forall_cons.
  rewrite Hx. by apply IH.
Qed.
Lemma tokens_run d cur u v :
  Forall (λ x, is_delim d x = false) u → tokens_from d cur (u ++ v) = tokens_from d (cur ++ u) v.
Proof.
  revert cur. induction u as [|x u IH]; intros cur; simpl; [by rewrite app_nil_r|].
  intros [Hx Hu]%Forall_cons. by rewrite Hx, IH, <-app_assoc.
Qed.
Lemma tokens_first d u v :
  u ≠ [] → Forall (λ x, is_delim d x = false) u →
  match v with [] => True | x :: _ => is_delim d x = true end →
  tokens d (u ++ v) = u :: tokens d (tail v).
Proof.
  intros Hu Hall Hv. unfold tokens. rewrite tokens_run by done. simpl. destruct v as [|x v]; simpl.
  - by rewrite decide_False.
  - by rewrite Hv, decide_False.
Qed.
Lemma tokens_nonempty d s : Forall (λ t, t ≠ [] ∧ Forall (λ x, is_delim d x = false) t) (tokens d s).
Proof.
  unfold tokens. assert (∀ cur, Forall (λ x, is_delim d x = false) cur →
    Forall (λ t, t ≠ [] ∧ Forall (λ x, is_delim d x = false) t) (tokens_from d cur s)) as H; [|by apply H].
  induction s as [|x s IH]; intros cur Hcur; simpl.
  - case_decide; [constructor|]. by repeat constructor.
  - destruct (is_delim d x) eqn:Hx.
    + case_decide; [by apply IH|]. constructor; [done|]. by apply IH.
    + apply IH, Forall_app. by repeat constructor.
Qed.

(** The pointer variable moves along a string while [P] holds. *)
Lemma wp_skip_delims m p s b d (Q : Z + Z → mem → Prop) u v :
  cstr m p s → cstr m b d → 0 < b → span (is_delim d) s = (u, v) →
  Q (match v with [] => inl (p + Z.of_nat (length u)) | _ => inr (p + Z.of_nat (length u)) end) m →
  wp (scan (λ c : Z,
    x ← load c;
    q ← strchr b x;
    if negb (q =? 0) then
      if x =? 0 then mret (inr (inl c)) else mret (inl (c + 1))
    else mret (inr (inr c))) p) m Q.
Proof.
  intros Hs Hd Hb Hsp HQ.
  apply (wp_scan (λ s' p' m', m' = m ∧ cstr m p' s' ∧ ∃ u', span (is_delim d) s' = (u', v) ∧
    p' + Z.of_nat (length u') = p + Z.of_nat (length u)) length) with (g := s);
    [|by eauto|apply cstr_size in Hs; lia].
  intros s' p' m' (-> & Hs' & u' & Hsp' & Hl). rewrite <-Hl in HQ. destruct s' as [|x s'].
  - apply cstr_nil in Hs'. simpl in Hsp'. simplify_eq. wp_step. eapply wp_load; [done|]. wp_step.
    apply (wp_strchr_in m b d); [done|done|lia|]. intros q Hq. rewrite Hq, orb_true_r. simpl.
    wp_steps. simpl in HQ. by rewrite Z.add_0_r in HQ.
  - apply cstr_cons in Hs' as (Hx & Hc & Hs'). wp_step. eapply wp_load; [done|]. wp_step.
    apply (wp_strchr_in m b d); [done|done|destruct Hc; lia|]. intros q Hq.
    rewrite (char_nonzero x Hc) in *. rewrite orb_false_r in Hq. rewrite Hq, negb_involutive. simpl in Hsp'.
    destruct (is_delim d x) eqn:Hx'; wp_steps.
    + destruct (span (is_delim d) s') as [u1 v1] eqn:Hsp1. simplify_eq. exists s'.
      split_and!; [done|done| |simpl; lia]. exists u1. split; [done|]. simpl in Hl. lia.
    + simplify_eq. simpl in HQ. by rewrite Z.add_0_r in HQ.
Qed.

Lemma wp_skip_nondelims m p s b d (Q : Z → mem → Prop) u v :
  cstr m p s → cstr m b d → 0 < b → span (λ x, negb (is_delim d x)) s = (u, v) →
  Q (p + Z.of_nat (length u)) m →
  wp (scan (λ c : Z, x ← load c; q ← strchr b x;
    if q =? 0 then mret (inl (c + 1)) else mret (inr c)) p) m Q.
Proof.
  intros Hs Hd Hb Hsp HQ.
  apply (wp_scan (λ s' p' m', m' = m ∧ cstr m p' s' ∧ ∃ u', span (λ x, negb (is_delim d x)) s' = (u', v) ∧
    p' + Z.of_nat (length u') = p + Z.of_nat (length u)) length) with (g := s);
    [|by eauto|apply cstr_size in Hs; lia].
  intros s' p' m' (-> & Hs' & u' & Hsp' & Hl). rewrite <-Hl in HQ. destruct s' as [|x s'].
  - apply cstr_nil in Hs'. simpl in Hsp'. simplify_eq. wp_step. eapply wp_load; [done|]. wp_step.
    apply (wp_strchr_in m b d); [done|done|lia|]. intros q Hq. rewrite Hq, orb_true_r. simpl.
    wp_steps. simpl in HQ. by rewrite Z.add_0_r in HQ.
  - apply cstr_cons in Hs' as (Hx & Hc & Hs'). wp_step. eapply wp_load; [done|]. wp_step.
    apply (wp_strchr_in m b d); [done|done|destruct Hc; lia|]. intros q Hq.
    rewrite (char_nonzero x Hc), orb_false_r in Hq. rewrite Hq. simpl in Hsp'.
    destruct (is_delim d x) eqn:Hx'; simpl in *; wp_steps.
    + simplify_eq. simpl in HQ. by rewrite Z.add_0_r in HQ.
    + destruct (span (λ x, negb (is_delim d x)) s') as [u1 v1] eqn:Hsp1. simplify_eq. exists s'.
      split_and!; [done|done| |simpl; lia]. exists u1. split; [done|]. simpl in Hl. lia.
Qed.

(** One call of [strtok_r] on the string [s] at [p]: it delivers the first token
    and leaves the variable at a string with the other tokens. *)
Definition token_result (d s : list Z) (p : Z) (m : mem) (r : Z * Z) (m' : mem) : Prop :=
  match tokens d s with
  | [] => r.1 = 0 ∧ m' = m ∧ cstr m' r.2 []
  | t :: ts => ∃ pre post rest, s = pre ++ t ++ post ∧ r.1 = p + Z.of_nat (length pre) ∧
      cstr m' r.1 t ∧ cstr m' r.2 rest ∧ tokens d rest = ts ∧
      (r.1 + Z.of_nat (length t) < r.2 ∨ rest = []) ∧ p < r.2 ∧
      r.2 + Z.of_nat (length rest) = p + Z.of_nat (length s)
  end ∧ (∀ x, x < p ∨ p + Z.of_nat (length s) ≤ x → m' !! x = m !! x).

Lemma wp_strtok_r m p b save d s a (Q : Z * Z → mem → Prop) :
  p = (if a =? 0 then save else a) → cstr m p s → cstr m b d → 0 < p → 0 < b →
  (∀ r m', token_result d s p m r m' → Q r m') → wp (strtok_r a b save) m Q.
Proof.
  intros Hpa Hs Hd Hp Hb HQ. unfold strtok_r. wp_step. apply wp_assert; [by apply nonnull|]. rewrite <-Hpa.
  wp_step. apply wp_assert; [by apply nonnull|]. wp_step.
  destruct (span (is_delim d) s) as [u v] eqn:Hsp. pose proof (span_app (is_delim d) s) as Hspl.
  rewrite Hsp in Hspl. destruct Hspl as (Hsuv & Hu & Hv).
  assert (tokens d s = tokens d v) as Htok by (rewrite Hsuv; by apply tokens_skip).
  eapply (wp_skip_delims m p s b d); [done..|]. destruct v as [|x v].
  { wp_steps. apply HQ. unfold token_result. rewrite Htok. simpl. rewrite app_nil_r in Hsuv. subst u.
    split; [|done]. split_and!; [done|done|]. apply cstr_nil. by apply cstr_end. }
  assert (cstr m (p + Z.of_nat (length u)) (x :: v)) as Hsv.
  { rewrite Hsuv in Hs. apply cstr_drop with (i := length u) in Hs; [|rewrite length_app; lia].
    by rewrite drop_app_length in Hs. }
  set (w := x :: v) in *. destruct (span (λ x, negb (is_delim d x)) w) as [t z] eqn:Hsp2.
  pose proof (span_app (λ x, negb (is_delim d x)) w) as Hspl. rewrite Hsp2 in Hspl.
  destruct Hspl as (Hwtz & Ht & Hz).
  assert (Forall (λ x, is_delim d x = false) t) as Htn.
  { eapply Forall_impl; [exact Ht|]. intros y Hy. by apply negb_true_iff in Hy. }
  assert (t ≠ []) as Htne.
  { intros ->. simpl in Hwtz. rewrite <-Hwtz in Hz. unfold w in Hz. by rewrite Hv in Hz. }
  assert (tokens d s = t :: tokens d (tail z)) as Htoks.
  { rewrite Htok, Hwtz. apply tokens_first; [done|done|]. destruct z; [done|]. by apply negb_false_iff. }
  wp_step. eapply (wp_skip_nondelims m _ w b d); [done..|].
  set (e := p + Z.of_nat (length u) + Z.of_nat (length t)).
  assert (cstr m e z) as Hsz.
  { rewrite Hwtz in Hsv. apply cstr_drop with (i := length t) in Hsv; [|rewrite length_app; lia].
    by rewrite drop_app_length in Hsv. }
  assert (bytes_at m (p + Z.of_nat (length u)) t ∧ Forall is_char t) as [Hbt Hct].
  { destruct Hsv as [Hb1 Hc1]. rewrite Hwtz in Hb1, Hc1. apply Forall_app in Hc1 as [? _].
    rewrite <-app_assoc in Hb1. by apply bytes_at_app in Hb1 as [? _]. }
  assert (length t ≠ O) by (by destruct t).
  assert (length s = length u + length t + length z)%nat as Hlen.
  { rewrite Hsuv, Hwtz, !length_app. lia. }
  wp_step. destruct z as [|y z].
  - apply cstr_nil in Hsz as Hz0. eapply wp_load; [done|]. wp_steps. apply HQ. unfold token_result.
    rewrite Htoks. split; [|done]. exists u, [], []. simpl in *. split_and!; try done; try lia.
    + rewrite app_nil_r in *. by rewrite Hsuv, Hwtz.
    + split; [|done]. apply bytes_at_app. split; [done|]. apply bytes_at_cons. split; [done|apply bytes_at_nil].
    + by right.
  - apply cstr_cons in Hsz as (Hy & Hcy & Hsz). eapply wp_load; [done|]. rewrite (char_nonzero y Hcy). simpl.
    wp_step. apply wp_store; [eauto|]. wp_steps. apply HQ. unfold token_result. rewrite Htoks. simpl in Hlen.
    split; [|intros x' Hx'; rewrite lookup_insert_ne by lia; done].
    exists u, (y :: z), z. simpl. split_and!; try done; try lia.
    + by rewrite Hsuv, Hwtz.
    + split; [|done]. apply bytes_at_app. split.
      * apply (bytes_at_write_out m _ _ e [0]); [done|]. simpl. lia.
      * apply bytes_at_cons. split; [by rewrite lookup_insert_eq|apply bytes_at_nil].
    + apply (cstr_write_out m _ _ e [0]); [done|]. simpl. lia.
Qed.
End tokens.
