(* ===== verification/CStringProps.v ===== *)
(** * Properties of lib/string.c *)
From S2P Require Import Prelude Mem CString CStringFacts.
Local Open Scope Z_scope.

(** Some memory to try things on: bytes [bs] at address 100. *)
Definition ex_mem (bs : list Z) : mem := write ∅ 100 bs.
Lemma ex_mem_mapped bs n : (Z.to_nat n ≤ length bs)%nat → mapped (ex_mem bs) 100 n.
Proof.
  intros Hn x Hx. apply (bytes_at_mapped (ex_mem bs) 100 bs); [apply bytes_at_write|]. lia.
Qed.

(** [memmove] copies correctly however the two blocks overlap: afterwards
    the destination holds the bytes the source held before, and no other byte
    has changed.  (The pointer it returns is the destination only if that is not
    below the source.) *)
Theorem memmove_correct m dst src bs :
  bytes_at m src bs → mapped m dst (Z.of_nat (length bs)) → 0 < dst → 0 < src →
  ∃ m', memmove dst src (Z.of_nat (length bs)) m =
      Ok (if dst <? src then dst + Z.of_nat (length bs) else dst, m') ∧
    bytes_at m' dst bs ∧
    ∀ x, x < dst ∨ dst + Z.of_nat (length bs) ≤ x → m' !! x = m !! x.
Proof.
  intros Hb Hm Hd Hs. exists (write m dst bs). split_and!.
  - apply wp_det_ok. eapply wp_memmove; try done.
  - apply bytes_at_write.
  - intros x Hx. by apply lookup_write_out.
Qed.

Lemma memmove_correct_witness :
  ∃ m', memmove 102 100 3 (ex_mem [1; 2; 3; 4; 5]) = Ok (102, m') ∧ bytes_at m' 102 [1; 2; 3] ∧
    ∀ x, x < 102 ∨ 105 ≤ x → m' !! x = ex_mem [1; 2; 3; 4; 5] !! x.
Proof.
  apply (memmove_correct (ex_mem [1; 2; 3; 4; 5]) 102 100 [1; 2; 3]).
  - apply (bytes_at_app _ 100 [1; 2; 3] [4; 5]), bytes_at_write.
  - intros x Hx. apply (ex_mem_mapped [1; 2; 3; 4; 5] 5); simpl in *; lia.
  - lia.
  - lia.
Defined.

(** [strlcpy] never writes past the [size] bytes of its destination, leaves
    a null-terminated string there that is the longest prefix of the source that
    fits, and returns the length of the source, so that a result of at least
    [size] tells that the copy was cut short. *)
Theorem strlcpy_bounded m dst src s size :
  cstr m src s → 0 < dst → 0 < src → 0 < size → mapped m dst size →
  src + Z.of_nat (length s) < dst ∨ dst + size ≤ src →
  ∃ m', strlcpy dst src size m = Ok (Z.of_nat (length s), m') ∧
    cstr m' dst (take (Z.to_nat (size - 1)) s) ∧ cstr m' src s ∧
    ∀ x, x < dst ∨ dst + size ≤ x → m' !! x = m !! x.
Proof.
  intros Hs Hd H0 Hn Hm Hdis. set (t := take (Z.to_nat (size - 1)) s).
  assert (Z.of_nat (length (t ++ [0])) ≤ size) as Hl by (rewrite length_app; subst t; rewrite length_take; simpl; lia).
  exists (write m dst (t ++ [0])). split_and!.
  - apply wp_det_ok. eapply wp_strlcpy; try done; [lia|]. by rewrite decide_False by lia.
  - apply cstr_write. destruct Hs as [_ Hs]. by apply Forall_take.
  - apply cstr_write_out; [done|]. lia.
  - intros x Hx. apply lookup_write_out. lia.
Qed.

Lemma strlcpy_bounded_witness :
  ∃ m', strlcpy 110 100 3 (write (ex_mem [104; 101; 121; 33; 0]) 110 [7; 7; 7; 7]) = Ok (4, m') ∧
    cstr m' 110 [104; 101] ∧ cstr m' 100 [104; 101; 121; 33] ∧
    ∀ x, x < 110 ∨ 113 ≤ x → m' !! x = write (ex_mem [104; 101; 121; 33; 0]) 110 [7; 7; 7; 7] !! x.
Proof.
  apply (strlcpy_bounded _ 110 100 [104; 101; 121; 33] 3); try lia.
  - apply cstr_write_out; [|simpl; lia]. apply cstr_write. repeat constructor; lia.
  - intros x Hx. apply (bytes_at_mapped _ 110 [7; 7; 7; 7]); [apply bytes_at_write|simpl; lia].
  - simpl. lia.
Defined.

(** [strcmp] is the lexicographic order of strings by unsigned characters:
    a total order in which only equal strings compare equal, and exchanging the
    arguments changes the sign. *)
Theorem strcmp_order m a b s t :
  cstr m a s → cstr m b t → 0 < a → 0 < b →
  strcmp a b m = Ok (str_cmp s t, m) ∧ strcmp b a m = Ok (- str_cmp s t, m) ∧
  (str_cmp s t = 0 ↔ s = t).
Proof.
  intros Hs Ht Ha Hb. split_and!.
  - apply wp_det_ok. by eapply wp_strcmp.
  - apply wp_det_ok. rewrite <-str_cmp_opp. by eapply wp_strcmp.
  - apply str_cmp_eq.
Qed.

Lemma strcmp_order_witness :
  let m := write (ex_mem [97; 98; 0]) 110 [97; 200; 0] in
  strcmp 100 110 m = Ok (-1, m) ∧ strcmp 110 100 m = Ok (1, m) ∧ ([97; 98] : list Z) ≠ [97; 200].
Proof.
  destruct (strcmp_order (write (ex_mem [97; 98; 0]) 110 [97; 200; 0]) 100 110 [97; 98] [97; 200])
    as (H1 & H2 & H3).
  - apply cstr_write_out; [|simpl; lia]. apply (cstr_write ∅ 100 [97; 98]). repeat constructor; lia.
  - apply (cstr_write _ 110 [97; 200]). repeat constructor; lia.
  - lia.
  - lia.
  - split; [exact H1|]. split; [exact H2|]. intros E. apply H3 in E. discriminate.
Defined.

(** [strstr] finds the first occurrence of the needle, and reports that
    there is none exactly when there is none. *)
Theorem strstr_first m a b s t :
  cstr m a s → cstr m b t → 0 < a → 0 < b →
  ∃ p, strstr a b m = Ok (p, m) ∧
    ((p = 0 ∧ ∀ i, ¬ occurs t s i) ∨
     ∃ i, p = a + Z.of_nat i ∧ occurs t s i ∧ ∀ j, (j < i)%nat → ¬ occurs t s j).
Proof.
  intros Hs Ht Ha Hb.
  assert (wp (strstr a b) m (λ p m', m' = m ∧ ((p = 0 ∧ ∀ i, ¬ occurs t s i) ∨
     ∃ i, p = a + Z.of_nat i ∧ occurs t s i ∧ ∀ j, (j < i)%nat → ¬ occurs t s j))) as Hwp.
  { eapply wp_strstr; eauto 10. }
  apply wp_ok in Hwp as (p & m' & Hrun & -> & Hp). eauto.
Qed.

Lemma strstr_first_witness :
  let m := write (ex_mem [1; 2; 2; 3; 0]) 110 [2; 3; 0] in
  ∃ p, strstr 100 110 m = Ok (p, m) ∧
    ((p = 0 ∧ ∀ i, ¬ occurs [2; 3] [1; 2; 2; 3] i) ∨
     ∃ i, p = 100 + Z.of_nat i ∧ occurs [2; 3] [1; 2; 2; 3] i ∧ ∀ j, (j < i)%nat → ¬ occurs [2; 3] [1; 2; 2; 3] j).
Proof.
  apply strstr_first; try lia.
  - apply cstr_write_out; [|simpl; lia]. apply (cstr_write ∅ 100 [1; 2; 2; 3]). repeat constructor; lia.
  - apply (cstr_write _ 110 [2; 3]). repeat constructor; lia.
Defined.

(** The loop that the comment of [strtok_r] gives as its use: call it until it
    returns a null pointer. *)
Fixpoint tokenize (fuel : nat) (s delimiters save : Z) : M mem (list Z) :=
  match fuel with
  | O => throw EFuel
  | S n =>
      '(token, save') ← strtok_r s delimiters save;
      if token =? 0 then mret [] else ts ← tokenize n 0 delimiters save'; mret (token :: ts)
  end.

Lemma wp_tokenize n : ∀ m p a b save d s,
  p = (if a =? 0 then save else a) → cstr m p s → cstr m b d → 0 < p → 0 < b →
  b + Z.of_nat (length d) < p ∨ p + Z.of_nat (length s) ≤ b → (length s < n)%nat →
  wp (tokenize n a b save) m (λ ps m', Forall2 (cstr m') ps (tokens d s) ∧
    ∀ x, x < p ∨ p + Z.of_nat (length s) ≤ x → m' !! x = m !! x).
Proof.
  induction n as [|n IH]; intros m p a b save d s Hpa Hs Hd Hp Hb Hdis Hn; [lia|]. simpl. wp_step.
  eapply (wp_strtok_r m p b save d s); [done..|]. intros [t save'] m' [Hr Hout]. simpl in Hr.
  destruct (tokens d s) as [|tok toks] eqn:Htok.
  { destruct Hr as (-> & -> & _). simpl. wp_steps. by split; [constructor|]. }
  destruct Hr as (pre & post & rest & Hsplit & -> & Htok' & Hrest & Htoks & Hend & Hsave & Hlen).
  rewrite (proj2 (Z.eqb_neq _ 0)) by lia. wp_step.
  eapply wp_mono; [apply (IH m' save' 0 b save' d rest)|]; try done || lia.
  { destruct Hd as [Hd ?]. split; [|done]. intros i c Hi. rewrite Hout; [by apply Hd|].
    apply lookup_lt_Some in Hi. rewrite length_app in Hi. simpl in Hi. lia. }
  intros ps m2 [Hps Hout2]. wp_steps. rewrite Htoks in Hps. split.
  - constructor; [|done]. destruct Htok' as [Hb' ?]. split; [|done]. intros i c Hi.
    rewrite Hout2; [by apply Hb'|]. apply lookup_lt_Some in Hi. rewrite length_app in Hi. simpl in Hi.
    destruct Hend as [|Hr]; [lia|]. rewrite Hr in *. simpl. lia.
  - intros x Hx. rewrite Hout2 by lia. apply Hout. lia.
Qed.

(** Splitting a string with [strtok_r], called again and again until it
    returns null, ends and yields pointers to null-terminated strings that are
    exactly the tokens of the string: its maximal runs of characters that are not
    delimiters, in order.  Nothing outside the string is written. *)
Theorem strtok_r_tokens m p b d s :
  cstr m p s → cstr m b d → 0 < p → 0 < b →
  b + Z.of_nat (length d) < p ∨ p + Z.of_nat (length s) ≤ b →
  ∃ ps m', tokenize (S (length s)) p b 0 m = Ok (ps, m') ∧
    Forall2 (cstr m') ps (tokens d s) ∧
    ∀ x, x < p ∨ p + Z.of_nat (length s) ≤ x → m' !! x = m !! x.
Proof.
  intros Hs Hd Hp Hb Hdis. apply wp_ok. apply wp_tokenize; try done; [|lia].
  by rewrite (proj2 (Z.eqb_neq p 0)) by lia.
Qed.

(** ["  ab c "] split at blanks. *)
Lemma strtok_r_tokens_witness :
  let m := write (ex_mem [32; 32; 97; 98; 32; 99; 32; 0]) 120 [32; 0] in
  ∃ ps m', tokenize 8 100 120 0 m = Ok (ps, m') ∧ Forall2 (cstr m') ps [[97; 98]; [99]] ∧
    ∀ x, x < 100 ∨ 107 ≤ x → m' !! x = m !! x.
Proof.
  apply (strtok_r_tokens (write (ex_mem [32; 32; 97; 98; 32; 99; 32; 0]) 120 [32; 0]) 100 120 [32]
    [32; 32; 97; 98; 32; 99; 32]).
  - apply cstr_write_out; [|simpl; lia]. apply (cstr_write ∅ 100 [32; 32; 97; 98; 32; 99; 32]).
    repeat constructor; lia.
  - apply (cstr_write _ 120 [32]). repeat constructor; lia.
  - lia.
  - lia.
  - simpl. lia.
Defined.

(** [memmove] returns the end of the destination when it copies upwards, not its
    start as its comment says. *)
Lemma memmove_returns_end : memmove 100 101 2 (ex_mem [1; 2; 3]) = Ok (102, ex_mem [2; 3; 3]).
Proof. vm_compute. reflexivity. Qed.
