(* ===== verification/CStdlib.v ===== *)
(** * lib/stdlib.c and lib/ctype.h

    Number parsing, heap sort and binary search, on the memory of Mem.v.  A
    comparison function gets pointers to two elements; it is modelled by what it
    computes from the bytes they point to. *)
From S2P Require Import Prelude Mem.
Local Open Scope Z_scope.

(** ** lib/ctype.h *)
Definition isdigit (c : Z) : bool := (48 <=? c) && (c <=? 57).
Definition isspace (c : Z) : bool :=
  (c =? 32) || (c =? 12) || (c =? 10) || (c =? 13) || (c =? 9) || (c =? 11).

(** ** [atoi]

    [int] overflow, which C leaves undefined, is two's complement wrap-around. *)
Definition atoi (s : Z) : M mem Z :=
  ASSERT (negb (s =? 0)) ;;
  s ← scan (λ s, c ← load s; if isspace c then mret (inl (s + 1)) else mret (inr s)) s;
  c ← load s;
  let '(negative, s) :=
    if c =? 43 then (false, s + 1) else if c =? 45 then (true, s + 1) else (false, s) in
  value ← scan (λ '(s, value),
    c ← load s;
    if isdigit c then mret (inl (s + 1, s32 (s32 (value * 10) - (c - 48)))) else mret (inr value)) (s, 0);
  mret (if negb negative then s32 (- value) else value).

(** ** Sorting *)
Definition compare_func := list Z → list Z → Z.

Fixpoint load_bytes (a : Z) (n : nat) : M mem (list Z) :=
  match n with
  | O => mret []
  | S k => b ← load a; bs ← load_bytes (a + 1) k; mret (b :: bs)
  end.

Definition do_swap (array a_idx b_idx size : Z) : M mem unit :=
  let a := array + (a_idx - 1) * size in
  let b := array + (b_idx - 1) * size in
  for_upto (Z.to_nat size) (λ i,
    t ← load (a + Z.of_nat i);
    v ← load (b + Z.of_nat i);
    store (a + Z.of_nat i) v ;;
    store (b + Z.of_nat i) t).

Definition do_compare (array a_idx b_idx size : Z) (compare : compare_func) : M mem Z :=
  a ← load_bytes (array + (a_idx - 1) * size) (Z.to_nat size);
  b ← load_bytes (array + (b_idx - 1) * size) (Z.to_nat size);
  mret (compare a b).

Definition heapify (array i cnt size : Z) (compare : compare_func) : M mem unit :=
  loop (S (Z.to_nat cnt)) (λ i,
    let left := u32 (2 * i) in
    let right := u32 (2 * i + 1) in
    max ← (if left <=? cnt then
             c ← do_compare array left i size compare; mret (if 0 <? c then left else i)
           else mret i);
    max ← (if right <=? cnt then
             c ← do_compare array right max size compare; mret (if 0 <? c then right else max)
           else mret max);
    if max =? i then mret (inr tt)
    else do_swap array i max size ;; mret (inl max)) i.

Definition sort (array cnt size : Z) (compare : compare_func) : M mem unit :=
  ASSERT (negb (array =? 0) || (cnt =? 0)) ;;
  ASSERT (0 <? size) ;;
  loop (S (Z.to_nat cnt)) (λ i,
    if 0 <? i then heapify array i cnt size compare ;; mret (inl (i - 1)) else mret (inr tt)) (cnt `div` 2) ;;
  loop (S (Z.to_nat cnt)) (λ i,
    if 1 <? i then
      do_swap array 1 i size ;; heapify array 1 (i - 1) size compare ;; mret (inl (i - 1))
    else mret (inr tt)) cnt.

(** [qsort] passes its comparison function through [compare_thunk]. *)
Definition compare_thunk (aux : compare_func) : compare_func := aux.
Definition qsort (array cnt size : Z) (compare : compare_func) : M mem unit :=
  sort array cnt size (compare_thunk compare).

(** ** Searching: the result is a pointer into the array, or null. *)
Definition binary_search (key : list Z) (array cnt size : Z) (compare : compare_func) : M mem Z :=
  loop (S (Z.to_nat cnt)) (λ '(first, last),
    if first <? last then
      let range := (last - first) `div` size in
      let middle := first + (range `div` 2) * size in
      v ← load_bytes middle (Z.to_nat size);
      let cmp := compare key v in
      if cmp <? 0 then mret (inl (first, middle))
      else if 0 <? cmp then mret (inl (middle + size, last))
      else mret (inr middle)
    else mret (inr 0)) (array, array + size * cnt).

Definition bsearch (key : list Z) (array cnt size : Z) (compare : compare_func) : M mem Z :=
  binary_search key array cnt size (compare_thunk compare).
