(* ===== verification/CStdlibFacts.v ===== *)
(** * Arrays, heaps and numbers in memory *)
From S2P Require Import Prelude ListSpec Mem CStdlib.
Local Open Scope Z_scope.

(** ** Arrays of equal-sized elements *)
Section arrays.
Implicit Types (m : mem) (es : list (list Z)).
Context (arr size : Z) (Hsize : 0 < size).

(** The elements [es] of an array at [arr]. *)
Definition array_at m es : Prop :=
  bytes_at m arr (concat es) ∧ Forall (λ x, Z.of_nat (length x) = size) es.

(** Element with a 1-based index. *)
Definition at1 es (i : Z) : list Z := nth (Z.to_nat (i - 1)) es [].

Definition cnt_of es : Z := Z.of_nat (length es).

Lemma at1_lookup es i : 1 ≤ i ≤ cnt_of es → es !! Z.to_nat (i - 1) = Some (at1 es i).
Proof.
  unfold cnt_of. intros Hi. destruct (lookup_lt_is_Some_2 es (Z.to_nat (i - 1))) as [x Hx]; [lia|].
  rewrite Hx. f_equal. unfold at1. symmetry. by apply nth_lookup_Some.
Qed.

Lemma length_concat_same es :
  Forall (λ x, Z.of_nat (length x) = size) es → Z.of_nat (length (concat es)) = size * cnt_of es.
Proof.
  unfold cnt_of. induction 1 as [|x es Hx _ IH]; simpl; [lia|]. rewrite length_app. lia.
Qed.

Lemma array_elem m es (k : nat) x :
  array_at m es → es !! k = Some x → bytes_at m (arr + Z.of_nat k * size) x ∧ Z.of_nat (length x) = size.
Proof.
  intros [Hb Hs] Hk. split; [|by eapply Forall_lookup_1 in Hs].
  rewrite <-(take_drop_middle es k x Hk), concat_app in Hb. simpl in Hb.
  apply bytes_at_app in Hb as [_ Hb]. apply bytes_at_app in Hb as [Hb _].
  rewrite (length_concat_same (take k es)) in Hb by (by apply Forall_take).
  unfold cnt_of in Hb. apply lookup_lt_Some in Hk. rewrite length_take, Nat.min_l in Hb by lia.
  by replace (arr + Z.of_nat k * size) with (arr + size * Z.of_nat k) by lia.
Qed.

Lemma array_write m es (k : nat) y :
  array_at m es → (k < length es)%nat → Z.of_nat (length y) = size →
  array_at (write m (arr + Z.of_nat k * size) y) (<[k := y]> es).
Proof.
  intros [Hb Hs] Hk Hy. split; [|by apply Forall_insert].
  destruct (lookup_lt_is_Some_2 es k Hk) as [x Hx].
  rewrite insert_take_drop by done. rewrite <-(take_drop_middle es k x Hx) in Hb.
  rewrite concat_app in *. simpl in *.
  assert (Z.of_nat (length (concat (take k es))) = Z.of_nat k * size) as Hl.
  { rewrite length_concat_same by (by apply Forall_take). unfold cnt_of. rewrite length_take. lia. }
  assert (Z.of_nat (length x) = size) as Hlx by (by eapply Forall_lookup_1 in Hs).
  apply bytes_at_app in Hb as [Hb1 Hb2]. apply bytes_at_app in Hb2 as [_ Hb3].
  apply bytes_at_app. rewrite Hl in *. split; [apply bytes_at_write_out; [done|lia]|].
  apply bytes_at_app. split; [apply bytes_at_write|].
  rewrite Hy. rewrite Hlx in Hb3. apply bytes_at_write_out; [done|lia].
Qed.

Lemma array_mapped m es x : array_at m es → arr ≤ x < arr + size * cnt_of es → is_Some (m !! x).
Proof. intros [Hb Hs] Hx. apply (bytes_at_mapped _ _ _ Hb). rewrite length_concat_same; done. Qed.

Lemma wp_load_bytes m a bs n (Q : list Z → mem → Prop) :
  bytes_at m a bs → n = length bs → Q bs m → wp (load_bytes a n) m Q.
Proof.
  intros Hb -> . revert a Hb Q. induction bs as [|b bs IH]; intros a Hb Q HQ; simpl; [done|].
  apply bytes_at_cons in Hb as [H0 Hb]. wp_step. eapply wp_load; [done|]. wp_step.
  apply IH; [done|]. by wp_steps.
Qed.

Definition swap1 es (i j : Z) : list (list Z) :=
  <[Z.to_nat (j - 1) := at1 es i]> (<[Z.to_nat (i - 1) := at1 es j]> es).

(** Nothing outside the array has changed. *)
Definition array_frame es (m m' : mem) : Prop :=
  ∀ x, x < arr ∨ arr + size * cnt_of es ≤ x → m' !! x = m !! x.

(** The byte loop exchanges the two elements. *)
Lemma wp_do_swap m es i j (Q : unit → mem → Prop) :
  array_at m es → 1 ≤ i ≤ cnt_of es → 1 ≤ j ≤ cnt_of es → i ≠ j →
  (∀ m', array_at m' (swap1 es i j) → array_frame es m m' → Q tt m') →
  wp (do_swap arr i j size) m Q.
Proof.
  intros Ha Hi Hj Hne HQ. pose proof (at1_lookup es i Hi) as Ei. pose proof (at1_lookup es j Hj) as Ej.
  unfold do_swap. set (x := at1 es i) in *. set (y := at1 es j) in *.
  destruct (array_elem m es _ x Ha Ei) as [Hx Hlx]. destruct (array_elem m es _ y Ha Ej) as [Hy Hly].
  rewrite !Z2Nat.id in * by lia. set (a := arr + (i - 1) * size) in *. set (b := arr + (j - 1) * size) in *.
  assert (a + size ≤ b ∨ b + size ≤ a) as Hdis by (unfold a, b; nia).
  set (st := λ k, write (write m a (take k y)) b (take k x)).
  apply (wp_for_upto (λ k m', m' = st k)).
  - done.
  - intros k m' Hk ->. unfold st.
    destruct (lookup_lt_is_Some_2 x k) as [u Hu]; [lia|]. destruct (lookup_lt_is_Some_2 y k) as [v Hv]; [lia|].
    assert (length (take k x) = k ∧ length (take k y) = k) as [Hkx Hky] by (rewrite !length_take; lia).
    assert (∀ z, z = a + Z.of_nat k ∨ z = b + Z.of_nat k →
      write (write m a (take k y)) b (take k x) !! z = m !! z) as Hread.
    { intros z Hz. rewrite !lookup_write_out by lia. done. }
    wp_step. eapply wp_load; [rewrite Hread by (by left); by apply Hx|].
    wp_step. eapply wp_load; [rewrite Hread by (by right); by apply Hy|].
    wp_step. apply wp_store; [rewrite Hread by (by left); specialize (Hx k u Hu); eauto|].
    apply wp_store.
    { rewrite lookup_insert_ne by lia. rewrite Hread by (by right). specialize (Hy k v Hv). eauto. }
    rewrite (take_S_r _ _ _ Hu), (take_S_r _ _ _ Hv), (write_snoc _ b), (write_snoc _ a), Hkx, Hky. f_equal.
    apply map_eq. intros z. rewrite lookup_insert, !lookup_write, lookup_insert, lookup_write.
    repeat case_decide; try done; lia.
  - intros m' ->. unfold st. rewrite !take_ge by lia. apply HQ.
    + unfold swap1. assert (array_at (write m a y) (<[Z.to_nat (i - 1) := y]> es)) as Ha1.
      { unfold a. replace (i - 1) with (Z.of_nat (Z.to_nat (i - 1))) at 1 by lia.
        apply array_write; [done|unfold cnt_of in *; lia|done]. }
      unfold b. replace (j - 1) with (Z.of_nat (Z.to_nat (j - 1))) at 1 by lia.
      apply array_write; [done|rewrite length_insert; unfold cnt_of in *; lia|done].
    + intros z Hz. rewrite !lookup_write_out; [done|..]; unfold a, b; nia.
Qed.

Lemma cnt_swap1 es i j : cnt_of (swap1 es i j) = cnt_of es.
Proof. unfold cnt_of, swap1. by rewrite !length_insert. Qed.

Lemma at1_swap1 es i j k :
  1 ≤ i ≤ cnt_of es → 1 ≤ j ≤ cnt_of es → 1 ≤ k →
  at1 (swap1 es i j) k = if decide (k = j) then at1 es i else if decide (k = i) then at1 es j else at1 es k.
Proof.
  unfold cnt_of. intros Hi Hj Hk. unfold at1 at 1, swap1. rewrite nth_lookup, list_lookup_insert.
  rewrite length_insert. destruct (decide (k = j)) as [->|Hkj].
  - by rewrite decide_True by lia.
  - rewrite decide_False by lia. rewrite list_lookup_insert. destruct (decide (k = i)) as [->|].
    + by rewrite decide_True by lia.
    + rewrite decide_False by lia. unfold at1. by rewrite nth_lookup.
Qed.

Lemma swap1_perm es i j :
  1 ≤ i ≤ cnt_of es → 1 ≤ j ≤ cnt_of es → swap1 es i j ≡ₚ es.
Proof.
  intros Hi Hj. unfold swap1. apply Permutation_insert_swap; by apply at1_lookup.
Qed.
End arrays.

(** ** Heaps *)
Section heaps.
Context (arr size : Z) (Hsize : 0 < size) (compare : compare_func).
Implicit Types (m : mem) (es : list (list Z)) (i j p cnt : Z).

(** The order behind a [strcmp]-type function. *)
Definition cmp_less (a b : list Z) : bool := 0 <? compare b a.
Local Abbreviation le := (not_after cmp_less).
Context `{!StrictWeakOrder cmp_less}.

Definition child p j : Prop := j = 2 * p ∨ j = 2 * p + 1.
(** Each element from index [lo] on is at least its children. *)
Definition heap_from lo cnt es : Prop :=
  ∀ p j, lo ≤ p → child p j → j ≤ cnt → le (at1 es j) (at1 es p).

(** [es'] is [es] with its first [cnt] elements permuted. *)
Record permuted cnt es es' : Prop := {
  pm_perm : es' ≡ₚ es;
  pm_tail j : cnt < j → at1 es' j = at1 es j;
  pm_all (P : list Z → Prop) : (∀ j, 1 ≤ j ≤ cnt → P (at1 es j)) → ∀ j, 1 ≤ j ≤ cnt → P (at1 es' j);
}.

Lemma permuted_refl cnt es : permuted cnt es es.
Proof. by split. Qed.
Lemma permuted_cnt cnt es es' : permuted cnt es es' → cnt_of es' = cnt_of es.
Proof. intros [Hp _ _]. unfold cnt_of. by rewrite Hp. Qed.
Lemma permuted_swap cnt es es' i j :
  permuted cnt es es' → 1 ≤ i ≤ cnt → 1 ≤ j ≤ cnt → cnt ≤ cnt_of es → permuted cnt es (swap1 es' i j).
Proof.
  intros Hpm Hi Hj Hc. pose proof (permuted_cnt _ _ _ Hpm) as Hc'. destruct Hpm as [Hp Ht Ha]. split.
  - rewrite swap1_perm by lia. done.
  - intros k Hk. rewrite at1_swap1 by lia. rewrite !decide_False by lia. auto.
  - intros P HP k Hk. rewrite at1_swap1 by lia. repeat case_decide; apply Ha; auto; lia.
Qed.

Lemma wp_do_compare m es i j (Q : Z → mem → Prop) :
  array_at arr size m es → 1 ≤ i ≤ cnt_of es → 1 ≤ j ≤ cnt_of es →
  Q (compare (at1 es i) (at1 es j)) m → wp (do_compare arr i j size compare) m Q.
Proof.
  intros Ha Hi Hj HQ. unfold do_compare.
  destruct (array_elem arr size m es _ _ Ha (at1_lookup es i Hi)) as [Hx Hlx].
  destruct (array_elem arr size m es _ _ Ha (at1_lookup es j Hj)) as [Hy Hly].
  rewrite !Z2Nat.id in * by lia.
  wp_step. eapply wp_load_bytes; [done|lia|]. wp_step. eapply wp_load_bytes; [done|lia|]. by wp_steps.
Qed.

(** The larger of element [best] and element [k], if there is a [k]. *)
Lemma wp_better m es k best cnt (Q : Z → mem → Prop) :
  array_at arr size m es → 1 ≤ k → 1 ≤ best ≤ cnt → cnt ≤ cnt_of es →
  (∀ b, b = best ∨ b = k ∧ k ≤ cnt → le (at1 es best) (at1 es b) →
     (k ≤ cnt → le (at1 es k) (at1 es b)) → Q b m) →
  wp (if k <=? cnt then c ← do_compare arr k best size compare; mret (if 0 <? c then k else best)
      else mret best) m Q.
Proof.
  intros Ha Hk Hb Hc HQ. destruct (Z.leb_spec k cnt).
  - wp_step. eapply wp_do_compare; [done|lia|lia|]. wp_steps.
    destruct (0 <? compare (at1 es k) (at1 es best)) eqn:E; apply HQ.
    + by right.
    + by apply less_not_after.
    + intros _. apply not_after_refl, _.
    + by left.
    + apply not_after_refl, _.
    + intros _. exact E.
  - wp_steps. apply HQ; [by left|apply not_after_refl, _|lia].
Qed.

Lemma wp_heapify m es i0 cnt (Q : unit → mem → Prop) :
  array_at arr size m es → 1 ≤ i0 ≤ cnt → cnt ≤ cnt_of es → cnt < 2 ^ 31 - 1 →
  heap_from (i0 + 1) cnt es →
  (∀ m' es', array_at arr size m' es' → array_frame arr size es m m' → permuted cnt es es' →
     heap_from i0 cnt es' → Q tt m') →
  wp (heapify arr i0 cnt size compare) m Q.
Proof.
  intros Ha Hi0 Hc Hc31 Hh HQ. unfold heapify.
  apply (wp_loop (λ '(n, es') i m', n = Z.to_nat (cnt - i) ∧ i0 ≤ i ≤ cnt ∧ array_at arr size m' es' ∧
    array_frame arr size es m m' ∧ permuted cnt es es' ∧
    (∀ p j, i0 ≤ p → p ≠ i → child p j → j ≤ cnt → le (at1 es' j) (at1 es' p)) ∧
    (∀ p j, i0 ≤ p → child p i → child i j → j ≤ cnt → le (at1 es' j) (at1 es' p))) fst)
    with (g := (Z.to_nat (cnt - i0), es)).
  2: { split_and!; try done; try lia; unfold child in *.
       - intros p j ? ? ? ?. apply Hh; [lia|done|done].
       - intros; lia. }
  2: { simpl. lia. }
  intros [n es'] i m' (-> & Hi & Ha' & Hfr & Hpm & HA & HB). pose proof (permuted_cnt _ _ _ Hpm) as Hc'.
  assert (u32 (2 * i) = 2 * i ∧ u32 (2 * i + 1) = 2 * i + 1) as [-> ->] by (rewrite !u32_small by lia; done).
  wp_step. eapply (wp_better m' es'); [done|lia|lia|lia|]. intros b1 Hb1 Hle1 Hl1.
  wp_step. eapply (wp_better m' es'); [done|lia|lia|lia|]. intros b2 Hb2 Hle2 Hl2.
  assert (∀ j, child i j → j ≤ cnt → le (at1 es' j) (at1 es' b2)) as Hmax.
  { intros j [->| ->] Hj; [|auto]. eapply not_after_trans; [done|apply Hl1; lia|done]. }
  assert (le (at1 es' i) (at1 es' b2)) as Hmi by (by eapply not_after_trans).
  destruct (Z.eqb_spec b2 i) as [->|Hne].
  - wp_steps. apply (HQ m' es'); try done. intros p j Hp Hj Hjc.
    destruct (decide (p = i)) as [->|]; [by apply Hmax|by apply HA].
  - assert (child i b2 ∧ b2 ≤ cnt) as [Hch Hb2c].
    { unfold child. destruct Hb2 as [->|[-> ?]]; [|split; [by right|done]].
      destruct Hb1 as [->|[-> ?]]; [done|]. split; [by left|done]. }
    unfold child in *. wp_step. eapply wp_do_swap; [done|done|lia|lia|lia|]. intros m2 Ha2 Hfr2. wp_steps.
    exists (Z.to_nat (cnt - b2), swap1 es' i b2). simpl.
    assert (∀ k, 1 ≤ k → at1 (swap1 es' i b2) k =
      if decide (k = b2) then at1 es' i else if decide (k = i) then at1 es' b2 else at1 es' k) as Hsw
      by (intros; apply at1_swap1; lia).
    split_and!; try done; try lia.
    + intros x Hx. rewrite Hfr2; [by apply Hfr|]. by rewrite Hc'.
    + apply permuted_swap; done || lia.
    + intros p j Hp Hpb Hj Hjc. rewrite !Hsw by lia.
      destruct (decide (p = i)) as [->|Hpi].
      * rewrite (decide_False (P := i = b2)) by lia. destruct (decide (j = b2)) as [->|]; [done|].
        rewrite decide_False by lia. by apply Hmax.
      * rewrite (decide_False (P := p = b2)) by lia. rewrite (decide_False (P := j = b2)) by lia.
        destruct (decide (j = i)) as [->|]; [by apply HB|by apply HA].
    + intros p j Hp Hpb Hj Hjc. assert (p = i) as -> by lia. rewrite !Hsw by lia.
      rewrite (decide_False (P := i = b2)), (decide_True (P := i = i)) by lia.
      rewrite !decide_False by lia. apply HA; lia.
Qed.

(** The first element of a heap is a greatest one. *)
Lemma heap_top cnt es j : heap_from 1 cnt es → 1 ≤ j ≤ cnt → le (at1 es j) (at1 es 1).
Proof.
  intros Hh Hj. assert (∃ n, j ≤ Z.of_nat n) as [n Hn] by (exists (Z.to_nat j); lia).
  revert j Hj Hn. induction n as [|n IH]; intros j Hj Hn; [lia|].
  destruct (decide (j = 1)) as [->|]; [apply not_after_refl, _|].
  pose proof (Z.div_mod j 2 ltac:(lia)). pose proof (Z.mod_pos_bound j 2 ltac:(lia)).
  eapply not_after_trans; [done|apply (Hh (j / 2)); unfold child; lia|].
  apply IH; lia.
Qed.

Lemma array_frame_trans es m1 m2 m3 :
  array_frame arr size es m1 m2 → array_frame arr size es m2 m3 → array_frame arr size es m1 m3.
Proof. intros H1 H2 x Hx. rewrite H2, H1; done. Qed.

Lemma array_frame_cnt es es' m1 m2 :
  cnt_of es' = cnt_of es → array_frame arr size es m1 m2 → array_frame arr size es' m1 m2.
Proof. intros E H x Hx. apply H. by rewrite <-E. Qed.

(** What is left to sort: the first [i] elements, a heap of elements that are
    not above the sorted rest. *)
Record sorting (es0 : list (list Z)) i es : Prop := {
  so_perm : es ≡ₚ es0;
  so_heap : heap_from 1 i es;
  so_split a b : 1 ≤ a ≤ i → i < b ≤ cnt_of es → le (at1 es a) (at1 es b);
  so_sorted a b : i < a → a < b → b ≤ cnt_of es → le (at1 es a) (at1 es b);
}.

Lemma sorting_sorted es0 i es : sorting es0 i es → i ≤ 1 → Sorted le es.
Proof.
  intros [_ _ Hsp Hso] Hi. apply StronglySorted_Sorted.
  assert (∀ k l (a b : list Z), (k < l)%nat → es !! k = Some a → es !! l = Some b → le a b) as H.
  { intros k l a b Hkl Ha Hb. apply lookup_lt_Some in Hb as Hlb. apply lookup_lt_Some in Ha as Hla.
    assert (a = at1 es (Z.of_nat k + 1)) as ->.
    { unfold at1. rewrite Z.add_simpl_r, Nat2Z.id. symmetry. by apply nth_lookup_Some. }
    assert (b = at1 es (Z.of_nat l + 1)) as ->.
    { unfold at1. rewrite Z.add_simpl_r, Nat2Z.id. symmetry. by apply nth_lookup_Some. }
    unfold cnt_of in *. destruct (decide (Z.of_nat k + 1 ≤ i)); [apply Hsp; lia|apply Hso; lia]. }
  clear Hsp Hso. induction es as [|x es IH]; constructor.
  - apply IH. intros k l a b ? Ha Hb. apply (H (S k) (S l)); done || lia.
  - apply Forall_forall. intros y Hy. apply list_elem_of_lookup in Hy as [l Hl]. by apply (H O (S l)); [lia|..].
Qed.

Lemma wp_sort m es cnt (Q : unit → mem → Prop) :
  array_at arr size m es → cnt = cnt_of es → cnt < 2 ^ 31 - 1 → 0 < arr →
  (∀ m' es', array_at arr size m' es' → array_frame arr size es m m' → es' ≡ₚ es → Sorted le es' → Q tt m') →
  wp (sort arr cnt size compare) m Q.
Proof.
  intros Ha -> Hc Harr HQ. set (n := cnt_of es) in *. assert (0 ≤ n) by (unfold n, cnt_of; lia).
  unfold sort. wp_step. apply wp_assert; [by rewrite (proj2 (Z.eqb_neq arr 0)) by lia|].
  wp_step. apply wp_assert; [by apply Z.ltb_lt|]. wp_step.
  pose proof (Z.div_mod n 2 ltac:(lia)). pose proof (Z.mod_pos_bound n 2 ltac:(lia)).
  (* build a heap *)
  eapply (wp_loop (λ '(k, es') i m', k = Z.to_nat i ∧ 0 ≤ i ≤ n / 2 ∧ array_at arr size m' es' ∧
    array_frame arr size es m m' ∧ permuted n es es' ∧ heap_from (i + 1) n es') fst)
    with (g := (Z.to_nat (n / 2), es)); cycle 1.
  { split_and!; try done; try lia. intros p j Hp Hj Hjn. unfold child in *. lia. }
  { simpl. lia. }
  intros [k es'] i m' (-> & Hi & Ha' & Hfr & Hpm & Hh). pose proof (permuted_cnt _ _ _ Hpm) as Hcnt.
  destruct (Z.ltb_spec 0 i).
  { wp_step. eapply (wp_heapify m' es'); [done|lia|lia|lia|done|]. intros m2 es2 Ha2 Hfr2 Hpm2 Hh2. wp_steps.
    exists (Z.to_nat (i - 1), es2). simpl. split_and!; try done; try lia.
    - eapply array_frame_trans; [done|]. by eapply array_frame_cnt.
    - destruct Hpm as [Hp1 Ht1 Hal1], Hpm2 as [Hp2 Ht2 Hal2]. split; [by rewrite Hp2|..].
      + intros j Hj. by rewrite Ht2, Ht1.
      + intros P HP. by apply Hal2, Hal1.
    - by rewrite Z.sub_add. }
  assert (i = 0) as -> by lia. wp_steps. simpl in Hh.
  (* take it apart *)
  eapply (wp_loop (λ '(k, es2) i m', k = Z.to_nat i ∧ 0 ≤ i ≤ n ∧ array_at arr size m' es2 ∧
    array_frame arr size es m m' ∧ sorting es i es2) fst)
    with (g := (Z.to_nat n, es')); cycle 1.
  { split_and!; try done; try lia. split; [apply Hpm|done|intros; lia|intros; lia]. }
  { simpl. lia. }
  clear Hpm Hh Hcnt Ha' Hfr m' es' Hi. clear H2.
  intros [k es'] i m' (-> & Hi & Ha' & Hfr & Hso).
  assert (cnt_of es' = n) as Hcnt by (destruct Hso; unfold n, cnt_of; by rewrite so_perm0).
  destruct (Z.ltb_spec 1 i).
  2: { wp_steps. eapply HQ; [done|done|apply Hso|by eapply sorting_sorted]. }
  destruct Hso as [Hp Hh Hsp Hst]. wp_step.
  eapply wp_do_swap; [done|done|lia|lia|lia|]. intros m2 Ha2 Hfr2. wp_step.
  assert (∀ k, 1 ≤ k → at1 (swap1 es' 1 i) k =
    if decide (k = i) then at1 es' 1 else if decide (k = 1) then at1 es' i else at1 es' k) as Hsw
    by (intros; apply at1_swap1; lia).
  eapply (wp_heapify m2 (swap1 es' 1 i)); [done|lia|rewrite cnt_swap1; lia|lia| |].
  { intros p j Hpp Hj Hjc. unfold child in *. rewrite !Hsw by lia. rewrite !decide_False by lia. apply Hh; unfold child; lia. }
  intros m3 es3 Ha3 Hfr3 Hpm3 Hh3. pose proof (permuted_cnt _ _ _ Hpm3) as Hcnt3. rewrite cnt_swap1 in Hcnt3.
  destruct Hpm3 as [Hp3 Ht3 Hal3]. wp_steps.
  exists (Z.to_nat (i - 1), es3). simpl. split_and!; try done; try lia.
  - eapply array_frame_trans; [done|]. apply (array_frame_cnt es' es); [done|].
    eapply array_frame_trans; [done|]. eapply (array_frame_cnt (swap1 es' 1 i)); [|done]. by rewrite cnt_swap1.
  - split; [by rewrite Hp3, swap1_perm by lia|done|..].
    + intros a b Hab Hb. rewrite (Ht3 b) by lia. revert a Hab.
      apply (Hal3 (λ x, le x (at1 (swap1 es' 1 i) b))). intros a Hab.
      rewrite !Hsw by lia. destruct (decide (b = i)) as [->|]; repeat case_decide; try lia.
      * apply (heap_top i); [done|lia].
      * apply (heap_top i); [done|lia].
      * apply Hsp; lia.
      * apply Hsp; lia.
    + intros a b Hia Hab Hb. rewrite !Ht3, !Hsw by lia. destruct (decide (a = i)) as [->|].
      * rewrite !decide_False by lia. apply Hsp; lia.
      * rewrite !decide_False by lia. apply Hst; lia.
Qed.
End heaps.

(** ** Binary search *)
Section searching.
Context (arr size : Z) (Hsize : 0 < size) (compare : compare_func).

(** The array is in order as far as the search for [key] can tell: first the
    elements below the key, then those equal to it, then those above. *)
Definition ordered_for (key : list Z) (es : list (list Z)) : Prop :=
  ∀ i j x y, (i ≤ j)%nat → es !! i = Some x → es !! j = Some y →
    (compare key x < 0 → compare key y < 0) ∧ (0 < compare key y → 0 < compare key x).

Lemma wp_binary_search m es key cnt (Q : Z → mem → Prop) :
  array_at arr size m es → cnt = cnt_of es → ordered_for key es →
  (∀ k x, es !! k = Some x → compare key x = 0 → Q (arr + Z.of_nat k * size) m) →
  ((∀ k x, es !! k = Some x → compare key x ≠ 0) → Q 0 m) →
  wp (binary_search key arr cnt size compare) m Q.
Proof.
  intros Ha -> Hord HQ1 HQ0. unfold binary_search, cnt_of. set (n := length es).
  apply (wp_loop (λ '(lo, hi) '(first, last) m', m' = m ∧ (lo ≤ hi ≤ n)%nat ∧
    first = arr + Z.of_nat lo * size ∧ last = arr + Z.of_nat hi * size ∧
    (∀ k x, (k < lo)%nat → es !! k = Some x → 0 < compare key x) ∧
    (∀ k x, (hi ≤ k)%nat → es !! k = Some x → compare key x < 0)) (λ '(lo, hi), hi - lo)%nat)
    with (g := (O, n)).
  2: { split_and!; try done; try lia. intros k x Hk Hx. apply lookup_lt_Some in Hx. lia. }
  2: { lia. }
  intros [lo hi] [first last] m' (-> & Hle & -> & -> & Hlo & Hhi).
  destruct (Z.ltb_spec (arr + Z.of_nat lo * size) (arr + Z.of_nat hi * size)) as [Hlt|Hge].
  2: { wp_steps. apply HQ0. intros k x Hx. assert (lo = hi) as -> by nia.
       destruct (decide (k < hi)%nat); [specialize (Hlo k x ltac:(lia) Hx)|specialize (Hhi k x ltac:(lia) Hx)]; lia. }
  assert (lo < hi)%nat as Hlh by nia.
  assert ((arr + Z.of_nat hi * size - (arr + Z.of_nat lo * size)) `div` size = Z.of_nat (hi - lo)) as ->.
  { replace (arr + Z.of_nat hi * size - (arr + Z.of_nat lo * size)) with (Z.of_nat (hi - lo) * size) by nia.
    apply Z.div_mul. lia. }
  set (mid := (lo + (hi - lo) / 2)%nat).
  assert (Z.of_nat (hi - lo) `div` 2 = Z.of_nat ((hi - lo) / 2)) as ->.
  { by rewrite Nat2Z.inj_div. }
  pose proof (Nat.div_lt (hi - lo) 2 ltac:(lia) ltac:(lia)).
  replace (arr + Z.of_nat lo * size + Z.of_nat ((hi - lo) / 2) * size) with (arr + Z.of_nat mid * size)
    by (subst mid; nia).
  destruct (lookup_lt_is_Some_2 es mid) as [v Hv]; [subst mid; lia|].
  destruct (array_elem arr size m es mid v Ha Hv) as [Hb Hlv].
  wp_step. eapply wp_load_bytes; [done|lia|].
  destruct (Z.ltb_spec (compare key v) 0); [|destruct (Z.ltb_spec 0 (compare key v))]; wp_steps.
  - exists (lo, mid). split_and!; try done; try (subst mid; lia).
    intros k x Hk Hx. by eapply (Hord mid k).
  - exists (S mid, hi). split_and!; try done; try (subst mid; lia).
    intros k x Hk Hx. eapply (Hord k mid x v); [lia|done|done|done].
  - apply (HQ1 mid v); [done|lia].
Qed.
End searching.

(** ** [atoi] *)
Lemma s32_cong x y : (x - y) `mod` 2 ^ 32 = 0 → s32 x = s32 y.
Proof.
  intros H. unfold s32, sext. f_equal.
  apply Z.mod_divide in H as [k Hk]; [|lia]. replace (x + 2 ^ (32 - 1)) with (y + 2 ^ (32 - 1) + k * 2 ^ 32) by lia.
  by rewrite Z.mod_add.
Qed.
Lemma s32_equiv x : ∃ k, s32 x = x + k * 2 ^ 32.
Proof.
  unfold s32, sext. exists (- ((x + 2 ^ (32 - 1)) `div` 2 ^ 32)).
  pose proof (Z.div_mod (x + 2 ^ (32 - 1)) (2 ^ 32) ltac:(done)). lia.
Qed.

Definition digits_value (ds : list Z) : Z := fold_left (λ v d, 10 * v + (d - 48)) ds 0.

Lemma digits_value_snoc ds d : digits_value (ds ++ [d]) = 10 * digits_value ds + (d - 48).
Proof. unfold digits_value. by rewrite fold_left_app. Qed.

Lemma s32_digit v c : s32 (s32 (s32 (- v) * 10) - (c - 48)) = s32 (- (10 * v + (c - 48))).
Proof.
  destruct (s32_equiv (- v)) as [k1 ->]. destruct (s32_equiv ((- v + k1 * 2 ^ 32) * 10)) as [k2 ->].
  apply s32_cong.
  replace ((- v + k1 * 2 ^ 32) * 10 + k2 * 2 ^ 32 - (c - 48) - - (10 * v + (c - 48)))
    with ((k1 * 10 + k2) * 2 ^ 32) by lia.
  apply Z_mod_mult.
Qed.
Lemma s32_neg v : s32 (- s32 (- v)) = s32 v.
Proof.
  destruct (s32_equiv (- v)) as [k ->]. apply s32_cong.
  replace (- (- v + k * 2 ^ 32) - v) with ((- k) * 2 ^ 32) by lia. apply Z_mod_mult.
Qed.

(** What ends a number: the end of the string or a character that is no digit. *)
Definition ends_with (P : Z → bool) (rest : list Z) : Prop := ∀ c, head rest = Some c → P c = false.

Lemma wp_atoi_spaces m a sp rest (Q : Z → mem → Prop) :
  cstr m a (sp ++ rest) → Forall (λ c, isspace c = true) sp → ends_with isspace rest →
  Q (a + Z.of_nat (length sp)) m →
  wp (scan (λ s, c ← load s; if isspace c then mret (inl (s + 1)) else mret (inr s)) a) m Q.
Proof.
  intros Hs Hsp Hend HQ.
  apply (wp_scan (λ sp' p m', m' = m ∧ cstr m p (sp' ++ rest) ∧ Forall (λ c, isspace c = true) sp' ∧
    p + Z.of_nat (length sp') = a + Z.of_nat (length sp)) length) with (g := sp);
    [|done|apply cstr_size in Hs; rewrite length_app in Hs; lia].
  intros sp' p m' (-> & Hs' & Hsp' & Hl). destruct sp' as [|c sp']; simpl in *.
  - rewrite Z.add_0_r in Hl. subst p. destruct rest as [|c rest].
    + apply cstr_nil in Hs'. wp_step. eapply wp_load; [done|]. by wp_steps.
    + apply cstr_cons in Hs' as (Hc & _ & _). wp_step. eapply wp_load; [done|]. rewrite (Hend c) by done. by wp_steps.
  - apply cstr_cons in Hs' as (Hc & _ & Hs'). apply Forall_cons in Hsp' as [Hc' Hsp'].
    wp_step. eapply wp_load; [done|]. rewrite Hc'. wp_steps. exists sp'. split_and!; done || lia.
Qed.

Lemma wp_atoi_digits m a ds rest (Q : Z → mem → Prop) :
  cstr m a (ds ++ rest) → Forall (λ c, isdigit c = true) ds → ends_with isdigit rest →
  Q (s32 (- digits_value ds)) m →
  wp (scan (λ '(s, value), c ← load s;
    if isdigit c then mret (inl (s + 1, s32 (s32 (value * 10) - (c - 48)))) else mret (inr value)) (a, 0)) m Q.
Proof.
  intros Hs Hds Hend HQ.
  apply (wp_scan (λ '(d1, d2) '(p, v) m', m' = m ∧ cstr m p (d2 ++ rest) ∧ ds = d1 ++ d2 ∧
    v = s32 (- digits_value d1)) (λ '(_, d2), length d2)) with (g := ([], ds));
    [|done|apply cstr_size in Hs; rewrite length_app in Hs; lia].
  intros [d1 d2] [p v] m' (-> & Hs' & -> & ->). destruct d2 as [|c d2]; simpl in *.
  - rewrite app_nil_r in HQ. destruct rest as [|c rest].
    + apply cstr_nil in Hs'. wp_step. eapply wp_load; [done|]. by wp_steps.
    + apply cstr_cons in Hs' as (Hc & _ & _). wp_step. eapply wp_load; [done|]. rewrite (Hend c) by done. by wp_steps.
  - apply cstr_cons in Hs' as (Hc & _ & Hs'). apply Forall_app in Hds as [_ Hds].
    apply Forall_cons in Hds as [Hc' _]. wp_step. eapply wp_load; [done|]. rewrite Hc'. wp_steps.
    exists (d1 ++ [c], d2). rewrite <-app_assoc, digits_value_snoc, s32_digit. split_and!; done || lia.
Qed.

(** The optional sign. *)
Definition signs : list (list Z * bool) := [([], false); ([43], false); ([45], true)].

Lemma wp_atoi m a sp sg negative ds rest (Q : Z → mem → Prop) :
  cstr m a (sp ++ sg ++ ds ++ rest) → 0 < a →
  Forall (λ c, isspace c = true) sp → (sg, negative) ∈ signs →
  Forall (λ c, isdigit c = true) ds → ds ≠ [] → ends_with isdigit rest →
  Q (s32 (if (negative : bool) then - digits_value ds else digits_value ds)) m → wp (atoi a) m Q.
Proof.
  intros Hs Ha Hsp Hsg Hds Hne Hend HQ. unfold atoi.
  wp_step. apply wp_assert; [by rewrite (proj2 (Z.eqb_neq a 0)) by lia|].
  destruct ds as [|d ds]; [done|]. apply Forall_cons in Hds as Hds'. destruct Hds' as [Hd _].
  assert (48 ≤ d ≤ 57) as Hd'.
  { unfold isdigit in Hd. apply andb_true_iff in Hd as [? ?]. lia. }
  wp_step. eapply (wp_atoi_spaces m a sp); [done|done| |].
  { intros c. unfold signs in Hsg. set_unfold in Hsg.
    destruct Hsg as [[= -> ->]|[[= -> ->]|[[= -> ->]|[]]]]; simpl; intros [= <-]; unfold isspace; try done.
    repeat (rewrite (proj2 (Z.eqb_neq d _)) by lia). done. }
  pose proof (cstr_drop m a _ (length sp) Hs) as Hs1.
  rewrite drop_app_length, length_app in Hs1. specialize (Hs1 ltac:(lia)).
  set (b := a + Z.of_nat (length sp)) in *. set (ds0 := d :: ds) in *.
  unfold signs in Hsg. set_unfold in Hsg. destruct Hsg as [[= -> ->]|[[= -> ->]|[[= -> ->]|[]]]]; simpl in Hs1.
  - apply cstr_cons in Hs1 as Hc. destruct Hc as (Hc & _ & _). wp_step. eapply wp_load; [done|].
    rewrite !(proj2 (Z.eqb_neq d _)) by lia. wp_step.
    apply (wp_atoi_digits m b ds0 rest); [done..|]. wp_steps. by rewrite s32_neg.
  - apply cstr_cons in Hs1 as (Hc & _ & Hs1). wp_step. eapply wp_load; [done|]. simpl. wp_step.
    apply (wp_atoi_digits m (b + 1) ds0 rest); [done..|]. wp_steps. by rewrite s32_neg.
  - apply cstr_cons in Hs1 as (Hc & _ & Hs1). wp_step. eapply wp_load; [done|]. simpl. wp_step.
    apply (wp_atoi_digits m (b + 1) ds0 rest); [done..|]. by wp_steps.
Qed.
