(* ===== verification/CStdlibProps.v ===== *)
(** * Properties of lib/stdlib.c *)
From S2P Require Import Prelude ListSpec Mem CStdlib CStdlibFacts.
Local Open Scope Z_scope.

(** C37: [qsort] sorts.  For every comparison function of the [strcmp] kind and
    every array of fewer than 2^31 - 1 elements of any size, it ends, leaves in
    the array a permutation of its elements in nondecreasing order, and writes no
    byte outside the array. *)
Theorem qsort_correct m arr size compare es :
  StrictWeakOrder (cmp_less compare) → array_at arr size m es → 0 < size → 0 < arr →
  cnt_of es < 2 ^ 31 - 1 →
  ∃ m' es', qsort arr (cnt_of es) size compare m = Ok (tt, m') ∧ array_at arr size m' es' ∧
    es' ≡ₚ es ∧ Sorted (λ x y, compare x y ≤ 0) es' ∧ array_frame arr size es m m'.
Proof.
  intros Hswo Ha Hs Harr Hc. unfold qsort, compare_thunk.
  assert (wp (sort arr (cnt_of es) size compare) m (λ _ m', ∃ es', array_at arr size m' es' ∧
    es' ≡ₚ es ∧ Sorted (λ x y, compare x y ≤ 0) es' ∧ array_frame arr size es m m')) as Hwp.
  { eapply wp_sort; try done. intros m' es' ? ? ? Hso. exists es'. split_and!; try done.
    clear -Hso. induction Hso as [|x xs _ IH Hx]; [constructor|]. constructor; [done|].
    destruct Hx as [|y ys Hxy]; constructor. unfold not_after, cmp_less in Hxy. by apply Z.ltb_ge in Hxy. }
  apply wp_ok in Hwp as ([] & m' & Hrun & es' & ?). eauto.
Qed.

(** Single bytes compared by value. *)
Definition ex_compare : compare_func := λ a b, match a, b with x :: _, y :: _ => x - y | _, _ => 0 end.
Definition ex_array : list (list Z) := [[5]; [3]; [9]; [1]].

Lemma ex_compare_swo :
  StrictWeakOrder (cmp_less (λ a b, default 0 (head a) - default 0 (head b))).
Proof. split; unfold cmp_less; intros; rewrite ?Z.ltb_lt, ?Z.ltb_ge in *; lia. Qed.

Lemma qsort_correct_witness :
  ∃ m' es', qsort 100 4 1 (λ a b, default 0 (head a) - default 0 (head b))
      (write ∅ 100 (concat ex_array)) = Ok (tt, m') ∧
    array_at 100 1 m' es' ∧ es' ≡ₚ ex_array ∧
    Sorted (λ x y : list Z, default 0 (head x) - default 0 (head y) ≤ 0) es'.
Proof.
  destruct (qsort_correct (write ∅ 100 (concat ex_array)) 100 1
    (λ a b, default 0 (head a) - default 0 (head b)) ex_array) as (m' & es' & H1 & H2 & H3 & H4 & _).
  - apply ex_compare_swo.
  - split; [apply bytes_at_write|repeat constructor].
  - lia.
  - lia.
  - vm_compute. reflexivity.
  - exists m', es'. split; [exact H1|]. by split_and!.
Defined.

(** [bsearch] in an array that is in order for the key finds an element
    that compares equal to it, and returns a null pointer only if there is
    none.  It ends after at most [cnt] probes, all of them inside the array. *)
Theorem bsearch_correct m arr size compare key es :
  array_at arr size m es → 0 < size → ordered_for compare key es →
  ∃ p, bsearch key arr (cnt_of es) size compare m = Ok (p, m) ∧
    ((∃ k x, p = arr + Z.of_nat k * size ∧ es !! k = Some x ∧ compare key x = 0) ∨
     (p = 0 ∧ ∀ k x, es !! k = Some x → compare key x ≠ 0)).
Proof.
  intros Ha Hs Hord. unfold bsearch, compare_thunk.
  assert (wp (binary_search key arr (cnt_of es) size compare) m (λ p m', m' = m ∧
    ((∃ k x, p = arr + Z.of_nat k * size ∧ es !! k = Some x ∧ compare key x = 0) ∨
     (p = 0 ∧ ∀ k x, es !! k = Some x → compare key x ≠ 0)))) as Hwp.
  { eapply wp_binary_search; try done; eauto 10. }
  apply wp_ok in Hwp as (p & m' & Hrun & -> & ?). eauto.
Qed.

Lemma bsearch_correct_witness :
  ∃ p, bsearch [5] 100 2 1 ex_compare (write ∅ 100 [3; 5]) = Ok (p, write ∅ 100 [3; 5]) ∧
    ((∃ k x, p = 100 + Z.of_nat k * 1 ∧ ([[3]; [5]] : list (list Z)) !! k = Some x ∧ ex_compare [5] x = 0) ∨
     (p = 0 ∧ ∀ k x, ([[3]; [5]] : list (list Z)) !! k = Some x → ex_compare [5] x ≠ 0)).
Proof.
  apply (bsearch_correct (write ∅ 100 [3; 5]) 100 1 ex_compare [5] [[3]; [5]]).
  - split; [apply bytes_at_write|repeat constructor].
  - lia.
  - intros [|[|i]] [|[|j]] x y Hij Hx Hy; simplify_eq/=; lia.
Defined.

(** [atoi] reads a decimal number: white space, an optional sign and a
    nonempty run of digits, whatever follows, give the number they denote, as
    long as it fits an [int] (the most negative one included). *)
Theorem atoi_correct m a sp sg negative ds rest :
  cstr m a (sp ++ sg ++ ds ++ rest) → 0 < a →
  Forall (λ c, isspace c = true) sp → (sg, negative) ∈ signs →
  Forall (λ c, isdigit c = true) ds → ds ≠ [] → ends_with isdigit rest →
  let n := if (negative : bool) then - digits_value ds else digits_value ds in
  - 2 ^ 31 ≤ n < 2 ^ 31 → atoi a m = Ok (n, m).
Proof.
  intros Hs Ha Hsp Hsg Hds Hne Hend n Hn. apply wp_det_ok.
  eapply wp_atoi; try done. split; [|done]. by apply s32_small.
Qed.

(** [" -42x"] *)
Lemma atoi_correct_witness : atoi 100 (write ∅ 100 [32; 45; 52; 50; 120; 0]) = Ok (-42, write ∅ 100 [32; 45; 52; 50; 120; 0]).
Proof.
  apply (atoi_correct _ 100 [32] [45] true [52; 50] [120]).
  - apply (cstr_write ∅ 100 [32; 45; 52; 50; 120]). repeat constructor; lia.
  - lia.
  - repeat constructor.
  - unfold signs. set_solver.
  - repeat constructor.
  - done.
  - by intros c [= <-].
  - vm_compute. split; [discriminate|reflexivity].
Defined.
