(* ===== verification/Random.v ===== *)
(** * lib/random.c: the RC4 pseudo-random number generator

    Its static variables as a record; indexes and sums are [uint8_t]. *)
From S2P Require Import Prelude Mem.
Local Open Scope Z_scope.

Record rng := Rng { s : list Z; s_i : Z; s_j : Z; inited : bool }.

(** [s[i]], and an assignment to it. *)
Definition get_s (i : Z) : M rng Z := r ← gets id; the (s r !! Z.to_nat i).
Definition set_s (i v : Z) : M rng unit :=
  get_s i ;; modify (λ r, Rng (<[Z.to_nat i := v]> (s r)) (s_i r) (s_j r) (inited r)).

(** [swap_byte (s + a, s + b)]. *)
Definition swap_byte (a b : Z) : M rng unit :=
  t ← get_s a; v ← get_s b; set_s a v ;; set_s b t.

(** Byte [k] of the seed as it lies in memory. *)
Definition seed_byte (seed k : Z) : Z := Z.shiftr seed (8 * k) `mod` 256.

Definition random_init (seed : Z) : M rng unit :=
  for_upto 256 (λ i, set_s (Z.of_nat i) (u8 (Z.of_nat i))) ;;
  loop 257 (λ '(i, j),
    if i <? 256 then
      v ← get_s i;
      let j := u8 (j + (v + seed_byte seed (i `mod` 4))) in
      swap_byte i j ;;
      mret (inl (i + 1, j))
    else mret (inr tt)) (0, 0) ;;
  modify (λ r, Rng (s r) 0 0 true).

(** The bytes written into the buffer. *)
Definition random_byte : M rng Z :=
  modify (λ r, Rng (s r) (u8 (s_i r + 1)) (s_j r) (inited r)) ;;
  i ← gets s_i;
  v ← get_s i;
  modify (λ r, Rng (s r) (s_i r) (u8 (s_j r + v)) (inited r)) ;;
  j ← gets s_j;
  swap_byte i j ;;
  a ← get_s i; b ← get_s j;
  get_s (u8 (a + b)).

Fixpoint random_loop (size : nat) : M rng (list Z) :=
  match size with
  | O => mret []
  | S n => b ← random_byte; bs ← random_loop n; mret (b :: bs)
  end.

Definition random_bytes (size : Z) : M rng (list Z) :=
  b ← gets inited;
  (if negb b then random_init 0 else mret tt) ;;
  random_loop (Z.to_nat size).

Definition random_ulong : M rng Z :=
  bs ← random_bytes 4;
  mret (foldr (λ b acc, b + 256 * acc) 0 bs).

(** ** Correctness *)

(** The state array is a permutation of the byte values. *)
Definition all_bytes : list Z := Z.of_nat <$> seq 0 256.
Record rng_ok (r : rng) : Prop := {
  ok_s : s r ≡ₚ all_bytes;
  ok_i : 0 ≤ s_i r < 256;
  ok_j : 0 ≤ s_j r < 256;
}.

Lemma length_all_bytes : length all_bytes = 256%nat.
Proof. done. Qed.
Lemma elem_of_all_bytes b : b ∈ all_bytes ↔ 0 ≤ b < 256.
Proof.
  unfold all_bytes. rewrite list_elem_of_fmap. split.
  - intros (k & -> & Hk%elem_of_seq). lia.
  - intros Hb. exists (Z.to_nat b). rewrite elem_of_seq. lia.
Qed.
Lemma u8_range x : 0 ≤ u8 x < 256.
Proof. by apply Z.mod_pos_bound. Qed.

Lemma wp_get_s r i (Q : Z → rng → Prop) :
  s r ≡ₚ all_bytes → 0 ≤ i < 256 →
  (∀ v, s r !! Z.to_nat i = Some v → 0 ≤ v < 256 → Q v r) → wp (get_s i) r Q.
Proof.
  intros Hs Hi HQ. assert (length (s r) = 256%nat) as Hl by (by rewrite Hs).
  destruct (lookup_lt_is_Some_2 (s r) (Z.to_nat i)) as [v Hv]; [lia|].
  unfold get_s. wp_steps. eapply wp_the; [done|]. apply HQ; [done|].
  apply elem_of_all_bytes. rewrite <-Hs. by eapply list_elem_of_lookup_2.
Qed.

Lemma wp_swap_byte r a b (Q : unit → rng → Prop) :
  s r ≡ₚ all_bytes → 0 ≤ a < 256 → 0 ≤ b < 256 →
  (∀ l, l ≡ₚ all_bytes → Q tt (Rng l (s_i r) (s_j r) (inited r))) →
  wp (swap_byte a b) r Q.
Proof.
  intros Hs Ha Hb HQ. unfold swap_byte.
  wp_step. apply wp_get_s; [done|done|]. intros x Hx Hx'. wp_step. apply wp_get_s; [done|done|]. intros y Hy Hy'.
  assert (length (s r) = 256%nat) as Hl by (by rewrite Hs).
  unfold set_s. wp_step. wp_step. apply wp_get_s; [done|done|]. intros ? _ _. wp_steps.
  unfold get_s. wp_steps.
  destruct (lookup_lt_is_Some_2 (<[Z.to_nat a := y]> (s r)) (Z.to_nat b)) as [z Hz]; [rewrite length_insert; lia|].
  eapply wp_the; [exact Hz|]. wp_steps. apply HQ. rewrite <-Hs. by apply Permutation_insert_swap.
Qed.

Lemma wp_fill r (Q : unit → rng → Prop) :
  length (s r) = 256%nat → Q tt (Rng all_bytes (s_i r) (s_j r) (inited r)) →
  wp (for_upto 256 (λ i, set_s (Z.of_nat i) (u8 (Z.of_nat i)))) r Q.
Proof.
  intros Hl HQ. apply (wp_for_upto (λ k r', ∃ l, r' = Rng l (s_i r) (s_j r) (inited r) ∧ length l = 256%nat ∧
    ∀ i, (i < k)%nat → l !! i = Some (Z.of_nat i))).
  - exists (s r). split_and!; [by destruct r|done|intros; lia].
  - intros k ? Hk (l & -> & Hll & Hlk). unfold set_s, get_s. wp_steps. simpl.
    destruct (lookup_lt_is_Some_2 l (Z.to_nat (Z.of_nat k))) as [v Hv]; [lia|].
    eapply wp_the; [done|]. wp_steps. simpl. eexists. split; [done|]. rewrite length_insert. split; [done|].
    intros i Hi. rewrite Nat2Z.id. destruct (decide (i = k)) as [->|].
    + rewrite list_lookup_insert_eq by lia. unfold u8. by rewrite Z.mod_small by lia.
    + rewrite list_lookup_insert_ne by done. apply Hlk. lia.
  - intros ? (l & -> & Hll & Hlk). assert (l = all_bytes) as ->; [|done].
    apply list_eq_same_length with (n := 256%nat); [done|done|].
    intros i x y Hi Hx Hy. rewrite Hlk in Hx by done. unfold all_bytes in Hy.
    rewrite list_lookup_fmap, lookup_seq_lt in Hy by done. simpl in Hy. congruence.
Qed.

Lemma wp_random_init r seed (Q : unit → rng → Prop) :
  length (s r) = 256%nat → (∀ r', rng_ok r' → inited r' = true → Q tt r') → wp (random_init seed) r Q.
Proof.
  intros Hl HQ. unfold random_init. wp_step. apply wp_fill; [done|]. wp_step.
  apply (wp_loop (λ n '(i, j) r', n = Z.to_nat (256 - i) ∧ 0 ≤ i ≤ 256 ∧ 0 ≤ j < 256 ∧ s r' ≡ₚ all_bytes) id)
    with (g := 256%nat); [|split_and!; done || lia|unfold id; lia].
  intros n [i j] r' (-> & Hi & Hj & Hs). destruct (Z.ltb_spec i 256).
  - wp_step. apply wp_get_s; [done|lia|]. intros v _ Hv. wp_step.
    set (j' := u8 _). pose proof (u8_range (j + (v + seed_byte seed (i `mod` 4)))) as Hj'. fold j' in Hj'.
    apply wp_swap_byte; [done|lia|done|]. intros l Hs2. wp_steps. exists (Z.to_nat (256 - (i + 1))). unfold id. split_and!; done || lia.
  - wp_steps. by apply HQ.
Qed.

Lemma wp_random_byte r (Q : Z → rng → Prop) :
  rng_ok r → (∀ b r', rng_ok r' → inited r' = inited r → 0 ≤ b < 256 → Q b r') → wp random_byte r Q.
Proof.
  intros Hok HQ. pose proof Hok as [Hs _ Hj]. unfold random_byte. wp_steps. simpl.
  pose proof (u8_range (s_i r + 1)). apply wp_get_s; [done|done|]. intros v _ Hv. wp_steps. simpl.
  pose proof (u8_range (s_j r + v)).
  apply wp_swap_byte; [done|done|done|]. simpl. intros l Hs'.
  wp_step. apply wp_get_s; [done|done|]. intros x _ Hx. wp_step. apply wp_get_s; [done|done|]. intros y _ Hy.
  apply wp_get_s; [done|apply u8_range|]. intros b _ Hb. by apply HQ.
Qed.

Lemma wp_random_loop n : ∀ r (Q : list Z → rng → Prop),
  rng_ok r → (∀ bs r', rng_ok r' → inited r' = inited r → length bs = n → Forall (λ b, 0 ≤ b < 256) bs → Q bs r') →
  wp (random_loop n) r Q.
Proof.
  induction n as [|n IH]; intros r Q Hok HQ; simpl; [by apply HQ|].
  wp_step. apply wp_random_byte; [done|]. intros b r1 Hok1 Hin1 Hb. wp_step.
  apply IH; [done|]. intros bs r2 Hok2 Hin2 Hl Hbs. wp_steps. apply HQ; [done|congruence|simpl; lia|by constructor].
Qed.

(** The generator is always in a good state.  Whatever the 256 bytes of the
    state array held before, seeding it makes them a permutation of 0..255, and
    drawing any number of bytes keeps it one; it draws as many values as asked,
    all of them bytes, and no array access is out of bounds. *)
Theorem random_bytes_ok r seed size :
  length (s r) = 256%nat → 0 ≤ size →
  ∃ r1 r2 bs, random_init seed r = Ok (tt, r1) ∧ rng_ok r1 ∧
    random_bytes size r1 = Ok (bs, r2) ∧ rng_ok r2 ∧
    Z.of_nat (length bs) = size ∧ Forall (λ b, 0 ≤ b < 256) bs.
Proof.
  intros Hl Hsz.
  assert (wp (random_init seed) r (λ _ r1, rng_ok r1 ∧ inited r1 = true)) as H1 by (by apply wp_random_init).
  apply wp_ok in H1 as ([] & r1 & Hr1 & Hok1 & Hin1). exists r1.
  assert (wp (random_bytes size) r1 (λ bs r2, rng_ok r2 ∧ Z.of_nat (length bs) = size ∧
    Forall (λ b, 0 ≤ b < 256) bs)) as H2.
  { unfold random_bytes. wp_steps. rewrite Hin1. simpl. wp_steps.
    apply wp_random_loop; [done|]. intros bs r2 ? _ Hb ?. split_and!; done || lia. }
  apply wp_ok in H2 as (bs & r2 & Hr2 & ? & ? & ?). exists r2, bs. by split_and!.
Qed.

Lemma random_bytes_ok_witness :
  ∃ r1 r2 bs, random_init 7 (Rng (replicate 256 0) 0 0 false) = Ok (tt, r1) ∧ rng_ok r1 ∧
    random_bytes 3 r1 = Ok (bs, r2) ∧ rng_ok r2 ∧ Z.of_nat (length bs) = 3 ∧ Forall (λ b, 0 ≤ b < 256) bs.
Proof. apply random_bytes_ok; [vm_compute; reflexivity|lia]. Defined.
