(* ===== verification/Arith.v ===== *)
(** * lib/arithmetic.c: 64-bit division on a 32-bit processor

    The functions are pure but for the trap of the DIVL instruction (#DE), which
    is the error [EPanic]. *)
From S2P Require Import Prelude.
Local Open Scope Z_scope.

#[global] Instance res_ret : MRet res := @Ok.
#[global] Instance res_bind : MBind res := λ A B f r, match r with Ok a => f a | Err e => Err e end.

(** DIVL: a 64-bit dividend and a 32-bit divisor; it traps unless the quotient
    fits 32 bits. *)
Definition divl (n d : Z) : res Z :=
  if (d =? 0) || (2 ^ 32 <=? n `div` d) then Err EPanic else Ok (n `div` d).

Definition nlz (x : Z) : Z :=
  let '(n, x) := if x <=? 65535 then (16, u32 (Z.shiftl x 16)) else (0, x) in
  let '(n, x) := if x <=? 16777215 then (n + 8, u32 (Z.shiftl x 8)) else (n, x) in
  let '(n, x) := if x <=? 268435455 then (n + 4, u32 (Z.shiftl x 4)) else (n, x) in
  let '(n, x) := if x <=? 1073741823 then (n + 2, u32 (Z.shiftl x 2)) else (n, x) in
  if x <=? 2147483647 then n + 1 else n.

Definition udiv64 (n d : Z) : res Z :=
  if Z.shiftr d 32 =? 0 then
    let b := 2 ^ 32 in
    let n1 := u32 (Z.shiftr n 32) in
    let n0 := u32 n in
    let d0 := u32 d in
    if d0 =? 0 then Err EPanic else
    q ← divl (u64 (u64 (b * (n1 `mod` d0)) + n0)) d0;
    Ok (u64 (q + u64 (b * (n1 `div` d0))))
  else if n <? d then Ok 0
  else
    let d1 := u32 (Z.shiftr d 32) in
    let s := nlz d1 in
    q1 ← divl (Z.shiftr n 1) (u32 (Z.shiftr (u64 (Z.shiftl d s)) 32));
    let q := Z.shiftr q1 (31 - s) in
    Ok (if u64 (n - u64 (u64 (q - 1) * d)) <? d then u64 (q - 1) else q).

(** [umod64] and [smod64] return 32-bit values. *)
Definition umod64 (n d : Z) : res Z := q ← udiv64 n d; Ok (u32 (u64 (n - u64 (d * q)))).

Definition sdiv64 (n d : Z) : res Z :=
  let n_abs := if 0 <=? n then n else u64 (- n) in
  let d_abs := if 0 <=? d then d else u64 (- d) in
  q_abs ← udiv64 n_abs d_abs;
  Ok (if eqb (n <? 0) (d <? 0) then s64 q_abs else s64 (- s64 q_abs)).

Definition smod64 (n d : Z) : res Z := q ← sdiv64 n d; Ok (s32 (s64 (n - s64 (d * q)))).

(** What GCC calls. *)
Definition __divdi3 (n d : Z) : res Z := sdiv64 n d.
Definition __moddi3 (n d : Z) : res Z := smod64 n d.
Definition __udivdi3 (n d : Z) : res Z := udiv64 n d.
Definition __umoddi3 (n d : Z) : res Z := umod64 n d.

(** ** Correctness *)

Lemma divl_ok n d : 0 < d → n `div` d < 2 ^ 32 → divl n d = Ok (n `div` d).
Proof.
  intros Hd Hq. unfold divl. rewrite (proj2 (Z.eqb_neq d 0)) by lia. simpl.
  by rewrite (proj2 (Z.leb_gt (2 ^ 32) _)) by done.
Qed.

(** The leading zeros: shifting them out makes bit 31 the top bit.  One test of
    [nlz] shifts by [k] if the top [k] bits are zero. *)
Lemma nlz_test x n y k :
  0 < k ≤ 16 → 0 ≤ n → y = x * 2 ^ n → 2 ^ (32 - 2 * k) ≤ y < 2 ^ 32 →
  let r := if y <=? 2 ^ (32 - k) - 1 then (n + k, u32 (Z.shiftl y k)) else (n, y) in
  n ≤ r.1 ≤ n + k ∧ r.2 = x * 2 ^ r.1 ∧ 2 ^ (32 - k) ≤ r.2 < 2 ^ 32.
Proof.
  intros Hk Hn -> Hy. assert (2 ^ 32 = 2 ^ (32 - k) * 2 ^ k) as E1 by (rewrite <-Z.pow_add_r by lia; f_equal; lia).
  assert (2 ^ (32 - k) = 2 ^ (32 - 2 * k) * 2 ^ k) as E2 by (rewrite <-Z.pow_add_r by lia; f_equal; lia).
  assert (0 < 2 ^ k) by (apply Z.pow_pos_nonneg; lia).
  destruct (Z.leb_spec (x * 2 ^ n) (2 ^ (32 - k) - 1)); cbn [fst snd]; [|lia].
  assert (2 ^ (32 - k) ≤ x * 2 ^ n * 2 ^ k < 2 ^ 32) by nia.
  rewrite Z.shiftl_mul_pow2, u32_small by lia. rewrite Z.pow_add_r by lia. lia.
Qed.

Lemma nlz_spec x : 0 < x < 2 ^ 32 → 0 ≤ nlz x ≤ 31 ∧ 2 ^ 31 ≤ x * 2 ^ nlz x < 2 ^ 32.
Proof.
  intros Hx. unfold nlz.
  pose proof (nlz_test x 0 x 16 ltac:(lia) ltac:(lia) ltac:(lia) ltac:(lia)) as H. cbv zeta in H.
  change (2 ^ (32 - 16) - 1) with 65535 in H. change (0 + 16) with 16 in H.
  destruct (if x <=? 65535 then _ else _) as [n1 x1]. destruct H as (Hn1 & Hx1 & Hb1). cbn [fst snd] in *.
  pose proof (nlz_test x n1 x1 8 ltac:(lia) ltac:(lia) Hx1 ltac:(lia)) as H. cbv zeta in H.
  change (2 ^ (32 - 8) - 1) with 16777215 in H.
  destruct (if x1 <=? 16777215 then _ else _) as [n2 x2]. destruct H as (Hn2 & Hx2 & Hb2). cbn [fst snd] in *.
  pose proof (nlz_test x n2 x2 4 ltac:(lia) ltac:(lia) Hx2 ltac:(lia)) as H. cbv zeta in H.
  change (2 ^ (32 - 4) - 1) with 268435455 in H.
  destruct (if x2 <=? 268435455 then _ else _) as [n3 x3]. destruct H as (Hn3 & Hx3 & Hb3). cbn [fst snd] in *.
  pose proof (nlz_test x n3 x3 2 ltac:(lia) ltac:(lia) Hx3 ltac:(lia)) as H. cbv zeta in H.
  change (2 ^ (32 - 2) - 1) with 1073741823 in H.
  destruct (if x3 <=? 1073741823 then _ else _) as [n4 x4]. destruct H as (Hn4 & Hx4 & Hb4). cbn [fst snd] in *.
  pose proof (nlz_test x n4 x4 1 ltac:(lia) ltac:(lia) Hx4 ltac:(lia)) as H. cbv zeta in H.
  change (2 ^ (32 - 1) - 1) with 2147483647 in H. destruct (x4 <=? 2147483647); cbn [fst snd] in H.
  - destruct H as (_ & H2 & H3). rewrite <-H2. change (2 ^ 31) with (2 ^ (32 - 1)). lia.
  - destruct H as (_ & H2 & H3). rewrite <-H2. change (2 ^ 31) with (2 ^ (32 - 1)). lia.
Qed.

Lemma shiftr_div x k : 0 ≤ k → Z.shiftr x k = x `div` 2 ^ k.
Proof. apply Z.shiftr_div_pow2. Qed.

(** The short divisor: schoolbook division with two digits. *)
Lemma udiv64_short n d : 0 ≤ n < 2 ^ 64 → 0 < d < 2 ^ 32 → udiv64 n d = Ok (n `div` d).
Proof.
  intros Hn Hd. unfold udiv64. rewrite shiftr_div, (Z.div_small d (2 ^ 32)) by lia. simpl (0 =? 0). cbv iota zeta.
  rewrite shiftr_div by lia. set (n1 := n `div` 2 ^ 32). set (n0 := u32 n).
  pose proof (Z.div_mod n (2 ^ 32) ltac:(lia)) as Hdm. fold n1 in Hdm. unfold u32 in n0. fold n0 in Hdm.
  assert (0 ≤ n0 < 2 ^ 32) as Hn0 by (apply Z.mod_pos_bound; lia).
  assert (0 ≤ n1 < 2 ^ 32) as Hn1.
  { split; [apply Z.div_pos; lia|]. apply Z.div_lt_upper_bound; lia. }
  rewrite (u32_small n1), (u32_small d) by lia. rewrite (proj2 (Z.eqb_neq d 0)) by lia.
  pose proof (Z.mod_pos_bound n1 d ltac:(lia)) as Hr. pose proof (Z.div_mod n1 d ltac:(lia)) as Hq.
  set (r := n1 `mod` d) in *. set (q1 := n1 `div` d) in *.
  assert (0 ≤ q1) by (apply Z.div_pos; lia). assert (q1 ≤ n1) by (apply Z.div_le_upper_bound; nia).
  rewrite (u64_small (2 ^ 32 * r)) by lia. rewrite (u64_small (2 ^ 32 * r + n0)) by lia.
  rewrite divl_ok by (try lia; apply Z.div_lt_upper_bound; nia). simpl. f_equal.
  set (q0 := (2 ^ 32 * r + n0) `div` d).
  assert (n `div` d = q0 + 2 ^ 32 * q1) as E.
  { unfold q0. rewrite <-Z.div_add by lia. f_equal. nia. }
  assert (0 ≤ q0) by (apply Z.div_pos; lia).
  assert (n `div` d < 2 ^ 64) by (apply Z.div_lt_upper_bound; nia).
  change (Z.pow_pos 2 32) with (2 ^ 32). rewrite (u64_small (2 ^ 32 * q1)) by lia. rewrite u64_small by lia. lia.
Qed.

(** The long divisor: the quotient estimated from the leading 32 bits of the
    divisor is right or one too large. *)
Lemma estimate_bound n d v E :
  0 ≤ n < 2 ^ 64 → 2 ^ 31 ≤ v → 2 ≤ E → v * E ≤ d < v * E + E → 2 ^ 32 ≤ d → E = 2 ∨ 4 ≤ E →
  n `div` d ≤ n `div` (v * E) ≤ n `div` d + 1.
Proof.
  intros Hn Hv HE Hd Hd32 HE4. set (d' := v * E) in *. assert (0 < d') by (subst d'; nia).
  pose proof (Z.div_mod n d ltac:(lia)) as Hdm. pose proof (Z.mod_pos_bound n d ltac:(lia)).
  set (q := n `div` d) in *. assert (0 ≤ q) by (apply Z.div_pos; lia). split.
  - apply Z.div_le_lower_bound; [lia|]. nia.
  - assert (n `div` d' < q + 2); [|lia]. apply Z.div_lt_upper_bound; [lia|].
    assert ((q + 1) * (d - d') ≤ d'); [|nia]. destruct HE4 as [->|HE4].
    + assert (q < 2 ^ 32) by nia. assert (d - d' ≤ 1) by (subst d'; lia). nia.
    + assert (q * E < 2 ^ 33) by (subst d'; nia). assert (q + 1 ≤ v) by nia. subst d'. nia.
Qed.

Lemma udiv64_long n d : 0 ≤ n < 2 ^ 64 → 2 ^ 32 ≤ d < 2 ^ 64 → udiv64 n d = Ok (n `div` d).
Proof.
  intros Hn Hd. unfold udiv64. rewrite !shiftr_div by lia.
  assert (1 ≤ d `div` 2 ^ 32 < 2 ^ 32) as Hd1.
  { split; [apply Z.div_le_lower_bound; lia|apply Z.div_lt_upper_bound; lia]. }
  rewrite (proj2 (Z.eqb_neq (d `div` 2 ^ 32) 0)) by lia.
  destruct (Z.ltb_spec n d) as [|Hnd]; [by rewrite Z.div_small by lia|].
  rewrite (u32_small (d `div` 2 ^ 32)) by lia. cbv zeta.
  destruct (nlz_spec (d `div` 2 ^ 32) ltac:(lia)) as [Hs Hpow]. set (s := nlz (d `div` 2 ^ 32)) in *.
  assert (0 < 2 ^ s) as Hps by (apply Z.pow_pos_nonneg; lia).
  pose proof (Z.div_mod d (2 ^ 32) ltac:(lia)) as Hdm. pose proof (Z.mod_pos_bound d (2 ^ 32) ltac:(lia)).
  set (d1 := d `div` 2 ^ 32) in *.
  set (E := 2 ^ (32 - s)).
  assert (2 ^ 32 = 2 ^ s * E) as HE by (subst E; rewrite <-Z.pow_add_r by lia; f_equal; lia).
  assert (0 ≤ d * 2 ^ s < 2 ^ 64) as Hds.
  { assert (d1 + 1 ≤ E) by nia. assert (d < (d1 + 1) * 2 ^ 32) by lia.
    assert ((d1 + 1) * 2 ^ s ≤ 2 ^ 32) by nia. nia. }
  rewrite Z.shiftl_mul_pow2 by lia. rewrite (u64_small (d * 2 ^ s)) by lia.
  set (v := (d * 2 ^ s) `div` 2 ^ 32).
  pose proof (Z.div_mod (d * 2 ^ s) (2 ^ 32) ltac:(lia)) as Hv. pose proof (Z.mod_pos_bound (d * 2 ^ s) (2 ^ 32) ltac:(lia)).
  fold v in Hv. assert (2 ^ 31 ≤ v < 2 ^ 32) as Hvr.
  { split; [apply Z.div_le_lower_bound; nia|apply Z.div_lt_upper_bound; lia]. }
  rewrite (u32_small v) by lia.
  assert (n `div` 2 ^ 1 `div` v < 2 ^ 32) as Hq1.
  { assert (n `div` 2 ^ 1 < 2 ^ 63) by (apply Z.div_lt_upper_bound; lia).
    apply Z.div_lt_upper_bound; [lia|]. nia. }
  rewrite divl_ok by lia. cbv beta iota zeta delta [mbind res_bind].
  rewrite shiftr_div by lia.
  assert (E = 2 * 2 ^ (31 - s)) as HE2.
  { subst E. replace (32 - s) with (Z.succ (31 - s)) by lia. by rewrite Z.pow_succ_r by lia. }
  assert (0 < 2 ^ (31 - s)) by (apply Z.pow_pos_nonneg; lia).
  assert (n `div` 2 ^ 1 `div` v `div` 2 ^ (31 - s) = n `div` (v * E)) as ->.
  { rewrite !Z.div_div by lia. f_equal. lia. }
  assert (E = 2 ∨ 4 ≤ E) as HE4.
  { destruct (decide (s = 31)) as [->|]; [left; done|right].
    assert (2 ^ 2 ≤ E); [|lia]. subst E. apply Z.pow_le_mono_r; lia. }
  destruct (estimate_bound n d v E) as [Hlo Hhi]; [done|lia|lia| |lia|done|].
  { assert (v * E * 2 ^ s ≤ d * 2 ^ s) by nia. assert (d * 2 ^ s < (v * E + E) * 2 ^ s) by nia.
    split; [by apply (Z.mul_le_mono_pos_r _ _ (2 ^ s))|by apply (Z.mul_lt_mono_pos_r (2 ^ s))]. }
  set (q := n `div` (v * E)) in *. set (Q := n `div` d) in *.
  pose proof (Z.div_mod n d ltac:(lia)) as HQ. pose proof (Z.mod_pos_bound n d ltac:(lia)). fold Q in HQ.
  assert (1 ≤ Q) by (apply Z.div_le_lower_bound; lia). assert (Q < 2 ^ 32) by (apply Z.div_lt_upper_bound; lia).
  rewrite (u64_small (q - 1)) by lia. rewrite (u64_small ((q - 1) * d)) by nia.
  rewrite (u64_small (n - (q - 1) * d)) by nia.
  f_equal. destruct (Z.ltb_spec (n - (q - 1) * d) d); nia.
Qed.

Lemma udiv64_ok n d : 0 ≤ n < 2 ^ 64 → 0 < d < 2 ^ 64 → udiv64 n d = Ok (n `div` d).
Proof.
  intros Hn Hd. destruct (Z.lt_ge_cases d (2 ^ 32)); [apply udiv64_short|apply udiv64_long]; lia.
Qed.

Lemma u64_neg n : - 2 ^ 63 ≤ n < 0 → u64 (- n) = - n.
Proof. intros. by apply u64_small; lia. Qed.

(** C38: unsigned 64-bit division is exact: for every dividend and every nonzero
    divisor, of any size, the DIVL instruction never traps and the result is the
    quotient rounded down.  Division by zero traps. *)
Theorem udivdi3_correct n d :
  0 ≤ n < 2 ^ 64 → 0 ≤ d < 2 ^ 64 →
  __udivdi3 n d = if decide (d = 0) then Err EPanic else Ok (n `div` d).
Proof.
  intros Hn Hd. unfold __udivdi3. case_decide as E; [by subst d|]. apply udiv64_ok; lia.
Qed.

Lemma udivdi3_correct_witness :
  __udivdi3 18446744073709551615 4294967297 = Ok (18446744073709551615 `div` 4294967297).
Proof. apply (udivdi3_correct 18446744073709551615 4294967297); lia. Defined.

(** Signed 64-bit division truncates toward zero like C's [/]; the only
    quotient that does not fit, -2^63 / -1, wraps around to -2^63. *)
Theorem divdi3_correct n d :
  - 2 ^ 63 ≤ n < 2 ^ 63 → - 2 ^ 63 ≤ d < 2 ^ 63 → d ≠ 0 →
  __divdi3 n d = Ok (if decide (n = - 2 ^ 63 ∧ d = -1) then - 2 ^ 63 else n `quot` d).
Proof.
  intros Hn Hd Hd0. unfold __divdi3, sdiv64.
  assert ((if 0 <=? n then n else u64 (- n)) = Z.abs n) as ->.
  { destruct (Z.leb_spec 0 n); [lia|]. rewrite u64_neg; lia. }
  assert ((if 0 <=? d then d else u64 (- d)) = Z.abs d) as ->.
  { destruct (Z.leb_spec 0 d); [lia|]. rewrite u64_neg; lia. }
  rewrite udiv64_ok by lia. cbn [mbind res_bind]. f_equal.
  set (q := Z.abs n `div` Z.abs d).
  assert (0 ≤ q ≤ Z.abs n) as Hq.
  { split; [apply Z.div_pos; lia|]. apply Z.div_le_upper_bound; [lia|]. nia. }
  assert (n `quot` d = if eqb (n <? 0) (d <? 0) then q else - q) as Hquot.
  { rewrite Z.quot_div by done. fold q.
    destruct (Z.ltb_spec n 0), (Z.ltb_spec d 0); simpl; destruct (decide (n = 0)) as [->|];
      rewrite ?(Z.sgn_pos n), ?(Z.sgn_neg n), ?(Z.sgn_pos d), ?(Z.sgn_neg d) by lia; try lia;
      simpl; unfold q; rewrite ?Z.div_0_l by lia; lia. }
  destruct (decide (q = 2 ^ 63)) as [Hqm|Hqm].
  - assert (n = - 2 ^ 63 ∧ Z.abs d = 1) as [-> Hd1].
    { assert (Z.abs n = 2 ^ 63) by lia. split; [lia|].
      destruct (decide (Z.abs d = 1)); [done|]. exfalso.
      assert (q ≤ Z.abs n `div` 2); [|assert (Z.abs n `div` 2 < 2 ^ 63) by (apply Z.div_lt_upper_bound; lia); lia].
      apply Z.div_le_compat_l; lia. }
    assert (d = 1 ∨ d = -1) as [->| ->] by lia; vm_compute; reflexivity.
  - rewrite decide_False.
    + rewrite Hquot. destruct (eqb (n <? 0) (d <? 0)); rewrite ?(s64_small q) by lia; [done|].
      by rewrite s64_small by lia.
    + intros [-> ->]. apply Hqm. reflexivity.
Qed.

Lemma divdi3_correct_witness : __divdi3 (-7) 2 = Ok (-3) ∧ __divdi3 (- 2 ^ 63) (-1) = Ok (- 2 ^ 63).
Proof.
  split; [apply (divdi3_correct (-7) 2)|apply (divdi3_correct (- 2 ^ 63) (-1))]; lia.
Defined.

(** The remainder functions go through a 32-bit result: they deliver the
    remainder modulo 2^32. *)
Lemma umoddi3_low n d :
  0 ≤ n < 2 ^ 64 → 0 < d < 2 ^ 64 → __umoddi3 n d = Ok (u32 (n `mod` d)).
Proof.
  intros Hn Hd. unfold __umoddi3, umod64. rewrite udiv64_ok by lia. cbn [mbind res_bind]. do 2 f_equal.
  pose proof (Z.div_mod n d ltac:(lia)). pose proof (Z.mod_pos_bound n d ltac:(lia)).
  assert (0 ≤ n `div` d) by (apply Z.div_pos; lia). rewrite (u64_small (d * _)) by nia. rewrite u64_small; nia.
Qed.
Lemma umoddi3_wrong : __umoddi3 4294967296 8589934592 = Ok 0 ∧ 4294967296 `mod` 8589934592 = 4294967296.
Proof. split; vm_compute; reflexivity. Qed.
