(* ===== verification/Hash.v ===== *)
(** * lib/kernel/hash.c: chained hash tables

    A table is its counts and its buckets; a bucket is a list of elements (the
    list operations are those of KList.v, used here by their meaning).  Elements
    are addresses, not null.  The hash and comparison functions are parameters;
    whether [malloc] succeeds in [rehash] is an argument. *)
From S2P Require Import Prelude ListSpec Mem.
Local Open Scope Z_scope.

Record hash := Hash { elem_cnt : Z; bucket_cnt : Z; buckets : list (list Z) }.

Section hash_table.
Context (hash_func : Z → Z) (less : Z → Z → bool).
Implicit Types (h : hash) (e : Z).

(** [h->hash (e, h->aux) & (h->bucket_cnt - 1)]. *)
Definition bucket_idx h e : nat := Z.to_nat (Z.land (hash_func e) (bucket_cnt h - 1)).
Definition find_bucket h e : list Z := default [] (buckets h !! bucket_idx h e).

(** The comparison of [find_elem]. *)
Definition equal (a b : Z) : bool := negb (less a b) && negb (less b a).
Fixpoint find_elem (bucket : list Z) e : option Z :=
  match bucket with
  | [] => None
  | hi :: r => if equal hi e then Some hi else find_elem r e
  end.

Definition turn_off_least_1bit (x : Z) : Z := Z.land x (x - 1).
Definition is_power_of_2 (x : Z) : bool := negb (x =? 0) && (turn_off_least_1bit x =? 0).

Fixpoint power_loop (fuel : nat) (x : Z) : option Z :=
  match fuel with
  | O => None
  | S n => if negb (is_power_of_2 x) then power_loop n (turn_off_least_1bit x) else Some x
  end.

Definition BEST_ELEMS_PER_BUCKET : Z := 2.
(** The number of buckets for [n] elements. *)
Definition new_bucket_cnt (n : Z) : option Z :=
  let c := n `div` BEST_ELEMS_PER_BUCKET in
  let c := if c <? 4 then 4 else c in
  power_loop (S (Z.to_nat c)) c.

(** [list_push_front] into the bucket of [e]. *)
Definition push_elem h e : hash :=
  Hash (elem_cnt h) (bucket_cnt h)
    (<[bucket_idx h e := e :: find_bucket h e]> (buckets h)).

Definition rehash (malloc_ok : bool) h : res hash :=
  match new_bucket_cnt (elem_cnt h) with
  | None => Err EFuel
  | Some n =>
      if n =? bucket_cnt h then Ok h
      else if negb malloc_ok then Ok h
      else Ok (fold_left push_elem (concat (buckets h))
                 (Hash (elem_cnt h) n (replicate (Z.to_nat n) [])))
  end.

Definition insert_elem h e : hash :=
  push_elem (Hash (u32 (elem_cnt h + 1)) (bucket_cnt h) (buckets h)) e.
Definition remove_elem h e : hash :=
  Hash (u32 (elem_cnt h - 1)) (bucket_cnt h) (filter (λ x, x ≠ e) <$> buckets h).

(** [hash_clear]: the elements given to the destructor, in order. *)
Definition hash_clear (destructor : bool) h : list Z * hash :=
  (if destructor then concat (buckets h) else [],
   Hash 0 (bucket_cnt h) ((λ _, []) <$> buckets h)).

(** [hash_init], given whether [malloc] succeeded (the array has arbitrary
    contents before it is cleared). *)
Definition hash_init (malloc_ok : bool) : option hash :=
  if malloc_ok then Some (hash_clear false (Hash 0 4 (replicate 4 []))).2 else None.

(** [hash_destroy] leaves no table. *)
Definition hash_destroy (destructor : bool) h : list Z :=
  if destructor then (hash_clear true h).1 else [].

Definition hash_insert (malloc_ok : bool) h (new : Z) : res (option Z * hash) :=
  let old := find_elem (find_bucket h new) new in
  let h := match old with None => insert_elem h new | Some _ => h end in
  match rehash malloc_ok h with Ok h => Ok (old, h) | Err x => Err x end.

Definition hash_replace (malloc_ok : bool) h (new : Z) : res (option Z * hash) :=
  let old := find_elem (find_bucket h new) new in
  let h := match old with Some o => remove_elem h o | None => h end in
  match rehash malloc_ok (insert_elem h new) with Ok h => Ok (old, h) | Err x => Err x end.

Definition hash_find h e : option Z := find_elem (find_bucket h e) e.

Definition hash_delete (malloc_ok : bool) h e : res (option Z * hash) :=
  let found := find_elem (find_bucket h e) e in
  match found with
  | Some f => match rehash malloc_ok (remove_elem h f) with Ok h => Ok (found, h) | Err x => Err x end
  | None => Ok (None, h)
  end.

Definition hash_size h : Z := elem_cnt h.
Definition hash_empty h : bool := elem_cnt h =? 0.

(** [hash_apply]: the elements it calls the action for, in order. *)
Definition hash_apply h : list Z := concat (buckets h).

(** ** Iteration

    An iterator points to a bucket and, in it, to the header (before the first
    element), to an element, or to nothing. *)
Inductive cursor := CHead | CElem (e : Z) | CNull.
Record hash_iterator := Iter { i_bucket : nat; i_elem : cursor }.

Definition hash_first : hash_iterator := Iter 0 CHead.

(** [list_next] of the cursor's element within its bucket; none at the end. *)
Fixpoint after_elem (xs : list Z) (e : Z) : option (list Z) :=
  match xs with
  | [] => None
  | x :: r => if decide (x = e) then Some r else after_elem r e
  end.

(** The [while] of [hash_next], with the buckets from [b] on. *)
Fixpoint next_bucket (b : nat) (bs : list (list Z)) : hash_iterator :=
  match bs with
  | [] => Iter b CNull
  | (x :: _) :: _ => Iter b (CElem x)
  | [] :: r => next_bucket (S b) r
  end.

Definition hash_next h (i : hash_iterator) : res hash_iterator :=
  let here := default [] (buckets h !! i_bucket i) in
  match (match i_elem i with CHead => Some here | CElem e => after_elem here e | CNull => None end) with
  | None => Err EFault
  | Some (x :: _) => Ok (Iter (i_bucket i) (CElem x))
  | Some [] => Ok (next_bucket (S (i_bucket i)) (drop (S (i_bucket i)) (buckets h)))
  end.

Definition hash_cur (i : hash_iterator) : cursor := i_elem i.

(** The loop of the comment of [hash_first]. *)
Fixpoint hash_iterate (fuel : nat) h (i : hash_iterator) : res (list Z) :=
  match fuel with
  | O => Err EFuel
  | S n =>
      match hash_next h i with
      | Err x => Err x
      | Ok i' =>
          match hash_cur i' with
          | CElem e => match hash_iterate n h i' with Ok es => Ok (e :: es) | Err x => Err x end
          | _ => Ok []
          end
      end
  end.
End hash_table.

(** ** Hash functions: Fowler-Noll-Vo *)
Definition FNV_32_PRIME : Z := 16777619.
Definition FNV_32_BASIS : Z := 2166136261.
Definition fnv_step (hash b : Z) : Z := Z.lxor (u32 (hash * FNV_32_PRIME)) b.

Definition hash_bytes (buf_ size : Z) : M mem Z :=
  ASSERT (negb (buf_ =? 0)) ;;
  loop (S (Z.to_nat size)) (λ '(hash, buf, size),
    if 0 <? size then b ← load buf; mret (inl (fnv_step hash b, buf + 1, size - 1))
    else mret (inr hash)) (FNV_32_BASIS, buf_, size).

Definition hash_string (s_ : Z) : M mem Z :=
  ASSERT (negb (s_ =? 0)) ;;
  scan (λ '(hash, s),
    b ← load s;
    if negb (b =? 0) then mret (inl (fnv_step hash b, s + 1)) else mret (inr hash)) (FNV_32_BASIS, s_).

(** The four bytes of an [int]. *)
Definition hash_int (i : Z) : Z :=
  fold_left fnv_step ((λ k, Z.shiftr (u32 i) (8 * k) `mod` 256) <$> [0; 1; 2; 3]) FNV_32_BASIS.
