(* ===== verification/HashFacts.v ===== *)
(** * Facts about the hash tables of Hash.v

    The invariant of a table (a power of two of buckets, every element in the
    bucket its hash selects, no two equal elements, an exact count), and what
    each operation does to the set of elements. *)
From S2P Require Import Prelude ListSpec Mem Hash.
Local Open Scope Z_scope.

(** ** The number of buckets *)
Section power_of_two.
Implicit Types (x k : Z).

Lemma ones_eq k : Z.ones k = 2 ^ k - 1.
Proof. rewrite Z.ones_equiv. lia. Qed.

Lemma turn_off_keeps x k :
  0 ≤ k → 2 ^ k ≤ x < 2 ^ (k + 1) → x ≠ 2 ^ k →
  2 ^ k ≤ turn_off_least_1bit x < x.
Proof.
  intros Hk Hx Hne. unfold turn_off_least_1bit.
  assert (Hp : 0 < 2 ^ k) by lia. rewrite Z.pow_add_r, Z.pow_1_r in Hx by lia.
  assert (Hbit : ∀ y, 2 ^ k ≤ y < 2 ^ k * 2 → Z.testbit y k = true).
  { intros y Hy. rewrite Z.testbit_true by lia.
    replace (y `div` 2 ^ k) with 1; [done|].
    apply (Z.div_unique _ _ 1 (y - 2 ^ k)); lia. }
  assert (Hle : Z.land x (x - 1) ≤ x - 1).
  { assert (x - 1 - Z.land x (x - 1) = Z.ldiff (x - 1) (Z.land x (x - 1))).
    { apply Z.sub_nocarry_ldiff, Z.bits_inj'. intros i _.
      rewrite Z.bits_0, Z.ldiff_spec, Z.land_spec.
      by destruct (Z.testbit (x - 1) i), (Z.testbit x i). }
    pose proof (proj2 (Z.ldiff_nonneg (x - 1) (Z.land x (x - 1)))). lia. }
  split; [|lia].
  destruct (Z.le_gt_cases (2 ^ k) (Z.land x (x - 1))) as [|Hlt]; [done|exfalso].
  assert (0 ≤ Z.land x (x - 1)) by (apply Z.land_nonneg; lia).
  assert (Hb : Z.testbit (Z.land x (x - 1)) k = true)
    by (rewrite Z.land_spec, !Hbit by lia; done).
  rewrite Z.testbit_true, Z.div_small in Hb by lia. done.
Qed.

Lemma turn_off_pow k : 0 ≤ k → turn_off_least_1bit (2 ^ k) = 0.
Proof.
  intros Hk. unfold turn_off_least_1bit.
  rewrite <- (ones_eq k), Z.land_ones by done.
  apply Z_mod_same_full.
Qed.

Lemma is_power_of_2_iff x k :
  0 ≤ k → 2 ^ k ≤ x < 2 ^ (k + 1) → is_power_of_2 x = true ↔ x = 2 ^ k.
Proof.
  intros Hk Hx. unfold is_power_of_2. rewrite andb_true_iff, negb_true_iff, Z.eqb_neq, Z.eqb_eq.
  split; [|intros ->; split; [lia|by apply turn_off_pow]].
  intros [_ H0]. destruct (decide (x = 2 ^ k)) as [|Hne]; [done|].
  pose proof (turn_off_keeps x k Hk Hx Hne). lia.
Qed.

Lemma power_loop_spec fuel x k :
  0 ≤ k → 2 ^ k ≤ x < 2 ^ (k + 1) → (Z.to_nat x < fuel)%nat →
  power_loop fuel x = Some (2 ^ k).
Proof.
  revert x. induction fuel as [|n IH]; intros x Hk Hx Hf; [lia|]. cbn [power_loop].
  destruct (is_power_of_2 x) eqn:E; cbn [negb].
  - apply (is_power_of_2_iff x k) in E as ->; done.
  - assert (Hne : x ≠ 2 ^ k).
    { intros Heq. apply (is_power_of_2_iff x k) in Heq; congruence. }
    pose proof (turn_off_keeps x k Hk Hx Hne). apply IH; lia.
Qed.

(** The bucket count is the power of two at or below half the elements, and
    four at least. *)
Lemma new_bucket_cnt_spec n :
  0 ≤ n → new_bucket_cnt n = Some (2 ^ Z.log2 (Z.max 4 (n `div` 2))).
Proof.
  intros Hn. unfold new_bucket_cnt, BEST_ELEMS_PER_BUCKET.
  replace (if n `div` 2 <? 4 then 4 else n `div` 2) with (Z.max 4 (n `div` 2))
    by (destruct (Z.ltb_spec (n `div` 2) 4); lia).
  apply power_loop_spec; [apply Z.log2_nonneg|apply Z.log2_spec; lia|lia].
Qed.

Lemma land_pow a k : 0 ≤ k → Z.land a (2 ^ k - 1) = a `mod` 2 ^ k.
Proof. intros. by rewrite <- (ones_eq k), Z.land_ones. Qed.
End power_of_two.

(** ** Tables *)
Section facts.
Context (hash_func : Z → Z) (less : Z → Z → bool) `{!StrictWeakOrder less}.
(** Elements that compare equal hash to the same value. *)
Hypothesis hash_equal : ∀ a b, equal less a b = true → hash_func a = hash_func b.
Implicit Types (h : hash) (e x : Z).

Definition elems h : list Z := concat (buckets h).

Record wf h : Prop := {
  wf_pow : ∃ k, 2 ≤ k ∧ bucket_cnt h = 2 ^ k;
  wf_len : Z.of_nat (length (buckets h)) = bucket_cnt h;
  wf_place : ∀ i b e, buckets h !! i = Some b → e ∈ b → bucket_idx hash_func h e = i;
  wf_nodup : NoDup (elems h);
  wf_distinct : ∀ a b, a ∈ elems h → b ∈ elems h → equal less a b = true → a = b;
  wf_cnt : elem_cnt h = Z.of_nat (length (elems h));
}.

Lemma equal_refl a : equal less a a = true.
Proof.
  unfold equal. destruct (less a a) eqn:E; [|done].
  by pose proof (swo_asym _ _ E); congruence.
Qed.
Lemma equal_sym a b : equal less a b = equal less b a.
Proof. unfold equal. by rewrite andb_comm. Qed.
Lemma equal_trans a b c :
  equal less a b = true → equal less b c = true → equal less a c = true.
Proof.
  unfold equal. rewrite !andb_true_iff, !negb_true_iff.
  intros [] []. split; eapply swo_ntrans; eauto.
Qed.

Lemma elem_of_elems h e : e ∈ elems h ↔ ∃ i b, buckets h !! i = Some b ∧ e ∈ b.
Proof.
  unfold elems. rewrite list_elem_of_In, in_concat. split.
  - intros (b & Hb & He). apply list_elem_of_In, list_elem_of_lookup in Hb as [i Hi].
    exists i, b. by rewrite list_elem_of_In.
  - intros (i & b & Hi & He). exists b. split; apply list_elem_of_In; [|done].
    by eapply list_elem_of_lookup_2.
Qed.

Lemma bucket_idx_lt h e : wf h → (bucket_idx hash_func h e < length (buckets h))%nat.
Proof.
  intros [(k & Hk & Hc) Hl _ _ _ _]. unfold bucket_idx. rewrite Hc, land_pow by lia.
  pose proof (Z.mod_pos_bound (hash_func e) (2 ^ k)). lia.
Qed.

Lemma find_bucket_lookup h e :
  wf h → buckets h !! bucket_idx hash_func h e = Some (find_bucket hash_func h e).
Proof.
  intros Hwf. unfold find_bucket. destruct (lookup_lt_is_Some_2 (buckets h) (bucket_idx hash_func h e))
    as [b ->]; [by apply bucket_idx_lt|done].
Qed.

Lemma find_elem_some b e x :
  find_elem less b e = Some x → x ∈ b ∧ equal less x e = true.
Proof.
  induction b as [|y b IH]; simpl; [done|].
  destruct (equal less y e) eqn:E; [intros [= ->]; split; [left|done]|].
  intros [? ?]%IH. split; [by right|done].
Qed.
Lemma find_elem_none b e :
  find_elem less b e = None → ∀ x, x ∈ b → equal less x e = false.
Proof.
  induction b as [|y b IH]; simpl; [intros _ x Hx; by apply not_elem_of_nil in Hx|].
  destruct (equal less y e) eqn:E; [done|].
  intros H x [->|Hx]%elem_of_cons; auto.
Qed.

(** Looking in one bucket is looking in the whole table. *)
Lemma hash_find_some h e x :
  wf h → hash_find hash_func less h e = Some x ↔ x ∈ elems h ∧ equal less x e = true.
Proof.
  intros Hwf. unfold hash_find. split.
  - intros [Hx Heq]%find_elem_some. split; [|done].
    apply elem_of_elems. eexists _, _. split; [by apply (find_bucket_lookup h e)|done].
  - intros [Hx Heq]. destruct (find_elem _ _ _) as [y|] eqn:E.
    + apply find_elem_some in E as [Hy Heq']. f_equal.
      apply (wf_distinct _ Hwf); [|done|by apply (equal_trans _ e); [|rewrite equal_sym]].
      apply elem_of_elems. eexists _, _. split; [by apply (find_bucket_lookup h e)|done].
    + apply elem_of_elems in Hx as (i & b & Hi & Hx).
      pose proof (wf_place _ Hwf _ _ _ Hi Hx) as Hidx.
      assert (bucket_idx hash_func h x = bucket_idx hash_func h e) as Hsame
        by (unfold bucket_idx; by rewrite (hash_equal _ _ Heq)).
      pose proof (find_bucket_lookup h e Hwf) as Hb.
      rewrite <- Hsame, Hidx, Hi in Hb. injection Hb as ->.
      by rewrite (find_elem_none _ _ E x Hx) in Heq.
Qed.

Lemma hash_find_none h e :
  wf h → hash_find hash_func less h e = None ↔ ∀ x, x ∈ elems h → equal less x e = false.
Proof.
  intros Hwf. split.
  - intros Hn x Hx. destruct (equal less x e) eqn:E; [|done].
    rewrite (proj2 (hash_find_some h e x Hwf) (conj Hx E)) in Hn. done.
  - intros Hall. destruct (hash_find _ _ _ _) as [x|] eqn:E; [|done].
    apply hash_find_some in E as [Hx Heq]; [|done]. rewrite Hall in Heq; done.
Qed.

Lemma concat_insert_perm (bs : list (list Z)) i b e :
  bs !! i = Some b → concat (<[i := e :: b]> bs) ≡ₚ e :: concat bs.
Proof.
  revert i. induction bs as [|c bs IH]; intros [|i]; simpl; try done.
  - by intros [= ->].
  - intros Hi. rewrite (IH i Hi). by rewrite Permutation_middle.
Qed.

(** Pushing an element, on the parts of the invariant it needs; [rehash] also
    pushes into a table that is still being filled. *)
Record placed h : Prop := {
  pl_pow : ∃ k, 2 ≤ k ∧ bucket_cnt h = 2 ^ k;
  pl_len : Z.of_nat (length (buckets h)) = bucket_cnt h;
  pl_place : ∀ i b e, buckets h !! i = Some b → e ∈ b → bucket_idx hash_func h e = i;
}.

Lemma push_elem_spec h e :
  placed h →
  placed (push_elem hash_func h e) ∧ elems (push_elem hash_func h e) ≡ₚ e :: elems h ∧
  elem_cnt (push_elem hash_func h e) = elem_cnt h ∧
  bucket_cnt (push_elem hash_func h e) = bucket_cnt h.
Proof.
  intros [(k & Hk & Hc) Hl Hp].
  assert (Hlt : (bucket_idx hash_func h e < length (buckets h))%nat).
  { unfold bucket_idx. rewrite Hc, land_pow by lia.
    pose proof (Z.mod_pos_bound (hash_func e) (2 ^ k)). lia. }
  destruct (lookup_lt_is_Some_2 _ _ Hlt) as [b Hb].
  assert (Hfb : find_bucket hash_func h e = b) by (unfold find_bucket; by rewrite Hb).
  split_and!; [|by unfold elems, push_elem; cbn [buckets]; rewrite Hfb, (concat_insert_perm _ _ b)|done..].
  split; unfold push_elem; cbn [bucket_cnt buckets]; [by exists k|by rewrite length_insert|].
  intros i c x Hi Hx. change (bucket_idx hash_func h x = i).
  destruct (decide (i = bucket_idx hash_func h e)) as [->|Hne].
  - rewrite list_lookup_insert_eq in Hi by done. injection Hi as <-.
    apply elem_of_cons in Hx as [->|Hx]; [done|]. rewrite Hfb in Hx. eauto.
  - rewrite list_lookup_insert_ne in Hi by done. eauto.
Qed.

Lemma push_all_spec es h :
  placed h →
  placed (fold_left (push_elem hash_func) es h) ∧
  elems (fold_left (push_elem hash_func) es h) ≡ₚ es ++ elems h ∧
  elem_cnt (fold_left (push_elem hash_func) es h) = elem_cnt h.
Proof.
  revert h. induction es as [|e es IH]; intros h Hh; simpl; [done|].
  destruct (push_elem_spec h e Hh) as (Hp & He & Hc & _).
  destruct (IH _ Hp) as (Hp' & He' & Hc'). split_and!; [done| |by rewrite Hc', Hc].
  rewrite He', He. by rewrite Permutation_middle.
Qed.

Lemma wf_intro h :
  placed h → NoDup (elems h) →
  (∀ a b, a ∈ elems h → b ∈ elems h → equal less a b = true → a = b) →
  elem_cnt h = Z.of_nat (length (elems h)) → wf h.
Proof. intros []. by split. Qed.
Lemma wf_placed h : wf h → placed h.
Proof. intros []. by split. Qed.

Lemma elems_empty n : concat (replicate n (@nil Z)) = [].
Proof. by induction n. Qed.

(** [rehash] keeps the elements, whether or not there is memory for it. *)
Lemma rehash_spec ok h :
  wf h → ∃ h', rehash hash_func ok h = Ok h' ∧ wf h' ∧ elems h' ≡ₚ elems h.
Proof.
  intros Hwf. unfold rehash. rewrite new_bucket_cnt_spec by (rewrite (wf_cnt _ Hwf); lia).
  set (n := 2 ^ _). destruct (n =? bucket_cnt h); [by exists h|].
  destruct ok; cbn [negb]; [|by exists h].
  set (h0 := Hash (elem_cnt h) n (replicate (Z.to_nat n) [])).
  assert (Hlog : 2 ≤ Z.log2 (Z.max 4 (elem_cnt h `div` 2)))
    by (apply (Z.log2_le_mono 4 (Z.max 4 _)); lia).
  assert (H0 : placed h0).
  { split; cbn [h0 bucket_cnt buckets]; [by eexists|rewrite length_replicate; unfold n; lia|].
    intros i b e [-> _]%lookup_replicate He. by apply not_elem_of_nil in He. }
  destruct (push_all_spec (elems h) h0 H0) as (Hp & He & Hc).
  eexists. split; [done|]. change (concat (buckets h)) with (elems h).
  change (elems h0) with (concat (replicate (Z.to_nat n) (@nil Z))) in He.
  rewrite elems_empty, app_nil_r in He.
  split; [|done]. apply wf_intro; [done|rewrite He; apply (wf_nodup _ Hwf)| |].
  - intros a b. rewrite !He. apply (wf_distinct _ Hwf).
  - by rewrite Hc, He, <- (wf_cnt _ Hwf).
Qed.

Lemma insert_elem_spec h e :
  wf h → elem_cnt h < 2 ^ 32 - 1 → (∀ x, x ∈ elems h → equal less x e = false) →
  wf (insert_elem hash_func h e) ∧ elems (insert_elem hash_func h e) ≡ₚ e :: elems h.
Proof.
  intros Hwf Hlt Hnew. unfold insert_elem.
  set (h1 := Hash _ _ _).
  destruct (push_elem_spec h1 e) as (Hp & He & Hc & _); [by destruct (wf_placed h Hwf)|].
  change (elems h1) with (elems h) in He. split; [|done].
  assert (Hni : e ∉ elems h) by (intros Hin; specialize (Hnew e Hin); by rewrite equal_refl in Hnew).
  apply wf_intro; [done| | |].
  - rewrite He. apply NoDup_cons. split; [done|apply (wf_nodup _ Hwf)].
  - intros a b. rewrite !He, !elem_of_cons. intros [->|Ha] [->|Hb] Heq; [done| | |].
    + rewrite equal_sym in Heq. by rewrite (Hnew b Hb) in Heq.
    + by rewrite (Hnew a Ha) in Heq.
    + by apply (wf_distinct _ Hwf).
  - rewrite Hc, He. cbn [h1 elem_cnt length].
    rewrite u32_small; rewrite (wf_cnt _ Hwf) in *; lia.
Qed.

Lemma concat_filter e (bs : list (list Z)) :
  concat (filter (λ x, x ≠ e) <$> bs) = filter (λ x, x ≠ e) (concat bs).
Proof. induction bs as [|b bs IH]; [done|]. cbn. by rewrite filter_app, IH. Qed.

Lemma remove_elem_spec h e :
  wf h → elem_cnt h < 2 ^ 32 → e ∈ elems h →
  wf (remove_elem h e) ∧ e :: elems (remove_elem h e) ≡ₚ elems h.
Proof.
  intros Hwf Hlt He.
  assert (Hel : elems (remove_elem h e) = filter (λ x, x ≠ e) (elems h)) by apply concat_filter.
  assert (Hperm : e :: elems (remove_elem h e) ≡ₚ elems h).
  { rewrite Hel. apply NoDup_Permutation.
    - apply NoDup_cons. split; [rewrite list_elem_of_filter; naive_solver|].
      apply NoDup_filter, (wf_nodup _ Hwf).
    - apply (wf_nodup _ Hwf).
    - intros x. rewrite elem_of_cons, list_elem_of_filter.
      destruct (decide (x = e)); naive_solver. }
  split; [|done]. split.
  - apply (wf_pow _ Hwf).
  - unfold remove_elem. cbn [buckets bucket_cnt]. rewrite length_fmap. apply (wf_len _ Hwf).
  - intros i b x. unfold remove_elem. cbn [buckets]. rewrite list_lookup_fmap.
    destruct (buckets h !! i) as [c|] eqn:Hi; [|done]. intros [= <-] [_ Hx]%list_elem_of_filter.
    by apply (wf_place _ Hwf i c).
  - rewrite Hel. apply NoDup_filter, (wf_nodup _ Hwf).
  - intros a b. rewrite Hel, !list_elem_of_filter. intros [_ ?] [_ ?]. by apply (wf_distinct _ Hwf).
  - pose proof (Permutation_length Hperm) as Hlen. simpl in Hlen.
    unfold remove_elem; cbn [elem_cnt]. fold (remove_elem h e).
    rewrite u32_small; rewrite (wf_cnt _ Hwf) in *; lia.
Qed.
End facts.
