(* ===== verification/HashProps.v ===== *)
(** * Hash tables: a set of elements, distinct up to the comparison

    [SetSpec] is the contract of hash.h: a table is a set of elements of which
    no two compare equal.  A sequence of operations on a table, with any
    pattern of failing allocations, gives the results the set gives. *)
From S2P Require Import Prelude ListSpec Mem Hash HashFacts.
Local Open Scope Z_scope.

Inductive hop := HInsert (e : Z) | HReplace (e : Z) | HDelete (e : Z) | HFind (e : Z).

Module SetSpec.
Section set_spec.
Context (less : Z → Z → bool).

(** The member of the set that equals [e]. *)
Definition lookup (s : gset Z) (e : Z) : option Z :=
  head (filter (λ x, equal less x e = true) (elements s)).

Definition step (s : gset Z) (o : hop) : option Z * gset Z :=
  match o with
  | HInsert e => (lookup s e, match lookup s e with Some _ => s | None => {[e]} ∪ s end)
  | HReplace e => (lookup s e, {[e]} ∪ match lookup s e with Some x => s ∖ {[x]} | None => s end)
  | HDelete e => (lookup s e, match lookup s e with Some x => s ∖ {[x]} | None => s end)
  | HFind e => (lookup s e, s)
  end.

Fixpoint run (s : gset Z) (os : list (bool * hop)) : list (option Z) * gset Z :=
  match os with
  | [] => ([], s)
  | (_, o) :: os =>
      let '(r, s) := step s o in let '(rs, s) := run s os in (r :: rs, s)
  end.
End set_spec.
End SetSpec.

Section props.
Context (hash_func : Z → Z) (less : Z → Z → bool).

(** The operations of the table; the boolean is the outcome of [malloc] if the
    operation rehashes. *)
Definition hstep (h : hash) (o : bool * hop) : res (option Z * hash) :=
  match o with
  | (ok, HInsert e) => hash_insert hash_func less ok h e
  | (ok, HReplace e) => hash_replace hash_func less ok h e
  | (ok, HDelete e) => hash_delete hash_func less ok h e
  | (_, HFind e) => Ok (hash_find hash_func less h e, h)
  end.
Fixpoint hrun (h : hash) (os : list (bool * hop)) : res (list (option Z) * hash) :=
  match os with
  | [] => Ok ([], h)
  | o :: os =>
      match hstep h o with
      | Err x => Err x
      | Ok (r, h) => match hrun h os with Ok (rs, h) => Ok (r :: rs, h) | Err x => Err x end
      end
  end.

Context `{!StrictWeakOrder less}.
Hypothesis hash_equal : ∀ a b, equal less a b = true → hash_func a = hash_func b.
Abbreviation wf := (wf hash_func less).

(** The table [h] holds the set [s]. *)
Definition holds_set (h : hash) (s : gset Z) : Prop := wf h ∧ list_to_set (elems h) = s.

Lemma lookup_refines h s e : holds_set h s → SetSpec.lookup less s e = hash_find hash_func less h e.
Proof.
  intros [Hwf <-]. unfold SetSpec.lookup.
  assert (Hin : ∀ x, x ∈ filter (λ x, equal less x e = true) (elements (list_to_set (elems h) : gset Z))
                     ↔ x ∈ elems h ∧ equal less x e = true).
  { intros x. rewrite list_elem_of_filter, elem_of_elements, elem_of_list_to_set. tauto. }
  destruct (filter _ _) as [|x l]; simpl; symmetry.
  - apply hash_find_none; [done..|]. intros x Hx. destruct (equal less x e) eqn:E; [|done].
    by destruct (not_elem_of_nil x (proj2 (Hin x) (conj Hx E))).
  - apply hash_find_some; [done..|]. apply Hin. left.
Qed.

Lemma holds_perm h h' s : wf h' → elems h' ≡ₚ elems h → holds_set h s → holds_set h' s.
Proof. intros Hwf' Hp [_ <-]. split; [done|]. by rewrite Hp. Qed.

Lemma rehash_refines ok h s :
  holds_set h s → ∃ h', rehash hash_func ok h = Ok h' ∧ holds_set h' s ∧ elem_cnt h' = elem_cnt h.
Proof.
  intros [Hwf Hs]. destruct (rehash_spec _ _ ok h Hwf) as (h' & -> & Hwf' & Hp).
  exists h'. split_and!; [done|by apply (holds_perm h)|].
  by rewrite (wf_cnt _ _ _ Hwf), (wf_cnt _ _ _ Hwf'), Hp.
Qed.

Lemma insert_refines h s e :
  holds_set h s → elem_cnt h < 2 ^ 32 - 1 → hash_find hash_func less h e = None →
  holds_set (insert_elem hash_func h e) ({[e]} ∪ s) ∧
  elem_cnt (insert_elem hash_func h e) = elem_cnt h + 1.
Proof.
  intros [Hwf <-] Hlt Hn. pose proof (proj1 (hash_find_none _ _ hash_equal h e Hwf) Hn) as Hnew.
  destruct (insert_elem_spec _ _ h e Hwf Hlt Hnew) as [Hwf' Hp].
  split; [split; [done|by rewrite Hp]|].
  rewrite (wf_cnt _ _ _ Hwf), (wf_cnt _ _ _ Hwf'), Hp. simpl. lia.
Qed.

Lemma remove_refines h s e x :
  holds_set h s → elem_cnt h < 2 ^ 32 → hash_find hash_func less h e = Some x →
  holds_set (remove_elem h x) (s ∖ {[x]}) ∧ elem_cnt (remove_elem h x) = elem_cnt h - 1 ∧
  hash_find hash_func less (remove_elem h x) e = None.
Proof.
  intros [Hwf <-] Hlt Hf. apply hash_find_some in Hf as [Hx Heq]; [|done..].
  destruct (remove_elem_spec _ _ h x Hwf Hlt Hx) as [Hwf' Hp].
  pose proof (wf_nodup _ _ _ Hwf) as Hnd. rewrite <- Hp in Hnd.
  apply NoDup_cons in Hnd as [Hni _].
  assert (Hset : list_to_set (elems (remove_elem h x)) = (list_to_set (elems h) : gset Z) ∖ {[x]}).
  { rewrite <- Hp. apply set_eq. intros y. simpl.
    rewrite elem_of_difference, elem_of_union, elem_of_singleton, !elem_of_list_to_set.
    destruct (decide (y = x)) as [->|]; tauto. }
  split_and!; [done| |].
  - rewrite (wf_cnt _ _ _ Hwf), (wf_cnt _ _ _ Hwf'), <- Hp. simpl. lia.
  - apply hash_find_none; [done..|]. intros y Hy. destruct (equal less y e) eqn:E; [|done].
    assert (y = x) as ->; [|done].
    apply (wf_distinct _ _ _ Hwf); [rewrite <- Hp; by right|done|].
    apply (equal_trans _ _ e); [done|by rewrite equal_sym].
Qed.

Lemma step_refines h s ok o :
  holds_set h s → elem_cnt h < 2 ^ 32 - 1 →
  ∃ h', hstep h (ok, o) = Ok ((SetSpec.step less s o).1, h') ∧
    holds_set h' (SetSpec.step less s o).2 ∧ elem_cnt h' ≤ elem_cnt h + 1.
Proof.
  intros Hh Hlt. destruct o as [e|e|e|e]; cbn [hstep SetSpec.step fst snd];
    unfold hash_insert, hash_replace, hash_delete; change (find_elem less (find_bucket hash_func h e) e)
      with (hash_find hash_func less h e); rewrite (lookup_refines h s e Hh);
    [..|exists h; split_and!; [done|done|lia]];
    destruct (hash_find hash_func less h e) as [x|] eqn:Hf.
  - destruct (rehash_refines ok h s Hh) as (h' & -> & ? & ?). exists h'. split_and!; [done|done|lia].
  - destruct (insert_refines h s e Hh Hlt Hf) as [Hh1 Hc1].
    destruct (rehash_refines ok _ _ Hh1) as (h' & -> & ? & ?). exists h'. split_and!; [done|done|lia].
  - destruct (remove_refines h s e x Hh) as (Hh1 & Hc1 & Hf1); [lia|done|].
    destruct (insert_refines _ _ e Hh1) as [Hh2 Hc2]; [lia|done|].
    destruct (rehash_refines ok _ _ Hh2) as (h' & -> & ? & ?). exists h'. split_and!; [done|done|lia].
  - destruct (insert_refines h s e Hh Hlt Hf) as [Hh1 Hc1].
    destruct (rehash_refines ok _ _ Hh1) as (h' & -> & ? & ?). exists h'. split_and!; [done|done|lia].
  - destruct (remove_refines h s e x Hh) as (Hh1 & Hc1 & _); [lia|done|].
    destruct (rehash_refines ok _ _ Hh1) as (h' & -> & ? & ?). exists h'. split_and!; [done|done|lia].
  - exists h. split_and!; [done|done|lia].
Qed.

Lemma run_refines os h s :
  holds_set h s → elem_cnt h + Z.of_nat (length os) < 2 ^ 32 →
  ∃ h', hrun h os = Ok ((SetSpec.run less s os).1, h') ∧ holds_set h' (SetSpec.run less s os).2.
Proof.
  revert h s. induction os as [|[ok o] os IH]; intros h s Hh Hlt; [by exists h|].
  cbn [length] in Hlt. destruct (step_refines h s ok o Hh) as (h1 & E & Hh1 & Hc); [lia|].
  cbn [hrun SetSpec.run]. rewrite E. destruct (SetSpec.step less s o) as [r s1]; cbn [fst snd] in *.
  destruct (IH h1 s1 Hh1) as (h2 & -> & Hh2); [lia|].
  exists h2. by destruct (SetSpec.run less s1 os).
Qed.

Lemma init_holds h : hash_init true = Some h → holds_set h ∅.
Proof.
  intros [= <-]. split; [|done]. apply wf_intro; [|constructor|set_solver|done].
  split; [by exists 2|done|]. intros [|[|[|[|?]]]] b e; simpl; try done;
    intros [= <-] He; by apply not_elem_of_nil in He.
Qed.

(** C24: a table that [hash_init] made is a set of elements no two of which
    compare equal: in any sequence of hash_insert, hash_replace, hash_delete and
    hash_find, under any outcomes of the allocations inside rehash, every call
    returns what the set operation returns, no loop runs forever, and at the end
    the table holds the set's elements, counts them, and is well formed.  The
    comparison function is a strict weak order and equal elements have equal
    hashes. *)
Theorem hash_refines h os :
  hash_init true = Some h → Z.of_nat (length os) < 2 ^ 32 →
  ∃ h', hrun h os = Ok ((SetSpec.run less ∅ os).1, h') ∧
    wf h' ∧ elements (SetSpec.run less ∅ os).2 ≡ₚ hash_apply h' ∧
    hash_size h' = Z.of_nat (size (SetSpec.run less ∅ os).2).
Proof.
  intros Hi Hlen. pose proof (init_holds h Hi) as Hh. injection Hi as <-.
  destruct (run_refines os _ _ Hh) as (h' & E & Hwf & Hs); [done|].
  exists h'. split_and!; [done|done|..]; rewrite <- Hs.
  - apply elements_list_to_set, (wf_nodup _ _ _ Hwf).
  - unfold hash_size. rewrite (wf_cnt _ _ _ Hwf).
    by rewrite size_list_to_set by apply (wf_nodup _ _ _ Hwf).
Qed.

(** ** Iteration *)
Lemma after_elem_app xs e r : e ∉ xs → after_elem (xs ++ e :: r) e = Some r.
Proof.
  induction xs as [|x xs IH]; simpl; [by rewrite decide_True|].
  intros [? ?]%not_elem_of_cons. rewrite decide_False by done. auto.
Qed.

Lemma drop_tail {A} (l : list A) n x r : drop n l = x :: r → drop (S n) l = r.
Proof. intros H. by rewrite <- Nat.add_1_r, <- drop_drop, H. Qed.

(** From any position, the rest of the bucket and the later buckets follow. *)
Lemma iterate_rest n h i rest :
  (i_elem i = CHead ∧ rest = default [] (buckets h !! i_bucket i) ∨
   ∃ e xs, i_elem i = CElem e ∧ buckets h !! i_bucket i = Some (xs ++ e :: rest) ∧ e ∉ xs) →
  (∀ b, b ∈ buckets h → NoDup b) →
  (length (rest ++ concat (drop (S (i_bucket i)) (buckets h))) < n)%nat →
  hash_iterate n h i = Ok (rest ++ concat (drop (S (i_bucket i)) (buckets h))).
Proof.
  revert i rest. induction n as [|n IH]; intros [b c] rest Hi Hnd Hn; [simpl in *; lia|].
  cbn [i_bucket i_elem] in *. cbn [hash_iterate]. unfold hash_next. cbn [i_bucket i_elem].
  assert (Hcur : match c with CHead => Some (default [] (buckets h !! b))
      | CElem e => after_elem (default [] (buckets h !! b)) e | CNull => None end = Some rest).
  { destruct Hi as [[-> ->]|(e & xs & -> & -> & He)]; [done|]. by apply after_elem_app. }
  rewrite Hcur. destruct rest as [|x rest].
  - simpl app in *. clear Hi Hcur.
    assert (Hgo : ∀ bs b, drop b (buckets h) = bs →
      match hash_cur (next_bucket b bs) with
      | CElem e => match hash_iterate n h (next_bucket b bs) with Ok es => Ok (e :: es) | Err x => Err x end
      | _ => Ok []
      end = Ok (concat bs) ∨ (n < length (concat bs))%nat).
    { clear b Hn. induction bs as [|[|y ys] bs IHb]; intros b Hb; simpl; [by left| |].
      - apply IHb. by apply (drop_tail _ _ [] bs).
      - destruct (decide (length (ys ++ concat bs) < n)%nat) as [Hlt|];
          [left|right; simpl in *; lia].
        assert (Hbk : buckets h !! b = Some (y :: ys)) by (by rewrite <- (Nat.add_0_r b), <- lookup_drop, Hb).
        assert (Hbs : drop (S b) (buckets h) = bs) by (by apply (drop_tail _ _ (y :: ys) bs)).
        rewrite (IH (Iter b (CElem y)) ys); cbn [i_bucket i_elem]; rewrite ?Hbs; [done| |done|done].
        right. exists y, []. split_and!; [done|done|apply not_elem_of_nil]. }
    destruct (Hgo _ _ (eq_refl (drop (S b) (buckets h)))) as [->|]; [done|lia].
  - cbn [hash_cur i_elem]. rewrite (IH (Iter b (CElem x)) rest); cbn [i_bucket i_elem];
      [done| |done|simpl in *; lia].
    right. destruct Hi as [[-> Hr]|(e & xs & -> & Hb & He)].
    + exists x, []. destruct (buckets h !! b); simpl in Hr; [subst|done].
      split_and!; [done|done|apply not_elem_of_nil].
    + exists x, (xs ++ [e]). rewrite <- app_assoc. split_and!; [done|done|].
      pose proof (Hnd _ (list_elem_of_lookup_2 _ _ _ Hb)) as Hd.
      apply NoDup_app in Hd as (_ & Hd1 & Hd2%NoDup_cons).
      intros [Hx|Hx%list_elem_of_singleton]%elem_of_app; [apply (Hd1 x Hx); right; left|].
      subst. apply (proj1 Hd2). left.
Qed.

Lemma bucket_nodup (bs : list (list Z)) b : NoDup (concat bs) → b ∈ bs → NoDup b.
Proof.
  induction bs as [|c bs IH]; simpl; [intros _ []%not_elem_of_nil|].
  intros (? & ? & ?)%NoDup_app [->|Hb]%elem_of_cons; auto.
Qed.

(** C40: the iteration idiom of hash.c (hash_first, then hash_next until it
    returns a null pointer) terminates and visits every element of a well-formed
    table exactly once, in the order in which hash_apply calls its action. *)
Theorem hash_iterate_all h :
  wf h →
  hash_iterate (S (Z.to_nat (hash_size h))) h hash_first = Ok (hash_apply h) ∧
  NoDup (hash_apply h) ∧ Z.of_nat (length (hash_apply h)) = hash_size h ∧
  ∀ e, e ∈ hash_apply h ↔ hash_find hash_func less h e = Some e.
Proof.
  intros Hwf. pose proof (wf_cnt _ _ _ Hwf) as Hc. unfold hash_size, hash_apply.
  pose proof (wf_nodup _ _ _ Hwf) as Hnd. unfold elems in *.
  split_and!; [|done|done|].
  - assert (Hcc : concat (buckets h) = default [] (buckets h !! 0%nat) ++ concat (drop 1 (buckets h)))
      by (by destruct (buckets h)).
    rewrite Hcc at 1. apply (iterate_rest _ h hash_first); cbn [hash_first i_bucket i_elem];
      [by left|intros b; by apply bucket_nodup|].
    rewrite <- Hcc. lia.
  - intros e. rewrite (hash_find_some _ _ hash_equal h e e Hwf). unfold elems.
    rewrite (equal_refl less e). tauto.
Qed.
End props.

(** ** Witnesses: elements hashed and compared by their value modulo 100 *)
Definition mod100_less (a b : Z) : bool := a `mod` 100 <? b `mod` 100.
Definition mod100_hash (e : Z) : Z := hash_int (e `mod` 100).

#[global] Instance mod100_swo : StrictWeakOrder mod100_less.
Proof. split; unfold mod100_less; intros *; rewrite ?Z.ltb_lt, ?Z.ltb_ge; lia. Qed.

Lemma mod100_equal a b : equal mod100_less a b = true → mod100_hash a = mod100_hash b.
Proof.
  unfold equal, mod100_less, mod100_hash.
  rewrite andb_true_iff, !negb_true_iff, !Z.ltb_ge. intros. f_equal. lia.
Qed.

Definition some_ops : list (bool * hop) :=
  ((λ k, (true, HInsert (Z.of_nat k))) <$> seq 1 20) ++
  [(false, HInsert 105); (true, HReplace 205); (true, HDelete 7); (true, HFind 307); (true, HFind 305)].

Lemma hash_refines_witness :
  ∃ h h', hash_init true = Some h ∧ hrun mod100_hash mod100_less h some_ops = Ok ((SetSpec.run mod100_less ∅ some_ops).1, h') ∧
    bucket_cnt h' = 8 ∧ hash_size h' = 19.
Proof.
  eexists.
  destruct (hash_refines mod100_hash mod100_less mod100_equal
    (Hash 0 4 [[]; []; []; []]) some_ops) as (h' & E & _); [reflexivity|vm_compute; reflexivity|].
  exists h'. split; [reflexivity|]. split; [exact E|].
  vm_compute in E. injection E as <-. split; reflexivity.
Defined.

Lemma hash_iterate_all_witness :
  hash_iterate 3 (Hash 2 4 [[]; [56]; [101]; []]) hash_first = Ok [56; 101].
Proof.
  refine (proj1 (hash_iterate_all mod100_hash mod100_less mod100_equal (Hash 2 4 [[]; [56]; [101]; []]) _)).
  apply wf_intro.
  - split; [exists 2; split; [lia|reflexivity]|reflexivity|].
    intros [|[|[|[|?]]]] b e; simpl; try done; intros [= <-] He;
      repeat (apply elem_of_cons in He as [->|He]; [vm_compute; reflexivity|]);
      by apply not_elem_of_nil in He.
  - apply (bool_decide_unpack (NoDup [56; 101])). vm_compute. exact I.
  - intros a b Ha Hb. unfold elems in Ha, Hb. simpl in Ha, Hb.
    rewrite !elem_of_cons, elem_of_nil in Ha, Hb.
    destruct Ha as [->|[->|[]]], Hb as [->|[->|[]]]; done.
  - reflexivity.
Defined.
