(* ===== verification/Vaddr.v ===== *)
(** * threads/vaddr.h and threads/pte.h: virtual addresses and page table entries

    Addresses are 32-bit numbers.  The assertions of these inline functions are
    part of them, so they are programs over any state. *)
From S2P Require Import Prelude.
Local Open Scope Z_scope.

Definition BITMASK (SHIFT CNT : Z) : Z := u32 (Z.shiftl (Z.shiftl 1 CNT - 1) SHIFT).
Definition PGSHIFT : Z := 0.
Definition PGBITS : Z := 12.
Definition PGSIZE : Z := Z.shiftl 1 PGBITS.
Definition PGMASK : Z := BITMASK PGSHIFT PGBITS.
Definition PHYS_BASE : Z := 3221225472.

Definition pg_ofs (va : Z) : Z := Z.land va PGMASK.
Definition pg_no (va : Z) : Z := Z.shiftr va PGBITS.
Definition pg_round_up (va : Z) : Z := Z.land (u32 (va + PGSIZE - 1)) (u32 (Z.lnot PGMASK)).
Definition pg_round_down (va : Z) : Z := Z.land va (u32 (Z.lnot PGMASK)).
Definition is_user_vaddr (vaddr : Z) : bool := vaddr <? PHYS_BASE.
Definition is_kernel_vaddr (vaddr : Z) : bool := PHYS_BASE <=? vaddr.

Definition ptov {S} (paddr : Z) : M S Z :=
  ASSERT (paddr <? PHYS_BASE) ;; mret (u32 (paddr + PHYS_BASE)).
Definition vtop {S} (vaddr : Z) : M S Z :=
  ASSERT (is_kernel_vaddr vaddr) ;; mret (u32 (vaddr - PHYS_BASE)).

(** ** Segment selectors of threads/loader.h and userprog/gdt.h *)
Definition SEL_NULL : Z := 0.
Definition SEL_KCSEG : Z := 8.
Definition SEL_KDSEG : Z := 16.
Definition SEL_UCSEG : Z := 27.
Definition SEL_UDSEG : Z := 35.
Definition SEL_TSS : Z := 40.

(** ** Page table entries *)
Definition PTSHIFT : Z := PGBITS.
Definition PTBITS : Z := 10.
Definition PTMASK : Z := BITMASK PTSHIFT PTBITS.
Definition PDSHIFT : Z := PTSHIFT + PTBITS.
Definition PTE_ADDR : Z := 4294963200.
Definition PTE_P : Z := 1.
Definition PTE_W : Z := 2.
Definition PTE_U : Z := 4.
Definition PTE_A : Z := 32.
Definition PTE_D : Z := 64.

Definition pt_no (va : Z) : Z := Z.shiftr (Z.land va PTMASK) PTSHIFT.
Definition pd_no (va : Z) : Z := Z.shiftr va PDSHIFT.

Definition pde_create {S} (pt : Z) : M S Z :=
  ASSERT (pg_ofs pt =? 0) ;;
  p ← vtop pt;
  mret (Z.lor (Z.lor (Z.lor p PTE_U) PTE_P) PTE_W).
Definition pde_get_pt {S} (pde : Z) : M S Z :=
  ASSERT (negb (Z.land pde PTE_P =? 0)) ;;
  ptov (Z.land pde PTE_ADDR).
Definition pte_create_kernel {S} (page : Z) (writable : bool) : M S Z :=
  ASSERT (pg_ofs page =? 0) ;;
  p ← vtop page;
  mret (Z.lor (Z.lor p PTE_P) (if writable then PTE_W else 0)).
Definition pte_create_user {S} (page : Z) (writable : bool) : M S Z :=
  e ← pte_create_kernel page writable; mret (Z.lor e PTE_U).
Definition pte_get_page {S} (pte : Z) : M S Z := ptov (Z.land pte PTE_ADDR).

(** ** Arithmetic reading *)
Section arith.
Implicit Types (va a b : Z).

Lemma land_low va k : 0 ≤ k → Z.land va (2 ^ k - 1) = va `mod` 2 ^ k.
Proof. intros. rewrite <- Z.land_ones by done. f_equal. rewrite Z.ones_equiv. lia. Qed.

Lemma pg_ofs_mod va : pg_ofs va = va `mod` 4096.
Proof. apply (land_low va 12). lia. Qed.
Lemma pg_no_div va : pg_no va = va `div` 4096.
Proof. unfold pg_no. by rewrite Z.shiftr_div_pow2. Qed.
Lemma pd_no_div va : pd_no va = va `div` 4194304.
Proof. unfold pd_no. by rewrite Z.shiftr_div_pow2. Qed.

(** Clearing low bits of a 32-bit number. *)
Lemma land_high va k :
  0 ≤ k ≤ 32 → 0 ≤ va < 2 ^ 32 → Z.land va (2 ^ 32 - 2 ^ k) = va - va `mod` 2 ^ k.
Proof.
  intros Hk Hva.
  assert (Hs : va - va `mod` 2 ^ k = Z.shiftl (Z.shiftr va k) k).
  { rewrite Z.shiftl_mul_pow2, Z.shiftr_div_pow2 by lia.
    pose proof (Z.div_mod va (2 ^ k)). lia. }
  rewrite Hs. apply Z.bits_inj'. intros i Hi.
  assert (Hm : 2 ^ 32 - 2 ^ k = Z.shiftl (Z.ones (32 - k)) k).
  { rewrite Z.shiftl_mul_pow2, Z.ones_equiv by lia.
    replace (2 ^ 32) with (2 ^ (32 - k) * 2 ^ k) by (rewrite <- Z.pow_add_r by lia; f_equal; lia). lia. }
  rewrite Hm, Z.land_spec, !Z.shiftl_spec by lia.
  destruct (Z.lt_ge_cases i k).
  - rewrite !(Z.testbit_neg_r _ (i - k)) by lia. apply andb_false_r.
  - rewrite Z.shiftr_spec by lia. replace (i - k + k) with i by lia.
    destruct (Z.lt_ge_cases i 32).
    + rewrite Z.ones_spec_low by lia. apply andb_true_r.
    + replace (Z.testbit va i) with false; [done|]. symmetry.
      destruct (decide (va = 0)) as [->|]; [apply Z.testbit_0_l|].
      apply Z.bits_above_log2; [lia|]. enough (Z.log2 va < 32) by lia.
      apply Z.log2_lt_pow2; lia.
Qed.

Lemma pg_round_down_sub va : 0 ≤ va < 2 ^ 32 → pg_round_down va = va - va `mod` 4096.
Proof. intros. apply (land_high va 12); lia. Qed.
Lemma pte_addr_sub e : 0 ≤ e < 2 ^ 32 → Z.land e PTE_ADDR = e - e `mod` 4096.
Proof. intros. apply (land_high e 12); lia. Qed.
Lemma pt_no_div va : 0 ≤ va < 2 ^ 32 → pt_no va = (va `div` 4096) `mod` 1024.
Proof.
  intros. unfold pt_no. change PTMASK with (Z.shiftl (2 ^ 10 - 1) 12).
  rewrite Z.shiftr_land. change PTSHIFT with 12.
  change (Z.shiftr (Z.shiftl (2 ^ 10 - 1) 12) 12) with (2 ^ 10 - 1).
  by rewrite land_low, Z.shiftr_div_pow2 by lia.
Qed.

(** Or-ing flags into a page-aligned number adds them. *)
Lemma lor_flags a b : a `mod` 4096 = 0 → 0 ≤ b < 4096 → Z.lor a b = a + b.
Proof.
  intros Ha Hb. symmetry. apply Z.add_nocarry_lor. apply Z.bits_inj'. intros i Hi.
  rewrite Z.land_spec, Z.testbit_0_l. destruct (Z.lt_ge_cases i 12).
  - replace (Z.testbit a i) with false; [done|].
    rewrite (Z.div_mod a 4096), Ha, Z.add_0_r by lia. change 4096 with (2 ^ 12).
    rewrite Z.mul_comm, Z.mul_pow2_bits_low by lia. done.
  - replace (Z.testbit b i) with false; [apply andb_false_r|]. symmetry.
    destruct (decide (b = 0)) as [->|]; [apply Z.testbit_0_l|].
    apply Z.bits_above_log2; [lia|]. enough (Z.log2 b < 12) by lia.
    apply Z.log2_lt_pow2; lia.
Qed.
End arith.

(** The machine's sum of two addresses whose sum is an address. *)
Lemma wp_ptov {S} p (s : S) (Q : Z → S → Prop) :
  0 ≤ p < 2 ^ 32 - PHYS_BASE → Q (p + PHYS_BASE) s → wp (ptov p) s Q.
Proof.
  unfold PHYS_BASE. intros Hp HQ. unfold ptov. wp_step. apply wp_assert; [apply Z.ltb_lt; unfold PHYS_BASE; lia|].
  wp_step. rewrite u32_small; unfold PHYS_BASE; [done|lia].
Qed.
Lemma wp_vtop {S} a (s : S) (Q : Z → S → Prop) :
  PHYS_BASE ≤ a < 2 ^ 32 → Q (a - PHYS_BASE) s → wp (vtop a) s Q.
Proof.
  unfold PHYS_BASE. intros Hp HQ. unfold vtop. wp_step. apply wp_assert; [apply Z.leb_le; unfold PHYS_BASE; lia|].
  wp_step. rewrite u32_small; unfold PHYS_BASE; [done|lia].
Qed.
