(* ===== verification/Palloc.v ===== *)
(** * threads/palloc.c: the page allocator

    The state is the two pools and the byte memory the pages are part of.  A
    pool's lock is modelled as seen by one thread: held or not, with the
    assertions of [lock_acquire] and [lock_release].  [init_ram_pages] (set by
    the loader) and what the memory holds before it is initialised are
    arguments. *)
From S2P Require Import Prelude Bitmap Mem CString Vaddr.
Local Open Scope Z_scope.

Record pool := Pool { pool_lock : bool; used_map : bitmap; base : Z }.
Record pal := Pal { kernel_pool : pool; user_pool : pool; ram : mem }.

Definition PAL_ASSERT : Z := 1.
Definition PAL_ZERO : Z := 2.
Definition PAL_USER : Z := 4.

(** A pointer to one of the two pools. *)
Inductive pool_id := KPool | UPool.
#[global] Instance pool_id_eq_dec : EqDecision pool_id.
Proof. solve_decision. Defined.

Definition get_pool (w : pool_id) (s : pal) : pool :=
  match w with KPool => kernel_pool s | UPool => user_pool s end.
Definition put_pool (w : pool_id) (p : pool) (s : pal) : pal :=
  match w with
  | KPool => Pal p (user_pool s) (ram s)
  | UPool => Pal (kernel_pool s) p (ram s)
  end.

Definition pool_acquire (w : pool_id) : M pal unit :=
  p ← gets (get_pool w);
  ASSERT (negb (pool_lock p)) ;;
  modify (put_pool w (Pool true (used_map p) (base p))).
Definition pool_release (w : pool_id) : M pal unit :=
  p ← gets (get_pool w);
  ASSERT (pool_lock p) ;;
  modify (put_pool w (Pool false (used_map p) (base p))).

(** Bitmap operations on [pool->used_map], string operations on the pages. *)
Definition on_map {A} (w : pool_id) (m : M bitmap A) : M pal A :=
  zoom (λ s, used_map (get_pool w s))
       (λ b s, put_pool w (Pool (pool_lock (get_pool w s)) b (base (get_pool w s))) s) m.
Definition on_ram {A} (m : M mem A) : M pal A :=
  zoom ram (λ r s, Pal (kernel_pool s) (user_pool s) r) m.

Definition palloc_get_multiple (flags page_cnt : Z) : M pal Z :=
  let pool := if negb (Z.land flags PAL_USER =? 0) then UPool else KPool in
  if page_cnt =? 0 then mret 0
  else
    pool_acquire pool ;;
    page_idx ← on_map pool (bitmap_scan_and_flip 0 page_cnt false);
    pool_release pool ;;
    p ← gets (get_pool pool);
    let pages := if negb (page_idx =? BITMAP_ERROR) then u32 (base p + PGSIZE * page_idx) else 0 in
    (if negb (pages =? 0) then
       if negb (Z.land flags PAL_ZERO =? 0)
       then on_ram (memset pages 0 (u32 (PGSIZE * page_cnt))) ;; mret tt
       else mret tt
     else
       if negb (Z.land flags PAL_ASSERT =? 0) then PANIC else mret tt) ;;
    mret pages.

Definition palloc_get_page (flags : Z) : M pal Z := palloc_get_multiple flags 1.

Definition page_from_pool (pool : pool) (page : Z) : bool :=
  let page_no := pg_no page in
  let start_page := pg_no (base pool) in
  let end_page := u32 (start_page + bit_cnt (used_map pool)) in
  (start_page <=? page_no) && (page_no <? end_page).

Definition palloc_free_multiple (pages page_cnt : Z) : M pal unit :=
  ASSERT (pg_ofs pages =? 0) ;;
  if (pages =? 0) || (page_cnt =? 0) then mret tt
  else
    s ← gets id;
    pool ← (if page_from_pool (kernel_pool s) pages then mret KPool
            else if page_from_pool (user_pool s) pages then mret UPool
            else PANIC);
    let page_idx := u32 (pg_no pages - pg_no (base (get_pool pool s))) in
    on_ram (memset pages 204 (u32 (PGSIZE * page_cnt))) ;;
    all ← on_map pool (bitmap_all page_idx page_cnt);
    ASSERT all ;;
    on_map pool (bitmap_set_multiple page_idx page_cnt false).

Definition palloc_free_page (page : Z) : M pal unit := palloc_free_multiple page 1.

(** [block] is what the memory at [base] holds after the [struct bitmap]. *)
Definition init_pool (base page_cnt : Z) (block : list Z) : res pool :=
  let bm_pages := DIV_ROUND_UP (bitmap_buf_size page_cnt) PGSIZE in
  if page_cnt <? bm_pages then Err EPanic
  else
    let page_cnt := page_cnt - bm_pages in
    match bitmap_create_in_buf page_cnt block (u32 (bm_pages * PGSIZE)) with
    | Ok b => Ok (Pool false b (u32 (base + bm_pages * PGSIZE)))
    | Err e => Err e
    end.

Definition palloc_init (init_ram_pages user_page_limit : Z) (kblock ublock : list Z) (m : mem) : res pal :=
  match ptov (1024 * 1024) tt, ptov (u32 (init_ram_pages * PGSIZE)) tt with
  | Ok (free_start, _), Ok (free_end, _) =>
      let free_pages := (free_end - free_start) `div` PGSIZE in
      let user_pages := free_pages `div` 2 in
      let user_pages := if user_page_limit <? user_pages then user_page_limit else user_pages in
      let kernel_pages := free_pages - user_pages in
      match init_pool free_start kernel_pages kblock,
            init_pool (u32 (free_start + kernel_pages * PGSIZE)) user_pages ublock with
      | Ok k, Ok u => Ok (Pal k u m)
      | Err e, _ => Err e
      | _, Err e => Err e
      end
  | Err e, _ => Err e
  | _, Err e => Err e
  end.
