(* ===== verification/PallocFacts.v ===== *)
(** * Facts about the page allocator

    The invariant of the two pools and what taking and giving back pages does
    to the set of pages in use. *)
From S2P Require Import Prelude Bitmap BitmapFacts Mem CString CStringFacts Vaddr Palloc.
Local Open Scope Z_scope.

(** A pool: its lock is free, its bitmap is well formed, its pages are aligned
    kernel addresses. *)
Record pool_ok (p : pool) : Prop := {
  po_lock : pool_lock p = false;
  po_map : wf (used_map p);
  po_align : base p `mod` 4096 = 0;
  po_base : PHYS_BASE < base p;
  po_end : base p + 4096 * bit_cnt (used_map p) ≤ 2 ^ 32;
}.

(** The page at [a] belongs to a pool; it is in use. *)
Definition in_pool (w : pool_id) (s : pal) (a : Z) : Prop :=
  ∃ i, 0 ≤ i < bit_cnt (used_map (get_pool w s)) ∧ a = base (get_pool w s) + 4096 * i.
Definition used (w : pool_id) (s : pal) (a : Z) : Prop :=
  in_pool w s a ∧ bit (used_map (get_pool w s)) ((a - base (get_pool w s)) `div` 4096) = true.

Record pal_ok (s : pal) : Prop := {
  pa_pool : ∀ w, pool_ok (get_pool w s);
  pa_disj : base (kernel_pool s) + 4096 * bit_cnt (used_map (kernel_pool s)) ≤ base (user_pool s);
  pa_ram : ∀ w, mapped (ram s) (base (get_pool w s)) (4096 * bit_cnt (used_map (get_pool w s)));
}.

(** Nothing but bits and bytes changes. *)
Definition same_layout (s s' : pal) : Prop :=
  (∀ w, base (get_pool w s') = base (get_pool w s) ∧
        bit_cnt (used_map (get_pool w s')) = bit_cnt (used_map (get_pool w s))) ∧
  (∀ x, is_Some (ram s !! x) → is_Some (ram s' !! x)).

(** [n] pages at [p]. *)
Definition page_of (p n a : Z) : Prop := ∃ i, 0 ≤ i < n ∧ a = p + 4096 * i.

Section facts.
Implicit Types (s : pal) (w : pool_id).

Lemma same_layout_refl s : same_layout s s.
Proof. split; [done|auto]. Qed.
Lemma same_layout_trans s1 s2 s3 : same_layout s1 s2 → same_layout s2 s3 → same_layout s1 s3.
Proof.
  intros [H1 R1] [H2 R2]. split; [|auto].
  intros w. destruct (H1 w), (H2 w). split; congruence.
Qed.
Lemma in_pool_layout w s s' a : same_layout s s' → in_pool w s' a ↔ in_pool w s a.
Proof. intros [H _]. unfold in_pool. by destruct (H w) as [-> ->]. Qed.

Lemma get_put w p s : get_pool w (put_pool w p s) = p.
Proof. by destruct w. Qed.
Lemma get_put_ne w w' p s : w' ≠ w → get_pool w' (put_pool w p s) = get_pool w' s.
Proof. by destruct w, w'. Qed.
Lemma ram_put w p s : ram (put_pool w p s) = ram s.
Proof. by destruct w. Qed.
Lemma put_put w p q s : put_pool w p (put_pool w q s) = put_pool w p s.
Proof. by destruct w. Qed.
Lemma put_get w s : put_pool w (get_pool w s) s = s.
Proof. by destruct s, w. Qed.

(** Replacing the bitmap of a pool. *)
Definition with_map w (b : bitmap) s : pal :=
  put_pool w (Pool (pool_lock (get_pool w s)) b (base (get_pool w s))) s.

Lemma with_map_ok w b s :
  pal_ok s → wf b → bit_cnt b = bit_cnt (used_map (get_pool w s)) →
  pal_ok (with_map w b s) ∧ same_layout s (with_map w b s).
Proof.
  intros [Hp Hd Hr] Hb Hc. unfold with_map.
  assert (Hl : same_layout s (put_pool w (Pool (pool_lock (get_pool w s)) b (base (get_pool w s))) s)).
  { split; [|by rewrite ram_put]. intros w'. destruct (decide (w' = w)) as [->|];
      [by rewrite get_put|by rewrite get_put_ne]. }
  split; [|done]. split.
  - intros w'. destruct (decide (w' = w)) as [->|]; [rewrite get_put|by rewrite get_put_ne].
    destruct (Hp w). split; cbn; try done. by rewrite Hc.
  - destruct Hl as [Hl _]. destruct (Hl KPool) as [H1 H2], (Hl UPool) as [H3 _].
    cbn [get_pool] in *. by rewrite H1, H2, H3.
  - intros w'. rewrite ram_put. destruct Hl as [Hl _]. destruct (Hl w') as [-> ->]. apply Hr.
Qed.

Lemma used_with_map w b s a :
  bit_cnt b = bit_cnt (used_map (get_pool w s)) →
  used w (with_map w b s) a ↔ in_pool w s a ∧ bit b ((a - base (get_pool w s)) `div` 4096) = true.
Proof. intros Hc. unfold used, in_pool, with_map. rewrite get_put. cbn. by rewrite Hc. Qed.
Lemma used_with_map_ne w w' b s a : w' ≠ w → used w' (with_map w b s) a ↔ used w' s a.
Proof. intros Hw. unfold used, in_pool, with_map. by rewrite get_put_ne. Qed.

(** Writing into pages. *)
Lemma write_ram_ok s r :
  (∀ x, is_Some (ram s !! x) → is_Some (r !! x)) → pal_ok s →
  pal_ok (Pal (kernel_pool s) (user_pool s) r) ∧ same_layout s (Pal (kernel_pool s) (user_pool s) r).
Proof.
  intros Hr [Hp Hd Hm]. split; [|split; [by intros []|done]].
  split; [by intros []; [apply (Hp KPool)|apply (Hp UPool)]|done|].
  intros w x Hx. cbn [ram]. apply Hr. destruct w; [apply (Hm KPool)|apply (Hm UPool)]; done.
Qed.
Lemma used_ram w s r a : used w (Pal (kernel_pool s) (user_pool s) r) a ↔ used w s a.
Proof. by destruct w. Qed.

Lemma write_mapped (m : mem) a bs x : is_Some (m !! x) → is_Some (write m a bs !! x).
Proof.
  intros Hx. rewrite lookup_write. destruct (decide _); [|done].
  apply lookup_lt_is_Some. lia.
Qed.

(** The pages from page [i] of a pool on. *)
Lemma in_pool_pages w s i n a :
  0 ≤ i → i + n ≤ bit_cnt (used_map (get_pool w s)) →
  page_of (base (get_pool w s) + 4096 * i) n a → in_pool w s a.
Proof. intros Hi Hn (j & Hj & ->). exists (i + j). lia. Qed.

Lemma mapped_pages w s i n :
  pal_ok s → 0 ≤ i → i + n ≤ bit_cnt (used_map (get_pool w s)) →
  mapped (ram s) (base (get_pool w s) + 4096 * i) (4096 * n).
Proof. intros Hok Hi Hn x Hx. apply (pa_ram _ Hok w). lia. Qed.

Lemma page_of_index w s i n a :
  in_pool w s a → 0 ≤ i →
  (i ≤ (a - base (get_pool w s)) `div` 4096 < i + n ↔ page_of (base (get_pool w s) + 4096 * i) n a).
Proof.
  intros (j & Hj & ->) Hi.
  replace ((base (get_pool w s) + 4096 * j - base (get_pool w s)) `div` 4096) with j
    by (apply (Z.div_unique _ _ j 0); lia).
  split; [intros; exists (j - i); lia|intros (k & ? & ?); lia].
Qed.
End facts.

(** What a successful allocation of [n] pages at [p] does. *)
Record got (w : pool_id) (s : pal) (n p : Z) (s' : pal) : Prop := {
  got_align : p `mod` 4096 = 0;
  got_pos : PHYS_BASE < p;
  got_new : ∀ a, page_of p n a → in_pool w s a ∧ ¬ used w s a;
  got_used : ∀ a, used w s' a ↔ used w s a ∨ page_of p n a;
  got_frame : ∀ w' a, w' ≠ w → used w' s' a ↔ used w' s a;
}.

Definition pool_of (flags : Z) : pool_id :=
  if negb (Z.land flags PAL_USER =? 0) then UPool else KPool.

(** The [n] pages of a pool from page [i] on, all with the same bit. *)
Lemma group_used w s i n :
  pal_ok s → 0 ≤ i → group (used_map (get_pool w s)) i n true →
  ∀ a, in_pool w s a → page_of (base (get_pool w s) + 4096 * i) n a → used w s a.
Proof. intros Hok Hi Hg a Ha Hp. split; [done|]. apply Hg. by apply page_of_index. Qed.

Lemma group_unused w s i n :
  pal_ok s → 0 ≤ i → group (used_map (get_pool w s)) i n false →
  ∀ a, in_pool w s a → page_of (base (get_pool w s) + 4096 * i) n a → ¬ used w s a.
Proof.
  intros Hok Hi Hg a Ha Hp [_ Hb].
  rewrite (Hg ((a - base (get_pool w s)) `div` 4096)) in Hb; [done|]. by apply page_of_index.
Qed.

(** Setting the bits of a group of pages. *)
Lemma used_range w s i n v b :
  0 ≤ i → i + n ≤ bit_cnt (used_map (get_pool w s)) →
  bit_cnt b = bit_cnt (used_map (get_pool w s)) →
  (∀ j, 0 ≤ j → bit b j = if (i <=? j) && (j <? i + n) then v else bit (used_map (get_pool w s)) j) →
  ∀ a, used w (with_map w b s) a ↔
    page_of (base (get_pool w s) + 4096 * i) n a ∧ v = true ∨
    ¬ page_of (base (get_pool w s) + 4096 * i) n a ∧ used w s a.
Proof.
  intros Hi Hn Hc Hb a. rewrite used_with_map by done. unfold used.
  assert (Hpos : in_pool w s a → 0 ≤ (a - base (get_pool w s)) `div` 4096).
  { intros (j & ? & ->). apply Z.div_pos; lia. }
  pose proof (page_of_index w s i n a) as Hpi.
  pose proof (in_pool_pages w s i n a Hi Hn) as Hin.
  destruct (decide (i ≤ (a - base (get_pool w s)) `div` 4096 < i + n)) as [Hr|Hr].
  - assert (Hv : in_pool w s a → bit b ((a - base (get_pool w s)) `div` 4096) = v).
    { intros Ha. rewrite Hb by auto. destruct Hr as [->%Z.leb_le ->%Z.ltb_lt]. done. }
    split; [intros [Ha Hbit]; rewrite Hv in Hbit by done; left; tauto|].
    intros [[Hp ->]|[Hp [Ha _]]]; [|tauto]. auto.
  - assert (Hv : in_pool w s a → bit b ((a - base (get_pool w s)) `div` 4096) =
                 bit (used_map (get_pool w s)) ((a - base (get_pool w s)) `div` 4096)).
    { intros Ha. rewrite Hb by auto. destruct (Z.leb_spec i ((a - base (get_pool w s)) `div` 4096)),
        (Z.ltb_spec ((a - base (get_pool w s)) `div` 4096) (i + n)); try done; lia. }
    split; [intros [Ha Hbit]; rewrite Hv in Hbit by done; right; tauto|].
    intros [[Hp _]|[Hp [Ha Hbit]]]; [tauto|]. rewrite Hv by done. done.
Qed.

Lemma with_map_got w s n i b :
  pal_ok s → 0 ≤ i → i + n ≤ bit_cnt (used_map (get_pool w s)) →
  group (used_map (get_pool w s)) i n false →
  bit_cnt b = bit_cnt (used_map (get_pool w s)) →
  (∀ j, 0 ≤ j → bit b j = if (i <=? j) && (j <? i + n) then true else bit (used_map (get_pool w s)) j) →
  got w s n (base (get_pool w s) + 4096 * i) (with_map w b s).
Proof.
  intros Hok Hi Hn Hg Hc Hb. destruct (pa_pool _ Hok w) as [_ _ Ha Hbase _].
  assert (Hnew : ∀ a, page_of (base (get_pool w s) + 4096 * i) n a → in_pool w s a ∧ ¬ used w s a).
  { intros a Hp. assert (in_pool w s a) by (by eapply in_pool_pages). split; [done|].
    by eapply group_unused. }
  split; [by rewrite Z.mul_comm, Z_mod_plus_full|lia|done| |].
  - intros a. rewrite (used_range w s i n true) by done. specialize (Hnew a).
    split; [tauto|]. intros [Hu|Hp]; [right|by left]. split; [|done].
    intros Hp. by apply Hnew in Hp as [_ ?].
  - intros w' a Hw. by apply used_with_map_ne.
Qed.

(** ** The operations *)
Lemma scan_and_flip_ok b n :
  wf b → 0 < n → wp (bitmap_scan_and_flip 0 n false) b (λ r b',
    (r = BITMAP_ERROR ∧ b' = b ∧ no_group b 0 n false) ∨
    (r ≠ BITMAP_ERROR ∧ 0 ≤ r ∧ r + n ≤ bit_cnt b ∧ group b r n false ∧ wf b' ∧ bit_cnt b' = bit_cnt b ∧
     ∀ j, 0 ≤ j → bit b' j = if (r <=? j) && (j <? r + n) then true else bit b j)).
Proof.
  intros Hwf Hn. unfold bitmap_scan_and_flip. wp_step.
  pose proof (wf_cnt _ Hwf) as Hc.
  eapply wp_mono; [apply wp_bitmap_scan; [done|lia..]|].
  intros r b' [-> [[Hr (Hs & He & Hg & _)]|[-> Hno]]].
  - rewrite (proj2 (Z.eqb_neq r _)) by done. cbn [negb]. wp_step.
    eapply wp_mono; [apply wp_bitmap_set_multiple; [done|lia..]|].
    intros [] b' (Hwf' & Hc' & Hb). wp_steps. right. by split_and!.
  - rewrite Z.eqb_refl. cbn [negb]. wp_steps. by left.
Qed.

(** The locked part of [palloc_get_multiple]. *)
Definition take_pages (w : pool_id) (n : Z) : M pal Z :=
  pool_acquire w ;;
  page_idx ← on_map w (bitmap_scan_and_flip 0 n false);
  pool_release w ;;
  p ← gets (get_pool w);
  mret (if negb (page_idx =? BITMAP_ERROR) then u32 (base p + PGSIZE * page_idx) else 0).

Lemma wp_take_pages s w n :
  pal_ok s → 0 < n →
  wp (take_pages w n) s (λ p s',
    (p = 0 ∧ s' = s ∧ no_group (used_map (get_pool w s)) 0 n false) ∨
    (got w s n p s' ∧ pal_ok s' ∧ same_layout s s' ∧ ram s' = ram s)).
Proof.
  intros Hok Hn. destruct (pa_pool _ Hok w) as [Hl Hwf Hal Hb He].
  unfold take_pages, pool_acquire, pool_release, on_map. wp_step. wp_step. wp_step. wp_step.
  apply wp_assert; [by rewrite Hl|]. wp_steps. rewrite get_put. cbn [used_map].
  eapply wp_mono; [by apply scan_and_flip_ok|].
  intros r b' [(-> & -> & Hno)|(Hr & H0 & Hend & Hg & Hwf' & Hc & Hbit)];
    wp_steps; rewrite !get_put; cbn [pool_lock base used_map]; (apply wp_assert; [done|]); wp_steps;
    rewrite get_put, !put_put; cbn [base used_map].
  - left. rewrite Z.eqb_refl. split_and!; [done| |done].
    assert (Pool false (used_map (get_pool w s)) (base (get_pool w s)) = get_pool w s) as ->
      by (rewrite <- Hl; by destruct (get_pool w s)). by rewrite put_get.
  - right. rewrite (proj2 (Z.eqb_neq r _)) by done. cbn [negb].
    change PGSIZE with 4096. rewrite u32_small by (unfold PHYS_BASE in Hb; lia).
    assert (Heq : put_pool w (Pool false b' (base (get_pool w s))) s = with_map w b' s)
      by (unfold with_map; by rewrite Hl).
    rewrite Heq. destruct (with_map_ok w b' s Hok Hwf' Hc).
    split_and!; [by apply with_map_got|done|done|apply ram_put].
Qed.

Lemma palloc_get_multiple_alt flags n s :
  n ≠ 0 → palloc_get_multiple flags n s =
    (pages ← take_pages (pool_of flags) n;
     (if negb (pages =? 0) then
        if negb (Z.land flags PAL_ZERO =? 0)
        then on_ram (memset pages 0 (u32 (PGSIZE * n))) ;; mret tt
        else mret tt
      else
        if negb (Z.land flags PAL_ASSERT =? 0) then PANIC else mret tt) ;;
     mret pages) s.
Proof.
  intros Hn. unfold palloc_get_multiple, take_pages, pool_of. rewrite (proj2 (Z.eqb_neq n 0) Hn).
  unfold mbind, M_bind. set (w := if negb (Z.land flags PAL_USER =? 0) then UPool else KPool).
  destruct (pool_acquire w s) as [[? s1]|]; [|done].
  destruct (on_map w _ s1) as [[idx s2]|]; [|done].
  by destruct (pool_release w s2) as [[? s3]|].
Qed.

Lemma wp_ext {S A} (m m' : M S A) s Q : m s = m' s → wp m' s Q → wp m s Q.
Proof. unfold wp. by intros ->. Qed.

Lemma got_in_pool w s n p s' :
  pal_ok s → 0 < n → got w s n p s' →
  base (get_pool w s) ≤ p ∧ p + 4096 * n ≤ base (get_pool w s) + 4096 * bit_cnt (used_map (get_pool w s)).
Proof.
  intros Hok Hn Hg.
  destruct (got_new _ _ _ _ _ Hg p) as [(i & Hi & E) _]; [exists 0; lia|].
  destruct (got_new _ _ _ _ _ Hg (p + 4096 * (n - 1))) as [(j & Hj & E') _]; [exists (n - 1); lia|]. lia.
Qed.

(** What the memory is after an allocation: zero pages if they were asked for. *)
Definition ram_after (flags n p : Z) (s : pal) : mem :=
  if Z.land flags PAL_ZERO =? 0 then ram s else write (ram s) p (replicate (Z.to_nat (4096 * n)) 0).

Lemma got_group w s n p s' :
  pal_ok s → 0 < n → got w s n p s' → ¬ no_group (used_map (get_pool w s)) 0 n false.
Proof.
  intros Hok Hn Hg Hno. destruct (got_in_pool _ _ _ _ _ Hok Hn Hg) as [Hlo Hhi].
  destruct (got_new _ _ _ _ _ Hg p) as [(i & Hi & Ep) _]; [exists 0; lia|].
  apply (Hno i); [lia|lia|]. intros k Hk.
  destruct (got_new _ _ _ _ _ Hg (base (get_pool w s) + 4096 * k)) as [Hin Hnu]; [exists (k - i); lia|].
  destruct (bit (used_map (get_pool w s)) k) eqn:Eb; [|done].
  exfalso. apply Hnu. split; [done|].
  by replace ((base (get_pool w s) + 4096 * k - base (get_pool w s)) `div` 4096)
    with k by (apply (Z.div_unique _ _ k 0); lia).
Qed.

Lemma wp_palloc_get_multiple s flags n :
  pal_ok s → 0 < n →
  Z.land flags PAL_ASSERT = 0 ∨ ¬ no_group (used_map (get_pool (pool_of flags) s)) 0 n false →
  wp (palloc_get_multiple flags n) s (λ p s',
    (p = 0 ∧ s' = s ∧ no_group (used_map (get_pool (pool_of flags) s)) 0 n false) ∨
    (got (pool_of flags) s n p s' ∧ pal_ok s' ∧ same_layout s s' ∧ ram s' = ram_after flags n p s)).
Proof.
  intros Hok Hn Hf. eapply wp_ext; [apply palloc_get_multiple_alt; lia|]. wp_step.
  eapply wp_mono; [by apply wp_take_pages|].
  intros p s' [(-> & -> & Hno)|(Hg & Hok' & Hl & Hram)].
  - destruct Hf as [Hf|[]]; [|done]. rewrite Hf. wp_steps. by left.
  - pose proof (got_pos _ _ _ _ _ Hg) as Hp. unfold PHYS_BASE in Hp.
    rewrite (proj2 (Z.eqb_neq p 0)) by lia. cbn [negb]. unfold ram_after.
    destruct (Z.land flags PAL_ZERO =? 0); cbn [negb]; [wp_steps; by right|].
    destruct (got_in_pool _ _ _ _ _ Hok Hn Hg) as [Hlo Hhi].
    destruct (pa_pool _ Hok (pool_of flags)) as [_ _ _ _ He].
    wp_step. wp_step. apply wp_zoom. change PGSIZE with 4096.
    destruct (pa_pool _ Hok (pool_of flags)) as [_ _ _ Hb _]. unfold PHYS_BASE in Hb.
    rewrite u32_small by lia. rewrite Hram.
    apply wp_memset; [lia|intros x Hx; apply (pa_ram _ Hok (pool_of flags)); lia|lia|].
    wp_steps. right. change (u8 0) with 0.
    destruct (write_ram_ok s' (write (ram s) p (replicate (Z.to_nat (4096 * n)) 0))) as [Hok2 Hl2];
      [intros x Hx; apply write_mapped; by rewrite <- Hram|done|].
    split_and!; [|done|by eapply same_layout_trans|done].
    destruct Hg. split; [done..| |]; intros; rewrite used_ram; auto.
Qed.

(** With [PAL_ASSERT], running out of pages is a panic. *)
Lemma palloc_panics s flags n :
  pal_ok s → 0 < n → Z.land flags PAL_ASSERT ≠ 0 →
  no_group (used_map (get_pool (pool_of flags) s)) 0 n false →
  palloc_get_multiple flags n s = Err EPanic.
Proof.
  intros Hok Hn Hf Hno. rewrite palloc_get_multiple_alt by lia.
  pose proof (wp_take_pages s (pool_of flags) n Hok Hn) as (p & s' & E & H)%wp_ok.
  unfold mbind, M_bind. rewrite E. destruct H as [(-> & -> & _)|(Hg & _)].
  - by rewrite (proj2 (Z.eqb_neq _ 0) Hf).
  - by destruct (got_group _ _ _ _ _ Hok Hn Hg).
Qed.

(** The pool a page comes from. *)
Lemma page_from_pool_spec s w i :
  pal_ok s → 0 ≤ i → base (get_pool w s) + 4096 * i < 2 ^ 32 →
  page_from_pool (get_pool w s) (base (get_pool w s) + 4096 * i) =
    (i <? bit_cnt (used_map (get_pool w s))) ∧
  pg_no (base (get_pool w s) + 4096 * i) = pg_no (base (get_pool w s)) + i.
Proof.
  intros Hok Hi Hlt. destruct (pa_pool _ Hok w) as [_ Hwf Hal Hb He]. unfold PHYS_BASE in Hb.
  pose proof (wf_cnt _ Hwf) as Hc.
  assert (Hn : pg_no (base (get_pool w s) + 4096 * i) = pg_no (base (get_pool w s)) + i).
  { rewrite !pg_no_div. rewrite Z.mul_comm, Z_div_plus_full by lia. done. }
  split; [|done]. unfold page_from_pool. rewrite Hn, pg_no_div.
  assert (0 ≤ base (get_pool w s) `div` 4096 < 1048576) by (split; [apply Z.div_pos|apply Z.div_lt_upper_bound]; lia).
  rewrite u32_small by lia. rewrite (proj2 (Z.leb_le _ _)) by lia.
  destruct (Z.ltb_spec i (bit_cnt (used_map (get_pool w s)))); [apply Z.ltb_lt|apply Z.ltb_ge]; lia.
Qed.

Lemma page_from_kernel_pool_user s i :
  pal_ok s → 0 ≤ i → base (user_pool s) + 4096 * i < 2 ^ 32 →
  page_from_pool (kernel_pool s) (base (user_pool s) + 4096 * i) = false.
Proof.
  intros Hok Hi Hlt.
  destruct (pa_pool _ Hok KPool) as [_ _ Hal _ _], (pa_pool _ Hok UPool) as [_ _ Hal' _ _].
  pose proof (pa_disj _ Hok) as Hd. cbn [get_pool] in *.
  assert (He : base (user_pool s) = base (kernel_pool s) +
             4096 * ((base (user_pool s) - base (kernel_pool s)) `div` 4096)).
  { rewrite <- Z_div_exact_full_2; [lia|lia|]. by rewrite Zminus_mod, Hal, Hal'. }
  set (d := (base (user_pool s) - base (kernel_pool s)) `div` 4096) in *.
  pose proof (wf_cnt _ (po_map _ (pa_pool _ Hok KPool))) as Hc. cbn [get_pool] in Hc.
  pose proof (page_from_pool_spec s KPool (d + i) Hok) as [Hf _]; cbn [get_pool] in *; [lia|lia|].
  replace (base (user_pool s) + 4096 * i) with (base (kernel_pool s) + 4096 * (d + i)) by lia.
  rewrite Hf. apply Z.ltb_ge. lia.
Qed.

(** What giving back [n] pages at [p] does. *)
Record freed (w : pool_id) (s : pal) (n p : Z) (s' : pal) : Prop := {
  freed_used : ∀ a, used w s' a ↔ used w s a ∧ ¬ page_of p n a;
  freed_frame : ∀ w' a, w' ≠ w → used w' s' a ↔ used w' s a;
}.

(** [palloc_free_multiple] finds the pool of its pages. *)
Lemma wp_select_pool s w i :
  pal_ok s → 0 ≤ i < bit_cnt (used_map (get_pool w s)) →
  wp (if page_from_pool (kernel_pool s) (base (get_pool w s) + 4096 * i) then mret KPool
      else if page_from_pool (user_pool s) (base (get_pool w s) + 4096 * i) then mret UPool
      else PANIC) s (λ w' s', w' = w ∧ s' = s).
Proof.
  intros Hok Hi. destruct (pa_pool _ Hok w) as [_ _ _ Hb He]. unfold PHYS_BASE in Hb.
  destruct (page_from_pool_spec s w i Hok) as [Hfrom _]; [lia|lia|].
  rewrite (proj2 (Z.ltb_lt _ _)) in Hfrom by lia.
  destruct w; cbn [get_pool] in *; [by rewrite Hfrom|].
  rewrite page_from_kernel_pool_user by (done || lia). by rewrite Hfrom.
Qed.

Lemma used_group w s i n p :
  p = base (get_pool w s) + 4096 * i → (∀ a, page_of p n a → used w s a) →
  group (used_map (get_pool w s)) i n true.
Proof.
  intros Hp Hu k Hk. destruct (Hu (p + 4096 * (k - i))) as [_ Hbit]; [exists (k - i); lia|].
  by replace ((p + 4096 * (k - i) - base (get_pool w s)) `div` 4096) with k in Hbit
    by (apply (Z.div_unique _ _ k 0); lia).
Qed.

Lemma wp_palloc_free_multiple s w n p :
  pal_ok s → 0 < n → (∀ a, page_of p n a → used w s a) →
  wp (palloc_free_multiple p n) s (λ _ s',
    freed w s n p s' ∧ pal_ok s' ∧ same_layout s s' ∧
    ram s' = write (ram s) p (replicate (Z.to_nat (4096 * n)) 204)).
Proof.
  intros Hok Hn Hu.
  destruct (Hu p) as [(i & Hi & Hp) _]; [exists 0; lia|].
  destruct (Hu (p + 4096 * (n - 1))) as [(j & Hj & Hp') _]; [exists (n - 1); lia|].
  destruct (pa_pool _ Hok w) as [_ Hwf Hal Hb He]. unfold PHYS_BASE in Hb.
  pose proof (wf_cnt _ Hwf) as Hc.
  assert (Hin : i + n ≤ bit_cnt (used_map (get_pool w s))) by lia. clear j Hj Hp'.
  destruct (page_from_pool_spec s w i Hok) as [_ Hno]; [lia|lia|]. rewrite <- Hp in Hno.
  unfold palloc_free_multiple. wp_step. apply wp_assert.
  { apply Z.eqb_eq. rewrite pg_ofs_mod, Hp, Z.mul_comm, Z_mod_plus_full. done. }
  rewrite (proj2 (Z.eqb_neq p 0)), (proj2 (Z.eqb_neq n 0)) by lia. cbn [orb].
  wp_step. wp_step. unfold id. wp_step.
  pose proof (wp_select_pool s w i Hok Hi) as Hsel. rewrite <- Hp in Hsel.
  eapply wp_mono; [exact Hsel|]. intros ? ? [-> ->]. rewrite Hno.
  replace (pg_no (base (get_pool w s)) + i - pg_no (base (get_pool w s))) with i by lia.
  rewrite (u32_small i) by lia. change PGSIZE with 4096. rewrite u32_small by lia.
  wp_step. unfold on_ram. wp_step.
  apply wp_memset; [lia|intros x Hx; apply (pa_ram _ Hok w); lia|lia|]. change (u8 204) with 204.
  set (r := write (ram s) p (replicate (Z.to_nat (4096 * n)) 204)).
  destruct (write_ram_ok s r) as [Hok1 Hl1]; [intros; by apply write_mapped|done|].
  set (s1 := Pal (kernel_pool s) (user_pool s) r) in *.
  assert (Hpool : get_pool w s1 = get_pool w s) by (by destruct w).
  pose proof (used_group w s i n p Hp Hu) as Hg.
  wp_step. unfold on_map. wp_step. rewrite Hpool. unfold bitmap_all. wp_step.
  eapply wp_mono; [apply wp_bitmap_contains; [done|lia..]|]. intros all b' [-> Hall]. wp_step.
  destruct all; [destruct Hall as (k & Hk & Hb'); by rewrite Hg in Hb'|].
  assert (Hid : put_pool w (Pool (pool_lock (get_pool w s)) (used_map (get_pool w s)) (base (get_pool w s))) s1 = s1).
  { rewrite <- Hpool. destruct (get_pool w s1) eqn:E; cbn. rewrite <- E. apply put_get. }
  rewrite Hid. cbn [negb]. wp_step. apply wp_assert; [done|]. wp_step. rewrite Hpool.
  eapply wp_mono; [apply wp_bitmap_set_multiple; [done|lia..]|]. intros [] b (Hwfb & Hcb & Hbit).
  rewrite <- Hpool. fold (with_map w b s1).
  destruct (with_map_ok w b s1 Hok1 Hwfb) as [Hok2 Hl2]; [by rewrite Hpool|].
  split_and!; [|done|by eapply same_layout_trans|unfold with_map; by rewrite ram_put].
  split.
  - intros a. rewrite (used_range w s1 i n false b); [|lia|rewrite Hpool; lia|by rewrite Hpool|by rewrite Hpool].
    rewrite Hpool, <- Hp. unfold s1. rewrite used_ram. naive_solver.
  - intros w' a Hw. rewrite used_with_map_ne by done. unfold s1. by rewrite used_ram.
Qed.
