(* ===== verification/PallocProps.v ===== *)
(** * The page allocator

    Initialisation establishes the invariant; an allocation takes unused pages
    and a release gives them back. *)
From S2P Require Import Prelude Bitmap BitmapFacts BitmapProps Mem CString CStringFacts Vaddr Palloc PallocFacts.
Local Open Scope Z_scope.

(** ** Initialisation *)
Lemma buf_size_ceil c : 0 ≤ c < 2 ^ 20 → bitmap_buf_size c = 8 + 4 * ((c + 31) `div` 32).
Proof.
  intros Hc. unfold bitmap_buf_size, byte_cnt. rewrite elem_cnt_ceil by lia.
  assert (0 ≤ (c + 31) `div` 32 < 2 ^ 20) by (split; [apply Z.div_pos|apply Z.div_lt_upper_bound]; lia).
  rewrite (u32_small (4 * _)) by lia. apply u32_small. lia.
Qed.

(** The bitmap of a pool takes some of its pages, but not more than it has. *)
Lemma bm_pages_bound c :
  1 ≤ c < 2 ^ 20 →
  1 ≤ DIV_ROUND_UP (bitmap_buf_size c) PGSIZE ≤ c ∧
  bitmap_buf_size c ≤ DIV_ROUND_UP (bitmap_buf_size c) PGSIZE * 4096.
Proof.
  intros Hc. rewrite buf_size_ceil by lia. unfold DIV_ROUND_UP. change PGSIZE with 4096.
  pose proof (Z.div_mod (c + 31) 32) as H1. pose proof (Z.mod_pos_bound (c + 31) 32) as H2.
  rewrite u32_small; rewrite u32_small by lia; [|lia].
  set (e := (c + 31) `div` 32) in *.
  pose proof (Z.div_mod (8 + 4 * e + 4096 - 1) 4096) as H3.
  pose proof (Z.mod_pos_bound (8 + 4 * e + 4096 - 1) 4096) as H4. lia.
Qed.

Definition words_ok (block : list Z) : Prop := Forall (λ e, 0 ≤ e < 2 ^ 32) block.

Lemma init_pool_ok b c block :
  b `mod` 4096 = 0 → PHYS_BASE ≤ b → b + 4096 * c < 2 ^ 32 → 1 ≤ c →
  words_ok block → (c + 31) `div` 32 ≤ Z.of_nat (length block) →
  ∃ p, init_pool b c block = Ok p ∧ pool_ok p ∧
    b ≤ base p ∧ base p + 4096 * bit_cnt (used_map p) = b + 4096 * c ∧
    ∀ i, 0 ≤ i < bit_cnt (used_map p) → bit (used_map p) i = false.
Proof.
  unfold PHYS_BASE. intros Hal Hb He Hc Hw Hlen. unfold init_pool.
  destruct (bm_pages_bound c) as [Hbm Hsz]; [lia|].
  set (bm := DIV_ROUND_UP _ _) in *.
  rewrite (proj2 (Z.ltb_ge c bm)) by lia. change PGSIZE with 4096.
  unfold bitmap_create_in_buf. rewrite (u32_small (bm * 4096)) by lia.
  assert (Hmono : (c - bm + 31) `div` 32 ≤ (c + 31) `div` 32) by (apply Z.div_le_mono; lia).
  rewrite (proj2 (Z.leb_le _ _)) by (rewrite buf_size_ceil in Hsz |- * by lia; lia). cbn [negb].
  assert (Hwf : wf (Bitmap (c - bm) block)).
  { split; cbn [bit_cnt bits]; [lia|rewrite elem_cnt_ceil by lia; lia|done]. }
  destruct (proj1 (wp_ok _ _ _) (wp_bitmap_set_all _ Hwf false)) as (? & b' & -> & Hwf' & Hc' & Hbit).
  cbn [bit_cnt] in *. rewrite u32_small by lia.
  eexists. split; [done|]. cbn [base used_map]. rewrite Hc'.
  split_and!; [|lia|lia|].
  - split; cbn [pool_lock used_map base]; [done|done|by rewrite Z_mod_plus_full|unfold PHYS_BASE; lia|rewrite Hc'; lia].
  - intros i Hi. rewrite Hbit by lia. rewrite (proj2 (Z.leb_le 0 i)), (proj2 (Z.ltb_lt i _)) by lia. done.
Qed.

Lemma ptov_ok p : 0 ≤ p < 2 ^ 32 - PHYS_BASE → ptov p tt = Ok (p + PHYS_BASE, tt).
Proof. intros Hp. apply wp_det_ok. by apply wp_ptov. Qed.

(** With two free pages or more and a user pool of at least one page,
    [palloc_init] gives pools in which no page is in use. *)
Lemma palloc_init_ok ram_pages limit kblock ublock (m : mem) :
  258 ≤ ram_pages < 2 ^ 18 → 1 ≤ limit →
  words_ok kblock → words_ok ublock →
  2 ^ 13 ≤ Z.of_nat (length kblock) → 2 ^ 13 ≤ Z.of_nat (length ublock) →
  mapped m (PHYS_BASE + 1048576) (4096 * (ram_pages - 256)) →
  ∃ s, palloc_init ram_pages limit kblock ublock m = Ok s ∧ pal_ok s ∧ ram s = m ∧
    ∀ w a, ¬ used w s a.
Proof.
  intros Hr Hlim Hkw Huw Hkl Hul Hm. unfold palloc_init. change PGSIZE with 4096.
  rewrite (u32_small (ram_pages * 4096)), !ptov_ok by (unfold PHYS_BASE; lia). unfold PHYS_BASE in *.
  replace ((ram_pages * 4096 + 3221225472 - (1024 * 1024 + 3221225472)) `div` 4096) with (ram_pages - 256)
    by (apply (Z.div_unique _ _ _ 0); lia).
  set (free := ram_pages - 256).
  set (u := if limit <? free `div` 2 then limit else free `div` 2).
  pose proof (Z.div_mod free 2) as H1. pose proof (Z.mod_pos_bound free 2) as H2.
  assert (Hu : 1 ≤ u ∧ 1 ≤ free - u).
  { unfold u. destruct (Z.ltb_spec limit (free `div` 2)); unfold free in *; lia. }
  rewrite u32_small by (unfold free in *; lia).
  assert (Hdiv : ∀ c, c < 2 ^ 18 → (c + 31) `div` 32 ≤ 2 ^ 13).
  { intros c Hc. assert ((c + 31) `div` 32 < 2 ^ 13 + 1); [|lia]. apply Z.div_lt_upper_bound; lia. }
  destruct (init_pool_ok (1024 * 1024 + 3221225472) (free - u) kblock) as (k & -> & Hk & Hk1 & Hk2 & Hk3);
    [done|unfold PHYS_BASE; lia|unfold free in *; lia|lia|done|etrans; [apply Hdiv; unfold free in *; lia|lia]|].
  destruct (init_pool_ok (1024 * 1024 + 3221225472 + (free - u) * 4096) u ublock) as (up & -> & Hup & Hu1 & Hu2 & Hu3);
    [by rewrite Z_mod_plus_full|unfold PHYS_BASE; lia|unfold free in *; lia|lia|done|etrans; [apply Hdiv; unfold free in *; lia|lia]|].
  eexists. split; [done|]. split; [|split; [done|]].
  - split; [by intros []|cbn [kernel_pool user_pool]; lia|].
    intros w x Hx. apply Hm. destruct w; cbn [get_pool kernel_pool user_pool] in Hx; unfold free in *; lia.
  - intros w a [(i & Hi & ->) Hbit]. destruct w; cbn [get_pool kernel_pool user_pool] in *.
    + replace ((base k + 4096 * i - base k) `div` 4096) with i in Hbit by (apply (Z.div_unique _ _ _ 0); lia).
      by rewrite Hk3 in Hbit.
    + replace ((base up + 4096 * i - base up) `div` 4096) with i in Hbit by (apply (Z.div_unique _ _ _ 0); lia).
      by rewrite Hu3 in Hbit.
Qed.

(** C28: palloc_get_multiple with a pool that has no [n] consecutive unused
    pages returns a null pointer and changes nothing (or panics, if PAL_ASSERT
    is set); otherwise it returns the aligned address of [n] pages that belong
    to the pool the flags select and were not in use, marks exactly these as in
    use, fills them with zeros if PAL_ZERO is set and leaves the rest of memory
    alone; and palloc_free_multiple then gives exactly these pages back. *)
Theorem palloc_get_free s flags n :
  pal_ok s → 0 < n →
  (palloc_get_multiple flags n s = Err EPanic ∧ Z.land flags PAL_ASSERT ≠ 0 ∧
     no_group (used_map (get_pool (pool_of flags) s)) 0 n false) ∨
  (palloc_get_multiple flags n s = Ok (0, s) ∧
     no_group (used_map (get_pool (pool_of flags) s)) 0 n false) ∨
  ∃ p s' s'', palloc_get_multiple flags n s = Ok (p, s') ∧ pal_ok s' ∧
    got (pool_of flags) s n p s' ∧ ram s' = ram_after flags n p s ∧
    palloc_free_multiple p n s' = Ok (tt, s'') ∧ pal_ok s'' ∧ ∀ w a, used w s'' a ↔ used w s a.
Proof.
  intros Hok Hn.
  assert (Hback : ∀ p s', got (pool_of flags) s n p s' → pal_ok s' →
    ∃ s'', palloc_free_multiple p n s' = Ok (tt, s'') ∧ pal_ok s'' ∧ ∀ w a, used w s'' a ↔ used w s a).
  { intros p s' Hg Hok'.
    destruct (proj1 (wp_ok _ _ _) (wp_palloc_free_multiple s' (pool_of flags) n p Hok' Hn
      (λ a Ha, proj2 (got_used _ _ _ _ _ Hg a) (or_intror Ha)))) as ([] & s'' & E & [Hf Hfr] & Hok'' & _).
    exists s''. split_and!; [done|done|]. intros w a. destruct (decide (w = pool_of flags)) as [->|Hw].
    - rewrite Hf, (got_used _ _ _ _ _ Hg). pose proof (got_new _ _ _ _ _ Hg a). tauto.
    - by rewrite Hfr, (got_frame _ _ _ _ _ Hg). }
  assert (Hget : Z.land flags PAL_ASSERT = 0 ∨ ¬ no_group (used_map (get_pool (pool_of flags) s)) 0 n false ∨
    Z.land flags PAL_ASSERT ≠ 0 ∧ no_group (used_map (get_pool (pool_of flags) s)) 0 n false).
  { destruct (proj1 (wp_ok _ _ _) (wp_take_pages s (pool_of flags) n Hok Hn))
      as (p & s' & _ & [(_ & _ & Hno)|(Hg & _)]); [|by right; left; eapply got_group].
    destruct (decide (Z.land flags PAL_ASSERT = 0)); auto. }
  apply or_assoc in Hget. destruct Hget as [Hf|[Hf Hno]]; [right|left; split_and!; [by apply palloc_panics|done..]].
  destruct (proj1 (wp_ok _ _ _) (wp_palloc_get_multiple s flags n Hok Hn Hf))
    as (p & s' & E & [(-> & -> & Hno)|(Hg & Hok' & _ & Hr)]); [by left|right].
  destruct (Hback p s' Hg Hok') as (s'' & ? & ? & ?). by exists p, s', s''.
Qed.

(** ** Witness: a pool of two kernel pages and one user page, all unused *)
Definition small_pool (n b : Z) : pool := Pool false (Bitmap n [0]) b.
Definition small_pal : pal :=
  Pal (small_pool 2 (PHYS_BASE + 4096)) (small_pool 1 (PHYS_BASE + 12288))
    (write ∅ (PHYS_BASE + 4096) (replicate (Z.to_nat 12288) 7)).

Lemma small_pal_ok : pal_ok small_pal.
Proof.
  split.
  - intros []; (split; [reflexivity|apply wfb_sound; reflexivity|reflexivity|reflexivity|vm_compute; discriminate]).
  - vm_compute. discriminate.
  - intros w x Hx. unfold small_pal. cbn [ram]. rewrite lookup_write, length_replicate.
    rewrite decide_True by (destruct w; cbn in Hx; unfold PHYS_BASE in *; lia).
    apply lookup_lt_is_Some. rewrite length_replicate. destruct w; cbn in Hx; unfold PHYS_BASE in *; lia.
Qed.

Lemma palloc_get_free_witness :
  ∃ p s' s'', palloc_get_multiple PAL_ZERO 2 small_pal = Ok (p, s') ∧ p = PHYS_BASE + 4096 ∧
    palloc_free_multiple p 2 s' = Ok (tt, s'') ∧ ∀ w a, used w s'' a ↔ used w small_pal a.
Proof.
  assert (Hp : match palloc_get_multiple PAL_ZERO 2 small_pal with Ok (q, _) => q | _ => 0 end = PHYS_BASE + 4096)
    by (vm_compute; reflexivity).
  destruct (palloc_get_free small_pal PAL_ZERO 2) as [(_ & Hf & _)|[(E & _)|(p & s' & s'' & E & _ & _ & _ & Ef & _ & Hu)]].
  - apply small_pal_ok.
  - lia.
  - destruct Hf. reflexivity.
  - rewrite E in Hp. discriminate Hp.
  - exists p, s', s''. rewrite E in Hp. split; [exact E|]. split; [exact Hp|]. split; [exact Ef|exact Hu].
Defined.
