(* ===== verification/Malloc.v ===== *)
(** * threads/malloc.c: the block allocator

    The state is the descriptors, the arena headers (by the address of their
    page) and the page allocator with the memory.  Headers and the list elements
    inside free blocks are kept apart from the byte memory: the memory is what
    the owners of blocks see.  A header is gone when its page is given back.
    Locks are seen as in Palloc.v. *)
From S2P Require Import Prelude Bitmap Mem CString Vaddr Palloc.
Local Open Scope Z_scope.

Record desc := Desc { d_block_size : Z; blocks_per_arena : Z; free_list : list Z; d_lock : bool }.
Record arena := Arena { magic : Z; a_desc : option nat; free_cnt : Z }.
Record heap := Heap { descs : list desc; arenas : gmap Z arena; pages : pal }.

Definition ARENA_MAGIC : Z := 2589232877.
(** [sizeof (struct arena)], and the length of [descs]. *)
Definition sizeof_arena : Z := 12.
Definition max_descs : nat := 10.

Definition get_desc (i : nat) : M heap desc := h ← gets id; the (descs h !! i).
Definition put_desc (i : nat) (d : desc) : M heap unit :=
  modify (λ h, Heap (<[i := d]> (descs h)) (arenas h) (pages h)).
Definition set_list (i : nat) (l : list Z) : M heap unit :=
  d ← get_desc i; put_desc i (Desc (d_block_size d) (blocks_per_arena d) l (d_lock d)).
Definition get_arena (a : Z) : M heap arena := h ← gets id; the (arenas h !! a).
Definition put_arena (a : Z) (ar : arena) : M heap unit :=
  modify (λ h, Heap (descs h) (<[a := ar]> (arenas h)) (pages h)).
Definition drop_arena (a : Z) : M heap unit :=
  modify (λ h, Heap (descs h) (delete a (arenas h)) (pages h)).
Definition on_pages {A} (m : M pal A) : M heap A :=
  zoom pages (λ p h, Heap (descs h) (arenas h) p) m.

Definition desc_acquire (i : nat) : M heap unit :=
  d ← get_desc i;
  ASSERT (negb (d_lock d)) ;;
  put_desc i (Desc (d_block_size d) (blocks_per_arena d) (free_list d) true).
Definition desc_release (i : nat) : M heap unit :=
  d ← get_desc i;
  ASSERT (d_lock d) ;;
  put_desc i (Desc (d_block_size d) (blocks_per_arena d) (free_list d) false).

Definition malloc_init : M heap unit :=
  loop max_descs (λ block_size,
    if block_size <? PGSIZE `div` 2 then
      modify (λ h, Heap (descs h ++ [Desc block_size ((PGSIZE - sizeof_arena) `div` block_size) [] false])
                        (arenas h) (pages h)) ;;
      h ← gets id;
      ASSERT (Z.of_nat (length (descs h)) <=? Z.of_nat max_descs) ;;
      mret (inl (u32 (block_size * 2)))
    else mret (inr tt)) 16.

Definition block_to_arena (b : Z) : M heap Z :=
  let a := pg_round_down b in
  ASSERT (negb (a =? 0)) ;;
  ar ← get_arena a;
  ASSERT (magic ar =? ARENA_MAGIC) ;;
  match a_desc ar with
  | None => ASSERT (pg_ofs b =? sizeof_arena) ;; mret a
  | Some i =>
      d ← get_desc i;
      ASSERT (u32 (pg_ofs b - sizeof_arena) `mod` d_block_size d =? 0) ;;
      mret a
  end.

Definition arena_to_block (a idx : Z) : M heap Z :=
  ASSERT (negb (a =? 0)) ;;
  ar ← get_arena a;
  ASSERT (magic ar =? ARENA_MAGIC) ;;
  match a_desc ar with
  | None => throw EFault
  | Some i =>
      d ← get_desc i;
      ASSERT (idx <? blocks_per_arena d) ;;
      mret (u32 (a + sizeof_arena + idx * d_block_size d))
  end.

(** The first descriptor whose blocks are large enough. *)
Fixpoint find_desc (ds : list desc) (size : Z) : option nat :=
  match ds with
  | [] => None
  | d :: r => if size <=? d_block_size d then Some O else S <$> find_desc r size
  end.

(** A new arena for descriptor [i]: [false] if there is no page for it. *)
Definition new_arena (i : nat) : M heap bool :=
  a ← on_pages (palloc_get_page 0);
  if a =? 0 then mret false
  else
    d ← get_desc i;
    put_arena a (Arena ARENA_MAGIC (Some i) (blocks_per_arena d)) ;;
    for_upto (Z.to_nat (blocks_per_arena d)) (λ k,
      b ← arena_to_block a (Z.of_nat k);
      d ← get_desc i;
      set_list i (free_list d ++ [b])) ;;
    mret true.

Definition malloc (size : Z) : M heap Z :=
  if size =? 0 then mret 0
  else
    h ← gets id;
    match find_desc (descs h) size with
    | None =>
        let page_cnt := DIV_ROUND_UP (u32 (size + sizeof_arena)) PGSIZE in
        a ← on_pages (palloc_get_multiple 0 page_cnt);
        if a =? 0 then mret 0
        else put_arena a (Arena ARENA_MAGIC None page_cnt) ;; mret (u32 (a + sizeof_arena))
    | Some i =>
        desc_acquire i ;;
        d ← get_desc i;
        ok ← (match free_list d with [] => new_arena i | _ => mret true end);
        if negb ok then desc_release i ;; mret 0
        else
          d ← get_desc i;
          match free_list d with
          | [] => throw EFault
          | b :: r =>
              set_list i r ;;
              a ← block_to_arena b;
              ar ← get_arena a;
              put_arena a (Arena (magic ar) (a_desc ar) (u32 (free_cnt ar - 1))) ;;
              desc_release i ;;
              mret b
          end
    end.

Definition calloc (a b : Z) : M heap Z :=
  let size := u32 (a * b) in
  if (size <? a) || (size <? b) then mret 0
  else
    p ← malloc size;
    (if negb (p =? 0) then on_pages (on_ram (memset p 0 size)) ;; mret tt else mret tt) ;;
    mret p.

Definition block_size (block : Z) : M heap Z :=
  a ← block_to_arena block;
  ar ← get_arena a;
  match a_desc ar with
  | Some i => d ← get_desc i; mret (d_block_size d)
  | None => mret (u32 (PGSIZE * free_cnt ar - pg_ofs block))
  end.

(** [list_remove] of a block's list element. *)
Definition remove_block (i : nat) (b : Z) : M heap unit :=
  d ← get_desc i;
  if decide (b ∈ free_list d) then set_list i (filter (λ x, x ≠ b) (free_list d))
  else throw EFault.

Definition free (p : Z) : M heap unit :=
  if negb (p =? 0) then
    a ← block_to_arena p;
    ar ← get_arena a;
    match a_desc ar with
    | Some i =>
        d ← get_desc i;
        on_pages (on_ram (memset p 204 (d_block_size d))) ;;
        desc_acquire i ;;
        d ← get_desc i;
        set_list i (p :: free_list d) ;;
        let n := u32 (free_cnt ar + 1) in
        put_arena a (Arena (magic ar) (a_desc ar) n) ;;
        (if blocks_per_arena d <=? n then
           ASSERT (n =? blocks_per_arena d) ;;
           for_upto (Z.to_nat (blocks_per_arena d)) (λ k,
             b ← arena_to_block a (Z.of_nat k);
             remove_block i b) ;;
           on_pages (palloc_free_page a) ;;
           drop_arena a
         else mret tt) ;;
        desc_release i
    | None =>
        on_pages (palloc_free_multiple a (free_cnt ar)) ;;
        drop_arena a
    end
  else mret tt.

Definition realloc (old_block new_size : Z) : M heap Z :=
  if new_size =? 0 then free old_block ;; mret 0
  else
    new_block ← malloc new_size;
    (if negb (old_block =? 0) && negb (new_block =? 0) then
       old_size ← block_size old_block;
       let min_size := if new_size <? old_size then new_size else old_size in
       on_pages (on_ram (memcpy new_block old_block min_size)) ;;
       free old_block
     else mret tt) ;;
    mret new_block.
