(* ===== verification/MallocFacts.v ===== *)
(** * Facts about the block allocator: its invariant

    A heap is given by its free lists [F], its arenas [A] and the page allocator
    [P] ([mk]); the descriptors' sizes never change.  The invariant says that
    the blocks in a free list are distinct blocks of arenas of that descriptor,
    that arenas count their free blocks, and that they own disjoint groups of
    pages in use. *)
From S2P Require Import Prelude Bitmap BitmapFacts Mem CString CStringFacts Vaddr Palloc PallocFacts Malloc.
Local Open Scope Z_scope.

(** Block size and blocks per arena of descriptor [i]. *)
Definition bsz (i : nat) : Z := 16 * 2 ^ Z.of_nat i.
Definition bpa (i : nat) : Z := 4084 `div` bsz i.
Definition block_at (a : Z) (i : nat) (k : Z) : Z := a + 12 + k * bsz i.
Definition in_page (a b : Z) : Prop := a ≤ b < a + 4096.
#[global] Instance in_page_dec a b : Decision (in_page a b).
Proof. unfold in_page. apply _. Defined.
Definition count (a : Z) (l : list Z) : Z := Z.of_nat (length (filter (in_page a) l)).
Definition blocks (a : Z) (i : nat) : list Z :=
  (λ k, block_at a i (Z.of_nat k)) <$> seq 0 (Z.to_nat (bpa i)).

Definition desc_of (lk : option nat) (i : nat) (l : list Z) : desc :=
  Desc (bsz i) (bpa i) l (bool_decide (lk = Some i)).
Definition mk (F : list (list Z)) (lk : option nat) (A : gmap Z arena) (P : pal) : heap :=
  Heap (imap (desc_of lk) F) A P.

Definition npages (ar : arena) : Z :=
  match a_desc ar with Some _ => 1 | None => free_cnt ar end.

Record arena_ok (F : list (list Z)) (P : pal) (a : Z) (ar : arena) : Prop := {
  ao_magic : magic ar = ARENA_MAGIC;
  ao_align : a `mod` 4096 = 0;
  ao_pages : 1 ≤ npages ar;
  ao_used : ∀ x, page_of a (npages ar) x → used KPool P x;
  ao_count : ∀ i, a_desc ar = Some i → ∃ l, F !! i = Some l ∧ free_cnt ar = count a l;
}.

Record hinv (F : list (list Z)) (A : gmap Z arena) (P : pal) : Prop := {
  h_len : length F = 7%nat;
  h_pal : pal_ok P;
  h_free : ∀ i l b, F !! i = Some l → b ∈ l →
    ∃ a ar k, A !! a = Some ar ∧ a_desc ar = Some i ∧ 0 ≤ k < bpa i ∧ b = block_at a i k;
  h_nodup : ∀ i l, F !! i = Some l → NoDup l;
  h_arena : ∀ a ar, A !! a = Some ar → arena_ok F P a ar;
  h_disj : ∀ a a' ar ar' x, A !! a = Some ar → A !! a' = Some ar' →
    page_of a (npages ar) x → page_of a' (npages ar') x → a = a';
}.

(** Between calls no arena of small blocks is entirely free. *)
Definition in_use (A : gmap Z arena) : Prop :=
  ∀ a ar i, A !! a = Some ar → a_desc ar = Some i → free_cnt ar < bpa i.

(** Block [b] is allocated; how large it is. *)
Definition live (F : list (list Z)) (A : gmap Z arena) (b : Z) : Prop :=
  ∃ a ar, A !! a = Some ar ∧
    match a_desc ar with
    | Some i => ∃ k l, 0 ≤ k < bpa i ∧ b = block_at a i k ∧ F !! i = Some l ∧ b ∉ l
    | None => b = a + 12
    end.
Definition capacity (A : gmap Z arena) (b : Z) : Z :=
  match A !! pg_round_down b with
  | Some ar => match a_desc ar with Some i => bsz i | None => 4096 * free_cnt ar - 12 end
  | None => 0
  end.

Section geometry.
Lemma bsz_pos i : 16 ≤ bsz i.
Proof. unfold bsz. assert (0 < 2 ^ Z.of_nat i) by lia. lia. Qed.
Lemma bpa_nonneg i : 0 ≤ bpa i.
Proof. pose proof (bsz_pos i). apply Z.div_pos; lia. Qed.

Lemma block_at_range a i k :
  0 ≤ k < bpa i → a + 12 ≤ block_at a i k ∧ block_at a i k + bsz i ≤ a + 4096.
Proof.
  intros Hk. pose proof (bsz_pos i). unfold block_at.
  pose proof (Z.mul_div_le 4084 (bsz i)). fold (bpa i) in *. nia.
Qed.
Lemma block_in_page a i k : 0 ≤ k < bpa i → in_page a (block_at a i k).
Proof. intros Hk. pose proof (block_at_range a i k Hk). pose proof (bsz_pos i). unfold in_page. lia. Qed.

Lemma block_at_inj a i k k' : block_at a i k = block_at a i k' → k = k'.
Proof. unfold block_at. pose proof (bsz_pos i). nia. Qed.

(** Different blocks of an arena do not overlap. *)
Lemma block_at_apart a i k k' :
  k ≠ k' → block_at a i k + bsz i ≤ block_at a i k' ∨ block_at a i k' + bsz i ≤ block_at a i k.
Proof. unfold block_at. pose proof (bsz_pos i). nia. Qed.

Lemma in_page_round a b :
  a `mod` 4096 = 0 → 0 ≤ a → a + 4096 ≤ 2 ^ 32 → in_page a b → pg_round_down b = a.
Proof.
  unfold in_page. intros Ha H0 Hlt Hb. rewrite pg_round_down_sub by lia.
  pose proof (Z_div_exact_full_2 a 4096 ltac:(lia) Ha).
  rewrite <- (Z.mod_unique b 4096 (a `div` 4096) (b - a)); lia.
Qed.

Lemma aligned_page_eq a a' b :
  a `mod` 4096 = 0 → a' `mod` 4096 = 0 → in_page a b → in_page a' b → a = a'.
Proof.
  unfold in_page. intros Ha Ha' H H'.
  pose proof (Z_div_exact_full_2 a 4096 ltac:(lia) Ha). pose proof (Z_div_exact_full_2 a' 4096 ltac:(lia) Ha'). lia.
Qed.

Lemma elem_of_blocks a i b : b ∈ blocks a i ↔ ∃ k, 0 ≤ k < bpa i ∧ b = block_at a i k.
Proof.
  unfold blocks. rewrite list_elem_of_fmap. split.
  - intros (k & -> & Hk%elem_of_seq). exists (Z.of_nat k). lia.
  - intros (k & Hk & ->). exists (Z.to_nat k). rewrite Z2Nat.id by lia. split; [done|].
    apply elem_of_seq. lia.
Qed.
Lemma blocks_nodup a i : NoDup (blocks a i).
Proof.
  apply NoDup_fmap_2_strong; [|apply NoDup_seq].
  intros x y _ _ H%block_at_inj. lia.
Qed.
Lemma blocks_length a i : Z.of_nat (length (blocks a i)) = bpa i.
Proof. unfold blocks. rewrite length_fmap, length_seq. pose proof (bpa_nonneg i). lia. Qed.
End geometry.

Section invariant.
Implicit Types (F : list (list Z)) (A : gmap Z arena) (P : pal).

Lemma arena_range F A P a ar :
  hinv F A P → A !! a = Some ar →
  a `mod` 4096 = 0 ∧ PHYS_BASE < a ∧ a + 4096 * npages ar ≤ 2 ^ 32 ∧ 1 ≤ npages ar ∧
  mapped (ram P) a (4096 * npages ar).
Proof.
  intros Hi Ha. destruct (h_arena _ _ _ Hi a ar Ha) as [_ Hal Hn Hu _].
  destruct (Hu a) as [(j & Hj & Ea) _]; [exists 0; lia|].
  destruct (Hu (a + 4096 * (npages ar - 1))) as [(j' & Hj' & Ea') _]; [exists (npages ar - 1); lia|].
  destruct (pa_pool _ (h_pal _ _ _ Hi) KPool) as [_ _ _ Hb He].
  pose proof (pa_ram _ (h_pal _ _ _ Hi) KPool) as Hm.
  split_and!; [done|lia|lia|done|]. intros x Hx. apply Hm. lia.
Qed.

Lemma arena_page F A P a ar b :
  hinv F A P → A !! a = Some ar → in_page a b → pg_round_down b = a.
Proof.
  intros Hi Ha Hb. destruct (arena_range F A P a ar Hi Ha) as (Hal & Hlo & Hhi & Hn & _).
  unfold PHYS_BASE in Hlo. apply in_page_round; [done|lia|lia|done].
Qed.

(** The free blocks in a page are blocks of its arena. *)
Lemma free_in_page F A P a ar i l b :
  hinv F A P → A !! a = Some ar → F !! i = Some l → b ∈ l → in_page a b →
  a_desc ar = Some i ∧ b ∈ blocks a i.
Proof.
  intros Hi Ha Hl Hb Hp. destruct (h_free _ _ _ Hi i l b Hl Hb) as (a' & ar' & k & Ha' & Hd & Hk & ->).
  assert (a' = a) as ->.
  { pose proof (arena_page _ _ _ _ _ _ Hi Ha Hp). symmetry. rewrite <- H.
    eapply arena_page; [done..|]. by apply block_in_page. }
  rewrite Ha in Ha'. injection Ha' as ->. split; [done|]. apply elem_of_blocks. eauto.
Qed.

Lemma free_sub_blocks F A P a ar i l :
  hinv F A P → A !! a = Some ar → F !! i = Some l → filter (in_page a) l ⊆+ blocks a i.
Proof.
  intros Hi Ha Hl. apply NoDup_submseteq; [apply NoDup_filter, (h_nodup _ _ _ Hi i l Hl)|].
  intros b [Hp Hb]%list_elem_of_filter. by eapply free_in_page.
Qed.

Lemma count_le F A P a ar i l :
  hinv F A P → A !! a = Some ar → F !! i = Some l → 0 ≤ count a l ≤ bpa i.
Proof.
  intros Hi Ha Hl. pose proof (submseteq_length _ _ (free_sub_blocks _ _ _ _ _ _ _ Hi Ha Hl)).
  pose proof (blocks_length a i). unfold count. lia.
Qed.

(** An arena with as many free blocks as blocks has all of them in the list. *)
Lemma all_free F A P a ar i l :
  hinv F A P → A !! a = Some ar → F !! i = Some l → count a l = bpa i →
  ∀ b, b ∈ blocks a i → b ∈ l.
Proof.
  intros Hi Ha Hl Hc b Hb.
  assert (Hp : filter (in_page a) l ≡ₚ blocks a i).
  { apply submseteq_length_Permutation; [by eapply free_sub_blocks|].
    pose proof (blocks_length a i). unfold count in Hc. lia. }
  rewrite <- Hp in Hb. by apply list_elem_of_filter in Hb as [_ ?].
Qed.

Lemma count_ext a l l' :
  NoDup l → NoDup l' → (∀ x, in_page a x → x ∈ l ↔ x ∈ l') → count a l = count a l'.
Proof.
  intros Hl Hl' Hx. unfold count. f_equal. apply Permutation_length, NoDup_Permutation; [by apply NoDup_filter..|].
  intros x. rewrite !list_elem_of_filter. specialize (Hx x). tauto.
Qed.

(** Changing the free blocks of one arena. *)
Lemma relist F A P a ar i l l' :
  hinv F A P → A !! a = Some ar → a_desc ar = Some i → F !! i = Some l → NoDup l' →
  (∀ x, ¬ in_page a x → x ∈ l' ↔ x ∈ l) →
  (∀ x, in_page a x → x ∈ l' → x ∈ blocks a i) →
  hinv (<[i := l']> F) (<[a := Arena (magic ar) (Some i) (count a l')]> A) P.
Proof.
  intros Hi Ha Hd Hl Hnd Hout Hin. pose proof (lookup_lt_Some _ _ _ Hl) as Hlt.
  assert (Hpage : ∀ a' ar', A !! a' = Some ar' → a' ≠ a → ∀ x, in_page a' x → ¬ in_page a x).
  { intros a' ar' Ha' Hne x H1 H2. apply Hne. by rewrite <- (arena_page _ _ _ _ _ _ Hi Ha' H1),
      (arena_page _ _ _ _ _ _ Hi Ha H2). }
  assert (Hnp : npages (Arena (magic ar) (Some i) (count a l')) = npages ar) by (unfold npages; by rewrite Hd).
  split.
  - rewrite length_insert. apply (h_len _ _ _ Hi).
  - apply (h_pal _ _ _ Hi).
  - intros j m b Hm Hb. destruct (decide (in_page a b)) as [Hp|Hp].
    + destruct (decide (j = i)) as [->|Hj].
      * rewrite list_lookup_insert_eq in Hm by done. injection Hm as <-.
        apply Hin, elem_of_blocks in Hb as (k & Hk & ->); [|done].
        exists a, (Arena (magic ar) (Some i) (count a l')), k. by rewrite lookup_insert_eq.
      * rewrite list_lookup_insert_ne in Hm by done.
        destruct (free_in_page _ _ _ _ _ _ _ _ Hi Ha Hm Hb Hp) as [Hd' _]. congruence.
    + assert (∃ m', F !! j = Some m' ∧ b ∈ m') as (m' & Hm' & Hb').
      { destruct (decide (j = i)) as [->|Hj]; [|rewrite list_lookup_insert_ne in Hm by done; eauto].
        rewrite list_lookup_insert_eq in Hm by done. injection Hm as <-. exists l. split; [done|]. by apply Hout. }
      destruct (h_free _ _ _ Hi j m' b Hm' Hb') as (a' & ar' & k & Ha' & Hd' & Hk & ->).
      exists a', ar', k. rewrite lookup_insert_ne; [done|]. intros <-. apply Hp. by apply block_in_page.
  - intros j m Hm. destruct (decide (j = i)) as [->|Hj].
    + rewrite list_lookup_insert_eq in Hm by done. by injection Hm as <-.
    + rewrite list_lookup_insert_ne in Hm by done. by apply (h_nodup _ _ _ Hi j).
  - intros a' ar' [[<- <-]|[Hne Ha']]%lookup_insert_Some.
    + destruct (h_arena _ _ _ Hi a ar Ha) as [? ? ? ? _].
      split; rewrite ?Hnp; try done. intros j [= <-]. exists l'. by rewrite list_lookup_insert_eq.
    + destruct (h_arena _ _ _ Hi a' ar' Ha') as [? ? ? ? Hc]. split; try done.
      intros j Hj. destruct (Hc j Hj) as (m & Hm & Hcnt). destruct (decide (j = i)) as [->|Hji].
      * exists l'. rewrite list_lookup_insert_eq by done. split; [done|]. rewrite Hcnt.
        rewrite Hl in Hm. injection Hm as <-. apply count_ext; [by apply (h_nodup _ _ _ Hi i)|done|].
        intros x Hx. symmetry. apply Hout. by eapply Hpage.
      * exists m. by rewrite list_lookup_insert_ne by done.
  - assert (Hold : ∀ a' ar' x, <[a:=Arena (magic ar) (Some i) (count a l')]> A !! a' = Some ar' →
      page_of a' (npages ar') x → ∃ ar'', A !! a' = Some ar'' ∧ page_of a' (npages ar'') x).
    { intros a' ar' x [[<- <-]|[Hne Ha']]%lookup_insert_Some Hx; [|eauto]. rewrite Hnp in Hx. eauto. }
    intros a1 a2 ar1 ar2 x H1 H2 Hx1 Hx2.
    destruct (Hold _ _ _ H1 Hx1) as (? & ? & ?), (Hold _ _ _ H2 Hx2) as (? & ? & ?).
    by eapply (h_disj _ _ _ Hi).
Qed.

Lemma hinv_pal F A P P' :
  hinv F A P → pal_ok P' → (∀ x, used KPool P x → used KPool P' x) → hinv F A P'.
Proof.
  intros [] Hok Hu. split; try done. intros a ar Ha. destruct (h_arena0 a ar Ha).
  split; try done. auto.
Qed.

(** A new arena, none of whose blocks is in a list. *)
Lemma add_arena F A P P' a ar :
  hinv F A P → pal_ok P' → got KPool P (npages ar) a P' →
  magic ar = ARENA_MAGIC → 1 ≤ npages ar →
  (∀ i, a_desc ar = Some i → (i < 7)%nat ∧ free_cnt ar = 0) →
  hinv F (<[a := ar]> A) P' ∧ A !! a = None.
Proof.
  intros Hi Hok Hg Hm Hn Hd.
  assert (Hfresh : ∀ a' ar' x, A !! a' = Some ar' → page_of a' (npages ar') x → ¬ page_of a (npages ar) x).
  { intros a' ar' x Ha' Hx Hx'. apply (got_new _ _ _ _ _ Hg) in Hx' as [_ Hnu]. apply Hnu.
    by apply (ao_used _ _ _ _ (h_arena _ _ _ Hi a' ar' Ha')). }
  assert (Hno : A !! a = None).
  { destruct (A !! a) as [ar'|] eqn:Ha; [|done]. exfalso. apply (Hfresh a ar' a Ha); [|exists 0; lia].
    pose proof (ao_pages _ _ _ _ (h_arena _ _ _ Hi a ar' Ha)). exists 0. lia. }
  split; [|done]. split; try done.
  - apply (h_len _ _ _ Hi).
  - intros i l b Hl Hb. destruct (h_free _ _ _ Hi i l b Hl Hb) as (a' & ar' & k & Ha' & ?).
    exists a', ar', k. rewrite lookup_insert_ne; [done|]. congruence.
  - apply (h_nodup _ _ _ Hi).
  - intros a' ar' [[<- <-]|[Hne Ha']]%lookup_insert_Some.
    + split; [done|apply (got_align _ _ _ _ _ Hg)|done| |].
      * intros x Hx. apply (got_used _ _ _ _ _ Hg). by right.
      * intros i Hai. destruct (Hd i Hai) as [Hlt ->].
        destruct (lookup_lt_is_Some_2 F i) as [l Hl]; [by rewrite (h_len _ _ _ Hi)|].
        exists l. split; [done|]. unfold count.
        replace (filter (in_page a) l) with (@nil Z); [done|]. symmetry.
        apply elem_of_nil_inv. intros b [Hp Hb]%list_elem_of_filter.
        destruct (h_free _ _ _ Hi i l b Hl Hb) as (a' & ar' & k & Ha' & Hd' & Hk & ->).
        assert (a' = a) as ->; [|congruence].
        destruct (arena_range _ _ _ _ _ Hi Ha') as (Hal' & _).
        eapply aligned_page_eq; [done|apply (got_align _ _ _ _ _ Hg)|by apply block_in_page|done].
    + destruct (h_arena _ _ _ Hi a' ar' Ha') as [? ? ? Hu Hc]. split; try done.
      intros x Hx. apply (got_used _ _ _ _ _ Hg). left. auto.
  - intros a1 a2 ar1 ar2 x [[<- <-]|[Hn1 H1]]%lookup_insert_Some [[<- <-]|[Hn2 H2]]%lookup_insert_Some Hx1 Hx2;
      [done| | |by eapply (h_disj _ _ _ Hi)]; exfalso; by eapply Hfresh.
Qed.

(** Giving up an arena none of whose blocks is in a list. *)
Lemma delete_arena F A P P' a ar :
  hinv F A P → A !! a = Some ar → pal_ok P' → freed KPool P (npages ar) a P' →
  (∀ i l b, F !! i = Some l → b ∈ l → ¬ in_page a b) →
  hinv F (delete a A) P'.
Proof.
  intros Hi Ha Hok Hf Hno. split; try done.
  - apply (h_len _ _ _ Hi).
  - intros i l b Hl Hb. destruct (h_free _ _ _ Hi i l b Hl Hb) as (a' & ar' & k & Ha' & Hd & Hk & ->).
    exists a', ar', k. rewrite lookup_delete_ne; [done|]. intros <-.
    apply (Hno i l _ Hl Hb). by apply block_in_page.
  - apply (h_nodup _ _ _ Hi).
  - intros a' ar' [Hne Ha']%lookup_delete_Some. destruct (h_arena _ _ _ Hi a' ar' Ha') as [? ? ? Hu Hc].
    split; try done. intros x Hx. apply (freed_used _ _ _ _ _ Hf). split; [auto|].
    intros Hx'. apply Hne. by eapply (h_disj _ _ _ Hi).
  - intros a1 a2 ar1 ar2 x [_ H1]%lookup_delete_Some [_ H2]%lookup_delete_Some. by eapply (h_disj _ _ _ Hi).
Qed.
End invariant.

(** ** The operations of the block allocator

    Live blocks are disjoint; what malloc and free do to the set of live blocks,
    their sizes and their contents. *)

Section live_blocks.
Implicit Types (F : list (list Z)) (A : gmap Z arena) (P : pal).

Lemma capacity_small A a ar i b :
  A !! a = Some ar → a_desc ar = Some i → pg_round_down b = a → capacity A b = bsz i.
Proof. intros Ha Hd Hb. unfold capacity. by rewrite Hb, Ha, Hd. Qed.
Lemma capacity_big A a ar b :
  A !! a = Some ar → a_desc ar = None → pg_round_down b = a → capacity A b = 4096 * free_cnt ar - 12.
Proof. intros Ha Hd Hb. unfold capacity. by rewrite Hb, Ha, Hd. Qed.

(** A live block lies inside its arena, behind the header. *)
Lemma live_extent F A P b :
  hinv F A P → live F A b →
  ∃ a ar, A !! a = Some ar ∧ in_page a b ∧ pg_round_down b = a ∧
    a + 12 ≤ b ∧ b + capacity A b ≤ a + 4096 * npages ar ∧ 16 ≤ capacity A b.
Proof.
  intros Hi (a & ar & Ha & Hb). exists a, ar.
  destruct (arena_range _ _ _ _ _ Hi Ha) as (_ & _ & _ & Hn & _).
  destruct (a_desc ar) as [i|] eqn:Hd.
  - destruct Hb as (k & l & Hk & -> & _).
    pose proof (block_in_page a i k Hk) as Hp. pose proof (arena_page _ _ _ _ _ _ Hi Ha Hp) as Hr.
    rewrite (capacity_small A a ar i) by done. pose proof (block_at_range a i k Hk). pose proof (bsz_pos i).
    split_and!; try done; lia.
  - subst b. assert (Hp : in_page a (a + 12)) by (unfold in_page; lia).
    pose proof (arena_page _ _ _ _ _ _ Hi Ha Hp) as Hr. rewrite (capacity_big A a ar) by done.
    unfold npages in *. rewrite Hd in *. split_and!; try done; lia.
Qed.

Lemma arenas_apart F A P a a' ar ar' :
  hinv F A P → A !! a = Some ar → A !! a' = Some ar' → a ≠ a' →
  a + 4096 * npages ar ≤ a' ∨ a' + 4096 * npages ar' ≤ a.
Proof.
  intros Hi Ha Ha' Hne.
  destruct (arena_range _ _ _ _ _ Hi Ha) as (Hal & _ & _ & Hn & _).
  destruct (arena_range _ _ _ _ _ Hi Ha') as (Hal' & _ & _ & Hn' & _).
  pose proof (Z_div_exact_full_2 a 4096 ltac:(lia) Hal).
  pose proof (Z_div_exact_full_2 a' 4096 ltac:(lia) Hal').
  destruct (decide (a + 4096 * npages ar ≤ a')); [by left|].
  destruct (decide (a' + 4096 * npages ar' ≤ a)); [by right|]. destruct Hne.
  destruct (Z.le_ge_cases a a').
  - eapply (h_disj _ _ _ Hi a a' ar ar' a'); [done..| |exists 0; lia].
    exists (a' `div` 4096 - a `div` 4096). lia.
  - eapply (h_disj _ _ _ Hi a a' ar ar' a); [done..|exists 0; lia|].
    exists (a `div` 4096 - a' `div` 4096). lia.
Qed.

(** Live blocks do not overlap. *)
Lemma live_apart F A P b b' :
  hinv F A P → live F A b → live F A b' → b ≠ b' →
  b + capacity A b ≤ b' ∨ b' + capacity A b' ≤ b.
Proof.
  intros Hi Hb Hb' Hne.
  destruct (live_extent _ _ _ _ Hi Hb) as (a & ar & Ha & _ & Hr & Hlo & Hhi & _).
  destruct (live_extent _ _ _ _ Hi Hb') as (a' & ar' & Ha' & _ & Hr' & Hlo' & Hhi' & _).
  destruct (decide (a = a')) as [<-|Haa].
  - rewrite Ha in Ha'. injection Ha' as <-.
    destruct Hb as (a1 & ar1 & H1 & Hb), Hb' as (a2 & ar2 & H2 & Hb').
    assert (Hsame : ∀ a1 ar1 b1, A !! a1 = Some ar1 → pg_round_down b1 = a →
      in_page a1 b1 → a1 = a ∧ ar1 = ar).
    { intros a3 ar3 b3 H3 Hr3 Hp3. pose proof (arena_page _ _ _ _ _ _ Hi H3 Hp3). split; congruence. }
    assert (Hin : ∀ a3 ar3 b3, A !! a3 = Some ar3 → match a_desc ar3 with
      | Some i => ∃ k l, 0 ≤ k < bpa i ∧ b3 = block_at a3 i k ∧ F !! i = Some l ∧ b3 ∉ l
      | None => b3 = a3 + 12 end → in_page a3 b3).
    { intros a3 ar3 b3 _. destruct (a_desc ar3); [intros (k & l & Hk & -> & _); by apply block_in_page|].
      intros ->. unfold in_page. lia. }
    destruct (Hsame a1 ar1 b H1 Hr (Hin _ _ _ H1 Hb)) as [-> ->].
    destruct (Hsame a2 ar2 b' H2 Hr' (Hin _ _ _ H2 Hb')) as [-> ->].
    destruct (a_desc ar) as [i|] eqn:Hd; [|congruence].
    rewrite !(capacity_small A a ar i) by done.
    destruct Hb as (k & _ & _ & -> & _), Hb' as (k' & _ & _ & -> & _). apply block_at_apart. congruence.
  - destruct (arenas_apart _ _ _ _ _ _ _ Hi Ha Ha' Haa); lia.
Qed.

(** In the page of an arena of small blocks, what is not free is live. *)
Lemma live_in_page F A P a ar i l x :
  hinv F A P → A !! a = Some ar → a_desc ar = Some i → F !! i = Some l → in_page a x →
  live F A x ↔ x ∈ blocks a i ∧ x ∉ l.
Proof.
  intros Hi Ha Hd Hl Hp. rewrite elem_of_blocks. split.
  - intros (a' & ar' & Ha' & Hx).
    assert (in_page a' x) as Hp'.
    { destruct (a_desc ar'); [destruct Hx as (k & ? & ? & -> & _); by apply block_in_page|].
      subst. unfold in_page. lia. }
    pose proof (arena_page _ _ _ _ _ _ Hi Ha Hp). pose proof (arena_page _ _ _ _ _ _ Hi Ha' Hp').
    assert (a' = a) as -> by congruence. rewrite Ha in Ha'. injection Ha' as <-. rewrite Hd in Hx.
    destruct Hx as (k & l' & Hk & -> & Hl' & Hn). rewrite Hl in Hl'. injection Hl' as <-. eauto.
  - intros [(k & Hk & ->) Hn]. exists a, ar. split; [done|]. rewrite Hd. by exists k, l.
Qed.

(** ... and elsewhere the list of one arena does not matter. *)
Lemma live_elsewhere F A P a ar i l l' m n x :
  hinv F A P → A !! a = Some ar → a_desc ar = Some i → F !! i = Some l →
  (∀ x, ¬ in_page a x → x ∈ l' ↔ x ∈ l) → ¬ in_page a x →
  live (<[i := l']> F) (<[a := Arena m (Some i) n]> A) x ↔ live F A x.
Proof.
  intros Hi Ha Hd Hl Hout Hp. pose proof (lookup_lt_Some _ _ _ Hl) as Hlt.
  assert (Hlist : ∀ j, (∃ l0, <[i:=l']> F !! j = Some l0 ∧ x ∉ l0) ↔ (∃ l0, F !! j = Some l0 ∧ x ∉ l0)).
  { intros j. destruct (decide (j = i)) as [->|]; [|by rewrite list_lookup_insert_ne].
    rewrite list_lookup_insert_eq by done. rewrite Hl. specialize (Hout x Hp). naive_solver. }
  split; intros (a' & ar' & Ha' & Hx).
  - apply lookup_insert_Some in Ha' as [[<- <-]|[Hne Ha']].
    { destruct Hx as (k & ? & Hk & -> & _). destruct Hp. by apply block_in_page. }
    exists a', ar'. split; [done|]. destruct (a_desc ar') as [j|]; [|done].
    destruct Hx as (k & l0 & Hk & -> & Hx). destruct (proj1 (Hlist j)) as (l1 & ? & ?); [eauto|]. by exists k, l1.
  - assert (a' ≠ a).
    { intros ->. rewrite Ha in Ha'. injection Ha' as <-. rewrite Hd in Hx.
      destruct Hx as (k & ? & Hk & -> & _). destruct Hp. by apply block_in_page. }
    exists a', ar'. rewrite lookup_insert_ne by done. split; [done|]. destruct (a_desc ar') as [j|]; [|done].
    destruct Hx as (k & l0 & Hk & -> & Hx). destruct (proj2 (Hlist j)) as (l1 & ? & ?); [eauto|]. by exists k, l1.
Qed.

Lemma capacity_relist A a ar i m n x :
  A !! a = Some ar → a_desc ar = Some i → capacity (<[a := Arena m (Some i) n]> A) x = capacity A x.
Proof.
  intros Ha Hd. unfold capacity. destruct (decide (pg_round_down x = a)) as [->|].
  - by rewrite lookup_insert_eq, Ha, Hd.
  - by rewrite lookup_insert_ne.
Qed.

(** Taking block [b] off the list. *)
Lemma pop_block F A P a ar i l b :
  hinv F A P → A !! a = Some ar → a_desc ar = Some i → F !! i = Some (b :: l) → in_page a b →
  hinv (<[i := l]> F) (<[a := Arena (magic ar) (Some i) (free_cnt ar - 1)]> A) P ∧
  ¬ live F A b ∧
  (∀ x, live (<[i := l]> F) (<[a := Arena (magic ar) (Some i) (free_cnt ar - 1)]> A) x ↔ live F A x ∨ x = b) ∧
  1 ≤ free_cnt ar.
Proof.
  intros Hi Ha Hd Hl Hp.
  pose proof (h_nodup _ _ _ Hi _ _ Hl) as [Hni Hnd]%NoDup_cons.
  destruct (free_in_page _ _ _ _ _ _ _ _ Hi Ha Hl ltac:(left) Hp) as [_ Hbl].
  assert (Hcnt : free_cnt ar = count a l + 1).
  { destruct (ao_count _ _ _ _ (h_arena _ _ _ Hi a ar Ha) i Hd) as (l0 & Hl0 & ->).
    rewrite Hl in Hl0. injection Hl0 as <-. unfold count. rewrite filter_cons_True by done. simpl. lia. }
  assert (Hout : ∀ x, ¬ in_page a x → x ∈ l ↔ x ∈ b :: l).
  { intros x Hx. rewrite elem_of_cons. split; [auto|intros [->|]; done]. }
  replace (free_cnt ar - 1) with (count a l) by lia.
  assert (Hi' : hinv (<[i := l]> F) (<[a := Arena (magic ar) (Some i) (count a l)]> A) P).
  { eapply relist; [done..|]. intros x Hx Hin. eapply free_in_page; [done..|by right|done]. }
  split_and!; [done| | |unfold count in *; lia].
  - rewrite live_in_page by done. intros [_ []]. left.
  - intros x. destruct (decide (in_page a x)) as [Hx|Hx].
    + rewrite (live_in_page _ _ _ a (Arena (magic ar) (Some i) (count a l)) i l x Hi'); [|by rewrite lookup_insert_eq|done|
        apply list_lookup_insert_eq; by eapply lookup_lt_Some|done].
      rewrite (live_in_page F A P a ar i (b :: l)) by done. rewrite elem_of_cons.
      destruct (decide (x = b)) as [->|]; naive_solver.
    + rewrite (live_elsewhere F A P a ar i (b :: l) l) by done. naive_solver.
Qed.

(** Putting live block [b] on the list. *)
Lemma push_block F A P a ar i l b :
  hinv F A P → A !! a = Some ar → a_desc ar = Some i → F !! i = Some l → in_page a b → live F A b →
  hinv (<[i := b :: l]> F) (<[a := Arena (magic ar) (Some i) (free_cnt ar + 1)]> A) P ∧
  (∀ x, live (<[i := b :: l]> F) (<[a := Arena (magic ar) (Some i) (free_cnt ar + 1)]> A) x ↔ live F A x ∧ x ≠ b) ∧
  free_cnt ar + 1 = count a (b :: l).
Proof.
  intros Hi Ha Hd Hl Hp Hlive.
  pose proof (h_nodup _ _ _ Hi _ _ Hl) as Hnd.
  apply (live_in_page _ _ _ _ _ _ _ _ Hi Ha Hd Hl Hp) in Hlive as [Hbl Hni].
  assert (Hcnt : free_cnt ar + 1 = count a (b :: l)).
  { destruct (ao_count _ _ _ _ (h_arena _ _ _ Hi a ar Ha) i Hd) as (l0 & Hl0 & ->).
    rewrite Hl in Hl0. injection Hl0 as <-. unfold count. rewrite filter_cons_True by done. simpl. lia. }
  assert (Hout : ∀ x, ¬ in_page a x → x ∈ b :: l ↔ x ∈ l).
  { intros x Hx. rewrite elem_of_cons. split; [intros [->|]; done|auto]. }
  rewrite Hcnt.
  assert (Hi' : hinv (<[i := b :: l]> F) (<[a := Arena (magic ar) (Some i) (count a (b :: l))]> A) P).
  { eapply relist; [done..|by apply NoDup_cons|done|].
    intros x Hx [->|Hin]%elem_of_cons; [done|]. by eapply free_in_page. }
  split_and!; [done| |done].
  intros x. destruct (decide (in_page a x)) as [Hx|Hx].
  + rewrite (live_in_page _ _ _ a (Arena (magic ar) (Some i) (count a (b :: l))) i (b :: l) x Hi'); [|by rewrite lookup_insert_eq|done|
      apply list_lookup_insert_eq; by eapply lookup_lt_Some|done].
    rewrite (live_in_page F A P a ar i l) by done. rewrite not_elem_of_cons. tauto.
  + rewrite (live_elsewhere F A P a ar i l (b :: l)) by done. naive_solver.
Qed.
End live_blocks.

(** ** The primitives on a heap [mk F lk A P] *)
Section primitives.
Implicit Types (F : list (list Z)) (lk : option nat) (A : gmap Z arena) (P : pal).

Lemma desc_lookup F lk i l : F !! i = Some l → imap (desc_of lk) F !! i = Some (desc_of lk i l).
Proof. intros H. rewrite list_lookup_imap, H. done. Qed.

Lemma wp_get_desc F lk A P i l (Q : desc → heap → Prop) :
  F !! i = Some l → Q (desc_of lk i l) (mk F lk A P) → wp (get_desc i) (mk F lk A P) Q.
Proof. intros Hl HQ. unfold get_desc, id. wp_steps. eapply wp_the; [by apply desc_lookup|done]. Qed.

Lemma imap_set F lk lk' i l l' :
  F !! i = Some l → (∀ j, j ≠ i → bool_decide (lk = Some j) = bool_decide (lk' = Some j)) →
  <[i := desc_of lk' i l']> (imap (desc_of lk) F) = imap (desc_of lk') (<[i := l']> F).
Proof.
  intros Hl Hlk. pose proof (lookup_lt_Some _ _ _ Hl) as Hlt. apply list_eq. intros j.
  rewrite list_lookup_imap. destruct (decide (j = i)) as [->|Hj].
  - rewrite !list_lookup_insert_eq; [done|done|by rewrite length_imap].
  - rewrite !list_lookup_insert_ne, list_lookup_imap by done.
    destruct (F !! j); [|done]. cbn. unfold desc_of. by rewrite Hlk.
Qed.

Lemma wp_set_list F lk A P i l l' (Q : unit → heap → Prop) :
  F !! i = Some l → Q tt (mk (<[i := l']> F) lk A P) → wp (set_list i l') (mk F lk A P) Q.
Proof.
  intros Hl HQ. unfold set_list. wp_step. eapply wp_get_desc; [done|]. unfold put_desc. wp_step.
  cbn [mk descs arenas pages]. change (Desc _ _ _ _) with (desc_of lk i l').
  rewrite (imap_set F lk lk i l l') by done. done.
Qed.

Lemma wp_desc_acquire F A P i l (Q : unit → heap → Prop) :
  F !! i = Some l → Q tt (mk F (Some i) A P) → wp (desc_acquire i) (mk F None A P) Q.
Proof.
  intros Hl HQ. unfold desc_acquire. wp_step. eapply wp_get_desc; [done|]. wp_step.
  apply wp_assert; [done|]. unfold put_desc. wp_step. cbn [mk descs arenas pages].
  replace (Desc _ _ _ _) with (desc_of (Some i) i l) by (unfold desc_of; cbn; by rewrite bool_decide_true).
  rewrite (imap_set F None (Some i) i l l), list_insert_id by
    (done || intros j Hj; rewrite !bool_decide_false; congruence). done.
Qed.

Lemma wp_desc_release F A P i l (Q : unit → heap → Prop) :
  F !! i = Some l → Q tt (mk F None A P) → wp (desc_release i) (mk F (Some i) A P) Q.
Proof.
  intros Hl HQ. unfold desc_release. wp_step. eapply wp_get_desc; [done|]. wp_step.
  apply wp_assert; [cbn; by rewrite bool_decide_true|]. unfold put_desc. wp_step. cbn [mk descs arenas pages].
  change (Desc _ _ _ _) with (desc_of None i l).
  rewrite (imap_set F (Some i) None i l l), list_insert_id by
    (done || intros j Hj; rewrite !bool_decide_false; congruence). done.
Qed.

Lemma wp_get_arena F lk A P a ar (Q : arena → heap → Prop) :
  A !! a = Some ar → Q ar (mk F lk A P) → wp (get_arena a) (mk F lk A P) Q.
Proof. intros Ha HQ. unfold get_arena, id. wp_steps. by eapply wp_the. Qed.

(** An address that can be the page of an arena. *)
Definition arena_addr (a : Z) : Prop := a `mod` 4096 = 0 ∧ PHYS_BASE < a ∧ a + 4096 ≤ 2 ^ 32.

Lemma hinv_addr F A P a ar : hinv F A P → A !! a = Some ar → arena_addr a.
Proof.
  intros Hi Ha. destruct (arena_range _ _ _ _ _ Hi Ha) as (? & ? & ? & ? & _).
  split_and!; [done..|lia].
Qed.

Lemma wp_block_to_arena F lk A P a ar i l b (Q : Z → heap → Prop) :
  arena_addr a → A !! a = Some ar → magic ar = ARENA_MAGIC → a_desc ar = Some i → F !! i = Some l →
  b ∈ blocks a i → Q a (mk F lk A P) → wp (block_to_arena b) (mk F lk A P) Q.
Proof.
  intros (Hal & Hlo & Hhi) Ha Hm Hd Hl (k & Hk & ->)%elem_of_blocks HQ.
  pose proof (block_in_page a i k Hk) as Hp. pose proof (block_at_range a i k Hk). unfold PHYS_BASE in Hlo.
  unfold block_to_arena. rewrite (in_page_round a) by (done || lia).
  wp_step. apply wp_assert; [rewrite (proj2 (Z.eqb_neq a 0)); [done|lia]|].
  wp_step. eapply wp_get_arena; [done|]. wp_step. apply wp_assert; [by apply Z.eqb_eq|]. rewrite Hd.
  wp_step. eapply wp_get_desc; [done|]. wp_step. apply wp_assert; [|wp_step; done].
  apply Z.eqb_eq. unfold sizeof_arena. cbn [d_block_size desc_of]. pose proof (bsz_pos i).
  assert (Hofs : pg_ofs (block_at a i k) = 12 + k * bsz i).
  { rewrite pg_ofs_mod. unfold block_at in *. unfold in_page in Hp.
    pose proof (Z_div_exact_full_2 a 4096 ltac:(lia) Hal).
    symmetry. apply (Z.mod_unique _ _ (a `div` 4096)); lia. }
  rewrite Hofs. replace (12 + k * bsz i - 12) with (k * bsz i) by lia.
  rewrite u32_small by (unfold block_at, in_page in *; lia). apply Z_mod_mult.
Qed.

Lemma wp_block_to_arena_big F lk A P a ar (Q : Z → heap → Prop) :
  arena_addr a → A !! a = Some ar → magic ar = ARENA_MAGIC → a_desc ar = None →
  Q a (mk F lk A P) → wp (block_to_arena (a + 12)) (mk F lk A P) Q.
Proof.
  intros (Hal & Hlo & Hhi) Ha Hm Hd HQ. unfold PHYS_BASE in Hlo.
  unfold block_to_arena. rewrite (in_page_round a) by (done || lia || unfold in_page; lia).
  wp_step. apply wp_assert; [rewrite (proj2 (Z.eqb_neq a 0)); [done|lia]|].
  wp_step. eapply wp_get_arena; [done|]. wp_step. apply wp_assert; [by apply Z.eqb_eq|]. rewrite Hd.
  wp_step. apply wp_assert; [|wp_step; done]. apply Z.eqb_eq. rewrite pg_ofs_mod.
  pose proof (Z_div_exact_full_2 a 4096 ltac:(lia) Hal). symmetry.
  apply (Z.mod_unique _ _ (a `div` 4096)); unfold sizeof_arena; lia.
Qed.

Lemma wp_arena_to_block F lk A P a ar i l k (Q : Z → heap → Prop) :
  arena_addr a → A !! a = Some ar → magic ar = ARENA_MAGIC → a_desc ar = Some i → F !! i = Some l →
  0 ≤ k < bpa i → Q (block_at a i k) (mk F lk A P) → wp (arena_to_block a k) (mk F lk A P) Q.
Proof.
  intros (Hal & Hlo & Hhi) Ha Hm Hd Hl Hk HQ. pose proof (block_at_range a i k Hk). pose proof (bsz_pos i).
  unfold PHYS_BASE in Hlo. unfold arena_to_block.
  wp_step. apply wp_assert; [rewrite (proj2 (Z.eqb_neq a 0)); [done|lia]|].
  wp_step. eapply wp_get_arena; [done|]. wp_step. apply wp_assert; [by apply Z.eqb_eq|]. rewrite Hd.
  wp_step. eapply wp_get_desc; [done|]. wp_step. apply wp_assert; [apply Z.ltb_lt; cbn; lia|].
  wp_step. cbn [d_block_size desc_of]. unfold sizeof_arena. fold (block_at a i k). by rewrite u32_small by lia.
Qed.

Lemma find_desc_spec F lk size :
  length F = 7%nat →
  match find_desc (imap (desc_of lk) F) size with
  | Some i => (i < 7)%nat ∧ size ≤ bsz i
  | None => 1024 < size
  end.
Proof.
  intros HF. destruct F as [|? [|? [|? [|? [|? [|? [|? [|? ?]]]]]]]]; try done.
  cbn [imap find_desc desc_of d_block_size fmap option_fmap option_map compose].
  repeat match goal with
  | |- context [size <=? bsz ?i] => destruct (Z.leb_spec size (bsz i)) as [?|?]; [split; [lia|done]|]
  end. done.
Qed.
End primitives.
