(* ===== verification/MallocWp.v ===== *)
(** * malloc and free keep the heap invariant

    Specifications of [malloc] and [free] over the whole heap. *)
From S2P Require Import Prelude Bitmap BitmapFacts Mem CString CStringFacts Vaddr Palloc PallocFacts Malloc MallocFacts.
Local Open Scope Z_scope.

Section programs.
Implicit Types (F : list (list Z)) (lk : option nat) (A : gmap Z arena) (P : pal).

(** The pages [malloc] asks the page allocator for. *)
Definition pages_for (size : Z) : Z :=
  if size <=? 1024 then 1 else (size + 12 + 4095) `div` 4096.

Lemma wp_get_pages F lk A P n (Q : Z → heap → Prop) :
  pal_ok P → 0 < n →
  (no_group (used_map (kernel_pool P)) 0 n false → Q 0 (mk F lk A P)) →
  (∀ p P', got KPool P n p P' → pal_ok P' → ram P' = ram P → Q p (mk F lk A P')) →
  wp (on_pages (palloc_get_multiple 0 n)) (mk F lk A P) Q.
Proof.
  intros Hok Hn Hnone Hsome. unfold on_pages. wp_step.
  eapply wp_mono; [apply wp_palloc_get_multiple; [done|done|by left]|].
  intros p P' [(-> & -> & Hno)|(Hg & Hok' & _ & Hr)]; [by apply Hnone|by apply Hsome].
Qed.

Lemma bpa_pos i : (i < 7)%nat → 0 < bpa i.
Proof. intros Hi. do 7 (destruct i as [|i]; [reflexivity|]). lia. Qed.

Lemma got_addr P n p P' : pal_ok P → 0 < n → got KPool P n p P' → arena_addr p.
Proof.
  intros Hok Hn Hg. destruct (got_in_pool _ _ _ _ _ Hok Hn Hg) as [Hlo Hhi].
  destruct (pa_pool _ Hok KPool) as [_ _ _ Hb He].
  split_and!; [apply (got_align _ _ _ _ _ Hg)|apply (got_pos _ _ _ _ _ Hg)|lia].
Qed.

(** The loop that fills the free list of a new arena. *)
Lemma wp_fill_arena F A P a i lk :
  (i < length F)%nat → arena_addr a → A !! a = Some (Arena ARENA_MAGIC (Some i) (bpa i)) →
  F !! i = Some [] →
  wp (for_upto (Z.to_nat (bpa i)) (λ k,
        b ← arena_to_block a (Z.of_nat k);
        d ← get_desc i;
        set_list i (free_list d ++ [b]))) (mk F lk A P)
     (λ _ h', h' = mk (<[i := blocks a i]> F) lk A P).
Proof.
  intros Hlt Haddr Ha Hl.
  apply (wp_for_upto (λ k h', h' = mk (<[i := (λ k, block_at a i (Z.of_nat k)) <$> seq 0 k]> F) lk A P)).
  - simpl. by rewrite list_insert_id.
  - intros k h' Hk ->.
    assert (Hl' : <[i := (λ k, block_at a i (Z.of_nat k)) <$> seq 0 k]> F !! i =
                  Some ((λ k, block_at a i (Z.of_nat k)) <$> seq 0 k)) by (by apply list_lookup_insert_eq).
    wp_step. eapply wp_arena_to_block; [done|done|done|done|done|lia|].
    wp_step. eapply wp_get_desc; [done|]. cbn [free_list desc_of].
    eapply wp_set_list; [done|]. rewrite list_insert_insert_eq, seq_S, fmap_app. done.
  - intros h' ->. done.
Qed.

Lemma filter_page a (l : list Z) : (∀ x, x ∈ l → in_page a x) → filter (in_page a) l = l.
Proof.
  induction l as [|x l IH]; intros H; [done|]. rewrite filter_cons_True by (apply H; left).
  f_equal. apply IH. intros y Hy. apply H. by right.
Qed.
Lemma count_blocks a i : count a (blocks a i) = bpa i.
Proof.
  rewrite <- (blocks_length a i). unfold count. rewrite filter_page; [done|].
  intros x (k & Hk & ->)%elem_of_blocks. by apply block_in_page.
Qed.

(** A page that was not in use holds no live block. *)
Lemma live_not_new F A P P' n a x :
  hinv F A P → 0 < n → got KPool P n a P' → live F A x → ¬ in_page a x.
Proof.
  intros Hi Hn Hg Hx Hp. destruct (live_extent _ _ _ _ Hi Hx) as (a' & ar' & Ha' & Hp' & _).
  assert (a' = a) as ->.
  { destruct (hinv_addr _ _ _ _ _ Hi Ha') as (? & _).
    by eapply aligned_page_eq; [|apply (got_align _ _ _ _ _ Hg)|..]. }
  destruct (got_new _ _ _ _ _ Hg a) as [_ Hnu]; [exists 0; lia|]. apply Hnu.
  destruct (h_arena _ _ _ Hi a ar' Ha') as [_ _ Hn' Hu _]. apply Hu. exists 0. lia.
Qed.

Lemma capacity_insert F A P a ar x :
  hinv F A P → A !! a = None → live F A x → capacity (<[a := ar]> A) x = capacity A x.
Proof.
  intros Hi Hno Hx. destruct (live_extent _ _ _ _ Hi Hx) as (a' & ar' & Ha' & _ & Hr & _).
  unfold capacity. rewrite lookup_insert_ne; [done|]. rewrite Hr. congruence.
Qed.

(** A new arena of small blocks, all free: nothing more is live. *)
Lemma fresh_arena F A P P' a i :
  hinv F A P → pal_ok P' → F !! i = Some [] → got KPool P 1 a P' →
  hinv (<[i := blocks a i]> F) (<[a := Arena ARENA_MAGIC (Some i) (bpa i)]> A) P' ∧ A !! a = None ∧
  ∀ x, live (<[i := blocks a i]> F) (<[a := Arena ARENA_MAGIC (Some i) (bpa i)]> A) x ↔ live F A x.
Proof.
  intros Hi Hok Hl Hg. pose proof (lookup_lt_Some _ _ _ Hl) as Hlt.
  assert (Hi7 : (i < 7)%nat) by (by rewrite <- (h_len _ _ _ Hi)).
  destruct (add_arena F A P P' a (Arena ARENA_MAGIC (Some i) 0) Hi Hok Hg) as [Hi1 Hno];
    [done|done|by intros j [= <-]|].
  assert (Hi2 : hinv (<[i := blocks a i]> F) (<[a := Arena ARENA_MAGIC (Some i) (bpa i)]> A) P').
  { rewrite <- (count_blocks a i), <- (insert_insert_eq A a _ (Arena ARENA_MAGIC (Some i) 0)).
    eapply (relist F _ P' a (Arena ARENA_MAGIC (Some i) 0) i []); [done|by rewrite lookup_insert_eq|done|done|
      apply blocks_nodup| |done].
    intros x Hx. split; [|by intros []%not_elem_of_nil].
    intros (k & Hk & ->)%elem_of_blocks. destruct Hx. by apply block_in_page. }
  split_and!; [done|done|]. intros x. destruct (decide (in_page a x)) as [Hp|Hp].
  - rewrite (live_in_page _ _ _ a (Arena ARENA_MAGIC (Some i) (bpa i)) i (blocks a i) x Hi2);
      [|by rewrite lookup_insert_eq|done|by apply list_lookup_insert_eq|done].
    split; [tauto|]. intros Hx. by destruct (live_not_new _ _ _ _ _ _ _ Hi Z.lt_0_1 Hg Hx).
  - rewrite <- (insert_insert_eq A a _ (Arena ARENA_MAGIC (Some i) 0)).
    rewrite (live_elsewhere F _ P' a (Arena ARENA_MAGIC (Some i) 0) i []) by
      (done || (by rewrite lookup_insert_eq) || (intros y Hy; split; [|by intros []%not_elem_of_nil];
        intros (k & Hk & ->)%elem_of_blocks; destruct Hy; by apply block_in_page)).
    split; intros (a' & ar' & Ha' & Hx).
    + apply lookup_insert_Some in Ha' as [[<- <-]|[Hne Ha']]; [|by exists a', ar'].
      destruct Hx as (k & l & Hk & -> & _). destruct Hp. by apply block_in_page.
    + exists a', ar'. by rewrite lookup_insert_ne by congruence.
Qed.

(** [new_arena] reports that there is no page, or makes such an arena. *)
Lemma wp_new_arena F A P i (Q : bool → heap → Prop) :
  hinv F A P → F !! i = Some [] →
  (no_group (used_map (kernel_pool P)) 0 1 false → Q false (mk F (Some i) A P)) →
  (∀ a P', got KPool P 1 a P' → pal_ok P' → ram P' = ram P →
     Q true (mk (<[i := blocks a i]> F) (Some i) (<[a := Arena ARENA_MAGIC (Some i) (bpa i)]> A) P')) →
  wp (new_arena i) (mk F (Some i) A P) Q.
Proof.
  intros Hi Hl Hnone Hsome. pose proof (lookup_lt_Some _ _ _ Hl) as Hlt.
  unfold new_arena, palloc_get_page. wp_step.
  apply wp_get_pages; [apply (h_pal _ _ _ Hi)|lia|intros Hno; apply (wp_ret false); auto|].
  intros a P' Hg Hok Hram. pose proof (got_addr P 1 a P' (h_pal _ _ _ Hi) ltac:(lia) Hg) as Haddr.
  pose proof (got_pos _ _ _ _ _ Hg) as Hpos. unfold PHYS_BASE in Hpos.
  rewrite (proj2 (Z.eqb_neq a 0)) by lia.
  wp_step. eapply wp_get_desc; [done|]. cbn [desc_of blocks_per_arena]. unfold put_arena. wp_step. wp_step.
  cbn [mk descs arenas pages]. fold (mk F (Some i) (<[a:=Arena ARENA_MAGIC (Some i) (bpa i)]> A) P').
  wp_step. eapply wp_mono; [apply wp_fill_arena; [done|done|by rewrite lookup_insert_eq|done]|].
  intros _ h' ->. wp_steps. auto.
Qed.

(** ** malloc *)

(** The result of a successful [malloc size]. *)
Record allocated F A P size p F' A' P' : Prop := {
  al_inv : hinv F' A' P';
  al_in_use : in_use A';
  al_ram : ram P' = ram P;
  al_new : ¬ live F A p;
  al_live : ∀ x, live F' A' x ↔ live F A x ∨ x = p;
  al_size : size ≤ capacity A' p;
  al_keep : ∀ x, live F A x → capacity A' x = capacity A x;
}.

(** The tail of [malloc]: take the first block of a list that has one. *)
Lemma wp_take_block F A P i b l (Q : Z → heap → Prop) :
  hinv F A P → F !! i = Some (b :: l) →
  (∀ a ar, A !! a = Some ar → a_desc ar = Some i → in_page a b → b ∈ blocks a i →
     Q b (mk (<[i := l]> F) None (<[a := Arena (magic ar) (Some i) (free_cnt ar - 1)]> A) P)) →
  wp (set_list i l ;;
      a ← block_to_arena b;
      ar ← get_arena a;
      put_arena a (Arena (magic ar) (a_desc ar) (u32 (free_cnt ar - 1))) ;;
      desc_release i ;;
      mret b) (mk F (Some i) A P) Q.
Proof.
  intros Hi Hl HQ. pose proof (lookup_lt_Some _ _ _ Hl) as Hlt.
  destruct (h_free _ _ _ Hi i _ b Hl ltac:(left)) as (a & ar & k & Ha & Hd & Hk & Hb).
  assert (Hp : in_page a b) by (subst; by apply block_in_page).
  assert (Hbl : b ∈ blocks a i) by (apply elem_of_blocks; eauto).
  destruct (pop_block _ _ _ _ _ _ _ _ Hi Ha Hd Hl Hp) as (_ & _ & _ & Hpos).
  destruct (ao_count _ _ _ _ (h_arena _ _ _ Hi a ar Ha) i Hd) as (l0 & Hl0 & Hc).
  pose proof (count_le _ _ _ _ _ _ _ Hi Ha Hl0) as Hle.
  assert (bpa i ≤ 4084) by (unfold bpa; apply Z.div_le_upper_bound; pose proof (bsz_pos i); lia).
  assert (Hl' : <[i := l]> F !! i = Some l) by (by apply list_lookup_insert_eq).
  wp_step. eapply wp_set_list; [done|]. wp_step.
  eapply wp_block_to_arena; [by eapply hinv_addr|done|apply (ao_magic _ _ _ _ (h_arena _ _ _ Hi a ar Ha))|done|done|done|].
  wp_step. eapply wp_get_arena; [done|]. rewrite Hd, u32_small by lia.
  unfold put_arena. wp_step. wp_step. cbn [mk descs arenas pages].
  fold (mk (<[i := l]> F) (Some i) (<[a := Arena (magic ar) (Some i) (free_cnt ar - 1)]> A) P).
  wp_step. eapply wp_desc_release; [done|]. wp_step. eauto.
Qed.

Lemma pop_allocated F A P i b l a ar size :
  hinv F A P → F !! i = Some (b :: l) → A !! a = Some ar → a_desc ar = Some i → in_page a b →
  (∀ a' ar' j, A !! a' = Some ar' → a_desc ar' = Some j → a' ≠ a → free_cnt ar' < bpa j) →
  size ≤ bsz i →
  allocated F A P size b (<[i := l]> F) (<[a := Arena (magic ar) (Some i) (free_cnt ar - 1)]> A) P.
Proof.
  intros Hi Hl Ha Hd Hp Huse Hsz.
  destruct (pop_block _ _ _ _ _ _ _ _ Hi Ha Hd Hl Hp) as (Hi' & Hn & Hlive & Hpos).
  destruct (ao_count _ _ _ _ (h_arena _ _ _ Hi a ar Ha) i Hd) as (l0 & Hl0 & Hc).
  pose proof (count_le _ _ _ _ _ _ _ Hi Ha Hl0) as Hle.
  split; try done.
  - intros a' ar' j [[<- <-]|[Hne Ha']]%lookup_insert_Some Hj; [|by eapply Huse].
    cbn in Hj. injection Hj as <-. cbn. lia.
  - rewrite (capacity_relist A a ar) by done.
    rewrite (capacity_small A a ar i); [done|done|done|by apply (arena_page F A P a ar)].
  - intros x _. by apply (capacity_relist A a ar).
Qed.

(** A new arena in between is not visible. *)
Lemma allocated_fresh F A P P1 F1 A1 a ar size b F2 A2 P2 :
  hinv F A P → A1 = <[a := ar]> A → A !! a = None → ram P1 = ram P →
  (∀ x, live F1 A1 x ↔ live F A x) →
  allocated F1 A1 P1 size b F2 A2 P2 → allocated F A P size b F2 A2 P2.
Proof.
  intros Hi -> Hno Hr Hlive [Hi2 Hu2 Hr2 Hn2 Hl2 Hs2 Hk2].
  split; [done|done|congruence|by rewrite <- Hlive| |done|].
  - intros x. by rewrite Hl2, Hlive.
  - intros x Hx. rewrite Hk2 by (by apply Hlive). by apply (capacity_insert F A P).
Qed.

(** A block of its own pages. *)
Lemma big_allocated F A P P' a n size :
  hinv F A P → in_use A → pal_ok P' → ram P' = ram P → 0 < n → got KPool P n a P' →
  size + 12 ≤ 4096 * n →
  allocated F A P size (a + 12) F (<[a := Arena ARENA_MAGIC None n]> A) P'.
Proof.
  intros Hi Hu Hok Hr Hn Hg Hsz.
  destruct (add_arena F A P P' a (Arena ARENA_MAGIC None n) Hi Hok Hg) as [Hi1 Hno]; [done|cbn; lia|done|].
  assert (Hp : in_page a (a + 12)) by (unfold in_page; lia).
  assert (Hnl : ¬ live F A (a + 12)) by (intros Hl; by apply (live_not_new F A P P' n a (a + 12))).
  split; [done| |done|done| | |].
  - intros a' ar' j [[<- <-]|[_ Ha']]%lookup_insert_Some Hj; [done|by eapply Hu].
  - intros x. split.
    + intros (a' & ar' & Ha' & Hx).
      apply lookup_insert_Some in Ha' as [[<- <-]|[Hne Ha']]; [by right|left; by exists a', ar'].
    + intros [(a' & ar' & Ha' & Hx) | ->].
      * exists a', ar'. by rewrite lookup_insert_ne by congruence.
      * exists a, (Arena ARENA_MAGIC None n). by rewrite lookup_insert_eq.
  - assert (Ha : <[a := Arena ARENA_MAGIC None n]> A !! a = Some (Arena ARENA_MAGIC None n))
      by (by rewrite lookup_insert_eq).
    rewrite (capacity_big _ a (Arena ARENA_MAGIC None n)); [cbn; lia|done|done|by eapply arena_page].
  - intros x Hx. by apply (capacity_insert F A P).
Qed.

(** What the page count of a large request is. *)
Lemma big_pages size P :
  pal_ok P → 1024 < size < 2 ^ 32 - 12 →
  let n := DIV_ROUND_UP (u32 (size + sizeof_arena)) PGSIZE in
  (n = 0 ∧ no_group (used_map (kernel_pool P)) 0 (pages_for size) false) ∨
  (0 < n ∧ n = pages_for size ∧ size + 12 ≤ 4096 * n).
Proof.
  intros Hok Hsz. cbv zeta. unfold DIV_ROUND_UP, sizeof_arena, pages_for. change PGSIZE with 4096.
  rewrite (proj2 (Z.leb_gt size 1024)) by lia. rewrite (u32_small (size + 12)) by lia.
  assert (Hu : u32 (u32 (size + 12 + 4096) - 1) = u32 (size + 12 + 4095)).
  { unfold u32. rewrite Zminus_mod_idemp_l. f_equal. lia. }
  rewrite Hu. destruct (decide (size + 12 + 4095 < 2 ^ 32)) as [Hlt|Hge].
  - right. rewrite u32_small by lia.
    pose proof (Z.div_mod (size + 12 + 4095) 4096). pose proof (Z.mod_pos_bound (size + 12 + 4095) 4096). lia.
  - left. split.
    + unfold u32. rewrite <- (Z.mod_unique (size + 12 + 4095) (2 ^ 32) 1 (size + 12 + 4095 - 2 ^ 32)) by lia.
      apply Z.div_small. lia.
    + intros j Hj Hend _. destruct (pa_pool _ Hok KPool) as [_ _ _ Hb He]. unfold PHYS_BASE in Hb.
      cbn [get_pool] in *. pose proof (Z.div_mod (size + 12 + 4095) 4096).
      pose proof (Z.mod_pos_bound (size + 12 + 4095) 4096). lia.
Qed.

Lemma palloc_get_zero F lk A P (Q : Z → heap → Prop) :
  Q 0 (mk F lk A P) → wp (on_pages (palloc_get_multiple 0 0)) (mk F lk A P) Q.
Proof. done. Qed.

Lemma wp_malloc F A P size :
  hinv F A P → in_use A → 0 < size < 2 ^ 32 - 12 →
  wp (malloc size) (mk F None A P) (λ p h',
    (p = 0 ∧ h' = mk F None A P ∧ no_group (used_map (kernel_pool P)) 0 (pages_for size) false) ∨
    (PHYS_BASE < p ∧ ∃ F' A' P', h' = mk F' None A' P' ∧ allocated F A P size p F' A' P')).
Proof.
  intros Hi Hu Hsz. unfold malloc. rewrite (proj2 (Z.eqb_neq size 0)) by lia. wp_step. wp_step. unfold id.
  cbn [mk descs]. pose proof (find_desc_spec F None size (h_len _ _ _ Hi)) as Hfd.
  destruct (find_desc _ _) as [i|]; fold (mk F None A P).
  - destruct Hfd as [Hi7 Hbsz]. destruct (lookup_lt_is_Some_2 F i) as [l Hl]; [by rewrite (h_len _ _ _ Hi)|].
    assert (Hpf : pages_for size = 1).
    { unfold pages_for. rewrite (proj2 (Z.leb_le size 1024)); [done|]. etrans; [done|].
      do 7 (destruct i as [|i]; [vm_compute; discriminate|]). lia. }
    rewrite Hpf. wp_step. eapply wp_desc_acquire; [done|]. wp_step. eapply wp_get_desc; [done|].
    cbn [desc_of free_list]. destruct l as [|b l].
    + wp_step. eapply wp_new_arena; [done|done| |].
      * intros Hno. cbn [negb]. wp_step. eapply wp_desc_release; [done|]. wp_step. by left.
      * intros a P' Hg Hok Hr. cbn [negb]. destruct (fresh_arena F A P P' a i Hi Hok Hl Hg) as (Hi1 & Hno & Hlive).
        assert (Hl1 : <[i := blocks a i]> F !! i = Some (blocks a i))
          by (apply list_lookup_insert_eq; by eapply lookup_lt_Some).
        wp_step. eapply wp_get_desc; [done|]. cbn [desc_of free_list].
        pose proof (blocks_length a i) as Hlen. pose proof (bpa_pos i Hi7).
        destruct (blocks a i) as [|b l] eqn:Hbl; [simpl in Hlen; lia|].
        eapply wp_take_block; [done|done|]. intros a' ar' Ha' Hd' Hp' _.
        assert (Hpa : in_page a b).
        { assert (b ∈ blocks a i) as (k & Hk & ->)%elem_of_blocks by (rewrite Hbl; left). by apply block_in_page. }
        assert (a' = a) as ->.
        { pose proof (arena_page _ _ _ _ _ _ Hi1 Ha' Hp') as <-.
          eapply arena_page; [done|by rewrite lookup_insert_eq|done]. }
        right. split.
        { destruct (hinv_addr _ _ _ _ _ Hi1 Ha') as (_ & ? & _). unfold in_page in Hpa. lia. }
        eexists _, _, _. split; [done|].
        eapply allocated_fresh; [done|done|done|exact Hr|exact Hlive|].
        eapply pop_allocated; [done..| |done].
        intros a2 ar2 j Ha2 Hj Hne. rewrite lookup_insert_ne in Ha2 by done. by eapply Hu.
    + wp_step. wp_step. cbn [negb]. wp_step. eapply wp_get_desc; [done|]. cbn [desc_of free_list].
      eapply wp_take_block; [done|done|]. intros a ar Ha Hd Hp _. right. split.
      { destruct (hinv_addr _ _ _ _ _ Hi Ha) as (_ & ? & _). unfold in_page in Hp. lia. }
      eexists _, _, _. split; [done|]. eapply pop_allocated; [done..| |done]. intros. by eapply Hu.
  - destruct (big_pages size P (h_pal _ _ _ Hi)) as [[-> Hno]|(Hn & Heq & Hcap)]; [lia| |].
    { wp_step. apply palloc_get_zero. wp_steps. by left. }
    set (n := DIV_ROUND_UP _ _) in *. wp_step.
    apply wp_get_pages; [apply (h_pal _ _ _ Hi)|done|intros Hno; rewrite <- Heq; by left|].
    intros a P' Hg Hok Hr. destruct (got_addr _ _ _ _ (h_pal _ _ _ Hi) Hn Hg) as (_ & Hlo & Hhi).
    unfold PHYS_BASE in Hlo. rewrite (proj2 (Z.eqb_neq a 0)) by lia. unfold put_arena. wp_steps.
    unfold sizeof_arena. rewrite u32_small by lia. right. split; [unfold PHYS_BASE; lia|].
    exists F, (<[a := Arena ARENA_MAGIC None n]> A), P'. split; [done|]. by apply big_allocated.
Qed.
End programs.

(** ** free and realloc

    [free] takes one block out of the set of live blocks, [realloc] moves a
    block with its contents. *)

Section free.
Implicit Types (F : list (list Z)) (lk : option nat) (A : gmap Z arena) (P : pal).

(** The pages that freeing [p] gives back: those the block lies on, if no other
    live block lies in the arena. *)
Definition returned F A p (x : Z) : Prop :=
  pg_round_down p ≤ x < p + capacity A p ∧ ∀ b, live F A b → pg_round_down b = pg_round_down p → b = p.

(** The result of freeing [p]. *)
Record released F A P p F' A' P' : Prop := {
  re_inv : hinv F' A' P';
  re_in_use : in_use A';
  re_live : ∀ x, live F' A' x ↔ live F A x ∧ x ≠ p;
  re_keep : ∀ x, live F' A' x → capacity A' x = capacity A x;
  re_ram : ∀ x y, live F' A' x → x ≤ y < x + capacity A x → ram P' !! y = ram P !! y;
  re_pages : ∀ w x, used w P' x ↔ used w P x ∧ ¬ (w = KPool ∧ returned F A p x);
}.

Lemma freed_returned F A P P1 P' a ar p :
  hinv F A P → A !! a = Some ar → live F A p → pg_round_down p = a →
  a + 4096 * (npages ar - 1) < p + capacity A p → (∀ b, live F A b → pg_round_down b = a → b = p) →
  (∀ w x, used w P1 x ↔ used w P x) → freed KPool P1 (npages ar) a P' →
  ∀ w x, used w P' x ↔ used w P x ∧ ¬ (w = KPool ∧ returned F A p x).
Proof.
  intros Hi Ha Hp Hr Hend Hone H1 [Hk Hu] w x. destruct w; [rewrite Hk|rewrite Hu by done; rewrite H1; naive_solver].
  rewrite H1. cut (used KPool P x → ¬ page_of a (npages ar) x ↔ ¬ (KPool = KPool ∧ returned F A p x)); [tauto|].
  intros [(j & Hj & ->) _].
  destruct (live_extent _ _ _ _ Hi Hp) as (a' & ar' & Ha' & _ & Hr' & Hlo & Hhi & _).
  assert (a' = a) as -> by congruence. rewrite Ha in Ha'. injection Ha' as <-.
  pose proof (po_align _ (pa_pool _ (h_pal _ _ _ Hi) KPool)) as Hb%Z_div_exact_full_2; [|lia].
  destruct (arena_range _ _ _ _ _ Hi Ha) as (Hal%Z_div_exact_full_2 & _); [|lia].
  split; intros Hno.
  - intros (_ & Hx & _). apply Hno. rewrite Hr in Hx.
    exists (base (get_pool KPool P) `div` 4096 + j - a `div` 4096). lia.
  - intros (i & Hi' & Ex). apply Hno. split; [done|]. unfold returned. rewrite Hr. split; [lia|done].
Qed.

(** Live blocks of an arena that goes away. *)
Lemma live_drop F A P a ar x :
  hinv F A P → A !! a = Some ar → live F (delete a A) x ↔ live F A x ∧ pg_round_down x ≠ a.
Proof.
  intros Hi Ha. split.
  - intros Hx. assert (Hl : live F A x).
    { destruct Hx as (a' & ar' & Ha' & Hx). apply lookup_delete_Some in Ha' as [_ Ha']. by exists a', ar'. }
    split; [done|]. destruct (live_extent _ _ _ _ Hi Hl) as (a1 & ar1 & Ha1 & Hp1 & Hr1 & _).
    destruct Hx as (a' & ar' & Ha' & Hx). apply lookup_delete_Some in Ha' as [Hne Ha'].
    assert (in_page a' x) as Hp'.
    { destruct (a_desc ar'); [destruct Hx as (k & ? & ? & -> & _); by apply block_in_page|].
      subst. unfold in_page. lia. }
    by rewrite (arena_page _ _ _ _ _ _ Hi Ha' Hp').
  - intros [Hx Hr]. destruct (live_extent _ _ _ _ Hi Hx) as (a1 & ar1 & Ha1 & Hp1 & Hr1 & _).
    destruct Hx as (a' & ar' & Ha' & Hx). exists a', ar'. split; [|done].
    assert (in_page a' x) as Hp'.
    { destruct (a_desc ar'); [destruct Hx as (k & ? & ? & -> & _); by apply block_in_page|].
      subst. unfold in_page. lia. }
    rewrite lookup_delete_ne; [done|]. intros <-. apply Hr. by eapply arena_page.
Qed.

Lemma capacity_delete A a x : pg_round_down x ≠ a → capacity (delete a A) x = capacity A x.
Proof. intros Hr. unfold capacity. by rewrite lookup_delete_ne. Qed.

(** A block of another arena is not touched by filling the pages of this one. *)
Lemma other_arena_kept F A P a ar x y bs (m : mem) :
  hinv F A P → A !! a = Some ar → live F A x → pg_round_down x ≠ a →
  x ≤ y < x + capacity A x → Z.of_nat (length bs) ≤ 4096 * npages ar →
  write m a bs !! y = m !! y.
Proof.
  intros Hi Ha Hx Hr Hy Hlen. destruct (live_extent _ _ _ _ Hi Hx) as (a' & ar' & Ha' & _ & Hr' & Hlo & Hhi & _).
  apply lookup_write_out. destruct (arenas_apart _ _ _ a a' ar ar' Hi Ha Ha'); [congruence|lia|lia].
Qed.

(** The loop that takes the blocks of a free arena off the list. *)
Lemma wp_unfill F A P a ar i l lk :
  arena_addr a → A !! a = Some ar → magic ar = ARENA_MAGIC → a_desc ar = Some i →
  F !! i = Some l → (∀ b, b ∈ blocks a i → b ∈ l) →
  wp (for_upto (Z.to_nat (bpa i)) (λ k,
        b ← arena_to_block a (Z.of_nat k);
        remove_block i b)) (mk F lk A P)
     (λ _ h', h' = mk (<[i := filter (λ x, x ∉ blocks a i) l]> F) lk A P).
Proof.
  intros Haddr Ha Hm Hd Hl Hall. pose proof (lookup_lt_Some _ _ _ Hl) as Hlt.
  set (first := λ n, (λ k, block_at a i (Z.of_nat k)) <$> seq 0 n).
  apply (wp_for_upto (λ k h', h' = mk (<[i := filter (λ x, x ∉ first k) l]> F) lk A P)).
  - assert (filter (λ x, x ∉ first 0%nat) l = l) as ->; [|by rewrite list_insert_id].
    clear. induction l as [|x l IH]; [done|]. rewrite filter_cons_True by apply not_elem_of_nil. by rewrite IH.
  - intros k h' Hk ->.
    assert (Hl' : <[i := filter (λ x, x ∉ first k) l]> F !! i = Some (filter (λ x, x ∉ first k) l))
      by (by apply list_lookup_insert_eq).
    wp_step. eapply wp_arena_to_block; [done|done|done|done|done|lia|].
    unfold remove_block. wp_step. eapply wp_get_desc; [done|]. cbn [desc_of free_list].
    rewrite decide_True.
    + eapply wp_set_list; [done|]. rewrite list_insert_insert_eq. f_equal. f_equal.
      rewrite list_filter_filter. apply list_filter_iff. intros x. unfold first.
      rewrite seq_S, fmap_app, not_elem_of_app. cbn. rewrite list_elem_of_singleton. tauto.
    + apply list_elem_of_filter. split; [|apply Hall, elem_of_blocks; exists (Z.of_nat k); lia].
      unfold first. rewrite list_elem_of_fmap. intros (j & Hj%block_at_inj & Hj'%elem_of_seq). lia.
  - intros h' ->. done.
Qed.

(** Writing into a live block. *)
Lemma hinv_write F A P p bs :
  hinv F A P → hinv F A (Pal (kernel_pool P) (user_pool P) (write (ram P) p bs)).
Proof.
  intros Hi. destruct (write_ram_ok P (write (ram P) p bs)) as [Hok _];
    [intros; by apply write_mapped|apply (h_pal _ _ _ Hi)|].
  eapply hinv_pal; [done|done|]. intros x Hx. by apply used_ram.
Qed.

Lemma live_mapped F A P p :
  hinv F A P → live F A p → mapped (ram P) p (capacity A p) ∧ PHYS_BASE < p ∧ p + capacity A p ≤ 2 ^ 32.
Proof.
  intros Hi Hp. destruct (live_extent _ _ _ _ Hi Hp) as (a & ar & Ha & _ & _ & Hlo & Hhi & _).
  destruct (arena_range _ _ _ _ _ Hi Ha) as (_ & ? & ? & _ & Hm).
  split_and!; [|lia|lia]. intros x Hx. apply Hm. lia.
Qed.

(** All blocks of an arena are free: it is given back. *)
Lemma full_released F A P a ar i l p P2 :
  hinv F A P → in_use A → A !! a = Some ar → a_desc ar = Some i → F !! i = Some l →
  in_page a p → live F A p → free_cnt ar + 1 = bpa i →
  let P1 := Pal (kernel_pool P) (user_pool P) (write (ram P) p (replicate (Z.to_nat (bsz i)) 204)) in
  pal_ok P2 → freed KPool P1 1 a P2 → ram P2 = write (ram P1) a (replicate (Z.to_nat (4096 * 1)) 204) →
  released F A P p (<[i := filter (λ x, x ∉ blocks a i) (p :: l)]> F) (delete a A) P2.
Proof.
  intros Hi Hu Ha Hd Hl Hp Hlive Hfull P1 Hok2 Hfr Hr2. pose proof (lookup_lt_Some _ _ _ Hl) as Hlt.
  pose proof (hinv_write F A P p (replicate (Z.to_nat (bsz i)) 204) Hi) as Hi0. fold P1 in Hi0.
  destruct (push_block F A P1 a ar i l p Hi0 Ha Hd Hl Hp Hlive) as (Hi1 & Hlive1 & Hcnt).
  set (F1 := <[i := p :: l]> F) in *.
  set (A1 := <[a := Arena (magic ar) (Some i) (free_cnt ar + 1)]> A) in *.
  assert (Ha1 : A1 !! a = Some (Arena (magic ar) (Some i) (free_cnt ar + 1))) by (unfold A1; by rewrite lookup_insert_eq).
  assert (Hl1 : F1 !! i = Some (p :: l)) by (unfold F1; by apply list_lookup_insert_eq).
  assert (Hall : ∀ b, b ∈ blocks a i → b ∈ p :: l) by (eapply (all_free F1 A1 P1 a); [done..|lia]).
  set (l' := filter (λ x, x ∉ blocks a i) (p :: l)).
  assert (Hout : ∀ x, ¬ in_page a x → x ∈ l' ↔ x ∈ p :: l).
  { intros x Hx. unfold l'. rewrite list_elem_of_filter, elem_of_blocks. split; [tauto|]. intros Hin. split; [|done].
    intros (k & Hk & ->). apply Hx. by apply block_in_page. }
  assert (Hgone : ∀ x, in_page a x → x ∉ l').
  { intros x Hx Hin. apply list_elem_of_filter in Hin as [Hnb Hin]. apply Hnb.
    by eapply (free_in_page F1 A1 P1 a). }
  assert (Hi2 : hinv (<[i := l']> F1) (<[a := Arena (magic ar) (Some i) (count a l')]> A1) P1).
  { apply (relist F1 A1 P1 a _ i (p :: l) l' Hi1 Ha1 eq_refl Hl1); [|done|intros x Hx Hin; by destruct (Hgone x Hx)].
    apply NoDup_filter, (h_nodup _ _ _ Hi1 i _ Hl1). }
  assert (HF : <[i := l']> F1 = <[i := l']> F) by (unfold F1; apply list_insert_insert_eq).
  assert (HA : delete a (<[a := Arena (magic ar) (Some i) (count a l')]> A1) = delete a A)
    by (unfold A1; by rewrite !delete_insert_eq).
  assert (Hi3 : hinv (<[i := l']> F) (delete a A) P2).
  { rewrite <- HF, <- HA. eapply (delete_arena _ _ P1); [done|by rewrite lookup_insert_eq|done|done|].
    intros j m b Hm Hb Hin.
    destruct (free_in_page _ _ _ a _ _ _ _ Hi2 (lookup_insert_eq _ _ _) Hm Hb Hin) as [[= <-] _].
    rewrite list_lookup_insert_eq in Hm by (unfold F1; by rewrite length_insert). injection Hm as <-. by apply (Hgone b). }
  assert (Hlv : ∀ x, live (<[i := l']> F) (delete a A) x ↔ live F A x ∧ x ≠ p).
  { intros x. rewrite <- HF, <- HA.
    rewrite (live_drop _ _ P1 a _ x Hi2 (lookup_insert_eq _ _ _)), <- Hlive1.
    destruct (decide (in_page a x)) as [Hx|Hx].
    - rewrite (live_in_page F1 A1 P1 a _ i (p :: l) x Hi1 Ha1 eq_refl Hl1 Hx).
      rewrite (arena_page _ _ _ _ _ _ Hi Ha Hx). specialize (Hall x). tauto.
    - rewrite (live_elsewhere F1 A1 P1 a _ i (p :: l) l' _ _ x Hi1 Ha1 eq_refl Hl1 Hout Hx).
      split; [tauto|]. intros Hlx. split; [done|].
      destruct (live_extent _ _ _ _ Hi1 Hlx) as (a' & ar' & _ & Hpa & Hr & _). intros Heq.
      apply Hx. rewrite <- Heq, Hr. done. }
  assert (Hrd : ∀ x, live (<[i := l']> F) (delete a A) x → pg_round_down x ≠ a).
  { intros x Hx. rewrite <- HF, <- HA in Hx. apply (live_drop _ _ P1 a _ x Hi2 (lookup_insert_eq _ _ _)) in Hx. tauto. }
  split; [done| |done| | |].
  - intros a' ar' j [_ Ha']%lookup_delete_Some Hj. by eapply Hu.
  - intros x Hx. apply capacity_delete. auto.
  - intros x y Hx Hy. pose proof (Hrd x Hx) as Hne. apply Hlv in Hx as [Hx Hxp].
    rewrite Hr2. rewrite (other_arena_kept F A P1 a ar x y) by
      (done || (rewrite length_replicate; unfold npages; rewrite Hd; lia)).
    unfold P1. cbn [ram]. apply lookup_write_out. rewrite length_replicate, Z2Nat.id by (pose proof (bsz_pos i); lia).
    assert (capacity A p = bsz i) as Hcp
      by (eapply capacity_small; [done|done|by eapply (arena_page F A P)]).
    destruct (live_apart _ _ _ p x Hi Hlive Hx); [done|lia|lia].
  - assert (npages ar = 1) as Hnp by (unfold npages; by rewrite Hd).
    pose proof (arena_page _ _ _ _ _ _ Hi Ha Hp) as Hrp.
    apply (freed_returned F A P P1 P2 a ar p); [done..| | |intros w x; apply used_ram|by rewrite Hnp].
    + rewrite (capacity_small A a ar i) by done. unfold in_page in Hp. pose proof (bsz_pos i). lia.
    + intros b Hb Hbr. assert (Hbp : in_page a b)
        by (destruct (live_extent _ _ _ _ Hi Hb) as (a' & _ & _ & Hin & E & _); congruence).
      apply (live_in_page _ _ _ _ _ _ _ _ Hi Ha Hd Hl Hbp) in Hb as [Hb Hnl].
      apply Hall, elem_of_cons in Hb as [?|?]; [done|by destruct Hnl].
Qed.

(** An arena with more free blocks to come has another live block. *)
Lemma other_block F A P a ar i l p :
  hinv F A P → A !! a = Some ar → a_desc ar = Some i → F !! i = Some l →
  in_page a p → live F A p → free_cnt ar + 1 < bpa i →
  ∃ b, live F A b ∧ pg_round_down b = a ∧ b ≠ p.
Proof.
  intros Hi Ha Hd Hl Hp Hlive Hpart.
  destruct (push_block F A P a ar i l p Hi Ha Hd Hl Hp Hlive) as (_ & _ & Hcnt).
  destruct (decide (blocks a i ⊆ p :: l)) as [Hall|Hnot].
  - assert (Hsub : blocks a i ⊆+ filter (in_page a) (p :: l)).
    { apply NoDup_submseteq; [apply blocks_nodup|]. intros b Hb. apply list_elem_of_filter. split; [|by apply Hall].
      apply elem_of_blocks in Hb as (k & Hk & ->). by apply block_in_page. }
    apply submseteq_length in Hsub. pose proof (blocks_length a i). unfold count in Hcnt. lia.
  - assert (Exists (λ b, b ∉ p :: l) (blocks a i)) as (b & Hb & Hnl)%Exists_exists.
    { apply not_Forall_Exists; [apply _|]. intros Hf. apply Hnot. intros b Hb. rewrite Forall_forall in Hf. by apply Hf. }
    assert (Hbp : in_page a b) by (apply elem_of_blocks in Hb as (k & Hk & ->); by apply block_in_page).
    exists b. apply not_elem_of_cons in Hnl as [Hne Hnl].
    split_and!; [by apply (live_in_page F A P a ar i l b)|by apply (arena_page F A P a ar)|done].
Qed.

(** The block joins the other free blocks of its arena. *)
Lemma part_released F A P a ar i l p :
  hinv F A P → in_use A → A !! a = Some ar → a_desc ar = Some i → F !! i = Some l →
  in_page a p → live F A p → free_cnt ar + 1 < bpa i →
  released F A P p (<[i := p :: l]> F) (<[a := Arena (magic ar) (Some i) (free_cnt ar + 1)]> A)
    (Pal (kernel_pool P) (user_pool P) (write (ram P) p (replicate (Z.to_nat (bsz i)) 204))).
Proof.
  intros Hi Hu Ha Hd Hl Hp Hlive Hpart.
  pose proof (hinv_write F A P p (replicate (Z.to_nat (bsz i)) 204) Hi) as Hi0.
  destruct (push_block F A _ a ar i l p Hi0 Ha Hd Hl Hp Hlive) as (Hi1 & Hlive1 & _).
  split; [done| |done| | |].
  - intros a' ar' j [[<- <-]|[_ Ha']]%lookup_insert_Some Hj; [|by eapply Hu].
    cbn in Hj. injection Hj as <-. done.
  - intros x _. by apply (capacity_relist A a ar).
  - intros x y Hx Hy. apply Hlive1 in Hx as [Hx Hxp]. cbn [ram]. apply lookup_write_out.
    rewrite length_replicate, Z2Nat.id by (pose proof (bsz_pos i); lia).
    assert (capacity A p = bsz i) as Hcp
      by (eapply capacity_small; [done|done|by eapply (arena_page F A P)]).
    destruct (live_apart _ _ _ p x Hi Hlive Hx); [done|lia|lia].
  - intros w x. rewrite used_ram. split; [|tauto]. intros Hx. split; [done|]. intros (_ & _ & Hone).
    pose proof (arena_page _ _ _ _ _ _ Hi Ha Hp) as Hrp. rewrite Hrp in Hone.
    destruct (other_block F A P a ar i l p) as (b & Hb & Hbr & Hne); [done..|]. by apply Hne, Hone.
Qed.

(** A block with pages of its own. *)
Lemma big_released F A P a ar P' :
  hinv F A P → in_use A → A !! a = Some ar → a_desc ar = None →
  pal_ok P' → freed KPool P (free_cnt ar) a P' →
  ram P' = write (ram P) a (replicate (Z.to_nat (4096 * free_cnt ar)) 204) →
  released F A P (a + 12) F (delete a A) P'.
Proof.
  intros Hi Hu Ha Hd Hok Hfr Hr. assert (Hnp : npages ar = free_cnt ar) by (unfold npages; by rewrite Hd).
  assert (Hi' : hinv F (delete a A) P').
  { eapply delete_arena; [done..|by rewrite Hnp|]. intros i l b Hl Hb Hp.
    destruct (free_in_page _ _ _ _ _ _ _ _ Hi Ha Hl Hb Hp) as [Hd' _]. congruence. }
  assert (Hrd : ∀ x, live F A x → pg_round_down x = a ↔ x = a + 12).
  { intros x (a' & ar' & Ha' & Hx). split.
    - intros Hr'. assert (a' = a) as ->.
      { assert (in_page a' x) as Hp'.
        { destruct (a_desc ar'); [destruct Hx as (k & ? & ? & -> & _); by apply block_in_page|].
          subst x. unfold in_page. lia. }
        by rewrite <- (arena_page _ _ _ _ _ _ Hi Ha' Hp'). }
      rewrite Ha in Ha'. injection Ha' as <-. by rewrite Hd in Hx.
    - intros ->. apply (arena_page F A P a ar); [done..|]. unfold in_page. lia. }
  assert (Hlv : ∀ x, live F (delete a A) x ↔ live F A x ∧ x ≠ a + 12).
  { intros x. rewrite (live_drop _ _ _ _ _ x Hi Ha). specialize (Hrd x). tauto. }
  split; [done| |done| | |].
  - intros a' ar' j [_ Ha']%lookup_delete_Some Hj. by eapply Hu.
  - intros x [Hx Hne]%Hlv. apply capacity_delete. specialize (Hrd x Hx). tauto.
  - intros x y [Hx Hne]%Hlv Hy. rewrite Hr. apply (other_arena_kept F A P a ar x);
      [done|done|done|specialize (Hrd x Hx); tauto|done|rewrite length_replicate, Hnp].
    pose proof (ao_pages _ _ _ _ (h_arena _ _ _ Hi a ar Ha)). lia.
  - assert (Hp : live F A (a + 12)) by (exists a, ar; by rewrite Hd).
    assert (Hr12 : pg_round_down (a + 12) = a) by (by apply Hrd).
    apply (freed_returned F A P P P' a ar); [done..| | |done|by rewrite Hnp].
    + rewrite (capacity_big A a ar), Hnp by done. pose proof (ao_pages _ _ _ _ (h_arena _ _ _ Hi a ar Ha)). lia.
    + intros b Hb Hbr. by apply (Hrd b Hb).
Qed.

Lemma wp_free F A P p :
  hinv F A P → in_use A → live F A p →
  wp (free p) (mk F None A P) (λ _ h',
    ∃ F' A' P', h' = mk F' None A' P' ∧ released F A P p F' A' P').
Proof.
  intros Hi Hu Hlive. destruct (live_mapped _ _ _ _ Hi Hlive) as (Hmap & Hpos & Hend).
  unfold PHYS_BASE in Hpos. pose proof Hlive as (a & ar & Ha & Hp).
  pose proof (hinv_addr _ _ _ _ _ Hi Ha) as Haddr.
  pose proof (ao_magic _ _ _ _ (h_arena _ _ _ Hi a ar Ha)) as Hmag.
  unfold free. rewrite (proj2 (Z.eqb_neq p 0)) by lia. cbn [negb]. wp_step.
  destruct (a_desc ar) as [i|] eqn:Hd.
  2:{ subst p. eapply wp_block_to_arena_big; [done..|]. wp_step. eapply wp_get_arena; [done|]. rewrite Hd.
    pose proof (h_arena _ _ _ Hi a ar Ha) as [_ _ Hn Hused _]. unfold npages in *. rewrite Hd in *.
    wp_step. unfold on_pages. wp_step. cbn [mk pages].
    eapply wp_mono; [apply (wp_palloc_free_multiple P KPool); [apply (h_pal _ _ _ Hi)|lia|done]|].
    intros _ P' (Hfr & Hok & _ & Hr). unfold drop_arena. wp_step. cbn [descs arenas pages].
    exists F, (delete a A), P'. split; [done|]. by eapply big_released. }
  destruct Hp as (k & l & Hk & -> & Hl & Hni). set (p := block_at a i k) in *.
  pose proof (lookup_lt_Some _ _ _ Hl) as Hlt.
  assert (Hp : in_page a p) by (by apply block_in_page).
  assert (Hbl : p ∈ blocks a i) by (apply elem_of_blocks; eauto).
  assert (Hcap : capacity A p = bsz i)
    by (eapply capacity_small; [done|done|by eapply (arena_page F A P)]).
  rewrite Hcap in *. pose proof (bsz_pos i) as Hbsz.
  destruct (ao_count _ _ _ _ (h_arena _ _ _ Hi a ar Ha) i Hd) as (l0 & Hl0 & Hc).
  rewrite Hl in Hl0. injection Hl0 as <-. pose proof (count_le _ _ _ _ _ _ _ Hi Ha Hl) as Hle.
  pose proof (Hu a ar i Ha Hd) as Hlt'.
  assert (bpa i ≤ 4084) by (unfold bpa; apply Z.div_le_upper_bound; lia).
  eapply wp_block_to_arena; [done..|]. wp_step. eapply wp_get_arena; [done|]. rewrite Hd.
  wp_step. eapply wp_get_desc; [done|]. cbn [desc_of d_block_size blocks_per_arena]. wp_step.
  unfold on_pages at 1. wp_step. unfold on_ram. wp_step. cbn [mk pages].
  apply wp_memset; [lia|done|lia|]. change (u8 204) with 204. cbn [descs arenas pages].
  set (P1 := Pal (kernel_pool P) (user_pool P) (write (ram P) p (replicate (Z.to_nat (bsz i)) 204))).
  fold (mk F None A P1). wp_step. eapply wp_desc_acquire; [done|].
  wp_step. eapply wp_get_desc; [done|]. cbn [desc_of free_list blocks_per_arena].
  wp_step. eapply wp_set_list; [done|]. rewrite u32_small by lia.
  unfold put_arena. wp_step. wp_step. cbn [mk descs arenas pages].
  set (A1 := <[a := Arena (magic ar) (Some i) (free_cnt ar + 1)]> A).
  fold (mk (<[i := p :: l]> F) (Some i) A1 P1).
  assert (Hl1 : <[i := p :: l]> F !! i = Some (p :: l)) by (by apply list_lookup_insert_eq).
  wp_step. destruct (Z.leb_spec (bpa i) (free_cnt ar + 1)) as [Hfull|Hpart].
  - assert (Heq : free_cnt ar + 1 = bpa i) by lia.
    pose proof (hinv_write F A P p (replicate (Z.to_nat (bsz i)) 204) Hi) as Hi0. fold P1 in Hi0.
    destruct (push_block F A P1 a ar i l p Hi0 Ha Hd Hl Hp Hlive) as (Hi1 & _ & Hcnt).
    assert (Ha1 : A1 !! a = Some (Arena (magic ar) (Some i) (free_cnt ar + 1)))
      by (unfold A1; by rewrite lookup_insert_eq).
    wp_step. apply wp_assert; [by apply Z.eqb_eq|]. wp_step.
    eapply wp_mono; [apply (wp_unfill _ A1 P1 a (Arena (magic ar) (Some i) (free_cnt ar + 1)) i (p :: l));
      [done|done|done|done|done|eapply all_free; [done|done|done|lia]]|].
    intros _ h' ->. wp_step. unfold on_pages, palloc_free_page. wp_step. cbn [mk pages].
    pose proof (ao_used _ _ _ _ (h_arena _ _ _ Hi1 a _ Ha1)) as Hused.
    eapply wp_mono; [apply (wp_palloc_free_multiple P1 KPool 1 a);
      [apply (h_pal _ _ _ Hi1)|lia|exact Hused]|].
    intros _ P2 (Hfr & Hok & _ & Hr). unfold drop_arena. wp_step. cbn [mk descs arenas pages].
    rewrite list_insert_insert_eq. unfold A1. rewrite delete_insert_eq.
    fold (mk (<[i := filter (λ x, x ∉ blocks a i) (p :: l)]> F) (Some i) (delete a A) P2).
    eapply wp_desc_release; [by apply list_lookup_insert_eq|].
    eexists _, _, _. split; [done|]. by eapply full_released.
  - wp_steps. eapply wp_desc_release; [done|]. eexists _, _, _. split; [done|]. by apply part_released.
Qed.
End free.
