(* ===== verification/MallocProps.v ===== *)
(** * The block allocator

    [heap_ok] is the invariant of malloc.c between calls, [hlive] the set of
    blocks handed out, [hcap] the room in a block. *)
From S2P Require Import Prelude Bitmap BitmapFacts Mem CString CStringFacts Vaddr Palloc PallocFacts PallocProps Malloc MallocFacts MallocWp.
Local Open Scope Z_scope.

Definition lists (h : heap) : list (list Z) := free_list <$> descs h.
Definition heap_ok (h : heap) : Prop :=
  h = mk (lists h) None (arenas h) (pages h) ∧ hinv (lists h) (arenas h) (pages h) ∧ in_use (arenas h).
Definition hlive (h : heap) (b : Z) : Prop := live (lists h) (arenas h) b.
Definition hcap (h : heap) (b : Z) : Z := capacity (arenas h) b.
Definition hram (h : heap) : mem := ram (pages h).
(** The kernel pool has no room for the request. *)
Definition exhausted (h : heap) (size : Z) : Prop :=
  no_group (used_map (kernel_pool (pages h))) 0 (pages_for size) false.
(** Any two live blocks are apart. *)
Definition blocks_apart (h : heap) : Prop :=
  ∀ b b', hlive h b → hlive h b' → b ≠ b' → b + hcap h b ≤ b' ∨ b' + hcap h b' ≤ b.

Lemma lists_mk F lk A P : lists (mk F lk A P) = F.
Proof.
  unfold lists, mk. cbn [descs]. apply list_eq. intros i. rewrite list_lookup_fmap, list_lookup_imap.
  by destruct (F !! i).
Qed.
Lemma heap_ok_mk F A P : hinv F A P → in_use A → heap_ok (mk F None A P).
Proof. intros. unfold heap_ok. rewrite lists_mk. done. Qed.
Lemma hlive_mk F lk A P b : hlive (mk F lk A P) b = live F A b.
Proof. unfold hlive. by rewrite lists_mk. Qed.

Lemma heap_blocks_apart h : heap_ok h → blocks_apart h.
Proof. intros (_ & Hi & _) b b' Hb Hb' Hne. by eapply live_apart. Qed.

(** [malloc_init] on a fresh page allocator: no block is handed out. *)
Definition empty_heap (P : pal) : heap := mk (replicate 7 []) None ∅ P.
Lemma malloc_init_ok P :
  pal_ok P → malloc_init (Heap [] ∅ P) = Ok (tt, empty_heap P) ∧
    heap_ok (empty_heap P) ∧ ∀ b, ¬ hlive (empty_heap P) b.
Proof.
  intros Hok. split; [reflexivity|]. split.
  - apply heap_ok_mk; [|by intros a ar i].
    split; [done|done| | |done|done].
    + intros i l b [-> _]%lookup_replicate []%not_elem_of_nil.
    + intros i l [-> _]%lookup_replicate. constructor.
  - intros b. unfold empty_heap. rewrite hlive_mk. by intros (a & ar & Ha & _).
Qed.

(** C22: malloc of a nonzero size returns, and either the kernel pool cannot
    provide the pages and it gives a null pointer and changes nothing, or it gives
    a block that was not handed out before and is at least as large as asked for;
    the block is added to the live ones, which stay apart from each other, and
    no block changes its size or any byte of memory its value.  (Sizes within
    12 bytes of 2^32 are left out: see [malloc_wraps].) *)
Theorem malloc_correct h size :
  heap_ok h → 0 < size < 2 ^ 32 - 12 →
  (malloc size h = Ok (0, h) ∧ exhausted h size) ∨
  ∃ p h', malloc size h = Ok (p, h') ∧ p ≠ 0 ∧ heap_ok h' ∧
    ¬ hlive h p ∧ (∀ x, hlive h' x ↔ hlive h x ∨ x = p) ∧ blocks_apart h' ∧
    size ≤ hcap h' p ∧ (∀ x, hlive h x → hcap h' x = hcap h x) ∧ hram h' = hram h.
Proof.
  intros (Hh & Hi & Hu) Hsz.
  destruct (proj1 (wp_ok _ _ _) (wp_malloc _ _ _ size Hi Hu Hsz))
    as (p & h' & E & [(-> & -> & Hno)|(Hp & F' & A' & P' & -> & [Hi' Hu' Hr Hn Hl Hs Hk])]).
  - left. rewrite <- Hh in E. done.
  - right. rewrite <- Hh in E. exists p, (mk F' None A' P'). unfold PHYS_BASE in Hp.
    pose proof (heap_ok_mk _ _ _ Hi' Hu') as Hok'.
    split_and!; [done|lia|done|done| |by apply heap_blocks_apart|done|done|done].
    intros x. rewrite hlive_mk. apply Hl.
Qed.

(** C23: free of a live block returns, takes exactly this block out of the live
    ones, and leaves the size and the contents of all others as they were.  The
    pages in use afterwards are those before, less the pages of the block's arena
    if no other live block is in it: an arena that becomes empty goes back to the
    page allocator, all of it for a block with pages of its own, and no page that
    holds a live block does.  No assertion of malloc.c or palloc.c fails. *)
Theorem free_correct h p :
  heap_ok h → hlive h p →
  ∃ h', free p h = Ok (tt, h') ∧ heap_ok h' ∧ (∀ x, hlive h' x ↔ hlive h x ∧ x ≠ p) ∧
    (∀ x, hlive h' x → hcap h' x = hcap h x ∧
      ∀ y, x ≤ y < x + hcap h x → hram h' !! y = hram h !! y) ∧
    ∀ w x, used w (pages h') x ↔
      used w (pages h) x ∧ ¬ (w = KPool ∧ pg_round_down p ≤ x < p + hcap h p ∧
        ∀ b, hlive h b → pg_round_down b = pg_round_down p → b = p).
Proof.
  intros (Hh & Hi & Hu) Hp.
  destruct (proj1 (wp_ok _ _ _) (wp_free _ _ _ p Hi Hu Hp)) as ([] & h' & E & F' & A' & P' & -> & [Hi' Hu' Hl Hk Hr Hpg]).
  rewrite <- Hh in E. exists (mk F' None A' P').
  split_and!; [done|by apply heap_ok_mk|intros x; rewrite hlive_mk; apply Hl| |exact Hpg].
  intros x Hx. rewrite hlive_mk in Hx. split; [by apply Hk|]. intros y Hy. by apply (Hr x).
Qed.

(** ** realloc *)
Lemma mapped_bytes (m : mem) a n :
  mapped m a n → 0 ≤ n → ∃ bs, bytes_at m a bs ∧ Z.of_nat (length bs) = n.
Proof.
  intros Hm Hn. exists ((λ k, default 0 (m !! (a + Z.of_nat k))) <$> seq 0 (Z.to_nat n)).
  rewrite length_fmap, length_seq. split; [|lia].
  intros i b. rewrite list_lookup_fmap. destruct (seq 0 (Z.to_nat n) !! i) as [k|] eqn:Hk; [|done].
  apply lookup_seq in Hk as [-> Hk]. intros [= <-]. cbn.
  destruct (Hm (a + Z.of_nat i)) as [v ->]; [lia|done].
Qed.

Lemma wp_block_size F A P p (Q : Z → heap → Prop) :
  hinv F A P → live F A p → Q (capacity A p) (mk F None A P) → wp (block_size p) (mk F None A P) Q.
Proof.
  intros Hi Hp HQ. pose proof Hp as (a & ar & Ha & Hb).
  destruct (live_extent _ _ _ _ Hi Hp) as (a' & ar' & Ha' & Hpg & Hr & Hlo & Hhi & _).
  pose proof (hinv_addr _ _ _ _ _ Hi Ha) as Haddr.
  pose proof (ao_magic _ _ _ _ (h_arena _ _ _ Hi a ar Ha)) as Hmag.
  unfold block_size. wp_step. destruct (a_desc ar) as [i|] eqn:Hd.
  - destruct Hb as (k & l & Hk & -> & Hl & _).
    eapply wp_block_to_arena; [done..|apply elem_of_blocks; eauto|].
    wp_step. eapply wp_get_arena; [done|]. rewrite Hd. wp_step. eapply wp_get_desc; [done|]. wp_step.
    cbn. rewrite (capacity_small A a ar i) in HQ by
      (done || (apply (arena_page F A P a ar); [done|done|by apply block_in_page])). done.
  - subst p. assert (Hin : in_page a (a + 12)) by (unfold in_page; lia).
    rewrite (capacity_big A a ar) in HQ by (done || by apply (arena_page F A P a ar)).
    eapply wp_block_to_arena_big; [done..|]. wp_step. eapply wp_get_arena; [done|]. rewrite Hd. wp_step.
    destruct (arena_range _ _ _ _ _ Hi Ha) as (Hal & Hlo' & Hhi' & Hn & _). unfold npages, PHYS_BASE in *.
    rewrite Hd in *.
    assert (pg_ofs (a + 12) = 12) as ->.
    { rewrite pg_ofs_mod. pose proof (Z_div_exact_full_2 a 4096 ltac:(lia) Hal). symmetry.
      apply (Z.mod_unique _ _ (a `div` 4096)); lia. }
    change PGSIZE with 4096. by rewrite u32_small by lia.
Qed.

(** Realloc of a live block to a nonzero size either fails for lack of
    pages and changes nothing, or returns a new block of at least that size which
    begins with the contents of the old one (as much as fits in both), frees the
    old block, and leaves all other live blocks and their contents alone. *)
Theorem realloc_correct h p size :
  heap_ok h → hlive h p → 0 < size < 2 ^ 32 - 12 →
  (realloc p size h = Ok (0, h) ∧ exhausted h size) ∨
  ∃ q h', realloc p size h = Ok (q, h') ∧ q ≠ 0 ∧ heap_ok h' ∧ ¬ hlive h q ∧
    (∀ x, hlive h' x ↔ hlive h x ∧ x ≠ p ∨ x = q) ∧ size ≤ hcap h' q ∧
    (∀ y, 0 ≤ y < Z.min size (hcap h p) → hram h' !! (q + y) = hram h !! (p + y)) ∧
    (∀ x y, hlive h x → x ≠ p → x ≤ y < x + hcap h x → hram h' !! y = hram h !! y).
Proof.
  intros (Hh & Hi & Hu) Hp Hsz.
  assert (Hwp : wp (realloc p size) (mk (lists h) None (arenas h) (pages h)) (λ q h',
    (q = 0 ∧ h' = h ∧ exhausted h size) ∨
    (q ≠ 0 ∧ heap_ok h' ∧ ¬ hlive h q ∧
      (∀ x, hlive h' x ↔ hlive h x ∧ x ≠ p ∨ x = q) ∧ size ≤ hcap h' q ∧
      (∀ y, 0 ≤ y < Z.min size (hcap h p) → hram h' !! (q + y) = hram h !! (p + y)) ∧
      (∀ x y, hlive h x → x ≠ p → x ≤ y < x + hcap h x → hram h' !! y = hram h !! y)))).
  { destruct (live_mapped _ _ _ _ Hi Hp) as (Hmap & Hpos & _). unfold PHYS_BASE in Hpos.
    unfold realloc. rewrite (proj2 (Z.eqb_neq size 0)) by lia. wp_step.
    eapply wp_mono; [by apply wp_malloc|].
    intros q ? [(-> & -> & Hno)|(Hq & F' & A' & P' & -> & [Hi' Hu' Hr Hn Hl Hs Hk])].
    { rewrite Z.eqb_refl. cbn [negb]. rewrite andb_false_r. wp_steps. left. by rewrite <- Hh. }
    unfold PHYS_BASE in Hq. rewrite (proj2 (Z.eqb_neq p 0)), (proj2 (Z.eqb_neq q 0)) by lia. cbn [negb andb].
    assert (Hp' : live F' A' p) by (apply Hl; by left).
    assert (Hq' : live F' A' q) by (apply Hl; by right).
    wp_step. wp_step. apply wp_block_size; [done|done|]. rewrite (Hk p Hp).
    change (capacity (arenas h) p) with (hcap h p). set (n := if size <? hcap h p then size else hcap h p).
    assert (Hn' : n = Z.min size (hcap h p)) by (unfold n; destruct (Z.ltb_spec size (hcap h p)); lia).
    destruct (live_mapped _ _ _ _ Hi' Hq') as (Hmq & _ & _).
    destruct (live_extent _ _ _ _ Hi Hp) as (_ & _ & _ & _ & _ & _ & _ & Hcap). fold (hcap h p) in Hcap.
    destruct (mapped_bytes (ram (pages h)) p n) as (bs & Hbs & Hlen);
      [intros x Hx; apply Hmap; fold (hcap h p); lia|lia|].
    assert (Hne : q ≠ p) by (intros ->; done).
    pose proof (live_apart _ _ _ q p Hi' Hq' Hp' Hne) as Hap. rewrite (Hk p Hp) in Hap. fold (hcap h p) in Hap.
    wp_step. unfold on_pages, on_ram. wp_step. wp_step. cbn [mk pages].
    apply (wp_memcpy _ q p bs); [done|by rewrite Hr|intros x Hx; apply Hmq; lia|lia|lia|lia|].
    cbn [descs arenas pages]. rewrite Hr. set (P2 := Pal _ _ (write _ _ _)).
    pose proof (hinv_write F' A' P' q bs Hi') as Hi2. rewrite Hr in Hi2. fold P2 in Hi2.
    eapply wp_mono; [apply (wp_free F' A' P2 p Hi2 Hu' Hp')|].
    intros _ ? (F3 & A3 & P3 & -> & [Hi3 Hu3 Hl3 Hk3 Hr3]). wp_step. right.
    assert (Hq3 : live F3 A3 q) by (apply Hl3; done).
    split_and!; [lia|by apply heap_ok_mk|done| | | |].
    - intros x. rewrite hlive_mk, Hl3, Hl. fold (hlive h x). naive_solver.
    - unfold hcap. cbn [mk arenas]. by rewrite (Hk3 q Hq3).
    - intros y Hy. unfold hram. cbn [mk pages]. rewrite (Hr3 q _ Hq3) by lia. cbn [P2 ram].
      destruct (lookup_lt_is_Some_2 bs (Z.to_nat y)) as [b Hb]; [lia|].
      specialize (Hbs _ _ Hb). rewrite Z2Nat.id in Hbs by lia. rewrite Hbs.
      pose proof (lookup_write_in (ram (pages h)) q bs _ _ Hb) as Hw. by rewrite Z2Nat.id in Hw by lia.
    - intros x y Hx Hxp Hy. fold (hlive h x) in *.
      assert (Hx' : live F' A' x) by (apply Hl; by left).
      assert (Hx3 : live F3 A3 x) by (apply Hl3; done).
      assert (Hxq : x ≠ q) by (intros ->; done).
      unfold hram. cbn [mk pages]. rewrite (Hr3 x y Hx3) by (by rewrite (Hk x Hx)). cbn [P2 ram].
      apply lookup_write_out. pose proof (live_apart _ _ _ q x Hi' Hq' Hx' (not_eq_sym Hxq)) as Hap'.
      rewrite (Hk x Hx) in Hap'. unfold hcap in Hy. lia. }
  rewrite <- Hh in Hwp. apply wp_ok in Hwp as (q & h' & E & [(-> & -> & Hno)|Hrest]); [by left|].
  right. by exists q, h'.
Qed.

(** ** calloc

    The block is zeroed, if the product of the arguments fits. *)
Lemma calloc_zeroed h a b :
  heap_ok h → 0 < a → 0 < b → a * b < 2 ^ 32 - 12 →
  wp (calloc a b) h (λ p h', p = 0 ∨ heap_ok h' ∧ ¬ hlive h p ∧ hlive h' p ∧ a * b ≤ hcap h' p ∧
    ∀ y, p ≤ y < p + a * b → hram h' !! y = Some 0).
Proof.
  intros (Hh & Hi & Hu) Ha Hb Hsz. unfold calloc. rewrite u32_small by nia.
  rewrite (proj2 (Z.ltb_ge (a * b) a)), (proj2 (Z.ltb_ge (a * b) b)) by nia. cbn [orb]. rewrite Hh at 1.
  wp_step. eapply wp_mono; [apply wp_malloc; [done|done|nia]|].
  intros p ? [(-> & -> & _)|(Hp & F' & A' & P' & -> & [Hi' Hu' Hr Hn Hl Hs Hk])]; [wp_steps; by left|].
  assert (Hp' : live F' A' p) by (apply Hl; by right). unfold PHYS_BASE in Hp.
  destruct (live_mapped _ _ _ _ Hi' Hp') as (Hm & _ & _).
  rewrite (proj2 (Z.eqb_neq p 0)) by lia. cbn [negb]. wp_step. wp_step. unfold on_pages, on_ram. wp_step. wp_step.
  apply wp_memset; [nia|intros x Hx; apply Hm; lia|lia|]. wp_steps. right.
  cbn [mk descs arenas pages]. fold (mk F' None A' (Pal (kernel_pool P') (user_pool P')
    (write (ram P') p (replicate (Z.to_nat (a * b)) (u8 0))))).
  split_and!; [by apply heap_ok_mk; [apply hinv_write|]|done|by rewrite hlive_mk|done|].
  intros y Hy. unfold hram. cbn [mk pages ram]. rewrite lookup_write, length_replicate, decide_True by lia.
  apply lookup_replicate. split; [done|lia].
Qed.

(** ** Witnesses: the small page allocator of PallocProps.v *)
Definition heap0 : heap := empty_heap small_pal.
Definition block1 : Z := PHYS_BASE + 4096 + 12.

Lemma heap0_ok : heap_ok heap0.
Proof. apply malloc_init_ok, small_pal_ok. Qed.

Lemma malloc_correct_witness :
  ∃ p h', malloc 100 heap0 = Ok (p, h') ∧ p = block1 ∧ heap_ok h' ∧ hlive h' p ∧ 100 ≤ hcap h' p.
Proof.
  assert (Hp : match malloc 100 heap0 with Ok (q, _) => q | _ => 0 end = block1) by (vm_compute; reflexivity).
  destruct (malloc_correct heap0 100) as [[E _]|(p & h' & E & Hne & Hok & Hn & Hl & Hap & Hs & _)].
  - apply heap0_ok.
  - lia.
  - rewrite E in Hp. discriminate Hp.
  - exists p, h'. rewrite E in Hp. split; [exact E|]. split; [exact Hp|]. split; [exact Hok|].
    split; [apply Hl; right; reflexivity|exact Hs].
Defined.

(** A heap with one block. *)
Lemma first_block : ∃ h, malloc 100 heap0 = Ok (block1, h) ∧ heap_ok h ∧ hlive h block1.
Proof.
  assert (Hp : match malloc 100 heap0 with Ok (q, _) => q | _ => 0 end = block1) by (vm_compute; reflexivity).
  destruct heap0_ok as (Hh & Hi & Hu).
  destruct (proj1 (wp_ok _ _ _) (wp_malloc _ _ _ 100 Hi Hu ltac:(lia))) as (p & h' & E & Hcase).
  rewrite <- Hh in E. rewrite E in Hp. subst p.
  destruct Hcase as [(Hz & _)|(_ & F' & A' & P' & -> & [Hi' Hu' _ _ Hl _ _])]; [discriminate Hz|].
  eexists. split; [exact E|]. split; [by apply heap_ok_mk|]. rewrite hlive_mk. apply Hl. by right.
Qed.
Lemma one_block : ∃ h, heap_ok h ∧ hlive h block1 ∧ (∀ b, hlive h b → b = block1) ∧ 0 < hcap h block1.
Proof.
  destruct first_block as (h & E & Hok & Hl). exists h. split_and!; [done..| |].
  - destruct heap0_ok as (Hh & Hi & Hu).
    destruct (proj1 (wp_ok _ _ _) (wp_malloc _ _ _ 100 Hi Hu ltac:(lia))) as (p & h' & E' & Hcase).
    rewrite <- Hh, E in E'. injection E' as <- <-.
    destruct Hcase as [(Hz & _)|(_ & F' & A' & P' & -> & [_ _ _ _ Hl' _ _])]; [discriminate Hz|].
    intros b Hb. rewrite hlive_mk in Hb. apply Hl' in Hb as [Hb|?]; [|done].
    destruct (malloc_init_ok small_pal small_pal_ok) as (_ & _ & Hno). by destruct (Hno b).
  - destruct Hok as (_ & Hi & _). destruct (live_extent _ _ _ _ Hi Hl) as (_ & _ & _ & _ & _ & _ & _ & Hc).
    unfold hcap. lia.
Qed.

Lemma free_correct_witness :
  ∃ h h', heap_ok h ∧ hlive h block1 ∧ free block1 h = Ok (tt, h') ∧ ¬ hlive h' block1 ∧
    ¬ used KPool (pages h') (PHYS_BASE + 4096).
Proof.
  destruct one_block as (h & Hok & Hl & Hone & Hcap). destruct (free_correct h block1 Hok Hl) as (h' & E & _ & Hl' & _ & Hpg).
  exists h, h'. split; [exact Hok|]. split; [exact Hl|]. split; [exact E|]. split.
  - intros Hx. apply Hl' in Hx. destruct Hx as [_ Hx]. apply Hx. reflexivity.
  - intros Hx. apply Hpg in Hx as [_ Hno]. apply Hno. split; [reflexivity|]. split.
    + change (pg_round_down block1) with (PHYS_BASE + 4096). unfold block1 in *. lia.
    + intros b Hb _. exact (Hone b Hb).
Defined.

Lemma realloc_correct_witness :
  ∃ h q h', heap_ok h ∧ hlive h block1 ∧ realloc block1 200 h = Ok (q, h') ∧ q = block1 + 4096 ∧ hlive h' q.
Proof.
  destruct first_block as (h & E & Hok & Hl).
  assert (Hq : match malloc 100 heap0 with
    | Ok (_, h) => match realloc block1 200 h with Ok (q, _) => q | _ => 0 end | _ => 0 end = block1 + 4096)
    by (vm_compute; reflexivity).
  rewrite E in Hq.
  destruct (realloc_correct h block1 200 Hok Hl) as [[E' _]|(q & h' & E' & _ & _ & _ & Hl' & _)].
  - lia.
  - rewrite E' in Hq. discriminate Hq.
  - exists h, q, h'. rewrite E' in Hq. split; [exact Hok|]. split; [exact Hl|]. split; [exact E'|].
    split; [exact Hq|apply Hl'; right; reflexivity].
Defined.

(** ** Requests that wrap

    A request within 12 bytes of 2^32 wraps in [size + sizeof *a], and malloc
    returns a block of a single page for it. *)
Lemma malloc_wraps :
  ∃ h, malloc (2 ^ 32 - 1) heap0 = Ok (block1, h) ∧ hcap h block1 = 4084.
Proof.
  destruct (malloc (2 ^ 32 - 1) heap0) as [[p h]|e] eqn:E.
  - exists h. assert (match malloc (2 ^ 32 - 1) heap0 with Ok (q, g) => (q, hcap g block1) | _ => (0, 0) end
      = (block1, 4084)) as Hp by (vm_compute; reflexivity).
    rewrite E in Hp. by injection Hp as -> ->.
  - exfalso. assert (match malloc (2 ^ 32 - 1) heap0 with Ok _ => true | _ => false end = true) as Hp
      by (vm_compute; reflexivity). by rewrite E in Hp.
Qed.

(** The overflow test of calloc ([size < a || size < b]) misses products that
    wrap to something larger than both factors: 65537 times 65537 is answered
    as a request for 131073 bytes. *)
Lemma calloc_wraps :
  calloc 65537 65537 heap0 = (p ← malloc 131073;
    (if negb (p =? 0) then on_pages (on_ram (memset p 0 131073)) ;; mret tt else mret tt) ;; mret p) heap0.
Proof. reflexivity. Qed.
