(* ===== verification/Pagedir.v ===== *)
(** * userprog/pagedir.c: page directories

    Page directories and page tables are arrays of 1024 words in pages of the
    page allocator's memory.  The processor state is the register CR3 and the
    number of times it was loaded (each load flushes the TLB).  [init_page_dir]
    and [init_ram_pages] are set up by threads/init.c and the loader. *)
From S2P Require Import Prelude Bitmap Mem CString Vaddr Palloc.
Local Open Scope Z_scope.

(** Little-endian words in memory. *)
Definition load32 (a : Z) : M mem Z :=
  b0 ← load a; b1 ← load (a + 1); b2 ← load (a + 2); b3 ← load (a + 3);
  mret (b0 + 256 * b1 + 65536 * b2 + 16777216 * b3).
Definition store32 (a v : Z) : M mem unit :=
  store a (v `mod` 256) ;; store (a + 1) (v `div` 256 `mod` 256) ;;
  store (a + 2) (v `div` 65536 `mod` 256) ;; store (a + 3) (v `div` 16777216 `mod` 256).

Record mmu := Mmu { frames : pal; cr3 : Z; cr3_loads : Z }.

Definition on_frames {A} (m : M pal A) : M mmu A :=
  zoom frames (λ f s, Mmu f (cr3 s) (cr3_loads s)) m.
Definition on_mem {A} (m : M mem A) : M mmu A := on_frames (on_ram m).

Section pagedir.
Context (init_page_dir init_ram_pages : Z).

Definition pagedir_create : M mmu Z :=
  pd ← on_frames (palloc_get_page 0);
  (if negb (pd =? 0) then on_mem (memcpy pd init_page_dir PGSIZE) ;; mret tt else mret tt) ;;
  mret pd.

Definition pagedir_destroy (pd : Z) : M mmu unit :=
  if pd =? 0 then mret tt
  else
    ASSERT (negb (pd =? init_page_dir)) ;;
    for_upto (Z.to_nat (pd_no PHYS_BASE)) (λ i,
      pde ← on_mem (load32 (pd + 4 * Z.of_nat i));
      if negb (Z.land pde PTE_P =? 0) then
        pt ← pde_get_pt pde;
        for_upto (Z.to_nat (PGSIZE `div` 4)) (λ j,
          pte ← on_mem (load32 (pt + 4 * Z.of_nat j));
          if negb (Z.land pte PTE_P =? 0) then
            page ← pte_get_page pte;
            on_frames (palloc_free_page page)
          else mret tt) ;;
        on_frames (palloc_free_page pt)
      else mret tt) ;;
    on_frames (palloc_free_page pd).

Definition lookup_page (pd vaddr : Z) (create : bool) : M mmu Z :=
  ASSERT (negb (pd =? 0)) ;;
  ASSERT (negb create || is_user_vaddr vaddr) ;;
  let pde := pd + 4 * pd_no vaddr in
  e ← on_mem (load32 pde);
  ok ← (if e =? 0 then
          if create then
            pt ← on_frames (palloc_get_page PAL_ZERO);
            if pt =? 0 then mret false
            else
              v ← pde_create pt;
              on_mem (store32 pde v) ;;
              mret true
          else mret false
        else mret true);
  if negb ok then mret 0
  else
    e ← on_mem (load32 pde);
    pt ← pde_get_pt e;
    mret (pt + 4 * pt_no vaddr).

Definition pagedir_set_page (pd upage kpage : Z) (writable : bool) : M mmu bool :=
  ASSERT (pg_ofs upage =? 0) ;;
  ASSERT (pg_ofs kpage =? 0) ;;
  ASSERT (is_user_vaddr upage) ;;
  p ← vtop kpage;
  ASSERT (Z.shiftr p PTSHIFT <? init_ram_pages) ;;
  ASSERT (negb (pd =? init_page_dir)) ;;
  pte ← lookup_page pd upage true;
  if negb (pte =? 0) then
    e ← on_mem (load32 pte);
    ASSERT (Z.land e PTE_P =? 0) ;;
    v ← pte_create_user kpage writable;
    on_mem (store32 pte v) ;;
    mret true
  else mret false.

Definition pagedir_get_page (pd uaddr : Z) : M mmu Z :=
  ASSERT (is_user_vaddr uaddr) ;;
  pte ← lookup_page pd uaddr false;
  if pte =? 0 then mret 0
  else
    e ← on_mem (load32 pte);
    if negb (Z.land e PTE_P =? 0) then
      page ← pte_get_page e; mret (u32 (page + pg_ofs uaddr))
    else mret 0.

Definition pagedir_activate (pd : Z) : M mmu unit :=
  let pd := if pd =? 0 then init_page_dir else pd in
  p ← vtop pd;
  modify (λ s, Mmu (frames s) p (cr3_loads s + 1)).

Definition active_pd : M mmu Z := p ← gets cr3; ptov p.

Definition invalidate_pagedir (pd : Z) : M mmu unit :=
  a ← active_pd;
  if a =? pd then pagedir_activate pd else mret tt.

Definition pagedir_clear_page (pd upage : Z) : M mmu unit :=
  ASSERT (pg_ofs upage =? 0) ;;
  ASSERT (is_user_vaddr upage) ;;
  pte ← lookup_page pd upage false;
  if pte =? 0 then mret tt
  else
    e ← on_mem (load32 pte);
    if negb (Z.land e PTE_P =? 0) then
      on_mem (store32 pte (Z.land e (u32 (Z.lnot PTE_P)))) ;;
      invalidate_pagedir pd
    else mret tt.

(** The tests and assignments of the dirty and accessed bits. *)
Definition pte_bit (mask pd vpage : Z) : M mmu bool :=
  pte ← lookup_page pd vpage false;
  if pte =? 0 then mret false
  else e ← on_mem (load32 pte); mret (negb (Z.land e mask =? 0)).
Definition set_pte_bit (mask pd vpage : Z) (b : bool) : M mmu unit :=
  pte ← lookup_page pd vpage false;
  if pte =? 0 then mret tt
  else
    e ← on_mem (load32 pte);
    if b then on_mem (store32 pte (Z.lor e mask))
    else on_mem (store32 pte (Z.land e (u32 (Z.lnot mask)))) ;; invalidate_pagedir pd.

Definition pagedir_is_dirty (pd vpage : Z) : M mmu bool := pte_bit PTE_D pd vpage.
Definition pagedir_set_dirty (pd vpage : Z) (dirty : bool) : M mmu unit := set_pte_bit PTE_D pd vpage dirty.
Definition pagedir_is_accessed (pd vpage : Z) : M mmu bool := pte_bit PTE_A pd vpage.
Definition pagedir_set_accessed (pd vpage : Z) (accessed : bool) : M mmu unit := set_pte_bit PTE_A pd vpage accessed.
End pagedir.
