(* ===== verification/PagedirFacts.v ===== *)
(** * Facts about page directories

    Words in memory, the invariant of a page directory, and what finding or
    creating a page table entry does. *)
From S2P Require Import Prelude Bitmap BitmapFacts Mem CString CStringFacts Vaddr Palloc PallocFacts Pagedir.
Local Open Scope Z_scope.

(** ** Words *)
Definition byte_of (m : mem) (a : Z) : Z := default 0 (m !! a).
Definition word (m : mem) (a : Z) : Z :=
  byte_of m a + 256 * byte_of m (a + 1) + 65536 * byte_of m (a + 2) + 16777216 * byte_of m (a + 3).
Definition word_bytes4 (v : Z) : list Z :=
  [v `mod` 256; v `div` 256 `mod` 256; v `div` 65536 `mod` 256; v `div` 16777216 `mod` 256].
Definition bytes_ok (m : mem) : Prop := ∀ a b, m !! a = Some b → 0 ≤ b < 256.

Section words.
Implicit Types (m : mem) (a v : Z).

Lemma byte_of_lookup m a : is_Some (m !! a) → m !! a = Some (byte_of m a).
Proof. unfold byte_of. by intros [b ->]. Qed.

Lemma wp_load32 m a (Q : Z → mem → Prop) : mapped m a 4 → Q (word m a) m → wp (load32 a) m Q.
Proof.
  intros Hm HQ. unfold load32.
  repeat (wp_step; eapply wp_load; [apply byte_of_lookup, Hm; lia|]). wp_step. done.
Qed.

Lemma wp_store32 m a v (Q : unit → mem → Prop) :
  mapped m a 4 → Q tt (write m a (word_bytes4 v)) → wp (store32 a v) m Q.
Proof.
  intros Hm HQ. unfold store32.
  wp_step. apply wp_store; [apply Hm; lia|].
  wp_step. apply wp_store; [rewrite lookup_insert_ne by lia; apply Hm; lia|].
  wp_step. apply wp_store; [rewrite !lookup_insert_ne by lia; apply Hm; lia|].
  apply wp_store; [rewrite !lookup_insert_ne by lia; apply Hm; lia|].
  unfold word_bytes4 in HQ. cbn [write] in HQ.
  replace (a + 1 + 1) with (a + 2) in HQ by lia. replace (a + 2 + 1) with (a + 3) in HQ by lia.
  match goal with |- Q tt ?x => match type of HQ with Q tt ?y => replace x with y; [done|] end end.
  apply map_eq. intros x. rewrite !lookup_insert. repeat destruct (decide _); try lia; done.
Qed.

Lemma word_write_eq m a v : 0 ≤ v < 2 ^ 32 → word (write m a (word_bytes4 v)) a = v.
Proof.
  intros Hv.
  assert (H : ∀ k b, word_bytes4 v !! k = Some b → byte_of (write m a (word_bytes4 v)) (a + Z.of_nat k) = b).
  { intros k b Hk. unfold byte_of. by rewrite (lookup_write_in _ _ _ _ _ Hk). }
  pose proof (H 0%nat _ eq_refl) as H0. pose proof (H 1%nat _ eq_refl) as H1.
  pose proof (H 2%nat _ eq_refl) as H2. pose proof (H 3%nat _ eq_refl) as H3. clear H.
  rewrite Z.add_0_r in H0. change (Z.of_nat 1) with 1 in H1. change (Z.of_nat 2) with 2 in H2.
  change (Z.of_nat 3) with 3 in H3. unfold word. rewrite H0, H1, H2, H3. clear H0 H1 H2 H3.
  rewrite (Z.mod_small (v `div` 16777216)) by (split; [apply Z.div_pos|apply Z.div_lt_upper_bound]; lia).
  pose proof (Z.div_mod v 256). pose proof (Z.div_mod (v `div` 256) 256). pose proof (Z.div_mod (v `div` 65536) 256).
  rewrite !Z.div_div in * by lia. change (256 * 256) with 65536 in *. change (65536 * 256) with 16777216 in *. lia.
Qed.

Lemma word_write_ne m a v a' : a + 4 ≤ a' ∨ a' + 4 ≤ a → word (write m a (word_bytes4 v)) a' = word m a'.
Proof. intros H. unfold word, byte_of. rewrite !lookup_write_out by (simpl; lia). done. Qed.

Lemma bytes_ok_write m a bs : bytes_ok m → Forall (λ b, 0 ≤ b < 256) bs → bytes_ok (write m a bs).
Proof.
  intros Hm Hb x b. rewrite lookup_write. destruct (decide _); [|apply Hm].
  intros Hx. exact (Forall_lookup_1 _ _ _ _ Hb Hx).
Qed.
Lemma word_bytes4_ok v : Forall (λ b, 0 ≤ b < 256) (word_bytes4 v).
Proof. repeat constructor; apply Z.mod_pos_bound; lia. Qed.

Lemma byte_of_range m a : bytes_ok m → 0 ≤ byte_of m a < 256.
Proof. intros Hm. unfold byte_of. destruct (m !! a) eqn:E; [by eapply Hm|simpl; lia]. Qed.
Lemma word_range m a : bytes_ok m → 0 ≤ word m a < 2 ^ 32.
Proof.
  intros Hm. unfold word. pose proof (byte_of_range m a Hm). pose proof (byte_of_range m (a + 1) Hm).
  pose proof (byte_of_range m (a + 2) Hm). pose proof (byte_of_range m (a + 3) Hm). lia.
Qed.

Lemma word_zeros m p n a :
  p ≤ a → a + 4 ≤ p + n → word (write m p (replicate (Z.to_nat n) 0)) a = 0.
Proof.
  intros Hlo Hhi.
  assert (Hz : ∀ x, p ≤ x < p + n → byte_of (write m p (replicate (Z.to_nat n) 0)) x = 0).
  { intros x Hx. unfold byte_of. rewrite lookup_write, length_replicate, decide_True by lia.
    by rewrite (proj2 (lookup_replicate _ _ _ _)) by (split; [done|lia]). }
  unfold word. rewrite !Hz by lia. done.
Qed.
Lemma word_write_out m p bs a :
  a + 4 ≤ p ∨ p + Z.of_nat (length bs) ≤ a → word (write m p bs) a = word m a.
Proof. intros H. unfold word, byte_of. by rewrite !lookup_write_out by lia. Qed.
End words.

(** ** Pages of the kernel pool *)
Lemma used_range_addr w P a :
  pal_ok P → used w P a →
  a `mod` 4096 = 0 ∧ PHYS_BASE < a ∧ a + 4096 ≤ 2 ^ 32 ∧ mapped (ram P) a 4096.
Proof.
  intros Hok [(i & Hi & ->) _]. destruct (pa_pool _ Hok w) as [_ _ Hal Hb He].
  split_and!; [by rewrite Z.mul_comm, Z_mod_plus_full|lia|lia|].
  intros x Hx. apply (pa_ram _ Hok w). lia.
Qed.

(** Different aligned pages do not overlap. *)
Lemma pages_apart a b : a `mod` 4096 = 0 → b `mod` 4096 = 0 → a ≠ b → a + 4096 ≤ b ∨ b + 4096 ≤ a.
Proof.
  intros Ha Hb Hne. pose proof (Z_div_exact_full_2 a 4096 ltac:(lia) Ha).
  pose proof (Z_div_exact_full_2 b 4096 ltac:(lia) Hb). lia.
Qed.

(** ** Page directories *)
Definition mram (s : mmu) : mem := ram (frames s).
(** The page table a page directory entry points to. *)
Definition table (e : Z) : Z := e - 7 + PHYS_BASE.
Definition pde_of (s : mmu) (pd j : Z) : Z := word (mram s) (pd + 4 * j).
Definition slot (s : mmu) (pd va : Z) : Z := table (pde_of s pd (va `div` 4194304)) + 4 * ((va `div` 4096) `mod` 1024).
(** The page table entry of a user address; 0 if there is no page table. *)
Definition pte_val (s : mmu) (pd va : Z) : Z :=
  if pde_of s pd (va `div` 4194304) =? 0 then 0 else word (mram s) (slot s pd va).
Definition present (e : Z) : bool := negb (Z.land e PTE_P =? 0).
Definition user_addr (va : Z) : Prop := 0 ≤ va < PHYS_BASE.

Record pd_ok (s : mmu) (pd : Z) : Prop := {
  pk_pal : pal_ok (frames s);
  pk_bytes : bytes_ok (mram s);
  pk_pd : used KPool (frames s) pd;
  pk_pde : ∀ j, 0 ≤ j < 768 → pde_of s pd j = 0 ∨
    (used KPool (frames s) (table (pde_of s pd j)) ∧ table (pde_of s pd j) ≠ pd);
  pk_inj : ∀ j j', 0 ≤ j < 768 → 0 ≤ j' < 768 → pde_of s pd j ≠ 0 → pde_of s pd j = pde_of s pd j' → j = j';
  pk_pte : ∀ va, user_addr va → present (pte_val s pd va) = true → pte_val s pd va < 2 ^ 32 - PHYS_BASE;
}.

Section directories.
Implicit Types (s : mmu) (pd va : Z).

Lemma user_index va : user_addr va → 0 ≤ va `div` 4194304 < 768 ∧ 0 ≤ (va `div` 4096) `mod` 1024 < 1024.
Proof.
  unfold user_addr, PHYS_BASE. intros Hva. split; [split; [apply Z.div_pos|apply Z.div_lt_upper_bound]; lia|].
  apply Z.mod_pos_bound. lia.
Qed.
Lemma user_pt_no va : user_addr va → pt_no va = (va `div` 4096) `mod` 1024.
Proof. unfold user_addr, PHYS_BASE. intros. apply pt_no_div. lia. Qed.

(** Two user addresses with the same indexes are in the same page. *)
Lemma index_page va va' :
  va `div` 4194304 = va' `div` 4194304 → (va `div` 4096) `mod` 1024 = (va' `div` 4096) `mod` 1024 →
  va `div` 4096 = va' `div` 4096.
Proof.
  intros H1 H2. change 4194304 with (4096 * 1024) in H1. rewrite <- !Z.div_div in H1 by lia.
  rewrite (Z.div_mod (va `div` 4096) 1024), (Z.div_mod (va' `div` 4096) 1024) by lia. congruence.
Qed.
Lemma page_index va va' :
  va `div` 4096 = va' `div` 4096 → va `div` 4194304 = va' `div` 4194304.
Proof. intros H. change 4194304 with (4096 * 1024). rewrite <- !Z.div_div by lia. by rewrite H. Qed.

(** A table is an aligned page; the entry that points to it. *)
Lemma table_entry s pd j :
  pd_ok s pd → 0 ≤ j < 768 → pde_of s pd j ≠ 0 →
  used KPool (frames s) (table (pde_of s pd j)) ∧ table (pde_of s pd j) ≠ pd ∧
  Z.land (pde_of s pd j) PTE_P ≠ 0 ∧ Z.land (pde_of s pd j) PTE_ADDR = table (pde_of s pd j) - PHYS_BASE ∧
  0 ≤ table (pde_of s pd j) - PHYS_BASE < 2 ^ 32 - PHYS_BASE.
Proof.
  intros Hok Hj Hne. destruct (pk_pde _ _ Hok j Hj) as [|[Hu Hpd]]; [done|].
  destruct (used_range_addr _ _ _ (pk_pal _ _ Hok) Hu) as (Hal & Hlo & Hhi & _).
  pose proof (word_range (mram s) (pd + 4 * j) (pk_bytes _ _ Hok)) as Hr. fold (pde_of s pd j) in Hr.
  set (e := pde_of s pd j) in *. unfold table, PHYS_BASE in *.
  assert (Hm : e `mod` 4096 = 7).
  { replace e with (e - 7 + 3221225472 + (7 - 3221225472)) by lia. rewrite Zplus_mod, Hal. done. }
  split_and!; [done|done| | |lia|lia].
  - change PTE_P with (2 ^ 1 - 1). rewrite land_low by lia.
    assert (e `mod` 2 ^ 1 = 1) as ->; [|done]. change (2 ^ 1) with 2.
    rewrite (Z.div_mod e 4096), Hm by lia. rewrite Zplus_mod. replace (4096 * (e `div` 4096)) with (2048 * (e `div` 4096) * 2) by lia.
    by rewrite Z_mod_mult.
  - rewrite pte_addr_sub by done. lia.
Qed.

Lemma slot_mapped s pd va :
  pd_ok s pd → user_addr va → pde_of s pd (va `div` 4194304) ≠ 0 →
  mapped (mram s) (slot s pd va) 4 ∧ PHYS_BASE < slot s pd va ∧ slot s pd va + 4 ≤ 2 ^ 32 ∧
  (slot s pd va + 4 ≤ pd ∨ pd + 4096 ≤ slot s pd va).
Proof.
  intros Hok Hva Hne. destruct (user_index va Hva) as [Hj Hk].
  destruct (table_entry s pd _ Hok Hj Hne) as (Hu & Hpd & _).
  destruct (used_range_addr _ _ _ (pk_pal _ _ Hok) Hu) as (Hal & Hlo & Hhi & Hm).
  destruct (used_range_addr _ _ _ (pk_pal _ _ Hok) (pk_pd _ _ Hok)) as (Hal' & _).
  unfold slot. set (t := table _) in *. destruct (pages_apart t pd Hal Hal' Hpd);
    (split_and!; [intros x Hx; apply Hm|..]; lia).
Qed.

Lemma wp_on_mem {A} s (m : M mem A) (Q : A → mmu → Prop) :
  wp m (mram s) (λ a r, Q a (Mmu (Pal (kernel_pool (frames s)) (user_pool (frames s)) r) (cr3 s) (cr3_loads s))) →
  wp (on_mem m) s Q.
Proof. intros H. unfold on_mem, on_frames, on_ram. wp_step. wp_step. done. Qed.

Lemma mmu_eta s : Mmu (Pal (kernel_pool (frames s)) (user_pool (frames s)) (mram s)) (cr3 s) (cr3_loads s) = s.
Proof. by destruct s as [[? ? ?] ? ?]. Qed.

Lemma wp_read s a (Q : Z → mmu → Prop) :
  mapped (mram s) a 4 → Q (word (mram s) a) s → wp (on_mem (load32 a)) s Q.
Proof. intros Hm HQ. apply wp_on_mem, wp_load32; [done|]. by rewrite mmu_eta. Qed.

Lemma pd_mapped s pd j : pd_ok s pd → 0 ≤ j < 768 → mapped (mram s) (pd + 4 * j) 4.
Proof.
  intros Hok Hj. destruct (used_range_addr _ _ _ (pk_pal _ _ Hok) (pk_pd _ _ Hok)) as (_ & _ & _ & Hm).
  intros x Hx. apply Hm. lia.
Qed.

(** Finding an entry without creating a table. *)
Lemma wp_lookup_page s pd va (Q : Z → mmu → Prop) :
  pd_ok s pd → user_addr va →
  (pde_of s pd (va `div` 4194304) = 0 → Q 0 s) →
  (pde_of s pd (va `div` 4194304) ≠ 0 → Q (slot s pd va) s) →
  wp (lookup_page pd va false) s Q.
Proof.
  intros Hok Hva H0 H1. destruct (user_index va Hva) as [Hj Hk].
  destruct (used_range_addr _ _ _ (pk_pal _ _ Hok) (pk_pd _ _ Hok)) as (_ & Hpd & _). unfold PHYS_BASE in Hpd.
  unfold lookup_page. wp_step. apply wp_assert; [rewrite (proj2 (Z.eqb_neq pd 0)); [done|lia]|].
  wp_step. apply wp_assert; [done|]. rewrite pd_no_div.
  wp_step. apply wp_read; [by apply pd_mapped|]. fold (pde_of s pd (va `div` 4194304)).
  wp_step. destruct (Z.eqb_spec (pde_of s pd (va `div` 4194304)) 0) as [He|He]; [wp_steps; cbn; auto|].
  wp_step. cbn [negb]. wp_step. apply wp_read; [by apply pd_mapped|]. fold (pde_of s pd (va `div` 4194304)).
  destruct (table_entry s pd _ Hok Hj He) as (_ & _ & Hp & Haddr & Hr).
  unfold pde_get_pt. wp_step. wp_step. apply wp_assert; [by rewrite (proj2 (Z.eqb_neq _ 0) Hp)|].
  rewrite Haddr. apply wp_ptov; [done|]. wp_step. rewrite user_pt_no by done.
  replace (table (pde_of s pd (va `div` 4194304)) - PHYS_BASE + PHYS_BASE) with (table (pde_of s pd (va `div` 4194304))) by lia.
  by apply H1.
Qed.

(** Writing an entry of the directory [pd]. *)
Definition with_word s a v : mmu :=
  Mmu (Pal (kernel_pool (frames s)) (user_pool (frames s)) (write (mram s) a (word_bytes4 v))) (cr3 s) (cr3_loads s).

Lemma wp_write s a v (Q : unit → mmu → Prop) :
  mapped (mram s) a 4 → Q tt (with_word s a v) → wp (on_mem (store32 a v)) s Q.
Proof. intros Hm HQ. by apply wp_on_mem, wp_store32. Qed.

Lemma with_word_pal s a v : pal_ok (frames s) → pal_ok (frames (with_word s a v)).
Proof.
  intros Hok. by destruct (write_ram_ok (frames s) (write (mram s) a (word_bytes4 v)));
    [intros; by apply write_mapped|done|].
Qed.

(** Storing into the entry of [va]: the directory stays, and only the entries of
    the page of [va] change. *)
Lemma with_slot s pd va v :
  pd_ok s pd → user_addr va → pde_of s pd (va `div` 4194304) ≠ 0 → 0 ≤ v < 2 ^ 32 →
  (present v = true → v < 2 ^ 32 - PHYS_BASE) →
  let s' := with_word s (slot s pd va) v in
  pd_ok s' pd ∧
  ∀ va', user_addr va' →
    pte_val s' pd va' = if va' `div` 4096 =? va `div` 4096 then v else pte_val s pd va'.
Proof.
  intros Hok Hva Hne Hv Hpv s'. destruct (user_index va Hva) as [Hj Hk].
  destruct (slot_mapped s pd va Hok Hva Hne) as (Hm & Hlo & Hhi & Hap).
  assert (Hpde : ∀ j, 0 ≤ j < 768 → pde_of s' pd j = pde_of s pd j).
  { intros j Hj'. unfold pde_of, s', mram at 1, with_word. cbn [frames ram]. apply word_write_ne. lia. }
  assert (Hslot : ∀ va', user_addr va' → slot s' pd va' = slot s pd va').
  { intros va' Hva'. unfold slot. by rewrite Hpde by apply (user_index va' Hva'). }
  assert (Hval : ∀ va', user_addr va' →
    pte_val s' pd va' = if va' `div` 4096 =? va `div` 4096 then v else pte_val s pd va').
  { intros va' Hva'. destruct (user_index va' Hva') as [Hj' Hk']. unfold pte_val.
    rewrite Hpde, Hslot by done. destruct (Z.eqb_spec (va' `div` 4096) (va `div` 4096)) as [Heq|Hneq].
    - rewrite (page_index _ _ Heq), (proj2 (Z.eqb_neq _ _) Hne). unfold s', mram, with_word. cbn [frames ram].
      replace (slot s pd va') with (slot s pd va) by (unfold slot; by rewrite (page_index _ _ Heq), Heq).
      by apply word_write_eq.
    - destruct (Z.eqb_spec (pde_of s pd (va' `div` 4194304)) 0) as [|Hne']; [done|].
      unfold s', mram at 1, with_word. cbn [frames ram]. apply word_write_ne.
      destruct (decide (va' `div` 4194304 = va `div` 4194304)) as [Hd|Hd].
      + unfold slot. rewrite Hd.
        assert ((va' `div` 4096) `mod` 1024 ≠ (va `div` 4096) `mod` 1024) by (intros ?; by apply Hneq, index_page).
        lia.
      + assert (pde_of s pd (va' `div` 4194304) ≠ pde_of s pd (va `div` 4194304)).
        { intros Heq. apply Hd. by apply (pk_inj _ _ Hok). }
        destruct (table_entry s pd _ Hok Hj Hne) as (Hu & _), (table_entry s pd _ Hok Hj' Hne') as (Hu' & _).
        destruct (used_range_addr _ _ _ (pk_pal _ _ Hok) Hu) as (Hal & _), (used_range_addr _ _ _ (pk_pal _ _ Hok) Hu') as (Hal' & _).
        unfold slot. destruct (pages_apart _ _ Hal Hal'); [unfold table; lia|lia|lia]. }
  split; [|done]. split.
  - apply with_word_pal, (pk_pal _ _ Hok).
  - apply bytes_ok_write; [apply (pk_bytes _ _ Hok)|apply word_bytes4_ok].
  - apply used_ram, (pk_pd _ _ Hok).
  - intros j Hj'. rewrite Hpde by done. destruct (pk_pde _ _ Hok j Hj') as [|[Hu ?]]; [by left|right].
    split; [by apply used_ram|done].
  - intros j j' H1 H2. rewrite !Hpde by done. by apply (pk_inj _ _ Hok).
  - intros va' Hva'. rewrite Hval by done. destruct (_ =? _); [done|]. by apply (pk_pte _ _ Hok).
Qed.
End directories.
