(* ===== verification/PagedirProps.v ===== *)
(** * Page directories map pages

    [pagedir_get_page] is the lookup function of a map from user pages to
    frames; [pagedir_set_page] adds a mapping, [pagedir_clear_page] removes one. *)
From S2P Require Import Prelude Bitmap BitmapFacts BitmapProps Mem CString CStringFacts Vaddr Palloc PallocFacts PallocProps Pagedir PagedirFacts.
Local Open Scope Z_scope.

Section props.
Context (init_page_dir init_ram_pages : Z).
Implicit Types (s : mmu) (pd va : Z).

Lemma wp_pde_create {S} pt (s : S) (Q : Z → S → Prop) :
  pt `mod` 4096 = 0 → PHYS_BASE ≤ pt < 2 ^ 32 → Q (pt - PHYS_BASE + 7) s → wp (pde_create pt) s Q.
Proof.
  intros Hal Hr HQ. unfold pde_create. wp_step. apply wp_assert; [rewrite pg_ofs_mod; by apply Z.eqb_eq|].
  wp_step. apply wp_vtop; [done|]. wp_step. rewrite <- !Z.lor_assoc.
  change (Z.lor PTE_U (Z.lor PTE_P PTE_W)) with 7. rewrite lor_flags; [done| |lia].
  unfold PHYS_BASE. rewrite Zminus_mod, Hal. done.
Qed.

Lemma wp_pte_create_user {S} pg (w : bool) (s : S) (Q : Z → S → Prop) :
  pg `mod` 4096 = 0 → PHYS_BASE ≤ pg < 2 ^ 32 → Q (pg - PHYS_BASE + (if w then 7 else 5)) s →
  wp (pte_create_user pg w) s Q.
Proof.
  intros Hal Hr HQ. unfold pte_create_user, pte_create_kernel.
  wp_step. wp_step. apply wp_assert; [rewrite pg_ofs_mod; by apply Z.eqb_eq|].
  wp_step. apply wp_vtop; [done|]. wp_steps. rewrite <- !Z.lor_assoc.
  assert (Z.lor PTE_P (Z.lor (if w then PTE_W else 0) PTE_U) = if w then 7 else 5) as -> by (by destruct w).
  rewrite lor_flags; [done| |destruct w; lia]. unfold PHYS_BASE. rewrite Zminus_mod, Hal. done.
Qed.

(** A new, empty page table for [va]. *)
Lemma with_table s pd va pt P' :
  pd_ok s pd → user_addr va → pde_of s pd (va `div` 4194304) = 0 →
  got KPool (frames s) 1 pt P' → pal_ok P' → ram P' = write (mram s) pt (replicate (Z.to_nat (4096 * 1)) 0) →
  let s' := with_word (Mmu P' (cr3 s) (cr3_loads s)) (pd + 4 * (va `div` 4194304)) (pt - PHYS_BASE + 7) in
  pd_ok s' pd ∧ pde_of s' pd (va `div` 4194304) ≠ 0 ∧
  ∀ va', user_addr va' → pte_val s' pd va' = pte_val s pd va'.
Proof.
  intros Hok Hva Hz Hg Hok' Hr s'. destruct (user_index va Hva) as [Hj Hk].
  set (j0 := va `div` 4194304) in *.
  assert (Hupt : used KPool P' pt) by (apply (got_used _ _ _ _ _ Hg); right; exists 0; lia).
  assert (Hnpt : ∀ a, used KPool (frames s) a → a ≠ pt).
  { intros a Ha ->. destruct (got_new _ _ _ _ _ Hg pt) as [_ []]; [exists 0; lia|done]. }
  assert (Hmono : ∀ a, used KPool (frames s) a → used KPool P' a)
    by (intros a Ha; apply (got_used _ _ _ _ _ Hg); by left).
  destruct (used_range_addr _ _ _ Hok' Hupt) as (Hal & Hlo & Hhi & _).
  destruct (used_range_addr _ _ _ (pk_pal _ _ Hok) (pk_pd _ _ Hok)) as (Hal' & _).
  pose proof (pages_apart pt pd Hal Hal' (not_eq_sym (Hnpt _ (pk_pd _ _ Hok)))) as Hap.
  set (v := pt - PHYS_BASE + 7) in *.
  assert (Hv : 0 < v < 2 ^ 32 ∧ table v = pt) by (unfold v, table, PHYS_BASE in *; lia).
  assert (Hw : ∀ a, a + 4 ≤ pt ∨ pt + 4096 ≤ a → a + 4 ≤ pd + 4 * j0 ∨ pd + 4 * j0 + 4 ≤ a →
    word (mram s') a = word (mram s) a).
  { intros a H1 H2. unfold s', with_word, mram at 1. cbn [frames ram]. rewrite word_write_ne by lia.
    unfold mram. cbn [frames]. rewrite Hr. apply word_write_out. rewrite length_replicate. lia. }
  assert (Hpde : ∀ j, 0 ≤ j < 768 → pde_of s' pd j = if j =? j0 then v else pde_of s pd j).
  { intros j Hj'. unfold pde_of. destruct (Z.eqb_spec j j0) as [->|Hne].
    - unfold s', with_word, mram. cbn [frames ram]. apply word_write_eq. lia.
    - apply Hw; lia. }
  assert (Hslotp : ∀ va', user_addr va' → pde_of s pd (va' `div` 4194304) ≠ 0 →
    slot s' pd va' = slot s pd va' ∧ word (mram s') (slot s pd va') = word (mram s) (slot s pd va')).
  { intros va' Hva' Hne. destruct (user_index va' Hva') as [Hj' Hk']. split.
    - unfold slot. rewrite Hpde by done. destruct (Z.eqb_spec (va' `div` 4194304) j0) as [E|]; [|done].
      destruct Hne. rewrite E. exact Hz.
    - destruct (slot_mapped s pd va' Hok Hva' Hne) as (_ & _ & _ & Hd). apply Hw; [|lia].
      destruct (table_entry s pd _ Hok Hj' Hne) as (Hu & _). pose proof (Hnpt _ Hu) as Hnp.
      destruct (used_range_addr _ _ _ (pk_pal _ _ Hok) Hu) as (Halt & _).
      unfold slot. destruct (pages_apart _ _ Halt Hal Hnp); lia. }
  assert (Hval : ∀ va', user_addr va' → pte_val s' pd va' = pte_val s pd va').
  { intros va' Hva'. destruct (user_index va' Hva') as [Hj' Hk']. unfold pte_val.
    destruct (Z.eqb_spec (pde_of s pd (va' `div` 4194304)) 0) as [Hz'|Hne'].
    - rewrite Hpde by done. destruct (Z.eqb_spec (va' `div` 4194304) j0) as [E|].
      + rewrite (proj2 (Z.eqb_neq v 0)) by lia.
        assert (Hs : slot s' pd va' = pt + 4 * ((va' `div` 4096) `mod` 1024)).
        { unfold slot. rewrite Hpde, E, Z.eqb_refl by done. destruct Hv as [_ ->]. done. }
        rewrite Hs. unfold s', with_word, mram. cbn [frames ram]. rewrite word_write_ne by lia.
        unfold mram. cbn [frames]. rewrite Hr. apply word_zeros; lia.
      + by rewrite Hz', Z.eqb_refl.
    - destruct (Hslotp va' Hva' Hne') as [Hs Hwd]. rewrite Hs, Hwd, Hpde by done.
      destruct (Z.eqb_spec (va' `div` 4194304) j0) as [E|]; [destruct Hne'; rewrite E; exact Hz|].
      by rewrite (proj2 (Z.eqb_neq _ _) Hne'). }
  split_and!; [|rewrite Hpde, Z.eqb_refl by done; lia|done]. split.
  - by apply with_word_pal.
  - apply bytes_ok_write; [|apply word_bytes4_ok]. unfold mram. cbn [frames]. rewrite Hr.
    apply bytes_ok_write; [apply (pk_bytes _ _ Hok)|]. apply Forall_replicate. lia.
  - apply used_ram, Hmono, (pk_pd _ _ Hok).
  - intros j Hj'. rewrite Hpde by done. destruct (Z.eqb_spec j j0) as [->|Hne].
    + right. destruct Hv as [_ ->]. split; [by apply used_ram|]. by apply not_eq_sym, Hnpt, (pk_pd _ _ Hok).
    + destruct (pk_pde _ _ Hok j Hj') as [|[Hu ?]]; [by left|right]. split; [by apply used_ram, Hmono|done].
  - assert (Hdiff : ∀ j, 0 ≤ j < 768 → j ≠ j0 → pde_of s pd j ≠ v).
    { intros j Hj' Hne Heq. destruct (pk_pde _ _ Hok j Hj') as [H0|[Hu _]]; [lia|].
      rewrite Heq in Hu. destruct Hv as [_ Ht]. rewrite Ht in Hu. by apply (Hnpt pt). }
    intros j j' H1 H2. rewrite !Hpde by done.
    destruct (Z.eqb_spec j j0) as [->|N1], (Z.eqb_spec j' j0) as [->|N2]; [done| | |by apply (pk_inj _ _ Hok)].
    + intros _ E. by destruct (Hdiff j' H2 N2).
    + intros _ E. by destruct (Hdiff j H1 N1).
  - intros va' Hva'. rewrite Hval by done. by apply (pk_pte _ _ Hok).
Qed.

Lemma ram_after_zero n p P : ram_after PAL_ZERO n p P = write (ram P) p (replicate (Z.to_nat (4096 * n)) 0).
Proof. done. Qed.

(** Pages of the user pool, which hold the data of processes, stay as they are. *)
Definition kept s s' : Prop :=
  cr3 s' = cr3 s ∧ (∀ k, used UPool (frames s') k ↔ used UPool (frames s) k) ∧
  ∀ k x, used UPool (frames s) k → k ≤ x < k + 4096 → mram s' !! x = mram s !! x.

Lemma kernel_page_below s k u :
  pal_ok (frames s) → in_pool KPool (frames s) k → in_pool UPool (frames s) u → k + 4096 ≤ u.
Proof.
  intros Hok (i & Hi & ->) (j & Hj & ->). pose proof (pa_disj _ Hok). simpl in *. lia.
Qed.

(** Finding an entry, with a new table if need be. *)
Lemma wp_lookup_create s pd va (Q : Z → mmu → Prop) :
  pd_ok s pd → user_addr va →
  (no_group (used_map (kernel_pool (frames s))) 0 1 false → Q 0 s) →
  (∀ s', pd_ok s' pd → pde_of s' pd (va `div` 4194304) ≠ 0 →
     (∀ va', user_addr va' → pte_val s' pd va' = pte_val s pd va') → kept s s' →
     Q (slot s' pd va) s') →
  wp (lookup_page pd va true) s Q.
Proof.
  intros Hok Hva H0 H1. destruct (user_index va Hva) as [Hj Hk].
  destruct (used_range_addr _ _ _ (pk_pal _ _ Hok) (pk_pd _ _ Hok)) as (_ & Hpd & _). unfold PHYS_BASE in Hpd.
  assert (Hfin : ∀ s', pd_ok s' pd → pde_of s' pd (va `div` 4194304) ≠ 0 → Q (slot s' pd va) s' →
    wp (e ← on_mem (load32 (pd + 4 * (va `div` 4194304))); pt ← pde_get_pt e; mret (pt + 4 * pt_no va)) s' Q).
  { intros s' Hok' He HQ. wp_step. apply wp_read; [by apply pd_mapped|]. fold (pde_of s' pd (va `div` 4194304)).
    destruct (table_entry s' pd _ Hok' Hj He) as (_ & _ & Hp & Haddr & Hr).
    unfold pde_get_pt. wp_step. wp_step. apply wp_assert; [by rewrite (proj2 (Z.eqb_neq _ 0) Hp)|].
    rewrite Haddr. apply wp_ptov; [done|]. wp_step. rewrite user_pt_no by done.
    by replace (table (pde_of s' pd (va `div` 4194304)) - PHYS_BASE + PHYS_BASE)
      with (table (pde_of s' pd (va `div` 4194304))) by lia. }
  unfold lookup_page. wp_step. apply wp_assert; [rewrite (proj2 (Z.eqb_neq pd 0)); [done|lia]|].
  wp_step. apply wp_assert; [apply Z.ltb_lt, Hva|]. rewrite pd_no_div.
  wp_step. apply wp_read; [by apply pd_mapped|]. fold (pde_of s pd (va `div` 4194304)).
  wp_step. destruct (Z.eqb_spec (pde_of s pd (va `div` 4194304)) 0) as [He|He].
  2:{ wp_step. cbn [negb]. apply Hfin; [done|done|]. by apply H1. }
  wp_step. unfold on_frames at 1, palloc_get_page. wp_step.
  eapply wp_mono; [apply wp_palloc_get_multiple; [apply (pk_pal _ _ Hok)|lia|by left]|].
  intros pt P' [(-> & -> & Hno)|(Hg & Hok' & _ & Hr)].
  { rewrite Z.eqb_refl. wp_step. cbn [negb]. wp_step. destruct s as [[] ? ?]. by apply H0. }
  destruct (used_range_addr KPool P' pt Hok') as (Hal & Hlo & Hhi & _);
    [apply (got_used _ _ _ _ _ Hg); right; exists 0; lia|].
  rewrite (proj2 (Z.eqb_neq pt 0)) by (unfold PHYS_BASE in *; lia). wp_step.
  apply wp_pde_create; [done|unfold PHYS_BASE in *; lia|]. wp_step. apply wp_write.
  { intros x Hx. destruct (used_range_addr KPool P' pd Hok') as (_ & _ & _ & Hm);
      [apply (got_used _ _ _ _ _ Hg); left; apply (pk_pd _ _ Hok)|]. apply Hm. lia. }
  wp_step. cbn [negb]. rewrite ram_after_zero in Hr.
  destruct (with_table s pd va pt P' Hok Hva He Hg Hok' Hr) as (Hok2 & Hne2 & Hval2).
  apply Hfin; [done|done|]. apply H1; [done..|]. split_and!.
  - done.
  - intros k. unfold with_word. cbn [frames]. rewrite used_ram. by apply (got_frame _ _ _ _ _ Hg).
  - intros k x Hku Hx. unfold with_word, mram at 1. cbn [frames ram].
    pose proof (kernel_page_below s pd k (pk_pal _ _ Hok) (proj1 (pk_pd _ _ Hok)) (proj1 Hku)).
    destruct (got_new _ _ _ _ _ Hg pt) as [Hin _]; [exists 0; lia|].
    pose proof (kernel_page_below s pt k (pk_pal _ _ Hok) Hin (proj1 Hku)).
    rewrite lookup_write_out by (simpl; lia). unfold mram. cbn [frames]. rewrite Hr. unfold mram.
    apply lookup_write_out. rewrite length_replicate. lia.
Qed.

(** The frame address an entry gives for [va]. *)
Definition translate (e va : Z) : Z :=
  if present e then e - e `mod` 4096 + PHYS_BASE + va `mod` 4096 else 0.

Lemma wp_pagedir_get_page s pd va (Q : Z → mmu → Prop) :
  pd_ok s pd → user_addr va → Q (translate (pte_val s pd va) va) s → wp (pagedir_get_page pd va) s Q.
Proof.
  intros Hok Hva HQ. unfold pagedir_get_page. wp_step. apply wp_assert; [apply Z.ltb_lt, Hva|]. wp_step.
  apply wp_lookup_page; [done|done| |]; intros He.
  - rewrite Z.eqb_refl. wp_step. unfold pte_val in HQ. by rewrite He in HQ.
  - destruct (slot_mapped s pd va Hok Hva He) as (Hm & Hlo & _). unfold PHYS_BASE in Hlo.
    rewrite (proj2 (Z.eqb_neq (slot s pd va) 0)) by lia. wp_step. apply wp_read; [done|].
    pose proof (pk_pte _ _ Hok va Hva) as Hp. unfold pte_val in HQ, Hp. rewrite (proj2 (Z.eqb_neq _ _) He) in HQ, Hp.
    pose proof (word_range (mram s) (slot s pd va) (pk_bytes _ _ Hok)) as Hr.
    set (e := word (mram s) (slot s pd va)) in *. unfold translate in HQ. fold (present e).
    destruct (present e); [|by wp_step]. specialize (Hp eq_refl).
    pose proof (Z.mod_pos_bound e 4096). pose proof (Z.mod_pos_bound va 4096). pose proof (Z.mod_le e 4096).
    wp_step. unfold pte_get_page. rewrite pte_addr_sub by done. apply wp_ptov; [lia|]. wp_step.
    rewrite pg_ofs_mod, u32_small; [done|].
    pose proof (Z.div_mod e 4096). unfold PHYS_BASE in *. lia.
Qed.

Lemma wp_pagedir_set_page s pd upage kpage (w : bool) :
  pd_ok s pd → pd ≠ init_page_dir → user_addr upage → upage `mod` 4096 = 0 →
  kpage `mod` 4096 = 0 → PHYS_BASE ≤ kpage < 2 ^ 32 → (kpage - PHYS_BASE) `div` 4096 < init_ram_pages →
  present (pte_val s pd upage) = false →
  wp (pagedir_set_page init_page_dir init_ram_pages pd upage kpage w) s (λ r s',
    (r = false ∧ s' = s ∧ no_group (used_map (kernel_pool (frames s))) 0 1 false) ∨
    (r = true ∧ pd_ok s' pd ∧ (∀ va, user_addr va → pte_val s' pd va =
       if va `div` 4096 =? upage `div` 4096 then kpage - PHYS_BASE + (if w then 7 else 5) else pte_val s pd va) ∧ kept s s')).
Proof.
  intros Hok Hinit Hu Hua Hka Hk Hram Hnp.
  unfold pagedir_set_page. wp_step. apply wp_assert; [rewrite pg_ofs_mod; by apply Z.eqb_eq|].
    wp_step. apply wp_assert; [rewrite pg_ofs_mod; by apply Z.eqb_eq|].
    wp_step. apply wp_assert; [apply Z.ltb_lt, Hu|]. wp_step. apply wp_vtop; [done|].
    wp_step. apply wp_assert; [apply Z.ltb_lt; by rewrite Z.shiftr_div_pow2 by (vm_compute; discriminate)|].
    wp_step. apply wp_assert; [by rewrite (proj2 (Z.eqb_neq _ _) Hinit)|].
    wp_step. apply wp_lookup_create; [done|done|intros Hno; by left|].
    intros s' Hok' Hne Hval Hkept. destruct (slot_mapped s' pd upage Hok' Hu Hne) as (Hm & Hlo & _). unfold PHYS_BASE in Hlo.
    rewrite (proj2 (Z.eqb_neq (slot s' pd upage) 0)) by lia. cbn [negb]. wp_step. apply wp_read; [done|].
    rewrite <- (Hval upage Hu) in Hnp. unfold pte_val in Hnp. rewrite (proj2 (Z.eqb_neq _ _) Hne) in Hnp.
    wp_step. apply wp_assert; [by apply negb_false_iff in Hnp|].
    wp_step. apply wp_pte_create_user; [done|done|]. wp_step. apply wp_write; [done|]. wp_step. right.
    split; [done|].
    destruct (with_slot s' pd upage (kpage - PHYS_BASE + (if w then 7 else 5)) Hok' Hu Hne) as [Hok2 Hval2].
    { unfold PHYS_BASE in *. destruct w; lia. }
    { intros _. pose proof (Z_div_exact_full_2 kpage 4096 ltac:(lia) Hka). unfold PHYS_BASE in *. destruct w; lia. }
    split; [done|]. split; [intros va Hva; by rewrite Hval2, Hval by done|].
    destruct Hkept as (K1 & K2 & K3). split_and!; [done|intros k; unfold with_word; cbn [frames]; by rewrite used_ram|].
    intros k x Hk' Hx. rewrite <-(K3 k x Hk' Hx). unfold with_word, mram at 1. cbn [frames ram]. apply lookup_write_out.
    destruct (user_index upage Hu) as [Hj Hjk]. destruct (table_entry s' pd _ Hok' Hj Hne) as ([Hin _] & _).
    pose proof (kernel_page_below s' _ k (pk_pal _ _ Hok') Hin (proj1 (proj2 (K2 k) Hk'))). unfold slot. simpl. lia.
Qed.

(** C27: pagedir_set_page either finds no page for a page table, returns false
    and changes nothing, or returns true and then pagedir_get_page translates every
    address of the user page to the frame and every other user address as before;
    the page directory stays well formed. *)
Theorem pagedir_set_get s pd upage kpage (w : bool) :
  pd_ok s pd → pd ≠ init_page_dir → user_addr upage → upage `mod` 4096 = 0 →
  kpage `mod` 4096 = 0 → PHYS_BASE ≤ kpage < 2 ^ 32 → (kpage - PHYS_BASE) `div` 4096 < init_ram_pages →
  present (pte_val s pd upage) = false →
  (pagedir_set_page init_page_dir init_ram_pages pd upage kpage w s = Ok (false, s) ∧
     no_group (used_map (kernel_pool (frames s))) 0 1 false) ∨
  ∃ s', pagedir_set_page init_page_dir init_ram_pages pd upage kpage w s = Ok (true, s') ∧ pd_ok s' pd ∧
    ∀ va, user_addr va → ∃ k, pagedir_get_page pd va s = Ok (k, s) ∧
      pagedir_get_page pd va s' =
        Ok (if va `div` 4096 =? upage `div` 4096 then kpage + va `mod` 4096 else k, s').
Proof.
  intros Hok Hinit Hu Hua Hka Hk Hram Hnp.
  pose proof (wp_pagedir_set_page s pd upage kpage w Hok Hinit Hu Hua Hka Hk Hram Hnp) as Hwp.
  apply wp_ok in Hwp as (r & s' & E & [(-> & -> & Hno)|(-> & Hok' & Hval & _)]); [by left|right].
  exists s'. split_and!; [done|done|]. intros va Hva. exists (translate (pte_val s pd va) va).
  split; apply wp_det_ok; (apply wp_pagedir_get_page; [done|done|]); [done|]. split; [|done].
  rewrite Hval by done. destruct (_ =? _); [|done]. unfold translate.
  assert (Hm : ∀ f, 0 ≤ f < 4096 → (kpage - PHYS_BASE + f) `mod` 4096 = f).
  { intros f Hf. rewrite Zplus_mod, Zminus_mod, Hka. unfold PHYS_BASE.
    change ((0 - 3221225472 `mod` 4096) `mod` 4096) with 0. rewrite Z.add_0_l, !Z.mod_mod by lia. by apply Z.mod_small. }
  assert (Hp : present (kpage - PHYS_BASE + (if w then 7 else 5)) = true).
  { unfold present. change PTE_P with (2 ^ 1 - 1). rewrite land_low by lia.
    replace (_ `mod` 2 ^ 1) with 1; [done|]. change (2 ^ 1) with 2.
    rewrite (Z.div_mod (kpage - PHYS_BASE + (if w then 7 else 5)) 4096), Hm by (destruct w; lia).
    replace (4096 * _) with (2048 * ((kpage - PHYS_BASE + (if w then 7 else 5)) `div` 4096) * 2) by lia.
    rewrite Z.add_comm, Z_mod_plus_full. by destruct w. }
  rewrite Hp, Hm by (destruct w; lia). lia.
Qed.

(** ** Removing a mapping *)

(** CR3 holds the physical address of a page directory. *)
Definition cr3_ok s : Prop := 0 ≤ cr3 s < 2 ^ 32 - PHYS_BASE.
Definition active s pd : bool := cr3 s + PHYS_BASE =? pd.

Lemma wp_invalidate s pd (Q : unit → mmu → Prop) :
  cr3_ok s → PHYS_BASE < pd < 2 ^ 32 →
  Q tt (Mmu (frames s) (cr3 s) (cr3_loads s + if active s pd then 1 else 0)) →
  wp (invalidate_pagedir init_page_dir pd) s Q.
Proof.
  intros Hc Hpd HQ. unfold invalidate_pagedir, active_pd, active in *. wp_step. wp_step. wp_step.
  apply wp_ptov; [done|]. destruct (Z.eqb_spec (cr3 s + PHYS_BASE) pd) as [Heq|Hne].
  - unfold pagedir_activate. rewrite (proj2 (Z.eqb_neq pd 0)) by (unfold PHYS_BASE in *; lia).
    wp_step. apply wp_vtop; [lia|]. wp_step. by replace (pd - PHYS_BASE) with (cr3 s) by lia.
  - wp_step. rewrite Z.add_0_r in HQ. by destruct s.
Qed.

Lemma pd_ok_frames s s' pd : frames s' = frames s → pd_ok s pd → pd_ok s' pd.
Proof. intros Hf [? ? ? ? ? ?]. split; unfold pte_val, slot, pde_of, mram in *; by rewrite Hf. Qed.
Lemma pte_val_frames s s' pd va : frames s' = frames s → pte_val s' pd va = pte_val s pd va.
Proof. intros Hf. unfold pte_val, slot, pde_of, mram. by rewrite Hf. Qed.

Lemma clear_present e :
  0 ≤ e < 2 ^ 32 → 0 ≤ Z.land e (u32 (Z.lnot PTE_P)) < 2 ^ 32 ∧ present (Z.land e (u32 (Z.lnot PTE_P))) = false.
Proof.
  intros He. change (u32 (Z.lnot PTE_P)) with (2 ^ 32 - 2 ^ 1). rewrite land_high by lia.
  pose proof (Z.mod_pos_bound e 2). pose proof (Z.mod_le e 2). change (2 ^ 1) with 2. split; [lia|].
  unfold present. change PTE_P with (2 ^ 1 - 1). rewrite land_low by lia. change (2 ^ 1) with 2.
  rewrite Zminus_mod, Z.mod_mod, Z.sub_diag by lia. done.
Qed.

(** Pagedir_clear_page always returns; afterwards pagedir_get_page gives a
    null pointer for the addresses of the page and translates all other user
    addresses as before, the page directory stays well formed, and if a mapping
    was removed from the active page directory then CR3 is loaded again (with the
    same value), so that the TLB holds no stale translation. *)
Theorem pagedir_clear s pd upage :
  pd_ok s pd → user_addr upage → upage `mod` 4096 = 0 → cr3_ok s →
  ∃ s', pagedir_clear_page init_page_dir pd upage s = Ok (tt, s') ∧ pd_ok s' pd ∧
    cr3 s' = cr3 s ∧
    cr3_loads s' = cr3_loads s + (if present (pte_val s pd upage) && active s pd then 1 else 0) ∧
    ∀ va, user_addr va → ∃ k, pagedir_get_page pd va s = Ok (k, s) ∧
      pagedir_get_page pd va s' = Ok (if va `div` 4096 =? upage `div` 4096 then 0 else k, s').
Proof.
  intros Hok Hu Hua Hc.
  destruct (used_range_addr _ _ _ (pk_pal _ _ Hok) (pk_pd _ _ Hok)) as (_ & Hpd & Hpd' & _).
  assert (Hwp : wp (pagedir_clear_page init_page_dir pd upage) s (λ _ s', pd_ok s' pd ∧ cr3 s' = cr3 s ∧
    cr3_loads s' = cr3_loads s + (if present (pte_val s pd upage) && active s pd then 1 else 0) ∧
    ∀ va, user_addr va → translate (pte_val s' pd va) va =
      if va `div` 4096 =? upage `div` 4096 then 0 else translate (pte_val s pd va) va)).
  { assert (Hsame : present (pte_val s pd upage) = false → ∀ va, user_addr va →
      translate (pte_val s pd va) va = if va `div` 4096 =? upage `div` 4096 then 0 else translate (pte_val s pd va) va).
    { intros Hnp va Hva. destruct (Z.eqb_spec (va `div` 4096) (upage `div` 4096)) as [Heq|]; [|done].
      assert (pte_val s pd va = pte_val s pd upage) as ->
        by (unfold pte_val, slot; by rewrite (page_index _ _ Heq), Heq).
      unfold translate. by rewrite Hnp. }
    unfold pagedir_clear_page. wp_step. apply wp_assert; [rewrite pg_ofs_mod; by apply Z.eqb_eq|].
    wp_step. apply wp_assert; [apply Z.ltb_lt, Hu|]. wp_step.
    apply wp_lookup_page; [done|done| |]; intros He.
    { rewrite Z.eqb_refl. assert (present (pte_val s pd upage) = false) as Hnp by (unfold pte_val; by rewrite He).
      wp_step. rewrite Hnp. cbn [andb]. rewrite Z.add_0_r. auto. }
    destruct (slot_mapped s pd upage Hok Hu He) as (Hm & Hlo & _). unfold PHYS_BASE in Hlo.
    rewrite (proj2 (Z.eqb_neq (slot s pd upage) 0)) by lia. wp_step. apply wp_read; [done|].
    assert (Hval : word (mram s) (slot s pd upage) = pte_val s pd upage)
      by (unfold pte_val; by rewrite (proj2 (Z.eqb_neq _ _) He)).
    rewrite Hval. fold (present (pte_val s pd upage)).
    destruct (present (pte_val s pd upage)) eqn:Hp; [|wp_step; rewrite Z.add_0_r; auto].
    pose proof (word_range (mram s) (slot s pd upage) (pk_bytes _ _ Hok)) as Hr. rewrite Hval in Hr.
    destruct (clear_present _ Hr) as [Hr' Hnp'].
    wp_step. apply wp_write; [done|].
    destruct (with_slot s pd upage _ Hok Hu He Hr') as [Hok' Hval']; [by rewrite Hnp'|].
    apply wp_invalidate; [done|lia|]. cbn [cr3 cr3_loads with_word andb].
    split_and!; [by eapply pd_ok_frames; [|exact Hok']|done|done|].
    intros va Hva. rewrite (pte_val_frames (with_word s (slot s pd upage) (Z.land (pte_val s pd upage) (u32 (Z.lnot PTE_P))))) by done.
    rewrite Hval' by done. destruct (_ =? _); [|done]. unfold translate. by rewrite Hnp'. }
  apply wp_ok in Hwp as ([] & s' & E & Hok' & Hcr & Hld & Htr). exists s'. split_and!; [done..|].
  intros va Hva. exists (translate (pte_val s pd va) va).
  split; apply wp_det_ok; (apply wp_pagedir_get_page; [done|done|]); [done|]. split; [by apply Htr|done].
Qed.
End props.

(** Page tables do not depend on which pages of the user pool are in use. *)
Lemma pd_ok_pools s s' (pd : Z) :
  pd_ok s pd → pal_ok (frames s') → mram s' = mram s →
  (∀ p, used KPool (frames s') p ↔ used KPool (frames s) p) →
  pd_ok s' pd ∧ ∀ va, pte_val s' pd va = pte_val s pd va.
Proof.
  intros Hok Hpal Hr Hu.
  assert (Hpde : ∀ j, pde_of s' pd j = pde_of s pd j) by (intros j; unfold pde_of; by rewrite Hr).
  assert (Hpte : ∀ va, pte_val s' pd va = pte_val s pd va) by (intros va; unfold pte_val, slot; by rewrite Hpde, Hr).
  split; [|done]. split.
  - done.
  - rewrite Hr. apply (pk_bytes _ _ Hok).
  - apply Hu, (pk_pd _ _ Hok).
  - intros j Hj. rewrite Hpde, Hu. by apply (pk_pde _ _ Hok).
  - intros j j'. rewrite !Hpde. apply (pk_inj _ _ Hok).
  - intros va. rewrite Hpte. apply (pk_pte _ _ Hok).
Qed.

(** ** Witnesses: an empty page directory in the first of two kernel pages *)
Definition ex_pd : Z := PHYS_BASE + 4096.
Definition ex_mmu : mmu :=
  Mmu (Pal (Pool false (Bitmap 2 [1]) (PHYS_BASE + 4096)) (Pool false (Bitmap 1 [0]) (PHYS_BASE + 12288))
         (write ∅ (PHYS_BASE + 4096) (replicate (Z.to_nat 12288) 0)))
      4096 1.

Lemma ex_pal_ok : pal_ok (frames ex_mmu).
Proof.
  split.
  - intros []; (split; [reflexivity|apply wfb_sound; reflexivity|reflexivity|reflexivity|vm_compute; discriminate]).
  - cbn. unfold PHYS_BASE. lia.
  - intros w x Hx. unfold ex_mmu. cbn [ram frames]. rewrite lookup_write, length_replicate.
    rewrite decide_True by (destruct w; cbn in Hx; unfold PHYS_BASE in *; lia).
    apply lookup_lt_is_Some. rewrite length_replicate. destruct w; cbn in Hx; unfold PHYS_BASE in *; lia.
Qed.

Lemma ex_pd_ok : pd_ok ex_mmu ex_pd.
Proof.
  assert (Hpde : ∀ j, 0 ≤ j < 768 → pde_of ex_mmu ex_pd j = 0).
  { intros j Hj. unfold pde_of, mram, ex_mmu. cbn [frames ram]. apply word_zeros; unfold ex_pd; lia. }
  split.
  - apply ex_pal_ok.
  - unfold mram, ex_mmu. cbn [frames ram]. apply bytes_ok_write; [intros a b; by rewrite lookup_empty|].
    apply Forall_replicate. lia.
  - unfold used, in_pool, ex_mmu. cbn [frames get_pool kernel_pool used_map bit_cnt base].
    split; [exists 0; split; [lia|reflexivity]|reflexivity].
  - intros j Hj. left. exact (Hpde j Hj).
  - intros j j' Hj Hj' Hne. destruct Hne. exact (Hpde j Hj).
  - intros va Hva. unfold pte_val. rewrite Hpde by apply (user_index va Hva). rewrite Z.eqb_refl. discriminate.
Qed.

Lemma ex_user a : 0 ≤ a < 1000000 → user_addr a.
Proof. unfold user_addr, PHYS_BASE. lia. Qed.

Lemma pagedir_set_get_witness :
  ∃ s', pagedir_set_page 1 1000 ex_pd 8192 (PHYS_BASE + 12288) true ex_mmu = Ok (true, s') ∧ pd_ok s' ex_pd ∧
    pagedir_get_page ex_pd 8200 s' = Ok (PHYS_BASE + 12288 + 8, s').
Proof.
  assert (Ht : match pagedir_set_page 1 1000 ex_pd 8192 (PHYS_BASE + 12288) true ex_mmu with
    Ok (r, _) => r | _ => false end = true) by (vm_compute; reflexivity).
  destruct (pagedir_set_get 1 1000 ex_mmu ex_pd 8192 (PHYS_BASE + 12288) true) as [[E _]|(s' & E & Hok & Hget)].
  - apply ex_pd_ok.
  - discriminate.
  - apply ex_user. lia.
  - reflexivity.
  - reflexivity.
  - split; [vm_compute; discriminate|reflexivity].
  - reflexivity.
  - unfold pte_val. replace (pde_of ex_mmu ex_pd (8192 `div` 4194304)) with 0; [reflexivity|].
    symmetry. unfold pde_of, mram, ex_mmu. cbn [frames ram]. apply word_zeros; vm_compute; discriminate.
  - rewrite E in Ht. discriminate Ht.
  - exists s'. split; [exact E|]. split; [exact Hok|].
    destruct (Hget 8200 (ex_user 8200 ltac:(lia))) as (k & _ & Hk). exact Hk.
Defined.

Lemma pagedir_clear_witness :
  ∃ s', pagedir_clear_page 1 ex_pd 8192 ex_mmu = Ok (tt, s') ∧ pagedir_get_page ex_pd 8200 s' = Ok (0, s').
Proof.
  destruct (pagedir_clear 1 ex_mmu ex_pd 8192) as (s' & E & _ & _ & _ & Hget).
  - apply ex_pd_ok.
  - apply ex_user. lia.
  - reflexivity.
  - split; [vm_compute; discriminate|reflexivity].
  - exists s'. split; [exact E|]. destruct (Hget 8200 (ex_user 8200 ltac:(lia))) as (k & _ & Hk). exact Hk.
Defined.

(** ** Destroying a page directory

    [pagedir_destroy] gives back the frames of all user pages, the page tables and
    the page directory, each once, and nothing else. *)

(** The frame of an entry. *)
Definition frame_of (e : Z) : Z := e - e `mod` 4096 + PHYS_BASE.
(** The [j]-th address of the [i]-th page table. *)
Definition va_at (i j : Z) : Z := 4194304 * i + 4096 * j.

(** Each page of the process has a frame of the user pool of its own. *)
Record owns_frames (s : mmu) (pd : Z) : Prop := OwnsFrames {
  of_used : ∀ va, user_addr va → present (pte_val s pd va) = true → used UPool (frames s) (frame_of (pte_val s pd va));
  of_inj : ∀ va va', user_addr va → user_addr va' → present (pte_val s pd va) = true → present (pte_val s pd va') = true →
    frame_of (pte_val s pd va) = frame_of (pte_val s pd va') → va `div` 4096 = va' `div` 4096 }.

(** The pages that belong to a page directory. *)
Definition owned (s : mmu) (pd a : Z) : Prop :=
  a = pd ∨ ∃ va, user_addr va ∧
    ((pde_of s pd (va `div` 4194304) ≠ 0 ∧ a = table (pde_of s pd (va `div` 4194304))) ∨
     (present (pte_val s pd va) = true ∧ a = frame_of (pte_val s pd va))).

(** [s'] is [s] without the pages [D]; the other pages are as before. *)
Record without (s s' : mmu) (D : Z → Prop) : Prop := Without {
  wi_pal : pal_ok (frames s');
  wi_used : ∀ w a, used w (frames s') a ↔ used w (frames s) a ∧ ¬ D a;
  wi_ram : ∀ w a x, used w (frames s') a → a ≤ x < a + 4096 → mram s' !! x = mram s !! x;
  wi_cr3 : cr3 s' = cr3 s }.

Lemma without_ext s s' D D' : (∀ a, D a ↔ D' a) → without s s' D → without s s' D'.
Proof. intros HD [H1 H2 H3 H4]. split; [done| |done|done]. intros w a. by rewrite H2, HD. Qed.

Lemma pool_apart s w w' a b : pal_ok (frames s) → used w (frames s) a → used w' (frames s) b → w ≠ w' → a ≠ b.
Proof.
  intros Hok [Ha _] [Hb _] Hw ->.
  destruct w, w'; try done; [pose proof (kernel_page_below s b b Hok Ha Hb)|pose proof (kernel_page_below s b b Hok Hb Ha)]; lia.
Qed.

(** Giving back one more page. *)
Lemma wp_free_page s s' D w p :
  without s s' D → used w (frames s) p → ¬ D p →
  wp (on_frames (palloc_free_page p)) s' (λ _ s'', without s s'' (λ a, D a ∨ a = p)).
Proof.
  intros [Hok Hu Hr Hc] Hp HD. assert (Hp' : used w (frames s') p) by (by apply Hu).
  assert (Hpg : ∀ a, page_of p 1 a ↔ a = p) by (intros a; split; [intros (i & Hi & ->); lia|intros ->; exists 0; lia]).
  unfold on_frames at 1, palloc_free_page. wp_step.
  eapply wp_mono; [apply (wp_palloc_free_multiple _ w); [done|lia|intros a ->%Hpg; done]|].
  intros [] P ([Hf Hfr] & Hok2 & _ & Hram).
  assert (Hu2 : ∀ w' a, used w' P a ↔ used w' (frames s') a ∧ a ≠ p).
  { intros w' a. destruct (decide (w' = w)) as [->|Hw]; [rewrite Hf, Hpg; done|]. rewrite Hfr by done. split; [|by intros []].
    intros Ha. split; [done|]. by eapply (pool_apart s'). }
  split; [done| | |done].
  - intros w' a. cbn [frames]. rewrite Hu2, Hu. tauto.
  - intros w' a x Ha Hx. cbn [frames] in Ha. apply Hu2 in Ha as [Ha Hne]. rewrite <-(Hr w' a x Ha Hx).
    unfold mram at 1. cbn [frames]. rewrite Hram. apply lookup_write_out. rewrite length_replicate.
    destruct (used_range_addr _ _ _ Hok Ha) as (Ha4 & _), (used_range_addr _ _ _ Hok Hp') as (Hp4 & _).
    destruct (pages_apart _ _ Ha4 Hp4 Hne); lia.
Qed.

Lemma without_word s s' D w p x :
  without s s' D → used w (frames s) p → ¬ D p → p ≤ x → x + 4 ≤ p + 4096 →
  mapped (mram s') x 4 ∧ word (mram s') x = word (mram s) x.
Proof.
  intros [Hok Hu Hr Hc] Hp HD Hlo Hhi. assert (Hp' : used w (frames s') p) by (by apply Hu).
  destruct (used_range_addr _ _ _ Hok Hp') as (_ & _ & _ & Hm). split; [intros y Hy; apply Hm; lia|].
  unfold word, byte_of. rewrite !(Hr w p) by (done || lia). done.
Qed.

Section destroy.
Context (s : mmu) (pd : Z) (Hok : pd_ok s pd) (Hown : owns_frames s pd).

Lemma va_at_user i j : 0 ≤ i < 768 → 0 ≤ j < 1024 → user_addr (va_at i j) ∧ va_at i j `div` 4194304 = i ∧ (va_at i j `div` 4096) `mod` 1024 = j.
Proof.
  intros Hi Hj. unfold va_at, user_addr, PHYS_BASE. split; [lia|]. split; [symmetry; apply (Z.div_unique _ _ i (4096 * j)); lia|].
  replace ((4194304 * i + 4096 * j) `div` 4096) with (1024 * i + j) by (apply (Z.div_unique _ _ _ 0); lia).
  symmetry. apply (Z.mod_unique _ _ i); lia.
Qed.

(** What is given back before the [i]-th table, and before its [j]-th entry. *)
Definition entry_of (i j : Z) : Z := pte_val s pd (va_at i j).
Definition in_table (i n a : Z) : Prop := ∃ j, 0 ≤ j < n ∧ present (entry_of i j) = true ∧ a = frame_of (entry_of i j).
Definition before (n a : Z) : Prop :=
  ∃ i, 0 ≤ i < n ∧ pde_of s pd i ≠ 0 ∧ (a = table (pde_of s pd i) ∨ in_table i 1024 a).

Lemma entry_frame i j : 0 ≤ i < 768 → 0 ≤ j < 1024 → present (entry_of i j) = true → used UPool (frames s) (frame_of (entry_of i j)).
Proof. intros Hi Hj Hp. destruct (va_at_user i j Hi Hj) as (Hu & _). by apply (of_used _ _ Hown). Qed.
Lemma table_frame i a n : 0 ≤ i < 768 → n ≤ 1024 → in_table i n a → used UPool (frames s) a.
Proof. intros Hi Hn (j & Hj & Hp & ->). apply entry_frame; [done|lia|done]. Qed.
Lemma entry_inj i j i' j' :
  0 ≤ i < 768 → 0 ≤ j < 1024 → 0 ≤ i' < 768 → 0 ≤ j' < 1024 → present (entry_of i j) = true → present (entry_of i' j') = true →
  frame_of (entry_of i j) = frame_of (entry_of i' j') → i = i' ∧ j = j'.
Proof.
  intros Hi Hj Hi' Hj' Hp Hp' E. destruct (va_at_user i j Hi Hj) as (Hu & Ei & Ej), (va_at_user i' j' Hi' Hj') as (Hu' & Ei' & Ej').
  pose proof (of_inj _ _ Hown _ _ Hu Hu' Hp Hp' E) as Eva. unfold va_at in Eva.
  replace ((4194304 * i + 4096 * j) `div` 4096) with (1024 * i + j) in Eva by (apply (Z.div_unique _ _ _ 0); lia).
  replace ((4194304 * i' + 4096 * j') `div` 4096) with (1024 * i' + j') in Eva by (apply (Z.div_unique _ _ _ 0); lia). lia.
Qed.

(** A table is not given back with earlier ones, nor is the directory. *)
Lemma kernel_not_frame k a i n : used KPool (frames s) k → 0 ≤ i < 768 → n ≤ 1024 → in_table i n a → k ≠ a.
Proof. intros Hk Hi Hn Ha. apply (pool_apart s KPool UPool); [apply (pk_pal _ _ Hok)|done|by eapply table_frame|done]. Qed.
Lemma table_new i n : 0 ≤ i < 768 → n ≤ i → pde_of s pd i ≠ 0 → ¬ before n (table (pde_of s pd i)).
Proof.
  intros Hi Hn He (i' & Hi' & He' & [Et|Ht]).
  - assert (pde_of s pd i = pde_of s pd i') as E by (unfold table in Et; lia).
    pose proof (pk_inj _ _ Hok i i' ltac:(lia) ltac:(lia) He E). lia.
  - destruct (table_entry s pd i Hok Hi He) as (Hu & _). eapply kernel_not_frame; [exact Hu| | |exact Ht|done]; lia.
Qed.
Lemma directory_new n : n ≤ 768 → ¬ before n pd.
Proof.
  intros Hn (i & Hi & He & [Et|Ht]).
  - destruct (pk_pde _ _ Hok i ltac:(lia)) as [|[_ Hne]]; [done|]. by apply Hne.
  - eapply kernel_not_frame; [exact (pk_pd _ _ Hok)| | |exact Ht|done]; lia.
Qed.
Lemma frame_new i j : 0 ≤ i < 768 → 0 ≤ j < 1024 → present (entry_of i j) = true →
  ¬ (before i (frame_of (entry_of i j)) ∨ in_table i j (frame_of (entry_of i j))).
Proof.
  intros Hi Hj Hp [(i' & Hi' & He' & [Et|(j' & Hj' & Hp' & E)])|(j' & Hj' & Hp' & E)].
  - destruct (table_entry s pd i' Hok ltac:(lia) He') as (Hu & _).
    eapply (pool_apart s KPool UPool); [apply (pk_pal _ _ Hok)|exact Hu|by eapply entry_frame|done|by rewrite Et].
  - destruct (entry_inj i j i' j'); try done; lia.
  - destruct (entry_inj i j i j'); try done; lia.
Qed.

Lemma entry_word i j : 0 ≤ i < 768 → 0 ≤ j < 1024 → pde_of s pd i ≠ 0 →
  word (mram s) (table (pde_of s pd i) + 4 * j) = entry_of i j.
Proof.
  intros Hi Hj He. destruct (va_at_user i j Hi Hj) as (_ & E1 & E2). unfold entry_of, pte_val, slot.
  rewrite E1, E2. by rewrite (proj2 (Z.eqb_neq _ 0) He).
Qed.
Lemma wp_pte_frame {S} i j (x : S) (Q : Z → S → Prop) :
  0 ≤ i < 768 → 0 ≤ j < 1024 → present (entry_of i j) = true → Q (frame_of (entry_of i j)) x → wp (pte_get_page (entry_of i j)) x Q.
Proof.
  intros Hi Hj Hp HQ. destruct (va_at_user i j Hi Hj) as (Hu & _). pose proof (pk_pte _ _ Hok _ Hu Hp) as Hhi.
  fold (entry_of i j) in Hhi. assert (0 ≤ entry_of i j).
  { unfold entry_of, pte_val. destruct (_ =? _); [done|]. apply word_range, (pk_bytes _ _ Hok). }
  pose proof (Z.mod_pos_bound (entry_of i j) 4096). pose proof (Z.mod_le (entry_of i j) 4096).
  unfold pte_get_page. rewrite pte_addr_sub by (unfold PHYS_BASE in *; lia). apply wp_ptov; [lia|done].
Qed.

Lemma wp_free_entries i s' :
  0 ≤ i < 768 → pde_of s pd i ≠ 0 → without s s' (before i) →
  wp (for_upto (Z.to_nat (PGSIZE `div` 4)) (λ j,
        pte ← on_mem (load32 (table (pde_of s pd i) + 4 * Z.of_nat j));
        if negb (Z.land pte PTE_P =? 0) then page ← pte_get_page pte; on_frames (palloc_free_page page) else mret tt)) s'
    (λ _ s'', without s s'' (λ a, before i a ∨ in_table i 1024 a)).
Proof.
  intros Hi He Hs'. change (Z.to_nat (PGSIZE `div` 4)) with 1024%nat.
  apply (wp_for_upto (λ j s'', without s s'' (λ a, before i a ∨ in_table i (Z.of_nat j) a))).
  - eapply without_ext; [|exact Hs']. intros a. split; [by left|intros [?|(j & Hj & _)]; [done|lia]].
  - intros j s'' Hj Hs''. assert (Hjz : 0 ≤ Z.of_nat j < 1024) by lia.
    destruct (table_entry s pd i Hok Hi He) as (Hu & _).
    destruct (without_word s s'' _ KPool (table (pde_of s pd i)) (table (pde_of s pd i) + 4 * Z.of_nat j) Hs'' Hu) as [Hm Hw]; [|lia|lia|].
    { intros [Hb|Ht]; [by eapply table_new|]. eapply kernel_not_frame; [exact Hu|exact Hi| |exact Ht|done]. lia. }
    wp_step. apply wp_read; [done|]. rewrite Hw, entry_word by done. fold (present (entry_of i (Z.of_nat j))).
    assert (Hsucc : ∀ a, in_table i (Z.of_nat (S j)) a ↔ in_table i (Z.of_nat j) a ∨
      (present (entry_of i (Z.of_nat j)) = true ∧ a = frame_of (entry_of i (Z.of_nat j)))).
    { intros a. split.
      - intros (k & Hk & Hp & ->). destruct (decide (k = Z.of_nat j)) as [->|]; [by right|left; exists k; split_and!; [lia|lia|done|done]].
      - intros [(k & Hk & Hp & ->) | [Hp ->]]; [exists k|exists (Z.of_nat j)]; (split_and!; [lia|lia|done|done]). }
    destruct (present (entry_of i (Z.of_nat j))) eqn:Hp.
    + wp_step. apply wp_pte_frame; [done|done|done|].
      eapply wp_mono; [apply (wp_free_page s s'' _ UPool _ Hs''); [by apply entry_frame|by apply frame_new]|].
      intros [] s3 H3. eapply without_ext; [|exact H3]. intros a. cbn beta. rewrite Hsucc. naive_solver.
    + wp_step. eapply without_ext; [|exact Hs'']. intros a. cbn beta. rewrite Hsucc. naive_solver.
  - intros s'' Hs''. exact Hs''.
Qed.

Lemma before_succ i a : 0 ≤ i → before (i + 1) a ↔ before i a ∨ (pde_of s pd i ≠ 0 ∧ (a = table (pde_of s pd i) ∨ in_table i 1024 a)).
Proof.
  intros Hi. split.
  - intros (k & Hk & He & Ha). destruct (decide (k = i)) as [->|]; [by right|left; exists k; split_and!; [lia|lia|done|done]].
  - intros [(k & Hk & He & Ha)|[He Ha]]; [exists k|exists i]; (split_and!; [lia|lia|done|done]).
Qed.

Lemma wp_free_tables :
  wp (for_upto (Z.to_nat (pd_no PHYS_BASE)) (λ i,
      pde ← on_mem (load32 (pd + 4 * Z.of_nat i));
      if negb (Z.land pde PTE_P =? 0) then
        pt ← pde_get_pt pde;
        for_upto (Z.to_nat (PGSIZE `div` 4)) (λ j,
          pte ← on_mem (load32 (pt + 4 * Z.of_nat j));
          if negb (Z.land pte PTE_P =? 0) then page ← pte_get_page pte; on_frames (palloc_free_page page) else mret tt) ;;
        on_frames (palloc_free_page pt)
      else mret tt)) s (λ _ s', without s s' (before 768)).
Proof.
  change (Z.to_nat (pd_no PHYS_BASE)) with 768%nat.
  apply (wp_for_upto (λ i s', without s s' (before (Z.of_nat i)))).
  - split; [apply (pk_pal _ _ Hok)| |done|done]. intros w a. split; [|by intros []]. intros Ha. split; [done|]. intros (i & Hi & _). lia.
  - intros i s' Hi Hs'. assert (Hiz : 0 ≤ Z.of_nat i < 768) by lia.
    destruct (without_word s s' _ KPool pd (pd + 4 * Z.of_nat i) Hs' (pk_pd _ _ Hok)) as [Hm Hw]; [apply directory_new; lia|lia|lia|].
    wp_step. apply wp_read; [done|]. rewrite Hw. fold (pde_of s pd (Z.of_nat i)). replace (Z.of_nat (S i)) with (Z.of_nat i + 1) by lia.
    destruct (decide (pde_of s pd (Z.of_nat i) = 0)) as [He|He].
    { rewrite He. change (negb (Z.land 0 PTE_P =? 0)) with false. cbn iota. wp_step. eapply without_ext; [|exact Hs']. intros a. cbn beta. rewrite before_succ by lia. naive_solver. }
    destruct (table_entry s pd _ Hok Hiz He) as (Hu & _ & Hpde & Haddr & Hr).
    rewrite (proj2 (Z.eqb_neq _ 0) Hpde). cbn [negb]. wp_step. unfold pde_get_pt. wp_step.
    apply wp_assert; [by rewrite (proj2 (Z.eqb_neq _ 0) Hpde)|]. rewrite Haddr. apply wp_ptov; [done|].
    replace (table (pde_of s pd (Z.of_nat i)) - PHYS_BASE + PHYS_BASE) with (table (pde_of s pd (Z.of_nat i))) by lia.
    wp_step. eapply wp_mono; [by apply wp_free_entries|]. intros [] s2 H2.
    eapply wp_mono; [apply (wp_free_page s s2 _ KPool _ H2); [done|]|].
    { intros [Hb|Ht]; [by eapply table_new|]. eapply kernel_not_frame; [exact Hu|exact Hiz| |exact Ht|done]. lia. }
    intros [] s3 H3. eapply without_ext; [|exact H3]. intros a. cbn beta. rewrite before_succ by lia. naive_solver.
  - done.
Qed.

Lemma before_owned a : before 768 a ∨ a = pd ↔ owned s pd a.
Proof.
  split.
  - intros [(i & Hi & He & [-> | (j & Hj & Hp & ->)]) | ->]; [right|right|by left].
    + destruct (va_at_user i 0 Hi ltac:(lia)) as (Hu & E & _). exists (va_at i 0). split; [done|]. left. by rewrite E.
    + destruct (va_at_user i j Hi Hj) as (Hu & _). exists (va_at i j). split; [done|]. by right.
  - intros [-> | (va & Hva & Hc)]; [by right|left]. destruct (user_index va Hva) as [Hj Hk].
    assert (He : pde_of s pd (va `div` 4194304) ≠ 0).
    { destruct Hc as [[He _]|[Hp _]]; [done|]. intros E. unfold pte_val in Hp. rewrite E in Hp. done. }
    exists (va `div` 4194304). split; [done|]. split; [done|]. destruct Hc as [[_ ->] | [Hp ->]]; [by left|right].
    destruct (va_at_user _ _ Hj Hk) as (_ & E1 & E2).
    assert (pte_val s pd va = entry_of (va `div` 4194304) ((va `div` 4096) `mod` 1024)) as E
      by (unfold entry_of, pte_val, slot; by rewrite E1, E2).
    exists ((va `div` 4096) `mod` 1024). split; [done|]. by rewrite <-E.
Qed.
End destroy.

Section theorem.
Context (init_page_dir : Z).

Lemma wp_pagedir_destroy s pd :
  pd_ok s pd → owns_frames s pd → pd ≠ init_page_dir →
  wp (pagedir_destroy init_page_dir pd) s (λ _ s', without s s' (owned s pd)).
Proof.
  intros Hok Hown Hinit. destruct (used_range_addr _ _ _ (pk_pal _ _ Hok) (pk_pd _ _ Hok)) as (_ & Hpd & _).
  unfold pagedir_destroy. rewrite (proj2 (Z.eqb_neq pd 0)) by (unfold PHYS_BASE in Hpd; lia).
  wp_step. apply wp_assert; [by rewrite (proj2 (Z.eqb_neq _ _) Hinit)|].
  wp_step. eapply wp_mono; [by apply wp_free_tables|]. intros [] s' Hs'.
  eapply wp_mono; [apply (wp_free_page s s' _ KPool pd Hs' (pk_pd _ _ Hok)); by apply directory_new|].
  intros [] s'' H''. eapply without_ext; [|exact H'']. intros a. by apply before_owned.
Qed.

(** C14: pagedir_destroy of a page directory whose pages have frames of their own
    always returns. Afterwards exactly the directory, its page tables and the frames
    of the pages it maps are unused, each was given back once, and the contents of
    all other pages in use are as before. *)
Theorem pagedir_destroy_correct s pd :
  pd_ok s pd → owns_frames s pd → pd ≠ init_page_dir →
  ∃ s', pagedir_destroy init_page_dir pd s = Ok (tt, s') ∧ pal_ok (frames s') ∧
    (∀ w a, used w (frames s') a ↔ used w (frames s) a ∧ ¬ owned s pd a) ∧
    (∀ w a x, used w (frames s') a → a ≤ x < a + 4096 → mram s' !! x = mram s !! x).
Proof.
  intros Hok Hown Hinit. destruct (proj1 (wp_ok _ _ _) (wp_pagedir_destroy s pd Hok Hown Hinit)) as ([] & s' & E & [H1 H2 H3 _]).
  by exists s'.
Qed.
End theorem.

(** A new mapping to a frame that no page has keeps the frames owned. *)
Lemma owns_frames_set s s' pd upage k (w : bool) :
  pd_ok s pd → owns_frames s pd → kept s s' → used UPool (frames s) k →
  (∀ va, user_addr va → present (pte_val s pd va) = true → frame_of (pte_val s pd va) ≠ k) →
  (∀ va, user_addr va → pte_val s' pd va =
     if va `div` 4096 =? upage `div` 4096 then k - PHYS_BASE + (if w then 7 else 5) else pte_val s pd va) →
  owns_frames s' pd.
Proof.
  intros Hok [Hu Hi] (_ & Hkept & _) Hk Hnew Hval.
  destruct (used_range_addr _ _ _ (pk_pal _ _ Hok) Hk) as (Hka & Hlo & Hhi & _).
  assert (Hf : frame_of (k - PHYS_BASE + (if w then 7 else 5)) = k).
  { unfold frame_of. assert ((k - PHYS_BASE + (if w then 7 else 5)) `mod` 4096 = if w then 7 else 5) as ->; [|destruct w; lia].
    rewrite Zplus_mod, Zminus_mod, Hka. by destruct w. }
  split.
  - intros va Hva Hp. apply Hkept. rewrite Hval in Hp |- * by done. destruct (_ =? _); [by rewrite Hf|by apply Hu].
  - intros va va' Hva Hva' Hp Hp' E. rewrite Hval in Hp, E by done. rewrite (Hval va') in Hp', E by done.
    destruct (Z.eqb_spec (va `div` 4096) (upage `div` 4096)) as [->|N], (Z.eqb_spec (va' `div` 4096) (upage `div` 4096)) as [->|N'].
    + done.
    + destruct (Hnew va' Hva' Hp'). by rewrite <-E, Hf.
    + destruct (Hnew va Hva Hp). by rewrite E, Hf.
    + by apply Hi.
Qed.

(** ** Witness: one page is mapped *)
Definition ex_used : mmu := Mmu (with_map UPool (Bitmap 1 [1]) (frames ex_mmu)) (cr3 ex_mmu) (cr3_loads ex_mmu).

Lemma ex_used_ok : pd_ok ex_used ex_pd ∧ used UPool (frames ex_used) (PHYS_BASE + 12288) ∧ ∀ va, user_addr va → pte_val ex_used ex_pd va = 0.
Proof.
  destruct (with_map_ok UPool (Bitmap 1 [1]) (frames ex_mmu) ex_pal_ok) as [Hpal _]; [apply wfb_sound; reflexivity|reflexivity|].
  assert (Hm : mram ex_used = mram ex_mmu) by (unfold mram, ex_used, with_map; cbn [frames]; by rewrite ram_put).
  split_and!.
  - apply (pd_ok_pools ex_mmu); [exact ex_pd_ok|exact Hpal|exact Hm|]. intros p. unfold ex_used. cbn [frames]. by apply used_with_map_ne.
  - split; [exists 0; split; [simpl; lia|reflexivity]|reflexivity].
  - intros va Hva. destruct (user_index va Hva) as [Hj _].
    assert (E : pde_of ex_used ex_pd (va `div` 4194304) = 0).
    { unfold pde_of. rewrite Hm. unfold mram, ex_mmu. cbn [frames ram]. apply word_zeros; unfold ex_pd; lia. }
    unfold pte_val. rewrite E. reflexivity.
Qed.

Lemma pagedir_destroy_correct_witness :
  ∃ s s', pagedir_set_page 1 1000 ex_pd 8192 (PHYS_BASE + 12288) true ex_used = Ok (true, s) ∧
    pagedir_destroy 1 ex_pd s = Ok (tt, s') ∧ ¬ used UPool (frames s') (PHYS_BASE + 12288).
Proof.
  destruct ex_used_ok as (Hok & Hu & Hz).
  assert (Ht : match pagedir_set_page 1 1000 ex_pd 8192 (PHYS_BASE + 12288) true ex_used with
    Ok (r, _) => r | _ => false end = true) by (vm_compute; reflexivity).
  assert (H8 : user_addr 8192) by (apply ex_user; lia).
  assert (Hnp : ∀ va, user_addr va → present (pte_val ex_used ex_pd va) = false) by (intros va Hva; rewrite (Hz va Hva); reflexivity).
  destruct (proj1 (wp_ok _ _ _) (wp_pagedir_set_page 1 1000 ex_used ex_pd 8192 (PHYS_BASE + 12288) true Hok ltac:(discriminate) H8
    eq_refl eq_refl ltac:(split; [vm_compute; discriminate|reflexivity]) eq_refl (Hnp _ H8))) as (r & s & E & [(-> & -> & _)|(-> & Hok' & Hval & Hkept)]).
  { rewrite E in Ht. discriminate Ht. }
  assert (Hown : owns_frames s ex_pd).
  { eapply (owns_frames_set ex_used s ex_pd 8192 (PHYS_BASE + 12288) true Hok); [|exact Hkept|exact Hu| |exact Hval].
    - split; [intros va Hva Hp|intros va va' Hva _ Hp]; rewrite (Hnp va Hva) in Hp; discriminate Hp.
    - intros va Hva Hp. rewrite (Hnp va Hva) in Hp. discriminate Hp. }
  destruct (pagedir_destroy_correct 1 s ex_pd Hok' Hown ltac:(discriminate)) as (s' & E' & _ & Hus & _).
  exists s, s'. split; [exact E|]. split; [exact E'|]. rewrite Hus. intros [_ Hno]. apply Hno.
  right. exists 8192. split; [exact H8|]. right. rewrite (Hval _ H8). split; reflexivity.
Defined.
