(* ===== verification/CStdio.v ===== *)
(** * lib/stdio.c: formatted output

    Programs over any state that contains a memory ([mem_of], for [%s]
    arguments) and an [output] function for characters.  A format is the list
    of its characters (formats are literals in this code base); going past its
    terminator is a fault.  Arguments are the 32-bit words of the stack, so a
    64-bit argument is two of them, the low one first. *)
From stdpp Require Import strings.
From S2P Require Import Prelude Mem CString CStdlib.
Local Open Scope Z_scope.

Definition chars (s : string) : list Z := (λ a, Z.of_N (Ascii.N_of_ascii a)) <$> String.list_ascii_of_string s.

Definition MINUS : Z := 1.
Definition PLUS : Z := 2.
Definition SPACE : Z := 4.
Definition POUND : Z := 8.
Definition ZERO : Z := 16.
Definition GROUP : Z := 32.
Inductive arg_type := CHAR | SHORT | INT | INTMAX | LONG | LONGLONG | PTRDIFFT | SIZET.
Record printf_conversion := Conv { flags : Z; width : Z; precision : Z; type : arg_type }.
Record integer_base := IBase { base : Z; digits : list Z; x_char : Z; group : Z }.

Definition base_d := IBase 10 (chars "0123456789") 0 3.
Definition base_o := IBase 8 (chars "01234567") 0 3.
Definition base_x := IBase 16 (chars "0123456789abcdef") 120 4.
Definition base_X := IBase 16 (chars "0123456789ABCDEF") 88 4.

(** A test of a flag, [c->flags & f]. *)
Definition has (fl f : Z) : bool := negb (Z.land fl f =? 0).
(** [*format]: the terminator behind the last character. *)
Definition cur (fmt : list Z) : Z := default 0 (head fmt).

Definition flag_of (c : Z) : option Z :=
  if c =? 45 then Some MINUS else if c =? 43 then Some PLUS else if c =? 32 then Some SPACE
  else if c =? 35 then Some POUND else if c =? 48 then Some ZERO else if c =? 39 then Some GROUP else None.
Fixpoint parse_flags (fl : Z) (fmt : list Z) : Z * list Z :=
  match fmt with
  | c :: r => match flag_of c with Some f => parse_flags (Z.lor fl f) r | None => (fl, fmt) end
  | [] => (fl, [])
  end.
Fixpoint parse_number (v : Z) (fmt : list Z) : Z * list Z :=
  match fmt with
  | c :: r => if isdigit c then parse_number (s32 (v * 10 + c - 48)) r else (v, fmt)
  | [] => (v, [])
  end.
(** [va_arg (args, int)]. *)
Definition va_int (args : list Z) : option (Z * list Z) :=
  match args with w :: r => Some (s32 w, r) | [] => None end.
(** A width or precision: [*] takes an argument. *)
Definition parse_star (fmt args : list Z) : option (Z * list Z * list Z) :=
  if cur fmt =? 42 then '(v, args) ← va_int args; Some (v, tail fmt, args)
  else let '(v, fmt) := parse_number 0 fmt in Some (v, fmt, args).
Definition parse_type (fmt : list Z) : arg_type * list Z :=
  let c := cur fmt in
  if c =? 104 then if cur (tail fmt) =? 104 then (CHAR, tail (tail fmt)) else (SHORT, tail fmt)
  else if c =? 106 then (INTMAX, tail fmt)
  else if c =? 108 then if cur (tail fmt) =? 108 then (LONGLONG, tail (tail fmt)) else (LONG, tail fmt)
  else if c =? 116 then (PTRDIFFT, tail fmt)
  else if c =? 122 then (SIZET, tail fmt)
  else (INT, fmt).

Definition parse_conversion (fmt args : list Z) : option (list Z * printf_conversion * list Z) :=
  let '(fl, fmt) := parse_flags 0 fmt in
  let fl := if has fl MINUS then Z.land fl (Z.lnot ZERO) else fl in
  let fl := if has fl PLUS then Z.land fl (Z.lnot SPACE) else fl in
  '(w, fmt, args) ← parse_star fmt args;
  let '(w, fl) := if w <? 0 then (s32 (- w), Z.lor fl MINUS) else (w, fl) in
  '(p, fmt, args) ← (if cur fmt =? 46 then
      '(p, fmt, args) ← parse_star (tail fmt) args;
      Some (if p <? 0 then -1 else p, fmt, args)
    else Some (-1, fmt, args));
  let fl := if 0 <=? p then Z.land fl (Z.lnot ZERO) else fl in
  let '(ty, fmt) := parse_type fmt in
  Some (fmt, Conv fl w p ty, args).

(** The digits of [value], last one first, as [format_integer] collects them
    in its buffer. *)
Fixpoint digit_loop (fuel : nat) (b : integer_base) (fl value cnt : Z) : option (list Z) :=
  match fuel with
  | O => None
  | S n =>
      if 0 <? value then
        rest ← digit_loop n b fl (value `div` base b) (cnt + 1);
        Some ((if has fl GROUP && (0 <? cnt) && (cnt `mod` group b =? 0) then [44] else []) ++
              nth (Z.to_nat (value `mod` base b)) (digits b) 0 :: rest)
      else Some []
  end.
(** The contents of the buffer; it has room for 64 characters. *)
Definition integer_buf (value : Z) (b : integer_base) (c : printf_conversion) : option (list Z) :=
  buf ← digit_loop 65 b (flags c) value 0;
  let precision := if precision c <? 0 then 1 else precision c in
  let buf := buf ++ replicate (Z.to_nat (Z.min precision 63) - length buf) 48 in
  let buf := if has (flags c) POUND && (base b =? 8) && negb (bool_decide (last buf = Some 48))
             then buf ++ [48] else buf in
  if Z.of_nat (length buf) <=? 64 then Some buf else None.

(** The value of an argument, as 64-bit number. *)
Definition va_long (args : list Z) : option (Z * list Z) :=
  match args with lo :: hi :: r => Some (u64 (u32 lo + 2 ^ 32 * hi), r) | _ => None end.
Definition signed_arg (ty : arg_type) (args : list Z) : option (Z * list Z) :=
  match ty with
  | CHAR => '(v, r) ← va_int args; Some (sext 8 v, r)
  | SHORT => '(v, r) ← va_int args; Some (sext 16 v, r)
  | INT | LONG | PTRDIFFT => va_int args
  | INTMAX | LONGLONG => '(v, r) ← va_long args; Some (s64 v, r)
  | SIZET => '(v, r) ← va_int args;
      let v := u32 v in Some (if 2 ^ 32 `div` 2 - 1 <? v then v - (2 ^ 32 - 1) - 1 else v, r)
  end.
Definition unsigned_arg (ty : arg_type) (args : list Z) : option (Z * list Z) :=
  match ty with
  | CHAR => '(v, r) ← va_int args; Some (v `mod` 2 ^ 8, r)
  | SHORT => '(v, r) ← va_int args; Some (v `mod` 2 ^ 16, r)
  | INT | LONG | SIZET => '(v, r) ← va_int args; Some (u32 v, r)
  | INTMAX | LONGLONG => va_long args
  | PTRDIFFT => '(v, r) ← va_int args; Some (Z.land (u64 v) (2 ^ 32 - 1), r)
  end.

Section printf.
Context {S : Type} (mem_of : S → mem) (output : Z → M S unit).

Definition output_dup (ch cnt : Z) : M S unit := for_upto (Z.to_nat cnt) (λ _, output ch).
Fixpoint emit (cs : list Z) : M S unit :=
  match cs with [] => mret tt | c :: r => output c ;; emit r end.

Definition format_integer (value : Z) (is_signed negative : bool) (b : integer_base)
    (c : printf_conversion) : M S unit :=
  let fl := flags c in
  let sign :=
    if is_signed then
      if has fl PLUS then if negative then 45 else 43
      else if has fl SPACE then if negative then 45 else 32
      else if negative then 45 else 0
    else 0 in
  let x := if has fl POUND && negb (value =? 0) then x_char b else 0 in
  buf ← the (integer_buf value b c);
  let pad_cnt := width c - Z.of_nat (length buf) - (if negb (x =? 0) then 2 else 0)
                 - (if negb (sign =? 0) then 1 else 0) in
  let pad_cnt := if pad_cnt <? 0 then 0 else pad_cnt in
  (if negb (has fl (Z.lor MINUS ZERO)) then output_dup 32 pad_cnt else mret tt) ;;
  (if negb (sign =? 0) then output sign else mret tt) ;;
  (if negb (x =? 0) then output 48 ;; output x else mret tt) ;;
  (if has fl ZERO then output_dup 48 pad_cnt else mret tt) ;;
  emit (reverse buf) ;;
  (if has fl MINUS then output_dup 32 pad_cnt else mret tt).

(** [get i] is [string[i]]. *)
Definition format_string (get : Z → M S Z) (length : Z) (c : printf_conversion) : M S unit :=
  (if (length <? width c) && negb (has (flags c) MINUS) then output_dup 32 (width c - length) else mret tt) ;;
  for_upto (Z.to_nat length) (λ i, ch ← get (Z.of_nat i); output ch) ;;
  (if (length <? width c) && has (flags c) MINUS then output_dup 32 (width c - length) else mret tt).

(** Reading the strings among the arguments. *)
Definition peek {A} (m : M mem A) : M S A :=
  o ← gets (λ s, match m (mem_of s) with Ok (a, _) => Ok a | Err e => Err e end);
  match o with Ok a => mret a | Err e => throw e end.
(** A string in memory, or one of the source's literals. *)
Definition literal (cs : list Z) (i : Z) : M S Z := the ((cs ++ [0]) !! Z.to_nat i).

(** One conversion: its character, its options, its arguments.  The result is
    the rest of the arguments; [None] is a conversion that is not supported. *)
Definition convert (ch : Z) (c : printf_conversion) (args : list Z) : M S (option (list Z)) :=
  if (ch =? 100) || (ch =? 105) then
    '(v, args) ← the (signed_arg (type c) args);
    format_integer (if v <? 0 then u64 (- v) else v) true (v <? 0) base_d c ;; mret (Some args)
  else if (ch =? 111) || (ch =? 117) || (ch =? 120) || (ch =? 88) then
    '(v, args) ← the (unsigned_arg (type c) args);
    let b := if ch =? 111 then base_o else if ch =? 117 then base_d else if ch =? 120 then base_x else base_X in
    format_integer v false false b c ;; mret (Some args)
  else if ch =? 99 then
    '(v, args) ← the (va_int args);
    format_string (λ _, mret (v `mod` 256)) 1 c ;; mret (Some args)
  else if ch =? 115 then
    '(v, args) ← the (va_int args);
    let s := u32 v in
    (if s =? 0 then
       let null := chars "(null)" in
       let n := Z.of_nat (length null) in
       format_string (literal null) (if u32 (precision c) <? n then u32 (precision c) else n) c
     else
       n ← peek (strnlen s (u32 (precision c)));
       format_string (λ i, peek (load (s + i))) n c) ;;
    mret (Some args)
  else if ch =? 112 then
    '(v, args) ← the (va_int args);
    format_integer (u32 v) false false base_x (Conv POUND (width c) (precision c) (type c)) ;; mret (Some args)
  else mret None.

Definition unsupported (ch : Z) : list Z :=
  if existsb (Z.eqb ch) (chars "feEgGn") then chars "<<no %%%c in kernel>>" else chars "<<no %%%c conversion>>".

Fixpoint __vprintf (fuel : nat) (fmt args : list Z) : M S unit :=
  match fuel with
  | O => throw EFuel
  | Datatypes.S n =>
      match fmt with
      | [] => mret tt
      | c :: fmt =>
          if negb (c =? 37) then output c ;; __vprintf n fmt args
          else if cur fmt =? 37 then output 37 ;; __vprintf n (tail fmt) args
          else
            '(fmt, conv, args) ← the (parse_conversion fmt args);
            r ← convert (cur fmt) conv args;
            args ← match (r : option (list Z)) with
                   | Some args => mret args
                   | None => __vprintf n (unsupported (cur fmt)) [cur fmt] ;; mret args
                   end;
            match fmt with
            | [] => throw EFault
            | _ :: fmt => __vprintf n fmt args
            end
      end
  end.

(** Enough for the format and a message about an unsupported conversion. *)
Definition vprintf (fmt args : list Z) : M S unit := __vprintf (32 + length fmt) fmt args.
End printf.

(** ** Output to a buffer

    [length] and [max_length] are of type [int], so the conversion of
    [buf_size - 1] wraps around. *)
Record vsnprintf_aux := VAux { va_mem : mem; va_p : Z; va_length : Z; va_max : Z }.

Definition vsnprintf_helper (ch : Z) : M vsnprintf_aux unit :=
  a ← gets id;
  if va_length a <? va_max a then
    zoom va_mem (λ m a, VAux m (va_p a) (va_length a) (va_max a)) (store (va_p a) ch) ;;
    modify (λ a, VAux (va_mem a) (va_p a + 1) (s32 (va_length a + 1)) (va_max a))
  else modify (λ a, VAux (va_mem a) (va_p a) (s32 (va_length a + 1)) (va_max a)).

Definition vsnprintf (buffer buf_size : Z) (fmt args : list Z) : M mem Z := λ m,
  match vprintf va_mem vsnprintf_helper fmt args
          (VAux m buffer 0 (if 0 <? buf_size then s32 (buf_size - 1) else 0)) with
  | Err e => Err e
  | Ok (_, a) =>
      if 0 <? buf_size then
        match store (va_p a) 0 (va_mem a) with
        | Ok (_, m) => Ok (va_length a, m)
        | Err e => Err e
        end
      else Ok (va_length a, va_mem a)
  end.

Definition snprintf (buffer buf_size : Z) (fmt args : list Z) : M mem Z := vsnprintf buffer buf_size fmt args.

(** ** Output to the console: the characters so far, last one first *)
Definition console : Type := mem * list Z.
Definition putchar (ch : Z) : M console unit := modify (λ '(m, out), (m, ch :: out)).
Definition printf (fmt args : list Z) : M console unit := vprintf fst putchar fmt args.

Definition print_human_readable_size (size : Z) : M console unit :=
  if size =? 1 then printf (chars "1 byte") []
  else
    r ← loop 5 (λ '(size, fp),
      match fp with
      | f :: ((_ :: _) as more) => if 1024 <=? size then mret (inl (size `div` 1024, more)) else mret (inr (size, f))
      | [f] => mret (inr (size, f))
      | [] => throw EFault
      end) (size, ["bytes"; "kB"; "MB"; "GB"; "TB"]);
    let '(size, f) := r in
    printf (chars "%llu ") [u32 size; size `div` 2 ^ 32] ;; printf (chars f) [].

Definition isprint (c : Z) : bool := (32 <=? c) && (c <? 127).

(** The lines of [hex_dump]; the bytes are read when they are printed. *)
Definition hex_byte (buf i : Z) : M console Z := peek fst (load (buf + i)).
Definition hex_line (ofs buf start stop : Z) (ascii : bool) : M console unit :=
  printf (chars "%08jx  ") [ofs `div` 16 * 16; 0] ;;
  for_upto (Z.to_nat start) (λ _, printf (chars "   ") []) ;;
  for_upto (Z.to_nat (stop - start)) (λ k,
    let i := start + Z.of_nat k in
    b ← hex_byte buf (i - start);
    printf (chars "%02hhx%c") [b; if i =? 7 then 45 else 32]) ;;
  (if ascii then
     for_upto (Z.to_nat (16 - stop)) (λ _, printf (chars "   ") []) ;;
     printf (chars "|") [] ;;
     for_upto (Z.to_nat start) (λ _, printf (chars " ") []) ;;
     for_upto (Z.to_nat (stop - start)) (λ k,
       b ← hex_byte buf (Z.of_nat k);
       printf (chars "%c") [if isprint b then b else 46]) ;;
     for_upto (Z.to_nat (16 - stop)) (λ _, printf (chars " ") []) ;;
     printf (chars "|") []
   else mret tt) ;;
  printf [10] [].
Definition hex_dump (ofs buf size : Z) (ascii : bool) : M console unit :=
  loop (S (Z.to_nat size)) (λ '(ofs, buf, size),
    if 0 <? size then
      let start := ofs `mod` 16 in
      let stop := if size <? 16 - start then start + size else 16 in
      let n := stop - start in
      hex_line ofs buf start stop ascii ;;
      mret (inl (u32 (ofs + n), u32 (buf + n), size - n))
    else mret (inr tt)) (ofs, buf, size).
