(* ===== verification/CStdioFacts.v ===== *)
(** * Facts about formatted output

    A simulation between two ways of output: what one state machine prints, a
    related one prints too.  It relates the console, which keeps everything, to
    a buffer of limited size. *)
From stdpp Require Import strings.
From S2P Require Import Prelude Mem CString CStringFacts CStdlib CStdlibFacts CStdio.
Local Open Scope Z_scope.

(** ** Programs that only read: more memory does not change their result *)
Definition rd_mono {A} (p : M mem A) : Prop :=
  ∀ m1 m2 a m1', m1 ⊆ m2 → p m1 = Ok (a, m1') → m1' = m1 ∧ p m2 = Ok (a, m2).

Lemma rd_load a : rd_mono (load a).
Proof.
  intros m1 m2 v m1' Hs. unfold load, gets, the, mbind, M_bind, mret, M_ret.
  destruct (m1 !! a) as [b|] eqn:E; [|done]. intros [= <- <-]. split; [done|].
  by rewrite (lookup_weaken _ _ _ _ E Hs).
Qed.
Lemma rd_ret {A} (a : A) : rd_mono (mret a).
Proof. intros m1 m2 v m1' _ [= <- <-]. done. Qed.
Lemma rd_bind {A B} (p : M mem A) (f : A → M mem B) :
  rd_mono p → (∀ a, rd_mono (f a)) → rd_mono (p ≫= f).
Proof.
  intros Hp Hf m1 m2 v m1' Hs. unfold mbind, M_bind.
  destruct (p m1) as [[a m]|] eqn:E; [|done].
  destruct (Hp _ _ _ _ Hs E) as [-> ->]. by apply Hf.
Qed.
Lemma rd_loop {A B} (body : A → M mem (A + B)) :
  (∀ a, rd_mono (body a)) → ∀ n n' a m1 m2 v m1', (n ≤ n')%nat → m1 ⊆ m2 →
  loop n body a m1 = Ok (v, m1') → m1' = m1 ∧ loop n' body a m2 = Ok (v, m2).
Proof.
  intros Hb. induction n as [|n IH]; intros n' a m1 m2 v m1' Hn Hs; [done|].
  destruct n' as [|n']; [lia|]. unfold loop; fold (@loop mem A B). unfold mbind, M_bind.
  destruct (body a m1) as [[r m]|] eqn:E; [|done].
  destruct (Hb a _ _ _ _ Hs E) as [-> ->]. destruct r as [a'|b]; [apply IH; [lia|done]|].
  intros [= <- <-]. done.
Qed.
Lemma rd_scan {A B} (body : A → M mem (A + B)) a : (∀ a, rd_mono (body a)) → rd_mono (scan body a).
Proof.
  intros Hb m1 m2 v m1' Hs. unfold scan. intros H.
  eapply rd_loop in H; [exact H|done|by apply le_n_S, map_subseteq_size|done].
Qed.
Lemma rd_strnlen s n : rd_mono (strnlen s n).
Proof.
  apply rd_scan. intros l. apply rd_bind; [apply rd_load|]. intros x.
  destruct (negb (x =? 0) && (l <? n)); apply rd_ret.
Qed.

(** ** Simulation *)
Section simulation.
Context {S1 S2 : Type} (R : S1 → S2 → Prop) (small : S1 → Prop).

(** As long as the state of the first machine stays [small], the second one
    follows it. *)
Definition sim {A} (x : M S1 A) (y : M S2 A) : Prop :=
  ∀ s1 a s1', x s1 = Ok (a, s1') →
    (small s1' → small s1) ∧
    ∀ s2, R s1 s2 → small s1' → ∃ s2', y s2 = Ok (a, s2') ∧ R s1' s2'.

Lemma sim_ret {A} (a : A) : sim (mret a) (mret a).
Proof. intros s1 b s1' [= <- <-]. split; [done|]. intros s2 HR _. by exists s2. Qed.
Lemma sim_throw {A} e (y : M S2 A) : sim (throw e) y.
Proof. by intros s1 b s1'. Qed.
Lemma sim_bind {A B} (x : M S1 A) (y : M S2 A) (f : A → M S1 B) (g : A → M S2 B) :
  sim x y → (∀ a, sim (f a) (g a)) → sim (x ≫= f) (y ≫= g).
Proof.
  intros Hx Hf s1 b s1'. unfold mbind, M_bind. destruct (x s1) as [[a s]|] eqn:E; [|done]. intros E'.
  destruct (Hx _ _ _ E) as [Hm1 Hx1], (Hf a _ _ _ E') as [Hm2 Hf1]. split; [auto|].
  intros s2 HR Hs. destruct (Hx1 s2 HR (Hm2 Hs)) as (s2' & -> & HR'). by apply Hf1.
Qed.
Lemma sim_the {A} (o : option A) : sim (the o) (the o).
Proof. destruct o; [apply sim_ret|apply sim_throw]. Qed.
Lemma sim_for_upto n f g : (∀ k, sim (f k) (g k)) → sim (for_upto n f) (for_upto n g).
Proof. intros Hf. induction n as [|n IH]; [apply sim_ret|]. by apply sim_bind. Qed.
Lemma sim_if {A} (b : bool) (x x' : M S1 A) (y y' : M S2 A) :
  sim x y → sim x' y' → sim (if b then x else x') (if b then y else y').
Proof. by destruct b. Qed.

Context (mem1 : S1 → mem) (mem2 : S2 → mem) (out1 : Z → M S1 unit) (out2 : Z → M S2 unit).
Hypothesis sim_out : ∀ c, sim (out1 c) (out2 c).
Hypothesis R_mem : ∀ s1 s2, R s1 s2 → mem1 s1 ⊆ mem2 s2.

Lemma sim_peek {A} (p : M mem A) : rd_mono p → sim (peek mem1 p) (peek mem2 p).
Proof.
  intros Hp s1 a s1'. unfold peek, gets, mbind, M_bind.
  destruct (p (mem1 s1)) as [[v m]|] eqn:E; [|done]. intros [= <- <-]. split; [done|].
  intros s2 HR _. exists s2. destruct (Hp _ _ _ _ (R_mem _ _ HR) E) as [_ ->]. done.
Qed.

Lemma sim_emit cs : sim (emit out1 cs) (emit out2 cs).
Proof. induction cs as [|c cs IH]; [apply sim_ret|]. by apply sim_bind. Qed.
Lemma sim_output_dup c n : sim (output_dup out1 c n) (output_dup out2 c n).
Proof. by apply sim_for_upto. Qed.

Create HintDb simdb.
#[local] Hint Resolve sim_ret sim_the sim_if sim_emit sim_output_dup sim_out sim_throw : simdb.
Ltac sim_step := first [apply sim_bind; [auto with simdb|intros] | apply sim_if | auto with simdb].

Lemma sim_format_integer v sg neg b c :
  sim (format_integer out1 v sg neg b c) (format_integer out2 v sg neg b c).
Proof. unfold format_integer. repeat sim_step. Qed.

Lemma sim_format_string get1 get2 n c :
  (∀ i, sim (get1 i) (get2 i)) → sim (format_string out1 get1 n c) (format_string out2 get2 n c).
Proof.
  intros Hg. unfold format_string. apply sim_bind; [auto with simdb|intros _].
  apply sim_bind; [|intros _; auto with simdb]. apply sim_for_upto. intros k. apply sim_bind; [done|auto with simdb].
Qed.

Lemma sim_convert ch c args : sim (convert mem1 out1 ch c args) (convert mem2 out2 ch c args).
Proof.
  unfold convert. repeat apply sim_if; try apply sim_ret; (apply sim_bind; [apply sim_the|intros [v r]]);
    (apply sim_bind; [|intros; apply sim_ret]).
  - apply sim_format_integer.
  - apply sim_format_integer.
  - apply sim_format_string. intros; apply sim_ret.
  - apply sim_if; [apply sim_format_string; intros; apply sim_the|].
    apply sim_bind; [apply sim_peek, rd_strnlen|intros n].
    apply sim_format_string. intros; apply sim_peek, rd_load.
  - apply sim_format_integer.
Qed.

Lemma sim_vprintf n fmt args : sim (__vprintf mem1 out1 n fmt args) (__vprintf mem2 out2 n fmt args).
Proof.
  revert fmt args. induction n as [|n IH]; intros fmt args; [apply sim_throw|]. cbn [__vprintf].
  destruct fmt as [|c fmt]; [apply sim_ret|].
  apply sim_if; [by apply sim_bind|]. apply sim_if; [by apply sim_bind|].
  apply sim_bind; [apply sim_the|intros [[fmt' conv] args']].
  apply sim_bind; [apply sim_convert|intros r].
  apply sim_bind; [destruct r; [apply sim_ret|apply sim_bind; [done|intros; apply sim_ret]]|intros args''].
  destruct fmt'; [apply sim_throw|done].
Qed.
End simulation.

(** ** The console against a buffer *)
Section buffer.
Context (m : mem) (b n : Z).
Hypothesis Hn : 0 < n ≤ 2 ^ 31.
Hypothesis Hmap : mapped m b n.

(** The memory outside of the buffer. *)
Definition outside : mem := filter (λ '(a, _), ¬ (b ≤ a < b + n)) m.
(** What the buffer holds after [out] was printed. *)
Definition kept (out : list Z) : list Z := take (Z.to_nat (n - 1)) out.

Definition buffered (s : console) (a : vsnprintf_aux) : Prop :=
  s.1 = outside ∧ va_mem a = write m b (kept (reverse s.2)) ∧
  va_p a = b + Z.of_nat (length (kept (reverse s.2))) ∧
  va_length a = Z.of_nat (length s.2) ∧ va_max a = n - 1.
Definition int_length (s : console) : Prop := Z.of_nat (length s.2) < 2 ^ 31.

Lemma length_kept out : Z.of_nat (length (kept out)) = Z.min (n - 1) (Z.of_nat (length out)).
Proof. unfold kept. rewrite length_take. lia. Qed.

Lemma sim_buffer c : sim buffered int_length (putchar c) (vsnprintf_helper c).
Proof.
  intros [m1 out] [] s1' [= <-]. split; [unfold int_length; simpl; lia|].
  intros a (Hm & Hw & Hp & Hl & Hx) Hs. cbn [fst snd] in *. unfold int_length in Hs. cbn [snd length] in Hs.
  unfold vsnprintf_helper, gets, mbind, M_bind, id. rewrite Hl, Hx.
  assert (Hkept : kept (reverse (c :: out)) =
    if Z.of_nat (length out) <? n - 1 then kept (reverse out) ++ [c] else kept (reverse out)).
  { unfold kept. rewrite reverse_cons. destruct (Z.ltb_spec (Z.of_nat (length out)) (n - 1)).
    - rewrite !take_ge by (rewrite ?length_app, ?length_reverse; simpl; lia). done.
    - rewrite take_app_le by (rewrite length_reverse; lia). done. }
  pose proof (length_kept (reverse out)) as Hk. rewrite length_reverse in Hk.
  destruct (Z.ltb_spec (Z.of_nat (length out)) (n - 1)).
  - assert (Hst : store (va_p a) c (va_mem a) = Ok (tt, <[va_p a := c]> (va_mem a))).
    { apply wp_det_ok, wp_store; [|done]. rewrite Hw, lookup_write. destruct (decide _).
      - apply lookup_lt_is_Some. lia.
      - apply Hmap. lia. }
    unfold zoom. rewrite Hst. eexists. split; [reflexivity|].
    split_and!; cbn [fst snd va_mem va_p va_length va_max]; [done| | | |done].
    + rewrite Hkept, Hw, Hp. by rewrite write_snoc.
    + rewrite Hkept, length_app, Hp. simpl. lia.
    + rewrite Hl, s32_small; simpl length; lia.
  - eexists. split; [reflexivity|].
    split_and!; cbn [fst snd va_mem va_p va_length va_max]; [done|by rewrite Hkept|by rewrite Hkept| |done].
    rewrite Hl, s32_small; simpl length; lia.
Qed.

Lemma buffered_mem s a : buffered s a → s.1 ⊆ va_mem a.
Proof.
  intros (-> & -> & _). apply map_subseteq_spec. intros x v.
  unfold outside. rewrite map_lookup_filter_Some. intros [Hx Hout]. rewrite lookup_write, decide_False; [done|].
  pose proof (length_kept (reverse s.2)). lia.
Qed.

(** Whatever a format prints to the console with the memory outside of the
    buffer, [vsnprintf] prints to the buffer, as far as there is room. *)
Lemma vsnprintf_console fmt args out :
  printf fmt args (outside, []) = Ok (tt, (outside, reverse out)) → Z.of_nat (length out) < 2 ^ 31 →
  vsnprintf b n fmt args m = Ok (Z.of_nat (length out), write m b (kept out ++ [0])).
Proof.
  unfold printf, vsnprintf, vprintf. generalize (32 + length fmt)%nat as fuel. intros fuel Hp Hlen.
  rewrite (proj2 (Z.ltb_lt 0 n)), (s32_small (n - 1)) by lia.
  destruct (sim_vprintf buffered int_length fst va_mem putchar vsnprintf_helper sim_buffer buffered_mem
    fuel fmt args _ _ _ Hp) as [_ Hsim].
  destruct (Hsim (VAux m b 0 (n - 1))) as (a & E & _ & Hw & Hpp & Hl & _).
  - unfold buffered, kept. cbn [fst snd]. rewrite reverse_nil, take_nil. simpl. split_and!; done || lia.
  - unfold int_length. cbn [snd]. by rewrite length_reverse.
  - rewrite E. cbn [fst snd] in *. rewrite reverse_involutive in Hw, Hpp.
    rewrite length_reverse in Hl. pose proof (length_kept out) as Hk.
    assert (Hst : store (va_p a) 0 (va_mem a) = Ok (tt, <[va_p a := 0]> (va_mem a))).
    { apply wp_det_ok, wp_store; [|done]. rewrite Hw, lookup_write. destruct (decide _).
      - apply lookup_lt_is_Some. lia.
      - apply Hmap. lia. }
    rewrite Hst, Hl, Hw, Hpp. f_equal. f_equal. by rewrite write_snoc.
Qed.
End buffer.

(** ** Decimal numbers *)
Lemma digit_loop_spec fuel k v cnt :
  0 ≤ v < 10 ^ Z.of_nat k → (k < fuel)%nat →
  ∃ ds, digit_loop fuel base_d 0 v cnt = Some ds ∧ Forall (λ c, isdigit c = true) ds ∧
    digits_value (reverse ds) = v ∧ (length ds ≤ k)%nat ∧ (0 < v → ds ≠ []).
Proof.
  revert k v cnt. induction fuel as [|fuel IH]; intros k v cnt Hv Hk; [lia|]. cbn [digit_loop].
  destruct (Z.ltb_spec 0 v) as [Hpos|Hz].
  2:{ exists []. split_and!; [done|constructor| |simpl; lia|lia]. unfold digits_value. simpl. lia. }
  destruct k as [|k]; [simpl in Hv; lia|]. rewrite Nat2Z.inj_succ, Z.pow_succ_r in Hv by lia.
  pose proof (Z.div_mod v 10). pose proof (Z.mod_pos_bound v 10).
  destruct (IH k (v `div` 10) (cnt + 1)) as (ds & E & Hd & Hval & Hlen & _); [|lia|].
  { split; [apply Z.div_pos; lia|]. apply Z.div_lt_upper_bound; lia. }
  cbn [base base_d]. rewrite E. cbn [mbind option_bind]. change (has 0 GROUP) with false. cbn [andb app].
  assert (Hdig : nth (Z.to_nat (v `mod` 10)) (digits base_d) 0 = 48 + v `mod` 10).
  { assert (Hall : ∀ j, (j < 10)%nat → nth j (digits base_d) 0 = 48 + Z.of_nat j)
      by (intros j Hj; do 10 (destruct j as [|j]; [reflexivity|]); lia).
    rewrite Hall by lia. lia. }
  rewrite Hdig. eexists. split; [done|]. split_and!.
  - constructor; [|done]. unfold isdigit. apply andb_true_iff. split; apply Z.leb_le; lia.
  - rewrite reverse_cons, digits_value_snoc, Hval. lia.
  - simpl. lia.
  - done.
Qed.

(** The digits "%d" prints for a number. *)
Lemma integer_buf_decimal v :
  0 ≤ v < 2 ^ 32 →
  ∃ ds, integer_buf v base_d (Conv 0 0 (-1) INT) = Some ds ∧ Forall (λ c, isdigit c = true) ds ∧
    digits_value (reverse ds) = v ∧ ds ≠ [] ∧ (length ds ≤ 10)%nat.
Proof.
  intros Hv. destruct (digit_loop_spec 65 10 v 0) as (ds & E & Hd & Hval & Hlen & Hne); [simpl in *; lia|lia|].
  unfold integer_buf. cbn [flags precision]. rewrite E. cbn [mbind option_bind].
  change (-1 <? 0) with true. change (has 0 POUND) with false. cbn [andb]. change (Z.to_nat (Z.min 1 63)) with 1%nat.
  destruct (decide (v = 0)) as [->|Hnz].
  - assert (ds = []) as ->; [|exists [48]; split_and!; [done|by repeat constructor|done|done|simpl; lia]].
    cbn [digit_loop] in E. by injection E as <-.
  - specialize (Hne ltac:(lia)). exists ds. destruct ds as [|d ds]; [done|].
    replace (1 - length (d :: ds))%nat with 0%nat by (simpl; lia). cbn [replicate]. rewrite app_nil_r.
    rewrite (proj2 (Z.leb_le _ _)) by lia. done.
Qed.

(** What "%d" prints. *)
Definition decimal_of (x : Z) (s : list Z) : Prop :=
  ∃ ds, s = (if x <? 0 then [45] else []) ++ ds ∧ Forall (λ c, isdigit c = true) ds ∧ ds ≠ [] ∧
    digits_value ds = Z.abs x ∧ (length s ≤ 11)%nat.

Lemma emit_console cs m out : emit putchar cs (m, out) = Ok (tt, (m, reverse cs ++ out)).
Proof.
  revert out. induction cs as [|c cs IH]; intros out; [done|]. cbn [emit]. unfold mbind, M_bind.
  cbn [putchar modify]. rewrite IH. by rewrite reverse_cons, <- app_assoc.
Qed.

Lemma wp_emit cs m out (Q : unit → console → Prop) :
  Q tt (m, reverse cs ++ out) → wp (emit putchar cs) (m, out) Q.
Proof. intros HQ. unfold wp. by rewrite emit_console. Qed.

(** A conversion without flags and width prints the sign and the digits. *)
Lemma wp_format_plain v neg ds m out (Q : unit → console → Prop) :
  integer_buf v base_d (Conv 0 0 (-1) INT) = Some ds →
  Q tt (m, ds ++ (if neg : bool then [45] else []) ++ out) →
  wp (format_integer putchar v true neg base_d (Conv 0 0 (-1) INT)) (m, out) Q.
Proof.
  intros E HQ. unfold format_integer. cbn [flags width].
  change (has 0 PLUS) with false. change (has 0 SPACE) with false. change (has 0 POUND) with false.
  change (has 0 ZERO) with false. change (has 0 MINUS) with false. change (has 0 (Z.lor MINUS ZERO)) with false.
  cbn [andb negb]. change (0 =? 0) with true. cbn [negb].
  wp_step. apply (wp_the _ ds); [done|].
  assert (Hpad : ∀ k, 0 ≤ k → (if 0 - Z.of_nat (length ds) - 0 - k <? 0 then 0 else 0 - Z.of_nat (length ds) - 0 - k) = 0)
    by (intros k Hk; destruct (Z.ltb_spec (0 - Z.of_nat (length ds) - 0 - k) 0); lia).
  rewrite Hpad by (by destruct (negb _)). unfold output_dup. change (Z.to_nat 0) with O. cbn [for_upto].
  wp_step. wp_step. destruct neg; cbn [Z.eqb negb].
  - wp_step. unfold putchar at 1. wp_step. wp_steps. apply wp_emit. wp_step. by rewrite reverse_involutive.
  - wp_steps. apply wp_emit. wp_step. by rewrite reverse_involutive.
Qed.

(** ** One step of a format *)
Section format.
Context (m : mem) (fuel : nat) (fmt args out : list Z) (Q : unit → console → Prop).

Lemma wp_vprintf_char c :
  c ≠ 37 → wp (__vprintf fst putchar fuel fmt args) (m, c :: out) Q →
  wp (__vprintf fst putchar (S fuel) (c :: fmt) args) (m, out) Q.
Proof. intros Hc HQ. cbn [__vprintf]. rewrite (proj2 (Z.eqb_neq c 37) Hc). cbn [negb]. wp_step. unfold putchar at 1. wp_step. exact HQ. Qed.

Lemma wp_vprintf_d x :
  - 2 ^ 31 ≤ x < 2 ^ 31 → (∀ d, decimal_of x d → wp (__vprintf fst putchar fuel fmt args) (m, reverse d ++ out) Q) →
  wp (__vprintf fst putchar (S fuel) (37 :: 100 :: fmt) (u32 x :: args)) (m, out) Q.
Proof.
  intros Hx HQ. assert (Hs : s32 (u32 x) = x).
  { unfold s32, sext, u32. rewrite Zplus_mod_idemp_l, Z.mod_small; simpl in *; lia. }
  destruct (integer_buf_decimal (Z.abs x)) as (ds & E & Hd & Hval & Hne & Hlen); [lia|].
  specialize (HQ ((if x <? 0 then [45] else []) ++ reverse ds)).
  assert (Hpc : parse_conversion (100 :: fmt) (u32 x :: args) = Some (100 :: fmt, Conv 0 0 (-1) INT, u32 x :: args)) by reflexivity.
  cbn [__vprintf]. change (negb (37 =? 37)) with false. change (cur (100 :: fmt) =? 37) with false. cbn iota. rewrite Hpc.
  wp_step. eapply wp_the; [done|]. cbn iota. unfold convert. cbn [type].
  change ((cur (100 :: fmt) =? 100) || (cur (100 :: fmt) =? 105)) with true. cbn iota.
  wp_step. wp_step. apply (wp_the _ (x, args)); [by unfold signed_arg, va_int; rewrite Hs|].
  assert (Habs : (if x <? 0 then u64 (- x) else x) = Z.abs x).
  { destruct (Z.ltb_spec x 0); [rewrite u64_small by (simpl in *; lia)|]; lia. }
  rewrite Habs. wp_step. apply (wp_format_plain _ _ ds); [done|]. wp_step. wp_step. wp_step.
  rewrite reverse_app, reverse_involutive, <-app_assoc in HQ. replace (reverse (if x <? 0 then [45] else [])) with (if x <? 0 then [45] else []) in HQ by (by destruct (x <? 0)).
  apply HQ. exists (reverse ds). split_and!; [done|by apply Forall_reverse| |done|].
  - intros H. apply Hne. rewrite <- (reverse_involutive ds), H. done.
  - rewrite length_app, length_reverse. destruct (x <? 0); simpl; lia.
Qed.

Lemma wp_vprintf_s a str :
  0 < a < 2 ^ 31 → cstr m a str → Z.of_nat (length str) < 2 ^ 32 →
  wp (__vprintf fst putchar fuel fmt args) (m, reverse str ++ out) Q →
  wp (__vprintf fst putchar (S fuel) (37 :: 115 :: fmt) (a :: args)) (m, out) Q.
Proof.
  intros Ha Hs Hl HQ.
  assert (Hpc : parse_conversion (115 :: fmt) (a :: args) = Some (115 :: fmt, Conv 0 0 (-1) INT, a :: args)) by reflexivity.
  cbn [__vprintf]. change (negb (37 =? 37)) with false. change (cur (115 :: fmt) =? 37) with false. cbn iota. rewrite Hpc.
  wp_step. eapply wp_the; [done|]. cbn iota. unfold convert. change (cur (115 :: fmt)) with 115. cbn [Z.eqb Pos.eqb orb].
  wp_step. wp_step. apply (wp_the _ (a, args)); [unfold va_int; by rewrite s32_small by lia|]. cbn iota.
  rewrite u32_small by lia. rewrite (proj2 (Z.eqb_neq a 0)) by lia. cbn [precision]. wp_step. wp_step.
  change (u32 (-1)) with 4294967295.
  assert (Hn : strnlen a 4294967295 m = Ok (Z.of_nat (length str), m)).
  { apply wp_det_ok. eapply wp_strnlen; [done|lia|]. split; [lia|done]. }
  unfold peek at 1. wp_step. wp_step. cbn [fst]. rewrite Hn. wp_step.
  unfold format_string. cbn [width flags].
  assert (Z.of_nat (length str) <? 0 = false) as -> by (apply Z.ltb_ge; lia). cbn [andb]. wp_step. wp_step. wp_step.
  rewrite Nat2Z.id.
  apply (wp_for_upto (λ k s, s = (m, reverse (take k str) ++ out))); [done| |].
  - intros k s Hk ->. destruct (lookup_lt_is_Some_2 str k Hk) as [c Hc]. wp_step. unfold peek. wp_step. wp_step. cbn [fst].
    assert (Hload : load (a + Z.of_nat k) m = Ok (c, m)).
    { apply wp_det_ok. eapply wp_load; [by apply (cstr_bytes _ _ _ Hs)|done]. }
    rewrite Hload. wp_step. unfold putchar. wp_step. by rewrite (take_S_r _ _ _ Hc), reverse_app.
  - intros s ->. rewrite firstn_all. wp_steps. exact HQ.
Qed.
End format.

Lemma printf_decimal m x :
  - 2 ^ 31 ≤ x < 2 ^ 31 → ∃ s, decimal_of x s ∧ printf (chars "%d") [u32 x] (m, []) = Ok (tt, (m, reverse s)).
Proof.
  intros Hx. assert (Hwp : wp (printf (chars "%d") [u32 x]) (m, []) (λ _ c, ∃ s, decimal_of x s ∧ c = (m, reverse s))).
  { unfold printf, vprintf. change (chars "%d") with [37; 100]. change (32 + length [37%Z; 100%Z])%nat with (S (S 32)).
    apply wp_vprintf_d; [done|]. intros d Hd. cbn [__vprintf]. wp_step. exists d. by rewrite app_nil_r. }
  apply wp_ok in Hwp as ([] & c & E & s & Hs & ->). by exists s.
Qed.
