(* ===== verification/CStdioProps.v ===== *)
(** * Properties of formatted output *)
From stdpp Require Import strings.
From S2P Require Import Prelude Mem CString CStringFacts CStdlib CStdlibFacts CStdio CStdioFacts.
Local Open Scope Z_scope.

(** Vsnprintf prints to a buffer exactly what the same format prints to the
    console, cut off at buf_size - 1 characters and null-terminated; it writes
    nothing outside of the buffer and returns the length of the whole output.
    (The strings among the arguments lie outside of the buffer, the output is
    shorter than 2^31 and the buffer has at most 2^31 bytes, since [max_length]
    is an int; see [large_buffer_stays_empty].) *)
Theorem vsnprintf_truncates m buffer buf_size fmt args out :
  0 < buf_size ≤ 2 ^ 31 → mapped m buffer buf_size →
  printf fmt args (outside m buffer buf_size, []) = Ok (tt, (outside m buffer buf_size, reverse out)) →
  Z.of_nat (length out) < 2 ^ 31 →
  ∃ kept, kept `prefix_of` out ∧ Z.of_nat (length kept) = Z.min (buf_size - 1) (Z.of_nat (length out)) ∧
    vsnprintf buffer buf_size fmt args m = Ok (Z.of_nat (length out), write m buffer (kept ++ [0])).
Proof.
  intros Hn Hm Hp Hlen. exists (kept buf_size out).
  split_and!; [apply prefix_take|by apply length_kept|by apply vsnprintf_console].
Qed.

Lemma vsnprintf_truncates_witness :
  vsnprintf 100 4 (chars "%d%%") [123] (write ∅ 100 [9; 9; 9; 9]) =
    Ok (4, write (write ∅ 100 [9; 9; 9; 9]) 100 ([49; 50; 51] ++ [0])).
Proof.
  destruct (vsnprintf_truncates (write ∅ 100 [9; 9; 9; 9]) 100 4 (chars "%d%%") [123] [49; 50; 51; 37])
    as (kept & [rest Hpre] & Hlen & E).
  - lia.
  - intros x Hx. rewrite lookup_write. rewrite decide_True by (simpl; lia). apply lookup_lt_is_Some. simpl. lia.
  - vm_compute. reflexivity.
  - vm_compute. reflexivity.
  - rewrite E. destruct kept as [|a [|b [|c [|d kept]]]]; simpl in Hlen; try lia. injection Hpre as <- <- <- _.
    reflexivity.
Defined.

(** C39: what snprintf writes for "%d" is what atoi reads: for every int, printing
    it into a buffer of 12 to 2^31 bytes and converting the result back gives
    the same number. *)
Theorem snprintf_atoi m buffer buf_size x :
  0 < buffer → 12 ≤ buf_size ≤ 2 ^ 31 → mapped m buffer buf_size → - 2 ^ 31 ≤ x < 2 ^ 31 →
  ∃ n m', snprintf buffer buf_size (chars "%d") [u32 x] m = Ok (n, m') ∧ atoi buffer m' = Ok (x, m').
Proof.
  intros Hb Hn Hm Hx.
  destruct (printf_decimal (outside m buffer buf_size) x Hx) as (s & (ds & -> & Hd & Hne & Hv & Hlen) & Hp).
  set (out := (if x <? 0 then [45] else []) ++ ds) in *.
  unfold snprintf. rewrite (vsnprintf_console m buffer buf_size ltac:(lia) Hm _ _ out Hp) by lia.
  assert (kept buf_size out = out) as -> by (apply take_ge; lia).
  eexists _, _. split; [done|]. apply wp_det_ok.
  assert (Hchars : Forall is_char out).
  { unfold out. apply Forall_app. split; [destruct (x <? 0); repeat constructor; lia|].
    eapply Forall_impl; [exact Hd|]. cbn. unfold isdigit, is_char. intros c [H1%Z.leb_le H2%Z.leb_le]%andb_true_iff. lia. }
  eapply (wp_atoi _ _ [] (if x <? 0 then [45] else []) (x <? 0) ds []).
  - rewrite app_nil_r. simpl. by apply cstr_write.
  - done.
  - constructor.
  - unfold signs. destruct (x <? 0); set_solver.
  - done.
  - done.
  - by intros c.
  - split; [|done]. rewrite Hv.
    destruct (Z.ltb_spec x 0); rewrite s32_small; lia.
Qed.

Lemma snprintf_atoi_witness :
  ∃ n m', snprintf 100 12 (chars "%d") [u32 (-2147483648)] (write ∅ 100 (replicate 12 0)) = Ok (n, m') ∧
    atoi 100 m' = Ok (-2147483648, m').
Proof.
  apply snprintf_atoi.
  - lia.
  - lia.
  - intros x Hx. rewrite lookup_write. rewrite decide_True by (simpl; lia). apply lookup_lt_is_Some. simpl. lia.
  - vm_compute. split; [discriminate|reflexivity].
Defined.

(** [max_length] is an int: for a buffer of more than 2^31 bytes it is negative,
    and only the terminator is written. *)
Lemma large_buffer_stays_empty :
  snprintf 100 (2 ^ 31 + 1) (chars "%d") [42] (write ∅ 100 [9; 9; 9]) =
    Ok (2, write (write ∅ 100 [9; 9; 9]) 100 [0]).
Proof. vm_compute. reflexivity. Qed.

(** A negative [*] width sets the '-' flag after '0' was checked against it: the
    number is padded with zeros on the left and with spaces on the right. *)
Lemma negative_width_pads_twice :
  printf (chars "%0*d") [u32 (-5); 42] (∅, []) = Ok (tt, (∅, reverse (chars "00042   "))).
Proof. vm_compute. reflexivity. Qed.

(** A format that ends in a lone percent sign runs past its terminator. *)
Lemma lone_percent_runs_on : printf (chars "100%") [] (∅, []) = Err EFault.
Proof. vm_compute. reflexivity. Qed.
