(* ===== verification/Ustar.v ===== *)
(** * lib/ustar.c: headers of tar archives

    A header is the list of its 512 bytes, a file name the list of its
    characters.  The functions of string.c that ustar.c calls on them
    (strlcpy, memcmp, strchr, strcmp) are written out on lists; what snprintf
    prints is taken from CStdio.v. *)
From stdpp Require Import strings.
From S2P Require Import Prelude Mem CString CStdlib CStdio.
Local Open Scope Z_scope.

Definition USTAR_HEADER_SIZE : Z := 512.
Definition USTAR_REGULAR : Z := 48.
Definition USTAR_DIRECTORY : Z := 53.
Definition USTAR_EOF : Z := -1.

(** The members of [struct ustar_header]: offset and size. *)
Record member := Member { m_ofs : nat; m_size : nat }.
Definition h_name := Member 0 100.
Definition h_mode := Member 100 8.
Definition h_uid := Member 108 8.
Definition h_gid := Member 116 8.
Definition h_size := Member 124 12.
Definition h_mtime := Member 136 12.
Definition h_chksum := Member 148 8.
Definition h_typeflag := Member 156 1.
Definition h_magic := Member 257 6.
Definition h_version := Member 263 2.
Definition h_uname := Member 265 32.
Definition h_gname := Member 297 32.
Definition h_prefix := Member 345 155.

Definition field (m : member) (h : list Z) : list Z := take (m_size m) (drop (m_ofs m) h).
(** Bytes stored at the start of a member. *)
Definition put (m : member) (bs : list Z) (h : list Z) : list Z :=
  take (m_ofs m) h ++ bs ++ drop (m_ofs m + length bs) h.
(** [strlcpy (h->m, s, sizeof h->m)]. *)
Definition put_string (m : member) (s : list Z) (h : list Z) : list Z := put m (take (m_size m - 1) s ++ [0]) h.
(** [snprintf (h->m, sizeof h->m, fmt, v)]. *)
Definition put_number (m : member) (fmt : list Z) (v : Z) (h : list Z) : M unit (list Z) :=
  match printf fmt [u32 v] (∅, []) with
  | Ok (_, (_, out)) => mret (put_string m (reverse out) h)
  | Err e => throw e
  end.

(** The loop of [calculate_chksum], from byte [i] on. *)
Fixpoint sum_from (i : Z) (header : list Z) (chksum : Z) : Z :=
  match header with
  | [] => chksum
  | b :: header =>
      let in_chksum_field := (148 <=? i) && (i <? 156) in
      sum_from (i + 1) header (u32 (chksum + if in_chksum_field then 32 else b))
  end.
Definition calculate_chksum (h : list Z) : Z := sum_from 0 h 0.

(** *** File names *)
Definition starts (prefix s : list Z) : bool := bool_decide (take (length prefix) s = prefix).
(** [strchr (s, '/') + 1]. *)
Fixpoint after_slash (s : list Z) : option (list Z) :=
  match s with [] => None | c :: s => if c =? 47 then Some s else after_slash s end.

Definition antisocial (s : list Z) : bool :=
  starts (chars "/") s || starts (chars "./") s || starts (chars "../") s.
(** What is left of a name gets shorter with every turn. *)
Definition strip_antisocial_prefixes (file_name : list Z) : M unit (list Z) :=
  file_name ← loop (S (length file_name)) (λ file_name,
    if antisocial file_name then s ← the (after_slash file_name); mret (inl s)
    else mret (inr file_name)) file_name;
  mret (if bool_decide (file_name = []) || bool_decide (file_name = chars "..") then chars "." else file_name).

(** *** Making a header *)
Definition ustar_make_header (file_name : list Z) (type size : Z) : M unit (option (list Z)) :=
  ASSERT ((type =? USTAR_REGULAR) || (type =? USTAR_DIRECTORY)) ;;
  file_name ← strip_antisocial_prefixes file_name;
  if 99 <? Z.of_nat (length file_name) then mret None
  else
    let h := replicate 512 0 in
    let h := put_string h_name file_name h in
    h ← put_number h_mode (chars "%07o") (if type =? USTAR_REGULAR then 420 else 493) h;
    let h := put_string h_uid (chars "0000000") h in
    let h := put_string h_gid (chars "0000000") h in
    h ← put_number h_size (chars "%011o") size h;
    h ← put_number h_mtime (chars "%011o") 1136102400 h;
    let h := put h_typeflag [type] h in
    let h := put_string h_magic (chars "ustar") h in
    let h := put h_version [48; 48] h in
    let h := put_string h_gname (chars "root") h in
    let h := put_string h_uname (chars "root") h in
    h ← put_number h_chksum (chars "%07o") (calculate_chksum h) h;
    mret (Some h).

(** *** Parsing a header *)
Definition ULONG_MAX : Z := 2 ^ 32 - 1.
Definition INT_MAX : Z := 2 ^ 31 - 1.
(** The loop of [parse_octal_field], at offset [ofs]. *)
Fixpoint parse_octal_from (ofs : Z) (s : list Z) (value : Z) : option Z :=
  match s with
  | [] => None
  | c :: s =>
      if (48 <=? c) && (c <=? 55) then
        if ULONG_MAX `div` 8 <? value then None else parse_octal_from (ofs + 1) s (c - 48 + value * 8)
      else if (c =? 32) || (c =? 0) then if 0 <? ofs then Some value else None
      else None
  end.
Definition parse_octal_field (s : list Z) : option Z := parse_octal_from 0 s 0.

Definition is_all_zeros (block : list Z) : bool := forallb (Z.eqb 0) block.

(** The characters before the terminator. *)
Fixpoint string_at (bs : list Z) : list Z :=
  match bs with [] => [] | c :: bs => if c =? 0 then [] else c :: string_at bs end.

(** The error message, or name (a null pointer at the end of the archive), type
    and size. *)
Definition ustar_parse_header (header : list Z) : M unit (list Z + option (list Z) * Z * Z) :=
  if is_all_zeros header then mret (inr (None, USTAR_EOF, 0))
  else if negb (bool_decide (field h_magic header = chars "ustar" ++ [0])) then mret (inl (chars "not a ustar archive"))
  else if negb (bool_decide (field h_version header = [48; 48])) then mret (inl (chars "invalid ustar version"))
  else
    match parse_octal_field (field h_chksum header) with
    | None => mret (inl (chars "corrupt chksum field"))
    | Some chksum =>
        if negb (chksum =? calculate_chksum header) then mret (inl (chars "checksum mismatch"))
        else if negb (default 0 (field h_name header !! 99%nat) =? 0)
                || negb (default 0 (field h_prefix header !! 0%nat) =? 0) then mret (inl (chars "file name too long"))
        else
          let typeflag := default 0 (field h_typeflag header !! 0%nat) in
          if negb (typeflag =? USTAR_REGULAR) && negb (typeflag =? USTAR_DIRECTORY)
          then mret (inl (chars "unimplemented file type"))
          else
            let size :=
              if typeflag =? USTAR_REGULAR then
                match parse_octal_field (field h_size header) with
                | None => inl (chars "corrupt file size field")
                | Some size => if INT_MAX <? size then inl (chars "file too large") else inr size
                end
              else inr 0 in
            match size with
            | inl msg => mret (inl msg)
            | inr size =>
                name ← strip_antisocial_prefixes (string_at (field h_name header));
                mret (inr (Some name, typeflag, size))
            end
    end.
