(* ===== verification/UstarProps.v ===== *)
(** * Properties of lib/ustar.c *)
From stdpp Require Import strings.
From S2P Require Import Prelude Mem CString CStdlib CStdlibFacts CStdio CStdioFacts Ustar.
Local Open Scope Z_scope.

(** ** Octal numbers *)
Definition octal (c : Z) : Prop := 48 ≤ c ≤ 55.
Definition oct_value (ds : list Z) : Z := fold_left (λ v c, v * 8 + (c - 48)) ds 0.

Lemma oct_value_snoc ds c : oct_value (ds ++ [c]) = oct_value ds * 8 + (c - 48).
Proof. unfold oct_value. by rewrite fold_left_app. Qed.
Lemma oct_value_zeros n ds : oct_value (replicate n 48 ++ ds) = oct_value ds.
Proof. unfold oct_value. rewrite fold_left_app. f_equal. induction n; [done|]. simpl. done. Qed.

Lemma digit_loop_octal fuel k v cnt :
  0 ≤ v < 8 ^ Z.of_nat k → (k < fuel)%nat →
  ∃ ds, digit_loop fuel base_o ZERO v cnt = Some ds ∧ Forall octal ds ∧ oct_value (reverse ds) = v ∧
    (length ds ≤ k)%nat.
Proof.
  revert k v cnt. induction fuel as [|fuel IH]; intros k v cnt Hv Hk; [lia|]. cbn [digit_loop].
  destruct (Z.ltb_spec 0 v) as [Hpos|Hz].
  2:{ exists []. split_and!; [done|constructor| |simpl; lia]. unfold oct_value. simpl. lia. }
  destruct k as [|k]; [simpl in Hv; lia|]. rewrite Nat2Z.inj_succ, Z.pow_succ_r in Hv by lia.
  pose proof (Z.div_mod v 8). pose proof (Z.mod_pos_bound v 8).
  destruct (IH k (v `div` 8) (cnt + 1)) as (ds & E & Hd & Hval & Hlen); [|lia|].
  { split; [apply Z.div_pos; lia|]. apply Z.div_lt_upper_bound; lia. }
  cbn [base base_o]. rewrite E. cbn [mbind option_bind]. change (has ZERO GROUP) with false. cbn [andb app].
  assert (Hdig : nth (Z.to_nat (v `mod` 8)) (digits base_o) 0 = 48 + v `mod` 8).
  { assert (Hall : ∀ j, (j < 8)%nat → nth j (digits base_o) 0 = 48 + Z.of_nat j)
      by (intros j Hj; do 8 (destruct j as [|j]; [reflexivity|]); lia).
    rewrite Hall by lia. lia. }
  rewrite Hdig. eexists. split; [done|]. split_and!.
  - constructor; [unfold octal; lia|done].
  - rewrite reverse_cons, oct_value_snoc, Hval. lia.
  - simpl. lia.
Qed.

(** The padded number is in the output, and nothing else. *)
Definition octal_of (w : nat) (v : Z) (s : list Z) : Prop := Forall octal s ∧ length s = w ∧ oct_value s = v.

Lemma for_upto_putchar n m out : for_upto n (λ _, putchar 48) (m, out) = Ok (tt, (m, replicate n 48 ++ out)).
Proof.
  revert out. induction n as [|n IH]; intros out; [done|]. cbn [for_upto]. unfold mbind, M_bind. rewrite IH. done.
Qed.

Lemma wp_format_octal v (w : nat) m (Q : unit → console → Prop) :
  0 ≤ v < 8 ^ Z.of_nat w → (0 < w ≤ 60)%nat →
  (∀ s, octal_of w v s → Q tt (m, reverse s)) →
  wp (format_integer putchar v false false base_o (Conv ZERO (Z.of_nat w) (-1) INT)) (m, []) Q.
Proof.
  intros Hv Hw HQ. destruct (digit_loop_octal 65 w v 0) as (ds & E & Hd & Hval & Hlen); [done|lia|].
  set (ds' := ds ++ replicate (1 - length ds) 48).
  assert (integer_buf v base_o (Conv ZERO (Z.of_nat w) (-1) INT) = Some ds') as Eb.
  { unfold integer_buf. cbn [flags precision]. rewrite E. cbn [mbind option_bind].
    change (-1 <? 0) with true. change (has ZERO POUND) with false. cbn [andb]. change (Z.to_nat (Z.min 1 63)) with 1%nat.
    rewrite (proj2 (Z.leb_le _ _)); [done|]. rewrite length_app, length_replicate. lia. }
  assert (Forall octal ds' ∧ oct_value (reverse ds') = v ∧ (length ds' ≤ w)%nat) as (Hd' & Hval' & Hlen').
  { unfold ds'. split_and!.
    - apply Forall_app. split; [done|]. apply Forall_replicate. unfold octal. lia.
    - rewrite reverse_app. rewrite reverse_replicate. by rewrite oct_value_zeros.
    - rewrite length_app, length_replicate. lia. }
  unfold format_integer. cbn [flags width]. change (has ZERO POUND) with false. change (has ZERO ZERO) with true.
  change (has ZERO MINUS) with false. change (has ZERO (Z.lor MINUS ZERO)) with true. cbn [andb negb].
  change (0 =? 0) with true. cbn [negb]. wp_step. apply (wp_the _ ds'); [done|].
  assert ((if Z.of_nat w - Z.of_nat (length ds') - 0 - 0 <? 0 then 0 else Z.of_nat w - Z.of_nat (length ds') - 0 - 0) =
    Z.of_nat (w - length ds')) as -> by (destruct (Z.ltb_spec (Z.of_nat w - Z.of_nat (length ds') - 0 - 0) 0); lia).
  wp_steps. unfold output_dup. rewrite Nat2Z.id. unfold wp at 1. rewrite for_upto_putchar. wp_step. apply wp_emit. wp_steps.
  replace (reverse (reverse ds') ++ replicate (w - length ds') 48 ++ []) with (reverse (replicate (w - length ds') 48 ++ reverse ds'))
    by (by rewrite reverse_app, reverse_replicate, app_nil_r).
  apply HQ. split_and!.
  - apply Forall_app. split; [apply Forall_replicate; unfold octal; lia|by apply Forall_reverse].
  - rewrite length_app, length_replicate, length_reverse. lia.
  - by rewrite oct_value_zeros.
Qed.

Lemma printf_octal v m fmt (w : nat) :
  0 ≤ v < 2 ^ 32 → v < 8 ^ Z.of_nat w →
  (fmt = chars "%07o" ∧ w = 7%nat) ∨ (fmt = chars "%011o" ∧ w = 11%nat) →
  ∃ s, octal_of w v s ∧ printf fmt [v] (m, []) = Ok (tt, (m, reverse s)).
Proof.
  intros Hv Hw Hfmt.
  assert (Hpc : ∃ rest, fmt = 37 :: rest ∧ (cur rest =? 37) = false ∧
    parse_conversion rest [v] = Some ([111], Conv ZERO (Z.of_nat w) (-1) INT, [v])).
  { destruct Hfmt as [[-> ->]|[-> ->]]; eexists; (split; [reflexivity|]); split; reflexivity. }
  destruct Hpc as (rest & -> & Hcur & Hpc).
  enough (wp (printf (37 :: rest) [v]) (m, []) (λ _ st, ∃ s, octal_of w v s ∧ st = (m, reverse s))) as Hwp.
  { apply wp_ok in Hwp as ([] & st & Hr & s & Hs & ->). by exists s. }
  unfold printf, vprintf. change (32 + length (37%Z :: rest))%nat with (S (32 + length rest)).
  destruct rest as [|c0 rest0] eqn:Er; [by destruct Hfmt as [[H ?]|[H ?]]|].
  change (32 + length (c0 :: rest0))%nat with (S (32 + length rest0)). generalize (32 + length rest0)%nat as fuel. intros fuel.
  cbn [__vprintf]. change (negb (37 =? 37)) with false. rewrite Hcur. cbn iota. rewrite Hpc.
  wp_step. eapply wp_the; [done|]. cbn iota. unfold convert. cbn [type].
  change (cur [111] =? 100) with false. change (cur [111] =? 105) with false. change (cur [111] =? 111) with true. cbn [orb].
  wp_step. wp_step. eapply (wp_the _ (v, [])).
  { unfold unsigned_arg, va_int. cbn. f_equal. f_equal. unfold u32, s32, sext.
    rewrite Zminus_mod_idemp_l, Z.add_simpl_r. by apply Z.mod_small. }
  cbn iota. wp_step. apply (wp_format_octal _ w); [lia|destruct Hfmt as [[_ ->]|[_ ->]]; lia|].
  intros s Hs. wp_steps. by exists s.
Qed.

Lemma fold_octal_le ds v : Forall octal ds → 0 ≤ v → v ≤ fold_left (λ v c, v * 8 + (c - 48)) ds v.
Proof.
  intros H. revert v. induction H as [|d ds Hd _ IH]; intros v Hv; simpl; [lia|].
  unfold octal in Hd. specialize (IH (v * 8 + (d - 48)) ltac:(lia)). lia.
Qed.

Lemma parse_octal_from_spec ds rest ofs v :
  Forall octal ds → 0 ≤ v → fold_left (λ v c, v * 8 + (c - 48)) ds v < 2 ^ 32 → 0 < ofs + Z.of_nat (length ds) →
  parse_octal_from ofs (ds ++ 0 :: rest) v = Some (fold_left (λ v c, v * 8 + (c - 48)) ds v).
Proof.
  intros H. revert ofs v. induction H as [|d ds Hd Hds IH]; intros ofs v Hv Hlt Hofs; simpl in *.
  - by rewrite (proj2 (Z.ltb_lt 0 ofs)) by lia.
  - unfold octal in Hd. pose proof (fold_octal_le ds (v * 8 + (d - 48)) Hds ltac:(lia)).
    rewrite (proj2 (Z.leb_le 48 d)), (proj2 (Z.leb_le d 55)) by lia. cbn [andb].
    assert (v ≤ ULONG_MAX `div` 8) as Hmax by (apply Z.div_le_lower_bound; unfold ULONG_MAX; lia).
    rewrite (proj2 (Z.ltb_ge _ _)) by done. replace (d - 48 + v * 8) with (v * 8 + (d - 48)) by lia.
    apply IH; [lia|done|lia].
Qed.

Lemma parse_octal_of w v s rest : octal_of w v s → (0 < w)%nat → v < 2 ^ 32 → parse_octal_field (s ++ 0 :: rest) = Some v.
Proof.
  intros (Hs & Hl & <-) Hw Hv. apply (parse_octal_from_spec s rest 0 0); [done|lia|done|lia].
Qed.

(** ** Names *)
Definition social (s : list Z) : Prop := antisocial s = false ∧ s ≠ [] ∧ s ≠ chars "..".

Lemma after_slash_spec s : antisocial s = true → ∃ r, after_slash s = Some r ∧ r `suffix_of` s ∧ (length r < length s)%nat.
Proof.
  intros Ha.
  assert (∃ r, after_slash s = Some r) as [r Hr].
  { unfold antisocial, starts in Ha. rewrite !orb_true_iff, !bool_decide_eq_true in Ha.
    change (chars "/") with [47] in Ha. change (chars "./") with [46; 47] in Ha. change (chars "../") with [46; 46; 47] in Ha.
    destruct s as [|c0 [|c1 [|c2 s]]]; simpl in Ha; destruct Ha as [[Ha|Ha]|Ha]; simplify_eq; eexists; reflexivity. }
  exists r. split; [done|]. clear Ha. induction s as [|c s IH]; simpl in *; [done|].
  destruct (c =? 47); simplify_eq.
  - split; [by exists [c]|lia].
  - destruct (IH Hr) as [H1 H2]. split; [by apply suffix_cons_r|lia].
Qed.

Lemma wp_strip s (Q : list Z → unit → Prop) :
  (∀ r, social r → (r = chars "." ∨ r `suffix_of` s) → (social s → r = s) → Q r tt) →
  wp (strip_antisocial_prefixes s) tt Q.
Proof.
  intros HQ. unfold strip_antisocial_prefixes. wp_step.
  apply (wp_loop (λ (g : nat) s' _, s' `suffix_of` s ∧ g = length s' ∧ (antisocial s = false → s' = s)) (λ g, g)) with (g := length s); [|done|lia].
  intros g s' [] (Hs & -> & Hid). destruct (antisocial s') eqn:Ea.
  - destruct (after_slash_spec s' Ea) as (r & Hr & Hsuf & Hlt). wp_step. eapply wp_the; [done|]. wp_steps.
    exists (length r). split; [|done]. split_and!; [by trans s'|done|]. intros Hns. rewrite Hid in Ea by done. congruence.
  - wp_steps. destruct (decide (s' = [] ∨ s' = chars "..")) as [Hd|Hd].
    + replace (bool_decide (s' = []) || bool_decide (s' = chars "..")) with true
        by (symmetry; rewrite orb_true_iff, !bool_decide_eq_true; done).
      apply HQ; [done|by left|]. intros (Ha & Hn1 & Hn2). rewrite Hid in Hd by done. by destruct Hd.
    + replace (bool_decide (s' = []) || bool_decide (s' = chars "..")) with false
        by (symmetry; rewrite orb_false_iff, !bool_decide_eq_false; tauto).
      apply HQ; [|by right|].
      * split_and!; [done|tauto|tauto].
      * intros (Ha & _). by apply Hid.
Qed.

(** ** Members of a header *)
Section members.
Implicit Types (h bs : list Z) (m : member).

Lemma length_put m bs h : (m_ofs m + length bs ≤ length h)%nat → length (put m bs h) = length h.
Proof. intros H. unfold put. rewrite !length_app, length_take, length_drop. lia. Qed.

Lemma lookup_put m bs h k :
  (m_ofs m + length bs ≤ length h)%nat →
  put m bs h !! k = if decide (m_ofs m ≤ k < m_ofs m + length bs)%nat then bs !! (k - m_ofs m)%nat else h !! k.
Proof.
  intros H. unfold put. destruct (decide (k < m_ofs m)%nat).
  - rewrite lookup_app_l by (rewrite length_take; lia). rewrite lookup_take_lt by lia. by rewrite decide_False by lia.
  - rewrite lookup_app_r by (rewrite length_take; lia). rewrite length_take, Nat.min_l by lia. case_decide.
    + by rewrite lookup_app_l by lia.
    + rewrite lookup_app_r by lia. rewrite lookup_drop. f_equal. lia.
Qed.

Lemma field_put_ne m m' bs h :
  (m_ofs m + m_size m ≤ m_ofs m' ∨ m_ofs m' + length bs ≤ m_ofs m)%nat → (m_ofs m' + length bs ≤ length h)%nat →
  field m (put m' bs h) = field m h.
Proof.
  intros Hd Hl. apply list_eq. intros k. unfold field. destruct (decide (k < m_size m)%nat).
  - rewrite !lookup_take_lt, !lookup_drop, lookup_put by done. by rewrite decide_False by lia.
  - by rewrite !lookup_take_ge by lia.
Qed.

Lemma field_put_eq m bs h :
  (length bs ≤ m_size m)%nat → (m_ofs m + m_size m ≤ length h)%nat →
  field m (put m bs h) = bs ++ drop (length bs) (field m h).
Proof.
  intros Hb Hl. apply list_eq. intros k. unfold field. destruct (decide (k < m_size m)%nat).
  - rewrite lookup_take_lt, lookup_drop, lookup_put by lia. destruct (decide (k < length bs)%nat).
    + rewrite decide_True, lookup_app_l by lia. f_equal. lia.
    + rewrite decide_False, lookup_app_r, lookup_drop by lia.
      rewrite lookup_take_lt, lookup_drop by lia. f_equal. lia.
  - rewrite lookup_take_ge, lookup_app_r by lia. rewrite lookup_drop, lookup_take_ge by lia. done.
Qed.

Lemma put_bytes m bs h : Forall is_byte h → Forall is_byte bs → Forall is_byte (put m bs h).
Proof. intros Hh Hb. unfold put. rewrite !Forall_app. split_and!; [by apply Forall_take|done|by apply Forall_drop]. Qed.
End members.

(** ** The checksum *)
Definition counted (i : nat) (b : Z) : Z := if decide (148 ≤ i < 156)%nat then 32 else b.
Definition total (l : list Z) : Z := foldr Z.add 0 l.

Lemma sum_from_total h (i : nat) c :
  Forall is_byte h → 0 ≤ c → c + 256 * Z.of_nat (length h) < 2 ^ 32 →
  sum_from (Z.of_nat i) h c = c + total (imap (λ j, counted (i + j)) h).
Proof.
  intros H. revert i c. induction H as [|b h Hb _ IH]; intros i c Hc Hlt; cbn [sum_from]; [simpl; lia|].
  unfold is_byte in Hb. cbn [length] in Hlt.
  assert ((148 <=? Z.of_nat i) && (Z.of_nat i <? 156) = bool_decide (148 ≤ i < 156)%nat) as ->.
  { case_bool_decide as E.
    - apply andb_true_iff. split; [apply Z.leb_le|apply Z.ltb_lt]; lia.
    - apply andb_false_iff. destruct (decide (148 ≤ i)%nat); [right; apply Z.ltb_ge|left; apply Z.leb_gt]; lia. }
  replace (Z.of_nat i + 1) with (Z.of_nat (S i)) by lia. rewrite imap_cons. cbn [total foldr].
  assert ((if bool_decide (148 ≤ i < 156)%nat then 32 else b) = counted (i + 0) b) as ->
    by (unfold counted; case_bool_decide; [rewrite decide_True by lia|rewrite decide_False by lia]; done).
  assert (0 ≤ counted (i + 0) b < 256) as Hcb by (unfold counted; case_decide; lia).
  rewrite u32_small by lia. rewrite IH by lia.
  replace (imap (λ j, counted (S i + j)) h) with (imap ((λ j, counted (i + j)) ∘ S) h)
    by (apply imap_ext; intros j x _; simpl; f_equal; lia).
  unfold total. lia.
Qed.

Lemma chksum_total h : Forall is_byte h → length h = 512%nat → calculate_chksum h = total (imap counted h).
Proof.
  intros Hb Hl. unfold calculate_chksum. change 0 with (Z.of_nat 0) at 1. rewrite (sum_from_total h 0 0) by (done || lia).
  apply Z.add_0_l.
Qed.

(** Replacing the checksum itself does not change it. *)
Lemma chksum_put bs h :
  Forall is_byte h → length h = 512%nat → Forall is_byte bs → (length bs ≤ 8)%nat →
  calculate_chksum (put h_chksum bs h) = calculate_chksum h.
Proof.
  intros Hh Hl Hb Hbl. rewrite !chksum_total; [|done|done|by apply put_bytes|rewrite length_put; simpl; lia].
  f_equal. apply list_eq. intros k. rewrite !list_lookup_imap, lookup_put by (simpl; lia).
  case_decide as Hk; [|done]. simpl in Hk.
  destruct (lookup_lt_is_Some_2 bs (k - m_ofs h_chksum)) as [x ->]; [simpl; lia|].
  destruct (lookup_lt_is_Some_2 h k) as [y ->]; [lia|]. simpl. unfold counted. by rewrite !decide_True by lia.
Qed.

Lemma chksum_small h : Forall is_byte h → length h = 512%nat → 0 ≤ calculate_chksum h < 8 ^ 7.
Proof.
  intros Hh Hl. rewrite chksum_total by done.
  assert (Hs : ∀ l, Forall is_byte l → 0 ≤ total l ≤ 256 * Z.of_nat (length l)).
  { induction 1 as [|x l Hx _ IH]; [simpl; lia|]. unfold is_byte in Hx. cbn [total foldr length] in *. unfold total in IH. lia. }
  assert (Forall is_byte (imap counted h)) as Hf.
  { apply Forall_lookup. intros k x Hx. rewrite list_lookup_imap in Hx.
    destruct (h !! k) as [y|] eqn:Hy; [|done]. simpl in Hx. injection Hx as <-.
    pose proof (Forall_lookup_1 _ _ _ _ Hh Hy) as Hyb. unfold counted. case_decide; [unfold is_byte; lia|done]. }
  specialize (Hs _ Hf). rewrite length_imap, Hl in Hs. simpl in *. lia.
Qed.

(** Changing one byte elsewhere does. *)
Lemma chksum_insert h k b b' :
  Forall is_byte h → length h = 512%nat → is_byte b' → h !! k = Some b → b' ≠ b → ¬ (148 ≤ k < 156)%nat →
  calculate_chksum (<[k := b']> h) ≠ calculate_chksum h.
Proof.
  intros Hh Hl Hb' Hk Hne Hout. rewrite !chksum_total; [|done|done|by apply Forall_insert|by rewrite length_insert].
  assert (Ht : ∀ (l : list Z) j x y, l !! j = Some x → total (<[j := y]> l) = total l - x + y).
  { induction l as [|z l IH]; intros [|j] x y Hj; simpl in *; simplify_eq; [unfold total; simpl; lia|].
    change (foldr Z.add 0) with total. rewrite (IH _ _ _ Hj). lia. }
  assert (imap counted (<[k := b']> h) = <[k := b']> (imap counted h)) as ->.
  { apply list_eq. intros j. rewrite list_lookup_imap. destruct (decide (j = k)) as [->|Hj].
    - rewrite !list_lookup_insert_eq by (rewrite ?length_imap; by eapply lookup_lt_Some). simpl. unfold counted.
      by rewrite decide_False.
    - by rewrite !list_lookup_insert_ne, list_lookup_imap by done. }
  rewrite (Ht _ _ b); [lia|]. rewrite list_lookup_imap, Hk. simpl. unfold counted. by rewrite decide_False.
Qed.

(** ** The header that is made *)
Record made (name : list Z) (type size : Z) (h : list Z) : Prop := Made {
  md_length : length h = 512%nat;
  md_bytes : Forall is_byte h;
  md_name : field h_name h = name ++ replicate (100 - length name) 0;
  md_size : ∃ s, octal_of 11 size s ∧ field h_size h = s ++ [0];
  md_type : field h_typeflag h = [type];
  md_magic : field h_magic h = chars "ustar" ++ [0];
  md_version : field h_version h = [48; 48];
  md_prefix : field h_prefix h = replicate 155 0;
  md_chksum : ∃ s, octal_of 7 (calculate_chksum h) s ∧ field h_chksum h = s ++ [0] }.

Definition fits (m : member) (bs : list Z) : Prop := (m_ofs m + length bs ≤ 512)%nat.
Definition apart (m m' : member) (bs : list Z) : bool :=
  bool_decide (m_ofs m + m_size m ≤ m_ofs m')%nat || bool_decide (m_ofs m' + m_size m' ≤ m_ofs m)%nat.

Lemma field_put_apart m m' bs h :
  apart m m' bs = true → (length bs ≤ m_size m')%nat → (m_ofs m' + m_size m' ≤ 512)%nat → length h = 512%nat →
  field m (put m' bs h) = field m h.
Proof.
  unfold apart. rewrite orb_true_iff, !bool_decide_eq_true. intros Ha Hb Hm Hl. apply field_put_ne; lia.
Qed.
Lemma length_put_512 m bs h :
  length h = 512%nat → (length bs ≤ m_size m)%nat → (m_ofs m + m_size m ≤ 512)%nat → length (put m bs h) = 512%nat.
Proof. intros. rewrite length_put; lia. Qed.

Lemma wp_put_number m fmt v h (w : nat) (Q : list Z → unit → Prop) :
  m_size m = S w → 0 ≤ v < 2 ^ 32 → v < 8 ^ Z.of_nat w →
  (fmt = chars "%07o" ∧ w = 7%nat) ∨ (fmt = chars "%011o" ∧ w = 11%nat) →
  (∀ s, octal_of w v s → length (s ++ [0]) = m_size m → Forall is_byte (s ++ [0]) → Q (put m (s ++ [0]) h) tt) →
  wp (put_number m fmt v h) tt Q.
Proof.
  intros Hm Hv Hw Hf HQ. destruct (printf_octal v ∅ fmt w Hv Hw Hf) as (s & Hs & Hp).
  unfold put_number. rewrite u32_small, Hp by done. wp_steps. unfold put_string. rewrite reverse_involutive.
  destruct Hs as (Hoct & Hl & Hval). rewrite Hm. rewrite take_ge by lia. apply HQ.
  - done.
  - rewrite length_app, Hl. simpl. lia.
  - apply Forall_app. split; [|by repeat constructor]. eapply Forall_impl; [exact Hoct|]. unfold octal, is_byte. lia.
Qed.

Lemma chars_bytes s : Forall is_byte (chars s).
Proof.
  unfold chars. apply Forall_fmap, Forall_forall. intros a _. unfold is_byte. simpl.
  pose proof (Ascii.N_ascii_bounded a). lia.
Qed.
#[local] Hint Resolve chars_bytes : core.

Section make.
Context (name : list Z) (type size : Z).
Hypothesis Hname : Forall is_char name.
Hypothesis Hlen : (length name ≤ 99)%nat.
Hypothesis Htype : type = USTAR_REGULAR ∨ type = USTAR_DIRECTORY.
Hypothesis Hsize : 0 ≤ size < 2 ^ 31.

(** The header while it is filled in: what has been stored, in the order of the
    code. *)
Definition draft (mode sz mtime : list Z) : list Z :=
  put_string h_uname (chars "root") (put_string h_gname (chars "root") (put h_version [48; 48]
    (put_string h_magic (chars "ustar") (put h_typeflag [type] (put h_mtime mtime (put h_size sz
      (put_string h_gid (chars "0000000") (put_string h_uid (chars "0000000") (put h_mode mode
        (put_string h_name name (replicate 512 0))))))))))).

Lemma string_length m s : (0 < m_size m)%nat → (length (take (m_size m - 1) s ++ [0%Z]) ≤ m_size m)%nat.
Proof. intros Hm. rewrite length_app, length_take. simpl. lia. Qed.

Ltac in_member := first [apply string_length; simpl; lia | simpl; lia].
Ltac hdr_length := repeat (apply length_put_512; [|in_member|simpl; lia]); try apply length_replicate.
Ltac other_member := rewrite field_put_apart; [|reflexivity|in_member|simpl; lia|hdr_length].
Ltac this_member := rewrite field_put_eq; [|in_member|replace (length _) with 512%nat by (symmetry; hdr_length); simpl; lia].

Lemma draft_length mode sz mtime :
  length mode = 8%nat → length sz = 12%nat → length mtime = 12%nat → length (draft mode sz mtime) = 512%nat.
Proof. intros. unfold draft, put_string. hdr_length. Qed.

Lemma draft_bytes mode sz mtime :
  Forall is_byte mode → Forall is_byte sz → Forall is_byte mtime → Forall is_byte (draft mode sz mtime).
Proof.
  intros H1 H2 H3. assert (is_byte type) as Ht by (unfold is_byte, USTAR_REGULAR, USTAR_DIRECTORY in *; lia).
  assert (Forall is_byte name) as Hn by (eapply Forall_impl; [exact Hname|]; unfold is_char, is_byte; simpl; lia).
  assert (Hps : ∀ m s h, Forall is_byte h → Forall is_byte s → Forall is_byte (put_string m s h)).
  { intros m s h Hh Hs. apply put_bytes; [done|]. apply Forall_app. split; [by apply Forall_take|].
    constructor; [unfold is_byte; lia|constructor]. }
  unfold draft. repeat first [apply Hps | apply put_bytes]; auto.
  - apply Forall_replicate. unfold is_byte. lia.
  - repeat constructor; unfold is_byte; lia.
Qed.

Lemma draft_made mode sz mtime chk :
  length mode = 8%nat → length sz = 12%nat → length mtime = 12%nat → length chk = 8%nat →
  Forall is_byte (mode ++ sz ++ mtime ++ chk) →
  (∃ s, octal_of 11 size s ∧ sz = s ++ [0]) →
  (∃ s, octal_of 7 (calculate_chksum (draft mode sz mtime)) s ∧ chk = s ++ [0]) →
  made name type size (put h_chksum chk (draft mode sz mtime)).
Proof.
  intros H1 H2 H3 H4 Hb Hsz Hchk. rewrite !Forall_app in Hb. destruct Hb as (B1 & B2 & B3 & B4).
  pose proof (draft_length mode sz mtime H1 H2 H3) as Hl. pose proof (draft_bytes mode sz mtime B1 B2 B3) as Hb.
  assert (length (put h_chksum chk (draft mode sz mtime)) = 512%nat) as Hl' by (apply length_put_512; [done|simpl; lia..]).
  split.
  - done.
  - by apply put_bytes.
  - rewrite field_put_apart; [|reflexivity|simpl; lia|simpl; lia|done]. unfold draft, put_string.
    do 10 other_member. this_member. change (m_size h_name - 1)%nat with 99%nat. rewrite take_ge by done.
    change (field h_name (replicate 512 0)) with (replicate 100 0). rewrite drop_replicate, <-app_assoc. f_equal.
    rewrite length_app. cbn [length]. replace (100 - length name)%nat with (S (100 - (length name + 1))) by lia. done.
  - destruct Hsz as (s & Hs & Esz). exists s. split; [done|].
    rewrite field_put_apart; [|reflexivity|simpl; lia|simpl; lia|done]. unfold draft, put_string.
    do 6 other_member. this_member. rewrite H2, drop_ge, app_nil_r, Esz; [done|].
    unfold field. rewrite length_take. apply Nat.le_min_l.
  - rewrite field_put_apart; [|reflexivity|simpl; lia|simpl; lia|done]. unfold draft, put_string.
    do 4 other_member. this_member. rewrite drop_ge; [done|]. unfold field. rewrite length_take. apply Nat.le_min_l.
  - rewrite field_put_apart; [|reflexivity|simpl; lia|simpl; lia|done]. unfold draft, put_string.
    do 3 other_member. this_member. rewrite drop_ge; [done|]. unfold field. rewrite length_take. apply Nat.le_min_l.
  - rewrite field_put_apart; [|reflexivity|simpl; lia|simpl; lia|done]. unfold draft, put_string.
    do 2 other_member. this_member. rewrite drop_ge; [done|]. unfold field. rewrite length_take. apply Nat.le_min_l.
  - rewrite field_put_apart; [|reflexivity|simpl; lia|simpl; lia|done]. unfold draft, put_string.
    do 11 other_member. reflexivity.
  - destruct Hchk as (s & Hs & Echk). exists s. rewrite chksum_put by (done || lia). split; [done|].
    rewrite field_put_eq by (simpl; lia). rewrite H4, drop_ge, app_nil_r; [done|]. unfold field. rewrite length_take. apply Nat.le_min_l.
Qed.

Lemma wp_fill_header (Q : option (list Z) → unit → Prop) :
  (∀ h, made name type size h → Q (Some h) tt) →
  wp (h ← put_number h_mode (chars "%07o") (if type =? USTAR_REGULAR then 420 else 493) (put_string h_name name (replicate 512 0));
    let h := put_string h_uid (chars "0000000") h in
    let h := put_string h_gid (chars "0000000") h in
    h ← put_number h_size (chars "%011o") size h;
    h ← put_number h_mtime (chars "%011o") 1136102400 h;
    let h := put h_typeflag [type] h in
    let h := put_string h_magic (chars "ustar") h in
    let h := put h_version [48; 48] h in
    let h := put_string h_gname (chars "root") h in
    let h := put_string h_uname (chars "root") h in
    h ← put_number h_chksum (chars "%07o") (calculate_chksum h) h;
    mret (Some h)) tt Q.
Proof.
  intros HQ. assert (0 ≤ (if type =? USTAR_REGULAR then 420 else 493) < 500) as Hmode by (destruct (type =? _); lia).
  wp_step. apply (wp_put_number _ _ _ _ 7); [done|lia|simpl; lia|by left|]. intros mode Hm Lm Bm. cbn zeta.
  wp_step. apply (wp_put_number _ _ _ _ 11); [done|lia|simpl in *; lia|by right|]. intros sz Hs Ls Bs.
  wp_step. apply (wp_put_number _ _ _ _ 11); [done|lia|simpl; lia|by right|]. intros mt Ht Lt Bt.
  pose proof (chksum_small (draft (mode ++ [0]) (sz ++ [0]) (mt ++ [0]))) as Hc.
  rewrite draft_length in Hc by done. specialize (Hc ltac:(by apply draft_bytes) eq_refl).
  wp_step. change (put_string h_uname _ _) with (draft (mode ++ [0]) (sz ++ [0]) (mt ++ [0])).
  apply (wp_put_number _ _ _ _ 7); [done|simpl in *; lia|simpl in *; lia|by left|]. intros chk Hk Lk Bk. wp_step. apply HQ.
  apply draft_made; [done..| | |]; [|by exists sz|by exists chk]. by rewrite !Forall_app in *.
Qed.
End make.

Lemma string_at_app name rest : Forall is_char name → string_at (name ++ 0 :: rest) = name.
Proof.
  induction 1 as [|c name Hc _ IH]; [done|]. simpl. unfold is_char in Hc. rewrite (proj2 (Z.eqb_neq c 0)) by lia. by rewrite IH.
Qed.

Lemma zeros_false h m bs : field m h = bs → is_all_zeros bs = false → is_all_zeros h = false.
Proof.
  intros <- Hz. unfold is_all_zeros, field in *. rewrite <-(take_drop (m_ofs m) h), forallb_app.
  rewrite <-(take_drop (m_size m) (drop (m_ofs m) h)), forallb_app, Hz. by rewrite andb_false_r.
Qed.

(** Any header with a good checksum. *)
Lemma made_not_zero name type size h : made name type size h → is_all_zeros h = false.
Proof. intros Hm. eapply zeros_false; [exact (md_magic _ _ _ _ Hm)|reflexivity]. Qed.

Lemma wp_parse_made name type size h (Q : list Z + option (list Z) * Z * Z → unit → Prop) :
  made name type size h → Forall is_char name → social name → (length name ≤ 99)%nat →
  type = USTAR_REGULAR ∨ type = USTAR_DIRECTORY → 0 ≤ size < 2 ^ 31 →
  Q (inr (Some name, type, if type =? USTAR_REGULAR then size else 0)) tt →
  wp (ustar_parse_header h) tt Q.
Proof.
  intros Hmade Hn Hsoc Hlen Htype Hsize HQ. pose proof (made_not_zero _ _ _ _ Hmade) as Hnz.
  pose proof (chksum_small h (md_bytes _ _ _ _ Hmade) (md_length _ _ _ _ Hmade)) as Hsmall.
  destruct Hmade as [_ _ Hname (sz & Hsz & Esz) Ety Emag Ever Epre (ck & Hck & Eck)].
  unfold ustar_parse_header. rewrite Hnz, Emag, Ever, Eck, Esz, Ety, Epre.
  rewrite !bool_decide_eq_true_2 by done. cbn [negb].
  rewrite (parse_octal_of 7 _ ck [] Hck) by (simpl in *; lia). rewrite Z.eqb_refl. cbn [negb].
  rewrite Hname. rewrite lookup_app_r, lookup_replicate_2 by lia. cbn [default from_option id].
  change (default 0 (replicate 155 0 !! 0%nat)) with 0. change (0 =? 0) with true. cbn [negb orb].
  change (default 0 ([type] !! 0%nat)) with type.
  assert ((type =? USTAR_REGULAR) || (type =? USTAR_DIRECTORY) = true) as Ht by (destruct Htype as [->| ->]; done).
  replace (negb (type =? USTAR_REGULAR) && negb (type =? USTAR_DIRECTORY)) with false
    by (rewrite <-negb_orb, Ht; done).
  assert (Hstr : string_at (name ++ replicate (100 - length name) 0) = name).
  { replace (100 - length name)%nat with (S (99 - length name)) by lia. by apply string_at_app. }
  rewrite Hstr. destruct (type =? USTAR_REGULAR).
  - rewrite (parse_octal_of 11 _ sz [] Hsz) by lia. unfold INT_MAX. rewrite (proj2 (Z.ltb_ge _ _)) by lia.
    wp_step. apply wp_strip. intros r _ _ Hid. rewrite Hid by done. by wp_steps.
  - wp_step. apply wp_strip. intros r _ _ Hid. rewrite Hid by done. by wp_steps.
Qed.

(** What [ustar_make_header] does. *)
Lemma wp_make file_name type size (Q : option (list Z) → unit → Prop) :
  Forall is_char file_name → type = USTAR_REGULAR ∨ type = USTAR_DIRECTORY → 0 ≤ size < 2 ^ 31 →
  (∀ name, strip_antisocial_prefixes file_name tt = Ok (name, tt) → social name → Forall is_char name →
     ((length name ≤ 99)%nat → ∀ h, made name type size h → Q (Some h) tt) ∧
     ((99 < length name)%nat → Q None tt)) →
  wp (ustar_make_header file_name type size) tt Q.
Proof.
  intros Hn Htype Hsize HQ. unfold ustar_make_header. wp_step. apply wp_assert; [destruct Htype as [->| ->]; done|]. wp_step.
  assert (wp (strip_antisocial_prefixes file_name) tt (λ r _, social r ∧ Forall is_char r)) as Hs.
  { apply wp_strip. intros r Hr Hsuf _. split; [done|]. destruct Hsuf as [->|[pre ->]]; [by repeat constructor|].
    by apply Forall_app in Hn as [_ ?]. }
  apply wp_ok in Hs as (name & [] & Hrun & Hsoc & Hc). unfold wp at 1. rewrite Hrun.
  destruct (HQ name Hrun Hsoc Hc) as [HQ1 HQ2].
  destruct (Z.ltb_spec 99 (Z.of_nat (length name))) as [Hlt|Hge]; [wp_steps; apply HQ2; lia|].
  apply wp_fill_header; [done|lia|done|done|]. intros h Hh. apply HQ1; [lia|done].
Qed.

(** ** Results *)

(** C36: a header that is made is parsed again: the name, without prefixes that
    lead out of the directory, the type and the size of a regular file come back.
    Making a header fails exactly when what is left of the name has more than 99
    characters. *)
Theorem ustar_roundtrip file_name type size :
  Forall is_char file_name → type = USTAR_REGULAR ∨ type = USTAR_DIRECTORY → 0 ≤ size < 2 ^ 31 →
  ∃ name, strip_antisocial_prefixes file_name tt = Ok (name, tt) ∧
    ((99 < length name)%nat → ustar_make_header file_name type size tt = Ok (None, tt)) ∧
    ((length name ≤ 99)%nat → ∃ h, ustar_make_header file_name type size tt = Ok (Some h, tt) ∧ length h = 512%nat ∧
       ustar_parse_header h tt = Ok (inr (Some name, type, if type =? USTAR_REGULAR then size else 0), tt)).
Proof.
  intros Hn Htype Hsize.
  assert (wp (ustar_make_header file_name type size) tt (λ r _, ∃ name, strip_antisocial_prefixes file_name tt = Ok (name, tt) ∧
    social name ∧ Forall is_char name ∧
    ((length name ≤ 99)%nat ∧ (∃ h, r = Some h ∧ made name type size h) ∨ (99 < length name)%nat ∧ r = None))) as Hw.
  { apply wp_make; [done..|]. intros name Hrun Hsoc Hc. split.
    - intros Hle h Hh. exists name. split_and!; [done..|]. left. split; [done|]. by exists h.
    - intros Hlt. exists name. split_and!; [done..|]. by right. }
  apply wp_ok in Hw as (r & [] & Hmk & name & Hrun & Hsoc & Hc & Hcase). exists name. split; [done|].
  destruct Hcase as [[Hle (h & -> & Hh)]|[Hlt ->]]; (split; [|intros ?]); [lia| |done|lia].
  exists h. split_and!; [done|apply Hh|]. apply wp_det_ok. by eapply wp_parse_made.
Qed.

Lemma ustar_roundtrip_witness :
  ∃ h, ustar_make_header (chars "../etc/passwd") USTAR_REGULAR 1000 tt = Ok (Some h, tt) ∧
    ustar_parse_header h tt = Ok (inr (Some (chars "etc/passwd"), USTAR_REGULAR, 1000), tt).
Proof.
  destruct (ustar_roundtrip (chars "../etc/passwd") USTAR_REGULAR 1000) as (name & Hn & _ & Hmk).
  - repeat constructor.
  - left. reflexivity.
  - lia.
  - assert (name = chars "etc/passwd") as -> by (vm_compute in Hn; injection Hn as <-; reflexivity).
    destruct (Hmk ltac:(apply Nat.leb_le; reflexivity)) as (h & H1 & _ & H2). exists h. split; [exact H1|exact H2].
Defined.

(** The checksum protects a header: when one byte of a header that was made
    is changed to another value, anywhere but in the checksum itself, parsing it
    gives an error message. *)
Theorem ustar_detects_change file_name type size h k b :
  Forall is_char file_name → type = USTAR_REGULAR ∨ type = USTAR_DIRECTORY → 0 ≤ size < 2 ^ 31 →
  ustar_make_header file_name type size tt = Ok (Some h, tt) →
  (k < 512)%nat → ¬ (148 ≤ k < 156)%nat → is_byte b → h !! k ≠ Some b →
  ∃ message, ustar_parse_header (<[k := b]> h) tt = Ok (inl message, tt).
Proof.
  intros Hn Htype Hsize Hmk Hk Hout Hb Hne.
  assert (wp (ustar_make_header file_name type size) tt (λ r _, ∀ h, r = Some h → ∃ name, made name type size h)) as Hw.
  { apply wp_make; [done..|]. intros name _ _ _. split; [|done]. intros _ h' Hh' h'' [= <-]. by exists name. }
  unfold wp in Hw. rewrite Hmk in Hw. destruct (Hw h eq_refl) as [name Hmade].
  destruct (lookup_lt_is_Some_2 h k) as [old Hold]; [by rewrite (md_length _ _ _ _ Hmade)|].
  pose proof (chksum_insert h k old b (md_bytes _ _ _ _ Hmade) (md_length _ _ _ _ Hmade) Hb Hold ltac:(congruence) Hout) as Hc.
  pose proof (chksum_small h (md_bytes _ _ _ _ Hmade) (md_length _ _ _ _ Hmade)) as Hsmall.
  destruct (md_chksum _ _ _ _ Hmade) as (ck & Hck & Eck).
  assert (field h_chksum (<[k := b]> h) = ck ++ [0]) as Eck'.
  { rewrite <-Eck. unfold field. apply list_eq. intros j. destruct (decide (j < 8)%nat).
    - rewrite !lookup_take_lt, !lookup_drop by (simpl; lia). rewrite list_lookup_insert_ne; [done|]. simpl. lia.
    - by rewrite !lookup_take_ge by (simpl; lia). }
  unfold ustar_parse_header. rewrite (zeros_false _ h_chksum (ck ++ [0])); [|done|].
  2: { destruct Hck as (Ho & Hl & _). destruct ck as [|c ck]; [done|]. apply Forall_cons in Ho as [Hc0 _]. unfold octal in Hc0.
    unfold is_all_zeros. cbn [app forallb]. by rewrite (proj2 (Z.eqb_neq 0 c)) by lia. }
  destruct (negb (bool_decide (field h_magic _ = _))); [by eexists|].
  destruct (negb (bool_decide (field h_version _ = _))); [by eexists|].
  rewrite Eck', (parse_octal_of 7 _ ck [] Hck) by (simpl in *; lia).
  rewrite (proj2 (Z.eqb_neq _ _)) by congruence. by eexists.
Qed.

Lemma ustar_detects_change_witness :
  ∃ h message, ustar_make_header (chars "a") USTAR_REGULAR 1000 tt = Ok (Some h, tt) ∧
    ustar_parse_header (<[124%nat := 49]> h) tt = Ok (inl message, tt).
Proof.
  destruct (ustar_make_header (chars "a") USTAR_REGULAR 1000 tt) as [[[h|] []]|e] eqn:E;
    [|vm_compute in E; discriminate E|vm_compute in E; discriminate E].
  destruct (ustar_detects_change (chars "a") USTAR_REGULAR 1000 h 124 49) as (message & Hp).
  - repeat constructor.
  - left. reflexivity.
  - lia.
  - exact E.
  - lia.
  - lia.
  - split; [lia|reflexivity].
  - vm_compute in E. injection E as <-. discriminate.
  - exists h, message. split; [reflexivity|exact Hp].
Defined.
