(* ===== verification/Block.v ===== *)
(** * devices/block.c and devices/partition.c: block devices

    The block devices of the machine: the list of all of them in the order of
    their registration (a device is named by its place in it), and the device
    that plays each role.  A device's driver operations are either those of a
    disk, whose medium is a list of sectors, or those of devices/partition.c,
    which pass requests on to the device that holds the partition.  Messages on
    the console are left out; the outcome of [malloc] is an argument. *)
From stdpp Require Import strings.
From S2P Require Import Prelude Mem CString CStdio Bitmap.

Local Open Scope Z_scope.

Definition BLOCK_SECTOR_SIZE : Z := 512.

(** [enum block_type] *)
Definition BLOCK_KERNEL : Z := 0.
Definition BLOCK_FILESYS : Z := 1.
Definition BLOCK_SCRATCH : Z := 2.
Definition BLOCK_SWAP : Z := 3.
Definition BLOCK_ROLE_CNT : Z := 4.
Definition BLOCK_RAW : Z := 4.
Definition BLOCK_FOREIGN : Z := 5.
Definition BLOCK_CNT : Z := 6.

(** [ops] and [aux]: a disk with its medium, or a [struct partition]. *)
Inductive driver :=
| Disk (medium : list (list Z))
| Partition (block : nat) (start : Z).

Record block := Block {
  bname : list Z; btype : Z; bsize : Z; ops : driver; read_cnt : Z; write_cnt : Z }.

Record blocks := Blocks { all_blocks : list block; block_by_role : list (option nat) }.

Definition set_ops (d : driver) (b : block) : block :=
  Block (bname b) (btype b) (bsize b) d (read_cnt b) (write_cnt b).
Definition put_block (i : nat) (b : block) (t : blocks) : blocks :=
  Blocks (<[i := b]> (all_blocks t)) (block_by_role t).
Definition get_block (i : nat) : M blocks block := t ← gets all_blocks; the (t !! i).

Definition block_type_name (type : Z) : M blocks (list Z) :=
  ASSERT (type <? BLOCK_CNT) ;;
  the ([chars "kernel"; chars "filesys"; chars "scratch"; chars "swap"; chars "raw"; chars "foreign"]
       !! Z.to_nat type).

Definition block_get_role (role : Z) : M blocks (option nat) :=
  ASSERT (role <? BLOCK_ROLE_CNT) ;;
  t ← gets block_by_role; the (t !! Z.to_nat role).

Definition block_set_role (role : Z) (block : option nat) : M blocks unit :=
  ASSERT (role <? BLOCK_ROLE_CNT) ;;
  modify (λ t, Blocks (all_blocks t) (<[Z.to_nat role := block]> (block_by_role t))).

(** An element of [all_blocks], or the end of the list. *)
Definition list_elem_to_block (e : nat) : M blocks (option nat) :=
  n ← gets (λ t, length (all_blocks t));
  mret (if decide (e = n) then None else Some e).
Definition block_first : M blocks (option nat) := list_elem_to_block 0.
Definition block_next (block : nat) : M blocks (option nat) := list_elem_to_block (S block).

Definition block_get_by_name (name : list Z) : M blocks (option nat) :=
  t ← gets all_blocks;
  mret (fst <$> list_find (λ b, bname b = name) t).

Definition check_sector (b : block) (sector : Z) : M blocks unit :=
  if sector >=? bsize b then PANIC else mret tt.

(** The 512 bytes at a buffer. *)
Definition sector_buffer (buffer : list Z) : option (list Z) :=
  if BLOCK_SECTOR_SIZE <=? Z.of_nat (length buffer) then Some (take 512 buffer) else None.

Definition partition_read (block_read : nat → Z → M blocks (list Z)) (block : nat) (start sector : Z)
    : M blocks (list Z) :=
  block_read block (u32 (start + sector)).
Definition partition_write (block_write : nat → Z → list Z → M blocks unit) (block : nat) (start sector : Z)
    (buffer : list Z) : M blocks unit :=
  block_write block (u32 (start + sector)) buffer.

(** Requests go down from a partition to the device that holds it; [n] bounds
    how many devices are passed. *)
Fixpoint read_dev (n : nat) (block : nat) (sector : Z) : M blocks (list Z) :=
  match n with
  | O => throw EFuel
  | S n =>
      b ← get_block block;
      check_sector b sector ;;
      buffer ← match ops b with
        | Disk medium => the (medium !! Z.to_nat sector)
        | Partition p start => partition_read (read_dev n) p start sector
        end;
      b ← get_block block;
      modify (put_block block
        (Block (bname b) (btype b) (bsize b) (ops b) (u64 (read_cnt b + 1)) (write_cnt b))) ;;
      mret buffer
  end.

(** [ops->write] of a disk. *)
Definition disk_write (block : nat) (sector : Z) (buffer : list Z) : M blocks unit :=
  b ← get_block block;
  match ops b with
  | Disk medium =>
      the (medium !! Z.to_nat sector) ;;
      data ← the (sector_buffer buffer);
      modify (put_block block (set_ops (Disk (<[Z.to_nat sector := data]> medium)) b))
  | Partition _ _ => throw EFault
  end.

Fixpoint write_dev (n : nat) (block : nat) (sector : Z) (buffer : list Z) : M blocks unit :=
  match n with
  | O => throw EFuel
  | S n =>
      b ← get_block block;
      check_sector b sector ;;
      ASSERT (negb (btype b =? BLOCK_FOREIGN)) ;;
      match ops b with
      | Disk _ => disk_write block sector buffer
      | Partition p start => partition_write (write_dev n) p start sector buffer
      end ;;
      b ← get_block block;
      modify (put_block block
        (Block (bname b) (btype b) (bsize b) (ops b) (read_cnt b) (u64 (write_cnt b + 1))))
  end.

Definition block_read (block : nat) (sector : Z) : M blocks (list Z) := read_dev (S block) block sector.
Definition block_write (block : nat) (sector : Z) (buffer : list Z) : M blocks unit :=
  write_dev (S block) block sector buffer.

Definition block_size (block : nat) : M blocks Z := b ← get_block block; mret (bsize b).
Definition block_name (block : nat) : M blocks (list Z) := b ← get_block block; mret (bname b).
Definition block_type (block : nat) : M blocks Z := b ← get_block block; mret (btype b).

(** [name] is cut off after 15 characters ([strlcpy] into [char name[16]]). *)
Definition block_register (memory : bool) (name : list Z) (type size : Z) (d : driver) : M blocks nat :=
  if negb memory then PANIC
  else
    n ← gets (λ t, length (all_blocks t));
    modify (λ t, Blocks (all_blocks t ++ [Block (take 15 name) type size d 0 0]) (block_by_role t)) ;;
    mret n.

(** ** Partition tables *)

(** [snprintf (name, sizeof name, "%s%d", block_name (block), part_nr)]: what
    the conversion prints, cut off at the buffer's 15 characters. *)
Definition partition_name (name : list Z) (part_nr : Z) : option (list Z) :=
  match printf (chars "%s%d") [256; u32 part_nr] (write ∅ 256 (name ++ [0]), []) with
  | Ok (_, (_, out)) => Some (take 15 (reverse out))
  | Err _ => None
  end.

Definition found_partition (memory : bool) (block : nat) (part_type start size part_nr : Z)
    : M blocks unit :=
  n ← block_size block;
  if start >=? n then mret tt
  else if (u32 (start + size) <? start) || (n <? u32 (start + size)) then mret tt
  else
    let type := if part_type =? 0x20 then BLOCK_KERNEL
                else if part_type =? 0x21 then BLOCK_FILESYS
                else if part_type =? 0x22 then BLOCK_SCRATCH
                else if part_type =? 0x23 then BLOCK_SWAP
                else BLOCK_FOREIGN in
    if negb memory then PANIC
    else
      name ← block_name block;
      name ← the (partition_name name part_nr);
      block_register memory name type size (Partition block start) ;;
      mret tt.

(** An entry of a partition table: 16 bytes, of which [type], [offset] and
    [size] matter here. *)
Record partition_table_entry := PTE { ptype : Z; offset : Z; psize : Z }.
Definition read_entry (pt : list Z) (i : nat) : option partition_table_entry :=
  let e := drop (446 + 16 * i) pt in
  type ← e !! 4%nat;
  offset ← bytes_words (take 4 (drop 8 e)) !! 0%nat;
  size ← bytes_words (take 4 (drop 12 e)) !! 0%nat;
  Some (PTE type offset size).
Definition signature (pt : list Z) : option Z :=
  lo ← pt !! 510%nat; hi ← pt !! 511%nat; Some (lo + 256 * hi).

Definition is_extended (type : Z) : bool :=
  (type =? 0x05) || (type =? 0x0f) || (type =? 0x85) || (type =? 0xc5).

(** Returns the new [*part_nr].  The recursion follows the tables of extended
    partitions. *)
Fixpoint read_partition_table (fuel : nat) (memory : bool) (block : nat)
    (sector primary_extended_sector part_nr : Z) : M blocks Z :=
  match fuel with
  | O => throw EFuel
  | S fuel =>
      n ← block_size block;
      if sector >=? n then mret part_nr
      else if negb memory then PANIC
      else
        pt ← block_read block 0;
        sig ← the (signature pt);
        if negb (sig =? 0xaa55) then mret part_nr
        else
          loop 5 (λ '(i, part_nr),
            if (i <? 4)%nat then
              e ← the (read_entry pt i);
              if (psize e =? 0) || (ptype e =? 0) then mret (inl (S i, part_nr))
              else if is_extended (ptype e) then
                part_nr ←
                  (if sector =? 0
                   then read_partition_table fuel memory block (offset e) (offset e) part_nr
                   else read_partition_table fuel memory block
                          (u32 (offset e + primary_extended_sector)) primary_extended_sector part_nr);
                mret (inl (S i, part_nr))
              else
                let part_nr := s32 (part_nr + 1) in
                found_partition memory block (ptype e) (u32 (offset e + sector)) (psize e) part_nr ;;
                mret (inl (S i, part_nr))
            else mret (inr part_nr)) (O, part_nr)
  end.

Definition partition_scan (fuel : nat) (memory : bool) (block : nat) : M blocks unit :=
  read_partition_table fuel memory block 0 0 0 ;; mret tt.
