(* ===== verification/BlockFacts.v ===== *)
(** * What a block device promises to its clients

    [sector t i k] is what sector [k] of device [i] holds, wherever the medium
    is: the request is followed from partition to partition down to a disk.
    Reading delivers it, writing changes it and no other sector of the device. *)
From S2P Require Import Prelude Block.
Local Open Scope Z_scope.

(** The disk and the sector on it that a request ends at. *)
Fixpoint resolve (n : nat) (t : list block) (i : nat) (k : Z) : option (nat * Z) :=
  match n with
  | O => None
  | S n =>
      b ← t !! i;
      if bool_decide (0 ≤ k < bsize b) then
        match ops b with
        | Disk _ => Some (i, k)
        | Partition p start => resolve n t p (u32 (start + k))
        end
      else None
  end.
Definition medium_at (t : list block) (d : nat) (k : Z) : option (list Z) :=
  b ← t !! d; match ops b with Disk m => m !! Z.to_nat k | Partition _ _ => None end.
Definition sector (t : blocks) (i : nat) (k : Z) : option (list Z) :=
  '(d, j) ← resolve (S i) (all_blocks t) i k; medium_at (all_blocks t) d j.

(** No device on the way down is a foreign partition. *)
Fixpoint writable (n : nat) (t : list block) (i : nat) : Prop :=
  match n with
  | O => False
  | S n =>
      match t !! i with
      | Some b => btype b ≠ BLOCK_FOREIGN ∧ bsize b ≤ 2 ^ 32 ∧
          match ops b with Disk _ => True | Partition p _ => writable n t p end
      | None => False
      end
  end.
Definition device (t : blocks) (i : nat) : Prop := writable (S i) (all_blocks t) i.

(** What a device is, apart from its statistics and, for a disk, its medium. *)
Definition kind (d : driver) : option (nat * Z) :=
  match d with Disk _ => None | Partition p start => Some (p, start) end.
Definition layout (b : block) : list Z * Z * Z * option (nat * Z) :=
  (bname b, btype b, bsize b, kind (ops b)).
Definition same_layout (t t' : list block) : Prop := layout <$> t = layout <$> t'.

Section facts.
Implicit Types (t : list block).

Lemma same_layout_lookup t t' i :
  same_layout t t' → layout <$> t !! i = layout <$> t' !! i.
Proof. intros H. unfold same_layout in H. by rewrite <-!list_lookup_fmap, H. Qed.

Lemma resolve_same n t t' i k : same_layout t t' → resolve n t i k = resolve n t' i k.
Proof.
  intros H. revert i k. induction n as [|n IH]; intros i k; [done|]. cbn [resolve].
  pose proof (same_layout_lookup t t' i H) as Hi.
  destruct (t !! i) as [[nm ty sz d r w]|], (t' !! i) as [[nm' ty' sz' d' r' w']|]; try done.
  simpl in Hi. destruct d as [m|p st], d' as [m'|p' st']; simplify_eq; try done.
  simpl. by rewrite IH.
Qed.

Lemma writable_same n t t' i : same_layout t t' → writable n t i → writable n t' i.
Proof.
  intros H. revert i. induction n as [|n IH]; intros i; [done|]. cbn [writable].
  pose proof (same_layout_lookup t t' i H) as Hi.
  destruct (t !! i) as [[nm ty sz d r w]|], (t' !! i) as [[nm' ty' sz' d' r' w']|]; try done.
  simpl in Hi. destruct d as [m|p st], d' as [m'|p' st']; simplify_eq; simpl; naive_solver.
Qed.

Lemma same_layout_put t i b b' :
  t !! i = Some b → layout b' = layout b → same_layout t (<[i := b']> t).
Proof.
  intros Hi Hb. unfold same_layout. rewrite list_fmap_insert, Hb. symmetry. apply list_insert_id.
  by rewrite list_lookup_fmap, Hi.
Qed.

(** Two sectors of a device never end at the same place. *)
Lemma resolve_inj n t i k k' dj :
  writable n t i → resolve n t i k = Some dj → resolve n t i k' = Some dj → k = k'.
Proof.
  revert i k k'. induction n as [|n IH]; intros i k k'; [done|]. cbn [resolve writable].
  destruct (t !! i) as [b|]; [|done]. simpl. intros (_ & Hsz & Hw).
  case_bool_decide; [|done]. case_bool_decide; [|done].
  destruct (ops b) as [m|p st]; [intros; congruence|].
  intros H1 H2. pose proof (IH _ _ _ Hw H1 H2) as He. unfold u32 in He.
  assert (k `mod` 2 ^ 32 = k' `mod` 2 ^ 32) as Hk.
  { replace k with (st + k - st) by lia. replace k' with (st + k' - st) by lia.
    by rewrite Zminus_mod, He, <-Zminus_mod. }
  rewrite !Z.mod_small in Hk by lia. done.
Qed.


Lemma medium_put t i b b' d k :
  t !! i = Some b → ops b' = ops b → medium_at (<[i := b']> t) d k = medium_at t d k.
Proof.
  intros Hi Hb. unfold medium_at. destruct (decide (d = i)) as [->|].
  - rewrite list_lookup_insert_eq by (by eapply lookup_lt_Some). rewrite Hi. simpl. by rewrite Hb.
  - by rewrite list_lookup_insert_ne.
Qed.

(** Reading: the sector, and only statistics change. *)
Lemma wp_read_dev n i k s d j bs :
  resolve n (all_blocks s) i k = Some (d, j) → medium_at (all_blocks s) d j = Some bs →
  wp (read_dev n i k) s (λ r s', r = bs ∧ same_layout (all_blocks s) (all_blocks s') ∧
    block_by_role s' = block_by_role s ∧
    ∀ d j, medium_at (all_blocks s') d j = medium_at (all_blocks s) d j).
Proof.
  revert i k s. induction n as [|n IH]; intros i k s; [done|]. cbn [resolve].
  destruct (all_blocks s !! i) as [b|] eqn:Hb; [|done]. simpl.
  case_bool_decide as Hk; [|done]. intros Hr Hm. cbn [read_dev].
  wp_step. unfold get_block at 1. wp_steps. eapply wp_the; [exact Hb|].
  wp_step. unfold check_sector.
  assert ((k >=? bsize b) = false) as -> by (rewrite Z.geb_leb; apply Z.leb_gt; lia). wp_steps.
  set (Q := λ r s', r = bs ∧ same_layout (all_blocks s) (all_blocks s') ∧
    block_by_role s' = block_by_role s ∧
    ∀ d j, medium_at (all_blocks s') d j = medium_at (all_blocks s) d j).
  eapply (wp_mono _ _ Q).
  { destruct (ops b) as [m|p st] eqn:Ho.
    - simplify_eq. unfold medium_at in Hm. rewrite Hb in Hm. simpl in Hm. rewrite Ho in Hm.
      eapply wp_the; [exact Hm|]. done.
    - by apply IH. }
  intros r s' (-> & Hl & Hro & Hmed). wp_step. unfold get_block. wp_steps.
  pose proof (same_layout_lookup _ _ i Hl) as Hi. rewrite Hb in Hi.
  destruct (all_blocks s' !! i) as [b'|] eqn:Hb'; [|done].
  eapply wp_the; [done|]. wp_steps. split_and!; [done| |done|].
  - etrans; [exact Hl|]. by apply (same_layout_put _ _ b').
  - intros d' j'. simpl. rewrite (medium_put _ _ b') by done. apply Hmed.
Qed.

Lemma wp_disk_write d j s bs old buffer :
  medium_at (all_blocks s) d j = Some old → sector_buffer buffer = Some bs → 0 ≤ j →
  wp (disk_write d j buffer) s (λ _ s', same_layout (all_blocks s) (all_blocks s') ∧
    block_by_role s' = block_by_role s ∧
    ∀ d' j', 0 ≤ j' → medium_at (all_blocks s') d' j' =
      if decide ((d', j') = (d, j)) then Some bs else medium_at (all_blocks s) d' j').
Proof.
  unfold medium_at at 1. intros Hm Hbs Hj. unfold disk_write.
  destruct (all_blocks s !! d) as [b|] eqn:Hb; [|done]. simpl in Hm.
  wp_step. unfold get_block. wp_steps. eapply wp_the; [exact Hb|].
  destruct (ops b) as [m|] eqn:Ho; [|done].
  wp_step. eapply wp_the; [exact Hm|]. wp_step. eapply wp_the; [exact Hbs|]. wp_steps. simpl.
  assert (d < length (all_blocks s))%nat by by eapply lookup_lt_Some.
  split_and!; [|done|].
  - apply (same_layout_put _ _ b); [done|]. unfold layout, set_ops. simpl. by rewrite Ho.
  - intros d' j' Hj'. unfold medium_at. destruct (decide (d' = d)) as [->|Hd].
    + rewrite list_lookup_insert_eq by done. simpl. rewrite Hb. simpl. rewrite Ho.
      apply lookup_lt_Some in Hm. case_decide as E.
      * simplify_eq. by rewrite list_lookup_insert_eq.
      * rewrite list_lookup_insert_ne; [done|]. intros ?%Z2Nat.inj; [|done..]. congruence.
    + rewrite list_lookup_insert_ne by done. rewrite decide_False; congruence.
Qed.

(** Writing: the place the request ends at, and only it, changes. *)
Lemma wp_write_dev n i k s d j old bs buffer :
  resolve n (all_blocks s) i k = Some (d, j) → medium_at (all_blocks s) d j = Some old →
  writable n (all_blocks s) i → sector_buffer buffer = Some bs → 0 ≤ j →
  wp (write_dev n i k buffer) s (λ _ s', same_layout (all_blocks s) (all_blocks s') ∧
    block_by_role s' = block_by_role s ∧
    ∀ d' j', 0 ≤ j' → medium_at (all_blocks s') d' j' =
      if decide ((d', j') = (d, j)) then Some bs else medium_at (all_blocks s) d' j').
Proof.
  revert i k s. induction n as [|n IH]; intros i k s; [done|]. cbn [resolve writable].
  destruct (all_blocks s !! i) as [b|] eqn:Hb; [|done]. simpl.
  case_bool_decide as Hk; [|done]. intros Hr Hm (Hf & _ & Hw) Hbs Hj. cbn [write_dev].
  wp_step. unfold get_block at 1. wp_steps. eapply wp_the; [exact Hb|].
  wp_step. unfold check_sector.
  assert ((k >=? bsize b) = false) as -> by (rewrite Z.geb_leb; apply Z.leb_gt; lia). wp_steps.
  apply wp_assert. { apply negb_true_iff, Z.eqb_neq. done. } wp_step.
  set (Q := λ (_ : unit) s', same_layout (all_blocks s) (all_blocks s') ∧
    block_by_role s' = block_by_role s ∧
    ∀ d' j', 0 ≤ j' → medium_at (all_blocks s') d' j' =
      if decide ((d', j') = (d, j)) then Some bs else medium_at (all_blocks s) d' j').
  eapply (wp_mono _ _ Q).
  { destruct (ops b) as [m|p st] eqn:Ho.
    - simplify_eq. by eapply wp_disk_write.
    - by apply IH. }
  intros [] s' (Hl & Hro & Hmed). wp_step. unfold get_block. wp_steps.
  pose proof (same_layout_lookup _ _ i Hl) as Hi. rewrite Hb in Hi.
  destruct (all_blocks s' !! i) as [b'|] eqn:Hb'; [|done].
  eapply wp_the; [done|]. wp_steps. split_and!; [|done|].
  - etrans; [exact Hl|]. by apply (same_layout_put _ _ b').
  - intros d' j' Hj'. simpl. rewrite (medium_put _ _ b') by done. by apply Hmed.
Qed.

Lemma resolve_nonneg n t i k d j : resolve n t i k = Some (d, j) → 0 ≤ j.
Proof.
  revert i k. induction n as [|n IH]; intros i k; [done|]. cbn [resolve].
  destruct (t !! i) as [b|]; [|done]. simpl. case_bool_decide; [|done].
  destruct (ops b); [intros; simplify_eq; lia|apply IH].
Qed.
End facts.

(** ** The interface *)

(** [block_read] delivers the sector. *)
Lemma wp_block_read s i k bs (Q : list Z → blocks → Prop) :
  sector s i k = Some bs →
  (∀ s', block_by_role s' = block_by_role s → (∀ i' k', sector s' i' k' = sector s i' k') →
     same_layout (all_blocks s) (all_blocks s') → Q bs s') →
  wp (block_read i k) s Q.
Proof.
  unfold sector at 1. intros Hs HQ.
  destruct (resolve (S i) (all_blocks s) i k) as [[d j]|] eqn:Hr; [|done]. simpl in Hs.
  eapply wp_mono; [by eapply wp_read_dev|]. intros r s' (-> & Hl & Hro & Hm).
  apply HQ; [done| |done]. intros i' k'. unfold sector.
  rewrite <-(resolve_same _ _ _ _ _ Hl).
  destruct (resolve (S i') (all_blocks s) i' k') as [[d' j']|]; [|done]. simpl. apply Hm.
Qed.

(** [block_write] stores the first 512 bytes of the buffer in the sector. *)
Lemma wp_block_write s i k old buffer (Q : unit → blocks → Prop) :
  device s i → sector s i k = Some old → 512 ≤ Z.of_nat (length buffer) →
  (∀ s', block_by_role s' = block_by_role s →
     (∀ k', sector s' i k' = if decide (k' = k) then Some (take 512 buffer) else sector s i k') →
     same_layout (all_blocks s) (all_blocks s') → Q tt s') →
  wp (block_write i k buffer) s Q.
Proof.
  unfold sector at 1. intros Hd Hs Hbuf HQ.
  destruct (resolve (S i) (all_blocks s) i k) as [[d j]|] eqn:Hr; [|done]. simpl in Hs.
  pose proof (resolve_nonneg _ _ _ _ _ _ Hr) as Hj.
  eapply wp_mono.
  { eapply (wp_write_dev _ _ _ _ _ _ _ (take 512 buffer)); [exact Hr|exact Hs|done| |done].
    unfold sector_buffer, BLOCK_SECTOR_SIZE. by destruct (Z.leb_spec 512 (Z.of_nat (length buffer))); [|lia]. }
  intros [] s' (Hl & Hro & Hm). apply HQ; [done| |done]. intros k'. unfold sector.
  rewrite <-(resolve_same _ _ _ _ _ Hl).
  destruct (resolve (S i) (all_blocks s) i k') as [[d' j']|] eqn:Hr'; simpl.
  - rewrite Hm by by eapply resolve_nonneg. destruct (decide (k' = k)) as [->|Hne].
    + simplify_eq. by rewrite decide_True.
    + rewrite decide_False; [done|]. intros [= -> ->]. apply Hne.
      by eapply resolve_inj.
  - destruct (decide (k' = k)) as [->|]; [congruence|done].
Qed.

(** A request beyond the end of the device is a panic. *)
Lemma block_read_past_end s i b k :
  all_blocks s !! i = Some b → bsize b ≤ k → block_read i k s = Err EPanic.
Proof.
  intros Hb Hk. unfold block_read, read_dev, get_block, check_sector, mbind, M_bind, gets, the. rewrite Hb.
  cbn. by assert ((k >=? bsize b) = true) as -> by (rewrite Z.geb_leb; by apply Z.leb_le).
Qed.
