(* ===== verification/BlockProps.v ===== *)
(** * Properties of devices/block.c and devices/partition.c *)
From stdpp Require Import strings.
From S2P Require Import Prelude CStdio Block BlockFacts.
Local Open Scope Z_scope.

(** ** The device table

    A disk has a medium of its size; a partition is a range of sectors of a
    device that was registered before it. *)
Definition block_ok (t : list block) (i : nat) (b : block) : Prop :=
  0 ≤ bsize b < 2 ^ 32 ∧
  match ops b with
  | Disk m => Z.of_nat (length m) = bsize b ∧ Forall (λ bs, length bs = 512%nat) m
  | Partition p start => ∃ b', t !! p = Some b' ∧ (p < i)%nat ∧ 0 ≤ start ∧ start + bsize b ≤ bsize b'
  end.
Definition table_ok (s : blocks) : Prop := ∀ i b, all_blocks s !! i = Some b → block_ok (all_blocks s) i b.

Lemma resolve_total t n i k b :
  (∀ i b, t !! i = Some b → block_ok t i b) → t !! i = Some b → 0 ≤ k < bsize b → (i < n)%nat →
  ∃ d j bs, resolve n t i k = Some (d, j) ∧ medium_at t d j = Some bs ∧ length bs = 512%nat.
Proof.
  intros Hok. revert i k b. induction n as [|n IH]; intros i k b Hb Hk Hi; [lia|]. cbn [resolve]. rewrite Hb. simpl.
  rewrite bool_decide_eq_true_2 by done. destruct (Hok i b Hb) as [Hsz Ho]. destruct (ops b) as [m|p st] eqn:Eo.
  - destruct Ho as [Hl Hm]. destruct (lookup_lt_is_Some_2 m (Z.to_nat k)) as [bs Hbs]; [lia|].
    exists i, k, bs. split; [done|]. split; [unfold medium_at; rewrite Hb; simpl; by rewrite Eo|].
    rewrite Forall_lookup in Hm. by apply (Hm (Z.to_nat k)).
  - destruct Ho as (b' & Hb' & Hp & Hst & Hle). destruct (Hok p b' Hb') as [Hsz' _].
    rewrite u32_small by lia. apply (IH p _ b'); [done|lia|lia].
Qed.

Lemma sector_total s i k b :
  table_ok s → all_blocks s !! i = Some b → 0 ≤ k < bsize b → ∃ bs, sector s i k = Some bs ∧ length bs = 512%nat.
Proof.
  intros Hok Hb Hk. destruct (resolve_total _ (S i) i k b Hok Hb Hk) as (d & j & bs & Hr & Hm & Hl); [lia|].
  exists bs. split; [|done]. unfold sector. by rewrite Hr.
Qed.

(** *** Registering devices *)
Lemma table_ok_register s b :
  table_ok s → block_ok (all_blocks s) (length (all_blocks s)) b →
  table_ok (Blocks (all_blocks s ++ [b]) (block_by_role s)).
Proof.
  intros Hok Hb i b' Hi. simpl in *.
  assert (Hkeep : ∀ j c, block_ok (all_blocks s) j c → block_ok (all_blocks s ++ [b]) j c).
  { intros j c [Hsz Ho]. split; [done|]. destruct (ops c) as [m|p st]; [done|].
    destruct Ho as (c' & Hc' & ?). exists c'. split; [by apply lookup_app_l_Some|done]. }
  apply lookup_app_Some in Hi as [Hi|[Hge Hi]]; [by apply Hkeep, Hok|].
  apply list_lookup_singleton_Some in Hi as [Hj ->]. apply Hkeep. by replace i with (length (all_blocks s)) by lia.
Qed.

(** *** The table after a transfer *)
Lemma table_ok_same s s' :
  table_ok s → same_layout (all_blocks s) (all_blocks s') →
  (∀ d j, 0 ≤ j → ∀ bs, medium_at (all_blocks s') d j = Some bs → length bs = 512%nat) →
  (∀ d j, 0 ≤ j → is_Some (medium_at (all_blocks s') d j) ↔ is_Some (medium_at (all_blocks s) d j)) → table_ok s'.
Proof.
  intros Hok Hl Hlen Hdom i b' Hb'. pose proof (same_layout_lookup _ _ i Hl) as Hi. rewrite Hb' in Hi.
  destruct (all_blocks s !! i) as [b|] eqn:Hb; [|done]. destruct (Hok i b Hb) as [Hsz Ho].
  unfold layout in Hi. simpl in Hi. injection Hi as Hn Hty Hsize Hk. split; [by rewrite <-Hsize|].
  destruct (ops b') as [m'|p' st'] eqn:Eo', (ops b) as [m|p st] eqn:Eo; try done.
  - assert (Hm : ∀ j, 0 ≤ j → medium_at (all_blocks s) i j = m !! Z.to_nat j ∧ medium_at (all_blocks s') i j = m' !! Z.to_nat j).
    { intros j _. unfold medium_at. rewrite Hb, Hb'. simpl. by rewrite Eo, Eo'. }
    split.
    + destruct Ho as [Ho _]. rewrite <-Hsize, <-Ho. f_equal. apply Nat.le_antisymm; apply Nat.le_ngt; intros Hlt.
      * destruct (Hdom i (Z.of_nat (length m)) ltac:(lia)) as [H1 _]. destruct (Hm (Z.of_nat (length m)) ltac:(lia)) as [E1 E2].
        rewrite E1, E2, Nat2Z.id in H1. destruct (H1 (lookup_lt_is_Some_2 _ _ Hlt)) as [? Hx]. apply lookup_lt_Some in Hx. lia.
      * destruct (Hdom i (Z.of_nat (length m')) ltac:(lia)) as [_ H1]. destruct (Hm (Z.of_nat (length m')) ltac:(lia)) as [E1 E2].
        rewrite E1, E2, Nat2Z.id in H1. destruct (H1 (lookup_lt_is_Some_2 _ _ Hlt)) as [? Hx]. apply lookup_lt_Some in Hx. lia.
    + apply Forall_lookup. intros j bs Hj. apply (Hlen i (Z.of_nat j)); [lia|]. rewrite (proj2 (Hm (Z.of_nat j) ltac:(lia))), Nat2Z.id. done.
  - simpl in Hk. injection Hk as -> ->. destruct Ho as (c & Hc & Hp & Hst & Hle).
    pose proof (same_layout_lookup _ _ p' Hl) as Hpl. rewrite Hc in Hpl.
    destruct (all_blocks s' !! p') as [c'|] eqn:Hc'; [|done]. unfold layout in Hpl. simpl in Hpl. injection Hpl as _ _ Hcs _.
    exists c'. split; [done|]. split; [done|]. rewrite <-Hcs, <-Hsize. done.
Qed.

Lemma medium_length s d j bs : table_ok s → medium_at (all_blocks s) d j = Some bs → length bs = 512%nat.
Proof.
  intros Hok Hm. unfold medium_at in Hm. destruct (all_blocks s !! d) as [b|] eqn:Hb; [|done]. simpl in Hm.
  destruct (Hok d b Hb) as [_ Ho]. destruct (ops b); [|done]. destruct Ho as [_ Ho]. rewrite Forall_lookup in Ho. by apply (Ho (Z.to_nat j)).
Qed.

(** ** Transfers *)

(** C29: a sector written through any device, a disk or a partition nested in
    others, is read back through every device that shows the same place of the
    same disk, and nowhere else does anything change: what partitions that do
    not overlap hold is separate.  The table of devices stays well formed. *)
Theorem block_write_correct s i k b buffer :
  table_ok s → device s i → all_blocks s !! i = Some b → 0 ≤ k < bsize b → length buffer = 512%nat →
  ∃ s', block_write i k buffer s = Ok (tt, s') ∧ table_ok s' ∧ same_layout (all_blocks s) (all_blocks s') ∧
    ∀ i' k' b', all_blocks s !! i' = Some b' → 0 ≤ k' < bsize b' →
    ∃ s'', block_read i' k' s' =
      Ok (if bool_decide (resolve (S i') (all_blocks s) i' k' = resolve (S i) (all_blocks s) i k) then buffer
          else default [] (sector s i' k'), s'').
Proof.
  intros Hok Hdev Hb Hk Hbuf.
  destruct (resolve_total _ (S i) i k b Hok Hb Hk) as (d & j & old & Hr & Hm & _); [lia|].
  pose proof (resolve_nonneg _ _ _ _ _ _ Hr) as Hj.
  assert (Hw : wp (block_write i k buffer) s (λ _ s', same_layout (all_blocks s) (all_blocks s') ∧
    block_by_role s' = block_by_role s ∧ ∀ d' j', 0 ≤ j' → medium_at (all_blocks s') d' j' =
      if decide ((d', j') = (d, j)) then Some buffer else medium_at (all_blocks s) d' j')).
  { eapply wp_write_dev; [exact Hr|exact Hm|exact Hdev| |exact Hj].
    unfold sector_buffer, BLOCK_SECTOR_SIZE. rewrite Hbuf. simpl. by rewrite take_ge by (change (Z.to_nat 512) with 512%nat; lia). }
  apply wp_ok in Hw as ([] & s' & Hrun & Hl & _ & Hmed). exists s'.
  assert (Hok' : table_ok s').
  { apply (table_ok_same s); [done|done| |].
    - intros d' j' Hj' bs. rewrite Hmed by done. case_decide; [by intros [= <-]|by apply medium_length].
    - intros d' j' Hj'. rewrite Hmed by done. case_decide; simplify_eq; [|done]. split; intros _; by eexists. }
  split_and!; [done|done|done|]. intros i' k' b' Hb' Hk'.
  destruct (resolve_total _ (S i') i' k' b' Hok Hb' Hk') as (d' & j' & bs' & Hr' & Hm' & _); [lia|].
  pose proof (resolve_nonneg _ _ _ _ _ _ Hr') as Hj'.
  assert (sector s' i' k' = Some (if bool_decide (resolve (S i') (all_blocks s) i' k' = resolve (S i) (all_blocks s) i k)
    then buffer else default [] (sector s i' k'))) as Hs.
  { unfold sector. rewrite <-(resolve_same _ _ _ _ _ Hl), Hr, Hr'. simpl. rewrite Hmed, Hm' by done. simpl.
    destruct (decide ((d', j') = (d, j))) as [E|E].
    - rewrite bool_decide_eq_true_2; [done|by rewrite E].
    - rewrite bool_decide_eq_false_2; [done|]. intros [= -> ->]. done. }
  eapply (wp_block_read s' i' k' _ (λ r s'', ∃ s2, s'' = s2 ∧ r = _)) in Hs; [|intros s2 _ _ _; by exists s2].
  apply wp_ok in Hs as (r & s2 & Hr2 & _ & _ & ->). by exists s2.
Qed.

(** A disk of eight sectors with two partitions that are next to each other. *)
Definition ex_disk : blocks :=
  Blocks [Block (chars "hda") BLOCK_RAW 8 (Disk (replicate 8 (replicate 512 0))) 0 0;
          Block (chars "hda1") BLOCK_FILESYS 4 (Partition 0 1) 0 0;
          Block (chars "hda2") BLOCK_FOREIGN 3 (Partition 0 5) 0 0] [None; None; None; None].
Lemma ex_disk_ok : table_ok ex_disk.
Proof.
  intros [|[|[|i]]] b Hb; [injection Hb as <-..|discriminate Hb]; (split; [cbn [bsize]; lia|]); cbn [ops].
  - split; [reflexivity|]. repeat constructor.
  - eexists. split; [reflexivity|]. cbn [bsize]. lia.
  - eexists. split; [reflexivity|]. cbn [bsize]. lia.
Qed.

(** The last sector of the first partition, as the disk shows it, and the first
    one of the second partition. *)
Lemma block_write_correct_witness :
  ∃ s' s1 s2, block_write 1 3 (replicate 512 7) ex_disk = Ok (tt, s') ∧
    block_read 0 4 s' = Ok (replicate 512 7, s1) ∧ block_read 2 0 s' = Ok (replicate 512 0, s2).
Proof.
  destruct (block_write_correct ex_disk 1 3 (Block (chars "hda1") BLOCK_FILESYS 4 (Partition 0 1) 0 0) (replicate 512 7))
    as (s' & Hw & _ & _ & Hr).
  - exact ex_disk_ok.
  - cbn. unfold BLOCK_FILESYS, BLOCK_FOREIGN, BLOCK_RAW. lia.
  - reflexivity.
  - simpl. lia.
  - reflexivity.
  - destruct (Hr 0%nat 4 _ eq_refl) as (s1 & H1); [simpl; lia|]. destruct (Hr 2%nat 0 _ eq_refl) as (s2 & H2); [simpl; lia|].
    exists s', s1, s2. split; [exact Hw|]. split; [exact H1|exact H2].
Defined.

(** A transfer that is refused: a sector past the end of the device is a
    panic, for reads and writes; writing any sector of a foreign partition fails
    the assertion, whatever the buffer. *)
Theorem block_errors s i b k buffer :
  all_blocks s !! i = Some b →
  (bsize b ≤ k → block_read i k s = Err EPanic ∧ block_write i k buffer s = Err EPanic) ∧
  (k < bsize b → btype b = BLOCK_FOREIGN → block_write i k buffer s = Err EAssert).
Proof.
  intros Hb. split.
  - intros Hk. split; [by eapply block_read_past_end|].
    unfold block_write, write_dev, get_block, check_sector, mbind, M_bind, gets, the. rewrite Hb.
    cbn. by assert ((k >=? bsize b) = true) as -> by (rewrite Z.geb_leb; by apply Z.leb_le).
  - intros Hk Hf. unfold block_write, write_dev, get_block, check_sector, mbind, M_bind, gets, the. rewrite Hb.
    cbn. assert ((k >=? bsize b) = false) as -> by (rewrite Z.geb_leb; by apply Z.leb_gt).
    cbn. by rewrite Hf.
Qed.

Lemma block_errors_witness :
  block_read 1 4 ex_disk = Err EPanic ∧ block_write 2 0 [] ex_disk = Err EAssert.
Proof.
  split.
  - refine (proj1 (proj1 (block_errors ex_disk 1 _ 4 [] eq_refl) _)). simpl. lia.
  - refine (proj2 (block_errors ex_disk 2 _ 0 [] eq_refl) _ eq_refl). simpl. lia.
Defined.

(** ** Partitions *)
Definition partition_role (part_type : Z) : Z :=
  if part_type =? 0x20 then BLOCK_KERNEL else if part_type =? 0x21 then BLOCK_FILESYS
  else if part_type =? 0x22 then BLOCK_SCRATCH else if part_type =? 0x23 then BLOCK_SWAP else BLOCK_FOREIGN.

(** An entry of a partition table becomes a device exactly when its range of
    sectors lies inside the device it is found on, also for starts and sizes
    whose sum does not fit into 32 bits; the new device is the last of the table,
    and the table stays well formed.  Otherwise nothing changes. *)
Theorem found_partition_correct s i b part_type start size part_nr name :
  table_ok s → all_blocks s !! i = Some b → 0 ≤ start < 2 ^ 32 → 0 ≤ size < 2 ^ 32 →
  partition_name (bname b) part_nr = Some name →
  let new := Block (take 15 name) (partition_role part_type) size (Partition i start) 0 0 in
  ∃ s', found_partition true i part_type start size part_nr s = Ok (tt, s') ∧ table_ok s' ∧
    block_by_role s' = block_by_role s ∧
    all_blocks s' = all_blocks s ++ (if bool_decide (start < bsize b ∧ start + size ≤ bsize b) then [new] else []).
Proof.
  intros Hok Hb Hst Hsz Hname new. destruct (Hok i b Hb) as [Hbs _].
  assert (Hcond : ((start >=? bsize b) || ((u32 (start + size) <? start) || (bsize b <? u32 (start + size)))) =
    negb (bool_decide (start < bsize b ∧ start + size ≤ bsize b))).
  { rewrite Z.geb_leb. destruct (decide (start + size < 2 ^ 32)) as [Hlt|Hge].
    - rewrite u32_small by lia. case_bool_decide as Hin; simpl.
      + rewrite (proj2 (Z.leb_gt _ _)), (proj2 (Z.ltb_ge (start + size) start)), (proj2 (Z.ltb_ge _ _)); [done|lia..].
      + destruct (Z.leb_spec (bsize b) start); [done|]. simpl. apply orb_true_iff. right. apply Z.ltb_lt. lia.
    - rewrite bool_decide_eq_false_2 by lia. simpl. apply orb_true_iff. right. apply orb_true_iff. left. apply Z.ltb_lt.
      unfold u32. replace (start + size) with (start + size - 2 ^ 32 + 1 * 2 ^ 32) by lia. rewrite Z.mod_add, Z.mod_small; lia. }
  assert (Hw : wp (found_partition true i part_type start size part_nr) s (λ _ s', table_ok s' ∧
    block_by_role s' = block_by_role s ∧
    all_blocks s' = all_blocks s ++ (if bool_decide (start < bsize b ∧ start + size ≤ bsize b) then [new] else []))).
  { unfold found_partition, block_size, get_block. wp_step. wp_step. wp_step. eapply wp_the; [exact Hb|]. wp_step.
    destruct (start >=? bsize b); simpl in Hcond.
    { wp_steps. destruct (bool_decide _); [done|]. by rewrite app_nil_r. }
    destruct ((u32 (start + size) <? start) || (bsize b <? u32 (start + size))).
    { wp_steps. destruct (bool_decide _); [done|]. by rewrite app_nil_r. }
    cbn [negb]. unfold block_name, get_block. wp_step. wp_step. wp_step. eapply wp_the; [exact Hb|]. wp_step. wp_step.
    eapply wp_the; [exact Hname|]. unfold block_register. cbn [negb]. wp_steps.
    case_bool_decide as Hin; [|done]. split_and!; [|done|done].
    apply table_ok_register; [done|]. split; [simpl; lia|]. simpl. exists b. split; [done|].
    apply lookup_lt_Some in Hb. lia. }
  apply wp_ok in Hw as ([] & s' & Hr & H). by exists s'.
Qed.

Lemma found_partition_correct_witness :
  ∃ s' s'', found_partition true 0 0x21 1 4 1 (Blocks (take 1 (all_blocks ex_disk)) []) = Ok (tt, s') ∧
    all_blocks s' = take 2 (all_blocks ex_disk) ∧
    found_partition true 0 0x21 4 (2 ^ 32 - 1) 1 ex_disk = Ok (tt, s'') ∧ all_blocks s'' = all_blocks ex_disk.
Proof.
  assert (table_ok (Blocks (take 1 (all_blocks ex_disk)) [])) as Hok.
  { intros [|[|i]] b Hb; [|discriminate Hb|discriminate Hb]. injection Hb as <-. split; [simpl; lia|].
    split; [reflexivity|]. repeat constructor. }
  destruct (found_partition_correct (Blocks (take 1 (all_blocks ex_disk)) []) 0 _ 0x21 1 4 1 (chars "hda1") Hok eq_refl)
    as (s' & H1 & _ & _ & E1); [lia|lia|vm_compute; reflexivity|].
  destruct (found_partition_correct ex_disk 0 _ 0x21 4 (2 ^ 32 - 1) 1 (chars "hda1") ex_disk_ok eq_refl)
    as (s'' & H2 & _ & _ & E2); [lia|lia|vm_compute; reflexivity|].
  exists s', s''. split; [exact H1|]. split; [exact E1|]. split; [exact H2|exact E2].
Defined.

(** ** What goes wrong

    The table of an extended partition is not read: [read_partition_table] reads
    sector 0 again.  When that has an extended partition at sector 1, the
    function calls itself with sector 2 for ever. *)
Definition ex_table : list Z :=
  replicate 446 0 ++ [0; 0; 0; 0; 5; 0; 0; 0; 1; 0; 0; 0; 7; 0; 0; 0] ++ replicate 48 0 ++ [0x55; 0xaa].
Definition ex_extended (reads : Z) : blocks :=
  Blocks [Block (chars "hda") BLOCK_RAW 8 (Disk (ex_table :: replicate 7 (replicate 512 0))) reads 0] [None; None; None; None].

Lemma extended_partition_step fuel sector primary part_nr n :
  sector < 8 →
  let sector' := if sector =? 0 then 1 else u32 (1 + primary) in let primary' := if sector =? 0 then 1 else primary in
  read_partition_table fuel true 0 sector' primary' part_nr (ex_extended (u64 (n + 1))) = Err EFuel →
  read_partition_table (S fuel) true 0 sector primary part_nr (ex_extended n) = Err EFuel.
Proof.
  intros Hs sector' primary' Hrec. cbn [read_partition_table].
  assert (block_size 0 (ex_extended n) = Ok (8, ex_extended n)) as H1 by reflexivity.
  assert (block_read 0 0 (ex_extended n) = Ok (ex_table, ex_extended (u64 (n + 1)))) as H2 by reflexivity.
  assert (signature ex_table = Some 0xaa55) as H3 by (vm_compute; reflexivity).
  assert (read_entry ex_table 0 = Some (PTE 5 1 7)) as H4 by (vm_compute; reflexivity).
  assert ((sector >=? 8) = false) as H5 by (rewrite Z.geb_leb; by apply Z.leb_gt).
  unfold mbind, M_bind. rewrite H1, H5. cbn [negb]. rewrite H2, H3. unfold the at 1. cbn [mret M_ret].
  change (negb (43605 =? 43605)) with false. cbn match. unfold loop, mbind, M_bind. cbn beta iota. cbn [Nat.ltb Nat.leb].
  rewrite H4. unfold the at 1. cbn [mret M_ret psize ptype offset].
  change ((7 =? 0) || (5 =? 0)) with false. change (is_extended 5) with true. cbn match.
  unfold sector', primary' in Hrec. destruct (sector =? 0); by rewrite Hrec.
Qed.

Lemma extended_partition_loops fuel : partition_scan fuel true 0 (ex_extended 0) = Err EFuel.
Proof.
  assert (Hloop : ∀ fuel n, read_partition_table fuel true 0 2 1 0 (ex_extended n) = Err EFuel).
  { clear fuel. induction fuel as [|fuel IH]; intros n; [done|]. apply extended_partition_step; [lia|]. apply IH. }
  assert (Hscan : read_partition_table fuel true 0 0 0 0 (ex_extended 0) = Err EFuel).
  { destruct fuel as [|[|fuel]]; [done|..].
    - apply extended_partition_step; [lia|done].
    - apply extended_partition_step; [lia|]. apply extended_partition_step; [vm_compute; reflexivity|]. apply Hloop. }
  unfold partition_scan, mbind, M_bind. by rewrite Hscan.
Qed.
