(* ===== verification/Intq.v ===== *)
(** * devices/intq.c: interrupt queues

    A ring buffer with the structure of a monitor, shared between threads and
    interrupt handlers.  All functions run with interrupts off, so a thread only
    loses the processor where it blocks or releases the queue's lock.  A thread's
    [pc] says where in [intq_getc] or [intq_putc] it is then; [lock] is the
    holder of the queue's lock, as [lock_acquire] and [lock_release] of Synch.v
    leave it. *)
From S2P Require Import Prelude.
Local Open Scope Z_scope.

Definition INTQ_BUFSIZE : Z := 64.

(** The two members that a waiting thread is recorded in. *)
Inductive waiter := NotFull | NotEmpty.
#[global] Instance waiter_eq_dec : EqDecision waiter.
Proof. solve_decision. Defined.

Inductive pc :=
| Outside
| AtLock (w : waiter) (byte : Z)   (* in lock_acquire *)
| AtWait (w : waiter) (byte : Z)   (* in thread_block, called by wait *)
| Woken (w : waiter) (byte : Z)    (* thread_block is about to return *)
| Retry (w : waiter) (byte : Z).   (* after lock_release, back at the while *)

(** [struct intq], the threads that use it, and whether an interrupt handler is
    running.  [byte] is the argument of [intq_putc]. *)
Record intq := Intq {
  lock : option Z; not_full : option Z; not_empty : option Z;
  buf : list Z; head : Z; tail : Z;
  pcs : gmap Z pc; handler : bool }.

Definition set_lock (x : option Z) (q : intq) : intq :=
  Intq x (not_full q) (not_empty q) (buf q) (head q) (tail q) (pcs q) (handler q).
Definition set_waiter (w : waiter) (x : option Z) (q : intq) : intq :=
  match w with
  | NotFull => Intq (lock q) x (not_empty q) (buf q) (head q) (tail q) (pcs q) (handler q)
  | NotEmpty => Intq (lock q) (not_full q) x (buf q) (head q) (tail q) (pcs q) (handler q)
  end.
Definition get_waiter (w : waiter) (q : intq) : option Z :=
  match w with NotFull => not_full q | NotEmpty => not_empty q end.
Definition set_ring (b : list Z) (h t : Z) (q : intq) : intq :=
  Intq (lock q) (not_full q) (not_empty q) b h t (pcs q) (handler q).
Definition set_pc (t : Z) (p : pc) (q : intq) : intq :=
  Intq (lock q) (not_full q) (not_empty q) (buf q) (head q) (tail q) (<[t := p]> (pcs q)) (handler q).
Definition set_handler (b : bool) (q : intq) : intq :=
  Intq (lock q) (not_full q) (not_empty q) (buf q) (head q) (tail q) (pcs q) b.
Definition pc_of (q : intq) (t : Z) : pc := default Outside (pcs q !! t).

(** [lock_init] leaves the lock free; the contents of the buffer stay. *)
Definition intq_init : M intq unit :=
  modify (λ q, Intq None None None (buf q) 0 0 (pcs q) (handler q)).

Definition next (pos : Z) : Z := Z.rem (pos + 1) INTQ_BUFSIZE.
Definition intq_empty (q : intq) : bool := head q =? tail q.
Definition intq_full (q : intq) : bool := next (head q) =? tail q.

(** The condition a waiter waits for does not hold. *)
Definition must_wait (w : waiter) (q : intq) : bool :=
  match w with NotFull => intq_full q | NotEmpty => intq_empty q end.

(** [wait], called by thread [t]: it does not return in this step. *)
Definition wait (t : Z) (w : waiter) (byte : Z) : M intq unit :=
  h ← gets handler; ASSERT (negb h) ;;
  c ← gets (must_wait w); ASSERT c ;;
  modify (set_waiter w (Some t)) ;;
  modify (set_pc t (AtWait w byte)).

(** [signal]: [thread_unblock] of a thread that is not blocked is an error. *)
Definition signal (w : waiter) : M intq unit :=
  c ← gets (must_wait w); ASSERT (negb c) ;;
  o ← gets (get_waiter w);
  match o with
  | Some t =>
      p ← gets (λ q, pc_of q t);
      match p with
      | AtWait w' byte => modify (set_pc t (Woken w' byte)) ;; modify (set_waiter w None)
      | _ => throw EAssert
      end
  | None => mret tt
  end.

(** The body of [intq_getc] and [intq_putc] after their loops. *)
Definition take_byte : M intq Z :=
  q ← gets id;
  byte ← the (buf q !! Z.to_nat (tail q));
  modify (set_ring (buf q) (head q) (next (tail q))) ;;
  signal NotFull ;;
  mret byte.
Definition add_byte (byte : Z) : M intq unit :=
  q ← gets id;
  the (buf q !! Z.to_nat (head q)) ;;
  modify (set_ring (<[Z.to_nat (head q) := byte]> (buf q)) (next (head q)) (tail q)) ;;
  signal NotEmpty.

(** [lock_acquire (&q->lock); wait (...)], from where the lock is asked for. *)
Definition acquire_and_wait (t : Z) (w : waiter) (byte : Z) : M intq unit :=
  l ← gets lock;
  match l with
  | None => modify (set_lock (Some t)) ;; wait t w byte
  | Some h => ASSERT (negb (h =? t)) ;; modify (set_pc t (AtLock w byte))
  end.

(** One turn of the loop of [intq_getc] and what follows it, in thread [t]; the
    result is a byte, or none when [t] blocks. *)
Definition getc_loop (t : Z) : M intq (option Z) :=
  e ← gets intq_empty;
  if (e : bool) then
    h ← gets handler; ASSERT (negb h) ;;
    acquire_and_wait t NotEmpty 0 ;; mret None
  else
    byte ← take_byte; modify (set_pc t Outside) ;; mret (Some byte).
(** The same for [intq_putc]: whether the byte is in the queue now. *)
Definition putc_loop (t byte : Z) : M intq bool :=
  f ← gets intq_full;
  if (f : bool) then
    h ← gets handler; ASSERT (negb h) ;;
    acquire_and_wait t NotFull byte ;; mret false
  else
    add_byte byte ;; modify (set_pc t Outside) ;; mret true.

(** Called from an interrupt handler: it must not wait. *)
Definition in_handler {A} (m : M intq A) : M intq A :=
  modify (set_handler true) ;; a ← m; modify (set_handler false) ;; mret a.
Definition handler_getc : M intq Z :=
  in_handler (e ← gets intq_empty; ASSERT (negb e) ;; take_byte).
Definition handler_putc (byte : Z) : M intq unit :=
  in_handler (f ← gets intq_full; ASSERT (negb f) ;; add_byte byte).

(** ** The queue and its users as a state machine *)
Inductive event :=
| Getc (t : Z)             (* t calls intq_getc *)
| Putc (t byte : Z)        (* t calls intq_putc *)
| GotLock (t : Z)          (* lock_acquire returns in t *)
| Resume (t : Z)           (* thread_block returns in t, which releases the lock *)
| Again (t : Z)            (* t goes on after lock_release *)
| IrqGetc                  (* an interrupt handler takes a byte *)
| IrqPutc (byte : Z).      (* an interrupt handler adds a byte *)

(** What an event takes out of the queue and what it puts in. *)
Definition got (o : option Z) : list Z * list Z := (match o with Some b => [b] | None => [] end, []).
Definition putted (byte : Z) (b : bool) : list Z * list Z := ([], if b then [byte] else []).

Definition continue (t : Z) (w : waiter) (byte : Z) : M intq (list Z * list Z) :=
  match w with
  | NotEmpty => o ← getc_loop t; mret (got o)
  | NotFull => b ← putc_loop t byte; mret (putted byte b)
  end.

(** Whether the event is possible. *)
Definition enabled (q : intq) (e : event) : bool :=
  match e with
  | Getc t | Putc t _ => match pc_of q t with Outside => true | _ => false end
  | GotLock t => match pc_of q t, lock q with AtLock _ _, None => true | _, _ => false end
  | Resume t => match pc_of q t with Woken _ _ => true | _ => false end
  | Again t => match pc_of q t with Retry _ _ => true | _ => false end
  | IrqGetc => negb (intq_empty q)
  | IrqPutc _ => negb (intq_full q)
  end.

Definition perform (e : event) : M intq (list Z * list Z) :=
  match e with
  | Getc t => continue t NotEmpty 0
  | Putc t byte => continue t NotFull byte
  | GotLock t =>
      p ← gets (λ q, pc_of q t);
      match p with
      | AtLock w byte => modify (set_lock (Some t)) ;; wait t w byte ;; mret ([], [])
      | _ => throw EFault
      end
  | Resume t =>
      p ← gets (λ q, pc_of q t);
      match p with
      | Woken w byte =>
          l ← gets lock; ASSERT (bool_decide (l = Some t)) ;;
          modify (set_lock None) ;; modify (set_pc t (Retry w byte)) ;; mret ([], [])
      | _ => throw EFault
      end
  | Again t =>
      p ← gets (λ q, pc_of q t);
      match p with
      | Retry w byte => continue t w byte
      | _ => throw EFault
      end
  | IrqGetc => b ← handler_getc; mret ([b], [])
  | IrqPutc byte => handler_putc byte ;; mret ([], [byte])
  end.

(** Runs: the state, the bytes taken and the bytes put, in order. *)
Inductive runs (q0 : intq) : intq → list Z → list Z → Prop :=
| runs_refl : runs q0 q0 [] []
| runs_step q e q' out inp o i :
    runs q0 q out inp → enabled q e = true → perform e q = Ok ((o, i), q') →
    runs q0 q' (out ++ o) (inp ++ i).
