(* ===== verification/IntqProps.v ===== *)
(** * Properties of devices/intq.c *)
From S2P Require Import Prelude Intq.
Local Open Scope Z_scope.

(** ** The ring as a queue *)

(** The bytes in the queue, oldest first. *)
Definition count (q : intq) : Z := (head q - tail q) `mod` 64.
Definition contents (q : intq) : list Z :=
  (λ j, default 0 (buf q !! Z.to_nat ((tail q + j) `mod` 64))) <$> seqZ 0 (count q).
Record ring (q : intq) : Prop := Ring {
  r_buf : length (buf q) = 64%nat; r_head : 0 ≤ head q < 64; r_tail : 0 ≤ tail q < 64 }.

Lemma next_mod pos : 0 ≤ pos < 64 → next pos = (pos + 1) `mod` 64 ∧ 0 ≤ next pos < 64.
Proof.
  intros H. unfold next, INTQ_BUFSIZE. rewrite Z.rem_mod_nonneg by lia. split; [done|]. apply Z.mod_pos_bound. lia.
Qed.

Lemma count_empty q : ring q → intq_empty q = true ↔ count q = 0.
Proof.
  intros [_ Hh Ht]. unfold intq_empty, count. rewrite Z.eqb_eq. split; [intros ->; by rewrite Z.sub_diag|].
  intros H. pose proof (Z.div_mod (head q - tail q) 64 ltac:(lia)) as Hd. rewrite H in Hd.
  assert ((head q - tail q) `div` 64 = 0) as E by nia. lia.
Qed.
Lemma count_full q : ring q → intq_full q = true ↔ count q = 63.
Proof.
  intros [_ Hh Ht]. unfold intq_full, count. rewrite Z.eqb_eq. destruct (next_mod (head q) Hh) as [-> Hn].
  pose proof (Z.div_mod (head q - tail q) 64 ltac:(lia)) as Hd. pose proof (Z.mod_pos_bound (head q - tail q) 64 ltac:(lia)).
  pose proof (Z.div_mod (head q + 1) 64 ltac:(lia)) as Hd'. split; intros H'.
  - assert ((head q - tail q) `div` 64 = -1 ∨ (head q - tail q) `div` 64 = 0) as [E|E] by nia;
    assert ((head q + 1) `div` 64 = 0 ∨ (head q + 1) `div` 64 = 1) as [E'|E'] by nia; lia.
  - assert ((head q - tail q) `div` 64 = -1 ∨ (head q - tail q) `div` 64 = 0) as [E|E] by nia;
    assert ((head q + 1) `div` 64 = 0 ∨ (head q + 1) `div` 64 = 1) as [E'|E'] by nia; lia.
Qed.
Lemma count_range q : 0 ≤ count q < 64.
Proof. apply Z.mod_pos_bound. lia. Qed.

(** Taking the oldest byte. *)
Definition taken (q : intq) : intq := set_ring (buf q) (head q) (next (tail q)) q.
Lemma contents_take q :
  ring q → 0 < count q →
  ring (taken q) ∧ contents q = default 0 (buf q !! Z.to_nat (tail q)) :: contents (taken q) ∧ count (taken q) = count q - 1.
Proof.
  intros [Hb Hh Ht] Hc. destruct (next_mod (tail q) Ht) as [En Hn].
  assert (count (taken q) = count q - 1) as Ec.
  { unfold count, taken. simpl. rewrite En, Zminus_mod_idemp_r. replace (head q - (tail q + 1)) with (head q - tail q - 1) by lia.
    rewrite <-Zminus_mod_idemp_l. apply Z.mod_small. pose proof (count_range q). unfold count in *. lia. }
  split_and!; [by split| |done]. unfold contents. rewrite Ec.
  replace (count q) with (1 + (count q - 1)) at 1 by lia. rewrite seqZ_app by lia. rewrite fmap_app. simpl.
  rewrite Z.add_0_r, Z.mod_small by lia. f_equal.
  change (0 + 1) with (1 + 0). rewrite <-(fmap_add_seqZ 1 0), <-list_fmap_compose. apply list_fmap_ext. intros j x _. simpl.
  rewrite En, Zplus_mod_idemp_l. do 4 f_equal. lia.
Qed.

(** Adding a byte. *)
Definition added (byte : Z) (q : intq) : intq :=
  set_ring (<[Z.to_nat (head q) := byte]> (buf q)) (next (head q)) (tail q) q.
Lemma contents_add byte q :
  ring q → count q < 63 →
  ring (added byte q) ∧ contents (added byte q) = contents q ++ [byte] ∧ count (added byte q) = count q + 1.
Proof.
  intros [Hb Hh Ht] Hc. destruct (next_mod (head q) Hh) as [En Hn]. pose proof (count_range q) as Hr.
  assert (count (added byte q) = count q + 1) as Ec.
  { unfold count, added. simpl. rewrite En, Zminus_mod_idemp_l. replace (head q + 1 - tail q) with (head q - tail q + 1) by lia.
    rewrite <-Zplus_mod_idemp_l. apply Z.mod_small. unfold count in *. lia. }
  assert (Hlast : (tail q + count q) `mod` 64 = head q).
  { unfold count. rewrite Zplus_mod_idemp_r. replace (tail q + (head q - tail q)) with (head q) by lia. by apply Z.mod_small. }
  split_and!; [split; simpl; [by rewrite length_insert|done..]| |done]. unfold contents. rewrite Ec, seqZ_app by lia.
  rewrite fmap_app. f_equal.
  - apply list_fmap_ext. intros i j Hj. apply lookup_seqZ in Hj as [-> Hj]. cbn [buf tail added set_ring]. f_equal.
    rewrite list_lookup_insert_ne; [done|]. intros E.
    pose proof (Z.mod_pos_bound (tail q + (0 + Z.of_nat i)) 64 ltac:(lia)).
    assert ((tail q + (0 + Z.of_nat i)) `mod` 64 = (tail q + count q) `mod` 64) as Em by lia.
    pose proof (Z.div_mod (tail q + (0 + Z.of_nat i)) 64 ltac:(lia)). pose proof (Z.div_mod (tail q + count q) 64 ltac:(lia)).
    lia.
  - change ([default 0 (<[Z.to_nat (head q) := byte]> (buf q) !! Z.to_nat ((tail q + (0 + count q)) `mod` 64))] = [byte]).
    rewrite Z.add_0_l, Hlast, list_lookup_insert_eq by lia. done.
Qed.

(** ** Operations *)
Lemma ring_same q q' : buf q' = buf q → head q' = head q → tail q' = tail q →
  (ring q' ↔ ring q) ∧ contents q' = contents q ∧ count q' = count q ∧ ∀ w, must_wait w q' = must_wait w q.
Proof.
  intros E1 E2 E3. split_and!.
  - split; intros [? ? ?]; split; congruence.
  - unfold contents, count. by rewrite E1, E2, E3.
  - unfold count. by rewrite E2, E3.
  - intros []; simpl; unfold intq_full, intq_empty; by rewrite E2, E3.
Qed.

(** Whatever an operation leads to when it returns. *)
Definition wlp {A} (m : M intq A) (q : intq) (Q : A → intq → Prop) : Prop :=
  match m q with Ok (a, q') => Q a q' | Err _ => True end.
Lemma wlp_bind {A B} (m : M intq A) (f : A → M intq B) q Q : wlp m q (λ a q', wlp (f a) q' Q) → wlp (m ≫= f) q Q.
Proof. unfold wlp, mbind, M_bind. by destruct (m q) as [[a q']|]. Qed.
Lemma wlp_mono {A} (m : M intq A) q (Q Q' : A → intq → Prop) : wlp m q Q → (∀ a q', Q a q' → Q' a q') → wlp m q Q'.
Proof. unfold wlp. destruct (m q) as [[a q']|]; auto. Qed.
Lemma wlp_assert b q (Q : unit → intq → Prop) : (b = true → Q tt q) → wlp (ASSERT b) q Q.
Proof. unfold wlp, ASSERT. destruct b; simpl; auto. Qed.
Ltac wlp := repeat match goal with
  | |- wlp (_ ≫= _) _ _ => apply wlp_bind
  | |- wlp (ASSERT _) _ _ => apply wlp_assert; intros ?
  | |- wlp (gets _) _ _ => unfold wlp at 1; simpl
  | |- wlp (modify _) _ _ => unfold wlp at 1; simpl
  | |- wlp (mret _) _ _ => unfold wlp at 1; simpl
  end.

Definition same_ring (q q' : intq) : Prop := buf q' = buf q ∧ head q' = head q ∧ tail q' = tail q.

Lemma wlp_signal w q : wlp (signal w) q (λ _ q', same_ring q q').
Proof.
  unfold signal. wlp. destruct (get_waiter w q) as [t|]; [|done].
  wlp. destruct (pc_of q t); try done. by destruct w.
Qed.
Lemma wlp_wait t w byte q : wlp (wait t w byte) q (λ _ q', same_ring q q').
Proof. unfold wait. wlp. by destruct w. Qed.
Lemma wlp_acquire t w byte q : wlp (acquire_and_wait t w byte) q (λ _ q', same_ring q q').
Proof.
  unfold acquire_and_wait. wlp. destruct (lock q); wlp; [done|]. unfold wlp at 1. simpl.
  eapply wlp_mono; [apply wlp_wait|]. done.
Qed.

(** What goes out and in, and what stays. *)
Definition moves (q : intq) (o i : list Z) (q' : intq) : Prop :=
  ring q → ring q' ∧ contents q ++ i = o ++ contents q'.

Lemma moves_same q q1 q' o i : same_ring q1 q' → moves q o i q1 → moves q o i q'.
Proof.
  intros (E1 & E2 & E3) Hm Hr. destruct (Hm Hr) as [Hr1 Hc]. destruct (ring_same q1 q' E1 E2 E3) as (Hiff & Hcc & _).
  split; [by apply Hiff|by rewrite Hcc].
Qed.
Lemma moves_nothing q q' : same_ring q q' → moves q [] [] q'.
Proof. intros H. eapply moves_same; [exact H|]. intros Hr. by rewrite app_nil_r. Qed.

Lemma wlp_take_byte q : intq_empty q = false → wlp take_byte q (λ b q', moves q [b] [] q').
Proof.
  intros He. unfold take_byte. wlp. unfold wlp at 1, the.
  destruct (buf q !! Z.to_nat (tail q)) as [b|] eqn:Hb; [|done]. simpl. wlp.
  eapply wlp_mono; [apply wlp_signal|]. intros [] q' Hs. unfold wlp. simpl. eapply moves_same; [exact Hs|].
  intros Hr. destruct (contents_take q Hr) as (Hr' & Hc & _).
  - pose proof (count_range q). destruct (decide (count q = 0)) as [E|]; [|lia]. apply count_empty in E; congruence.
  - split; [done|]. rewrite app_nil_r, Hc, Hb. done.
Qed.
Lemma wlp_add_byte byte q : intq_full q = false → wlp (add_byte byte) q (λ _ q', moves q [] [byte] q').
Proof.
  intros Hf. unfold add_byte. wlp. unfold wlp at 1, the.
  destruct (buf q !! Z.to_nat (head q)) as [b|] eqn:Hb; [|done]. simpl. wlp. unfold wlp at 1. simpl.
  eapply wlp_mono; [apply wlp_signal|]. intros [] q' Hs. eapply moves_same; [exact Hs|].
  intros Hr. destruct (contents_add byte q Hr) as (Hr' & Hc & _).
  - pose proof (count_range q). destruct (decide (count q = 63)) as [E|]; [|lia]. apply count_full in E; congruence.
  - split; [done|]. exact (eq_sym Hc).
Qed.

Lemma wlp_continue t w byte q : wlp (continue t w byte) q (λ r q', moves q r.1 r.2 q').
Proof.
  unfold continue, getc_loop, putc_loop. destruct w.
  - wlp. destruct (intq_full q) eqn:Hf.
    + wlp. eapply wlp_mono; [apply wlp_acquire|]. intros [] q' Hs. unfold wlp. simpl.
      by apply moves_nothing.
    + wlp. eapply wlp_mono; [by apply wlp_add_byte|]. intros [] q' Hm. unfold wlp. simpl. eapply moves_same; [|exact Hm]. done.
  - wlp. destruct (intq_empty q) eqn:He.
    + wlp. eapply wlp_mono; [apply wlp_acquire|]. intros [] q' Hs. unfold wlp. simpl.
      by apply moves_nothing.
    + wlp. eapply wlp_mono; [by apply wlp_take_byte|]. intros b q' Hm. unfold wlp. simpl. eapply moves_same; [|exact Hm]. done.
Qed.

Lemma moves_handler b q o i q' : moves (set_handler b q) o i q' → moves q o i q'.
Proof. intros Hm [H1 H2 H3]. by apply Hm. Qed.

Lemma wlp_perform e q : wlp (perform e) q (λ r q', moves q r.1 r.2 q').
Proof.
  destruct e as [t|t byte|t|t|t| |byte]; cbn [perform]; try apply wlp_continue.
  - wlp. destruct (pc_of q t); try done. wlp.
    eapply wlp_mono; [apply wlp_wait|]. intros [] q' Hs. unfold wlp. simpl. by apply moves_nothing.
  - wlp. destruct (pc_of q t); try done. wlp. unfold wlp. simpl. by apply moves_nothing.
  - wlp. destruct (pc_of q t); try done. apply wlp_continue.
  - wlp. unfold handler_getc, in_handler. wlp.
    eapply wlp_mono; [apply wlp_take_byte; by apply negb_true_iff|]. intros b q' Hm. unfold wlp. simpl.
    eapply moves_same; [|eapply moves_handler; exact Hm]. done.
  - wlp. unfold handler_putc, in_handler. wlp.
    eapply wlp_mono; [apply wlp_add_byte; by apply negb_true_iff|]. intros b q' Hm. unfold wlp. simpl.
    eapply moves_same; [|eapply moves_handler; exact Hm]. done.
Qed.

(** ** Results *)
Definition ready (q : intq) : Prop := length (buf q) = 64%nat ∧ pcs q = ∅ ∧ handler q = false.

(** C35: an interrupt queue is first in, first out: in every run, by any threads
    and interrupt handlers, the bytes that went in are the bytes that came out
    followed by those in the queue, of which there are at most 63.  Nothing is
    lost, added or reordered. *)
Theorem intq_fifo q0 q1 q out inp :
  ready q0 → intq_init q0 = Ok (tt, q1) → runs q1 q out inp →
  inp = out ++ contents q ∧ Z.of_nat (length (contents q)) ≤ 63.
Proof.
  intros (Hb & _) Hi Hr. unfold intq_init, modify in Hi. injection Hi as <-.
  assert (Hinv : ring q ∧ inp = out ++ contents q).
  { induction Hr as [|q e q' out inp o i Hr [IHr IH] _ Hp]; [by split; [split|]|].
    pose proof (wlp_perform e q) as Hw. unfold wlp in Hw. rewrite Hp in Hw. destruct (Hw IHr) as [Hr' Hc].
    split; [done|]. rewrite IH, <-!app_assoc. f_equal. exact Hc. }
  destruct Hinv as [Hr' ->]. split; [done|]. unfold contents. rewrite length_fmap, length_seqZ.
  pose proof (count_range q). lia.
Qed.

(** A run given by its events. *)
Fixpoint play (es : list event) (q : intq) : option (intq * list Z * list Z) :=
  match es with
  | [] => Some (q, [], [])
  | e :: es =>
      if enabled q e then
        match perform e q with
        | Ok ((o, i), q') => '(q2, o', i') ← play es q'; Some (q2, o ++ o', i ++ i')
        | Err _ => None
        end
      else None
  end.
Lemma play_runs es q0 q out inp q' o i :
  runs q0 q out inp → play es q = Some (q', o, i) → runs q0 q' (out ++ o) (inp ++ i).
Proof.
  revert q out inp o i. induction es as [|e es IH]; intros q out inp o i Hr Hp; simpl in Hp.
  - injection Hp as <- <- <-. by rewrite !app_nil_r.
  - destruct (enabled q e) eqn:He; [|done]. destruct (perform e q) as [[[o1 i1] q1]|] eqn:H1; [|done].
    destruct (play es q1) as [[[q2 o2] i2]|] eqn:H2; [|done]. simpl in Hp. injection Hp as <- <- <-.
    rewrite !app_assoc. eapply IH; [|exact H2]. by eapply runs_step.
Qed.

Definition ex_queue : intq := Intq None None None (replicate 64 0) 0 0 ∅ false.

(** A thread waits, an interrupt handler adds two bytes, the thread takes one. *)
Lemma intq_fifo_witness :
  ∃ q, runs ex_queue q [5] [5; 6] ∧ [5; 6] = [5] ++ contents q.
Proof.
  destruct (play [Getc 1; IrqPutc 5; IrqPutc 6; Resume 1; Again 1] ex_queue) as [[[q o] i]|] eqn:E;
    [|vm_compute in E; discriminate E].
  pose proof (play_runs _ ex_queue ex_queue [] [] q o i (runs_refl _) E) as Hr.
  assert (o = [5] ∧ i = [5; 6]) as [-> ->] by (vm_compute in E; injection E as _ <- <-; split; reflexivity).
  exists q. split; [exact Hr|].
  refine (proj1 (intq_fifo ex_queue ex_queue q [5] [5; 6] _ eq_refl Hr)).
  split; [reflexivity|]. split; reflexivity.
Defined.

(** ** One thread and interrupt handlers *)
Section single.
Context (t : Z).

Definition of_client (e : event) : Prop :=
  match e with Getc t' | Putc t' _ | GotLock t' | Resume t' | Again t' => t' = t | IrqGetc | IrqPutc _ => True end.

(** Where the thread is, the lock and the waiters fit together; a thread that
    waits waits for something that has not happened. *)
Record client_ok (q : intq) : Prop := ClientOk {
  co_ring : ring q;
  co_state : match pc_of q t with
    | Outside | Retry _ _ => lock q = None ∧ not_full q = None ∧ not_empty q = None
    | AtLock _ _ => False
    | AtWait w _ => lock q = Some t ∧ must_wait w q = true ∧ ∀ w', get_waiter w' q = if decide (w' = w) then Some t else None
    | Woken _ _ => lock q = Some t ∧ not_full q = None ∧ not_empty q = None
    end }.

Lemma pc_set q p : pc_of (set_pc t p q) t = p.
Proof. unfold pc_of, set_pc. simpl. by rewrite lookup_insert_eq. Qed.

(** [signal] after the ring has changed from [q] to [q1]. *)
Lemma wp_signal w q q1 (Q : unit → intq → Prop) :
  client_ok q → ring q1 → must_wait w q1 = false →
  lock q1 = lock q → not_full q1 = not_full q → not_empty q1 = not_empty q → pcs q1 = pcs q →
  (∀ w' byte, pc_of q t = AtWait w' byte → w' ≠ w → must_wait w' q1 = true) →
  (∀ q', client_ok q' → handler q' = handler q1 → ((∀ w b, pc_of q t ≠ AtWait w b) → pc_of q' t = pc_of q t) → Q tt q') →
  wp (signal w) q1 Q.
Proof.
  intros [Hr Hs] Hr1 Hw El E1 E2 Ep Hother HQ. unfold signal. wp_step. wp_step.
  rewrite Hw. cbn [negb]. wp_step. apply wp_assert; [done|]. wp_step. wp_step.
  assert (Hpc : pc_of q1 t = pc_of q t) by (unfold pc_of; by rewrite Ep).
  assert (Hring : ∀ q', same_ring q1 q' → ring q').
  { intros q' (B1 & B2 & B3). destruct Hr1. split; simpl; congruence. }
  assert (Hgw : get_waiter w q1 = get_waiter w q) by (destruct w; done).
  rewrite Hgw. destruct (get_waiter w q) as [t'|] eqn:Egw.
  - destruct (pc_of q t) as [|w'' b|w'' b|w'' b|w'' b] eqn:Epc; try done; try (by destruct w; destruct Hs as (_ & ? & ?); simpl in *; congruence).
    destruct Hs as (Hl & Hmw & Hgs). rewrite (Hgs w) in Egw. case_decide; [subst w''|done]. injection Egw as <-.
    wp_step. wp_step. rewrite Hpc. wp_steps. apply HQ; [|by destruct w|intros Hno; by destruct (Hno w b)].
    split; [by apply Hring; destruct w|].
    assert (pc_of (set_waiter w None (set_pc t (Woken w b) q1)) t = Woken w b) as ->.
    { unfold pc_of. destruct w; simpl; by rewrite lookup_insert_eq. }
    pose proof (Hgs NotFull) as G1. pose proof (Hgs NotEmpty) as G2. simpl in G1, G2.
    destruct w; [rewrite decide_False in G2 by done|rewrite decide_False in G1 by done]; simpl; split_and!; congruence.
  - wp_steps. apply HQ; [|done|].
    2: { intros _. exact Hpc. }
    split; [by apply Hring|]. rewrite Hpc.
    destruct (pc_of q t) as [|w'' b|w'' b|w'' b|w'' b] eqn:Epc; try done; simpl; rewrite ?El, ?E1, ?E2; try done.
    destruct Hs as (Hl & Hmw & Hgs). rewrite (Hgs w) in Egw. case_decide as Hd; [done|].
    split_and!; [done|apply (Hother w'' b); [done|congruence]|].
    intros w'. specialize (Hgs w'). destruct w'; simpl in *; congruence.
Qed.

Lemma wp_take q (Q : Z → intq → Prop) :
  client_ok q → intq_empty q = false →
  (∀ b q', client_ok q' → handler q' = handler q → ((∀ w b, pc_of q t ≠ AtWait w b) → pc_of q' t = pc_of q t) → Q b q') →
  wp take_byte q Q.
Proof.
  intros Hc He HQ. pose proof (co_ring _ Hc) as Hr.
  assert (0 < count q) as Hn.
  { pose proof (count_range q). destruct (decide (count q = 0)) as [E|]; [|lia]. apply count_empty in E; congruence. }
  destruct (contents_take q Hr Hn) as (Hr' & _ & Hcnt). pose proof (count_range q) as Hrg.
  destruct (lookup_lt_is_Some_2 (buf q) (Z.to_nat (tail q))) as [b Hb]; [destruct Hr; lia|].
  unfold take_byte. wp_step. wp_step. wp_step. eapply wp_the; [exact Hb|]. wp_step. wp_step. wp_step.
  apply (wp_signal NotFull q); try done.
  - destruct (must_wait NotFull (taken q)) eqn:E; [|done]. apply count_full in E; [lia|done].
  - intros [] byte Hpc Hne; [done|]. exfalso. destruct Hc as [_ Hs]. rewrite Hpc in Hs. destruct Hs as (_ & Hmw & _).
    simpl in Hmw. congruence.
  - intros q' Hc' Hh' Hp'. wp_steps. by apply HQ.
Qed.

Lemma wp_add byte q (Q : unit → intq → Prop) :
  client_ok q → intq_full q = false →
  (∀ q', client_ok q' → handler q' = handler q → ((∀ w b, pc_of q t ≠ AtWait w b) → pc_of q' t = pc_of q t) → Q tt q') →
  wp (add_byte byte) q Q.
Proof.
  intros Hc Hf HQ. pose proof (co_ring _ Hc) as Hr.
  assert (count q < 63) as Hn.
  { pose proof (count_range q). destruct (decide (count q = 63)) as [E|]; [|lia]. apply count_full in E; congruence. }
  destruct (contents_add byte q Hr Hn) as (Hr' & _ & Hcnt). pose proof (count_range q) as Hrg.
  destruct (lookup_lt_is_Some_2 (buf q) (Z.to_nat (head q))) as [b Hb]; [destruct Hr; lia|].
  unfold add_byte. wp_step. wp_step. wp_step. eapply wp_the; [exact Hb|]. wp_step. wp_step.
  apply (wp_signal NotEmpty q); try done.
  - intros [] byte' Hpc Hne; [|done]. exfalso. destruct Hc as [_ Hs]. rewrite Hpc in Hs. destruct Hs as (_ & Hmw & _).
    simpl in Hmw. congruence.
Qed.

Lemma wp_wait w byte q (Q : unit → intq → Prop) :
  client_ok q → handler q = false → must_wait w q = true → lock q = None → not_full q = None → not_empty q = None →
  (∀ q', client_ok q' → handler q' = false → Q tt q') →
  wp (acquire_and_wait t w byte) q Q.
Proof.
  intros Hc Hh Hm Hl H1 H2 HQ. unfold acquire_and_wait. wp_step. wp_step. rewrite Hl. wp_step. wp_step. unfold wait.
  wp_step. wp_step. wp_step. apply wp_assert; [simpl; by rewrite Hh|]. wp_step. wp_step. wp_step. apply wp_assert; [by destruct w|].
  wp_steps. apply HQ; [|by destruct w]. destruct Hc as [[R1 R2 R3] _]. split; [by destruct w; split|].
  rewrite pc_set. split_and!; [by destruct w|by destruct w|]. intros []; destruct w; simpl; by rewrite ?H1, ?H2.
Qed.

(** The thread between two calls, or back at its loop. *)
Lemma wp_client_continue w byte q (Q : list Z * list Z → intq → Prop) :
  client_ok q → handler q = false → (pc_of q t = Outside ∨ ∃ w b, pc_of q t = Retry w b) →
  (∀ r q', client_ok q' → handler q' = false → Q r q') → wp (continue t w byte) q Q.
Proof.
  intros Hc Hh Hpc HQ. assert (Hfree : lock q = None ∧ not_full q = None ∧ not_empty q = None ∧ ∀ w b, pc_of q t ≠ AtWait w b).
  { destruct Hc as [_ Hs]. destruct Hpc as [E|(w0 & b0 & E)]; rewrite E in *; destruct Hs as (? & ? & ?); by split_and!. }
  destruct Hfree as (Hl & H1 & H2 & Hno).
  assert (Hdone : ∀ q', client_ok q' → pc_of q' t = pc_of q t → client_ok (set_pc t Outside q')).
  { intros q' [[R1 R2 R3] Hs] E. split; [done|]. rewrite pc_set. rewrite E in Hs. simpl.
    destruct Hpc as [E'|(w0 & b0 & E')]; by rewrite E' in Hs. }
  unfold continue, getc_loop, putc_loop. destruct w.
  - wp_step. wp_step. wp_step. destruct (intq_full q) eqn:Hf.
    + wp_step. wp_step. wp_step. apply wp_assert; [by rewrite Hh|]. wp_step. apply wp_wait; try done.
      intros q' Hc' Hh'. wp_steps. by apply HQ.
    + wp_step. apply wp_add; [done..|]. intros q' Hc' Hh' Hp'. wp_steps. apply HQ; [|simpl; congruence]. apply Hdone; [done|by apply Hp'].
  - wp_step. wp_step. wp_step. destruct (intq_empty q) eqn:He.
    + wp_step. wp_step. wp_step. apply wp_assert; [by rewrite Hh|]. wp_step. apply wp_wait; try done.
      intros q' Hc' Hh'. wp_steps. by apply HQ.
    + wp_step. apply wp_take; [done..|]. intros b q' Hc' Hh' Hp'. wp_steps. apply HQ; [|simpl; congruence]. apply Hdone; [done|by apply Hp'].
Qed.

Lemma wp_client e q :
  client_ok q → handler q = false → of_client e → enabled q e = true →
  wp (perform e) q (λ _ q', client_ok q' ∧ handler q' = false).
Proof.
  intros Hc Hh He Hen. assert (Hhd : client_ok (set_handler true q)) by (destruct Hc as [[] ?]; by split).
  destruct e as [t'|t' byte|t'|t'|t'| |byte]; cbn [of_client perform enabled] in *; subst.
  - destruct (pc_of q t) eqn:Ep; try done. apply wp_client_continue; auto.
  - destruct (pc_of q t) eqn:Ep; try done. apply wp_client_continue; auto.
  - destruct Hc as [_ Hs]. by destruct (pc_of q t).
  - wp_step. wp_step. destruct (pc_of q t) as [| | |w b|] eqn:Ep; try done. pose proof (co_state _ Hc) as Hs. rewrite Ep in Hs.
    destruct Hs as (Hl & H1 & H2). wp_step. wp_step. wp_step. apply wp_assert; [by rewrite Hl, bool_decide_eq_true_2|]. wp_steps.
    split; [|done]. destruct Hc as [[] _]. split; [done|]. rewrite pc_set. done.
  - wp_step. wp_step. destruct (pc_of q t) as [| | | |w b] eqn:Ep; try done. apply wp_client_continue; eauto.
  - unfold handler_getc, in_handler. wp_step. wp_step. wp_step. wp_step. wp_step. wp_step. wp_step. apply wp_assert; [done|].
    apply wp_take; [done|by apply negb_true_iff|]. intros b q' [[] Hs] _ _. wp_steps. split; [|done]. by split.
  - unfold handler_putc, in_handler. wp_step. wp_step. wp_step. wp_step. wp_step. wp_step. wp_step. apply wp_assert; [done|].
    apply wp_add; [done|by apply negb_true_iff|]. intros q' [[] Hs] _ _. wp_steps. split; [|done]. by split.
Qed.
End single.

(** Runs in which only thread [t] and interrupt handlers use the queue. *)
Inductive client_runs (t : Z) (q0 : intq) : intq → Prop :=
| client_refl : client_runs t q0 q0
| client_step q e r q' :
    client_runs t q0 q → of_client t e → enabled q e = true → perform e q = Ok (r, q') → client_runs t q0 q'.

(** When one thread and interrupt handlers use a queue, no step goes wrong
    (no assertion fails, no thread is unblocked that is not blocked), and no
    wake-up is lost: while the thread waits for a byte or for room, the queue is
    empty or full, and the thread is recorded as the one to be woken. *)
Theorem intq_single_client t q0 q1 q :
  ready q0 → intq_init q0 = Ok (tt, q1) → client_runs t q1 q →
  (∀ e, of_client t e → enabled q e = true → ∃ r q', perform e q = Ok (r, q')) ∧
  (∀ w byte, pc_of q t = AtWait w byte → must_wait w q = true ∧ get_waiter w q = Some t).
Proof.
  intros (Hb & Hp & Hh) Hi Hr. unfold intq_init, modify in Hi. injection Hi as <-.
  assert (Hinv : client_ok t q ∧ handler q = false).
  { induction Hr as [|q e r q' Hr [IH IHh] Hc He Hpf].
    - split; [|done]. split; [by split|]. unfold pc_of. simpl. rewrite Hp, lookup_empty. done.
    - pose proof (wp_client t e q IH IHh Hc He) as Hw. unfold wp in Hw. by rewrite Hpf in Hw. }
  destruct Hinv as [Hc Hh']. split.
  - intros e He Hen. pose proof (wp_client t e q Hc Hh' He Hen) as Hw. apply wp_ok in Hw as (r & q' & H & _). by exists r, q'.
  - intros w byte Hpc. destruct Hc as [_ Hs]. rewrite Hpc in Hs. destruct Hs as (_ & Hm & Hg). split; [done|].
    rewrite Hg. by rewrite decide_True.
Qed.

Lemma intq_single_client_witness :
  ∃ q r q', client_runs 1 ex_queue q ∧ pc_of q 1 = AtWait NotEmpty 0 ∧ must_wait NotEmpty q = true ∧
    perform (IrqPutc 5) q = Ok (r, q').
Proof.
  destruct (perform (Getc 1) ex_queue) as [[r0 q]|] eqn:E; [|vm_compute in E; discriminate E].
  assert (client_runs 1 ex_queue q) as Hr by (exact (client_step 1 ex_queue ex_queue (Getc 1) r0 q (client_refl 1 ex_queue) eq_refl eq_refl E)).
  assert (pc_of q 1 = AtWait NotEmpty 0 ∧ enabled q (IrqPutc 5) = true) as [Hpc He]
    by (vm_compute in E; injection E as _ <-; split; reflexivity).
  destruct (intq_single_client 1 ex_queue ex_queue q) as [Hok Hwait]; [split; [reflexivity|split; reflexivity]|reflexivity|exact Hr|].
  destruct (Hok (IrqPutc 5) I He) as (r & q' & H). exists q, r, q'.
  refine (conj Hr (conj Hpc (conj (proj1 (Hwait NotEmpty 0 Hpc)) H))).
Defined.

(** ** What goes wrong

    Two threads wait for bytes, one in [wait], the other for the lock.  Two bytes
    arrive, the first thread wakes up and releases the lock; the second one gets
    it and calls [wait], whose assertion fails: the queue is not empty any more. *)
Lemma intq_two_readers :
  match play [Getc 1; Getc 2; IrqPutc 5; IrqPutc 6; Resume 1] ex_queue with
  | Some (q, _, _) => enabled q (GotLock 2) = true ∧ perform (GotLock 2) q = Err EAssert
  | None => False
  end.
Proof. vm_compute. split; reflexivity. Qed.
