(* ===== verification/Inode.v ===== *)
(** * filesys/inode.c and filesys/free-map.c

    Inodes on a device of sectors, as one thread sees them.  The state is what
    the file system keeps in memory: the block devices, the free map and the
    file it is kept in, the inodes, open files and directories by address (0 is
    the null pointer, and an address that has been freed is not used again).

    An on-disk inode or an indirect block is a list of 128 words.  Arrays on the
    stack start out with whatever the stack holds ([stack]), and an access past
    their end is a fault.  Whether the next calls of [malloc] succeed is part of
    the state ([memory]: one outcome for each call, then success).  An inode's
    lock is held or not, with the assertions of [lock_acquire] and
    [lock_release].

    The free map is kept in a file, so allocating a sector may write to an inode,
    which may allocate sectors.  The operations take the function that writes to
    the free map's inode as an argument, and [inode_write_at] ties the knot. *)
From S2P Require Import Prelude Block Bitmap.
Local Open Scope Z_scope.

Definition INODE_MAGIC : Z := 0x494e4f44.
Definition DIRECT_NUM : Z := 10.
Definition BLOCKS_IN_INDIRECT : Z := 128.
Definition FREE_MAP_SECTOR : Z := 0.
Definition ROOT_DIR_SECTOR : Z := 1.

(** ** On-disk inodes: [struct inode_disk] as its words *)
Definition word (d : list Z) (i : Z) : Z := default 0 (d !! Z.to_nat i).
Definition set_word (i v : Z) (d : list Z) : list Z := <[Z.to_nat i := u32 v]> d.
Definition direct_block (d : list Z) (i : Z) : Z := word d i.
Definition indirect_block (d : list Z) : Z := word d 10.
Definition double_indirect_block (d : list Z) : Z := word d 11.
Definition isdir (d : list Z) : bool := negb (word d 12 `mod` 256 =? 0).
Definition eof (d : list Z) : Z := s32 (word d 13).
Definition length_of (d : list Z) : Z := s32 (word d 14).
Definition magic (d : list Z) : Z := word d 15.

Definition words_bytes (ws : list Z) : list Z := mjoin (word_bytes <$> ws).

(** [DIV_ROUND_UP (size, BLOCK_SECTOR_SIZE)] in [int], then a [size_t]. *)
Definition bytes_to_sectors (size : Z) : Z := u32 (Z.quot (s32 (s32 (size + 512) - 1)) 512).

(** ** State *)
Record inode := Inode {
  isector : Z; open_cnt : Z; removed : bool; deny_write_cnt : Z; data : list Z; inode_lock : bool }.
Record file := File { finode : Z; fpos : Z; deny_write : bool }.
Record dir := Dir { dinode : Z; dpos : Z }.

Record fs := Fs {
  dev : blocks; fs_device : nat;
  free_map : bitmap; free_map_file : Z;
  inodes : gmap Z inode; open_inodes : list Z;
  files : gmap Z file; dirs : gmap Z dir; current_directory : Z;
  next : Z; memory : list bool; stack : list Z }.

Definition set_dev (x : blocks) (s : fs) : fs :=
  Fs x (fs_device s) (free_map s) (free_map_file s) (inodes s) (open_inodes s) (files s) (dirs s)
    (current_directory s) (next s) (memory s) (stack s).
Definition set_free_map (x : bitmap) (s : fs) : fs :=
  Fs (dev s) (fs_device s) x (free_map_file s) (inodes s) (open_inodes s) (files s) (dirs s)
    (current_directory s) (next s) (memory s) (stack s).
Definition set_free_map_file (x : Z) (s : fs) : fs :=
  Fs (dev s) (fs_device s) (free_map s) x (inodes s) (open_inodes s) (files s) (dirs s)
    (current_directory s) (next s) (memory s) (stack s).
Definition set_inodes (x : gmap Z inode) (s : fs) : fs :=
  Fs (dev s) (fs_device s) (free_map s) (free_map_file s) x (open_inodes s) (files s) (dirs s)
    (current_directory s) (next s) (memory s) (stack s).
Definition set_open_inodes (x : list Z) (s : fs) : fs :=
  Fs (dev s) (fs_device s) (free_map s) (free_map_file s) (inodes s) x (files s) (dirs s)
    (current_directory s) (next s) (memory s) (stack s).
Definition set_files (x : gmap Z file) (s : fs) : fs :=
  Fs (dev s) (fs_device s) (free_map s) (free_map_file s) (inodes s) (open_inodes s) x (dirs s)
    (current_directory s) (next s) (memory s) (stack s).
Definition set_dirs (x : gmap Z dir) (s : fs) : fs :=
  Fs (dev s) (fs_device s) (free_map s) (free_map_file s) (inodes s) (open_inodes s) (files s) x
    (current_directory s) (next s) (memory s) (stack s).
Definition set_current_directory (x : Z) (s : fs) : fs :=
  Fs (dev s) (fs_device s) (free_map s) (free_map_file s) (inodes s) (open_inodes s) (files s) (dirs s)
    x (next s) (memory s) (stack s).
Definition set_heap (n : Z) (m : list bool) (s : fs) : fs :=
  Fs (dev s) (fs_device s) (free_map s) (free_map_file s) (inodes s) (open_inodes s) (files s) (dirs s)
    (current_directory s) n m (stack s).

Definition on_dev {A} (m : M blocks A) : M fs A := zoom dev set_dev m.
Definition on_map {A} (m : M bitmap A) : M fs A := zoom free_map set_free_map m.

(** [malloc]: a fresh address, or a null pointer. *)
Definition malloc : M fs Z :=
  m ← gets memory; a ← gets next;
  match m with
  | [] => modify (set_heap (a + 1) []) ;; mret a
  | true :: r => modify (set_heap (a + 1) r) ;; mret a
  | false :: r => modify (set_heap a r) ;; mret 0
  end.

(** [block_read (fs_device, sector, ...)] and [block_write (fs_device, ...)]. *)
Definition fs_read (sector : Z) : M fs (list Z) := d ← gets fs_device; on_dev (block_read d sector).
Definition fs_write (sector : Z) (buffer : list Z) : M fs unit :=
  d ← gets fs_device; on_dev (block_write d sector buffer).
Definition fs_read_words (sector : Z) : M fs (list Z) := bs ← fs_read sector; mret (bytes_words bs).
Definition fs_write_words (sector : Z) (ws : list Z) : M fs unit := fs_write sector (words_bytes ws).

Definition get_inode (p : Z) : M fs inode := m ← gets inodes; the (m !! p).
Definition put_inode (p : Z) (i : inode) : M fs unit := modify (λ s, set_inodes (<[p := i]> (inodes s)) s).
Definition get_file (p : Z) : M fs file := m ← gets files; the (m !! p).
Definition put_file (p : Z) (f : file) : M fs unit := modify (λ s, set_files (<[p := f]> (files s)) s).

Definition set_data (d : list Z) (i : inode) : inode :=
  Inode (isector i) (open_cnt i) (removed i) (deny_write_cnt i) d (inode_lock i).
Definition set_lock (b : bool) (i : inode) : inode :=
  Inode (isector i) (open_cnt i) (removed i) (deny_write_cnt i) (data i) b.

Definition inode_lock_acquire (p : Z) : M fs unit :=
  i ← get_inode p; ASSERT (negb (inode_lock i)) ;; put_inode p (set_lock true i).
Definition inode_lock_release (p : Z) : M fs unit :=
  i ← get_inode p; ASSERT (inode_lock i) ;; put_inode p (set_lock false i).

Definition inode_length (p : Z) : M fs Z := i ← get_inode p; mret (length_of (data i)).
Definition inode_isdir (p : Z) : M fs bool := i ← get_inode p; mret (isdir (data i)).
Definition inode_is_open (p : Z) : M fs bool := i ← get_inode p; mret (1 <? open_cnt i).
Definition inode_get_inumber (p : Z) : M fs Z := i ← get_inode p; mret (isector i).

(** ** Reading *)
Definition byte_to_sector (p pos : Z) : M fs Z :=
  ASSERT (negb (p =? 0)) ;;
  i ← get_inode p;
  if pos <=? length_of (data i) then
    let sectors := u32 (Z.quot pos BLOCK_SECTOR_SIZE) in
    if sectors <? DIRECT_NUM then mret (direct_block (data i) sectors)
    else if sectors <? BLOCKS_IN_INDIRECT + DIRECT_NUM then
      buffer ← fs_read_words (indirect_block (data i));
      the (buffer !! Z.to_nat (sectors - DIRECT_NUM))
    else
      buffer ← fs_read_words (double_indirect_block (data i));
      let current_indirect := (sectors - DIRECT_NUM - BLOCKS_IN_INDIRECT) `div` BLOCKS_IN_INDIRECT in
      b ← the (buffer !! Z.to_nat current_indirect);
      buffer2 ← fs_read_words b;
      the (buffer2 !! Z.to_nat ((sectors - DIRECT_NUM - BLOCKS_IN_INDIRECT) `mod` BLOCKS_IN_INDIRECT))
  else mret (u32 (-1)).

(** Bytes [from], [from + 1], ... of a buffer, [n] of them. *)
Definition slice (buffer : list Z) (from n : Z) : option (list Z) :=
  if from + n <=? Z.of_nat (length buffer)
  then Some (take (Z.to_nat n) (drop (Z.to_nat from) buffer)) else None.

(** The bytes that [inode_read_at] puts in the caller's buffer; their number is
    what it returns.  [bounce] says whether the bounce buffer is allocated. *)
Definition inode_read_at (p size offset : Z) : M fs (list Z) :=
  loop (S (Z.to_nat size)) (λ '(size, offset, out, bounce),
    if 0 <? size then
      sector_idx ← byte_to_sector p offset;
      let sector_ofs := Z.rem offset BLOCK_SECTOR_SIZE in
      i ← get_inode p;
      let inode_left := s32 (eof (data i) - offset) in
      let sector_left := BLOCK_SECTOR_SIZE - sector_ofs in
      let min_left := if inode_left <? sector_left then inode_left else sector_left in
      let chunk_size := if size <? min_left then size else min_left in
      if chunk_size <=? 0 then mret (inr out)
      else if (sector_ofs =? 0) && (chunk_size =? BLOCK_SECTOR_SIZE) then
        bs ← fs_read sector_idx;
        mret (inl (size - chunk_size, offset + chunk_size, out ++ bs, bounce))
      else
        bounce ← (if (bounce : bool) then mret true else b ← malloc; mret (negb (b =? 0)));
        if (bounce : bool) then
          bs ← fs_read sector_idx;
          chunk ← the (slice bs sector_ofs chunk_size);
          mret (inl (size - chunk_size, offset + chunk_size, out ++ chunk, true))
        else mret (inr out)
    else mret (inr out)) (size, offset, [], false).

(** [static char zeros[BLOCK_SECTOR_SIZE]] *)
Definition zeros : list Z := replicate 512 0.

(** ** Writing the data *)

(** The lock of a directory's inode is acquired and released by the directory
    operation. *)
Definition lock_file (p : Z) : M fs unit :=
  dir ← inode_isdir p; if negb dir then inode_lock_acquire p else mret tt.
Definition unlock_file (p : Z) : M fs unit :=
  dir ← inode_isdir p; if negb dir then inode_lock_release p else mret tt.

(** [block_write (fs_device, inode->sector, inode_disk); block_read (fs_device,
    inode->sector, &inode->data);] *)
Definition update_inode (p : Z) (inode_disk : list Z) : M fs unit :=
  i ← get_inode p;
  fs_write_words (isector i) inode_disk ;;
  d ← fs_read_words (isector i);
  i ← get_inode p;
  put_inode p (set_data d i).

(** The part of a sector that one turn of the [while] loop writes; [None] when
    there is no memory for the bounce buffer, which ends the loop. *)
Definition write_chunk (sector_idx : Z) (buffer : list Z) (bytes_written sector_ofs chunk_size : Z)
    (bounce : bool) : M fs (option bool) :=
  let sector_left := BLOCK_SECTOR_SIZE - sector_ofs in
  if (sector_ofs =? 0) && (chunk_size =? BLOCK_SECTOR_SIZE) then
    fs_write sector_idx (drop (Z.to_nat bytes_written) buffer) ;; mret (Some bounce)
  else
    bounce ← (if bounce then mret true else b ← malloc; mret (negb (b =? 0)));
    if (bounce : bool) then
      bs ← (if (0 <? sector_ofs) || (chunk_size <? sector_left) then fs_read sector_idx else mret zeros);
      chunk ← the (slice buffer bytes_written chunk_size);
      fs_write sector_idx (take (Z.to_nat sector_ofs) bs ++ chunk
                           ++ drop (Z.to_nat (sector_ofs + chunk_size)) bs) ;;
      mret (Some true)
    else mret None.

(** The [while] loop of [inode_write_at]; the number of bytes written. *)
Definition write_data (p : Z) (buffer : list Z) (size offset : Z) : M fs Z :=
  loop (S (Z.to_nat size)) (λ '(size, offset, bytes_written, bounce),
    if 0 <? size then
      sector_idx ← byte_to_sector p offset;
      let sector_ofs := Z.rem offset BLOCK_SECTOR_SIZE in
      len ← inode_length p;
      let inode_left := s32 (len - offset) in
      let sector_left := BLOCK_SECTOR_SIZE - sector_ofs in
      let min_left := if inode_left <? sector_left then inode_left else sector_left in
      let chunk_size := if size <? min_left then size else min_left in
      if chunk_size <=? 0 then mret (inr bytes_written)
      else
        r ← write_chunk sector_idx buffer bytes_written sector_ofs chunk_size bounce;
        match r with
        | None => mret (inr bytes_written)
        | Some bounce =>
            mret (inl (size - chunk_size, offset + chunk_size, bytes_written + chunk_size, bounce))
        end
    else mret (inr bytes_written)) (size, offset, 0, false).

(** ** The free map and allocation, given [write_at], the function that writes
    to the inode of the free map's file *)
Section allocation.
Variable write_at : Z → list Z → Z → Z → M fs Z.

(** [bitmap_write (free_map, free_map_file)], with lib/kernel/bitmap.c's
    [bitmap_write] on the file of the free map. *)
Definition free_map_write : M fs bool := λ s,
  match bitmap_write (λ bytes,
      match (f ← get_file (free_map_file s); write_at (finode f) bytes (Z.of_nat (length bytes)) 0) s with
      | Ok (n, s') => (Ok s', n)
      | Err e => (Err e, 0)
      end) (free_map s) with
  | Ok ((Ok s', ok), _) => Ok (ok, s')
  | Ok ((Err e, _), _) => Err e
  | Err e => Err e
  end.

(** The allocated sector: what is stored in [*sectorp] when the result is true. *)
Definition allocate_with (cnt : Z) : M fs (option Z) :=
  sector ← on_map (bitmap_scan_and_flip 0 cnt false);
  file ← gets free_map_file;
  sector ←
    (if negb (sector =? BITMAP_ERROR) && negb (file =? 0) then
       ok ← free_map_write;
       if negb ok then on_map (bitmap_set_multiple sector cnt false) ;; mret BITMAP_ERROR
       else mret sector
     else mret sector);
  mret (if negb (sector =? BITMAP_ERROR) then Some sector else None).

(** [memset (buffer, 0, BLOCKS_IN_INDIRECT)] clears 128 bytes: the first 32 of
    the 128 words. *)
Definition new_buffer (stack : list Z) : list Z := replicate 32 0 ++ drop 32 stack.

Definition indirect_with (current_sectors sectors_to_add indirect_block : Z) : M fs Z :=
  st ← gets stack;
  '(indirect_block, buffer) ←
    (if indirect_block =? 0 then
       a ← allocate_with 1;
       mret (default 0 a, new_buffer st)
     else buffer ← fs_read_words indirect_block; mret (indirect_block, buffer));
  if indirect_block =? 0 then mret 0
  else
    buffer ← loop (S (Z.to_nat sectors_to_add)) (λ '(buffer, current_sectors, sectors_to_add),
      if 0 <? sectors_to_add then
        a ← allocate_with 1;
        match a with
        | None => mret (inr buffer)
        | Some sector =>
            the (buffer !! Z.to_nat current_sectors) ;;
            fs_write sector zeros ;;
            mret (inl (<[Z.to_nat current_sectors := sector]> buffer,
                       current_sectors + 1, sectors_to_add - 1))
        end
      else mret (inr buffer)) (buffer, current_sectors, sectors_to_add);
    fs_write_words indirect_block buffer ;;
    mret indirect_block.

Definition double_indirect_with (current_sectors sectors_to_add double_indirect_block : Z) : M fs Z :=
  st ← gets stack;
  '(double_indirect_block, buffer) ←
    (if double_indirect_block =? 0 then
       a ← allocate_with 1;
       mret (default 0 a, new_buffer st)
     else buffer ← fs_read_words double_indirect_block; mret (double_indirect_block, buffer));
  if double_indirect_block =? 0 then mret 0
  else
    buffer ← loop (S (Z.to_nat sectors_to_add)) (λ '(buffer, current_sectors, sectors_to_add),
      if 0 <? sectors_to_add then
        let current_indirect := current_sectors `div` BLOCKS_IN_INDIRECT in
        let remaining_sectors := BLOCKS_IN_INDIRECT - current_sectors `mod` BLOCKS_IN_INDIRECT in
        let sectors := if sectors_to_add <? remaining_sectors then sectors_to_add else remaining_sectors in
        b ← the ((buffer : list Z) !! Z.to_nat current_indirect);
        b' ← indirect_with (current_sectors `mod` BLOCKS_IN_INDIRECT) sectors b;
        mret (inl (<[Z.to_nat current_indirect := b']> buffer,
                   current_sectors + sectors, sectors_to_add - sectors))
      else mret (inr buffer)) (buffer, current_sectors, sectors_to_add);
    fs_write_words double_indirect_block buffer ;;
    mret double_indirect_block.

(** The result and the changed [*disk_inode]. *)
Definition sector_allocate_with (sectors_to_add : Z) (disk_inode : list Z) : M fs (bool * list Z) :=
  let current_sectors := bytes_to_sectors (length_of disk_inode) in
  if DIRECT_NUM + BLOCKS_IN_INDIRECT + BLOCKS_IN_INDIRECT * BLOCKS_IN_INDIRECT
     <? u32 (current_sectors + sectors_to_add)
  then mret (false, disk_inode)
  else if sectors_to_add =? 0 then mret (true, disk_inode)
  else
    '(ok, disk_inode, current_sectors, sectors_to_add) ←
      loop 11 (λ '(disk_inode, current_sectors, sectors_to_add),
        if (0 <? sectors_to_add) && (current_sectors <? DIRECT_NUM) then
          a ← allocate_with 1;
          match a with
          | None => mret (inr (false, disk_inode, current_sectors, sectors_to_add))
          | Some sector =>
              fs_write sector zeros ;;
              mret (inl (set_word current_sectors sector disk_inode,
                         current_sectors + 1, sectors_to_add - 1))
          end
        else mret (inr (true, disk_inode, current_sectors, sectors_to_add)))
        (disk_inode, current_sectors, sectors_to_add);
    if negb ok then mret (false, disk_inode)
    else
      '(ok, disk_inode, current_sectors, sectors_to_add) ←
        (if (0 <? sectors_to_add) && (current_sectors <? DIRECT_NUM + BLOCKS_IN_INDIRECT) then
           let sectors := if BLOCKS_IN_INDIRECT <? sectors_to_add then BLOCKS_IN_INDIRECT
                          else sectors_to_add in
           b ← indirect_with (current_sectors - DIRECT_NUM) sectors (indirect_block disk_inode);
           mret (negb (b =? 0), set_word 10 b disk_inode,
                 current_sectors + sectors, sectors_to_add - sectors)
         else mret (true, disk_inode, current_sectors, sectors_to_add));
      if negb ok then mret (false, disk_inode)
      else if 0 <? sectors_to_add then
        b ← double_indirect_with (u32 (current_sectors - DIRECT_NUM - BLOCKS_IN_INDIRECT))
              sectors_to_add (double_indirect_block disk_inode);
        mret (negb (b =? 0), set_word 11 b disk_inode)
      else mret (true, disk_inode).

(** ** Writing *)

(** The part of [inode_write_at] under the inode's lock, which makes the file
    long enough; the result is [*inode_disk]. *)
Definition extend_with (p new_length : Z) : M fs (list Z) :=
  lock_file p ;;
  i ← get_inode p;
  let current_sectors := bytes_to_sectors (length_of (data i)) in
  let future_sectors := bytes_to_sectors new_length in
  m ← malloc;
  if m =? 0 then throw EFault
  else
    inode_disk ← fs_read_words (isector i);
    inode_disk ←
      (if current_sectors <? future_sectors then
         '(_, inode_disk) ← sector_allocate_with (future_sectors - current_sectors) inode_disk;
         mret inode_disk
       else mret inode_disk);
    inode_disk ←
      (if length_of inode_disk <? new_length then
         update_inode p (set_word 14 new_length inode_disk) ;;
         mret (set_word 14 new_length inode_disk)
       else mret inode_disk);
    unlock_file p ;;
    mret inode_disk.

Definition inode_write_body (p : Z) (buffer : list Z) (size offset : Z) : M fs Z :=
  i ← get_inode p;
  if negb (deny_write_cnt i =? 0) then mret 0
  else
    let new_length := s32 (offset + size) in
    inode_disk ← extend_with p new_length;
    bytes_written ← write_data p buffer size offset;
    (if eof inode_disk <? new_length then update_inode p (set_word 13 new_length inode_disk)
     else mret tt) ;;
    mret bytes_written.
End allocation.

(** The free map's file is written by [inode_write_at] too.  Three levels are all
    there can be: a write to a file that grows writes the free map, and if the
    free map's own file had to grow as well, the next write of it would find its
    lock taken. *)
Fixpoint write_at (depth : nat) (p : Z) (buffer : list Z) (size offset : Z) : M fs Z :=
  match depth with
  | O => throw EFuel
  | S n => inode_write_body (write_at n) p buffer size offset
  end.
Definition inode_write_at (p : Z) (buffer : list Z) (size offset : Z) : M fs Z :=
  write_at 3 p buffer size offset.

Definition free_map_allocate (cnt : Z) : M fs (option Z) := allocate_with inode_write_at cnt.
Definition indirect_block_allocate := indirect_with inode_write_at.
Definition double_indirect_block_allocate := double_indirect_with inode_write_at.
Definition sector_allocate := sector_allocate_with inode_write_at.

Definition free_map_release (sector cnt : Z) : M fs unit :=
  all ← on_map (bitmap_all sector cnt);
  ASSERT all ;;
  on_map (bitmap_set_multiple sector cnt false) ;;
  free_map_write inode_write_at ;;
  mret tt.

(** ** Creating, opening and closing *)
Definition inode_init : M fs unit := modify (set_open_inodes []).

Definition inode_create (sector length : Z) (isdir : bool) : M fs bool :=
  ASSERT (0 <=? length) ;;
  m ← malloc;
  if m =? 0 then mret false
  else
    let sectors := bytes_to_sectors length in
    let disk_inode := set_word 12 (if isdir then 1 else 0)
      (set_word 15 INODE_MAGIC (set_word 14 0 (replicate 128 0))) in
    '(ok, disk_inode) ← sector_allocate sectors disk_inode;
    if (ok : bool) then
      fs_write_words sector (set_word 13 length (set_word 14 length disk_inode)) ;;
      mret true
    else mret false.

Definition inode_reopen (p : Z) : M fs Z :=
  if p =? 0 then mret 0
  else
    i ← get_inode p;
    put_inode p (Inode (isector i) (s32 (open_cnt i + 1)) (removed i) (deny_write_cnt i) (data i)
                       (inode_lock i)) ;;
    mret p.

(** The walk along [open_inodes]. *)
Fixpoint find_open (sector : Z) (ps : list Z) : M fs (option Z) :=
  match ps with
  | [] => mret None
  | p :: r => i ← get_inode p; if isector i =? sector then mret (Some p) else find_open sector r
  end.

Definition inode_open (sector : Z) : M fs Z :=
  ps ← gets open_inodes;
  o ← find_open sector ps;
  match o with
  | Some p => inode_reopen p
  | None =>
      p ← malloc;
      if p =? 0 then mret 0
      else
        modify (λ s, set_open_inodes (p :: open_inodes s) s) ;;
        d ← fs_read_words sector;
        put_inode p (Inode sector 1 false 0 d false) ;;
        mret p
  end.

(** [while (i < BLOCKS_IN_INDIRECT && buffer[i] != 0) { visit (buffer[i]); i++; }] *)
Definition release_loop (buffer : list Z) (visit : Z → M fs unit) : M fs Z :=
  loop 129 (λ i,
    if i <? BLOCKS_IN_INDIRECT then
      b ← the (buffer !! Z.to_nat i);
      if negb (b =? 0) then visit b ;; mret (inl (i + 1)) else mret (inr i)
    else mret (inr i)) 0.

Definition inode_close (p : Z) : M fs unit :=
  if p =? 0 then mret tt
  else
    i ← get_inode p;
    let inode := Inode (isector i) (s32 (open_cnt i - 1)) (removed i) (deny_write_cnt i) (data i)
                       (inode_lock i) in
    put_inode p inode ;;
    if negb (open_cnt inode =? 0) then mret tt
    else
      modify (λ s, set_open_inodes (filter (λ q, q ≠ p) (open_inodes s)) s) ;;
      (if removed inode then
         free_map_release (isector inode) 1 ;;
         (* at [i = DIRECT_NUM] the next test reads the word after the array: [indirect_block] *)
         i ← loop 11 (λ i,
           if (i <? DIRECT_NUM) && negb (direct_block (data inode) i =? 0) then
             free_map_release (direct_block (data inode) i) 1 ;; mret (inl (i + 1))
           else mret (inr i)) 0;
         st ← gets stack;
         '(i, buffer) ←
           (if negb (direct_block (data inode) i =? 0) && negb (indirect_block (data inode) =? 0) then
              buffer ← fs_read_words (indirect_block (data inode));
              i ← release_loop buffer (λ b, free_map_release b 1);
              free_map_release (indirect_block (data inode)) 1 ;;
              mret (i, buffer)
            else mret (i, st));
         b ← the ((buffer : list Z) !! Z.to_nat i);
         if negb (b =? 0) && negb (double_indirect_block (data inode) =? 0) then
           buffer ← fs_read_words (double_indirect_block (data inode));
           release_loop buffer (λ b,
             buffer2 ← fs_read_words b;
             release_loop buffer2 (λ b2, free_map_release b2 1) ;;
             free_map_release b 1) ;;
           free_map_release (double_indirect_block (data inode)) 1
         else mret tt
       else mret tt) ;;
      modify (λ s, set_inodes (delete p (inodes s)) s).

Definition inode_is_removed (p : Z) : M fs bool :=
  ASSERT (negb (p =? 0)) ;; i ← get_inode p; mret (removed i).
Definition inode_remove (p : Z) : M fs unit :=
  ASSERT (negb (p =? 0)) ;;
  i ← get_inode p;
  put_inode p (Inode (isector i) (open_cnt i) true (deny_write_cnt i) (data i) (inode_lock i)).

Definition set_deny_cnt (n : Z) (i : inode) : inode :=
  Inode (isector i) (open_cnt i) (removed i) n (data i) (inode_lock i).
Definition inode_deny_write (p : Z) : M fs unit :=
  i ← get_inode p;
  put_inode p (set_deny_cnt (s32 (deny_write_cnt i + 1)) i) ;;
  i ← get_inode p;
  ASSERT (deny_write_cnt i <=? open_cnt i).
Definition inode_allow_write (p : Z) : M fs unit :=
  i ← get_inode p;
  ASSERT (0 <? deny_write_cnt i) ;;
  ASSERT (deny_write_cnt i <=? open_cnt i) ;;
  put_inode p (set_deny_cnt (s32 (deny_write_cnt i - 1)) i).
