(* ===== verification/InodeFacts.v ===== *)
(** * Files as sequences of bytes

    The disk as a function from sectors to their contents ([img]), the sectors
    an inode leads to ([sector_of]), and the specifications of reading and of
    writing within a file against them.  [touched] says what an operation leaves
    behind in the state. *)
From S2P Require Import Prelude Block BlockFacts Bitmap BitmapFacts Inode.
Local Open Scope Z_scope.

Definition image : Type := Z → option (list Z).
Definition img (s : fs) : image := sector (dev s) (fs_device s).
Definition upd (g : image) (k : Z) (bs : list Z) : image := λ j, if decide (j = k) then Some bs else g j.

(** Every sector holds 512 bytes. *)
Definition disk_ok (g : image) : Prop :=
  ∀ k bs, g k = Some bs → length bs = 512%nat ∧ Forall is_byte bs.
Definition words_at (g : image) (k : Z) : option (list Z) := bytes_words <$> g k.

(** The sector with the [n]-th 512 bytes of the file of the inode [d], and the
    sectors that are read to find it. *)
Definition sector_of (g : image) (d : list Z) (n : Z) : option Z :=
  if n <? 10 then Some (direct_block d n)
  else if n <? 138 then ws ← words_at g (indirect_block d); ws !! Z.to_nat (n - 10)
  else
    ws ← words_at g (double_indirect_block d);
    b ← ws !! Z.to_nat ((n - 138) `div` 128);
    ws2 ← words_at g b;
    ws2 !! Z.to_nat ((n - 138) `mod` 128).
Definition meta_of (g : image) (d : list Z) (n : Z) : list Z :=
  if n <? 10 then []
  else if n <? 138 then [indirect_block d]
  else double_indirect_block d ::
    match words_at g (double_indirect_block d) with
    | Some ws => option_list (ws !! Z.to_nat ((n - 138) `div` 128))
    | None => []
    end.

Definition byte_at (g : image) (d : list Z) (x : Z) : option Z :=
  k ← sector_of g d (x `div` 512); bs ← g k; bs !! Z.to_nat (x `mod` 512).
(** [bs] is what the first [length bs] bytes of the file are. *)
Definition contents (g : image) (d : list Z) (bs : list Z) : Prop :=
  ∀ x : nat, (x < length bs)%nat → byte_at g d (Z.of_nat x) = bs !! x.

(** ** States *)
Definition ready (s : fs) : Prop :=
  memory s = [] ∧ 0 < next s ∧ device (dev s) (fs_device s) ∧ disk_ok (img s).

Record touched (s s' : fs) (g : image) (b : bitmap) (m : gmap Z inode) : Prop := Touched {
  t_ready : ready s';
  t_device : fs_device s' = fs_device s;
  t_file : free_map_file s' = free_map_file s;
  t_open : open_inodes s' = open_inodes s;
  t_files : files s' = files s;
  t_dirs : dirs s' = dirs s;
  t_cwd : current_directory s' = current_directory s;
  t_stack : stack s' = stack s;
  t_next : next s ≤ next s';
  t_map : free_map s' = b;
  t_inodes : inodes s' = m;
  t_dom : ∀ k, is_Some (img s' k) ↔ is_Some (img s k);
  t_img : ∀ k, img s' k = g k }.
(** Nothing that matters has changed. *)
Definition quiet (s s' : fs) : Prop := touched s s' (img s) (free_map s) (inodes s).

Lemma touched_trans s1 s2 s3 g b m g' b' m' :
  touched s1 s2 g b m → touched s2 s3 g' b' m' → touched s1 s3 g' b' m'.
Proof.
  intros H1 H2. assert (Hd : ∀ k, is_Some (img s3 k) ↔ is_Some (img s1 k)).
  { intros k. by rewrite (t_dom _ _ _ _ _ H2), (t_dom _ _ _ _ _ H1). }
  destruct H1, H2. split; try done; try congruence; lia.
Qed.
Lemma touched_ext s s' g g' b m : touched s s' g b m → (∀ k, g k = g' k) → touched s s' g' b m.
Proof. intros H Hg. destruct H. split; try done. intros k. by rewrite <-Hg. Qed.
Lemma quiet_refl s : ready s → quiet s s.
Proof. by split. Qed.
Lemma quiet_l s1 s2 s3 g b m : quiet s1 s2 → touched s2 s3 g b m → touched s1 s3 g b m.
Proof. apply touched_trans. Qed.
Lemma quiet_r s1 s2 s3 g b m : touched s1 s2 g b m → quiet s2 s3 → touched s1 s3 g b m.
Proof.
  intros H1 H2. pose proof (touched_trans _ _ _ _ _ _ _ _ _ H1 H2) as H3.
  destruct H1 as [?????????? Hm ? Hg]. destruct H3 as [?????????? Hi3 ? Hg3].
  split; try done; [congruence..|]. intros k. by rewrite Hg3, Hg.
Qed.
Lemma quiet_trans s1 s2 s3 : quiet s1 s2 → quiet s2 s3 → quiet s1 s3.
Proof. apply quiet_r. Qed.

(** ** Single operations *)
Section operations.
Implicit Types (s : fs) (g : image).

Lemma wp_fs_malloc s (Q : Z → fs → Prop) :
  ready s → (∀ s', quiet s s' → next s' = next s + 1 → Q (next s) s') → wp malloc s Q.
Proof.
  intros (Hm & Hn & Hd & Ho) HQ. unfold malloc. wp_steps. rewrite Hm. wp_steps. apply HQ; [|done].
  split; try done; simpl; [|lia]. split_and!; [done| |done|done]. simpl. lia.
Qed.

Lemma wp_fs_read s k bs (Q : list Z → fs → Prop) :
  ready s → img s k = Some bs → (∀ s', quiet s s' → next s' = next s → Q bs s') → wp (fs_read k) s Q.
Proof.
  intros (Hm & Hn & Hd & Ho) Hk HQ. unfold fs_read, on_dev. wp_steps.
  eapply wp_block_read; [exact Hk|]. intros t Hr Hs Hl. apply HQ; [|done].
  assert (∀ k, img (set_dev t s) k = img s k) as Hi by (intros k'; apply Hs).
  split; try done.
  2: { intros k'. by rewrite Hi. }
  split_and!; [done..| |].
  - simpl. by eapply writable_same.
  - intros k' bs'. rewrite Hi. apply Ho.
Qed.

Lemma wp_fs_read_words s k ws (Q : list Z → fs → Prop) :
  ready s → words_at (img s) k = Some ws → (∀ s', quiet s s' → next s' = next s → Q ws s') →
  wp (fs_read_words k) s Q.
Proof.
  unfold words_at. intros Hr (bs & Hk & ->)%fmap_Some HQ. unfold fs_read_words. wp_step.
  eapply wp_fs_read; [done|done|]. intros s' Hq Hn. wp_steps. auto.
Qed.

Lemma disk_ok_upd g k bs : disk_ok g → length bs = 512%nat → Forall is_byte bs → disk_ok (upd g k bs).
Proof. intros H Hl Hb k' bs'. unfold upd. case_decide; [naive_solver|apply H]. Qed.
Lemma disk_ok_ext g g' : (∀ k, g' k = g k) → disk_ok g → disk_ok g'.
Proof. intros H Hg k bs. rewrite H. apply Hg. Qed.

Lemma wp_fs_write s k old bs (Q : unit → fs → Prop) :
  ready s → img s k = Some old → (512 ≤ length bs)%nat → Forall is_byte (take 512 bs) →
  (∀ s', touched s s' (upd (img s) k (take 512 bs)) (free_map s) (inodes s) → next s' = next s → Q tt s') →
  wp (fs_write k bs) s Q.
Proof.
  intros (Hm & Hn & Hd & Ho) Hk Hl Hb HQ. unfold fs_write, on_dev. wp_steps.
  eapply wp_block_write; [done|exact Hk|lia|]. intros t Hr Hs Hlay. apply HQ; [|done].
  assert (∀ k', img (set_dev t s) k' = upd (img s) k (take 512 bs) k') as Hi by (intros k'; apply Hs).
  split; try done.
  2: { intros k'. rewrite Hi. unfold upd. case_decide; [subst; rewrite Hk|done]. split; by eexists. }
  split_and!; [done..| |].
  - simpl. by eapply writable_same.
  - eapply disk_ok_ext; [exact Hi|]. apply disk_ok_upd; [done| |done]. rewrite length_take. lia.
Qed.

Lemma words_bytes_ok ws :
  length ws = 128%nat → Forall is_word ws →
  length (words_bytes ws) = 512%nat ∧ Forall is_byte (words_bytes ws) ∧ bytes_words (words_bytes ws) = ws.
Proof.
  intros Hl Hw. unfold words_bytes. split_and!.
  - rewrite length_word_bytes. lia.
  - clear. induction ws as [|w ws IH]; [constructor|]. rewrite fmap_cons, mjoin_cons. apply Forall_app.
    split; [|done]. repeat constructor; by apply Z.mod_pos_bound.
  - by apply words_roundtrip.
Qed.

Lemma length_bytes_words n bs : length bs = (4 * n)%nat → length (bytes_words bs) = n.
Proof.
  revert bs. induction n as [|n IH]; intros [|b0 [|b1 [|b2 [|b3 bs]]]] H; simpl in H; try lia; [done|].
  simpl. rewrite IH; [done|lia].
Qed.

Lemma wp_fs_write_words s k old ws (Q : unit → fs → Prop) :
  ready s → img s k = Some old → length ws = 128%nat → Forall is_word ws →
  (∀ s', touched s s' (upd (img s) k (words_bytes ws)) (free_map s) (inodes s) → next s' = next s → Q tt s') →
  wp (fs_write_words k ws) s Q.
Proof.
  intros Hr Hk Hl Hw HQ. destruct (words_bytes_ok ws Hl Hw) as (Hlen & Hb & _).
  unfold fs_write_words. eapply wp_fs_write; [done|exact Hk|lia| |].
  - by rewrite take_ge by lia.
  - rewrite take_ge by lia. done.
Qed.

Lemma wp_get_inode s p i (Q : inode → fs → Prop) :
  inodes s !! p = Some i → Q i s → wp (get_inode p) s Q.
Proof. intros Hp HQ. unfold get_inode. wp_steps. by eapply wp_the. Qed.

Lemma wp_put_inode s p i (Q : unit → fs → Prop) :
  ready s →
  (∀ s', touched s s' (img s) (free_map s) (<[p := i]> (inodes s)) → next s' = next s →
     dev s' = dev s → Q tt s') →
  wp (put_inode p i) s Q.
Proof. intros Hr HQ. unfold put_inode. wp_steps. apply HQ; [|done..]. split; try done. Qed.
End operations.

(** ** Finding a sector *)
Lemma quot_sector pos : 0 ≤ pos < 2 ^ 31 → u32 (Z.quot pos 512) = pos `div` 512.
Proof.
  intros. rewrite Z.quot_div_nonneg by lia. apply u32_small.
  split; [apply Z.div_pos; lia|]. apply (Z.le_lt_trans _ pos); [|lia]. apply Z.div_le_upper_bound; lia.
Qed.

Lemma wp_byte_to_sector s p i pos k (Q : Z → fs → Prop) :
  ready s → p ≠ 0 → inodes s !! p = Some i → 0 ≤ pos < 2 ^ 31 → pos ≤ length_of (data i) →
  sector_of (img s) (data i) (pos `div` 512) = Some k →
  (∀ s', quiet s s' → next s' = next s → Q k s') →
  wp (byte_to_sector p pos) s Q.
Proof.
  intros Hr Hp Hi Hpos Hle Hk HQ. unfold byte_to_sector. wp_step. apply wp_assert.
  { apply negb_true_iff. by apply Z.eqb_neq. }
  wp_step. eapply wp_get_inode; [exact Hi|].
  destruct (Z.leb_spec pos (length_of (data i))); [|lia]. unfold BLOCK_SECTOR_SIZE.
  rewrite quot_sector by done. unfold sector_of in Hk. unfold DIRECT_NUM, BLOCKS_IN_INDIRECT.
  set (n := pos `div` 512) in *. assert (0 ≤ n) by (apply Z.div_pos; lia).
  destruct (n <? 10). { wp_steps. simplify_eq. apply HQ; [by apply quiet_refl|done]. }
  change (128 + 10) with 138. replace (n - 10 - 128) with (n - 138) by lia.
  destruct (n <? 138).
  - apply bind_Some in Hk as (ws & Hws & Hk). wp_step. eapply wp_fs_read_words; [done|exact Hws|].
    intros s' Hq Hn. eapply wp_the; [exact Hk|]. auto.
  - apply bind_Some in Hk as (ws & Hws & (b & Hb & (ws2 & Hws2 & Hk)%bind_Some)%bind_Some).
    wp_step. eapply wp_fs_read_words; [done|exact Hws|]. intros s1 Hq1 Hn1.
    wp_step. eapply wp_the; [exact Hb|]. wp_step.
    eapply wp_fs_read_words; [apply Hq1| |].
    { unfold words_at. rewrite (t_img _ _ _ _ _ Hq1). exact Hws2. }
    intros s2 Hq2 Hn2. eapply wp_the; [exact Hk|]. apply HQ; [|lia]. by eapply quiet_trans.
Qed.

Lemma wp_byte_to_sector_past s p i pos (Q : Z → fs → Prop) :
  p ≠ 0 → inodes s !! p = Some i → length_of (data i) < pos →
  Q (u32 (-1)) s → wp (byte_to_sector p pos) s Q.
Proof.
  intros Hp Hi Hlt HQ. unfold byte_to_sector. wp_step. apply wp_assert.
  { apply negb_true_iff. by apply Z.eqb_neq. }
  wp_step. eapply wp_get_inode; [exact Hi|].
  destruct (Z.leb_spec pos (length_of (data i))); [lia|]. by wp_steps.
Qed.

(** Every position up to and including the end of the file leads to a sector
    number (the code looks at the end of the file, too). *)
Definition charted (g : image) (d : list Z) : Prop :=
  ∀ n, 0 ≤ n ≤ length_of d `div` 512 → is_Some (sector_of g d n).

Lemma wp_byte_to_sector_any s p i pos (Q : Z → fs → Prop) :
  ready s → p ≠ 0 → inodes s !! p = Some i → 0 ≤ pos < 2 ^ 31 → charted (img s) (data i) →
  (∀ k s', quiet s s' → next s' = next s →
     (pos ≤ length_of (data i) → sector_of (img s) (data i) (pos `div` 512) = Some k) → Q k s') →
  wp (byte_to_sector p pos) s Q.
Proof.
  intros Hr Hp Hi Hpos Hc HQ. destruct (Z.le_gt_cases pos (length_of (data i))) as [Hle|Hgt].
  - destruct (Hc (pos `div` 512)) as [k Hk].
    { split; [apply Z.div_pos; lia|]. apply Z.div_le_mono; lia. }
    eapply wp_byte_to_sector; [done..|]. intros s' Hq Hn. by apply HQ.
  - eapply wp_byte_to_sector_past; [done..|]. apply HQ; [by apply quiet_refl|done|lia].
Qed.

(** Positions in the same sector. *)
Lemma same_sector off j :
  0 ≤ off → 0 ≤ j → off `mod` 512 + j < 512 →
  (off + j) `div` 512 = off `div` 512 ∧ (off + j) `mod` 512 = off `mod` 512 + j.
Proof.
  intros. pose proof (Z.div_mod off 512 ltac:(lia)). pose proof (Z.mod_pos_bound off 512 ltac:(lia)).
  assert ((off + j) `div` 512 = off `div` 512) as Hd.
  { symmetry. apply (Z.div_unique_pos _ _ _ (off `mod` 512 + j)); lia. }
  split; [done|]. rewrite Z.mod_eq, Hd by lia. lia.
Qed.

Lemma contents_chunk g d bs off k sec c :
  contents g d bs → sector_of g d (off `div` 512) = Some k → g k = Some sec →
  0 ≤ off → 0 ≤ c → off `mod` 512 + c ≤ 512 → off + c ≤ Z.of_nat (length bs) → length sec = 512%nat →
  take (Z.to_nat c) (drop (Z.to_nat (off `mod` 512)) sec) = take (Z.to_nat c) (drop (Z.to_nat off) bs).
Proof.
  intros Hc Hk Hsec Hoff Hc0 Hin Hbs Hl. pose proof (Z.mod_pos_bound off 512 ltac:(lia)).
  apply list_eq. intros j. destruct (decide (Z.of_nat j < c)) as [Hj|Hj].
  - rewrite !lookup_take_lt, !lookup_drop by lia.
    rewrite <-Hc by lia. unfold byte_at.
    destruct (same_sector off (Z.of_nat j)) as [Hd Hm]; [lia..|].
    replace (Z.of_nat (Z.to_nat off + j)) with (off + Z.of_nat j) by lia.
    rewrite Hd, Hm, Hk. simpl. rewrite Hsec. simpl. f_equal. lia.
  - by rewrite !lookup_take_ge by lia.
Qed.

Lemma contents_sector g d bs off :
  contents g d bs → 0 ≤ off < Z.of_nat (length bs) →
  ∃ k sec, sector_of g d (off `div` 512) = Some k ∧ g k = Some sec.
Proof.
  intros Hc Hoff. specialize (Hc (Z.to_nat off) ltac:(lia)). rewrite Z2Nat.id in Hc by lia.
  destruct (lookup_lt_is_Some_2 bs (Z.to_nat off)) as [b Hb]; [lia|]. rewrite Hb in Hc.
  unfold byte_at in Hc. apply bind_Some in Hc as (k & Hk & (sec & Hsec & _)%bind_Some). eauto.
Qed.

(** ** Reading *)

(** A piece of a file: at most [n] bytes from [off] on. *)
Definition piece (bs : list Z) (off n : Z) : list Z := take (Z.to_nat n) (drop (Z.to_nat off) bs).

Lemma piece_app bs off n m :
  0 ≤ off → 0 ≤ n → 0 ≤ m → off + n ≤ Z.of_nat (length bs) →
  piece bs off n ++ piece bs (off + n) m = piece bs off (n + m).
Proof.
  intros. unfold piece. rewrite !Z2Nat.inj_add by lia.
  rewrite <-(take_drop (Z.to_nat n) (drop (Z.to_nat off) bs)) at 2.
  rewrite drop_drop. rewrite take_app_ge by (rewrite length_take, length_drop; lia).
  do 2 f_equal. rewrite length_take, length_drop. lia.
Qed.
Lemma piece_past bs off n : Z.of_nat (length bs) ≤ off → piece bs off n = [].
Proof. intros. unfold piece. rewrite drop_ge by lia. by destruct (Z.to_nat n). Qed.
Lemma piece_all bs off n m :
  0 ≤ off → Z.of_nat (length bs) ≤ off + n → n ≤ m → piece bs off n = piece bs off m.
Proof. intros. unfold piece. rewrite !take_ge; [done|rewrite length_drop; lia..]. Qed.
Lemma length_piece bs off n :
  0 ≤ off → 0 ≤ n → off + n ≤ Z.of_nat (length bs) → length (piece bs off n) = Z.to_nat n.
Proof. intros. unfold piece. rewrite length_take, length_drop. lia. Qed.

Lemma slice_piece bs off n :
  0 ≤ off → 0 ≤ n → off + n ≤ Z.of_nat (length bs) → slice bs off n = Some (piece bs off n).
Proof. intros. unfold slice. by destruct (Z.leb_spec (off + n) (Z.of_nat (length bs))); [|lia]. Qed.

(** A readable file: [bs] up to its end. *)
Record readable (s : fs) (p : Z) (i : inode) (bs : list Z) : Prop := Readable {
  rd_ready : ready s;
  rd_p : p ≠ 0;
  rd_inode : inodes s !! p = Some i;
  rd_eof : eof (data i) = Z.of_nat (length bs);
  rd_len : eof (data i) ≤ length_of (data i) < 2 ^ 31;
  rd_charted : charted (img s) (data i);
  rd_contents : contents (img s) (data i) bs }.

Lemma sector_of_ext g g' d n : (∀ k, g k = g' k) → sector_of g d n = sector_of g' d n.
Proof.
  intros H. unfold sector_of. destruct (n <? 10), (n <? 138); try done; unfold words_at; rewrite H; try done.
  all: destruct (g' (double_indirect_block d)) as [bs|]; [|done]; simpl.
  all: destruct (bytes_words bs !! _) as [b|]; [|done]; simpl; by rewrite H.
Qed.
Lemma byte_at_ext g g' d x : (∀ k, g k = g' k) → byte_at g d x = byte_at g' d x.
Proof.
  intros H. unfold byte_at. rewrite (sector_of_ext g g') by done.
  destruct (sector_of g' d _); [|done]. simpl. by rewrite H.
Qed.

Lemma readable_quiet s s' p i bs : readable s p i bs → quiet s s' → readable s' p i bs.
Proof.
  intros [Hr Hp Hi He Hl Hc Hb] Hq. assert (Hg := t_img _ _ _ _ _ Hq).
  split; try done; [apply Hq|by rewrite (t_inodes _ _ _ _ _ Hq)| |].
  - intros n Hn. rewrite (sector_of_ext _ _ _ _ Hg). auto.
  - intros x Hx. rewrite (byte_at_ext _ _ _ _ Hg). auto.
Qed.

(** The chunk sizes of the read and the write loop. *)
Lemma ltb_min a b : (if a <? b then a else b) = Z.min a b.
Proof. destruct (Z.ltb_spec a b); lia. Qed.

Lemma wp_bounce s b (Q : bool → fs → Prop) :
  ready s → (∀ s', quiet s s' → Q true s') →
  wp (if (b : bool) then mret true else b ← malloc; mret (negb (b =? 0))) s Q.
Proof.
  intros Hr HQ. destruct b; [wp_steps; by apply HQ, quiet_refl|].
  wp_step. apply wp_fs_malloc; [done|]. intros s' Hq _. wp_steps.
  assert ((next s =? 0) = false) as ->; [apply Z.eqb_neq; destruct Hr; lia|]. by apply HQ.
Qed.

Lemma wp_inode_read_at s p i bs size off (Q : list Z → fs → Prop) :
  readable s p i bs → 0 ≤ off < 2 ^ 31 → size < 2 ^ 31 →
  (∀ s', quiet s s' → Q (piece bs off size) s') →
  wp (inode_read_at p size off) s Q.
Proof.
  intros Hrd Hoff Hsize HQ. unfold inode_read_at.
  apply (wp_loop (λ (g : Z) '(size', off', out, bounce) s', quiet s s' ∧ 0 ≤ g ∧ off' = off + g ∧
      off' < 2 ^ 31 ∧ size' = size - g ∧ out = piece bs off g ∧ (0 < g → g ≤ size ∧ off' ≤ Z.of_nat (length bs)))
    (λ g, Z.to_nat (size - g))) with (g := 0); [|split_and!; try done; try lia; by apply quiet_refl, Hrd|lia].
  intros g [[[size' off'] out] bounce] s' (Hq & Hg & -> & Ho31 & -> & -> & Hge).
  destruct (Z.ltb_spec 0 (size - g)) as [Hpos|Hneg].
  2: { wp_steps. replace (piece bs off g) with (piece bs off size); [by apply HQ|].
    destruct (decide (0 < g)); [by replace g with size by lia|]. assert (g = 0) as -> by lia.
    unfold piece. by replace (Z.to_nat size) with O by lia. }
  pose proof (readable_quiet _ _ _ _ _ Hrd Hq) as Hrd'. destruct Hrd' as [Hr Hp Hi He Hl Hc Hb].
  wp_step. eapply wp_byte_to_sector_any; [done|done|exact Hi|lia|done|]. intros k s1 Hq1 _ Hk.
  wp_step. eapply wp_get_inode; [by rewrite (t_inodes _ _ _ _ _ Hq1)|].
  unfold BLOCK_SECTOR_SIZE. rewrite Z.rem_mod_nonneg, !ltb_min by lia.
  rewrite s32_small by lia. rewrite He.
  pose proof (Z.mod_pos_bound (off + g) 512 ltac:(lia)) as Hm.
  set (c := Z.min (size - g) _). assert (quiet s s1) as Hqs by by eapply quiet_trans.
  destruct (Z.leb_spec c 0) as [Hc0|Hc0].
  { wp_steps. replace (piece bs off g) with (piece bs off size); [by apply HQ|].
    destruct (decide (0 < g)).
    - symmetry. apply piece_all; lia.
    - assert (g = 0) as -> by lia. rewrite !piece_past by lia. done. }
  destruct (contents_sector _ _ _ (off + g) Hb) as (k' & sec & Hk' & Hsec); [lia|].
  rewrite Hk in Hk' by lia. injection Hk' as <-.
  destruct Hr as (? & ? & ? & Hdisk). destruct (Hdisk _ _ Hsec) as [Hlen _].
  assert (Hsec1 : img s1 k = Some sec) by by rewrite (t_img _ _ _ _ _ Hq1).
  assert (Hchunk : take (Z.to_nat c) (drop (Z.to_nat ((off + g) `mod` 512)) sec) = piece bs (off + g) c).
  { eapply contents_chunk; [exact Hb|by apply Hk; lia|done|lia..|done]. }
  assert (Hnext : piece bs off g ++ piece bs (off + g) c = piece bs off (g + c)).
  { destruct (decide (0 < g)); [apply piece_app; lia|]. assert (g = 0) as -> by lia.
    unfold piece at 1. rewrite take_0, Z.add_0_r, !Z.add_0_l. done. }
  destruct (((off + g) `mod` 512 =? 0) && (c =? 512)) eqn:Efull.
  - apply andb_true_iff in Efull as [E0%Z.eqb_eq E1%Z.eqb_eq].
    wp_step. eapply wp_fs_read; [apply Hq1|exact Hsec1|]. intros s2 Hq2 _. wp_steps. exists (g + c).
    split; [|lia]. split_and!; [by eapply quiet_trans|lia..| |lia].
    rewrite <-Hnext, <-Hchunk, E0. rewrite drop_0, take_ge by lia. done.
  - wp_step. apply wp_bounce; [apply Hq1|]. intros s2 Hq2. wp_step.
    eapply wp_fs_read; [apply Hq2|by rewrite (t_img _ _ _ _ _ Hq2)|]. intros s3 Hq3 _. wp_step.
    eapply wp_the; [apply slice_piece; lia|]. wp_steps. exists (g + c). split; [|lia].
    split_and!; [by do 2 (eapply quiet_trans; [|done])|lia..| |lia]. rewrite <-Hnext, <-Hchunk. done.
Qed.
