(* ===== verification/InodeBody.v ===== *)
(** * Writing within a file

    What a write does to the disk ([wrote]): the bytes of the file that are
    written change, and no sector that is not one of the file's data sectors.
    [write_data], the loop of [inode_write_at], does this and nothing else. *)
From S2P Require Import Prelude Block BlockFacts Bitmap BitmapFacts Inode InodeFacts.
Local Open Scope Z_scope.

Definition data_sector (g : image) (d : list Z) (N k : Z) : Prop :=
  ∃ n, 0 ≤ n < N ∧ sector_of g d n = Some k.
(** The indirect blocks that lead to the first [N] sectors, and in a file with a
    double indirect block those the code looks at for its end. *)
Definition tree (g : image) (d : list Z) (N k : Z) : Prop :=
  (∃ n, 0 ≤ n < N ∧ k ∈ meta_of g d n) ∨ (138 ≤ N ∧ k ∈ meta_of g d N).

(** The first [N] sectors of a file are in place: they exist, are different
    from each other, and are not among the sectors that are read to find them. *)
Record placed (g : image) (d : list Z) (N : Z) : Prop := Placed {
  pl_data : ∀ n, 0 ≤ n < N → ∃ k bs, sector_of g d n = Some k ∧ g k = Some bs;
  pl_inj : ∀ n m k, 0 ≤ n < N → 0 ≤ m < N → sector_of g d n = Some k → sector_of g d m = Some k → n = m;
  pl_tree : ∀ k, data_sector g d N k → ¬ tree g d N k }.

(** Bytes [bs] have been written at [off]. *)
Record wrote (g g' : image) (d : list Z) (N off : Z) (bs : list Z) : Prop := Wrote {
  wr_other : ∀ k, ¬ data_sector g d N k → g' k = g k;
  wr_some : ∀ k, is_Some (g k) → is_Some (g' k);
  wr_bytes : ∀ x, 0 ≤ x < 512 * N → byte_at g' d x =
    if decide (off ≤ x < off + Z.of_nat (length bs)) then bs !! Z.to_nat (x - off) else byte_at g d x }.

Section placing.
Implicit Types (g : image) (d bs : list Z).

(** Finding a sector depends on the sectors read on the way only. *)
Lemma sector_of_meta g g' d n :
  (∀ k, k ∈ meta_of g d n → g' k = g k) → sector_of g' d n = sector_of g d n ∧ meta_of g' d n = meta_of g d n.
Proof.
  unfold sector_of, meta_of. destruct (n <? 10); [done|]. destruct (n <? 138); intros H.
  { unfold words_at. by rewrite H by set_solver. }
  unfold words_at in *. rewrite H by set_solver.
  destruct (g (double_indirect_block d)) as [ds|]; [|done]. simpl in *.
  destruct (bytes_words ds !! Z.to_nat ((n - 138) `div` 128)) as [b|] eqn:Eb; [|done]. simpl in *.
  by rewrite H by set_solver.
Qed.

Lemma tree_kept g g' d N :
  (∀ k, tree g d N k → g' k = g k) →
  (∀ n, 0 ≤ n < N → sector_of g' d n = sector_of g d n) ∧
  (138 ≤ N → sector_of g' d N = sector_of g d N) ∧
  (∀ k, data_sector g' d N k ↔ data_sector g d N k) ∧ (∀ k, tree g' d N k ↔ tree g d N k).
Proof.
  intros H.
  assert (∀ n, 0 ≤ n < N → sector_of g' d n = sector_of g d n ∧ meta_of g' d n = meta_of g d n) as Hn.
  { intros n Hn. apply sector_of_meta. intros k Hk. apply H. left. eauto. }
  assert (138 ≤ N → sector_of g' d N = sector_of g d N ∧ meta_of g' d N = meta_of g d N) as HN.
  { intros HN. apply sector_of_meta. intros k Hk. apply H. by right. }
  split_and!; [by intros; apply Hn|by intros; apply HN| |].
  - intros k. unfold data_sector. split; intros (n & Hb & Hs); exists n; (split; [done|]);
      [by rewrite <-(proj1 (Hn n Hb))|by rewrite (proj1 (Hn n Hb))].
  - intros k. unfold tree. split; intros [(n & Hb & Hs)|[Hb Hs]].
    + left. exists n. by rewrite <-(proj2 (Hn n Hb)).
    + right. by rewrite <-(proj2 (HN Hb)).
    + left. exists n. by rewrite (proj2 (Hn n Hb)).
    + right. by rewrite (proj2 (HN Hb)).
Qed.

Lemma placed_kept g g' d N :
  placed g d N → (∀ k, is_Some (g k) → is_Some (g' k)) → (∀ k, tree g d N k → g' k = g k) → placed g' d N.
Proof.
  intros Hp Hsome Ht. destruct (tree_kept g g' d N Ht) as (Hs & _ & Hd & Htr). split.
  - intros n Hn. destruct (pl_data _ _ _ Hp n Hn) as (k & b & Hk & Hb).
    destruct (Hsome k) as [b' Hb']; [by eexists|]. exists k, b'. split; [|done]. by rewrite Hs.
  - intros n m k Hn Hm. rewrite !Hs by done. by apply Hp.
  - intros k. rewrite Hd, Htr. apply Hp.
Qed.

Lemma wrote_tree g g' d N off bs :
  placed g d N → wrote g g' d N off bs → ∀ k, tree g d N k → g' k = g k.
Proof. intros Hp Hw k Hk. apply Hw. intros Hd. by apply (pl_tree _ _ _ Hp k). Qed.

Lemma placed_wrote g g' d N off bs : placed g d N → wrote g g' d N off bs → placed g' d N.
Proof. intros Hp Hw. eapply placed_kept; [done|apply Hw|by eapply wrote_tree]. Qed.

Lemma data_sector_wrote g g' d N off bs k :
  placed g d N → wrote g g' d N off bs → data_sector g' d N k ↔ data_sector g d N k.
Proof. intros Hp Hw. apply tree_kept. by eapply wrote_tree. Qed.

Lemma wrote_nil g d N off : wrote g g d N off [].
Proof. split; [done|done|]. intros x Hx. rewrite decide_False; [done|]. simpl. lia. Qed.

Lemma wrote_ext g g' g2 d N off bs : wrote g g' d N off bs → (∀ k, g2 k = g' k) → wrote g g2 d N off bs.
Proof.
  intros [Ho Hs Hb] H. split.
  - intros k Hk. rewrite H. auto.
  - intros k Hk. rewrite H. auto.
  - intros x Hx. rewrite (byte_at_ext _ _ _ _ H). auto.
Qed.

Lemma wrote_app g g1 g2 d N off bs cs :
  placed g d N → wrote g g1 d N off bs → wrote g1 g2 d N (off + Z.of_nat (length bs)) cs →
  wrote g g2 d N off (bs ++ cs).
Proof.
  intros Hp H1 H2. split.
  - intros k Hk. rewrite (wr_other _ _ _ _ _ _ H2), (wr_other _ _ _ _ _ _ H1); [done|done|].
    by rewrite (data_sector_wrote _ _ _ _ _ _ _ Hp H1).
  - intros k Hk. by apply H2, H1.
  - intros x Hx. rewrite (wr_bytes _ _ _ _ _ _ H2), (wr_bytes _ _ _ _ _ _ H1) by done. rewrite length_app.
    repeat case_decide; try lia; [|rewrite lookup_app_l by lia; done|done].
    rewrite lookup_app_r by lia. f_equal. lia.
Qed.

(** One sector is replaced. *)
Lemma wrote_sector g d N n k sec chunk ofs :
  placed g d N → 0 ≤ n < N → sector_of g d n = Some k → g k = Some sec → length sec = 512%nat →
  0 ≤ ofs → ofs + Z.of_nat (length chunk) ≤ 512 →
  wrote g (upd g k (take (Z.to_nat ofs) sec ++ chunk ++ drop (Z.to_nat (ofs + Z.of_nat (length chunk))) sec))
    d N (512 * n + ofs) chunk.
Proof.
  intros Hp Hn Hk Hsec Hlen Hofs Hfit.
  assert (Hother : ∀ k', ¬ data_sector g d N k' → k' ≠ k) by (intros k' H ->; apply H; by exists n).
  split.
  - intros k' Hk'. unfold upd. by rewrite decide_False by auto.
  - intros k' Hk'. unfold upd. case_decide; [by eexists|done].
  - intros x Hx. set (g' := upd _ _ _).
    assert (0 ≤ x `div` 512 < N) as Hxn by (split; [apply Z.div_pos|apply Z.div_lt_upper_bound]; lia).
    pose proof (Z.div_mod x 512 ltac:(lia)). pose proof (Z.mod_pos_bound x 512 ltac:(lia)) as Hm.
    assert (∀ k', tree g d N k' → g' k' = g k') as Htree.
    { intros k' Hk'. unfold g', upd. rewrite decide_False; [done|]. intros ->.
      apply (pl_tree _ _ _ Hp k); [by exists n|done]. }
    unfold byte_at. rewrite (proj1 (tree_kept g g' d N Htree) (x `div` 512) Hxn).
    destruct (pl_data _ _ _ Hp _ Hxn) as (kx & bx & Hkx & Hbx). rewrite Hkx. simpl. unfold g', upd.
    destruct (decide (kx = k)) as [->|Hne].
    + assert (x `div` 512 = n) as Hxd by (eapply (pl_inj _ _ _ Hp); done). rewrite Hbx. simpl.
      simplify_eq. destruct (decide (512 * (x `div` 512) + ofs ≤ x < _)) as [Hin|Hout].
      * rewrite lookup_app_r by (rewrite length_take; lia). rewrite length_take.
        rewrite lookup_app_l by lia. f_equal. lia.
      * destruct (decide (x `mod` 512 < ofs)).
        -- rewrite lookup_app_l by (rewrite length_take; lia). by rewrite lookup_take_lt by lia.
        -- rewrite lookup_app_r by (rewrite length_take; lia). rewrite length_take.
           rewrite lookup_app_r by lia. rewrite lookup_drop. f_equal. lia.
    + rewrite Hbx. simpl. rewrite decide_False; [done|]. intros Hin. apply Hne.
      assert (x `div` 512 = n) as Hxd.
      { symmetry. apply (Z.div_unique_pos _ _ _ (x - 512 * n)); lia. }
      rewrite Hxd, Hk in Hkx. congruence.
Qed.

End placing.

(** The state apart from the disk is as before. *)
Definition disk_only (s s' : fs) : Prop := touched s s' (img s') (free_map s) (inodes s).
Lemma touched_disk s s' g : touched s s' g (free_map s) (inodes s) → disk_only s s'.
Proof. intros H. destruct H. by split. Qed.
Lemma disk_only_refl s : ready s → disk_only s s.
Proof. by split. Qed.
Lemma disk_only_trans s1 s2 s3 : disk_only s1 s2 → disk_only s2 s3 → disk_only s1 s3.
Proof.
  intros H1 H2. pose proof (touched_trans _ _ _ _ _ _ _ _ _ H1 H2) as H3. destruct H1, H3. split; try done; congruence.
Qed.

Lemma take_piece buf a c : 0 ≤ a → a + c ≤ Z.of_nat (length buf) → c = 512 →
  take 512 (drop (Z.to_nat a) buf) = piece buf a c.
Proof. intros ? ? ->. done. Qed.

Lemma Forall_piece (P : Z → Prop) buf a c : Forall P buf → Forall P (piece buf a c).
Proof. intros H. by apply Forall_take, Forall_drop. Qed.

(** One turn of the loop: [c] bytes of the buffer go to a sector of the file. *)
Lemma wp_write_chunk s k sec g0 d N off buf a c (bounce : bool) (Q : option bool → fs → Prop) :
  ready s → (∀ k', img s k' = g0 k') → placed g0 d N → sector_of g0 d (off `div` 512) = Some k →
  g0 k = Some sec → 0 ≤ off < 512 * N → 0 ≤ a → 0 < c → a + c ≤ Z.of_nat (length buf) →
  off `mod` 512 + c ≤ 512 → Forall is_byte buf →
  (∀ b' s', disk_only s s' → wrote g0 (img s') d N off (piece buf a c) → Q (Some b') s') →
  wp (write_chunk k buf a (off `mod` 512) c bounce) s Q.
Proof.
  intros Hr Hg Hp Hk Hsec Hoff Ha Hc Hbuf Hfit Hbytes HQ.
  pose proof (Z.mod_pos_bound off 512 ltac:(lia)) as Hm. pose proof (Z.div_mod off 512 ltac:(lia)) as Hdm.
  assert (0 ≤ off `div` 512 < N) as Hn by (split; [apply Z.div_pos|apply Z.div_lt_upper_bound]; lia).
  assert (Hlen : length sec = 512%nat ∧ Forall is_byte sec).
  { destruct Hr as (_ & _ & _ & Hd). eapply Hd. by rewrite Hg. } destruct Hlen as [Hlen Hsb].
  pose proof (length_piece buf a c Ha ltac:(lia) Hbuf) as Hpl.
  pose proof (wrote_sector g0 d N (off `div` 512) k sec (piece buf a c) (off `mod` 512)
    Hp Hn Hk Hsec Hlen ltac:(lia) ltac:(rewrite Hpl; lia)) as Hw.
  rewrite Hpl, Z2Nat.id in Hw by lia. rewrite <-Hdm in Hw. unfold write_chunk, BLOCK_SECTOR_SIZE.
  destruct ((off `mod` 512 =? 0) && (c =? 512)) eqn:Efull.
  - apply andb_true_iff in Efull as [E0%Z.eqb_eq E1%Z.eqb_eq]. wp_step.
    eapply wp_fs_write; [done|by rewrite Hg|rewrite length_drop; lia|by apply Forall_take, Forall_drop|].
    intros s' Ht _. wp_steps. apply HQ; [by eapply touched_disk|].
    rewrite E0 in Hw. eapply wrote_ext; [exact Hw|]. intros k'. rewrite (t_img _ _ _ _ _ Ht).
    unfold upd. case_decide; [|apply Hg]. rewrite (take_piece _ _ c), (drop_ge sec), app_nil_r by lia. done.
  - wp_step. apply wp_bounce; [done|]. intros s1 Hq1. wp_step.
    assert (((0 <? off `mod` 512) || (c <? 512 - off `mod` 512)) = true) as ->.
    { apply orb_true_iff. rewrite !Z.ltb_lt. apply andb_false_iff in Efull. rewrite !Z.eqb_neq in Efull. lia. }
    eapply wp_fs_read; [apply Hq1|rewrite (t_img _ _ _ _ _ Hq1), Hg; exact Hsec|]. intros s2 Hq2 _. wp_step.
    eapply wp_the; [apply slice_piece; lia|]. wp_step.
    set (new := take _ sec ++ _ ++ _) in *.
    assert (length new = 512%nat) as Hnew.
    { unfold new. rewrite !length_app, length_take, length_drop, Hpl. lia. }
    assert (∀ k', img s2 k' = g0 k') as Hg2.
    { intros k'. by rewrite (t_img _ _ _ _ _ Hq2), (t_img _ _ _ _ _ Hq1). }
    eapply wp_fs_write; [apply Hq2|by rewrite Hg2|lia| |].
    { apply Forall_take. unfold new. rewrite !Forall_app. split_and!; [by apply Forall_take| |by apply Forall_drop].
      by apply Forall_piece. }
    intros s3 Ht3 _. wp_steps. apply HQ.
    + eapply disk_only_trans; [eapply touched_disk, quiet_trans; done|]. by eapply touched_disk.
    + eapply wrote_ext; [exact Hw|]. intros k'. rewrite (t_img _ _ _ _ _ Ht3). unfold upd.
      case_decide; [|apply Hg2]. by rewrite take_ge by lia.
Qed.

Lemma wp_write_data s p i buf size off N (Q : Z → fs → Prop) :
  ready s → p ≠ 0 → inodes s !! p = Some i → placed (img s) (data i) N →
  0 ≤ off → 0 ≤ size → off + size ≤ length_of (data i) → length_of (data i) < 2 ^ 31 → off + size ≤ 512 * N →
  size ≤ Z.of_nat (length buf) → Forall is_byte buf →
  (∀ s', disk_only s s' → wrote (img s) (img s') (data i) N off (piece buf 0 size) → Q size s') →
  wp (write_data p buf size off) s Q.
Proof.
  intros Hr Hp0 Hi Hp Hoff Hsize Hlen Hlen31 HN Hbuf Hbytes HQ. unfold write_data.
  apply (wp_loop (λ (g : Z) '(size', off', n, bounce) s', disk_only s s' ∧ 0 ≤ g ≤ size ∧ off' = off + g ∧
      size' = size - g ∧ n = g ∧ wrote (img s) (img s') (data i) N off (piece buf 0 g))
    (λ g, Z.to_nat (size - g))) with (g := 0).
  2: { split_and!; try lia; [by apply disk_only_refl|by apply wrote_nil]. }
  2: lia.
  intros g [[[size' off'] n] bounce] s' (Ht & Hg & -> & -> & -> & Hw).
  destruct (Z.ltb_spec 0 (size - g)) as [Hpos|Hneg].
  2: { wp_steps. assert (g = size) as -> by lia. by apply HQ. }
  pose proof (placed_wrote _ _ _ _ _ _ Hp Hw) as Hp'.
  assert (0 ≤ (off + g) `div` 512 < N) as Hn by (split; [apply Z.div_pos|apply Z.div_lt_upper_bound]; lia).
  destruct (pl_data _ _ _ Hp' _ Hn) as (k & sec & Hk & Hsec).
  assert (Hi' : inodes s' !! p = Some i) by by rewrite (t_inodes _ _ _ _ _ Ht).
  wp_step. eapply wp_byte_to_sector; [apply Ht|done|exact Hi'|lia|lia|exact Hk|]. intros s1 Hq1 _.
  wp_step. unfold inode_length. wp_step. eapply wp_get_inode; [by rewrite (t_inodes _ _ _ _ _ Hq1)|]. wp_steps.
  unfold BLOCK_SECTOR_SIZE. rewrite Z.rem_mod_nonneg, !ltb_min by lia. rewrite s32_small by lia.
  pose proof (Z.mod_pos_bound (off + g) 512 ltac:(lia)) as Hm.
  set (c := Z.min (size - g) _). destruct (Z.leb_spec c 0); [lia|].
  wp_step. eapply (wp_write_chunk s1 k sec (img s') (data i) N (off + g)); [apply Hq1|apply Hq1|done..|lia|lia|lia|lia|lia|done|].
  intros b' s2 Ht2 Hw2. wp_steps. exists (g + c). split; [|lia]. split_and!; try lia.
  - eapply disk_only_trans; [exact Ht|]. eapply disk_only_trans; [by eapply touched_disk|done].
  - rewrite <-(piece_app buf 0 g c) by lia. rewrite Z.add_0_l. eapply wrote_app; [done|exact Hw|].
    rewrite length_piece by lia. by rewrite Z2Nat.id by lia.
Qed.

(** ** A file on the disk, and [inode_write_at] on it

    [holds g isec d bs]: on the disk [g], the inode [d] in sector [isec] is that
    of a file whose contents are [bs].  [wp_write_body] proves [inode_write_at]
    against it; what happens when sectors have to be allocated is a hypothesis
    here ([grown]) and proved in FreeMap.v. *)
(** Looking at the end of the file does not fail. *)
Definition edge (g : image) (d : list Z) (N : Z) : Prop :=
  N < 10 ∨ (N < 138 ∧ is_Some (g (indirect_block d))) ∨ (138 ≤ N ∧ is_Some (sector_of g d N)).

(** [10 + 128 + 128 * 128], the number of sectors a file can have. *)
Definition MAX_SECTORS : Z := 16522.

Record laid_out (g : image) (isec : Z) (d : list Z) (N : Z) : Prop := LaidOut {
  lo_len : length d = 128%nat;
  lo_words : Forall is_word d;
  lo_N : 0 ≤ N ≤ MAX_SECTORS;
  lo_placed : placed g d N;
  lo_isec : is_Some (g isec);
  lo_data : ¬ data_sector g d N isec;
  lo_tree : ¬ tree g d N isec;
  lo_edge : edge g d N }.

(** The sectors that belong to a file. *)
Definition owned (g : image) (isec : Z) (d : list Z) (N k : Z) : Prop :=
  k = isec ∨ data_sector g d N k ∨ tree g d N k.

Definition sectors (bs : list Z) : Z := (Z.of_nat (length bs) + 511) `div` 512.

Record holds (g : image) (isec : Z) (d bs : list Z) : Prop := Holds {
  h_laid : laid_out g isec d (sectors bs);
  h_disk : words_at g isec = Some d;
  h_eof : eof d = Z.of_nat (length bs);
  h_len : length_of d = Z.of_nat (length bs);
  h_bytes : ∀ x, 0 ≤ x < 512 * sectors bs → byte_at g d x = Some (default 0 (bs !! Z.to_nat x)) }.

(** [data] written at [off]: a gap after the end is filled with zeros. *)
Definition overwrite (bs : list Z) (off : nat) (data : list Z) : list Z :=
  take off (bs ++ replicate (off - length bs) 0) ++ data ++ drop (off + length data) bs.

Section facts.
Implicit Types (g : image) (d bs : list Z).

Lemma length_overwrite bs off data :
  length (overwrite bs off data) = Nat.max (length bs) (off + length data).
Proof. unfold overwrite. rewrite !length_app, length_take, length_app, length_replicate, length_drop. lia. Qed.

Lemma lookup_overwrite bs off data x :
  (x < Nat.max (length bs) (off + length data))%nat →
  default 0 (overwrite bs off data !! x) =
    if decide (off ≤ x < off + length data)%nat then default 0 (data !! (x - off)%nat) else default 0 (bs !! x).
Proof.
  intros Hx. unfold overwrite.
  assert (Hl : length (take off (bs ++ replicate (off - length bs) 0)) = off).
  { rewrite length_take, length_app, length_replicate. lia. }
  destruct (decide (x < off)%nat).
  - rewrite decide_False by lia. rewrite lookup_app_l by lia. rewrite lookup_take_lt by lia.
    destruct (decide (x < length bs)%nat).
    + by rewrite lookup_app_l by lia.
    + rewrite lookup_app_r by lia. rewrite lookup_replicate_2 by lia. by rewrite (lookup_ge_None_2 bs) by lia.
  - rewrite lookup_app_r by lia. rewrite Hl. destruct (decide (x < off + length data)%nat).
    + rewrite decide_True by lia. by rewrite lookup_app_l by lia.
    + rewrite decide_False by lia. rewrite lookup_app_r by lia. rewrite lookup_drop. do 2 f_equal. lia.
Qed.

(** Only the first twelve words of an inode lead to sectors. *)
Lemma same_pointers g d d' :
  (∀ j, 0 ≤ j < 12 → word d' j = word d j) →
  (∀ n, sector_of g d' n = sector_of g d n) ∧ (∀ n, meta_of g d' n = meta_of g d n).
Proof.
  intros H. assert (∀ n, n < 10 → direct_block d' n = direct_block d n) as Hd.
  { intros n Hn. unfold direct_block. destruct (decide (0 ≤ n)); [apply H; lia|].
    specialize (H 0 ltac:(lia)). unfold word in *. by replace (Z.to_nat n) with (Z.to_nat 0) by lia. }
  unfold sector_of, meta_of, indirect_block, double_indirect_block. rewrite !H by lia.
  split; intros n; destruct (Z.ltb_spec n 10); try done. by rewrite Hd.
Qed.

Lemma same_file g d d' N :
  (∀ j, 0 ≤ j < 12 → word d' j = word d j) →
  (∀ k, data_sector g d' N k ↔ data_sector g d N k) ∧ (∀ k, tree g d' N k ↔ tree g d N k) ∧
  (∀ x, byte_at g d' x = byte_at g d x).
Proof.
  intros H. destruct (same_pointers g d d' H) as [Hs Hm]. unfold data_sector, tree, byte_at. split_and!.
  - intros k. by setoid_rewrite Hs.
  - intros k. setoid_rewrite Hm. done.
  - intros x. by rewrite Hs.
Qed.

Lemma laid_out_fields g isec d d' N :
  laid_out g isec d N → length d' = 128%nat → Forall is_word d' →
  (∀ j, 0 ≤ j < 12 → word d' j = word d j) → laid_out g isec d' N.
Proof.
  intros [? ? ? Hp ? ? ? ?] Hl Hw H. destruct (same_file g d d' N H) as (Hd & Ht & _).
  destruct (same_pointers g d d' H) as [Hs _]. split; try done.
  - split.
    + intros n Hn. rewrite Hs. by apply Hp.
    + intros n m k Hn Hm. rewrite !Hs. by apply Hp.
    + intros k. rewrite Hd, Ht. apply Hp.
  - by rewrite Hd.
  - by rewrite Ht.
  - unfold edge, indirect_block in *. rewrite H, Hs by lia. done.
Qed.

Lemma laid_out_kept g g' isec d N :
  laid_out g isec d N → (∀ k, is_Some (g k) → is_Some (g' k)) → (∀ k, tree g d N k → g' k = g k) →
  laid_out g' isec d N.
Proof.
  intros [] Hsome Htree. destruct (tree_kept g g' d N Htree) as (Hs & HN & Hd & Ht). split; try done.
  - by eapply placed_kept.
  - auto.
  - by rewrite Hd.
  - by rewrite Ht.
  - unfold edge in *. destruct lo_edge0 as [?|[[? ?]|[? ?]]]; [by left|right; left; auto|].
    right; right. by rewrite HN.
Qed.

Lemma meta_some g d n k m : sector_of g d n = Some m → k ∈ meta_of g d n → is_Some (g k).
Proof.
  unfold sector_of, meta_of, words_at. destruct (n <? 10); [set_solver|]. destruct (n <? 138).
  - destruct (g (indirect_block d)) as [b|] eqn:E; [|done]. intros _ ->%list_elem_of_singleton. by eexists.
  - destruct (g (double_indirect_block d)) as [b|] eqn:E; [|done]. simpl.
    destruct (bytes_words b !! _) as [b1|]; [|done]. simpl.
    destruct (g b1) as [b2|] eqn:E2; [|done]. intros _ [-> | ->%list_elem_of_singleton]%elem_of_cons; by eexists.
Qed.

Lemma owned_some g isec d N k : laid_out g isec d N → owned g isec d N k → is_Some (g k).
Proof.
  intros Hl [->|[(n & Hn & Hs)|[(n & Hn & Hk)|[HN Hk]]]].
  - apply Hl.
  - destruct (pl_data _ _ _ (lo_placed _ _ _ _ Hl) n Hn) as (k' & b & Hs' & Hb). simplify_eq. by eexists.
  - destruct (pl_data _ _ _ (lo_placed _ _ _ _ Hl) n Hn) as (k' & b & Hs' & Hb). by eapply meta_some.
  - destruct (lo_edge _ _ _ _ Hl) as [?|[[? ?]|[_ [m Hm]]]]; [lia|lia|]. by eapply meta_some.
Qed.

(** When only the inode and data sectors of a file have changed, it has the same
    sectors as before. *)
Lemma same_sectors g g' isec d N :
  laid_out g' isec d N → (∀ k, k ≠ isec → ¬ data_sector g' d N k → g' k = g k) →
  (∀ k, data_sector g' d N k ↔ data_sector g d N k) ∧ (∀ k, tree g' d N k ↔ tree g d N k).
Proof.
  intros Hl Hg. destruct (tree_kept g' g d N) as (_ & _ & Hd & Ht).
  - intros k Hk. symmetry. apply Hg; [intros ->; by apply (lo_tree _ _ _ _ Hl)|].
    intros Hd. by apply (pl_tree _ _ _ (lo_placed _ _ _ _ Hl) k).
  - split; intros k; [by rewrite Hd|by rewrite Ht].
Qed.

Lemma byte_at_kept g g' d N x :
  placed g d N → (∀ k, tree g d N k ∨ data_sector g d N k → g' k = g k) → 0 ≤ x < 512 * N →
  byte_at g' d x = byte_at g d x.
Proof.
  intros Hp H Hx. assert (0 ≤ x `div` 512 < N) by (split; [apply Z.div_pos|apply Z.div_lt_upper_bound]; lia).
  unfold byte_at. rewrite (proj1 (tree_kept g g' d N ltac:(auto))) by done.
  destruct (pl_data _ _ _ Hp (x `div` 512)) as (k & b & Hk & Hb); [done|]. rewrite Hk. simpl.
  rewrite H; [done|]. right. by eexists.
Qed.

(** A file is not affected by what happens to other sectors. *)
Lemma holds_kept g g' isec d bs :
  holds g isec d bs → (∀ k, is_Some (g k) → is_Some (g' k)) →
  (∀ k, owned g isec d (sectors bs) k → g' k = g k) → holds g' isec d bs.
Proof.
  intros [Hl Hd He Hlen Hb] Hsome H. split; try done.
  - eapply laid_out_kept; [done|done|]. intros k Hk. apply H. by right; right.
  - unfold words_at. rewrite H by by left. done.
  - intros x Hx. erewrite byte_at_kept; [by apply Hb|apply Hl| |done].
    intros k [Hk|Hk]; apply H; [by right; right|by right; left].
Qed.

Lemma edge_some g d N : disk_ok g → edge g d N → 0 ≤ N → is_Some (sector_of g d N).
Proof.
  intros Hg [H|[[H [b Hb]]|[H Hs]]] HN; [| |done].
  - unfold sector_of. destruct (Z.ltb_spec N 10); [by eexists|lia].
  - unfold sector_of. destruct (Z.ltb_spec N 10); [by eexists|]. destruct (Z.ltb_spec N 138); [|lia].
    unfold words_at. rewrite Hb. simpl. apply lookup_lt_is_Some.
    destruct (Hg _ _ Hb) as [Hl _]. rewrite (length_bytes_words 128) by done. lia.
Qed.

Lemma holds_readable s p i bs :
  ready s → p ≠ 0 → inodes s !! p = Some i → holds (img s) (isector i) (data i) bs → readable s p i bs.
Proof.
  intros Hr Hp Hi [Hl Hd He Hlen Hb]. pose proof (lo_N _ _ _ _ Hl) as HN. unfold MAX_SECTORS, sectors in HN.
  pose proof (Z.div_mod (Z.of_nat (length bs) + 511) 512 ltac:(lia)).
  pose proof (Z.mod_pos_bound (Z.of_nat (length bs) + 511) 512 ltac:(lia)).
  split; try done; [lia| |].
  - intros n Hn. destruct (decide (n < sectors bs)) as [Hlt|Hge].
    + destruct (pl_data _ _ _ (lo_placed _ _ _ _ Hl) n) as (k & b & Hk & _); [lia|by eexists].
    + assert (n = sectors bs) as ->.
      { assert (n ≤ sectors bs); [|lia]. unfold sectors.
        transitivity (length_of (data i) `div` 512); [lia|]. apply Z.div_le_mono; lia. }
      apply edge_some; [apply Hr|apply Hl|lia].
  - intros x Hx. rewrite Hb.
    + rewrite Nat2Z.id. by destruct (lookup_lt_is_Some_2 bs x Hx) as [b ->].
    + unfold sectors. lia.
Qed.
End facts.

(** ** Fields of an inode *)
Section fields.
Implicit Types (d : list Z).

Lemma word_set_word i v d j :
  0 ≤ i < Z.of_nat (length d) → 0 ≤ j → word (set_word i v d) j = if decide (j = i) then u32 v else word d j.
Proof.
  intros Hi Hj. unfold word, set_word. case_decide as E.
  - subst. by rewrite list_lookup_insert_eq by lia.
  - rewrite list_lookup_insert_ne; [done|lia].
Qed.
Lemma length_set_word i v d : length (set_word i v d) = length d.
Proof. apply length_insert. Qed.
Lemma words_set_word i v d : Forall is_word d → Forall is_word (set_word i v d).
Proof. intros H. apply Forall_insert; [done|]. apply u32_range. Qed.

Lemma s32_u32 v : 0 ≤ v < 2 ^ 31 → s32 (u32 v) = v.
Proof. intros. rewrite u32_small by lia. apply s32_small. lia. Qed.

Lemma set_word_fields i v d :
  length d = 128%nat → 12 ≤ i < 128 → 0 ≤ v < 2 ^ 31 →
  (∀ j, 0 ≤ j < 12 → word (set_word i v d) j = word d j) ∧
  length_of (set_word i v d) = (if decide (i = 14) then v else length_of d) ∧
  eof (set_word i v d) = (if decide (i = 13) then v else eof d) ∧
  (i ≠ 12 → isdir (set_word i v d) = isdir d).
Proof.
  intros Hl Hi Hv. unfold length_of, eof, isdir.
  rewrite !word_set_word by lia. split_and!.
  - intros j Hj. rewrite word_set_word by lia. by rewrite decide_False by lia.
  - repeat case_decide; try lia; by apply s32_u32.
  - repeat case_decide; try lia; by apply s32_u32.
  - intros. by rewrite decide_False by lia.
Qed.

Lemma bytes_to_sectors_ceil n : 0 ≤ n < 2 ^ 31 - 512 → bytes_to_sectors n = (n + 511) `div` 512.
Proof.
  intros. unfold bytes_to_sectors. rewrite !s32_small by (rewrite ?s32_small; lia).
  rewrite Z.quot_div_nonneg by lia. replace (n + 512 - 1) with (n + 511) by lia. apply u32_small.
  split; [apply Z.div_pos; lia|]. apply Z.div_lt_upper_bound; lia.
Qed.
End fields.

Lemma words_at_upd g k ws :
  length ws = 128%nat → Forall is_word ws → words_at (upd g k (words_bytes ws)) k = Some ws.
Proof.
  intros Hl Hw. unfold words_at, upd. rewrite decide_True by done. simpl.
  f_equal. by apply words_bytes_ok.
Qed.

Lemma wp_update_inode s p i d (Q : unit → fs → Prop) :
  ready s → inodes s !! p = Some i → length d = 128%nat → Forall is_word d → is_Some (img s (isector i)) →
  (∀ s', touched s s' (upd (img s) (isector i) (words_bytes d)) (free_map s) (<[p := set_data d i]> (inodes s)) →
     Q tt s') →
  wp (update_inode p d) s Q.
Proof.
  intros Hr Hi Hl Hw [old Hold] HQ. unfold update_inode. wp_step. eapply wp_get_inode; [exact Hi|]. wp_step.
  eapply wp_fs_write_words; [done|exact Hold|done|done|]. intros s1 H1 _. wp_step.
  eapply wp_fs_read_words; [apply H1| |].
  { unfold words_at. rewrite (t_img _ _ _ _ _ H1). by apply words_at_upd. }
  intros s2 H2 _. wp_step.
  assert (touched s s2 (upd (img s) (isector i) (words_bytes d)) (free_map s) (inodes s)) as H12 by by eapply quiet_r.
  eapply wp_get_inode; [by rewrite (t_inodes _ _ _ _ _ H12)|].
  apply wp_put_inode; [apply H2|]. intros s3 H3 _ _. apply HQ.
  rewrite (t_inodes _ _ _ _ _ H12), (t_map _ _ _ _ _ H12) in H3.
  eapply touched_ext; [by eapply touched_trans|]. apply H12.
Qed.

(** The inode while [inode_write_at] holds its lock (a directory's is held by
    the directory operation already). *)
Definition locked (i : inode) : inode := if isdir (data i) then i else set_lock true i.
Definition may_lock (i : inode) : Prop := isdir (data i) = true ∨ inode_lock i = false.

Lemma locked_isector i : isector (locked i) = isector i.
Proof. unfold locked. by destruct (isdir (data i)). Qed.
Lemma locked_data i : data (locked i) = data i.
Proof. unfold locked. by destruct (isdir (data i)). Qed.

Lemma wp_lock_file s p i (Q : unit → fs → Prop) :
  ready s → inodes s !! p = Some i → may_lock i →
  (∀ s', touched s s' (img s) (free_map s) (<[p := locked i]> (inodes s)) → Q tt s') →
  wp (lock_file p) s Q.
Proof.
  intros Hr Hi Hl HQ. unfold lock_file. wp_step. unfold inode_isdir. wp_step. eapply wp_get_inode; [exact Hi|]. wp_steps.
  unfold locked in HQ. destruct (isdir (data i)) eqn:Ed; simpl.
  - wp_steps. apply HQ. rewrite insert_id by done. by split.
  - destruct Hl as [?|Hl]; [congruence|]. unfold inode_lock_acquire. wp_step.
    eapply wp_get_inode; [exact Hi|]. wp_step. apply wp_assert; [by rewrite Hl|].
    apply wp_put_inode; [done|]. intros s' Ht _ _. auto.
Qed.

Lemma wp_unlock_file s p i d (Q : unit → fs → Prop) :
  ready s → inodes s !! p = Some (set_data d (locked i)) → may_lock i → isdir d = isdir (data i) →
  (∀ s', touched s s' (img s) (free_map s) (<[p := set_data d i]> (inodes s)) → Q tt s') →
  wp (unlock_file p) s Q.
Proof.
  intros Hr Hi Hl Hd HQ. unfold unlock_file. wp_step. unfold inode_isdir. wp_step. eapply wp_get_inode; [exact Hi|]. wp_steps. simpl.
  rewrite Hd. unfold locked in Hi. destruct (isdir (data i)) eqn:Ed; simpl.
  - wp_steps. apply HQ. rewrite insert_id by done. by split.
  - destruct Hl as [?|Hl]; [congruence|]. unfold inode_lock_release. wp_step.
    eapply wp_get_inode; [exact Hi|]. wp_step. apply wp_assert; [done|].
    apply wp_put_inode; [done|]. intros s' Ht _ _. apply HQ.
    destruct i. simpl in *. subst. exact Ht.
Qed.

(** ** Extending a file

    What the allocation phase must achieve, from [N] to [N'] sectors: the
    sectors in place keep their bytes, the new ones hold zeros. *)
Record grown (g : image) (isec : Z) (d : list Z) (N : Z) (g' : image) (d' : list Z) (N' : Z) : Prop := Grown {
  gr_laid : laid_out g' isec d' N';
  gr_fields : ∀ j, 12 ≤ j → word d' j = word d j;
  gr_isec : g' isec = g isec;
  gr_bytes : ∀ x, 0 ≤ x < 512 * N' → byte_at g' d' x = if decide (x < 512 * N) then byte_at g d x else Some 0 }.

Lemma grown_refl g isec d N : laid_out g isec d N → grown g isec d N g d N.
Proof. intros H. split; try done. intros x Hx. by rewrite decide_True by lia. Qed.

(** The image after the inode's sector has been rewritten. *)
Lemma upd_isec g isec d N ws :
  laid_out g isec d N → let g' := upd g isec ws in
  laid_out g' isec d N ∧ (∀ x, 0 ≤ x < 512 * N → byte_at g' d x = byte_at g d x) ∧
  (∀ k, data_sector g' d N k ↔ data_sector g d N k) ∧ (∀ k, tree g' d N k ↔ tree g d N k).
Proof.
  intros Hl g'. destruct Hl as [? ? ? Hp [old Hold] Hid Hit He] eqn:E. clear E.
  assert (∀ k, is_Some (g k) → is_Some (g' k)) as Hsome.
  { intros k Hk. unfold g', upd. case_decide; [by eexists|done]. }
  assert (∀ k, k ≠ isec → g' k = g k) as Hg by (intros k Hk; unfold g', upd; by rewrite decide_False).
  assert (∀ k, tree g d N k → g' k = g k) as Htree by (intros k Hk; apply Hg; by intros ->).
  split_and!.
  - by eapply laid_out_kept.
  - intros x Hx. eapply byte_at_kept; [done| |done]. intros k [Hk|Hk]; [auto|]. apply Hg. by intros ->.
  - by apply tree_kept.
  - by apply tree_kept.
Qed.

(** A file of [N] sectors that has been made ready for [L'] bytes, in the state
    [s'] after the allocation left [s2] and the inode [d1]. *)
Definition same_ptrs (d d' : list Z) : Prop := ∀ j, 0 ≤ j < 12 → word d' j = word d j.
Record extended (s s2 s' : fs) (p : Z) (i : inode) (d1 d' : list Z) (N N' L' : Z) : Prop := Extended {
  ex_touched : touched s s' (img s') (free_map s2) (<[p := set_data d' i]> (inodes s));
  ex_laid : laid_out (img s') (isector i) d' N';
  ex_disk : words_at (img s') (isector i) = Some d';
  ex_len : length_of d' = L';
  ex_eof : eof d' = eof (data i);
  ex_isdir : isdir d' = isdir (data i);
  ex_same : L' = length_of (data i) → d' = data i;
  ex_ptrs : same_ptrs d1 d';
  ex_other : ∀ k, k ≠ isector i → img s' k = img s2 k;
  ex_bytes : ∀ x, 0 ≤ x < 512 * N' →
    byte_at (img s') d' x = if decide (x < 512 * N) then byte_at (img s) (data i) x else Some 0 }.

Section body.
Variable rec : Z → list Z → Z → Z → M fs Z.
Context (s : fs) (p : Z) (i : inode) (bs : list Z).
Hypothesis Hr : ready s.
Hypothesis Hp : p ≠ 0.
Hypothesis Hi : inodes s !! p = Some i.
Hypothesis Hlock : may_lock i.
Hypothesis Hfile : holds (img s) (isector i) (data i) bs.

Let N := sectors bs.
Let d := data i.
Let g := img s.

(** [P] is what is known of the state that the allocation leaves. *)
Variable P : list Z → fs → Prop.
Definition allocates (N' : Z) : Prop :=
  N < N' → ∀ s1, touched s s1 g (free_map s) (<[p := locked i]> (inodes s)) →
  wp (sector_allocate_with rec (N' - N) d) s1 (λ '(_, d1) s2,
    touched s1 s2 (img s2) (free_map s2) (inodes s1) ∧ grown g (isector i) d N (img s2) d1 N' ∧ P d1 s2).

Lemma wp_finish_extend s1 s2 d1 d2 N' L' (Q : list Z → fs → Prop) :
  touched s s2 (img s2) (free_map s1) (<[p := set_data d2 (locked i)]> (inodes s)) →
  laid_out (img s2) (isector i) d2 N' → words_at (img s2) (isector i) = Some d2 →
  length_of d2 = L' → eof d2 = eof d → isdir d2 = isdir d → (L' = length_of d → d2 = d) →
  same_ptrs d1 d2 →
  (∀ k, k ≠ isector i → img s2 k = img s1 k) →
  (∀ x, 0 ≤ x < 512 * N' → byte_at (img s2) d2 x = if decide (x < 512 * N) then byte_at g d x else Some 0) →
  (∀ s', extended s s1 s' p i d1 d2 N N' L' → Q d2 s') →
  wp (unlock_file p ;; mret d2) s2 Q.
Proof.
  intros H2 Hl Hd Hlen Heof Hdir Hsame Hptr Ho Hb HQ. wp_step.
  eapply (wp_unlock_file _ _ i d2); [apply H2|by rewrite (t_inodes _ _ _ _ _ H2), lookup_insert_eq|done|done|].
  intros s3 H3. wp_steps. apply HQ.
  assert (Hg : ∀ k, img s3 k = img s2 k) by apply H3.
  pose proof (touched_trans _ _ _ _ _ _ _ _ _ H2 H3) as H23.
  rewrite (t_inodes _ _ _ _ _ H2), insert_insert_eq, (t_map _ _ _ _ _ H2) in H23.
  split; try done.
  - eapply touched_ext; [exact H23|]. intros k. by rewrite Hg.
  - eapply laid_out_kept; [exact Hl|intros k; by rewrite Hg|intros k _; apply Hg].
  - unfold words_at. by rewrite Hg.
  - intros k Hk. rewrite Hg. auto.
  - intros x Hx. rewrite (byte_at_ext _ _ _ _ Hg). auto.
Qed.

Lemma wp_extend_length s1 d1 new N' (Q : list Z → fs → Prop) :
  touched s s1 (img s1) (free_map s1) (<[p := locked i]> (inodes s)) →
  grown g (isector i) d N (img s1) d1 N' → 0 ≤ new < 2 ^ 31 → (Z.of_nat (length bs) < new ∨ d1 = d) →
  (∀ d' s', extended s s1 s' p i d1 d' N N' (Z.max (Z.of_nat (length bs)) new) → Q d' s') →
  wp (inode_disk ← (if length_of d1 <? new then
        update_inode p (set_word 14 new d1) ;; mret (set_word 14 new d1) else mret d1);
      unlock_file p ;; mret inode_disk) s1 Q.
Proof.
  intros H1 [Hl Hf Hs Hb] Hnew Hcase HQ. pose proof (lo_len _ _ _ _ Hl) as H128.
  assert (length_of d1 = Z.of_nat (length bs)) as Hlen by (unfold length_of; rewrite Hf by lia; apply Hfile).
  assert (eof d1 = eof d) as Heof by (unfold eof; by rewrite Hf by lia).
  assert (isdir d1 = isdir d) as Hdir by (unfold isdir; by rewrite Hf by lia).
  rewrite Hlen. wp_step. destruct (Z.ltb_spec (Z.of_nat (length bs)) new) as [Hlt|Hge].
  - destruct (set_word_fields 14 new d1 H128 ltac:(lia) ltac:(lia)) as (Hp12 & Hl2 & He2 & Hd2).
    rewrite decide_True in Hl2 by done. rewrite decide_False in He2 by lia. set (d2 := set_word 14 new d1) in *.
    assert (length d2 = 128%nat) as Hl128 by (by rewrite <-H128; apply length_set_word).
    assert (Forall is_word d2) as Hwords by (apply words_set_word, Hl).
    pose proof (locked_isector i) as Hisec.
    wp_step. eapply (wp_update_inode _ _ (locked i) d2);
      [apply H1|by rewrite (t_inodes _ _ _ _ _ H1), lookup_insert_eq|done|done|rewrite Hisec; apply Hl|].
    intros s2 H2. apply wp_ret. cbn beta. rewrite Hisec in H2.
    pose proof (laid_out_fields _ _ _ d2 _ Hl Hl128 Hwords Hp12) as Hl'.
    destruct (upd_isec _ _ _ _ (words_bytes d2) Hl') as (Hlu & Hbu & _ & _).
    assert (Hg2 := t_img _ _ _ _ _ H2).
    eapply (wp_finish_extend s1 s2 d1 d2 N'); [| | | |congruence|rewrite Hd2 by lia; congruence| |exact Hp12| | |].
    + pose proof (touched_trans _ _ _ _ _ _ _ _ _ H1 H2) as H12.
      rewrite (t_inodes _ _ _ _ _ H1), insert_insert_eq in H12. eapply touched_ext; [exact H12|].
      intros k. by rewrite Hg2.
    + eapply laid_out_kept; [exact Hlu|intros k; by rewrite Hg2|intros k _; apply Hg2].
    + unfold words_at. rewrite Hg2. by apply words_at_upd.
    + exact Hl2.
    + rewrite (h_len _ _ _ _ Hfile : length_of d = _). lia.
    + intros k Hk. rewrite Hg2. unfold upd. by rewrite decide_False.
    + intros x Hx. rewrite (byte_at_ext _ _ _ _ Hg2), Hbu by done.
      rewrite (proj2 (proj2 (same_file (img s1) d1 d2 N' Hp12))). auto.
    + intros s' Hex. apply HQ. by replace (Z.max (Z.of_nat (length bs)) new) with new by lia.
  - destruct Hcase as [?|Ed]; [lia|]. subst d1. apply wp_ret. cbn beta.
    eapply (wp_finish_extend s1 s1 d d N' (Z.of_nat (length bs))); [|exact Hl| |exact Hlen|done|done|done|done|done|exact Hb|].
    + eapply touched_ext; [|done]. replace (set_data d (locked i)) with (locked i); [done|].
      unfold d, locked. destruct i as [? ? ? ? dd ?]. simpl. by destruct (isdir dd).
    + unfold words_at. rewrite Hs. apply Hfile.
    + intros s' Hex. apply HQ. by rewrite Z.max_l by lia.
Qed.

Lemma wp_extend new (Q : list Z → fs → Prop) :
  let N' := Z.max N ((new + 511) `div` 512) in
  0 ≤ new < 2 ^ 31 - 512 → allocates N' →
  (∀ d1 d' s2 s', (N < N' → P d1 s2) → (N = N' → d1 = d ∧ touched s s2 g (free_map s) (<[p := locked i]> (inodes s))) →
     extended s s2 s' p i d1 d' N N' (Z.max (Z.of_nat (length bs)) new) → Q d' s') →
  wp (extend_with rec p new) s Q.
Proof.
  intros N' Hnew Halloc HQ. unfold extend_with. wp_step. eapply wp_lock_file; [done|exact Hi|done|].
  intros s1 H1. wp_step. eapply wp_get_inode; [by rewrite (t_inodes _ _ _ _ _ H1), lookup_insert_eq|].
  rewrite locked_isector, locked_data. fold d.
  pose proof (lo_N _ _ _ _ (h_laid _ _ _ _ Hfile)) as HN. fold N in HN. unfold MAX_SECTORS in HN.
  assert (Hbs : Z.of_nat (length bs) < 2 ^ 31 - 512).
  { unfold N, sectors in HN. pose proof (Z.div_mod (Z.of_nat (length bs) + 511) 512 ltac:(lia)).
    pose proof (Z.mod_pos_bound (Z.of_nat (length bs) + 511) 512 ltac:(lia)). lia. }
  rewrite (h_len _ _ _ _ Hfile : length_of d = _). rewrite !bytes_to_sectors_ceil by lia.
  change ((Z.of_nat (length bs) + 511) `div` 512) with N.
  wp_step. apply wp_fs_malloc; [apply H1|]. intros s2 H2 _.
  assert ((next s1 =? 0) = false) as -> by (apply Z.eqb_neq; destruct (t_ready _ _ _ _ _ H1) as (_ & ? & _); lia).
  wp_step. eapply wp_fs_read_words; [apply H2| |].
  { unfold words_at. rewrite (t_img _ _ _ _ _ H2), (t_img _ _ _ _ _ H1). apply Hfile. }
  intros s3 H3 _. assert (touched s s3 g (free_map s) (<[p := locked i]> (inodes s))) as H03.
  { eapply quiet_r; [|exact H3]. by eapply quiet_r. }
  wp_step. destruct (Z.ltb_spec N ((new + 511) `div` 512)) as [Hlt|Hge].
  - assert (N' = (new + 511) `div` 512) as EN by (unfold N'; lia). rewrite <-EN in *. wp_step.
    eapply wp_mono; [apply (Halloc Hlt s3 H03)|]. intros [ok d1] s4 (H4 & Hgr & HP). apply wp_ret. cbn beta.
    eapply wp_extend_length; [|exact Hgr|lia| |].
    + pose proof (touched_trans _ _ _ _ _ _ _ _ _ H03 H4) as H34. by rewrite (t_inodes _ _ _ _ _ H03) in H34.
    + left. assert (¬ new ≤ Z.of_nat (length bs)); [|lia]. intros Hle.
      assert (N' ≤ N); [|lia]. rewrite EN. unfold N, sectors. apply Z.div_le_mono; lia.
    + intros d' s' Hex. eapply (HQ d1 d' s4); [done|lia|exact Hex].
  - assert (N' = N) as EN by (unfold N'; lia). apply wp_ret. cbn beta. rewrite EN in *.
    eapply (wp_extend_length s3 d new N); [| |lia|by right|].
    + destruct H03. by split.
    + assert (Hg : ∀ k, img s3 k = g k) by apply H03. split; [|by intros|apply Hg|].
      * eapply laid_out_kept; [apply Hfile|intros k; by rewrite Hg|intros k _; apply Hg].
      * intros x Hx. rewrite decide_True by lia. by apply byte_at_ext.
    + intros d' s' Hex. eapply (HQ d d' s3); [lia| |exact Hex]. intros _. by split.
Qed.

(** After the data has been written, the end of file is moved. *)
Lemma wp_move_eof s1 d1 N' new (Q : unit → fs → Prop) :
  touched s s1 (img s1) (free_map s1) (<[p := set_data d1 i]> (inodes s)) →
  laid_out (img s1) (isector i) d1 N' → words_at (img s1) (isector i) = Some d1 → 0 ≤ new < 2 ^ 31 →
  (∀ d' s', touched s s' (img s') (free_map s1) (<[p := set_data d' i]> (inodes s)) →
     laid_out (img s') (isector i) d' N' → words_at (img s') (isector i) = Some d' →
     length_of d' = length_of d1 → eof d' = Z.max (eof d1) new → isdir d' = isdir d1 →
     (∀ k, k ≠ isector i → img s' k = img s1 k) →
     (∀ k, data_sector (img s') d' N' k ↔ data_sector (img s1) d1 N' k) →
     (∀ x, 0 ≤ x < 512 * N' → byte_at (img s') d' x = byte_at (img s1) d1 x) →
     (new ≤ eof d1 → d' = d1) → same_ptrs d1 d' → Q tt s') →
  wp (if eof d1 <? new then update_inode p (set_word 13 new d1) else mret tt) s1 Q.
Proof.
  intros H1 Hl Hd Hnew HQ. pose proof (lo_len _ _ _ _ Hl) as H128.
  destruct (Z.ltb_spec (eof d1) new) as [Hlt|Hge].
  2: { wp_steps. eapply (HQ d1); try done. lia. }
  destruct (set_word_fields 13 new d1 H128 ltac:(lia) ltac:(lia)) as (Hp12 & Hl2 & He2 & Hd2).
  rewrite decide_False in Hl2 by lia. rewrite decide_True in He2 by done. set (d2 := set_word 13 new d1) in *.
  assert (length d2 = 128%nat) as Hl128 by (by rewrite <-H128; apply length_set_word).
  assert (Forall is_word d2) as Hwords by (apply words_set_word, Hl).
  eapply (wp_update_inode _ _ (set_data d1 i) d2);
    [apply H1|by rewrite (t_inodes _ _ _ _ _ H1), lookup_insert_eq|done|done|apply Hl|].
  intros s2 H2. cbn [isector set_data] in H2.
  pose proof (laid_out_fields _ _ _ d2 _ Hl Hl128 Hwords Hp12) as Hl'.
  destruct (upd_isec _ _ _ _ (words_bytes d2) Hl') as (Hlu & Hbu & Hdu & _).
  destruct (same_file (img s1) d1 d2 N' Hp12) as (Hsd & _ & Hsb).
  assert (Hg2 := t_img _ _ _ _ _ H2). apply (HQ d2).
  - pose proof (touched_trans _ _ _ _ _ _ _ _ _ H1 H2) as H12.
    rewrite (t_inodes _ _ _ _ _ H1), insert_insert_eq in H12. eapply touched_ext; [exact H12|].
    intros k. by rewrite Hg2.
  - eapply laid_out_kept; [exact Hlu|intros k; by rewrite Hg2|intros k _; apply Hg2].
  - unfold words_at. rewrite Hg2. by apply words_at_upd.
  - exact Hl2.
  - rewrite He2. lia.
  - apply Hd2. lia.
  - intros k Hk. rewrite Hg2. unfold upd. by rewrite decide_False.
  - intros k. rewrite <-Hsd, <-Hdu. apply tree_kept. intros k' _. apply Hg2.
  - intros x Hx. rewrite (byte_at_ext _ _ _ _ Hg2), Hbu by done. apply Hsb.
  - lia.
  - exact Hp12.
Qed.

Lemma sectors_overwrite off w :
  sectors (overwrite bs off w) = Z.max N ((Z.of_nat (off + length w) + 511) `div` 512).
Proof.
  unfold sectors, N. rewrite length_overwrite. destruct (decide (length bs ≤ off + length w)%nat).
  - rewrite Nat.max_r, Z.max_r; [done| |done]. apply Z.div_le_mono; lia.
  - rewrite Nat.max_l, Z.max_l; [done| |lia]. apply Z.div_le_mono; lia.
Qed.

Lemma wp_write_body buf size off (Q : Z → fs → Prop) :
  let N' := Z.max N ((off + size + 511) `div` 512) in
  deny_write_cnt i = 0 → 0 ≤ off → 0 ≤ size → off + size ≤ 512 * MAX_SECTORS →
  size ≤ Z.of_nat (length buf) → Forall is_byte buf → allocates N' →
  (∀ d1 d' s2 s', (N < N' → P d1 s2) → (N = N' → d1 = d ∧ touched s s2 g (free_map s) (<[p := locked i]> (inodes s))) →
     touched s s' (img s') (free_map s2) (<[p := set_data d' i]> (inodes s)) →
     holds (img s') (isector i) d' (overwrite bs (Z.to_nat off) (piece buf 0 size)) →
     isdir d' = isdir d → (off + size ≤ Z.of_nat (length bs) → d' = d) → same_ptrs d1 d' →
     (∀ k, k ≠ isector i → ¬ data_sector (img s') d' N' k → img s' k = img s2 k) → Q size s') →
  wp (inode_write_body rec p buf size off) s Q.
Proof.
  intros N' Hdeny Hoff Hsize Hmax Hbuf Hbytes Halloc HQ. unfold MAX_SECTORS in Hmax. unfold inode_write_body.
  wp_step. eapply wp_get_inode; [exact Hi|]. rewrite Hdeny. cbn [negb Z.eqb]. rewrite s32_small by lia.
  wp_step. apply (wp_extend (off + size)); [lia|exact Halloc|]. fold N'.
  intros d0 d1 s2 s1 HP HsameN [H1 Hl1 Hd1 Hlen1 Heof1 Hdir1 Hsame1 Hptr1 Ho1 Hb1]. wp_step.
  assert (Hceil : off + size ≤ 512 * N').
  { unfold N'. pose proof (Z.div_mod (off + size + 511) 512 ltac:(lia)).
    pose proof (Z.mod_pos_bound (off + size + 511) 512 ltac:(lia)). lia. }
  pose proof (lo_N _ _ _ _ (h_laid _ _ _ _ Hfile)) as HN. fold N in HN. unfold MAX_SECTORS in HN.
  assert (Hbs : Z.of_nat (length bs) < 2 ^ 31).
  { unfold N, sectors in HN. pose proof (Z.div_mod (Z.of_nat (length bs) + 511) 512 ltac:(lia)).
    pose proof (Z.mod_pos_bound (Z.of_nat (length bs) + 511) 512 ltac:(lia)). lia. }
  eapply (wp_write_data s1 p (set_data d1 i) buf size off N'); [apply H1|done| |apply Hl1|lia|lia| | |lia|lia|done|].
  { by rewrite (t_inodes _ _ _ _ _ H1), lookup_insert_eq. }
  { cbn [data set_data]. lia. } { cbn [data set_data]. lia. }
  cbn [data set_data]. intros s3 H3 Hw. wp_step.
  assert (H13 : touched s s3 (img s3) (free_map s3) (<[p := set_data d1 i]> (inodes s))).
  { pose proof (touched_trans _ _ _ _ _ _ _ _ _ H1 H3) as H. rewrite (t_inodes _ _ _ _ _ H1) in H.
    destruct H. by split. }
  assert (Hl3 : laid_out (img s3) (isector i) d1 N').
  { eapply laid_out_kept; [exact Hl1|apply Hw|]. eapply wrote_tree; [apply Hl1|exact Hw]. }
  assert (Hisec3 : img s3 (isector i) = img s1 (isector i)) by (apply Hw, Hl1).
  eapply (wp_move_eof s3 d1 N' (off + size)); [exact H13|exact Hl3| |lia|].
  { unfold words_at. rewrite Hisec3. exact Hd1. }
  intros d' s' H' Hl' Hd' Hlen' Heof' Hdir' Ho' Hds' Hb' Hsame' Hptr'. wp_steps.
  assert (Hpl : length (piece buf 0 size) = Z.to_nat size) by (apply length_piece; lia).
  assert (Hold : ∀ x, 0 ≤ x < 512 * N' → byte_at (img s1) d1 x = Some (default 0 (bs !! Z.to_nat x))).
  { intros x Hx. rewrite Hb1 by done. case_decide as Hx512; [apply Hfile; fold N; lia|].
    rewrite lookup_ge_None_2; [done|]. unfold N, sectors in Hx512.
    pose proof (Z.div_mod (Z.of_nat (length bs) + 511) 512 ltac:(lia)).
    pose proof (Z.mod_pos_bound (Z.of_nat (length bs) + 511) 512 ltac:(lia)). lia. }
  apply (HQ d0 d' s2 s'); [done|done| | |by rewrite Hdir', Hdir1| | |].
  - rewrite (t_map _ _ _ _ _ H3), (t_map _ _ _ _ _ H1) in H'. exact H'.
  - assert (sectors (overwrite bs (Z.to_nat off) (piece buf 0 size)) = N') as ES.
    { rewrite sectors_overwrite, Hpl. unfold N'. do 3 f_equal. lia. }
    assert (length (overwrite bs (Z.to_nat off) (piece buf 0 size)) = Z.to_nat (Z.max (Z.of_nat (length bs)) (off + size))) as EL.
    { rewrite length_overwrite, Hpl. lia. }
    split; rewrite ?ES, ?EL; [exact Hl'|exact Hd'| |lia|].
    + rewrite Heof', Heof1. rewrite (h_eof _ _ _ _ Hfile). lia.
    + intros x Hx. rewrite Hb' by done. rewrite (wr_bytes _ _ _ _ _ _ Hw) by done. rewrite Hpl, Z2Nat.id by lia.
      destruct (decide (x < Z.max (Z.of_nat (length bs)) (off + size))) as [Hin|Hout].
      * rewrite lookup_overwrite by (rewrite Hpl; lia). rewrite Hpl. repeat case_decide; try lia.
        -- destruct (lookup_lt_is_Some_2 (piece buf 0 size) (Z.to_nat x - Z.to_nat off)) as [b Hb]; [lia|].
           replace (Z.to_nat (x - off)) with (Z.to_nat x - Z.to_nat off)%nat by lia. by rewrite Hb.
        -- by apply Hold.
      * rewrite (lookup_ge_None_2 (overwrite _ _ _)) by lia. rewrite decide_False by lia. rewrite Hold by done.
        by rewrite lookup_ge_None_2 by lia.
  - pose proof (h_len _ _ _ _ Hfile). pose proof (h_eof _ _ _ _ Hfile). intros Hle.
    rewrite Hsame' by lia. apply Hsame1. lia.
  - intros j Hj. by rewrite Hptr', Hptr1.
  - intros k Hk Hkd. rewrite Ho', (wr_other _ _ _ _ _ _ Hw), Ho1; [done|done| |done].
    intros Hk'. apply Hkd, Hds'. by apply (data_sector_wrote _ _ _ _ _ _ _ (lo_placed _ _ _ _ Hl1) Hw).
Qed.
End body.
