(* ===== verification/FreeMap.v ===== *)
(** * The free map: allocating sectors

    [map_inv]: the free map in memory and the file it is kept in agree, there is
    a bit for each sector of the device, and the sectors of the free map's own
    file are marked.  Allocating takes the first free sector and keeps this. *)
From S2P Require Import Prelude Bitmap BitmapFacts Block BlockFacts Inode InodeFacts InodeBody.
Local Open Scope Z_scope.

(** ** One free bit *)
Definition free_bits (b : bitmap) : list Z := filter (λ k, bit b k = false) (seqZ 0 (bit_cnt b)).

Definition marked (b : bitmap) (k : Z) (b' : bitmap) : Prop :=
  wf b' ∧ bit_cnt b' = bit_cnt b ∧ ∀ j, 0 ≤ j → bit b' j = if decide (j = k) then true else bit b j.

Lemma wp_take_free b (Q : Z → bitmap → Prop) :
  wf b →
  (∀ k b', k ≠ BITMAP_ERROR → 0 ≤ k < bit_cnt b → bit b k = false → (∀ j, 0 ≤ j < k → bit b j = true) →
     marked b k b' → Q k b') →
  (free_bits b = [] → Q BITMAP_ERROR b) →
  wp (bitmap_scan_and_flip 0 1 false) b Q.
Proof.
  intros Hwf HQ HQ0. unfold bitmap_scan_and_flip. wp_step.
  eapply wp_mono; [apply wp_bitmap_scan; [done|destruct Hwf; lia|lia]|].
  intros r b' [-> [[Hr (H0 & Hin & Hg & Hfirst)]|[-> Hg]]].
  - rewrite (proj2 (Z.eqb_neq r _)) by done. simpl.
    wp_step. eapply wp_mono; [apply wp_bitmap_set_multiple; [done|lia..]|].
    intros _ b' (Hwf' & Hc & Hb). wp_steps. apply HQ; [done|lia|apply Hg; lia| |].
    + intros j Hj. specialize (Hfirst j Hj). destruct (bit b j) eqn:E; [done|]. exfalso. apply Hfirst.
      intros j' Hj'. by replace j' with j by lia.
    + split_and!; [done|done|]. intros j Hj. rewrite Hb by done.
      destruct (Z.leb_spec r j), (Z.ltb_spec j (r + 1)), (decide (j = r)); try lia; done.
  - rewrite Z.eqb_refl. simpl. wp_steps. apply HQ0. apply elem_of_nil_inv. intros k. unfold free_bits.
    rewrite list_elem_of_filter, elem_of_seqZ. intros [Hk Hin]. apply (Hg k); [lia|lia|].
    intros j Hj. by replace j with k by lia.
Qed.

Lemma marked_free b k b' :
  marked b k b' → 0 ≤ k < bit_cnt b → bit b k = false → length (free_bits b) = S (length (free_bits b')).
Proof.
  intros (_ & Hc & Hb) Hk Hbit. unfold free_bits. rewrite Hc.
  assert (Hin : k ∈ seqZ 0 (bit_cnt b)) by (apply elem_of_seqZ; lia).
  pose proof (NoDup_seqZ 0 (bit_cnt b)) as Hnd. apply list_elem_of_split in Hin as (l1 & l2 & E).
  assert (Hpos : ∀ j, j ∈ l1 ++ l2 → 0 ≤ j ∧ j ≠ k).
  { intros j Hj. rewrite E in Hnd. apply NoDup_app in Hnd as (_ & Hn1 & Hn2). apply NoDup_cons in Hn2 as [Hn2 _].
    split; [|intros ->; apply elem_of_app in Hj as [Hj|Hj]; [apply (Hn1 k Hj); set_solver|done]].
    assert (j ∈ seqZ 0 (bit_cnt b)) as [? ?]%elem_of_seqZ; [rewrite E; set_solver|done]. }
  assert (Hsame : ∀ l : list Z, (∀ j, j ∈ l → j ∈ l1 ++ l2) →
    filter (λ k, bit b' k = false) l = filter (λ k, bit b k = false) l).
  { induction l as [|j l IH]; intros Hl; [done|]. rewrite !filter_cons, IH by set_solver.
    destruct (Hpos j (Hl j ltac:(set_solver))). by rewrite Hb, (decide_False (P := j = k)) by done. }
  rewrite E, !filter_app, !filter_cons, !Hsame by set_solver.
  rewrite decide_True by done. rewrite decide_False by (rewrite Hb, decide_True by lia; done).
  rewrite !length_app. simpl. lia.
Qed.

(** ** The file of the free map *)
Definition map_bytes (b : bitmap) : list Z :=
  take (Z.to_nat (byte_cnt (bit_cnt b))) (words_bytes (bits b)).

Lemma map_bytes_ok b :
  wf b → Z.of_nat (length (map_bytes b)) = byte_cnt (bit_cnt b) ∧ Forall is_byte (map_bytes b).
Proof.
  intros [Hc Hl Hw]. unfold map_bytes, words_bytes. split.
  - rewrite length_take, length_word_bytes. unfold byte_cnt in *. rewrite elem_cnt_ceil in * by done.
    assert (0 ≤ (bit_cnt b + 31) `div` 32 < 2 ^ 27 + 1) by (split; [apply Z.div_pos|apply Z.div_lt_upper_bound]; lia).
    rewrite u32_small by lia. lia.
  - apply Forall_take. clear. induction (bits b) as [|w ws IH]; [constructor|].
    rewrite fmap_cons, mjoin_cons. apply Forall_app. split; [|done].
    repeat constructor; by apply Z.mod_pos_bound.
Qed.

Lemma overwrite_all bs cs : length cs = length bs → overwrite bs 0 cs = cs.
Proof. intros H. unfold overwrite. simpl. by rewrite drop_ge, app_nil_r by lia. Qed.

(** The open file that the free map is kept in. *)
Record map_file (s : fs) (pi : Z) (fi : inode) : Prop := MapFile {
  mf_open : free_map_file s ≠ 0;
  mf_file : ∃ f, files s !! free_map_file s = Some f ∧ finode f = pi;
  mf_pi : pi ≠ 0;
  mf_inode : inodes s !! pi = Some fi;
  mf_sector : isector fi = FREE_MAP_SECTOR;
  mf_deny : deny_write_cnt fi = 0;
  mf_lock : may_lock fi;
  mf_wf : wf (free_map s);
  mf_size : byte_cnt (bit_cnt (free_map s)) ≤ 512 * MAX_SECTORS }.

Lemma set_data_id i : set_data (data i) i = i.
Proof. by destruct i. Qed.

Lemma wp_free_map_write n s pi fi bs (Q : bool → fs → Prop) :
  ready s → map_file s pi fi → holds (img s) (isector fi) (data fi) bs →
  length bs = length (map_bytes (free_map s)) →
  (∀ s', touched s s' (img s') (free_map s) (inodes s) →
     holds (img s') (isector fi) (data fi) (map_bytes (free_map s)) →
     (∀ k, k ≠ isector fi → ¬ data_sector (img s') (data fi) (sectors bs) k → img s' k = img s k) →
     Q true s') →
  wp (free_map_write (write_at (S n))) s Q.
Proof.
  intros Hr [Ho (f & Hf & Hfi) Hpi Hi _ Hd Hl Hwf Hsz] Hh Hlen HQ.
  destruct (map_bytes_ok _ Hwf) as [Hmb Hbytes].
  assert (Hw : wp (f ← get_file (free_map_file s);
      write_at (S n) (finode f) (map_bytes (free_map s)) (Z.of_nat (length (map_bytes (free_map s)))) 0) s
      (λ r s', r = Z.of_nat (length (map_bytes (free_map s))) ∧ Q true s')).
  { wp_step. unfold get_file. wp_steps. eapply wp_the; [exact Hf|]. rewrite Hfi. cbn [write_at].
    assert (EN : Z.max (sectors bs) ((0 + Z.of_nat (length (map_bytes (free_map s))) + 511) `div` 512) = sectors bs).
    { unfold sectors. rewrite Hlen, Z.add_0_l. apply Z.max_id. }
    eapply (wp_write_body (write_at n) s pi fi bs Hr Hpi Hi Hl Hh (λ _ _, True)); [done|lia|lia|lia|lia|done| |].
    { rewrite EN. intros ?. lia. }
    rewrite EN. intros d1 d' s2 s' _ Hs2 Ht Hh' Hdir Hsame _ Hframe. split; [done|].
    destruct (Hs2 eq_refl) as [_ Hs2t]. assert (Hg2 := t_img _ _ _ _ _ Hs2t). assert (Hm2 := t_map _ _ _ _ _ Hs2t). rewrite Hsame in * by lia.
    rewrite set_data_id, insert_id in Ht by done. rewrite Hm2 in Ht.
    assert (piece (map_bytes (free_map s)) 0 (Z.of_nat (length (map_bytes (free_map s)))) = map_bytes (free_map s)) as EP.
    { unfold piece. by rewrite Nat2Z.id, take_ge by (rewrite length_drop; lia). }
    rewrite EP, overwrite_all in Hh' by lia.
    apply HQ; [exact Ht|exact Hh'|]. intros k Hk Hkd. rewrite Hframe by done. apply Hg2. }
  apply wp_ok in Hw as (r & s' & Hrun & -> & HQ'). unfold wp, free_map_write, bitmap_write, gets, mbind, M_bind, id.
  fold (words_bytes (bits (free_map s))). fold (map_bytes (free_map s)).
  unfold mbind, M_bind in Hrun. rewrite Hrun. cbn. by rewrite Hmb, Z.eqb_refl.
Qed.

(** ** The invariant *)
Definition map_owned (s : fs) (fi : inode) (k : Z) : Prop :=
  owned (img s) (isector fi) (data fi) (sectors (map_bytes (free_map s))) k.

Record map_inv (s : fs) (pi : Z) (fi : inode) : Prop := MapInv {
  mi_file : map_file s pi fi;
  mi_domain : ∀ k, is_Some (img s k) ↔ 0 ≤ k < bit_cnt (free_map s);
  mi_holds : holds (img s) (isector fi) (data fi) (map_bytes (free_map s));
  mi_marked : ∀ k, map_owned s fi k → bit (free_map s) k = true }.

Lemma wp_on_map {A} (m : M bitmap A) s (Q : A → fs → Prop) :
  ready s →
  wp m (free_map s) (λ a b, ∀ s', touched s s' (img s) b (inodes s) → Q a s') → wp (on_map m) s Q.
Proof.
  intros Hr Hw. unfold on_map. wp_steps. eapply wp_mono; [exact Hw|]. intros a b H. apply H. by split.
Qed.

Lemma map_file_kept s s' g b m pi fi :
  map_file s pi fi → touched s s' g b m → m !! pi = Some fi → wf b → bit_cnt b = bit_cnt (free_map s) →
  map_file s' pi fi.
Proof.
  intros [] Ht Hm Hwf Hc. destruct Ht as [? ? Hff ? Hfs ? ? ? ? Hb Hi ?]. split; try done; try congruence.
  by rewrite Hff, Hfs.
Qed.

Lemma sectors_map_bytes b b' :
  wf b → wf b' → bit_cnt b' = bit_cnt b → length (map_bytes b') = length (map_bytes b).
Proof.
  intros Hb Hb' Hc. pose proof (proj1 (map_bytes_ok _ Hb)). pose proof (proj1 (map_bytes_ok _ Hb')). rewrite Hc in *. lia.
Qed.


(** What does not touch the free map's file keeps the invariant. *)
Lemma map_inv_same s s' pi fi :
  map_inv s pi fi → free_map_file s' = free_map_file s → files s' = files s → free_map s' = free_map s →
  inodes s' !! pi = Some fi → (∀ k, is_Some (img s' k) ↔ is_Some (img s k)) →
  (∀ j, map_owned s fi j → img s' j = img s j) →
  map_inv s' pi fi ∧ ∀ j, map_owned s' fi j ↔ map_owned s fi j.
Proof.
  intros [Hf Hd Hh Hm] Hff Hfs Hmap Hpi Hdom Hsame.
  assert (Hown : ∀ j, map_owned s' fi j ↔ map_owned s fi j).
  { intros j. unfold map_owned, owned. rewrite Hmap.
    destruct (tree_kept (img s) (img s') (data fi) (sectors (map_bytes (free_map s)))) as (_ & _ & H1 & H2).
    - intros j' Hj'. apply Hsame. by right; right.
    - by rewrite H1, H2. }
  split; [|done]. split.
  - destruct Hf. split; try done; try congruence. by rewrite Hff, Hfs.
  - intros j. by rewrite Hdom, Hmap.
  - rewrite Hmap. eapply holds_kept; [exact Hh|intros j; by rewrite Hdom|exact Hsame].
  - intros j. rewrite Hown, Hmap. apply Hm.
Qed.

Lemma map_inv_kept s s' pi fi g m :
  map_inv s pi fi → touched s s' g (free_map s) m → m !! pi = Some fi →
  (∀ j, map_owned s fi j → img s' j = img s j) →
  map_inv s' pi fi ∧ ∀ j, map_owned s' fi j ↔ map_owned s fi j.
Proof. intros Hm [] Hpi Hsame. apply map_inv_same; try done. congruence. Qed.

(** Allocating one sector: the first free one is marked, in memory and in the
    file of the free map, and nothing else changes. *)
Definition allocated (s s' : fs) (fi : inode) (k : Z) : Prop :=
  0 ≤ k < bit_cnt (free_map s) ∧ bit (free_map s) k = false ∧ marked (free_map s) k (free_map s') ∧
  (∀ j, map_owned s' fi j ↔ map_owned s fi j) ∧ (∀ j, ¬ map_owned s fi j → img s' j = img s j).

Lemma wp_allocate n s pi fi (Q : option Z → fs → Prop) :
  ready s → map_inv s pi fi → free_bits (free_map s) ≠ [] →
  (∀ k s', touched s s' (img s') (free_map s') (inodes s) → map_inv s' pi fi → allocated s s' fi k →
     Q (Some k) s') →
  wp (allocate_with (write_at (S n)) 1) s Q.
Proof.
  intros Hr [Hf Hdom Hh Hm] Hfree HQ. unfold allocate_with. wp_step. apply wp_on_map; [done|].
  apply wp_take_free; [apply Hf| |done].
  intros k b' Hk Hin Hbit _ Hmk s1 H1. pose proof Hmk as (Hwf' & Hc' & Hb'). wp_steps.
  rewrite (t_file _ _ _ _ _ H1). rewrite (proj2 (Z.eqb_neq k _)) by done.
  rewrite (proj2 (Z.eqb_neq (free_map_file s) _)) by apply Hf. cbn [negb andb]. wp_step.
  assert (Hlen : length (map_bytes b') = length (map_bytes (free_map s))) by (apply sectors_map_bytes; [apply Hf|done..]).
  assert (HN : sectors (map_bytes b') = sectors (map_bytes (free_map s))) by (unfold sectors; by rewrite Hlen).
  assert (Hg1 : ∀ k, img s1 k = img s k) by apply H1.
  assert (Hf1 : map_file s1 pi fi).
  { eapply map_file_kept; [exact Hf|exact H1|apply Hf|done|done]. }
  eapply (wp_free_map_write n s1 pi fi (map_bytes (free_map s))); [apply H1|exact Hf1| | |].
  { eapply holds_kept; [exact Hh|intros j; by rewrite Hg1|intros j _; apply Hg1]. }
  { by rewrite (t_map _ _ _ _ _ H1). }
  rewrite (t_map _ _ _ _ _ H1), (t_inodes _ _ _ _ _ H1). intros s' Ht Hh' Hframe. cbn [negb]. wp_steps.
  rewrite (proj2 (Z.eqb_neq k _)) by done. cbn [negb].
  assert (Hmap : free_map s' = b') by apply Ht.
  assert (Hframe' : ∀ j, j ≠ isector fi → ¬ data_sector (img s') (data fi) (sectors (map_bytes b')) j → img s' j = img s j).
  { intros j Hj1 Hj2. rewrite Hframe; [apply Hg1|done|by rewrite <-HN]. }
  destruct (same_sectors _ _ _ _ _ (h_laid _ _ _ _ Hh') Hframe') as [Hds Hts].
  assert (Hown : ∀ j, map_owned s' fi j ↔ map_owned s fi j).
  { intros j. unfold map_owned, owned. rewrite Hmap, Hds, Hts, HN. done. }
  apply HQ.
  - pose proof (touched_trans _ _ _ _ _ _ _ _ _ H1 Ht) as H. by rewrite Hmap.
  - split.
    + eapply map_file_kept; [exact Hf1|exact Ht|apply Hf|done|]. by rewrite (t_map _ _ _ _ _ H1).
    + intros j. by rewrite Hmap, Hc', <-Hdom, (t_dom _ _ _ _ _ Ht), (t_dom _ _ _ _ _ H1).
    + by rewrite Hmap.
    + intros j Hj. apply Hown in Hj as Hj'. pose proof (Hm j Hj') as Hbj. rewrite Hmap.
      destruct (decide (0 ≤ j)) as [H0|H0]; [rewrite Hb' by done; by case_decide|].
      exfalso. apply H0. apply (owned_some _ _ _ _ _ (h_laid _ _ _ _ Hh)), Hdom in Hj'. lia.
  - split_and!; [lia|lia|done|by rewrite Hmap|exact Hown|]. intros j Hj. apply Hframe'; [intros ->; apply Hj; by left|].
    intros Hd. apply Hj. right; left. rewrite <-HN. by apply Hds.
Qed.

(** ** Growing a file

    Adding sectors to an inode: directly ([grow_direct]) and through the indirect
    block ([grow_indirect]), first as facts about disks, then for
    [sector_allocate] on a disk with enough free sectors.  Files of up to 137
    sectors are covered, that is those without a double indirect block. *)

Section disks.
Implicit Types (g : image) (d ks ws : list Z).

Lemma sector_of_direct g d n : n < 10 → sector_of g d n = Some (direct_block d n) ∧ meta_of g d n = [].
Proof. intros H. unfold sector_of, meta_of. by destruct (Z.ltb_spec n 10); [|lia]. Qed.

Lemma tree_direct g d N k : N ≤ 10 → ¬ tree g d N k.
Proof.
  intros HN [(n & Hn & Hk)|[H _]]; [|lia]. rewrite (proj2 (sector_of_direct g d n ltac:(lia))) in Hk. set_solver.
Qed.

Lemma sector_of_indirect g d n ws :
  10 ≤ n < 138 → words_at g (indirect_block d) = Some ws →
  sector_of g d n = ws !! Z.to_nat (n - 10) ∧ meta_of g d n = [indirect_block d].
Proof.
  intros H Hw. unfold sector_of, meta_of. destruct (Z.ltb_spec n 10); [lia|].
  destruct (Z.ltb_spec n 138); [|lia]. by rewrite Hw.
Qed.

Lemma tree_indirect g d N k : N < 138 → tree g d N k ↔ 10 < N ∧ k = indirect_block d.
Proof.
  intros HN. unfold tree. split.
  - intros [(n & Hn & Hk)|[H _]]; [|lia]. unfold meta_of in Hk.
    destruct (Z.ltb_spec n 10); [set_solver|]. destruct (Z.ltb_spec n 138); [|lia].
    apply list_elem_of_singleton in Hk. split; [lia|done].
  - intros [Hn ->]. left. exists 10. split; [lia|]. unfold meta_of. simpl. set_solver.
Qed.

Lemma byte_at_sector g d n k bs x :
  sector_of g d n = Some k → g k = Some bs → x `div` 512 = n → byte_at g d x = bs !! Z.to_nat (x `mod` 512).
Proof. intros Hs Hk Hx. unfold byte_at. rewrite Hx, Hs. simpl. by rewrite Hk. Qed.

Lemma zero_byte x : zeros !! Z.to_nat (x `mod` 512) = Some 0.
Proof. apply lookup_replicate. pose proof (Z.mod_pos_bound x 512 ltac:(lia)). split; [done|lia]. Qed.

End disks.

(** A layout with [N] old sectors and the new ones [ks] of zeros. *)
Section new_sectors.
Context (g g' : image) (isec : Z) (d d' ks : list Z) (N : Z).
Let N' := N + Z.of_nat (length ks).
Hypothesis Hl : laid_out g isec d N.
Hypothesis Hold : ∀ n, 0 ≤ n < N → sector_of g' d' n = sector_of g d n.
Hypothesis Hnew : ∀ n k, ks !! n = Some k → sector_of g' d' (N + Z.of_nat n) = Some k.
Hypothesis Hnd : NoDup ks.
Hypothesis Hks : ∀ k, k ∈ ks → ¬ owned g isec d N k ∧ g' k = Some zeros.
Hypothesis Hdata : ∀ k, data_sector g d N k → g' k = g k.

Lemma new_sector n : N ≤ n < N' →
  ∃ k, ks !! Z.to_nat (n - N) = Some k ∧ k ∈ ks ∧ sector_of g' d' n = Some k ∧ g' k = Some zeros.
Proof.
  intros Hn. destruct (lookup_lt_is_Some_2 ks (Z.to_nat (n - N))) as [k Hk]; [unfold N' in Hn; lia|].
  exists k. assert (k ∈ ks) by by eapply list_elem_of_lookup_2.
  pose proof (Hnew _ _ Hk) as Hs. replace (N + Z.of_nat (Z.to_nat (n - N))) with n in Hs by lia.
  split_and!; [done..|]. by apply Hks.
Qed.

Lemma new_case n k : 0 ≤ n < N' → sector_of g' d' n = Some k →
  (n < N ∧ sector_of g d n = Some k) ∨ (N ≤ n ∧ ks !! Z.to_nat (n - N) = Some k).
Proof.
  intros Hn Hs. destruct (decide (n < N)) as [Hlt|]; [left; by rewrite <-Hold by lia|right].
  destruct (new_sector n ltac:(lia)) as (k' & Hk' & _ & Hs' & _). split; [lia|]. congruence.
Qed.

Lemma new_data k : data_sector g' d' N' k ↔ data_sector g d N k ∨ k ∈ ks.
Proof.
  split.
  - intros (n & Hn & Hs). destruct (new_case n k Hn Hs) as [[? ?]|[? ?]].
    + left. exists n. split; [lia|done].
    + right. by eapply list_elem_of_lookup_2.
  - intros [(n & Hn & Hs)|(j & Hj)%list_elem_of_lookup_1].
    + exists n. split; [unfold N'; lia|]. by rewrite Hold.
    + exists (N + Z.of_nat j). apply lookup_lt_Some in Hj as ?. pose proof (lo_N _ _ _ _ Hl).
      split; [unfold N'; lia|]. by apply Hnew.
Qed.

Lemma new_not_owned n m k : 0 ≤ n < N → sector_of g d n = Some k → ks !! m = Some k → False.
Proof.
  intros Hn Hs Hk. destruct (Hks k) as [Ho _]; [by eapply list_elem_of_lookup_2|].
  apply Ho. right; left. by exists n.
Qed.

Lemma new_placed : (∀ k, tree g' d' N' k → ¬ data_sector g d N k ∧ k ∉ ks) → placed g' d' N'.
Proof.
  intros Htree. split.
  - intros n Hn. destruct (decide (n < N)) as [Hlt|Hge].
    + destruct (pl_data _ _ _ (lo_placed _ _ _ _ Hl) n) as (k & b & Hk & Hb); [lia|].
      exists k, b. rewrite Hold by lia. split; [done|]. rewrite Hdata; [done|]. exists n. split; [lia|done].
    + destruct (new_sector n ltac:(lia)) as (k & _ & _ & Hs & Hz). by exists k, zeros.
  - intros n m k Hn Hm Hsn Hsm.
    destruct (new_case n k Hn Hsn) as [[? H1]|[? H1]], (new_case m k Hm Hsm) as [[? H2]|[? H2]].
    + eapply (pl_inj _ _ _ (lo_placed _ _ _ _ Hl)); [lia|lia|done..].
    + exfalso. eapply (new_not_owned n); [lia|done..].
    + exfalso. eapply (new_not_owned m); [lia|done..].
    + pose proof (NoDup_lookup _ _ _ _ Hnd H1 H2). lia.
  - intros k Hk Ht. destruct (Htree k Ht) as [Hd Hn]. apply new_data in Hk as [?|?]; done.
Qed.

Lemma new_bytes x : 0 ≤ x < 512 * N' → byte_at g' d' x = if decide (x < 512 * N) then byte_at g d x else Some 0.
Proof.
  intros Hx. assert (0 ≤ x `div` 512 < N') as Hxn by (split; [apply Z.div_pos|apply Z.div_lt_upper_bound]; lia).
  pose proof (Z.div_mod x 512 ltac:(lia)). pose proof (Z.mod_pos_bound x 512 ltac:(lia)). case_decide as Hx512.
  - unfold byte_at. rewrite Hold by lia.
    destruct (pl_data _ _ _ (lo_placed _ _ _ _ Hl) (x `div` 512)) as (k & b & Hk & Hb); [lia|].
    rewrite Hk. simpl. rewrite Hdata; [done|]. exists (x `div` 512). split; [lia|done].
  - destruct (new_sector (x `div` 512) ltac:(lia)) as (k & _ & _ & Hs & Hz).
    rewrite (byte_at_sector _ _ (x `div` 512) k zeros) by done. apply zero_byte.
Qed.

Lemma grown_intro :
  length d' = 128%nat → Forall is_word d' → N' < 138 → g' isec = g isec →
  (∀ k, tree g' d' N' k → k ≠ isec ∧ ¬ data_sector g d N k ∧ k ∉ ks) →
  is_Some (g' (indirect_block d')) → (∀ j, 12 ≤ j → word d' j = word d j) →
  grown g isec d N g' d' N'.
Proof.
  intros H128 Hw Hlim Hisec Htree Hind Hf. pose proof (lo_N _ _ _ _ Hl) as HN.
  split; [|done|done|apply new_bytes].
  split; [done|done|unfold N', MAX_SECTORS in *; lia| |rewrite Hisec; apply Hl| | |].
  - apply new_placed. intros k Hk. by destruct (Htree k Hk) as (_ & ? & ?).
  - rewrite new_data. intros [H|H]; [by apply (lo_data _ _ _ _ Hl)|]. destruct (Hks _ H) as [Ho _]. apply Ho. by left.
  - intros Ht. by destruct (Htree _ Ht).
  - right; left. split; [lia|done].
Qed.
End new_sectors.

(** New sectors in the inode itself. *)
Lemma grow_direct g g' isec d d' N ks :
  laid_out g isec d N → N + Z.of_nat (length ks) ≤ 10 → length d' = 128%nat → Forall is_word d' →
  (∀ j, 0 ≤ j → word d' j =
     if decide (N ≤ j < N + Z.of_nat (length ks)) then default 0 (ks !! Z.to_nat (j - N)) else word d j) →
  NoDup ks → (∀ k, k ∈ ks → ¬ owned g isec d N k ∧ g' k = Some zeros) →
  (∀ k, owned g isec d N k → g' k = g k) → is_Some (g' (indirect_block d)) →
  grown g isec d N g' d' (N + Z.of_nat (length ks)) ∧
  (∀ k, owned g' isec d' (N + Z.of_nat (length ks)) k ↔ owned g isec d N k ∨ k ∈ ks).
Proof.
  intros Hl Hlim H128 Hw Hwords Hnd Hks Hown Hind. pose proof (lo_N _ _ _ _ Hl) as HN.
  assert (Hold : ∀ n, 0 ≤ n < N → sector_of g' d' n = sector_of g d n).
  { intros n Hn. rewrite !(proj1 (sector_of_direct _ _ n ltac:(lia))). unfold direct_block.
    by rewrite Hwords, decide_False by lia. }
  assert (Hnew : ∀ n k, ks !! n = Some k → sector_of g' d' (N + Z.of_nat n) = Some k).
  { intros n k Hk. apply lookup_lt_Some in Hk as ?. rewrite (proj1 (sector_of_direct _ _ (N + Z.of_nat n) ltac:(lia))).
    unfold direct_block. rewrite Hwords, decide_True by lia.
    replace (Z.to_nat (N + Z.of_nat n - N)) with n by lia. by rewrite Hk. }
  assert (Hdata : ∀ k, data_sector g d N k → g' k = g k) by (intros k Hk; apply Hown; by right; left).
  split.
  - apply grown_intro; try done; [lia|apply Hown; by left| | |].
    + intros k Hk. by apply tree_direct in Hk; [|lia].
    + unfold indirect_block in *. by rewrite Hwords, decide_False by lia.
    + intros j Hj. by rewrite Hwords, decide_False by lia.
  - intros k. unfold owned. rewrite (new_data g g' isec d d' ks N) by done.
    pose proof (tree_direct g' d' (N + Z.of_nat (length ks)) k Hlim). pose proof (tree_direct g d N k ltac:(lia)). tauto.
Qed.

(** New sectors in the indirect block [ib], which is new if there was none. *)
Lemma grow_indirect g g' isec d N ks ib ws :
  let fresh := if decide (N = 10) then ib :: ks else ks in
  laid_out g isec d N → 10 ≤ N → N + Z.of_nat (length ks) < 138 → ks ≠ [] → is_word ib →
  (N ≠ 10 → ib = indirect_block d) → NoDup fresh → (∀ k, k ∈ fresh → ¬ owned g isec d N k) →
  (∀ k, k ∈ ks → k ≠ ib ∧ g' k = Some zeros) → words_at g' ib = Some ws →
  (∀ n, 10 ≤ n < N → ws !! Z.to_nat (n - 10) = sector_of g d n) →
  (∀ j, (j < length ks)%nat → ws !! (Z.to_nat (N - 10) + j)%nat = ks !! j) →
  (∀ k, owned g isec d N k → k ≠ ib → g' k = g k) →
  grown g isec d N g' (set_word 10 ib d) (N + Z.of_nat (length ks)) ∧
  (∀ k, owned g' isec (set_word 10 ib d) (N + Z.of_nat (length ks)) k ↔ owned g isec d N k ∨ k ∈ fresh).
Proof.
  intros fresh Hl HN10 Hlim Hne Hib Hibd Hnd Hfresh Hks Hws Hwold Hwnew Hown.
  pose proof (lo_len _ _ _ _ Hl) as H128. set (d' := set_word 10 ib d).
  assert (Hword : ∀ j, 0 ≤ j → word d' j = if decide (j = 10) then ib else word d j).
  { intros j Hj. unfold d'. rewrite word_set_word by lia. case_decide; [by apply u32_small|done]. }
  assert (Hibd' : indirect_block d' = ib) by (unfold indirect_block; by rewrite Hword, decide_True by lia).
  assert (Hibown : N ≠ 10 → tree g d N ib).
  { intros Hn. apply tree_indirect; [lia|]. split; [lia|auto]. }
  assert (Hibdata : ¬ data_sector g d N ib ∧ ib ≠ isec).
  { destruct (Z.eq_dec N 10) as [E|E].
    - assert (ib ∈ fresh) as Hin by (unfold fresh; rewrite decide_True by done; by left).
      specialize (Hfresh ib Hin). unfold owned in Hfresh. naive_solver.
    - specialize (Hibown E). split; [intros Hd; by apply (pl_tree _ _ _ (lo_placed _ _ _ _ Hl) ib)|].
      intros ->. by apply (lo_tree _ _ _ _ Hl). }
  assert (Hsub : ∀ k, k ∈ ks → ¬ owned g isec d N k).
  { intros k Hk. apply Hfresh. unfold fresh. case_decide; [by right|done]. }
  assert (Hndks : NoDup ks).
  { unfold fresh in Hnd. case_decide; [by apply NoDup_cons in Hnd as [_ ?]|done]. }
  assert (Hold : ∀ n, 0 ≤ n < N → sector_of g' d' n = sector_of g d n).
  { intros n Hn. destruct (decide (n < 10)).
    - rewrite !(proj1 (sector_of_direct _ _ n ltac:(lia))). unfold direct_block. by rewrite Hword, decide_False by lia.
    - rewrite (proj1 (sector_of_indirect g' d' n ws ltac:(lia) ltac:(by rewrite Hibd'))). apply Hwold. lia. }
  assert (Hnew : ∀ n k, ks !! n = Some k → sector_of g' d' (N + Z.of_nat n) = Some k).
  { intros n k Hk. apply lookup_lt_Some in Hk as ?.
    rewrite (proj1 (sector_of_indirect g' d' (N + Z.of_nat n) ws ltac:(lia) ltac:(by rewrite Hibd'))).
    replace (Z.to_nat (N + Z.of_nat n - 10)) with (Z.to_nat (N - 10) + n)%nat by lia. by rewrite Hwnew. }
  assert (Hdata : ∀ k, data_sector g d N k → g' k = g k).
  { intros k Hk. apply Hown; [by right; left|]. intros ->. by destruct Hibdata. }
  assert (Hboth : ∀ k, k ∈ ks → ¬ owned g isec d N k ∧ g' k = Some zeros).
  { intros k Hk. split; [by apply Hsub|by apply Hks]. }
  assert (0 < Z.of_nat (length ks)) by (destruct ks; [done|simpl; lia]).
  split.
  - apply grown_intro; try done.
    + unfold d'. by rewrite length_set_word.
    + apply words_set_word, Hl.
    + apply Hown; [by left|]. intros <-. by destruct Hibdata.
    + intros k [_ ->]%tree_indirect; [|done]. rewrite Hibd'.
      split_and!; [apply Hibdata..|]. intros Hin. by apply Hks in Hin as [? _].
    + rewrite Hibd'. unfold words_at in Hws. by apply fmap_Some in Hws as (b & ? & _); eexists.
    + intros j Hj. by rewrite Hword, decide_False by lia.
  - intros k. unfold owned. rewrite (new_data g g' isec d d' ks N) by done. rewrite !tree_indirect by lia. rewrite Hibd'.
    unfold fresh. destruct (decide (N = 10)) as [E|E].
    + rewrite elem_of_cons. assert (10 < N + Z.of_nat (length ks)) by lia. assert (¬ 10 < N) by lia. tauto.
    + rewrite (Hibd E) in *. assert (10 < N + Z.of_nat (length ks)) by lia. assert (10 < N) by lia. tauto.
Qed.
