(* ===== verification/InodeAlloc.v ===== *)
(** * [sector_allocate] on a disk with enough free sectors

    [took s s' ks]: between the two states the sectors [ks] have been taken from
    the free map, and otherwise nothing has changed but the file of the free map
    and the contents of [ks].  The two loops of [sector_allocate] (direct blocks
    and the indirect block) take sectors, clear them and note them. *)
From S2P Require Import Prelude Bitmap BitmapFacts Block BlockFacts Inode InodeFacts InodeBody FreeMap.
Local Open Scope Z_scope.

Record took (s s' : fs) (pi : Z) (fi : inode) (ks : list Z) : Prop := Took {
  tk_touched : touched s s' (img s') (free_map s') (inodes s);
  tk_inv : map_inv s' pi fi;
  tk_nodup : NoDup ks;
  tk_free : ∀ k, k ∈ ks → 0 ≤ k < bit_cnt (free_map s) ∧ bit (free_map s) k = false;
  tk_cnt : bit_cnt (free_map s') = bit_cnt (free_map s);
  tk_bits : ∀ j, 0 ≤ j → bit (free_map s') j = true ↔ bit (free_map s) j = true ∨ j ∈ ks;
  tk_owned : ∀ j, map_owned s' fi j ↔ map_owned s fi j;
  tk_same : ∀ j, ¬ map_owned s fi j → j ∉ ks → img s' j = img s j;
  tk_count : length (free_bits (free_map s)) = (length ks + length (free_bits (free_map s')))%nat }.

Definition zeroed (s : fs) (ks : list Z) : Prop := ∀ k, k ∈ ks → img s k = Some zeros.

Section taking.
Context (pi : Z) (fi : inode).
Implicit Types (s : fs) (ks : list Z).

Lemma took_refl s : ready s → map_inv s pi fi → took s s pi fi [].
Proof. intros Hr Hm. split; try done; [constructor|set_solver|set_solver]. Qed.

Lemma took_trans s s1 s2 ks1 ks2 :
  took s s1 pi fi ks1 → took s1 s2 pi fi ks2 → took s s2 pi fi (ks1 ++ ks2).
Proof.
  intros [T1 I1 N1 F1 C1 B1 O1 S1 K1] [T2 I2 N2 F2 C2 B2 O2 S2 K2].
  assert (Hnew : ∀ k, k ∈ ks2 → 0 ≤ k < bit_cnt (free_map s) ∧ bit (free_map s) k = false ∧ k ∉ ks1).
  { intros k Hk. destruct (F2 k Hk) as [Hr Hb]. split; [lia|].
    assert (¬ bit (free_map s1) k = true) as Hnb by congruence. rewrite B1 in Hnb by lia.
    destruct (bit (free_map s) k); [exfalso; apply Hnb; by left|]. split; [done|]. intros Hin. apply Hnb. by right. }
  split; try done.
  - pose proof (touched_trans _ _ _ _ _ _ _ _ _ T1 T2) as H. by rewrite (t_inodes _ _ _ _ _ T1) in H.
  - apply NoDup_app. split_and!; [done| |done]. intros k Hk1 Hk2. by destruct (Hnew k Hk2) as (_ & _ & ?).
  - intros k [Hk|Hk]%elem_of_app; [by apply F1|]. by destruct (Hnew k Hk) as (? & ? & _).
  - congruence.
  - intros j Hj. rewrite B2, B1, elem_of_app by done. tauto.
  - intros j. by rewrite O2, O1.
  - intros j Hj Hn. rewrite S2, S1; [done|done|set_solver|by rewrite O1|set_solver].
  - rewrite length_app. lia.
Qed.

Lemma took_not_map s s' ks k : map_inv s pi fi → took s s' pi fi ks → k ∈ ks → ¬ map_owned s fi k.
Proof. intros Hm Ht Hk Ho. apply (mi_marked _ _ _ Hm) in Ho. destruct (tk_free _ _ _ _ _ Ht k Hk). congruence. Qed.

Lemma took_allocated s s' k :
  map_inv s pi fi → touched s s' (img s') (free_map s') (inodes s) → map_inv s' pi fi → allocated s s' fi k →
  took s s' pi fi [k].
Proof.
  intros Hm Ht Hm' (Hk & Hb & Hmk & Ho & Hs). pose proof Hmk as (_ & Hc & Hbits). split; try done.
  - apply NoDup_singleton.
  - intros k' ->%list_elem_of_singleton. done.
  - intros j Hj. rewrite Hbits by done. rewrite list_elem_of_singleton. case_decide; naive_solver.
  - intros j Hj _. auto.
  - simpl. by eapply marked_free.
Qed.

(** Writing to a sector that is not the free map's. *)
Lemma map_inv_upd s s' k bs :
  map_inv s pi fi → touched s s' (upd (img s) k bs) (free_map s) (inodes s) → ¬ map_owned s fi k →
  map_inv s' pi fi ∧ ∀ j, map_owned s' fi j ↔ map_owned s fi j.
Proof.
  intros Hm Ht Hk. eapply map_inv_kept; [done|exact Ht|apply Hm|]. intros j Hj. rewrite (t_img _ _ _ _ _ Ht).
  unfold upd. rewrite decide_False; [done|]. by intros ->.
Qed.

(** Free map and inodes as before, and the same disk. *)
Lemma took_quiet s s' : map_inv s pi fi → quiet s s' → took s s' pi fi [].
Proof.
  intros Hm Hq. assert (Hmap := t_map _ _ _ _ _ Hq).
  destruct (map_inv_kept _ _ _ _ _ _ Hm Hq) as [Hm' Hown]; [apply Hm|intros j _; apply Hq|].
  split; rewrite ?Hmap; try done; [|constructor|set_solver|set_solver|].
  - destruct Hq. by split.
  - intros j _ _. apply Hq.
Qed.

Lemma took_write s s1 s2 ks k bs :
  map_inv s pi fi → took s s1 pi fi ks → k ∈ ks →
  touched s1 s2 (upd (img s1) k bs) (free_map s1) (inodes s1) → took s s2 pi fi ks.
Proof.
  intros Hm Ht Hk Hw. pose proof (took_not_map _ _ _ _ Hm Ht Hk) as Hnm. pose proof Ht as [T1 I1 N1 F1 C1 B1 O1 S1 K1].
  destruct (map_inv_upd _ _ _ _ I1 Hw) as [I2 O2]; [by rewrite O1|].
  assert (Hmap := t_map _ _ _ _ _ Hw). split; rewrite ?Hmap; try done.
  - pose proof (touched_trans _ _ _ _ _ _ _ _ _ T1 Hw) as H. rewrite (t_inodes _ _ _ _ _ T1) in H.
    destruct H. by split.
  - intros j. by rewrite O2, O1.
  - intros j Hj Hn. rewrite (t_img _ _ _ _ _ Hw). unfold upd. rewrite decide_False by (by intros ->). by apply S1.
Qed.

Lemma zeros_length : length zeros = 512%nat.
Proof. apply length_replicate. Qed.
Lemma zeros_bytes : Forall is_byte zeros.
Proof. apply Forall_replicate. unfold is_byte. lia. Qed.

(** Taking one more sector and clearing it. *)
Lemma wp_new_sector n s0 s ks (Q : Z → fs → Prop) :
  map_inv s0 pi fi → took s0 s pi fi ks → zeroed s ks → (length ks < length (free_bits (free_map s0)))%nat →
  (∀ k s', took s0 s' pi fi (ks ++ [k]) → zeroed s' (ks ++ [k]) → Q k s') →
  wp (allocate_with (write_at (S n)) 1) s (λ a s1, ∃ k, a = Some k ∧ wp (fs_write k zeros) s1 (λ _ s', Q k s')).
Proof.
  intros Hm0 Ht Hz Hfree HQ. pose proof Ht as [T1 I1 N1 F1 C1 B1 O1 S1 K1].
  apply (wp_allocate n s pi fi); [apply T1|done| |].
  { intros E. rewrite E in K1. simpl in K1. lia. }
  intros k s1 H1 Hm1 Hal. exists k. split; [done|].
  pose proof (took_trans _ _ _ _ _ Ht (took_allocated _ _ _ I1 H1 Hm1 Hal)) as Ht1.
  assert (Hk1 : is_Some (img s1 k)).
  { apply (mi_domain _ _ _ Hm1). destruct Hal as (? & _ & (_ & Hc & _) & _). by rewrite Hc. }
  destruct Hk1 as [old Hold]. pose proof zeros_length as Hl.
  assert (Hz512 : take 512 zeros = zeros) by (apply take_ge; lia).
  eapply wp_fs_write; [apply H1|exact Hold|lia|rewrite Hz512; apply zeros_bytes|]. rewrite Hz512.
  intros s2 H2 _. assert (Ht2 : took s0 s2 pi fi (ks ++ [k])).
  { eapply took_write; [done|exact Ht1|apply elem_of_app; right; by left|exact H2]. }
  apply HQ; [done|]. intros j Hj. rewrite (t_img _ _ _ _ _ H2). unfold upd. case_decide as E; [done|].
  assert (j ∈ ks) as Hjk. { apply elem_of_app in Hj as [?| ->%list_elem_of_singleton]; done. }
  destruct Hal as (_ & _ & _ & _ & Hsame). rewrite Hsame; [by apply Hz|].
  rewrite O1. by eapply took_not_map.
Qed.
End taking.

(** ** Words noted in an inode or an indirect block *)
Definition patched (d : list Z) (N : Z) (ks d' : list Z) : Prop :=
  length d' = 128%nat ∧ Forall is_word d' ∧
  ∀ j, 0 ≤ j → word d' j =
    if decide (N ≤ j < N + Z.of_nat (length ks)) then default 0 (ks !! Z.to_nat (j - N)) else word d j.

Lemma patched_nil d N : length d = 128%nat → Forall is_word d → patched d N [] d.
Proof. intros Hl Hw. split_and!; [done|done|]. intros j Hj. rewrite decide_False; [done|]. simpl. lia. Qed.

Lemma patched_snoc d N ks d' k :
  patched d N ks d' → 0 ≤ N → N + Z.of_nat (length ks) < 128 → is_word k →
  patched d N (ks ++ [k]) (set_word (N + Z.of_nat (length ks)) k d').
Proof.
  intros (Hl & Hw & H) HN Hlt Hk. split_and!; [by rewrite length_set_word|by apply words_set_word|].
  intros j Hj. rewrite word_set_word, H by lia. rewrite length_app. cbn [length].
  destruct (decide (j = N + Z.of_nat (length ks))) as [->|Hne].
  - rewrite decide_True by lia. rewrite lookup_app_r by lia.
    replace (Z.to_nat _ - length ks)%nat with 0%nat by lia. simpl. by apply u32_small.
  - destruct (decide (N ≤ j < N + Z.of_nat (length ks))).
    + rewrite decide_True by lia. by rewrite lookup_app_l by lia.
    + by rewrite decide_False by lia.
Qed.

Lemma patched_lookup d N ks d' j :
  patched d N ks d' → 0 ≤ j < 128 →
  d' !! Z.to_nat j = Some (if decide (N ≤ j < N + Z.of_nat (length ks)) then default 0 (ks !! Z.to_nat (j - N))
                           else word d j).
Proof.
  intros (Hl & _ & H) Hj. rewrite <-H by lia. unfold word.
  destruct (lookup_lt_is_Some_2 d' (Z.to_nat j)) as [w ->]; [lia|done].
Qed.

Lemma insert_set_word (d : list Z) i k : is_word k → <[Z.to_nat i := k]> d = set_word i k d.
Proof. intros H. unfold set_word. by rewrite u32_small. Qed.

(** ** The loops *)
Section loops.
Context (n : nat) (pi : Z) (fi : inode) (s : fs).
Hypothesis Hm : map_inv s pi fi.
Hypothesis Hr : ready s.
Local Abbreviation W := (write_at (S n)).

Lemma taken_word s' ks k : took s s' pi fi ks → k ∈ ks → is_word k.
Proof.
  intros Ht Hk. destruct (tk_free _ _ _ _ _ Ht k Hk) as [? _]. pose proof (wf_cnt _ (mf_wf _ _ _ (mi_file _ _ _ Hm))).
  unfold is_word. lia.
Qed.

Lemma wp_direct_loop d N m (Q : bool * list Z * Z * Z → fs → Prop) :
  0 ≤ N → 0 ≤ m → length d = 128%nat → Forall is_word d →
  (Z.to_nat (Z.min m (10 - N)) ≤ length (free_bits (free_map s)))%nat →
  (∀ ks d' s', took s s' pi fi ks → zeroed s' ks → patched d N ks d' →
     Z.of_nat (length ks) = Z.max 0 (Z.min m (10 - N)) →
     Q (true, d', N + Z.of_nat (length ks), m - Z.of_nat (length ks)) s') →
  wp (loop 11 (λ '(disk_inode, current_sectors, sectors_to_add),
        if (0 <? sectors_to_add) && (current_sectors <? DIRECT_NUM) then
          a ← allocate_with W 1;
          match a with
          | None => mret (inr (false, disk_inode, current_sectors, sectors_to_add))
          | Some sector =>
              fs_write sector zeros ;;
              mret (inl (set_word current_sectors sector disk_inode,
                         current_sectors + 1, sectors_to_add - 1))
          end
        else mret (inr (true, disk_inode, current_sectors, sectors_to_add))) (d, N, m)) s Q.
Proof.
  intros HN Hm0 Hl Hw Hfree HQ.
  apply (wp_loop (λ (ks : list Z) '(d', cur, todo) s', took s s' pi fi ks ∧ zeroed s' ks ∧ patched d N ks d' ∧
      cur = N + Z.of_nat (length ks) ∧ todo = m - Z.of_nat (length ks) ∧
      Z.of_nat (length ks) ≤ Z.max 0 (Z.min m (10 - N)))
    (λ ks, Z.to_nat (10 - N - Z.of_nat (length ks)))) with (g := []).
  2: { split_and!; [by apply took_refl|by intros k ?%elem_of_nil|by apply patched_nil|simpl; lia..]. }
  2: { simpl. lia. }
  intros ks [[d' cur] todo] s' (Ht & Hz & Hp & -> & -> & Hle). unfold DIRECT_NUM.
  destruct (Z.ltb_spec 0 (m - Z.of_nat (length ks))); cbn [andb].
  2: { wp_steps. apply HQ; try done. lia. }
  destruct (Z.ltb_spec (N + Z.of_nat (length ks)) 10).
  2: { wp_steps. apply HQ; try done. lia. }
  wp_step. eapply wp_mono; [eapply (wp_new_sector pi fi n s s' ks); [done|exact Ht|done|lia|]|].
  { intros k s2 Ht2 Hz2. instantiate (1 := λ k s2, took s s2 pi fi (ks ++ [k]) ∧ zeroed s2 (ks ++ [k])). done. }
  intros a s1 (k & -> & Hwr). wp_step. eapply wp_mono; [exact Hwr|]. intros [] s2 [Ht2 Hz2]. wp_steps.
  exists (ks ++ [k]). rewrite length_app. cbn [length]. split; [|lia]. split_and!; try done; try lia.
  apply patched_snoc; [done|lia|lia|]. eapply taken_word; [exact Ht2|]. apply elem_of_app. right. by left.
Qed.

Lemma wp_indirect_loop s0 ks0 buf c m (Q : list Z → fs → Prop) :
  took s s0 pi fi ks0 → 0 ≤ c → 0 ≤ m → c + m ≤ 128 → length buf = 128%nat → Forall is_word buf →
  (length ks0 + Z.to_nat m ≤ length (free_bits (free_map s)))%nat →
  (∀ ks buf' s', took s s' pi fi (ks0 ++ ks) → zeroed s' ks → patched buf c ks buf' →
     Z.of_nat (length ks) = m → Q buf' s') →
  wp (loop (S (Z.to_nat m)) (λ '(buffer, current_sectors, sectors_to_add),
      if 0 <? sectors_to_add then
        a ← allocate_with W 1;
        match a with
        | None => mret (inr buffer)
        | Some sector =>
            the (buffer !! Z.to_nat current_sectors) ;;
            fs_write sector zeros ;;
            mret (inl (<[Z.to_nat current_sectors := sector]> buffer,
                       current_sectors + 1, sectors_to_add - 1))
        end
      else mret (inr buffer)) (buf, c, m)) s0 Q.
Proof.
  intros Ht0 Hc Hm0 Hfit Hl Hw Hfree HQ. pose proof (tk_count _ _ _ _ _ Ht0) as Hcount.
  apply (wp_loop (λ (ks : list Z) '(buf', cur, todo) s', took s0 s' pi fi ks ∧ zeroed s' ks ∧ patched buf c ks buf' ∧
      cur = c + Z.of_nat (length ks) ∧ todo = m - Z.of_nat (length ks) ∧ Z.of_nat (length ks) ≤ m)
    (λ ks, Z.to_nat (m - Z.of_nat (length ks)))) with (g := []).
  2: { split_and!; [apply took_refl; apply Ht0|by intros k ?%elem_of_nil|by apply patched_nil|simpl; lia..]. }
  2: { simpl. lia. }
  intros ks [[buf' cur] todo] s' (Ht & Hz & Hp & -> & -> & Hle).
  destruct (Z.ltb_spec 0 (m - Z.of_nat (length ks))).
  2: { wp_steps. apply (HQ ks); [|done|done|lia]. by eapply took_trans. }
  wp_step. eapply wp_mono; [eapply (wp_new_sector pi fi n s0 s' ks); [apply Ht0|exact Ht|done|lia|]|].
  { intros k s2 Ht2 Hz2. instantiate (1 := λ k s2, took s0 s2 pi fi (ks ++ [k]) ∧ zeroed s2 (ks ++ [k])). done. }
  intros a s1 (k & -> & Hwr). wp_step. pose proof Hp as (Hl' & _ & _).
  destruct (lookup_lt_is_Some_2 buf' (Z.to_nat (c + Z.of_nat (length ks)))) as [w Hwk]; [lia|].
  eapply wp_the; [exact Hwk|]. wp_step. eapply wp_mono; [exact Hwr|]. intros [] s2 [Ht2 Hz2]. wp_steps.
  exists (ks ++ [k]). rewrite length_app. cbn [length].
  assert (is_word k) as Hkw.
  { eapply taken_word; [by eapply took_trans|]. rewrite !elem_of_app. right. right. by left. }
  rewrite insert_set_word by done. split; [|lia]. split_and!; try done; try lia. apply patched_snoc; [done|lia|lia|done].
Qed.

Definition stack_ok : Prop := length (stack s) = 128%nat ∧ Forall is_word (stack s).
Hypothesis Hstack : stack_ok.

Lemma new_buffer_ok : length (new_buffer (stack s)) = 128%nat ∧ Forall is_word (new_buffer (stack s)).
Proof.
  destruct Hstack as [Hl Hw]. unfold new_buffer. split.
  - rewrite length_app, length_replicate, length_drop. lia.
  - apply Forall_app. split; [apply Forall_replicate; unfold is_word; lia|by apply Forall_drop].
Qed.

Lemma sector0_taken s' ks k : took s s' pi fi ks → k ∈ ks → k ≠ 0.
Proof.
  intros Ht Hk ->. destruct (tk_free _ _ _ _ _ Ht 0 Hk) as [_ Hb].
  rewrite (mi_marked _ _ _ Hm) in Hb; [done|]. left. symmetry. apply Hm.
Qed.

(** What [indirect_block_allocate] leaves: [fresh] are the sectors taken, the
    indirect block among them if it is new. *)
Definition indirect_done (ib ib' c : Z) (ws ks ws' : list Z) (s1 s' : fs) : Prop :=
  took s s1 pi fi (if decide (ib = 0) then ib' :: ks else ks) ∧ zeroed s1 ks ∧ patched ws c ks ws' ∧
  (ib ≠ 0 → ib' = ib) ∧ ib' ≠ 0 ∧
  touched s1 s' (upd (img s1) ib' (words_bytes ws')) (free_map s1) (inodes s1).

Lemma wp_indirect_end (ib ib' c m : Z) ws s0 (Q : Z → fs → Prop) :
  took s s0 pi fi (if decide (ib = 0) then [ib'] else []) → 0 ≤ c → 0 < m → c + m ≤ 128 →
  (Z.to_nat m + (if decide (ib = 0%Z) then 1 else 0) ≤ length (free_bits (free_map s)))%nat →
  length ws = 128%nat → Forall is_word ws → (ib ≠ 0 → ib' = ib) → ib' ≠ 0 → is_Some (img s ib') →
  (∀ ks ws' s1 s', indirect_done ib ib' c ws ks ws' s1 s' → Z.of_nat (length ks) = m → Q ib' s') →
  wp (buffer ← loop (S (Z.to_nat m)) (λ '(buffer, current_sectors, sectors_to_add),
        if 0 <? sectors_to_add then
          a ← allocate_with W 1;
          match a with
          | None => mret (inr buffer)
          | Some sector =>
              the (buffer !! Z.to_nat current_sectors) ;;
              fs_write sector zeros ;;
              mret (inl (<[Z.to_nat current_sectors := sector]> buffer,
                         current_sectors + 1, sectors_to_add - 1))
          end
        else mret (inr buffer)) (ws, c, m);
      fs_write_words ib' buffer ;; mret ib') s0 Q.
Proof.
  intros Ht0 Hc Hm0 Hfit Hfree Hl Hw Hib' Hne Hsome HQ. wp_step.
  eapply (wp_indirect_loop s0); [exact Ht0|lia|lia|lia|done|done| |].
  { case_decide; simpl; lia. }
  intros ks ws' s1 Ht1 Hz Hp Hlen. wp_step. pose proof Hp as (Hl' & Hw' & _).
  assert (Hsome1 : is_Some (img s1 ib')).
  { apply (mi_domain _ _ _ (tk_inv _ _ _ _ _ Ht1)). rewrite (tk_cnt _ _ _ _ _ Ht1). by apply (mi_domain _ _ _ Hm). }
  destruct Hsome1 as [old Hold]. eapply wp_fs_write_words; [apply Ht1|exact Hold|done|done|].
  intros s' H' _. wp_steps. apply (HQ ks ws' s1); [|done]. split_and!; try done. by case_decide.
Qed.

Lemma wp_indirect (ib c m : Z) ws (Q : Z → fs → Prop) :
  0 ≤ c → 0 < m → c + m ≤ 128 →
  (Z.to_nat m + (if decide (ib = 0%Z) then 1 else 0) ≤ length (free_bits (free_map s)))%nat →
  (if decide (ib = 0) then ws = new_buffer (stack s)
   else words_at (img s) ib = Some ws ∧ length ws = 128%nat ∧ Forall is_word ws) →
  (∀ ib' ks ws' s1 s', indirect_done ib ib' c ws ks ws' s1 s' → Z.of_nat (length ks) = m → Q ib' s') →
  wp (indirect_with W c m ib) s Q.
Proof.
  intros Hc Hm0 Hfit Hfree Hws HQ. unfold indirect_with. wp_step. wp_step. wp_step.
  pose proof (λ ib' s0, wp_indirect_end ib ib' c m ws s0 Q) as Hend.
  destruct (Z.eqb_spec ib 0) as [->|Hib].
  - rewrite decide_True in Hws by done. rewrite decide_True in Hfree by done. subst ws. wp_step.
    apply (wp_allocate n s pi fi); [done|done|intros E; rewrite E in Hfree; simpl in Hfree; lia|].
    intros k s1 H1 Hm1 Hal. apply wp_ret. cbn [default from_option id].
    pose proof (took_allocated _ _ _ _ _ Hm H1 Hm1 Hal) as Ht1.
    assert (Hk0 : k ≠ 0) by (eapply sector0_taken; [exact Ht1|by left]).
    rewrite (proj2 (Z.eqb_neq k 0)) by done. destruct new_buffer_ok.
    apply (Hend k s1); rewrite ?decide_True by done; try done; [|by eauto]. apply (mi_domain _ _ _ Hm). apply Hal.
  - rewrite decide_False in Hws by done. rewrite decide_False in Hfree by done. destruct Hws as (Hws & Hl & Hw). wp_step.
    eapply wp_fs_read_words; [done|exact Hws|]. intros s1 H1 _. apply wp_ret. cbn beta iota.
    rewrite (proj2 (Z.eqb_neq ib 0)) by done.
    apply (Hend ib s1); rewrite ?decide_False by done; try done; [by apply took_quiet| |by eauto].
    unfold words_at in Hws. by apply fmap_Some in Hws as (b & ? & _); eexists.
Qed.
End loops.

(** ** [sector_allocate], and files that grow

    [grew]: a file has been given more sectors; its bytes are kept, the new ones
    are zero, the sectors it has taken were free and are marked, and no other
    file is affected. *)

Record grew (s s' : fs) (pi : Z) (fi : inode) (isec : Z) (d : list Z) (N : Z) (d' : list Z) (N' : Z) : Prop := Grew {
  ge_touched : touched s s' (img s') (free_map s') (inodes s);
  ge_grown : grown (img s) isec d N (img s') d' N';
  ge_inv : map_inv s' pi fi;
  ge_map : ∀ j, map_owned s' fi j ↔ map_owned s fi j;
  ge_cnt : bit_cnt (free_map s') = bit_cnt (free_map s);
  ge_bits : ∀ j, 0 ≤ j → bit (free_map s') j = true ↔ bit (free_map s) j = true ∨ owned (img s') isec d' N' j;
  ge_free : ∀ k, owned (img s') isec d' N' k → owned (img s) isec d N k ∨ bit (free_map s) k = false;
  ge_old : ∀ k, owned (img s) isec d N k → owned (img s') isec d' N' k;
  ge_frame : ∀ j, ¬ map_owned s fi j → ¬ owned (img s') isec d' N' j → img s' j = img s j;
  ge_zero : N' ≤ 10 → indirect_block d' = 0 }.

(** A file whose sectors are marked in the free map and apart from its file. *)
Record separate (s : fs) (fi : inode) (isec : Z) (d : list Z) (N : Z) : Prop := Separate {
  se_laid : laid_out (img s) isec d N;
  se_marked : ∀ k, owned (img s) isec d N k → bit (free_map s) k = true;
  se_apart : ∀ k, owned (img s) isec d N k → ¬ map_owned s fi k;
  se_zero : N ≤ 10 → indirect_block d = 0 }.

Section grew.
Context (pi : Z) (fi : inode).
Implicit Types (s : fs) (d ks : list Z).

Lemma grown_trans g isec d N g1 d1 N1 g2 d2 N2 :
  0 ≤ N ≤ N1 → N1 ≤ N2 → grown g isec d N g1 d1 N1 → grown g1 isec d1 N1 g2 d2 N2 → grown g isec d N g2 d2 N2.
Proof.
  intros HN H12 [L1 F1 I1 B1] [L2 F2 I2 B2]. split; [done| |congruence|].
  - intros j Hj. by rewrite F2, F1.
  - intros x Hx. rewrite B2 by done. repeat case_decide; try lia; [|by rewrite B1, decide_False by lia|done].
    by rewrite B1, decide_True by lia.
Qed.

Lemma grew_separate s s' isec d N d' N' :
  map_inv s pi fi → separate s fi isec d N → grew s s' pi fi isec d N d' N' → separate s' fi isec d' N'.
Proof.
  intros Hm [Hl Hk Ha Hz] [Ht Hg Hi Ho Hc Hb Hf Hold Hfr Hz'].
  assert (Hpos : ∀ k, owned (img s') isec d' N' k → 0 ≤ k).
  { intros k Hk'. apply (owned_some _ _ _ _ _ (gr_laid _ _ _ _ _ _ _ Hg)), (mi_domain _ _ _ Hi) in Hk'. lia. }
  split; [apply Hg| | |done].
  - intros k Hk'. apply Hb; [auto|by right].
  - intros k Hk'. rewrite Ho. destruct (Hf k Hk') as [H|H]; [by apply Ha|].
    intros Hmo. apply (mi_marked _ _ _ Hm) in Hmo. congruence.
Qed.

Lemma grew_trans s s1 s2 isec d N d1 N1 d2 N2 :
  map_inv s pi fi → separate s fi isec d N → 0 ≤ N ≤ N1 → N1 ≤ N2 →
  grew s s1 pi fi isec d N d1 N1 → grew s1 s2 pi fi isec d1 N1 d2 N2 → grew s s2 pi fi isec d N d2 N2.
Proof.
  intros Hm Hse HN H12 H1 H2. pose proof (grew_separate _ _ _ _ _ _ _ Hm Hse H1) as Hse1.
  destruct H1 as [T1 G1 I1 O1 C1 B1 F1 P1 R1 Z1], H2 as [T2 G2 I2 O2 C2 B2 F2 P2 R2 Z2].
  split; try done.
  - pose proof (touched_trans _ _ _ _ _ _ _ _ _ T1 T2) as H. by rewrite (t_inodes _ _ _ _ _ T1) in H.
  - by eapply grown_trans.
  - intros j. by rewrite O2, O1.
  - congruence.
  - intros j Hj. rewrite B2, B1 by done. specialize (P2 j). tauto.
  - intros k Hk. destruct (F2 k Hk) as [H|H]; [by apply F1|]. right.
    assert (owned (img s2) isec d2 N2 k → 0 ≤ k) as Hpos.
    { intros Hk'. apply (owned_some _ _ _ _ _ (gr_laid _ _ _ _ _ _ _ G2)), (mi_domain _ _ _ I2) in Hk'. lia. }
    destruct (bit (free_map s) k) eqn:E; [|done]. assert (bit (free_map s1) k = true); [|congruence].
    apply B1; [auto|by left].
  - auto.
  - intros j Hj Hn. rewrite R2, R1; [done|done| |by rewrite O1|done]. intros Ho. by apply Hn, P2.
Qed.

Lemma took_domain s s' ks k :
  map_inv s pi fi → took s s' pi fi ks → is_Some (img s k) → is_Some (img s' k).
Proof. intros _ Ht. by rewrite (t_dom _ _ _ _ _ (tk_touched _ _ _ _ _ Ht)). Qed.

Lemma sector0_some s : map_inv s pi fi → is_Some (img s 0).
Proof.
  intros Hm. pose proof (lo_isec _ _ _ _ (h_laid _ _ _ _ (mi_holds _ _ _ Hm))) as H.
  by rewrite (mf_sector _ _ _ (mi_file _ _ _ Hm)) in H.
Qed.

Lemma grew_refl s s' isec d N :
  map_inv s pi fi → separate s fi isec d N → took s s' pi fi [] → grew s s' pi fi isec d N d N.
Proof.
  intros Hm [Hl Hk Ha Hz] Ht. pose proof Ht as [T I _ _ C B O S _].
  assert (Hsame : ∀ k, owned (img s) isec d N k → img s' k = img s k) by (intros k Hko; apply S; [by apply Ha|set_solver]).
  destruct (tree_kept (img s) (img s') d N) as (_ & _ & Hd & Htr); [intros k Htk; apply Hsame; by right; right|].
  assert (Hown : ∀ k, owned (img s') isec d N k ↔ owned (img s) isec d N k) by (intros k; unfold owned; by rewrite Hd, Htr).
  split; try done.
  - split; [|done|apply Hsame; by left|].
    + eapply laid_out_kept; [done|intros k; by eapply took_domain|]. intros k Htk. apply Hsame. by right; right.
    + intros x Hx. rewrite decide_True by lia. eapply byte_at_kept; [apply Hl| |done].
      intros k [H|H]; apply Hsame; [by right; right|by right; left].
  - intros j Hj. rewrite B, Hown by done. specialize (Hk j). set_solver.
  - intros k. rewrite Hown. by left.
  - intros k. by rewrite Hown.
  - intros j Hj _. apply S; [done|set_solver].
Qed.

(** From the sectors that were taken to the file that has grown. *)
Lemma grew_intro s s' isec d N d' N' ks :
  map_inv s pi fi → separate s fi isec d N →
  touched s s' (img s') (free_map s') (inodes s) → map_inv s' pi fi →
  (∀ j, map_owned s' fi j ↔ map_owned s fi j) → bit_cnt (free_map s') = bit_cnt (free_map s) →
  (∀ j, 0 ≤ j → bit (free_map s') j = true ↔ bit (free_map s) j = true ∨ j ∈ ks) →
  (∀ k, k ∈ ks → bit (free_map s) k = false) →
  (∀ j, ¬ map_owned s fi j → ¬ owned (img s) isec d N j → j ∉ ks → img s' j = img s j) →
  grown (img s) isec d N (img s') d' N' →
  (∀ k, owned (img s') isec d' N' k ↔ owned (img s) isec d N k ∨ k ∈ ks) →
  (N' ≤ 10 → indirect_block d' = 0) → grew s s' pi fi isec d N d' N'.
Proof.
  intros Hm [Hl Hk Ha _] Ht Hi Ho Hc Hb Hf Hs Hg Hown Hz. split; try done.
  - intros j Hj. rewrite Hb, Hown by done. specialize (Hk j). tauto.
  - intros k [H|H]%Hown; [by left|right; auto].
  - intros k Hko. apply Hown. by left.
  - intros j Hj Hn. rewrite Hown in Hn. apply Hs; tauto.
Qed.

Lemma patched_nil_eq d N d' : length d = 128%nat → patched d N [] d' → d' = d.
Proof.
  intros Hl (Hl' & _ & H). apply list_eq. intros j. destruct (decide (j < 128)%nat).
  - specialize (H (Z.of_nat j) ltac:(lia)). rewrite decide_False in H by (simpl; lia). unfold word in H.
    rewrite Nat2Z.id in H. destruct (lookup_lt_is_Some_2 d j) as [x Hx]; [lia|].
    destruct (lookup_lt_is_Some_2 d' j) as [y Hy]; [lia|]. rewrite Hx, Hy in *. simpl in H. congruence.
  - rewrite !lookup_ge_None_2 by lia. done.
Qed.

(** Taking direct blocks. *)
Lemma grew_direct s s' isec d N d' ks :
  map_inv s pi fi → separate s fi isec d N → took s s' pi fi ks → zeroed s' ks → patched d N ks d' →
  N + Z.of_nat (length ks) ≤ 10 → grew s s' pi fi isec d N d' (N + Z.of_nat (length ks)).
Proof.
  intros Hm Hse Ht Hz (Hl' & Hw' & Hp) Hlim. pose proof Hse as [Hl Hk Ha Hz0]. pose proof Ht as [T I Nd F C B O S K].
  assert (Hfresh : ∀ k, k ∈ ks → ¬ owned (img s) isec d N k).
  { intros k Hin Hko. apply Hk in Hko. destruct (F k Hin). congruence. }
  assert (Hsame : ∀ k, owned (img s) isec d N k → img s' k = img s k).
  { intros k Hko. apply S; [by apply Ha|]. intros Hin. by apply (Hfresh k). }
  pose proof (lo_N _ _ _ _ Hl) as HN.
  assert (Hi0 : indirect_block d = 0) by (apply Hz0; lia).
  destruct (grow_direct (img s) (img s') isec d d' N ks) as [Hg Hown]; try done.
  - intros k Hin. split; [by apply Hfresh|by apply Hz].
  - rewrite Hi0. apply (took_domain s s' ks); [done|done|]. by apply sector0_some.
  - eapply (grew_intro _ _ _ _ _ _ _ ks); try done.
    + intros k Hin. by apply F.
    + intros j H1 _ H2. by apply S.
    + intros _. unfold indirect_block in *. by rewrite Hp, decide_False by lia.
Qed.

(** Taking sectors for the indirect block, which is new when there were ten
    sectors. *)
Definition new_of (N ib : Z) (ks : list Z) : list Z := if decide (N = 10) then ib :: ks else ks.
Section indirect.
Context (s s1 s' : fs) (isec : Z) (d : list Z) (N ib' : Z) (ws ks ws' : list Z).
Hypothesis Hm : map_inv s pi fi.
Hypothesis Hse : separate s fi isec d N.
Hypothesis HN : 10 ≤ N.
Hypothesis Hlim : N + Z.of_nat (length ks) < 138.
Hypothesis Hne : ks ≠ [].
Hypothesis Hws : 10 < N → indirect_block d ≠ 0 ∧ words_at (img s) (indirect_block d) = Some ws.
Hypothesis Hdone : indirect_done pi fi s (indirect_block d) ib' (N - 10) ws ks ws' s1 s'.

Local Abbreviation fresh := (new_of N ib' ks).

Lemma in_took : took s s1 pi fi fresh.
Proof.
  destruct Hdone as (Ht & _). unfold new_of. destruct (decide (N = 10)) as [E|E].
  - rewrite decide_True in Ht by (apply Hse; lia). done.
  - rewrite decide_False in Ht by (apply Hws; lia). done.
Qed.

Lemma in_fresh k : k ∈ fresh → ¬ owned (img s) isec d N k.
Proof. intros Hin Hko. apply Hse in Hko. destruct (tk_free _ _ _ _ _ in_took k Hin). congruence. Qed.

Lemma in_sub k : k ∈ ks → k ∈ fresh.
Proof. intros Hin. unfold new_of. destruct (decide (N = 10)); [by right|done]. Qed.

Lemma in_block : if decide (N = 10) then ib' ∈ fresh else ib' = indirect_block d ∧ owned (img s) isec d N ib'.
Proof.
  unfold new_of. destruct (decide (N = 10)) as [E|E]; [by left|].
  destruct (Hws ltac:(lia)) as [Hnz _]. destruct Hdone as (_ & _ & _ & Hib & _). rewrite (Hib Hnz).
  split; [done|]. right; right. apply tree_indirect; [lia|]. split; [lia|done].
Qed.

Lemma in_block_new k : k ∈ ks → k ≠ ib'.
Proof.
  intros Hin ->. pose proof in_block as Hb. pose proof (tk_nodup _ _ _ _ _ in_took) as Nd. unfold new_of in Nd.
  destruct (decide (N = 10)) as [E|E].
  - by apply NoDup_cons in Nd as [? _].
  - destruct Hb as [_ Ho]. by apply (in_fresh ib'); [apply in_sub|].
Qed.

Lemma in_block_map : ¬ map_owned s fi ib' ∧ is_Some (img s ib').
Proof.
  pose proof in_block as Hb. destruct (decide (N = 10)) as [E|E].
  - split; [by eapply took_not_map; [done|apply in_took|]|]. apply (mi_domain _ _ _ Hm).
    by apply (tk_free _ _ _ _ _ in_took).
  - destruct Hb as [_ Ho]. split; [by apply Hse|]. by eapply owned_some; [apply Hse|].
Qed.

Lemma in_img j : j ≠ ib' → ¬ map_owned s fi j → j ∉ fresh → img s' j = img s j.
Proof.
  intros Hj Hmo Hf. destruct Hdone as (_ & _ & _ & _ & _ & Hw). rewrite (t_img _ _ _ _ _ Hw). unfold upd.
  rewrite decide_False by done. by apply in_took.
Qed.

Lemma in_words : words_at (img s') ib' = Some ws'.
Proof.
  destruct Hdone as (_ & _ & (Hl & Hw' & _) & _ & _ & Hw). unfold words_at. rewrite (t_img _ _ _ _ _ Hw).
  by apply words_at_upd.
Qed.

Lemma in_grown :
  grown (img s) isec d N (img s') (set_word 10 ib' d) (N + Z.of_nat (length ks)) ∧
  (∀ k, owned (img s') isec (set_word 10 ib' d) (N + Z.of_nat (length ks)) k ↔ owned (img s) isec d N k ∨ k ∈ fresh).
Proof.
  pose proof Hdone as (_ & Hz & Hp & Hib & _ & Hw). pose proof Hse as [Hl Hk Ha Hz0].
  eapply grow_indirect; try done.
  - pose proof in_block_map as [_ Hs]. apply (mi_domain _ _ _ Hm) in Hs.
    pose proof (wf_cnt _ (mf_wf _ _ _ (mi_file _ _ _ Hm))). unfold is_word. lia.
  - intros E. pose proof in_block as Hb. rewrite decide_False in Hb by done. apply Hb.
  - apply in_took.
  - apply in_fresh.
  - intros k Hin. split; [by apply in_block_new|]. rewrite (t_img _ _ _ _ _ Hw). unfold upd.
    rewrite decide_False by by apply in_block_new. by apply Hz.
  - apply in_words.
  - intros n Hn. rewrite (patched_lookup _ _ _ _ _ Hp) by lia. rewrite decide_False by lia.
    destruct (Hws ltac:(lia)) as [_ Hws'].
    rewrite (proj1 (sector_of_indirect (img s) d n ws ltac:(lia) Hws')). unfold word.
    destruct (pl_data _ _ _ (lo_placed _ _ _ _ Hl) n ltac:(lia)) as (k & b & Hsk & _).
    rewrite (proj1 (sector_of_indirect (img s) d n ws ltac:(lia) Hws')) in Hsk. by rewrite Hsk.
  - intros j Hj. replace (Z.to_nat (N - 10) + j)%nat with (Z.to_nat (N - 10 + Z.of_nat j)) by lia.
    rewrite (patched_lookup _ _ _ _ _ Hp) by lia. rewrite decide_True by lia.
    replace (Z.to_nat (N - 10 + Z.of_nat j - (N - 10))) with j by lia.
    by destruct (lookup_lt_is_Some_2 ks j Hj) as [k ->].
  - intros k Hko Hne'. apply in_img; [done|by apply Ha|]. intros Hin. by apply (in_fresh k).
Qed.

Lemma grew_indirect : grew s s' pi fi isec d N (set_word 10 ib' d) (N + Z.of_nat (length ks)).
Proof.
  pose proof Hdone as (_ & _ & _ & _ & _ & Hw). pose proof in_took as [T I Nd F C B O S K].
  pose proof in_block_map as [Hnm Hsome]. pose proof in_grown as [Hg Hown].
  destruct (map_inv_upd _ _ _ _ _ _ I Hw) as [I' O']; [by rewrite O|].
  assert (Hmap := t_map _ _ _ _ _ Hw).
  apply (grew_intro _ _ _ _ _ _ _ fresh); rewrite ?Hmap; try done.
  - pose proof (touched_trans _ _ _ _ _ _ _ _ _ T Hw) as H. rewrite (t_inodes _ _ _ _ _ T) in H.
    destruct H. by split.
  - intros j. by rewrite O', O.
  - intros k Hin. by apply F.
  - intros j Hj Hno Hnf. apply in_img; [|done|done]. intros ->. pose proof in_block as Hb.
    destruct (decide (N = 10)); [done|]. by destruct Hb.
  - destruct ks; [done|simpl; lia].
Qed.
End indirect.
End grew.

Lemma bytes_words_ok bs : length bs = 512%nat → Forall is_byte bs → length (bytes_words bs) = 128%nat ∧ Forall is_word (bytes_words bs).
Proof.
  intros Hl Hb. split; [by apply length_bytes_words|]. clear Hl. revert Hb.
  induction bs as [bs IH] using (induction_ltof1 _ length). intros Hb.
  destruct bs as [|b0 [|b1 [|b2 [|b3 r]]]]; simpl; try constructor.
  - repeat match goal with H : Forall _ (_ :: _) |- _ => apply Forall_cons in H as [? ?] end.
    unfold is_word, is_byte in *. lia.
  - apply IH; [unfold ltof; simpl; lia|]. repeat match goal with H : Forall _ (_ :: _) |- _ => apply Forall_cons in H as [? ?] end. done.
Qed.

(** How many sectors growing from [N] to [N'] takes, the indirect block
    included. *)
Definition needed (N N' : Z) : Z := N' - N + if bool_decide (N ≤ 10 < N') then 1 else 0.

Section allocate.
Context (n : nat) (pi : Z) (fi : inode).

Lemma separate_indirect s isec d N :
  ready s → map_inv s pi fi → separate s fi isec d N → 10 < N < 138 →
  indirect_block d ≠ 0 ∧ ∃ ws, words_at (img s) (indirect_block d) = Some ws ∧ length ws = 128%nat ∧ Forall is_word ws.
Proof.
  intros Hr Hm Hse HN. assert (owned (img s) isec d N (indirect_block d)) as Ho.
  { right; right. apply tree_indirect; [lia|]. split; [lia|done]. }
  split.
  - intros E. apply (se_apart _ _ _ _ _ Hse _ Ho). rewrite E. left. symmetry. apply Hm.
  - destruct (owned_some _ _ _ _ _ (se_laid _ _ _ _ _ Hse) Ho) as [b Hb]. exists (bytes_words b).
    unfold words_at. rewrite Hb. split; [done|]. destruct Hr as (_ & _ & _ & Hd). destruct (Hd _ _ Hb).
    by apply bytes_words_ok.
Qed.

Lemma wp_allocate_indirect s isec d N m (Q : Z → fs → Prop) :
  ready s → map_inv s pi fi → stack_ok s → separate s fi isec d N → 10 ≤ N → 0 < m → N + m < 138 →
  (Z.to_nat (needed N (N + m)) ≤ length (free_bits (free_map s)))%nat →
  (∀ b s', b ≠ 0 → grew s s' pi fi isec d N (set_word 10 b d) (N + m) → Q b s') →
  wp (indirect_with (write_at (S n)) (N - 10) m (indirect_block d)) s Q.
Proof.
  intros Hr Hm Hst Hse HN Hm0 Hlim Hfree HQ. unfold needed in Hfree.
  destruct (decide (N = 10)) as [E|E].
  - pose proof (se_zero _ _ _ _ _ Hse ltac:(lia)) as Hz. rewrite bool_decide_eq_true_2 in Hfree by lia.
    apply (wp_indirect n pi fi s Hm Hr Hst _ _ _ (new_buffer (stack s))); [lia|lia|lia| | |].
    + rewrite Hz, decide_True by done. lia.
    + by rewrite Hz, decide_True.
    + intros ib' ks ws' s1 s' Hd <-. apply HQ; [apply Hd|]. eapply grew_indirect; [done|done|lia|lia| | |exact Hd].
      * intros ->. simpl in Hm0. lia.
      * lia.
  - destruct (separate_indirect s isec d N Hr Hm Hse ltac:(lia)) as (Hnz & ws & Hws & Hl & Hw).
    rewrite bool_decide_eq_false_2 in Hfree by lia.
    apply (wp_indirect n pi fi s Hm Hr Hst _ _ _ ws); [lia|lia|lia| | |].
    + rewrite decide_False by done. lia.
    + by rewrite decide_False.
    + intros ib' ks ws' s1 s' Hd <-. apply HQ; [apply Hd|]. eapply grew_indirect; [done|done|lia|lia| | |exact Hd].
      * intros ->. simpl in Hm0. lia.
      * done.
Qed.

Lemma wp_sector_allocate s isec d N N' (Q : bool * list Z → fs → Prop) :
  ready s → map_inv s pi fi → stack_ok s → separate s fi isec d N → bytes_to_sectors (length_of d) = N →
  N < N' < 138 → (Z.to_nat (needed N N') ≤ length (free_bits (free_map s)))%nat →
  (∀ d' s', grew s s' pi fi isec d N d' N' → Q (true, d') s') →
  wp (sector_allocate_with (write_at (S n)) (N' - N) d) s Q.
Proof.
  intros Hr Hm Hst Hse HNd HN Hfree HQ. pose proof (se_laid _ _ _ _ _ Hse) as Hl. pose proof (lo_N _ _ _ _ Hl).
  unfold sector_allocate_with, DIRECT_NUM, BLOCKS_IN_INDIRECT. rewrite HNd, u32_small by lia.
  destruct (Z.ltb_spec (10 + 128 + 128 * 128) (N + (N' - N))); [lia|].
  destruct (Z.eqb_spec (N' - N) 0); [lia|]. wp_step.
  apply (wp_direct_loop n pi fi s Hm Hr); [lia|lia|apply Hl|apply Hl| |].
  { unfold needed in Hfree. destruct (bool_decide_reflect (N ≤ 10 < N')); lia. }
  intros ks d1 s1 Ht Hz Hp Hlen. cbn [negb].
  set (N1 := N + Z.of_nat (length ks)) in *.
  assert (Hg1 : grew s s1 pi fi isec d N d1 N1).
  { destruct (decide (N < 10)) as [Hlt|Hge]; [by eapply grew_direct; [..|lia]|].
    destruct ks; [|simpl in Hlen; lia]. unfold N1. simpl. rewrite Z.add_0_r.
    rewrite (patched_nil_eq d N d1); [|apply Hl|done]. by apply grew_refl. }
  pose proof (grew_separate _ _ _ _ _ _ _ _ _ Hm Hse Hg1) as Hse1.
  wp_step. destruct (Z.ltb_spec 0 (N' - N - Z.of_nat (length ks))) as [Hrem|Hrem]; cbn [andb].
  - assert (N1 = Z.max N 10) as EN1 by lia.
    destruct (Z.ltb_spec N1 (10 + 128)); [|lia]. destruct (Z.ltb_spec 128 (N' - N - Z.of_nat (length ks))); [lia|].
    wp_step. apply (wp_allocate_indirect s1 isec d1 N1); [apply Hg1|apply Hg1| |done|lia|lia|lia| |].
    { unfold stack_ok in *. by rewrite (t_stack _ _ _ _ _ (ge_touched _ _ _ _ _ _ _ _ _ Hg1)). }
    { pose proof (tk_count _ _ _ _ _ Ht). unfold needed in *.
      destruct (bool_decide_reflect (N ≤ 10 < N')), (bool_decide_reflect (N1 ≤ 10 < N1 + (N' - N - Z.of_nat (length ks)))); lia. }
    intros b s2 Hb0 Hg2. replace (N1 + (N' - N - Z.of_nat (length ks))) with N' in Hg2 by lia. wp_steps.
    rewrite (proj2 (Z.eqb_neq b 0)) by done. cbn [negb]. rewrite Z.sub_diag. cbn. apply HQ.
    eapply grew_trans; [done|done| | |exact Hg1|exact Hg2]; lia.
  - assert (N1 = N') as EN by lia. wp_steps. cbn [negb].
    destruct (Z.ltb_spec 0 (N' - N - Z.of_nat (length ks))); [lia|]. wp_steps. apply HQ. by rewrite EN in Hg1.
Qed.
End allocate.

(** ** Open files: what inode.c promises to its clients

    [open_file s pi fi p i bs]: in the state [s], whose free map is kept in the
    inode [fi] at [pi], the inode [i] at [p] is that of a file with contents
    [bs].  Reading delivers a piece of [bs]; writing overwrites and extends it
    and leaves every other file alone. *)

Record open_file (s : fs) (pi : Z) (fi : inode) (p : Z) (i : inode) (bs : list Z) : Prop := OpenFile {
  of_ready : ready s;
  of_stack : stack_ok s;
  of_map : map_inv s pi fi;
  of_p : p ≠ 0;
  of_other : p ≠ pi;
  of_inode : inodes s !! p = Some i;
  of_lock : may_lock i;
  of_holds : holds (img s) (isector i) (data i) bs;
  of_separate : separate s fi (isector i) (data i) (sectors bs) }.

(** The sectors that belong to an open file. *)
Definition file_owned (s : fs) (i : inode) (bs : list Z) (k : Z) : Prop :=
  owned (img s) (isector i) (data i) (sectors bs) k.

Lemma wp_read_file s pi fi p i bs size off (Q : list Z → fs → Prop) :
  open_file s pi fi p i bs → 0 ≤ off < 2 ^ 31 → size < 2 ^ 31 →
  (∀ s', quiet s s' → Q (piece bs off size) s') → wp (inode_read_at p size off) s Q.
Proof. intros []. apply (wp_inode_read_at _ _ i). by apply holds_readable. Qed.

Lemma separate_kept s s' g m fi isec d N :
  separate s fi isec d N → touched s s' g (free_map s) m → (∀ j, map_owned s' fi j ↔ map_owned s fi j) →
  (∀ k, img s' k = img s k) → separate s' fi isec d N.
Proof.
  intros [Hl Hk Ha Hz] Ht Hown Hg. assert (Hmap := t_map _ _ _ _ _ Ht).
  destruct (tree_kept (img s) (img s') d N) as (_ & _ & H1 & H2); [intros k _; apply Hg|].
  assert (Ho : ∀ k, owned (img s') isec d N k ↔ owned (img s) isec d N k) by (intros k; unfold owned; by rewrite H1, H2).
  split; [|intros k; rewrite Ho, Hmap; apply Hk|intros k; rewrite Ho, Hown; apply Ha|done].
  eapply laid_out_kept; [done|intros k; by rewrite Hg|intros k _; apply Hg].
Qed.

Lemma open_file_quiet s s' pi fi p i bs : open_file s pi fi p i bs → quiet s s' → open_file s' pi fi p i bs.
Proof.
  intros [Hr Hst Hm Hp Hpi Hi Hl Hh Hse] Hq. assert (Hg := t_img _ _ _ _ _ Hq).
  destruct (map_inv_kept _ _ _ _ _ _ Hm Hq) as [Hm' Hown]; [apply Hm|intros j _; apply Hg|].
  split; try done; [apply Hq| |by rewrite (t_inodes _ _ _ _ _ Hq)| |].
  - unfold stack_ok in *. by rewrite (t_stack _ _ _ _ _ Hq).
  - eapply holds_kept; [done|intros k; by rewrite Hg|intros k _; apply Hg].
  - by eapply separate_kept.
Qed.

(** What a write leaves behind. *)
Record written (s s' : fs) (pi : Z) (fi : inode) (p : Z) (i : inode) (bs : list Z) (i' : inode) (bs' : list Z) : Prop := Written {
  wn_touched : touched s s' (img s') (free_map s') (<[p := i']> (inodes s));
  wn_inode : isector i' = isector i ∧ open_cnt i' = open_cnt i ∧ removed i' = removed i ∧
    deny_write_cnt i' = deny_write_cnt i ∧ inode_lock i' = inode_lock i ∧ isdir (data i') = isdir (data i);
  wn_open : open_file s' pi fi p i' bs';
  wn_map : ∀ k, map_owned s' fi k ↔ map_owned s fi k;
  wn_bits : ∀ k, 0 ≤ k → bit (free_map s') k = true ↔ bit (free_map s) k = true ∨ file_owned s' i' bs' k;
  wn_taken : ∀ k, file_owned s' i' bs' k → file_owned s i bs k ∨ bit (free_map s) k = false;
  wn_frame : ∀ k, ¬ map_owned s fi k → ¬ file_owned s' i' bs' k → img s' k = img s k }.

Section write.
Context (n : nat) (s : fs) (pi : Z) (fi : inode) (p : Z) (i : inode) (bs : list Z).
Hypothesis Hfile : open_file s pi fi p i bs.

Lemma locked_other m : inodes s !! pi = Some fi → (<[p := m]> (inodes s)) !! pi = Some fi.
Proof. intros H. rewrite lookup_insert_ne; [done|]. apply Hfile. Qed.

Lemma file_allocates N' :
  N' < 138 → (Z.to_nat (needed (sectors bs) N') ≤ length (free_bits (free_map s)))%nat →
  allocates (write_at (S n)) s p i bs (λ d' s2, ∃ s1, touched s s1 (img s) (free_map s) (<[p := locked i]> (inodes s)) ∧
    grew s1 s2 pi fi (isector i) (data i) (sectors bs) d' N') N'.
Proof.
  intros Hlim Hfree Hlt s1 H1. destruct Hfile as [Hr Hst Hm Hp Hpi Hi Hl Hh Hse].
  assert (Hg : ∀ k, img s1 k = img s k) by apply H1. assert (Hmap := t_map _ _ _ _ _ H1).
  destruct (map_inv_kept _ _ _ _ _ _ Hm H1) as [Hm1 Hown]; [apply locked_other, Hm|intros j _; apply Hg|].
  eapply (wp_sector_allocate n pi fi s1 (isector i) (data i) (sectors bs) N'); [apply H1|done| | | |lia| |].
  - unfold stack_ok in *. by rewrite (t_stack _ _ _ _ _ H1).
  - by eapply separate_kept.
  - pose proof (lo_N _ _ _ _ (h_laid _ _ _ _ Hh)) as HN. unfold MAX_SECTORS, sectors in HN.
    rewrite (h_len _ _ _ _ Hh). apply bytes_to_sectors_ceil.
    pose proof (Z.div_mod (Z.of_nat (length bs) + 511) 512 ltac:(lia)).
    pose proof (Z.mod_pos_bound (Z.of_nat (length bs) + 511) 512 ltac:(lia)). lia.
  - by rewrite Hmap.
  - intros d' s2 Hgr. split_and!; [apply Hgr| |by eauto].
    destruct (ge_grown _ _ _ _ _ _ _ _ _ Hgr) as [G1 G2 G3 G4]. split; try done; [by rewrite G3, Hg|].
    intros x Hx. rewrite G4 by done. case_decide; [|done]. by apply byte_at_ext.
Qed.

(** The file after the allocation, in either case. *)
Lemma grew_either d1 s2 N' :
  (sectors bs < N' → ∃ s1, touched s s1 (img s) (free_map s) (<[p := locked i]> (inodes s)) ∧
     grew s1 s2 pi fi (isector i) (data i) (sectors bs) d1 N') →
  (sectors bs = N' → d1 = data i ∧ touched s s2 (img s) (free_map s) (<[p := locked i]> (inodes s))) →
  sectors bs ≤ N' →
  ∃ s1, touched s s1 (img s) (free_map s) (<[p := locked i]> (inodes s)) ∧
    map_inv s1 pi fi ∧ (∀ j, map_owned s1 fi j ↔ map_owned s fi j) ∧
    separate s1 fi (isector i) (data i) (sectors bs) ∧
    grew s1 s2 pi fi (isector i) (data i) (sectors bs) d1 N'.
Proof.
  intros Hlt Heq Hle. destruct Hfile as [Hr Hst Hm Hp Hpi Hi Hl Hh Hse].
  assert (Hmi : ∀ s1, touched s s1 (img s) (free_map s) (<[p := locked i]> (inodes s)) →
    map_inv s1 pi fi ∧ (∀ j, map_owned s1 fi j ↔ map_owned s fi j) ∧
    separate s1 fi (isector i) (data i) (sectors bs)).
  { intros s1 H1. assert (Hg : ∀ k, img s1 k = img s k) by apply H1.
    destruct (map_inv_kept _ _ _ _ _ _ Hm H1) as [Hm1 Hown]; [apply locked_other, Hm|intros j _; apply Hg|].
    split_and!; [done|done|]. by eapply separate_kept. }
  destruct (decide (sectors bs < N')) as [H|H].
  - destruct (Hlt H) as (s1 & H1 & Hg). destruct (Hmi s1 H1) as (? & ? & ?). by exists s1.
  - destruct (Heq ltac:(lia)) as [-> H1]. destruct (Hmi s2 H1) as (? & ? & ?). exists s2.
    split_and!; try done. assert (N' = sectors bs) as -> by lia.
    apply grew_refl; [done|done|]. apply took_refl; [apply H1|done].
Qed.

Lemma written_intro buf size off d1 d' s2 s' :
  let N' := Z.max (sectors bs) ((off + size + 511) `div` 512) in
  let bs' := overwrite bs (Z.to_nat off) (piece buf 0 size) in
  (∃ s1, touched s s1 (img s) (free_map s) (<[p := locked i]> (inodes s)) ∧
     map_inv s1 pi fi ∧ (∀ j, map_owned s1 fi j ↔ map_owned s fi j) ∧
     separate s1 fi (isector i) (data i) (sectors bs) ∧
     grew s1 s2 pi fi (isector i) (data i) (sectors bs) d1 N') →
  touched s s' (img s') (free_map s2) (<[p := set_data d' i]> (inodes s)) →
  holds (img s') (isector i) d' bs' → sectors bs' = N' → isdir d' = isdir (data i) → same_ptrs d1 d' →
  (∀ k, k ≠ isector i → ¬ data_sector (img s') d' N' k → img s' k = img s2 k) →
  written s s' pi fi p i bs (set_data d' i) bs'.
Proof.
  intros N' bs' (s1 & H1 & Hm1 & Ho1 & Hse1 & Hgr) Ht Hh HN Hdir Hptr Hframe.
  pose proof (grew_separate _ _ _ _ _ _ _ _ _ Hm1 Hse1 Hgr) as [L2 K2 A2 Z2].
  pose proof Hgr as [T2 G2 I2 O2 C2 B2 F2 P2 R2 _]. destruct Hfile as [Hr Hst Hm Hp Hpi Hi Hl _ Hse].
  assert (Hl' : laid_out (img s') (isector i) d' N') by (rewrite <-HN; apply Hh).
  assert (Hg1 : ∀ k, img s1 k = img s k) by apply H1. assert (Hmap1 := t_map _ _ _ _ _ H1).
  assert (Hmap := t_map _ _ _ _ _ Ht).
  destruct (same_sectors (img s2) (img s') (isector i) d' N' Hl' Hframe) as [Hds Hts].
  destruct (same_file (img s2) d1 d' N' Hptr) as (Hds1 & Hts1 & _).
  assert (Hown : ∀ k, owned (img s') (isector i) d' N' k ↔ owned (img s2) (isector i) d1 N' k).
  { intros k. unfold owned. by rewrite Hds, Hts, Hds1, Hts1. }
  assert (Hown1 : ∀ k, owned (img s1) (isector i) (data i) (sectors bs) k ↔ file_owned s i bs k).
  { intros k. unfold file_owned, owned. destruct (tree_kept (img s) (img s1) (data i) (sectors bs)) as (_ & _ & E1 & E2);
      [intros k' _; apply Hg1|by rewrite E1, E2]. }
  pose proof (touched_trans _ _ _ _ _ _ _ _ _ H1 T2) as H12.
  assert (Hmo : map_inv s' pi fi ∧ ∀ j, map_owned s' fi j ↔ map_owned s2 fi j).
  { apply map_inv_same; [exact I2|by rewrite (t_file _ _ _ _ _ Ht), (t_file _ _ _ _ _ H12)
      |by rewrite (t_files _ _ _ _ _ Ht), (t_files _ _ _ _ _ H12)|done| | |].
    - rewrite (t_inodes _ _ _ _ _ Ht). apply locked_other, Hm.
    - intros k. by rewrite (t_dom _ _ _ _ _ Ht), (t_dom _ _ _ _ _ H12).
    - intros j Hj. apply Hframe.
      + intros ->. apply (A2 (isector i)); [by left|by rewrite O2, <-O2].
      + intros Hd. apply (A2 j); [|done]. right; left. by apply Hds1, Hds. }
  destruct Hmo as [Hm' Hmo]. assert (Hmos : ∀ k, map_owned s' fi k ↔ map_owned s fi k).
  { intros k. by rewrite Hmo, O2, Ho1. }
  split; try done.
  - by rewrite Hmap.
  - split; try done; [apply Ht| |by rewrite (t_inodes _ _ _ _ _ Ht), lookup_insert_eq| |].
    + unfold stack_ok in *. by rewrite (t_stack _ _ _ _ _ Ht).
    + unfold may_lock in *. simpl. by rewrite Hdir.
    + rewrite HN. cbn [isector data set_data]. split; [done| | |].
      * intros k. rewrite Hown, Hmap. apply K2.
      * intros k. rewrite Hown, Hmo. apply A2.
      * intros H10. unfold indirect_block in *. rewrite Hptr by lia. by apply Z2.
  - intros k Hk. unfold file_owned. rewrite HN. cbn [isector data set_data]. rewrite Hown, Hmap, B2, Hmap1 by done. done.
  - intros k. unfold file_owned at 1. rewrite HN. cbn [isector data set_data]. rewrite Hown.
    intros Hk. destruct (F2 k Hk) as [H|H]; [left; by apply Hown1|right; by rewrite <-Hmap1].
  - intros k Hk. unfold file_owned. rewrite HN. cbn [isector data set_data]. rewrite Hown. intros Hno.
    rewrite Hframe, R2, Hg1; [done|by rewrite Ho1|done|intros ->; apply Hno; by left|].
    intros Hd. apply Hno. right; left. by apply Hds1, Hds.
Qed.

Lemma wp_write_file buf size off (Q : Z → fs → Prop) :
  let N' := Z.max (sectors bs) ((off + size + 511) `div` 512) in
  let bs' := overwrite bs (Z.to_nat off) (piece buf 0 size) in
  deny_write_cnt i = 0 → 0 ≤ off → 0 ≤ size ≤ Z.of_nat (length buf) → Forall is_byte buf → N' < 138 →
  (Z.to_nat (needed (sectors bs) N') ≤ length (free_bits (free_map s)))%nat →
  (∀ i' s', written s s' pi fi p i bs i' bs' → (off + size ≤ Z.of_nat (length bs) → i' = i) → Q size s') →
  wp (write_at (S (S n)) p buf size off) s Q.
Proof.
  intros N' bs' Hdeny Hoff Hsize Hbytes Hlim Hfree HQ. pose proof Hfile as [Hr Hst Hm Hp Hpi Hi Hl Hh Hse].
  assert (Hceil : off + size ≤ 512 * N').
  { unfold N'. pose proof (Z.div_mod (off + size + 511) 512 ltac:(lia)).
    pose proof (Z.mod_pos_bound (off + size + 511) 512 ltac:(lia)). lia. }
  cbn [write_at]. eapply (wp_write_body (write_at (S n)) s p i bs Hr Hp Hi Hl Hh); [done|lia|lia|unfold MAX_SECTORS; lia|lia|done| |].
  { by apply file_allocates. }
  intros d1 d' s2 s' HP Heq Ht Hh' Hdir Hsame Hptr Hframe.
  assert (HN : sectors bs' = N').
  { unfold bs', N', sectors. rewrite length_overwrite, length_piece by lia.
    destruct (decide (Z.of_nat (length bs) ≤ off + size)).
    - rewrite Z.max_r by (apply Z.div_le_mono; lia). f_equal. lia.
    - rewrite Z.max_l by (apply Z.div_le_mono; lia). f_equal. lia. }
  apply (HQ (set_data d' i)).
  - eapply written_intro; try done. eapply grew_either; [exact HP|exact Heq|lia].
  - intros Hle. rewrite Hsame by done. apply set_data_id.
Qed.
End write.

(** Another open file, with no sector of the one that is written to. *)
Lemma written_other s s' pi fi p i bs i' bs' q j cs :
  written s s' pi fi p i bs i' bs' → open_file s pi fi q j cs → p ≠ q →
  (∀ k, file_owned s i bs k → ¬ file_owned s j cs k) →
  open_file s' pi fi q j cs ∧ ∀ k, file_owned s' i' bs' k → ¬ file_owned s' j cs k.
Proof.
  intros [Ht _ Ho' Hmap Hbits Htaken Hframe] [Hr Hst Hm Hp Hpi Hi Hl Hh Hse] Hpq Hdisj.
  assert (Hsame : ∀ k, file_owned s j cs k → img s' k = img s k).
  { intros k Hk. apply Hframe; [by apply (se_apart _ _ _ _ _ Hse)|]. intros Hk'.
    destruct (Htaken k Hk') as [H|H]; [by apply (Hdisj k)|]. apply (se_marked _ _ _ _ _ Hse) in Hk. congruence. }
  assert (Hown : ∀ k, file_owned s' j cs k ↔ file_owned s j cs k).
  { intros k. unfold file_owned, owned. destruct (tree_kept (img s) (img s') (data j) (sectors cs)) as (_ & _ & E1 & E2).
    - intros k' Hk'. apply Hsame. by right; right.
    - by rewrite E1, E2. }
  assert (Hpos : ∀ k, file_owned s j cs k → 0 ≤ k).
  { intros k Hk. apply (owned_some _ _ _ _ _ (se_laid _ _ _ _ _ Hse)), (mi_domain _ _ _ Hm) in Hk. lia. }
  split.
  - split; try done; try apply Ho'.
    + by rewrite (t_inodes _ _ _ _ _ Ht), lookup_insert_ne.
    + eapply holds_kept; [done|intros k; by rewrite (t_dom _ _ _ _ _ Ht)|exact Hsame].
    + destruct Hse as [L K A Z0]. split; [| | |done].
      * eapply laid_out_kept; [done|intros k; by rewrite (t_dom _ _ _ _ _ Ht)|]. intros k Hk. apply Hsame. by right; right.
      * intros k Hk%Hown. apply Hbits; [by apply Hpos|left; by apply K].
      * intros k Hk%Hown. rewrite Hmap. by apply A.
  - intros k Hk Hk'%Hown. destruct (Htaken k Hk) as [H|H]; [by apply (Hdisj k)|].
    apply (se_marked _ _ _ _ _ Hse) in Hk'. congruence.
Qed.
