(* ===== verification/File.v ===== *)
(** * filesys/file.c, and the free map's file of filesys/free-map.c

    Open files by address; the null pointer is 0.  Reading delivers the bytes
    that the source puts in the caller's buffer. *)
From S2P Require Import Prelude Bitmap Block Inode InodeFacts.
Local Open Scope Z_scope.

Definition file_open (inode : Z) : M fs Z :=
  m ← malloc;
  if negb (inode =? 0) && negb (m =? 0) then
    put_file m (File inode 0 false) ;; mret m
  else inode_close inode ;; mret 0.

Definition file_reopen (file : Z) : M fs Z :=
  f ← get_file file; i ← inode_reopen (finode f); file_open i.

Definition file_deny_write (file : Z) : M fs unit :=
  ASSERT (negb (file =? 0)) ;;
  f ← get_file file;
  if negb (deny_write f) then
    put_file file (File (finode f) (fpos f) true) ;; inode_deny_write (finode f)
  else mret tt.

Definition file_allow_write (file : Z) : M fs unit :=
  ASSERT (negb (file =? 0)) ;;
  f ← get_file file;
  if deny_write f then
    put_file file (File (finode f) (fpos f) false) ;; inode_allow_write (finode f)
  else mret tt.

Definition file_close (file : Z) : M fs unit :=
  if file =? 0 then mret tt
  else
    file_allow_write file ;;
    f ← get_file file;
    inode_close (finode f) ;;
    modify (λ s, set_files (delete file (files s)) s).

Definition file_get_inode (file : Z) : M fs Z := f ← get_file file; mret (finode f).

Definition file_read (file size : Z) : M fs (list Z) :=
  f ← get_file file;
  bytes ← inode_read_at (finode f) size (fpos f);
  put_file file (File (finode f) (s32 (fpos f + Z.of_nat (length bytes))) (deny_write f)) ;;
  mret bytes.

Definition file_read_at (file size file_ofs : Z) : M fs (list Z) :=
  f ← get_file file; inode_read_at (finode f) size file_ofs.

Definition file_write (file : Z) (buffer : list Z) (size : Z) : M fs Z :=
  f ← get_file file;
  bytes_written ← inode_write_at (finode f) buffer size (fpos f);
  put_file file (File (finode f) (s32 (fpos f + bytes_written)) (deny_write f)) ;;
  mret bytes_written.

Definition file_write_at (file : Z) (buffer : list Z) (size file_ofs : Z) : M fs Z :=
  f ← get_file file; inode_write_at (finode f) buffer size file_ofs.

Definition file_length (file : Z) : M fs Z :=
  ASSERT (negb (file =? 0)) ;; f ← get_file file; inode_length (finode f).

Definition file_seek (file new_pos : Z) : M fs unit :=
  ASSERT (negb (file =? 0)) ;;
  ASSERT (0 <=? new_pos) ;;
  f ← get_file file; put_file file (File (finode f) new_pos (deny_write f)).

Definition file_tell (file : Z) : M fs Z :=
  ASSERT (negb (file =? 0)) ;; f ← get_file file; mret (fpos f).

(** ** The free map's file *)

(** [bitmap_create] clears the words that its allocations return, whatever they
    held. *)
Definition free_map_init : M fs unit :=
  d ← gets fs_device;
  n ← on_dev (block_size d);
  m1 ← malloc;
  m2 ← (if m1 =? 0 then mret 0 else malloc);
  b ← match bitmap_create n (negb (m1 =? 0))
              (if m2 =? 0 then None else Some (replicate (Z.to_nat (elem_cnt n)) 0)) with
      | Ok (Some b) => mret b
      | Ok None => PANIC
      | Err e => throw e
      end;
  modify (set_free_map b) ;;
  on_map (bitmap_mark FREE_MAP_SECTOR) ;;
  on_map (bitmap_mark ROOT_DIR_SECTOR).

(** [bitmap_read (free_map, free_map_file)] *)
Definition free_map_read : M fs bool :=
  file ← gets free_map_file;
  n ← gets (λ s, bit_cnt (free_map s));
  if 0 <? n then
    bytes ← file_read_at file (byte_cnt n) 0;
    on_map (bitmap_read (λ _, bytes))
  else mret true.

Definition free_map_open : M fs unit :=
  i ← inode_open FREE_MAP_SECTOR;
  f ← file_open i;
  modify (set_free_map_file f) ;;
  if f =? 0 then PANIC
  else ok ← free_map_read; if negb ok then PANIC else mret tt.

Definition free_map_close : M fs unit := f ← gets free_map_file; file_close f.

Definition free_map_create : M fs unit :=
  size ← gets (λ s, bitmap_file_size (free_map s));
  ok ← inode_create FREE_MAP_SECTOR size false;
  if negb ok then PANIC
  else
    i ← inode_open FREE_MAP_SECTOR;
    f ← file_open i;
    modify (set_free_map_file f) ;;
    if f =? 0 then PANIC
    else ok ← free_map_write inode_write_at; if negb ok then PANIC else mret tt.

(** ** Closing files

    What closing a list of open files does to the inodes they share: each close
    gives back one reference, and one refusal of writes if the file had one; an
    inode whose last reference goes is closed. *)

(** The files of a list that refer to an inode, and those that deny writes to it. *)
Definition refers (F : fs) (p f : Z) : bool :=
  match files F !! f with Some x => finode x =? p | None => false end.
Definition denies (F : fs) (p f : Z) : bool :=
  match files F !! f with Some x => (finode x =? p) && deny_write x | None => false end.
Definition refs (F : fs) (l : list Z) (p : Z) : Z := Z.of_nat (length (List.filter (refers F p) l)).
Definition denials (F : fs) (l : list Z) (p : Z) : Z := Z.of_nat (length (List.filter (denies F p) l)).

(** Files that a process may close: they are open, their inodes are not removed,
    and the inodes count all references and denials, those of others too. *)
Record closable (F : fs) (l : list Z) : Prop := Closable {
  cl_distinct : NoDup l;
  cl_files : ∀ f, f ∈ l → f ≠ 0 ∧ ∃ x i, files F !! f = Some x ∧ finode x ≠ 0 ∧ inodes F !! finode x = Some i ∧ removed i = false;
  cl_open : ∀ p i, inodes F !! p = Some i → refs F l p ≤ open_cnt i < 2 ^ 31;
  cl_deny : ∀ p i, inodes F !! p = Some i → denials F l p ≤ deny_write_cnt i ∧
    deny_write_cnt i - denials F l p ≤ open_cnt i - refs F l p }.

(** An inode after [n] references and [d] denials are gone. *)
Definition drop_refs (n d : Z) (o : option inode) : option inode :=
  match o with
  | None => None
  | Some i =>
      if n =? 0 then Some i
      else if open_cnt i =? n then None
      else Some (Inode (isector i) (open_cnt i - n) (removed i) (deny_write_cnt i - d) (data i) (inode_lock i))
  end.

Record closed (F F' : fs) (l : list Z) : Prop := Closed {
  cd_files : ∀ f, files F' !! f = if decide (f ∈ l) then None else files F !! f;
  cd_inodes : ∀ p, inodes F' !! p = drop_refs (refs F l p) (denials F l p) (inodes F !! p);
  cd_list : ∀ p, p ∈ open_inodes F' ↔ p ∈ open_inodes F ∧ ¬ (is_Some (inodes F !! p) ∧ inodes F' !! p = None);
  cd_disk : dev F' = dev F ∧ free_map F' = free_map F ∧ dirs F' = dirs F ∧ current_directory F' = current_directory F }.

Lemma refs_cons F f l p : refs F (f :: l) p = (if refers F p f then 1 else 0) + refs F l p.
Proof. unfold refs. simpl. destruct (refers F p f); simpl length; lia. Qed.
Lemma denials_cons F f l p : denials F (f :: l) p = (if denies F p f then 1 else 0) + denials F l p.
Proof. unfold denials. simpl. destruct (denies F p f); simpl length; lia. Qed.
Lemma refs_range F l p : 0 ≤ denials F l p ≤ refs F l p.
Proof.
  induction l as [|f l IH]; [done|]. rewrite refs_cons, denials_cons. unfold refers, denies.
  destruct (files F !! f) as [x|]; [|lia]. destruct (finode x =? p), (deny_write x); simpl; lia.
Qed.

Lemma refs_in F f l x : f ∈ l → files F !! f = Some x → 1 ≤ refs F l (finode x).
Proof.
  intros Hf Hx. induction l as [|h l IH]; [by apply not_elem_of_nil in Hf|]. rewrite refs_cons.
  pose proof (refs_range F l (finode x)). apply elem_of_cons in Hf as [<-|Hf].
  - unfold refers. rewrite Hx, Z.eqb_refl. lia.
  - specialize (IH Hf). destruct (refers _ _ _); lia.
Qed.

(** Counting does not look at other files. *)
Lemma refs_files F F' l p : (∀ f, f ∈ l → files F' !! f = files F !! f) → refs F' l p = refs F l p ∧ denials F' l p = denials F l p.
Proof.
  intros Hl. induction l as [|f l IH]; [done|]. rewrite !refs_cons, !denials_cons. unfold refers, denies.
  rewrite Hl by left. destruct IH as [-> ->]; [|done]. intros g Hg. apply Hl. by right.
Qed.

Lemma drop_refs_add n1 d1 n2 d2 o :
  0 ≤ d1 ≤ n1 → 0 ≤ d2 ≤ n2 → (∀ i, o = Some i → n1 + n2 ≤ open_cnt i) →
  drop_refs n2 d2 (drop_refs n1 d1 o) = drop_refs (n1 + n2) (d1 + d2) o.
Proof.
  intros H1 H2 Ho. destruct o as [i|]; [|done]. specialize (Ho i eq_refl). unfold drop_refs.
  destruct (Z.eqb_spec n1 0) as [->|].
  { replace d1 with 0 by lia. by rewrite !Z.add_0_l. }
  rewrite (proj2 (Z.eqb_neq (n1 + n2) 0)) by lia.
  destruct (Z.eqb_spec (open_cnt i) n1) as [E|].
  { replace n2 with 0 by lia. by rewrite Z.add_0_r, E, Z.eqb_refl. }
  cbn [open_cnt isector removed deny_write_cnt data inode_lock].
  destruct (Z.eqb_spec n2 0) as [->|].
  { replace d2 with 0 by lia. rewrite !Z.add_0_r. by rewrite (proj2 (Z.eqb_neq _ _)) by done. }
  destruct (Z.eqb_spec (open_cnt i - n1) n2), (Z.eqb_spec (open_cnt i) (n1 + n2)); try lia; [done|].
  f_equal. f_equal; lia.
Qed.

Lemma closed_cons F F1 F2 f l : closable F (f :: l) → closed F F1 [f] → closed F1 F2 l → closed F F2 (f :: l).
Proof.
  intros Hcl [A1 A2 A3 (A4 & A5 & A6 & A7)] [B1 B2 B3 (B4 & B5 & B6 & B7)].
  pose proof (cl_distinct _ _ Hcl) as [Hf Hl]%NoDup_cons.
  assert (Hfiles : ∀ g, g ∈ l → files F1 !! g = files F !! g).
  { intros g Hg. rewrite A1, decide_False; [done|]. intros ->%list_elem_of_singleton. done. }
  split.
  - intros g. rewrite B1, A1. destruct (decide (g ∈ l)), (decide (g ∈ [f])) as [Hg|Hg], (decide (g ∈ f :: l)); try done; set_solver.
  - intros p. rewrite B2, A2. destruct (refs_files F F1 l p Hfiles) as [-> ->].
    pose proof (refs_range F [f] p). pose proof (refs_range F l p). pose proof (refs_cons F f [] p). pose proof (refs_cons F f l p).
    pose proof (denials_cons F f [] p). pose proof (denials_cons F f l p).
    assert (refs F [] p = 0 ∧ denials F [] p = 0) as [? ?] by done.
    rewrite drop_refs_add; [f_equal; lia|lia|lia|]. intros i Hi. pose proof (cl_open _ _ Hcl p i Hi). lia.
  - intros p. rewrite B3, A3. specialize (A2 p). specialize (B2 p). destruct (inodes F !! p) as [i|], (inodes F1 !! p) as [i1|], (inodes F2 !! p) as [i2|];
      try done; split; intros; destruct_and?; (split; [naive_solver|]); intros [Hs Hn]; naive_solver.
  - split_and!; congruence.
Qed.

Lemma wp_get_file F f x (Q : file → fs → Prop) : files F !! f = Some x → Q x F → wp (get_file f) F Q.
Proof. intros Hf HQ. unfold get_file. wp_steps. by eapply wp_the. Qed.

(** Giving back the reference of an inode that is not removed. *)
Lemma wp_inode_close_ref F p i (Q : unit → fs → Prop) :
  p ≠ 0 → inodes F !! p = Some i → removed i = false → 1 ≤ open_cnt i < 2 ^ 31 →
  (∀ F', F' = set_open_inodes (open_inodes F') (set_inodes (inodes F') F) →
     (∀ q, inodes F' !! q = if decide (q = p) then drop_refs 1 0 (Some i) else inodes F !! q) →
     (∀ q, q ∈ open_inodes F' ↔ q ∈ open_inodes F ∧ ¬ (q = p ∧ open_cnt i = 1)) → Q tt F') →
  wp (inode_close p) F Q.
Proof.
  intros Hp Hi Hr Ho HQ. unfold inode_close. rewrite (proj2 (Z.eqb_neq p 0) Hp). wp_step. eapply wp_get_inode; [exact Hi|].
  unfold put_inode. wp_step. wp_step. cbn [open_cnt removed isector data]. rewrite s32_small by lia.
  destruct (Z.eqb_spec (open_cnt i - 1) 0) as [E|E]; cbn [negb].
  - wp_step. wp_step. rewrite Hr. wp_steps. apply HQ; [done| |].
    + intros q. cbn. destruct (decide (q = p)) as [->|Hq]; [rewrite lookup_delete_eq|by rewrite lookup_delete_ne, lookup_insert_ne].
      by rewrite (proj2 (Z.eqb_eq (open_cnt i) 1)) by lia.
    + intros q. cbn. rewrite list_elem_of_filter. split; [intros [? ?]; split; [done|by intros []]|].
      intros [Hq Hn]. split; [|done]. intros ->. apply Hn. split; [done|lia].
  - wp_step. apply HQ; [done| |].
    + intros q. cbn. destruct (decide (q = p)) as [->|Hq]; [|by rewrite lookup_insert_ne]. rewrite lookup_insert_eq.
      rewrite (proj2 (Z.eqb_neq (open_cnt i) 1)) by lia. by rewrite Z.sub_0_r.
    + intros q. cbn. split; [|by intros []]. intros Hq. split; [done|]. intros [_ ?]. lia.
Qed.

Lemma wp_close_one F f l : closable F (f :: l) → wp (file_close f) F (λ _ F', closed F F' [f]).
Proof.
  intros Hcl. destruct (cl_files _ _ Hcl f) as (Hf0 & x & i & Hx & Hp0 & Hi & Hr); [by left|].
  pose proof (cl_open _ _ Hcl _ _ Hi) as Ho. pose proof (cl_deny _ _ Hcl _ _ Hi) as Hd. rewrite refs_cons in Ho, Hd. rewrite denials_cons in Hd.
  pose proof (refs_range F l (finode x)) as Hrg.
  assert (Hrf : ∀ p, refers F p f = (finode x =? p)) by (intros p; unfold refers; by rewrite Hx).
  assert (Hdf : ∀ p, denies F p f = (finode x =? p) && deny_write x) by (intros p; unfold denies; by rewrite Hx).
  rewrite Hrf, Z.eqb_refl in Ho, Hd. rewrite Hdf, Z.eqb_refl in Hd. cbn [andb] in Hd.
  assert (Hres : ∀ F', dev F' = dev F ∧ free_map F' = free_map F ∧ dirs F' = dirs F ∧ current_directory F' = current_directory F →
    files F' = delete f (files F) →
    (∀ q, inodes F' !! q = if decide (q = finode x) then drop_refs 1 (if deny_write x then 1 else 0) (Some i) else inodes F !! q) →
    (∀ q, q ∈ open_inodes F' ↔ q ∈ open_inodes F ∧ ¬ (q = finode x ∧ open_cnt i = 1)) → closed F F' [f]).
  { intros F' Hsame Hfs Hin Hls. split; [|intros q|intros q|done].
    - intros g. rewrite Hfs. destruct (decide (g ∈ [f])) as [->%list_elem_of_singleton|Hg]; [apply lookup_delete_eq|].
      apply lookup_delete_ne. intros ->. apply Hg. by left.
    - rewrite refs_cons, denials_cons, Hrf, Hdf. change (refs F [] q) with 0. change (denials F [] q) with 0. rewrite !Z.add_0_r, Hin.
      destruct (decide (q = finode x)) as [->|Hq]; [rewrite Z.eqb_refl, Hi; done|].
      rewrite (proj2 (Z.eqb_neq (finode x) q)) by done. cbn. by destruct (inodes F !! q).
    - rewrite Hls, Hin. destruct (decide (q = finode x)) as [->|Hq].
      + unfold drop_refs. cbn. rewrite Hi. destruct (Z.eqb_spec (open_cnt i) 1) as [E|E].
        * split; intros [H1 H2]; destruct H2; (split; [|done]); [done|by eexists].
        * split; intros [H1 H2]; (split; [exact H1|]); [by intros [_ [=]]|by intros [_ ?]].
      + split; intros [H1 H2]; (split; [exact H1|]); [intros [[? E1] E2]; congruence|by intros [? _]]. }
  unfold file_close. rewrite (proj2 (Z.eqb_neq f 0) Hf0). wp_step. unfold file_allow_write. wp_step.
  apply wp_assert; [by rewrite (proj2 (Z.eqb_neq f 0) Hf0)|]. wp_step. eapply wp_get_file; [exact Hx|].
  destruct (deny_write x) eqn:Edw.
  - unfold put_file. wp_step. wp_step. unfold inode_allow_write. wp_step. eapply wp_get_inode; [cbn; exact Hi|].
    wp_step. apply wp_assert; [apply Z.ltb_lt; lia|]. wp_step. apply wp_assert; [apply Z.leb_le; lia|].
    unfold put_inode. wp_step. wp_step. eapply wp_get_file; [cbn; apply lookup_insert_eq|]. cbn [finode]. wp_step.
    eapply (wp_inode_close_ref _ (finode x)); [done|cbn; apply lookup_insert_eq|done|cbn; lia|].
    intros F' HF' Hin Hls. wp_step. apply Hres.
    + rewrite HF'. done.
    + rewrite HF'. cbn. by rewrite delete_insert_eq.
    + intros q. cbn. rewrite Hin. destruct (decide (q = finode x)) as [->|Hq]; [|cbn; by rewrite lookup_insert_ne].
      unfold drop_refs. cbn. rewrite s32_small by lia. destruct (open_cnt i =? 1); [done|]. by rewrite Z.sub_0_r.
    + intros q. cbn. rewrite Hls. done.
  - wp_step. wp_step. eapply wp_get_file; [exact Hx|]. wp_step.
    eapply (wp_inode_close_ref _ (finode x)); [done|exact Hi|done|lia|].
    intros F' HF' Hin Hls. wp_step. apply Hres.
    + rewrite HF'. done.
    + rewrite HF'. done.
    + intros q. cbn. by rewrite Hin.
    + intros q. cbn. rewrite Hls. done.
Qed.

(** The rest of the files can still be closed. *)
Lemma closable_cons F F' f l : closable F (f :: l) → closed F F' [f] → closable F' l.
Proof.
  intros Hcl [A1 A2 _ _]. pose proof (cl_distinct _ _ Hcl) as [Hf Hl]%NoDup_cons.
  assert (Hfiles : ∀ g, g ∈ l → files F' !! g = files F !! g).
  { intros g Hg. rewrite A1, decide_False; [done|]. by intros ->%list_elem_of_singleton. }
  assert (Hone : ∀ p, refs F (f :: l) p = refs F [f] p + refs F l p ∧ denials F (f :: l) p = denials F [f] p + denials F l p).
  { intros p. rewrite (refs_cons F f l), (refs_cons F f []), (denials_cons F f l), (denials_cons F f []).
    change (refs F [] p) with 0. change (denials F [] p) with 0. lia. }
  assert (Hin : ∀ p i', inodes F' !! p = Some i' → ∃ i, inodes F !! p = Some i ∧ removed i' = removed i ∧
    open_cnt i' = open_cnt i - refs F [f] p ∧ deny_write_cnt i' = deny_write_cnt i - denials F [f] p).
  { intros p i' Hi'. rewrite A2 in Hi'. destruct (inodes F !! p) as [i|] eqn:Hi; [|done]. exists i. split; [done|].
    unfold drop_refs in Hi'. pose proof (refs_range F [f] p). destruct (Z.eqb_spec (refs F [f] p) 0) as [E|].
    - injection Hi' as <-. split_and!; [done|lia|lia].
    - destruct (open_cnt i =? refs F [f] p); [done|]. by injection Hi' as <-. }
  split; [done| | |].
  - intros g Hg. destruct (cl_files _ _ Hcl g) as (Hg0 & x & i & Hx & Hp0 & Hi & Hr); [by right|]. split; [done|].
    pose proof (refs_in F g l x Hg Hx) as Hr1.
    destruct (inodes F' !! finode x) as [i'|] eqn:Hi'.
    + destruct (Hin _ _ Hi') as (j & Hj & Hrj & _). simplify_eq. exists x, i'. rewrite Hfiles by done. split_and!; try done. congruence.
    + rewrite A2, Hi in Hi'. unfold drop_refs in Hi'. destruct (refs F [f] (finode x) =? 0); [done|].
      destruct (Z.eqb_spec (open_cnt i) (refs F [f] (finode x))); [|done].
      pose proof (cl_open _ _ Hcl _ _ Hi). destruct (Hone (finode x)). lia.
  - intros p i' Hi'. destruct (Hin _ _ Hi') as (i & Hi & _ & -> & _). destruct (refs_files F F' l p Hfiles) as [-> _].
    pose proof (cl_open _ _ Hcl _ _ Hi). destruct (Hone p). pose proof (refs_range F [f] p). lia.
  - intros p i' Hi'. destruct (Hin _ _ Hi') as (i & Hi & _ & -> & ->). destruct (refs_files F F' l p Hfiles) as [-> ->].
    pose proof (cl_deny _ _ Hcl _ _ Hi). destruct (Hone p). lia.
Qed.

(** The order of the files does not matter. *)
Lemma refs_perm F l l' p : l ≡ₚ l' → refs F l p = refs F l' p ∧ denials F l p = denials F l' p.
Proof.
  induction 1 as [|f l l' _ IH|f g l|l1 l2 l3 _ IH1 _ IH2]; [done| | |].
  - rewrite !refs_cons, !denials_cons. destruct IH as [-> ->]. done.
  - rewrite !refs_cons, !denials_cons. lia.
  - destruct IH1 as [-> ->]. done.
Qed.
Lemma closable_perm F l l' : l ≡ₚ l' → closable F l → closable F l'.
Proof.
  intros Hp [H1 H2 H3 H4]. split.
  - by rewrite <-Hp.
  - intros f Hf. apply H2. by rewrite Hp.
  - intros p i Hi. destruct (refs_perm F l l' p Hp) as [<- _]. by apply H3.
  - intros p i Hi. destruct (refs_perm F l l' p Hp) as [<- <-]. by apply H4.
Qed.
