(* ===== verification/Directory.v ===== *)
(** * filesys/directory.c: directories

    A directory is a file of 20-byte entries: the sector of an inode, a name of
    at most 14 characters with its terminator, and whether the entry is in use.
    Names and paths are the lists of their characters. *)
From S2P Require Import Prelude Block Bitmap CStringFacts Inode.
Local Open Scope Z_scope.

Definition NAME_MAX : Z := 14.

(** [struct dir_entry] as its bytes. *)
Definition ENTRY : Z := 20.
Definition e_inode_sector (e : list Z) : Z := default 0 (bytes_words (take 4 e) !! 0%nat).
Definition e_name (e : list Z) : list Z := take 15 (drop 4 e).
Definition e_in_use (e : list Z) : bool := negb (default 0 (e !! 19%nat) =? 0).

Definition set_in_use (b : bool) (e : list Z) : list Z := <[19%nat := if b then 1 else 0]> e.
(** [strlcpy (e.name, name, sizeof e.name)]: the rest of the array keeps its
    contents. *)
Definition set_name (name : list Z) (e : list Z) : list Z :=
  let s := take 14 name ++ [0] in
  take 4 e ++ s ++ drop (4 + length s) e.
Definition set_inode_sector (sector : Z) (e : list Z) : list Z := word_bytes sector ++ drop 4 e.

(** [!strcmp (name, array)]: running past the end of the array is a fault. *)
Fixpoint strcmp_eq (name array : list Z) : option bool :=
  match name, array with
  | _, [] => None
  | [], c :: _ => Some (c =? 0)
  | n :: name, c :: array => if n =? c then strcmp_eq name array else Some false
  end.

Definition get_dir_struct (p : Z) : M fs dir := m ← gets dirs; the (m !! p).

Definition dir_create (sector entry_cnt : Z) : M fs bool :=
  inode_create sector (s32 (entry_cnt * ENTRY)) true.

Definition dir_open (inode : Z) : M fs Z :=
  m ← malloc;
  if negb (inode =? 0) && negb (m =? 0) then
    modify (λ s, set_dirs (<[m := Dir inode 0]> (dirs s)) s) ;; mret m
  else inode_close inode ;; mret 0.

Definition dir_open_root : M fs Z := i ← inode_open ROOT_DIR_SECTOR; dir_open i.

Definition dir_reopen (dir : Z) : M fs Z :=
  d ← get_dir_struct dir; i ← inode_reopen (dinode d); dir_open i.

Definition dir_close (dir : Z) : M fs unit :=
  if dir =? 0 then mret tt
  else
    d ← get_dir_struct dir;
    inode_close (dinode d) ;;
    modify (λ s, set_dirs (delete dir (dirs s)) s).

Definition dir_get_inode (dir : Z) : M fs Z := d ← get_dir_struct dir; mret (dinode d).

(** A directory of [length] bytes has at most that many entries. *)
Definition entry_fuel (inode : Z) : M fs nat := n ← inode_length inode; mret (S (S (Z.to_nat n))).

(** The entry and its offset. *)
Definition lookup (dir : Z) (name : list Z) : M fs (option (list Z * Z)) :=
  ASSERT (negb (dir =? 0)) ;;
  d ← get_dir_struct dir;
  fuel ← entry_fuel (dinode d);
  loop fuel (λ ofs,
    e ← inode_read_at (dinode d) ENTRY ofs;
    if Z.of_nat (length e) =? ENTRY then
      if e_in_use e then
        eq ← the (strcmp_eq name (e_name e));
        if (eq : bool) then mret (inr (Some (e, ofs))) else mret (inl (u32 (ofs + ENTRY)))
      else mret (inl (u32 (ofs + ENTRY)))
    else mret (inr None)) 0.

(** The inode (0 when there is none, and then the result is false). *)
Definition dir_lookup (dir : Z) (name : list Z) : M fs Z :=
  ASSERT (negb (dir =? 0)) ;;
  r ← lookup dir name;
  match r with
  | Some (e, _) => inode_open (e_inode_sector e)
  | None => mret 0
  end.

(** The names between the slashes of a path, from one [strtok_r] call to the
    next ([CStringProps.strtok_r_tokens]). *)
Definition path_names (path : list Z) : list (list Z) := tokens [47] path.

(** The loop of [get_dir]; [None] when it returns a null pointer. *)
Fixpoint walk (cur_dir : Z) (names : list (list Z)) : M fs (option Z) :=
  match names with
  | [] => mret (Some cur_dir)
  | token :: names =>
      inode ← dir_lookup cur_dir token;
      if inode =? 0 then dir_close cur_dir ;; mret None
      else
        sub_dir ← dir_open inode;
        if sub_dir =? 0 then dir_close cur_dir ;; mret None
        else dir_close cur_dir ;; walk sub_dir names
  end.

Definition get_dir (path : list Z) : M fs Z :=
  cur_dir ←
    (if bool_decide (head path = Some 47) then dir_open_root
     else
       cwd ← gets current_directory;
       if cwd =? 0 then dir_open_root else dir_reopen cwd);
  r ← walk cur_dir (path_names path);
  match r with
  | None => mret 0
  | Some cur_dir =>
      i ← dir_get_inode cur_dir;
      r ← inode_is_removed i;
      if (r : bool) then dir_close cur_dir ;; mret 0 else mret cur_dir
  end.

(** [inode_read_at] into a [struct dir_entry] that holds [e]: the entry
    afterwards, and whether all of it was read. *)
Definition read_dir_entry (inode : Z) (e : list Z) (ofs : Z) : M fs (list Z * bool) :=
  bytes ← inode_read_at inode ENTRY ofs;
  mret (bytes ++ drop (length bytes) e, Z.of_nat (length bytes) =? ENTRY).

(** An uninitialised [struct dir_entry]. *)
Definition stack_entry : M fs (list Z) := st ← gets stack; mret (take 20 (words_bytes st)).

(** The body of [dir_add] between acquiring and releasing the lock. *)
Definition dir_add_locked (dir : Z) (name : list Z) (inode_sector : Z) : M fs bool :=
  d ← get_dir_struct dir;
  if bool_decide (name = []) || (NAME_MAX <? Z.of_nat (length name)) then mret false
  else
    r ← lookup dir name;
    match r with
    | Some _ => mret false
    | None =>
        e ← stack_entry;
        fuel ← entry_fuel (dinode d);
        '(e, ofs) ← loop fuel (λ '(e, ofs),
          '(e, full) ← read_dir_entry (dinode d) e ofs;
          if (full : bool) then
            if negb (e_in_use e) then mret (inr (e, ofs)) else mret (inl (e, s32 (ofs + ENTRY)))
          else mret (inr (e, ofs))) (e, 0);
        let e := set_inode_sector inode_sector (set_name name (set_in_use true e)) in
        n ← inode_write_at (dinode d) e ENTRY ofs;
        mret (n =? ENTRY)
    end.

Definition dir_add (dir : Z) (name : list Z) (inode_sector : Z) : M fs bool :=
  ASSERT (negb (dir =? 0)) ;;
  d ← dir_get_inode dir;
  inode_lock_acquire d ;;
  success ← dir_add_locked dir name inode_sector;
  inode_lock_release d ;;
  mret success.

(** Whether an entry in use follows [ofs]. *)
Definition has_entries (inode ofs : Z) : M fs bool :=
  e ← stack_entry;
  fuel ← entry_fuel inode;
  loop fuel (λ '(e, ofs),
    '(e, full) ← read_dir_entry inode e ofs;
    if (full : bool) then
      if e_in_use e then mret (inr true) else mret (inl (e, s32 (ofs + ENTRY)))
    else mret (inr false)) (e, ofs).

(** The body of [dir_remove] between acquiring and releasing the lock: the
    result, and the inode that is closed at the end. *)
Definition dir_remove_locked (dir : Z) (name : list Z) : M fs (bool * Z) :=
  d ← get_dir_struct dir;
  r ← lookup dir name;
  match r with
  | None => mret (false, 0)
  | Some (e, ofs) =>
      inode ← inode_open (e_inode_sector e);
      if inode =? 0 then mret (false, 0)
      else
        isdir ← inode_isdir inode;
        refuse ←
          (if (isdir : bool) then
             open ← inode_is_open inode;
             if (open : bool) then mret true
             else dir_open inode ;; has_entries inode (2 * ENTRY)
           else mret false);
        if (refuse : bool) then mret (false, inode)
        else
          n ← inode_write_at (dinode d) (set_in_use false e) ENTRY ofs;
          if negb (n =? ENTRY) then mret (false, inode)
          else inode_remove inode ;; mret (true, inode)
  end.

Definition dir_remove (dir : Z) (name : list Z) : M fs bool :=
  ASSERT (negb (dir =? 0)) ;;
  d ← dir_get_inode dir;
  inode_lock_acquire d ;;
  '(success, inode) ← dir_remove_locked dir name;
  inode_close inode ;;
  inode_lock_release d ;;
  mret success.

(** The name of the next entry in use.  [strlcpy] copies up to the terminator of
    [e.name]. *)
Fixpoint c_string (array : list Z) : option (list Z) :=
  match array with
  | [] => None
  | c :: array => if c =? 0 then Some [] else s ← c_string array; Some (c :: s)
  end.
Definition dir_readdir (dir : Z) : M fs (option (list Z)) :=
  d ← dir_get_inode dir;
  inode_lock_acquire d ;;
  fuel ← entry_fuel d;
  r ← loop fuel (λ _ : unit,
    ds ← get_dir_struct dir;
    e ← inode_read_at d ENTRY (dpos ds);
    if Z.of_nat (length e) =? ENTRY then
      modify (λ s, set_dirs (<[dir := Dir (dinode ds) (s32 (dpos ds + ENTRY))]> (dirs s)) s) ;;
      if e_in_use e then s ← the (c_string (e_name e)); mret (inr (Some (take 14 s)))
      else mret (inl tt)
    else mret (inr None)) tt;
  inode_lock_release d ;;
  mret r.
