(* ===== verification/DirectoryFacts.v ===== *)
(** * Directories as lists of entries

    A directory's file is a sequence of 20-byte entries; [dir_find] looks a name
    up among those in use.  The loops of directory.c are proved against it. *)
From S2P Require Import Prelude Bitmap BitmapFacts Block BlockFacts Inode InodeFacts InodeBody FreeMap InodeAlloc Directory.
Local Open Scope Z_scope.

Record entry_ok (e : list Z) : Prop := EntryOk {
  eo_len : length e = 20%nat;
  eo_bytes : Forall is_byte e;
  eo_name : e_in_use e = true → is_Some (c_string (e_name e)) }.

(** Entries in use with this name. *)
Definition named (name e : list Z) : Prop := e_in_use e = true ∧ c_string (e_name e) = Some name.
#[global] Instance named_dec name e : Decision (named name e).
Proof. unfold named. apply _. Defined.
Definition dir_find (es : list (list Z)) (name : list Z) : option (nat * list Z) := list_find (named name) es.
(** The directory as a map from names to inode sectors. *)
Definition dir_sector (es : list (list Z)) (name : list Z) : option Z :=
  '(_, e) ← dir_find es name; Some (e_inode_sector e).

Definition valid_name (name : list Z) : Prop := Forall (λ c, 0 < c < 256) name.

Section entries.
Implicit Types (e name bs : list Z) (es : list (list Z)).

Lemma length_entries es : Forall entry_ok es → length (mjoin es) = (20 * length es)%nat.
Proof.
  induction 1 as [|e es [He _ _] _ IH]; [done|]. rewrite mjoin_cons, length_app, IH, He. simpl. lia.
Qed.

Lemma entry_piece es (k : nat) e :
  Forall entry_ok es → es !! k = Some e → piece (mjoin es) (20 * Z.of_nat k) 20 = e.
Proof.
  intros Hes Hk. unfold piece. replace (Z.to_nat (20 * Z.of_nat k)) with (20 * k)%nat by lia.
  change (Z.to_nat 20) with 20%nat. revert k Hk. induction Hes as [|e' es [He _ _] _ IH]; intros k Hk; [done|].
  rewrite mjoin_cons. destruct k as [|k]; simpl in Hk.
  - simplify_eq. rewrite Nat.mul_0_r, drop_0, take_app_le, take_ge by lia. done.
  - rewrite drop_app_ge by lia. replace (20 * S k - length e')%nat with (20 * k)%nat by lia. by apply IH.
Qed.

Lemma entry_end es : Forall entry_ok es → piece (mjoin es) (20 * Z.of_nat (length es)) 20 = [].
Proof. intros Hes. apply piece_past. rewrite length_entries by done. lia. Qed.

(** [strcmp] on a terminated array. *)
Lemma strcmp_eq_spec name array nm :
  valid_name name → c_string array = Some nm → strcmp_eq name array = Some (bool_decide (name = nm)).
Proof.
  intros Hn. revert array nm. induction Hn as [|n name Hn0 Hn IH]; intros [|c array] nm Hc; simpl in *; try done.
  - destruct (Z.eqb_spec c 0); [by simplify_eq|].
    apply bind_Some in Hc as (r & _ & [= <-]). by rewrite bool_decide_eq_false_2.
  - destruct (Z.eqb_spec c 0) as [->|Hc0].
    + simplify_eq. rewrite (proj2 (Z.eqb_neq n 0)) by lia. by rewrite bool_decide_eq_false_2.
    + apply bind_Some in Hc as (r & Hr & [= <-]). destruct (Z.eqb_spec n c) as [->|Hne].
      * rewrite (IH array r Hr). f_equal. apply bool_decide_ext. split; congruence.
      * by rewrite bool_decide_eq_false_2 by congruence.
Qed.
End entries.

(** An open directory. *)
Record open_dir (s : fs) (pi : Z) (fi : inode) (dir p : Z) (i : inode) (es : list (list Z)) : Prop := OpenDir {
  od_ptr : dir ≠ 0;
  od_dir : ∃ pos, dirs s !! dir = Some (Dir p pos);
  od_file : open_file s pi fi p i (mjoin es);
  od_isdir : isdir (data i) = true;
  od_deny : deny_write_cnt i = 0;
  od_entries : Forall entry_ok es }.

Lemma open_dir_quiet s s' pi fi dir p i es : open_dir s pi fi dir p i es → quiet s s' → open_dir s' pi fi dir p i es.
Proof.
  intros [Hd (pos & Hdir) Hf Hi Hdeny He] Hq. split; try done.
  - exists pos. by rewrite (t_dirs _ _ _ _ _ Hq).
  - by eapply open_file_quiet.
Qed.

Lemma open_dir_size s pi fi dir p i es :
  open_dir s pi fi dir p i es → 20 * Z.of_nat (length es) ≤ 512 * MAX_SECTORS ∧
  length_of (data i) = 20 * Z.of_nat (length es).
Proof.
  intros [_ _ Hf _ _ He]. pose proof (of_holds _ _ _ _ _ _ Hf) as Hh.
  pose proof (lo_N _ _ _ _ (h_laid _ _ _ _ Hh)) as HN. rewrite (h_len _ _ _ _ Hh).
  pose proof (length_entries es He) as Hl. unfold sectors in HN. rewrite Hl in *.
  pose proof (Z.div_mod (Z.of_nat (20 * length es) + 511) 512 ltac:(lia)).
  pose proof (Z.mod_pos_bound (Z.of_nat (20 * length es) + 511) 512 ltac:(lia)). lia.
Qed.

Section loops.
Context (s : fs) (pi : Z) (fi : inode) (dir p : Z) (i : inode) (es : list (list Z)).
Hypothesis Hdir : open_dir s pi fi dir p i es.

Lemma wp_get_dir (Q : Inode.dir → fs → Prop) :
  (∀ pos, Q (Dir p pos) s) → wp (get_dir_struct dir) s Q.
Proof.
  intros HQ. destruct (od_dir _ _ _ _ _ _ _ Hdir) as (pos & Hd). unfold get_dir_struct. wp_steps. by eapply wp_the.
Qed.

Lemma wp_entry_fuel (Q : nat → fs → Prop) :
  Q (S (S (20 * length es))) s → wp (entry_fuel p) s Q.
Proof.
  intros HQ. unfold entry_fuel, inode_length. wp_step. wp_step. eapply wp_get_inode; [apply Hdir|]. wp_steps.
  rewrite (proj2 (open_dir_size _ _ _ _ _ _ _ Hdir)). by replace (Z.to_nat _) with (20 * length es)%nat by lia.
Qed.

(** Reading entry [k], or finding the end. *)
Lemma wp_read_entry s' (k : nat) (Q : list Z → fs → Prop) :
  quiet s s' → (k ≤ length es)%nat →
  (∀ s2, quiet s s2 → Q (default [] (es !! k)) s2) →
  wp (inode_read_at p ENTRY (20 * Z.of_nat k)) s' Q.
Proof.
  intros Hq Hk HQ. pose proof (open_dir_size _ _ _ _ _ _ _ Hdir) as [Hsz _]. unfold MAX_SECTORS in Hsz.
  eapply wp_read_file; [eapply open_file_quiet; [apply Hdir|done]|lia|unfold ENTRY; lia|].
  intros s2 Hq2. unfold ENTRY. destruct (es !! k) as [e|] eqn:Ek.
  - rewrite (entry_piece es k e) by (done || apply Hdir). apply HQ. by eapply quiet_trans.
  - apply lookup_ge_None in Ek. replace k with (length es) by lia. rewrite entry_end by apply Hdir.
    apply HQ. by eapply quiet_trans.
Qed.

Lemma wp_lookup name (Q : option (list Z * Z) → fs → Prop) :
  valid_name name →
  (∀ s', quiet s s' → Q ('(k, e) ← dir_find es name; Some (e, 20 * Z.of_nat k)) s') →
  wp (Directory.lookup dir name) s Q.
Proof.
  intros Hname HQ. unfold Directory.lookup. pose proof (open_dir_size _ _ _ _ _ _ _ Hdir) as [Hsz _]. unfold MAX_SECTORS in Hsz.
  wp_step. apply wp_assert; [apply negb_true_iff, Z.eqb_neq, Hdir|]. wp_step. apply wp_get_dir. intros pos. wp_step.
  apply wp_entry_fuel. cbn [dinode].
  apply (wp_loop (λ (k : nat) ofs s', quiet s s' ∧ (k ≤ length es)%nat ∧ ofs = 20 * Z.of_nat k ∧
      ∀ j e, (j < k)%nat → es !! j = Some e → ¬ named name e) (λ k, (length es - k)%nat)) with (g := O).
  2: { split_and!; [apply quiet_refl, Hdir|lia..]. } 2: lia.
  intros k ofs s' (Hq & Hk & -> & Hno). wp_step. apply wp_read_entry; [done|done|]. intros s2 Hq2.
  destruct (es !! k) as [e|] eqn:Ek; cbn [default from_option id].
  2: { wp_steps. cbn. assert (dir_find es name = None) as E.
    { apply list_find_None. apply Forall_lookup. intros j e Hj. apply (Hno j e); [|done].
      apply lookup_lt_Some in Hj. apply lookup_ge_None in Ek. lia. }
    specialize (HQ s2 Hq2). by rewrite E in HQ. }
  assert (entry_ok e) as [He _ Hen] by (eapply Forall_lookup_1; [apply Hdir|done]). rewrite He.
  change (Z.of_nat 20 =? ENTRY) with true. cbn match. apply lookup_lt_Some in Ek as Hlt.
  assert (Hnext : ¬ named name e → wp (mret (inl (u32 (20 * Z.of_nat k + ENTRY)))) s2 (λ r s',
    match r with inl a' => ∃ g', (quiet s s' ∧ (g' ≤ length es)%nat ∧ a' = 20 * Z.of_nat g' ∧
      ∀ j e, (j < g')%nat → es !! j = Some e → ¬ named name e) ∧ (length es - g' < length es - k)%nat
    | inr b => Q b s' end)).
  { intros Hn. wp_steps. exists (S k). split; [|lia]. split_and!; [done|lia| |].
    - unfold ENTRY. rewrite u32_small by lia. lia.
    - intros j e' Hj Hje. destruct (decide (j = k)) as [->|]; [by simplify_eq|]. apply (Hno j); [lia|done]. }
  destruct (e_in_use e) eqn:Eu.
  - destruct (Hen eq_refl) as [nm Hnm]. wp_step. eapply wp_the; [by apply strcmp_eq_spec|].
    case_bool_decide as En; [subst nm|apply Hnext; intros [_ ?]; congruence]. wp_steps.
    assert (dir_find es name = Some (k, e)) as E.
    { apply list_find_Some. split_and!; [done|done|]. intros j e' Hj Hlt'. by apply (Hno j). }
    specialize (HQ s2 Hq2). by rewrite E in HQ.
  - apply Hnext. intros [? _]. congruence.
Qed.
End loops.

(** ** Adding and finding directory entries *)

(** ** A new entry *)
Definition new_entry (sector : Z) (name e : list Z) : list Z :=
  set_inode_sector sector (set_name name (set_in_use true e)).

Section entry.
Implicit Types (e name : list Z).

Lemma c_string_app name rest : valid_name name → c_string (name ++ 0 :: rest) = Some name.
Proof.
  induction 1 as [|c name Hc Hn IH]; simpl; [done|]. rewrite (proj2 (Z.eqb_neq c 0)) by lia. by rewrite IH.
Qed.

Lemma set_name_shape name e :
  length e = 20%nat → (length name ≤ 14)%nat →
  set_name name e = take 4 e ++ (name ++ [0]) ++ drop (5 + length name) e.
Proof.
  intros He Hn. unfold set_name. rewrite (take_ge name) by lia. by rewrite length_app; simpl; rewrite Nat.add_1_r.
Qed.

Lemma new_entry_shape sector name e :
  length e = 20%nat → (length name ≤ 14)%nat →
  new_entry sector name e = word_bytes sector ++ (name ++ [0]) ++ drop (5 + length name) (set_in_use true e).
Proof.
  intros He Hn. assert (length (set_in_use true e) = 20%nat) as He' by (unfold set_in_use; by rewrite length_insert).
  unfold new_entry, set_inode_sector. rewrite set_name_shape by done. f_equal.
  rewrite drop_app_ge by (rewrite length_take; lia). by replace (4 - length (take 4 _))%nat with O by (rewrite length_take; lia).
Qed.

Lemma new_entry_ok sector name e :
  length e = 20%nat → Forall is_byte e → valid_name name → (length name ≤ 14)%nat → is_word sector →
  entry_ok (new_entry sector name e) ∧ named name (new_entry sector name e) ∧
  e_inode_sector (new_entry sector name e) = sector.
Proof.
  intros He Hb Hv Hn Hs. assert (length (set_in_use true e) = 20%nat) as He' by (unfold set_in_use; by rewrite length_insert).
  pose proof (new_entry_shape sector name e He Hn) as Hsh. set (e' := new_entry sector name e) in *.
  assert (length e' = 20%nat) as Hl.
  { rewrite Hsh, !length_app, length_drop, He'. simpl. lia. }
  assert (e_name e' = (name ++ [0]) ++ take (14 - length name) (drop (5 + length name) (set_in_use true e))) as Hname.
  { unfold e_name. rewrite Hsh, drop_app_ge by (simpl; lia). replace (4 - length (word_bytes sector))%nat with O by done.
    rewrite drop_0, take_app_ge by (rewrite length_app; simpl; lia). f_equal. f_equal. rewrite length_app. simpl. lia. }
  assert (e_in_use e' = true) as Huse.
  { unfold e_in_use. rewrite Hsh, lookup_app_r by (simpl; lia). rewrite lookup_app_r by (rewrite length_app; simpl; lia).
    rewrite lookup_drop. change (length (word_bytes sector)) with 4%nat. rewrite length_app. cbn [length].
    replace (5 + length name + (19 - 4 - (length name + 1)))%nat with 19%nat by lia.
    unfold set_in_use. by rewrite list_lookup_insert_eq by lia. }
  assert (c_string (e_name e') = Some name) as Hc.
  { rewrite Hname, <-app_assoc. simpl. by apply c_string_app. }
  split_and!; [split| |].
  - done.
  - rewrite Hsh. rewrite !Forall_app. split_and!.
    + repeat constructor; by apply Z.mod_pos_bound.
    + eapply Forall_impl; [exact Hv|]. unfold is_byte. simpl. lia.
    + repeat constructor; lia.
    + apply Forall_drop. unfold set_in_use. apply Forall_insert; [done|]. unfold is_byte. lia.
  - intros _. by rewrite Hc.
  - done.
  - unfold e_inode_sector. rewrite Hsh, take_app_le by (simpl; lia). change (take 4 (word_bytes sector)) with (word_bytes sector).
    pose proof (words_roundtrip [sector]) as Hw. rewrite fmap_cons, mjoin_cons in Hw. simpl fmap in Hw.
    rewrite app_nil_r in Hw. rewrite Hw; [done|]. constructor; [exact Hs|constructor].
Qed.
End entry.

(** ** The list of entries *)
Definition put_entry (es : list (list Z)) (k : nat) (e : list Z) : list (list Z) :=
  if decide (k < length es)%nat then <[k := e]> es else es ++ [e].

Section lists.
Implicit Types (es : list (list Z)).

Lemma overwrite_entry es k e :
  Forall entry_ok es → length e = 20%nat → (k ≤ length es)%nat →
  overwrite (mjoin es) (20 * k) e = mjoin (put_entry es k e).
Proof.
  intros Hes He Hk. unfold overwrite, put_entry. pose proof (length_entries es Hes) as Hl. rewrite Hl.
  replace (20 * k - 20 * length es)%nat with O by lia. simpl replicate. rewrite app_nil_r.
  case_decide as Hlt.
  - clear Hl. revert k Hk Hlt. induction Hes as [|e' es [He' _ _] Hes IH]; intros k Hk Hlt; [simpl in Hlt; lia|].
    rewrite mjoin_cons. destruct k as [|k].
    + simpl. by rewrite He, drop_app_ge, He', drop_0 by lia.
    + simpl in Hk, Hlt. rewrite take_app_ge, drop_app_ge by lia. rewrite He', He.
      replace (20 * S k - 20)%nat with (20 * k)%nat by lia. replace (20 * S k + 20 - 20)%nat with (20 * k + 20)%nat by lia.
      change (<[S k := e]> (e' :: es)) with (e' :: <[k := e]> es). rewrite mjoin_cons, <-app_assoc. f_equal.
      rewrite <-IH by lia. by rewrite He.
  - assert (k = length es) as -> by lia. rewrite take_ge, drop_ge by lia. rewrite app_nil_r.
    clear. induction es as [|e' es IH]; [simpl; by rewrite app_nil_r|]. rewrite mjoin_cons, <-app_assoc, IH. done.
Qed.

Lemma put_entry_ok es k e : Forall entry_ok es → entry_ok e → Forall entry_ok (put_entry es k e).
Proof.
  intros Hes He. unfold put_entry. case_decide; [by apply Forall_insert|]. apply Forall_app. split; [done|by constructor].
Qed.

(** Replacing an entry that is not in use by one for a new name. *)
Lemma dir_sector_put es k e name sector :
  (k ≤ length es)%nat → (∀ e0, es !! k = Some e0 → e_in_use e0 = false) →
  dir_find es name = None → named name e → e_inode_sector e = sector →
  ∀ nm, dir_sector (put_entry es k e) nm = if decide (nm = name) then Some sector else dir_sector es nm.
Proof.
  intros Hk Hfree Hnone [Hu Hc] Hs nm. unfold put_entry, dir_sector, dir_find in *.
  apply list_find_None in Hnone.
  assert (Hsplit : ∃ l1 mid l2, es = l1 ++ mid ++ l2 ∧ (if decide (k < length es)%nat then <[k := e]> es else es ++ [e]) = l1 ++ e :: l2 ∧
    Forall (λ e, e_in_use e = false) mid).
  { case_decide as Hlt.
    - destruct (lookup_lt_is_Some_2 es k Hlt) as [e0 He0]. exists (take k es), [e0], (drop (S k) es). split_and!.
      + simpl. by rewrite take_drop_middle.
      + by apply insert_take_drop.
      + repeat constructor. by apply Hfree.
    - exists es, [], []. split_and!; [by rewrite !app_nil_r|done|constructor]. }
  destruct Hsplit as (l1 & mid & l2 & -> & -> & Hmid). clear Hk Hfree.
  apply Forall_app in Hnone as [Hn1 [_ Hn2]%Forall_app].
  assert (Hfind : ∀ (P : list Z → Prop) `{∀ x, Decision (P x)} (l l' : list (list Z)),
    snd <$> list_find P (l ++ l') = match snd <$> list_find P l with Some x => Some x | None => snd <$> list_find P l' end).
  { intros P HP l l'. induction l as [|x l IH]; [done|]. simpl. case_decide; [done|].
    destruct (list_find P (l ++ l')) as [[? ?]|], (list_find P l) as [[? ?]|]; simpl in *; congruence. }
  assert (Hsec : ∀ l nm, ('(_, e) ← list_find (named nm) l; Some (e_inode_sector e)) = e_inode_sector <$> (snd <$> list_find (named nm) l)).
  { intros l nm'. by destruct (list_find (named nm') l) as [[? ?]|]. }
  rewrite !Hsec, !Hfind. change (e :: l2) with ([e] ++ l2). rewrite (Hfind _ _ [e] l2). simpl (list_find _ [e]).
  assert (list_find (named nm) mid = None) as Em.
  { apply list_find_None. eapply Forall_impl; [exact Hmid|]. intros x Hx [Hx' _]. congruence. }
  destruct (decide (nm = name)) as [->|Hne].
  - rewrite (proj2 (list_find_None _ l1) Hn1). simpl. rewrite decide_True by done. simpl. by rewrite Hs.
  - rewrite decide_False by (intros [_ ?]; congruence). rewrite Em. simpl. done.
Qed.
End lists.

(** ** The search for a free slot *)
Section search.
Context (s : fs) (pi : Z) (fi : inode) (dir p : Z) (i : inode) (es : list (list Z)).
Hypothesis Hdir : open_dir s pi fi dir p i es.

Lemma stack_entry_ok :
  length (take 20 (words_bytes (stack s))) = 20%nat ∧ Forall is_byte (take 20 (words_bytes (stack s))).
Proof.
  destruct (of_stack _ _ _ _ _ _ (od_file _ _ _ _ _ _ _ Hdir)) as [Hl Hw].
  destruct (words_bytes_ok _ Hl Hw) as (Hl' & Hb & _). split; [rewrite length_take; lia|by apply Forall_take].
Qed.

(** The slot found: the first entry not in use, or the end; and what is left in
    the buffer. *)
Definition slot (k : nat) : Prop :=
  (k ≤ length es)%nat ∧ (∀ e, es !! k = Some e → e_in_use e = false).

Lemma wp_free_slot fuel e0 (Q : list Z * Z → fs → Prop) :
  length e0 = 20%nat → Forall is_byte e0 → (length es < fuel)%nat →
  (∀ e k s', slot k → length e = 20%nat → Forall is_byte e → quiet s s' → Q (e, 20 * Z.of_nat k) s') →
  wp (loop fuel (λ '(e, ofs),
        '(e, full) ← read_dir_entry p e ofs;
        if (full : bool) then
          if negb (e_in_use e) then mret (inr (e, ofs)) else mret (inl (e, s32 (ofs + ENTRY)))
        else mret (inr (e, ofs))) (e0, 0)) s Q.
Proof.
  intros He0 Hb0 Hfuel HQ. pose proof (open_dir_size _ _ _ _ _ _ _ Hdir) as [Hsz _]. unfold MAX_SECTORS in Hsz.
  apply (wp_loop (λ (k : nat) '(e, ofs) s', quiet s s' ∧ (k ≤ length es)%nat ∧ ofs = 20 * Z.of_nat k ∧
      length e = 20%nat ∧ Forall is_byte e) (λ k, (length es - k)%nat)) with (g := O).
  2: { split_and!; [apply quiet_refl, Hdir|lia|done..]. } 2: lia.
  intros k [e ofs] s' (Hq & Hk & -> & He & Hb). wp_step. unfold read_dir_entry. wp_step.
  eapply wp_read_entry; [exact Hdir|done|done|]. intros s2 Hq2. wp_steps.
  destruct (es !! k) as [e1|] eqn:Ek; cbn [default from_option id].
  - assert (entry_ok e1) as [He1 Hb1 _] by (eapply Forall_lookup_1; [apply Hdir|done]).
    rewrite He1, drop_ge, app_nil_r by lia. change (Z.of_nat 20 =? ENTRY) with true. cbn match.
    apply lookup_lt_Some in Ek as ?.
    destruct (e_in_use e1) eqn:Eu; cbn [negb]; wp_steps.
    + exists (S k). split; [|lia]. split_and!; [done|lia| |done|done]. unfold ENTRY. rewrite s32_small by lia. lia.
    + apply HQ; try done. split; [lia|]. intros e' He'. congruence.
  - simpl. wp_steps. apply HQ; try done. split; [lia|]. intros e' He'. congruence.
Qed.
End search.

(** ** [dir_add] *)
Definition dir_room (s : fs) (es : list (list Z)) : Prop :=
  20 * (Z.of_nat (length es) + 1) ≤ 512 * 137 ∧ (2 ≤ length (free_bits (free_map s)))%nat.

Lemma sectors_room es (k : nat) :
  Forall entry_ok es → 20 * (Z.of_nat (length es) + 1) ≤ 512 * 137 → (k ≤ length es)%nat →
  let N := sectors (mjoin es) in let N' := Z.max N ((20 * Z.of_nat k + 20 + 511) `div` 512) in
  N' < 138 ∧ needed N N' ≤ 2.
Proof.
  intros Hes Hroom Hk. pose proof (length_entries es Hes) as Hl. unfold sectors. rewrite Hl.
  set (L := Z.of_nat (20 * length es)). assert (0 ≤ L ∧ 20 * Z.of_nat k ≤ L ∧ L + 20 ≤ 512 * 137) as HL by (unfold L; lia).
  assert ((20 * Z.of_nat k + 20 + 511) `div` 512 ≤ (L + 511) `div` 512 + 1) as H1.
  { replace ((L + 511) `div` 512 + 1) with ((L + 511 + 1 * 512) `div` 512) by (rewrite Z.div_add; lia). apply Z.div_le_mono; lia. }
  assert ((20 * Z.of_nat k + 20 + 511) `div` 512 < 138) as H2 by (apply Z.div_lt_upper_bound; lia).
  assert ((L + 511) `div` 512 < 138) as H3 by (apply Z.div_lt_upper_bound; lia).
  split; [lia|]. unfold needed. destruct (bool_decide _); lia.
Qed.

(** Writing an entry into a slot. *)
Lemma wp_put_entry s pi fi dir p i es n (k : nat) e (Q : Z → fs → Prop) :
  open_dir s pi fi dir p i es → dir_room s es → (k ≤ length es)%nat → entry_ok e →
  (∀ i' s', written s s' pi fi p i (mjoin es) i' (mjoin (put_entry es k e)) →
     open_dir s' pi fi dir p i' (put_entry es k e) → Q 20 s') →
  wp (write_at (S (S n)) p e ENTRY (20 * Z.of_nat k)) s Q.
Proof.
  intros Hdir [Hroom Hfree] Hk He HQ. pose proof Hdir as [Hd0 (pos & Hd) Hf Hisdir Hdeny Hes].
  destruct (sectors_room es k Hes Hroom Hk) as [Hlim Hneed]. pose proof (eo_len _ He) as Hl.
  assert (piece e 0 20 = e) as Ep by (unfold piece; apply take_ge; simpl; lia).
  eapply (wp_write_file n s pi fi p i (mjoin es) Hf); unfold ENTRY; [done|lia|lia|apply He|exact Hlim|lia|].
  intros i' s' Hw _. replace (Z.to_nat (20 * Z.of_nat k)) with (20 * k)%nat in Hw by lia.
  rewrite Ep, overwrite_entry in Hw by done. apply (HQ i'); [done|].
  destruct (wn_inode _ _ _ _ _ _ _ _ _ Hw) as (_ & _ & _ & E1 & _ & E2).
  split; try done; [|apply Hw|congruence|congruence|by apply put_entry_ok].
  exists pos. by rewrite (t_dirs _ _ _ _ _ (wn_touched _ _ _ _ _ _ _ _ _ Hw)).
Qed.

(** Which names can be added. *)
Definition name_ok (name : list Z) : bool :=
  negb (bool_decide (name = [])) && (Z.of_nat (length name) <=? NAME_MAX).
Definition addable (es : list (list Z)) (name : list Z) : bool :=
  name_ok name && bool_decide (dir_find es name = None).

(** The directory [es'] is [es] with [name] added. *)
Definition added (es : list (list Z)) (name : list Z) (sector : Z) (es' : list (list Z)) : Prop :=
  ∀ nm, dir_sector es' nm = if decide (nm = name) then Some sector else dir_sector es nm.

Lemma wp_dir_add_locked s pi fi dir p i es name sector (Q : bool → fs → Prop) :
  open_dir s pi fi dir p i es → dir_room s es → valid_name name → is_word sector →
  (∀ s', addable es name = false → quiet s s' → Q false s') →
  (∀ s1 s' i' es', addable es name = true → quiet s s1 →
     written s1 s' pi fi p i (mjoin es) i' (mjoin es') → open_dir s' pi fi dir p i' es' →
     added es name sector es' → Q true s') →
  wp (dir_add_locked dir name sector) s Q.
Proof.
  intros Hdir Hroom Hname Hsec HQ0 HQ1. unfold dir_add_locked. wp_step. eapply wp_get_dir; [exact Hdir|]. intros pos. cbn [dinode].
  assert ((bool_decide (name = []) || (NAME_MAX <? Z.of_nat (length name))) = negb (name_ok name)) as ->.
  { unfold name_ok. rewrite negb_andb, negb_involutive. f_equal. by rewrite Z.ltb_antisym. }
  unfold addable in *. destruct (name_ok name) eqn:Hok; cbn [negb andb] in *.
  2: { wp_steps. apply HQ0; [done|]. apply quiet_refl, Hdir. }
  assert (length name ≤ 14)%nat as Hlen.
  { unfold name_ok, NAME_MAX in Hok. apply andb_true_iff in Hok as [_ H2%Z.leb_le]. lia. }
  wp_step. eapply wp_lookup; [exact Hdir|done|]. intros s1 Hq1.
  destruct (dir_find es name) as [[k0 e0]|] eqn:Hfind; simpl.
  { wp_steps. by apply HQ0. }
  pose proof (open_dir_quiet _ _ _ _ _ _ _ _ Hdir Hq1) as Hdir1.
  destruct (stack_entry_ok _ _ _ _ _ _ _ Hdir1) as [Hse Hsb].
  wp_step. unfold stack_entry. wp_steps. eapply wp_entry_fuel; [exact Hdir1|]. wp_step.
  eapply (wp_free_slot s1); [exact Hdir1|exact Hse|exact Hsb|lia|].
  intros e k s2 [Hk Hslot] He Hb Hq2. wp_step.
  destruct (new_entry_ok sector name e He Hb Hname Hlen Hsec) as (Heok & Hnamed & Hes).
  assert (Hq12 : quiet s s2) by by eapply quiet_trans.
  pose proof (open_dir_quiet _ _ _ _ _ _ _ _ Hdir Hq12) as Hdir2.
  eapply (wp_put_entry s2); [exact Hdir2| |exact Hk|exact Heok|].
  { destruct Hroom as [Hr1 Hr2]. split; [done|]. by rewrite (t_map _ _ _ _ _ Hq12). }
  intros i' s' Hw Ho. wp_steps. eapply HQ1; [done|exact Hq12|exact Hw|exact Ho|].
  intros nm. by apply dir_sector_put.
Qed.

(** ** The directory's lock *)
Lemma open_dir_lock s s' pi fi dir p i es b :
  open_dir s pi fi dir p i es → touched s s' (img s) (free_map s) (<[p := set_lock b i]> (inodes s)) →
  open_dir s' pi fi dir p (set_lock b i) es.
Proof.
  intros [Hd (pos & Hdir) Hf Hisdir Hdeny He] Ht. assert (Hg := t_img _ _ _ _ _ Ht).
  destruct Hf as [Hr Hst Hm Hp Hpi Hi Hl Hh Hse].
  assert (Hfi : (<[p := set_lock b i]> (inodes s)) !! pi = Some fi) by (rewrite lookup_insert_ne by done; apply Hm).
  destruct (map_inv_kept _ _ _ _ _ _ Hm Ht) as [Hm' Hown]; [done|intros j _; apply Hg|].
  split; try done; [exists pos; by rewrite (t_dirs _ _ _ _ _ Ht)|].
  split; try done; [apply Ht| |by rewrite (t_inodes _ _ _ _ _ Ht), lookup_insert_eq|by left| |].
  - unfold stack_ok in *. by rewrite (t_stack _ _ _ _ _ Ht).
  - eapply holds_kept; [done|intros k; by rewrite Hg|intros k _; apply Hg].
  - by eapply separate_kept.
Qed.

Lemma set_lock_free i : inode_lock i = false → set_lock false (set_lock true i) = i.
Proof. destruct i. simpl. by intros ->. Qed.

(** Another open file does not notice that the directory is locked. *)
Lemma open_file_lock_other s s' pi fi p i q j cs :
  open_file s pi fi q j cs → p ≠ q → p ≠ pi →
  touched s s' (img s) (free_map s) (<[p := i]> (inodes s)) → open_file s' pi fi q j cs.
Proof.
  intros [Hr Hst Hm Hp Hpi Hi Hl Hh Hse] Hpq Hppi Ht. assert (Hg := t_img _ _ _ _ _ Ht).
  assert (Hfi : (<[p := i]> (inodes s)) !! pi = Some fi) by (rewrite lookup_insert_ne by done; apply Hm).
  destruct (map_inv_kept _ _ _ _ _ _ Hm Ht) as [Hm' Hown]; [done|intros k _; apply Hg|].
  split; try done; [apply Ht| |by rewrite (t_inodes _ _ _ _ _ Ht), lookup_insert_ne| |].
  - unfold stack_ok in *. by rewrite (t_stack _ _ _ _ _ Ht).
  - eapply holds_kept; [done|intros k; by rewrite Hg|intros k _; apply Hg].
  - by eapply separate_kept.
Qed.

Lemma file_owned_img s s' i i' bs k :
  (∀ k, img s' k = img s k) → isector i' = isector i → data i' = data i → file_owned s' i' bs k ↔ file_owned s i bs k.
Proof.
  intros Hg E1 E2. unfold file_owned, owned. rewrite E1, E2.
  destruct (tree_kept (img s) (img s') (data i) (sectors bs)) as (_ & _ & H1 & H2); [intros k' _; apply Hg|].
  by rewrite H1, H2.
Qed.

(** What an operation on the directory at [p] leaves alone: every other open
    file. *)
Definition others_kept (s s' : fs) (pi : Z) (fi : inode) (p : Z) (i : inode) (bs : list Z) : Prop :=
  ∀ q j cs, open_file s pi fi q j cs → p ≠ q → (∀ k, file_owned s i bs k → ¬ file_owned s j cs k) →
  open_file s' pi fi q j cs.

Lemma wp_lock_dir s p i (Q : unit → fs → Prop) :
  ready s → p ≠ 0 → inodes s !! p = Some i → inode_lock i = false →
  (∀ s', touched s s' (img s) (free_map s) (<[p := set_lock true i]> (inodes s)) → Q tt s') →
  wp (inode_lock_acquire p) s Q.
Proof.
  intros Hr Hp Hi Hl HQ. unfold inode_lock_acquire. wp_step. eapply wp_get_inode; [done..|]. wp_step.
  apply wp_assert; [by rewrite Hl|]. apply wp_put_inode; [done|]. auto.
Qed.
Lemma wp_unlock_dir s p i (Q : unit → fs → Prop) :
  ready s → p ≠ 0 → inodes s !! p = Some i → inode_lock i = true →
  (∀ s', touched s s' (img s) (free_map s) (<[p := set_lock false i]> (inodes s)) → Q tt s') →
  wp (inode_lock_release p) s Q.
Proof.
  intros Hr Hp Hi Hl HQ. unfold inode_lock_release. wp_step. eapply wp_get_inode; [done..|]. wp_step.
  apply wp_assert; [by rewrite Hl|]. apply wp_put_inode; [done|]. auto.
Qed.

Lemma wp_dir_add s pi fi dir p i es name sector (Q : bool → fs → Prop) :
  open_dir s pi fi dir p i es → inode_lock i = false → dir_room s es → valid_name name → is_word sector →
  (∀ s', addable es name = false → open_dir s' pi fi dir p i es → (∀ k, img s' k = img s k) →
     others_kept s s' pi fi p i (mjoin es) → Q false s') →
  (∀ s' i' es', addable es name = true → open_dir s' pi fi dir p i' es' → inode_lock i' = false →
     added es name sector es' → others_kept s s' pi fi p i (mjoin es) → Q true s') →
  wp (dir_add dir name sector) s Q.
Proof.
  intros Hdir Hlk Hroom Hname Hsec HQ0 HQ1. unfold dir_add, dir_get_inode. wp_step.
  apply wp_assert; [apply negb_true_iff, Z.eqb_neq, Hdir|]. wp_step. wp_step. eapply wp_get_dir; [exact Hdir|]. intros pos.
  wp_step. cbn [dinode]. wp_step. pose proof Hdir as [_ _ [Hr _ _ Hp Hpi Hi _ _ _] _ _ _].
  eapply wp_lock_dir; [done..|]. intros s1 H1. wp_step.
  pose proof (open_dir_lock _ _ _ _ _ _ _ _ _ Hdir H1) as Hdir1.
  eapply wp_dir_add_locked; [exact Hdir1| |exact Hname|exact Hsec| |].
  { destruct Hroom as [? ?]. split; [done|]. by rewrite (t_map _ _ _ _ _ H1). }
  - intros s2 Hadd H2. pose proof (open_dir_quiet _ _ _ _ _ _ _ _ Hdir1 H2) as Hdir2. wp_step.
    eapply wp_unlock_dir; [apply H2|done|apply Hdir2|done|]. intros s3 H3. wp_step.
    pose proof (open_dir_lock _ _ _ _ _ _ _ _ _ Hdir2 H3) as Hdir3. rewrite set_lock_free in Hdir3 by done.
    apply HQ0; [done|done| |].
    + intros k. by rewrite (t_img _ _ _ _ _ H3), (t_img _ _ _ _ _ H2), (t_img _ _ _ _ _ H1).
    + intros q j cs Hq Hne _. eapply open_file_lock_other; [|exact Hne|exact Hpi|exact H3].
      eapply open_file_quiet; [|exact H2]. by eapply open_file_lock_other.
  - intros s2 s3 i' es' Hadd H2 Hw Hdir3 Hes. wp_step.
    pose proof (wn_inode _ _ _ _ _ _ _ _ _ Hw) as (_ & _ & _ & _ & Elk & _). simpl in Elk.
    eapply wp_unlock_dir; [apply Hdir3|done|apply Hdir3|done|]. intros s4 H4. wp_step.
    eapply HQ1; [done|eapply open_dir_lock; [exact Hdir3|exact H4]|done|done|].
    intros q j cs Hq Hne Hdisj. eapply open_file_lock_other; [|exact Hne|exact Hpi|exact H4].
    pose proof (open_file_lock_other _ _ _ _ _ _ _ _ _ Hq Hne Hpi H1) as Hq1.
    pose proof (open_file_quiet _ _ _ _ _ _ _ Hq1 H2) as Hq2.
    assert (Hg : ∀ k, img s2 k = img s k) by (intros k; by rewrite (t_img _ _ _ _ _ H2), (t_img _ _ _ _ _ H1)).
    eapply written_other; [exact Hw|exact Hq2|exact Hne|]. intros k.
    rewrite (file_owned_img s s2 i (set_lock true i)), (file_owned_img s s2 j j) by done. apply Hdisj.
Qed.
