(* ===== verification/Filesys.v ===== *)
(** * filesys/filesys.c: the file system's interface

    Paths are the lists of their characters.  Strings that the source copies
    with [strlcpy] into blocks of [malloc] are modelled by their characters; a
    failed [malloc] there ends in the assertion of [strlcpy]. *)
From S2P Require Import Prelude Block Bitmap CStringFacts Inode File Directory.
Local Open Scope Z_scope.

Definition do_format : M fs unit :=
  free_map_create ;;
  ok ← dir_create ROOT_DIR_SECTOR 16;
  if negb ok then PANIC
  else
    dir ← dir_open_root;
    ok ← dir_add dir [46] ROOT_DIR_SECTOR;
    if negb ok then PANIC
    else
      ok ← dir_add dir [46; 46] ROOT_DIR_SECTOR;
      if negb ok then PANIC
      else dir_close dir ;; free_map_close.

Definition filesys_init (format : bool) : M fs unit :=
  role ← on_dev (block_get_role BLOCK_FILESYS);
  match role with
  | None => PANIC
  | Some d =>
      modify (λ s, Fs (dev s) d (free_map s) (free_map_file s) (inodes s) (open_inodes s) (files s)
                      (dirs s) (current_directory s) (next s) (memory s) (stack s)) ;;
      inode_init ;;
      free_map_init ;;
      (if format then do_format else mret tt) ;;
      free_map_open
  end.

Definition filesys_done : M fs unit := free_map_close.

(** A string copied into a new block. *)
Definition copy_string (s : list Z) : M fs (list Z) :=
  m ← malloc; ASSERT (negb (m =? 0)) ;; mret s.

(** The last name of the path. *)
Definition get_name (path : list Z) : M fs (list Z) :=
  s ← copy_string path;
  copy_string (default [] (last (path_names s))).

(** The characters before it: [strlcpy (dir_path, path, strlen (path) - strlen
    (file_name) + 1)]. *)
Definition dir_path (path file_name : list Z) : M fs (list Z) :=
  copy_string (take (length path - length file_name) path).

Definition filesys_chdir (path : list Z) : M fs bool :=
  dir ← get_dir path;
  if dir =? 0 then mret false
  else
    cwd ← gets current_directory;
    dir_close cwd ;;
    modify (set_current_directory dir) ;;
    mret true.

Definition filesys_create (path : list Z) (initial_size : Z) (isdir : bool) : M fs bool :=
  file_name ← get_name path;
  dp ← dir_path path file_name;
  parent_dir ← get_dir dp;
  '(inode_sector, success) ←
    (if parent_dir =? 0 then mret (0, false)
     else
       a ← free_map_allocate 1;
       match a with
       | None => mret (0, false)
       | Some inode_sector =>
           ok ← inode_create inode_sector initial_size isdir;
           if (ok : bool) then
             ok ← dir_add parent_dir file_name inode_sector; mret (inode_sector, ok)
           else mret (inode_sector, false)
       end);
  (if success && isdir then
     inode ← inode_open inode_sector;
     child_dir ← dir_open inode;
     ok ← dir_add child_dir [46] inode_sector;
     if negb ok then PANIC
     else
       pi ← dir_get_inode parent_dir;
       parent ← inode_get_inumber pi;
       ok ← dir_add child_dir [46; 46] parent;
       if negb ok then PANIC
       else dir_close child_dir ;; inode_close inode
   else mret tt) ;;
  (if negb success && negb (inode_sector =? 0) then free_map_release inode_sector 1 else mret tt) ;;
  dir_close parent_dir ;;
  mret success.

Definition filesys_open (path : list Z) : M fs Z :=
  file_name ← get_name path;
  dp ← dir_path path file_name;
  dir ← get_dir dp;
  if dir =? 0 then mret 0
  else
    inode ←
      (if (length file_name =? 0)%nat then dir_get_inode dir
       else i ← dir_lookup dir file_name; dir_close dir ;; mret i);
    if inode =? 0 then mret 0
    else
      r ← inode_is_removed inode;
      if (r : bool) then mret 0 else file_open inode.

Definition filesys_remove (path : list Z) : M fs bool :=
  file_name ← get_name path;
  dp ← dir_path path file_name;
  dir ← get_dir dp;
  success ← (if dir =? 0 then mret false else dir_remove dir file_name);
  dir_close dir ;;
  mret success.
