(* ===== verification/Loader.v ===== *)
(** * userprog/process.c: loading a program

    The state of a process as the loader and the system calls see it: the file
    system, the memory with its page tables, and the members of [struct thread]
    that belong to the process.  Command lines and arguments are the lists of
    their characters; the console is what was printed, the last character first.

    The kernel writes to the user stack through user addresses; [user_access] is
    the walk of the processor through the page tables it has loaded.  An access
    that it refuses is a page fault in the kernel, which [kill] of exception.c
    turns into a panic. *)
From stdpp Require Import strings.
From S2P Require Import Prelude Bitmap Mem CString CStringFacts CStdio Vaddr Palloc Pagedir Block Inode File Directory Filesys.
Local Open Scope Z_scope.

(** [struct file_info]: an open file of a process. *)
Record file_info := FileInfo { fi_fd : Z; file_temp : Z; dir_temp : Z }.

Record proc := Proc {
  fsys : fs; machine : mmu;
  pagedir : Z; executable : Z;
  file_list : list file_info; fd : Z; exit_status : Z;
  name : list Z; console : list Z }.

Definition set_fsys (x : fs) (s : proc) : proc :=
  Proc x (machine s) (pagedir s) (executable s) (file_list s) (fd s) (exit_status s) (name s) (console s).
Definition set_machine (x : mmu) (s : proc) : proc :=
  Proc (fsys s) x (pagedir s) (executable s) (file_list s) (fd s) (exit_status s) (name s) (console s).
Definition set_pagedir (x : Z) (s : proc) : proc :=
  Proc (fsys s) (machine s) x (executable s) (file_list s) (fd s) (exit_status s) (name s) (console s).
Definition set_executable (x : Z) (s : proc) : proc :=
  Proc (fsys s) (machine s) (pagedir s) x (file_list s) (fd s) (exit_status s) (name s) (console s).
Definition set_file_list (x : list file_info) (n : Z) (s : proc) : proc :=
  Proc (fsys s) (machine s) (pagedir s) (executable s) x n (exit_status s) (name s) (console s).
Definition set_exit_status (x : Z) (s : proc) : proc :=
  Proc (fsys s) (machine s) (pagedir s) (executable s) (file_list s) (fd s) x (name s) (console s).
Definition set_console (x : list Z) (s : proc) : proc :=
  Proc (fsys s) (machine s) (pagedir s) (executable s) (file_list s) (fd s) (exit_status s) (name s) x.

Definition on_fs {A} (m : M fs A) : M proc A := zoom fsys set_fsys m.
Definition on_mmu {A} (m : M mmu A) : M proc A := zoom machine set_machine m.

(** ** The processor's access to memory

    CR0_WP is set, so the kernel may not write to read-only pages either. *)
Definition user_access (write : bool) (va : Z) : M mmu Z :=
  pd ← active_pd;
  pde ← on_mem (load32 (pd + 4 * pd_no va));
  if Z.land pde PTE_P =? 0 then throw EFault
  else
    pt ← pde_get_pt pde;
    pte ← on_mem (load32 (pt + 4 * pt_no va));
    if (Z.land pte PTE_P =? 0) || (write && (Z.land pte PTE_W =? 0)) then throw EFault
    else page ← pte_get_page pte; mret (page + pg_ofs va).
Definition user_load (va : Z) : M mmu Z := a ← user_access false va; on_mem (load a).
Definition user_store (va b : Z) : M mmu unit := a ← user_access true va; on_mem (store a b).
Fixpoint user_write (va : Z) (bs : list Z) : M mmu unit :=
  match bs with [] => mret tt | b :: bs => user_store va b ;; user_write (u32 (va + 1)) bs end.
Fixpoint user_read (n : nat) (va : Z) : M mmu (list Z) :=
  match n with O => mret [] | S n => b ← user_load va; bs ← user_read n (u32 (va + 1)); mret (b :: bs) end.
(** The stores of a word. *)
Definition word_bytes (v : Z) : list Z :=
  [v `mod` 256; v `div` 256 `mod` 256; v `div` 65536 `mod` 256; v `div` 16777216 `mod` 256].
Definition user_write32 (va v : Z) : M mmu unit := user_write va (word_bytes v).

Section loader.
Context (init_page_dir init_ram_pages : Z).

Definition install_page (upage kpage : Z) (writable : bool) : M proc bool :=
  pd ← gets pagedir;
  k ← on_mmu (pagedir_get_page pd upage);
  if k =? 0 then on_mmu (pagedir_set_page init_page_dir init_ram_pages pd upage kpage writable) else mret false.

(** ** The stack *)

(** Pushing the strings, the last one first: the addresses, in the order of
    [argv], and the new stack pointer. *)
Fixpoint push_strings (argv : list (list Z)) (esp : Z) : M proc (list Z * Z) :=
  match argv with
  | [] => mret ([], esp)
  | s :: argv =>
      '(addrs, esp) ← push_strings argv esp;
      let esp := u32 (esp - (Z.of_nat (length s) + 1)) in
      on_mmu (user_write esp (s ++ [0])) ;;
      mret (esp :: addrs, esp)
  end.
(** The [while] loop that aligns the stack pointer. *)
Definition word_align (esp : Z) : M proc Z :=
  loop 4 (λ align_esp,
    if negb (Z.land align_esp 3 =? 0) then
      let align_esp := u32 (align_esp - 1) in
      on_mmu (user_store align_esp 0) ;; mret (inl align_esp)
    else mret (inr align_esp)) esp.
(** Pushing words, the last one first. *)
Fixpoint push_words (ws : list Z) (esp : Z) : M proc Z :=
  match ws with
  | [] => mret esp
  | w :: ws =>
      esp ← push_words ws esp;
      let esp := u32 (esp - 4) in
      on_mmu (user_write32 esp w) ;; mret esp
  end.

(** The stack pointer, or none when the result is false. *)
Definition setup_stack (argv : list (list Z)) : M proc (option Z) :=
  kpage ← on_mmu (on_frames (palloc_get_page (Z.lor PAL_USER PAL_ZERO)));
  if kpage =? 0 then mret None
  else
    success ← install_page (PHYS_BASE - PGSIZE) kpage true;
    if (success : bool) then
      '(argv_addr, esp) ← push_strings argv PHYS_BASE;
      esp ← word_align esp;
      esp ← push_words (argv_addr ++ [0]) esp;
      let argv_esp := esp in
      esp ← push_words [argv_esp] esp;
      esp ← push_words [Z.of_nat (length argv)] esp;
      esp ← push_words [0] esp;
      mret (Some esp)
    else on_mmu (on_frames (palloc_free_page kpage)) ;; mret None.

(** ** Segments *)
Record Elf32_Phdr := Phdr {
  p_type : Z; p_offset : Z; p_vaddr : Z; p_filesz : Z; p_memsz : Z; p_flags : Z }.

Definition validate_segment (phdr : Elf32_Phdr) (file : Z) : M proc bool :=
  if negb (Z.land (p_offset phdr) PGMASK =? Z.land (p_vaddr phdr) PGMASK) then mret false
  else
    len ← on_fs (file_length file);
    if u32 len <? p_offset phdr then mret false
    else if p_memsz phdr <? p_filesz phdr then mret false
    else if p_memsz phdr =? 0 then mret false
    else if negb (is_user_vaddr (p_vaddr phdr)) then mret false
    else if negb (is_user_vaddr (u32 (p_vaddr phdr + p_memsz phdr))) then mret false
    else if u32 (p_vaddr phdr + p_memsz phdr) <? p_vaddr phdr then mret false
    else if p_vaddr phdr <? PGSIZE then mret false
    else mret true.

(** Bytes stored by the kernel through its own addresses. *)
Fixpoint kernel_write (a : Z) (bs : list Z) : M mmu unit :=
  match bs with [] => mret tt | b :: bs => on_mem (store a b) ;; kernel_write (a + 1) bs end.

(** One page takes at least one byte off the two counts. *)
Definition load_segment (file ofs upage read_bytes zero_bytes : Z) (writable : bool) : M proc bool :=
  ASSERT (Z.rem (u32 (read_bytes + zero_bytes)) PGSIZE =? 0) ;;
  ASSERT (pg_ofs upage =? 0) ;;
  ASSERT (Z.rem ofs PGSIZE =? 0) ;;
  on_fs (file_seek file ofs) ;;
  loop (S (Z.to_nat (read_bytes + zero_bytes))) (λ '(read_bytes, zero_bytes, upage),
    if (0 <? read_bytes) || (0 <? zero_bytes) then
      let page_read_bytes := if read_bytes <? PGSIZE then read_bytes else PGSIZE in
      let page_zero_bytes := PGSIZE - page_read_bytes in
      kpage ← on_mmu (on_frames (palloc_get_page PAL_USER));
      if kpage =? 0 then mret (inr false)
      else
        bytes ← on_fs (file_read file page_read_bytes);
        on_mmu (kernel_write kpage bytes) ;;
        if negb (Z.of_nat (length bytes) =? page_read_bytes) then
          on_mmu (on_frames (palloc_free_page kpage)) ;; mret (inr false)
        else
          on_mmu (on_mem (memset (kpage + page_read_bytes) 0 page_zero_bytes)) ;;
          ok ← install_page upage kpage writable;
          if negb ok then on_mmu (on_frames (palloc_free_page kpage)) ;; mret (inr false)
          else
            mret (inl (u32 (read_bytes - page_read_bytes), u32 (zero_bytes - page_zero_bytes), u32 (upage + PGSIZE)))
    else mret (inr true)) (read_bytes, zero_bytes, upage).

(** ** ELF files *)
Definition half_at (bs : list Z) (i : nat) : Z := default 0 (bs !! i) + 256 * default 0 (bs !! S i).
Definition word_at (bs : list Z) (i : nat) : Z := half_at bs i + 65536 * half_at bs (S (S i)).

Record Elf32_Ehdr := Ehdr {
  e_ident : list Z; e_type : Z; e_machine : Z; e_version : Z; e_entry : Z; e_phoff : Z;
  e_phentsize : Z; e_phnum : Z }.
Definition read_ehdr (bs : list Z) : Elf32_Ehdr :=
  Ehdr (take 16 bs) (half_at bs 16) (half_at bs 18) (word_at bs 20) (word_at bs 24) (word_at bs 28)
    (half_at bs 42) (half_at bs 44).
Definition read_phdr (bs : list Z) : Elf32_Phdr :=
  Phdr (word_at bs 0) (word_at bs 4) (word_at bs 8) (word_at bs 16) (word_at bs 20) (word_at bs 24).

Definition PT_NULL : Z := 0.
Definition PT_LOAD : Z := 1.
Definition PT_DYNAMIC : Z := 2.
Definition PT_INTERP : Z := 3.
Definition PT_NOTE : Z := 4.
Definition PT_SHLIB : Z := 5.
Definition PT_PHDR : Z := 6.
Definition PT_STACK : Z := 0x6474e551.
Definition PF_W : Z := 2.

Definition ehdr_ok (bs : list Z) : bool :=
  let ehdr := read_ehdr bs in
  (Z.of_nat (length bs) =? 52) && bool_decide (take 7 (e_ident ehdr) = [0x7f; 0x45; 0x4c; 0x46; 1; 1; 1]) &&
  (e_type ehdr =? 2) && (e_machine ehdr =? 3) && (e_version ehdr =? 1) &&
  (e_phentsize ehdr =? 32) && (e_phnum ehdr <=? 1024).

Definition ROUND_UP (x step : Z) : Z := u32 (u32 (x + step - 1) `div` step * step).

(** The [case PT_LOAD] of [load]. *)
Definition load_phdr (file : Z) (phdr : Elf32_Phdr) : M proc bool :=
  ok ← validate_segment phdr file;
  if (ok : bool) then
    let writable := negb (Z.land (p_flags phdr) PF_W =? 0) in
    let file_page := Z.land (p_offset phdr) (u32 (Z.lnot PGMASK)) in
    let mem_page := Z.land (p_vaddr phdr) (u32 (Z.lnot PGMASK)) in
    let page_offset := Z.land (p_vaddr phdr) PGMASK in
    let total := ROUND_UP (u32 (page_offset + p_memsz phdr)) PGSIZE in
    if 0 <? p_filesz phdr then
      let read_bytes := u32 (page_offset + p_filesz phdr) in
      load_segment file (s32 file_page) mem_page read_bytes (u32 (total - read_bytes)) writable
    else load_segment file (s32 file_page) mem_page 0 total writable
  else mret false.

(** The loop over the program headers. *)
Definition load_phdrs (file : Z) (ehdr : Elf32_Ehdr) : M proc bool :=
  loop (S (Z.to_nat (e_phnum ehdr))) (λ '(i, file_ofs),
    if i <? e_phnum ehdr then
      len ← on_fs (file_length file);
      if (file_ofs <? 0) || (len <? file_ofs) then mret (inr false)
      else
        on_fs (file_seek file file_ofs) ;;
        bytes ← on_fs (file_read file 32);
        if negb (Z.of_nat (length bytes) =? 32) then mret (inr false)
        else
          let phdr := read_phdr bytes in
          let file_ofs := s32 (file_ofs + 32) in
          if (p_type phdr =? PT_DYNAMIC) || (p_type phdr =? PT_INTERP) || (p_type phdr =? PT_SHLIB) then mret (inr false)
          else if p_type phdr =? PT_LOAD then
            ok ← load_phdr file phdr;
            if (ok : bool) then mret (inl (i + 1, file_ofs)) else mret (inr false)
          else mret (inl (i + 1, file_ofs))
    else mret (inr true)) (0, s32 (e_phoff ehdr)).

(** ** [load] *)

(** [tss_update] only tells the processor where the kernel stack is. *)
Definition process_activate : M proc unit := pd ← gets pagedir; on_mmu (pagedir_activate init_page_dir pd).

(** [malloc] for each argument: a null pointer is passed to [strlcpy]. *)
Fixpoint copy_args (args : list (list Z)) : M fs unit :=
  match args with [] => mret tt | _ :: args => p ← malloc; (if p =? 0 then throw EFault else mret tt) ;; copy_args args end.

(** The arguments of a command line of at most a page. *)
Definition command_args (file_name : list Z) : list (list Z) := tokens [32] (take (Z.to_nat (PGSIZE - 1)) file_name).

(** [load] up to [done]: the file, and the entry point and stack pointer when
    it succeeds. *)
Definition load_body (file_name : list Z) : M proc (Z * option (Z * Z)) :=
  pd ← on_mmu (pagedir_create init_page_dir);
  modify (set_pagedir pd) ;;
  if pd =? 0 then mret (0, None)
  else
    process_activate ;;
    s ← on_mmu (on_frames (palloc_get_page 0));
    if s =? 0 then mret (0, None)
    else
      let args := command_args file_name in
      argv ← (if bool_decide (args = []) then mret 0 else on_fs malloc);
      if argv =? 0 then on_mmu (on_frames (palloc_free_page s)) ;; mret (0, None)
      else
        on_fs (copy_args args) ;;
        on_mmu (on_frames (palloc_free_page s)) ;;
        file ← on_fs (filesys_open (default [] (head args)));
        if file =? 0 then mret (0, None)
        else
          bytes ← on_fs (file_read file 52);
          if negb (ehdr_ok bytes) then mret (file, None)
          else
            let ehdr := read_ehdr bytes in
            ok ← load_phdrs file ehdr;
            if negb ok then mret (file, None)
            else
              esp ← setup_stack args;
              match esp with
              | None => mret (file, None)
              | Some esp => mret (file, Some (e_entry ehdr, esp))
              end.

Definition load (file_name : list Z) : M proc (option (Z * Z)) :=
  '(file, result) ← load_body file_name;
  modify (set_executable file) ;;
  match result with
  | Some _ => on_fs (file_deny_write file) ;; mret result
  | None => mret None
  end.

(** ** The end of a process *)

Definition process_exit : M proc unit :=
  pd ← gets pagedir;
  if negb (pd =? 0) then
    modify (set_pagedir 0) ;;
    on_mmu (pagedir_activate init_page_dir 0) ;;
    on_mmu (pagedir_destroy init_page_dir pd)
  else mret tt.

End loader.
