(* ===== verification/UserMem.v ===== *)
(** * User memory

    The memory of a process as its page tables map it: what the kernel and the
    process read and write through user addresses. *)
From S2P Require Import Prelude Bitmap BitmapFacts Mem CString CStringFacts Vaddr Palloc PallocFacts Pagedir PagedirFacts PagedirProps Loader.
Local Open Scope Z_scope.

(** The directory that the processor uses. *)
Definition loaded (s : mmu) (pd : Z) : Prop := pd_ok s pd ∧ cr3 s = pd - PHYS_BASE.
Definition writable (e : Z) : bool := negb (Z.land e PTE_W =? 0).

(** Bytes stored at a kernel address. *)
Definition with_bytes (s : mmu) (a : Z) (bs : list Z) : mmu :=
  Mmu (Pal (kernel_pool (frames s)) (user_pool (frames s)) (write (mram s) a bs)) (cr3 s) (cr3_loads s).

Section access.
Implicit Types (s : mmu) (pd va : Z).

Lemma wp_user_access s pd va (w : bool) (Q : Z → mmu → Prop) :
  loaded s pd → user_addr va → present (pte_val s pd va) = true → (w = true → writable (pte_val s pd va) = true) →
  Q (translate (pte_val s pd va) va) s → wp (user_access w va) s Q.
Proof.
  intros [Hok Hcr] Hva Hp Hw HQ. destruct (user_index va Hva) as [Hj Hk].
  destruct (used_range_addr _ _ _ (pk_pal _ _ Hok) (pk_pd _ _ Hok)) as (_ & Hpd & Hhi & _). unfold PHYS_BASE in Hpd.
  assert (He : pde_of s pd (va `div` 4194304) ≠ 0).
  { intros E. unfold pte_val in Hp. rewrite E in Hp. done. }
  destruct (table_entry s pd _ Hok Hj He) as (_ & _ & Hpde & Haddr & Hr).
  destruct (slot_mapped s pd va Hok Hva He) as (Hm & Hlo & Hhi' & _).
  unfold user_access, active_pd. wp_step. wp_step. wp_step. rewrite Hcr. apply wp_ptov; [unfold PHYS_BASE; lia|].
  replace (pd - PHYS_BASE + PHYS_BASE) with pd by lia. wp_step. rewrite pd_no_div.
  apply wp_read; [by apply pd_mapped|]. fold (pde_of s pd (va `div` 4194304)). rewrite (proj2 (Z.eqb_neq _ 0) Hpde).
  wp_step. unfold pde_get_pt. wp_step. apply wp_assert; [by rewrite (proj2 (Z.eqb_neq _ 0) Hpde)|].
  rewrite Haddr. apply wp_ptov; [done|]. wp_step. rewrite user_pt_no by done.
  replace (table (pde_of s pd (va `div` 4194304)) - PHYS_BASE + PHYS_BASE + 4 * ((va `div` 4096) `mod` 1024))
    with (slot s pd va) by (unfold slot; lia).
  apply wp_read; [done|]. unfold pte_val in Hp, Hw, HQ. rewrite (proj2 (Z.eqb_neq _ 0) He) in Hp, Hw, HQ.
  pose proof (pk_pte _ _ Hok va Hva) as Hpte. unfold pte_val in Hpte. rewrite (proj2 (Z.eqb_neq _ 0) He) in Hpte.
  pose proof (word_range (mram s) (slot s pd va) (pk_bytes _ _ Hok)) as Hwr.
  set (e := word (mram s) (slot s pd va)) in *. specialize (Hpte Hp).
  assert ((Z.land e PTE_P =? 0) || (w && (Z.land e PTE_W =? 0)) = false) as ->.
  { unfold present, writable in *. apply negb_true_iff in Hp. rewrite Hp. simpl. destruct w; [|done].
    apply negb_true_iff. by apply Hw. }
  unfold translate in HQ. rewrite Hp in HQ. pose proof (Z.mod_pos_bound e 4096). pose proof (Z.mod_le e 4096).
  wp_step. unfold pte_get_page. rewrite pte_addr_sub by done. apply wp_ptov; [lia|]. wp_step. rewrite pg_ofs_mod. exact HQ.
Qed.

(** Storing into a page of the user pool does not touch page tables. *)
Lemma with_bytes_ok s pd k a bs :
  pd_ok s pd → in_pool UPool (frames s) k → k ≤ a → a + Z.of_nat (length bs) ≤ k + 4096 → Forall is_byte bs →
  pd_ok (with_bytes s a bs) pd ∧ (∀ va, user_addr va → pte_val (with_bytes s a bs) pd va = pte_val s pd va) ∧
  (∀ w p, used w (frames (with_bytes s a bs)) p ↔ used w (frames s) p).
Proof.
  intros Hok Hk Ha Hb Hbs.
  assert (Hbelow : ∀ p, used KPool (frames s) p → p + 4096 ≤ a).
  { intros p Hp. pose proof (kernel_page_below s p k (pk_pal _ _ Hok) (proj1 Hp) Hk). lia. }
  assert (Hword : ∀ x, x + 4 ≤ a → word (mram (with_bytes s a bs)) x = word (mram s) x).
  { intros x Hx. apply word_write_out. lia. }
  assert (Hpde : ∀ j, 0 ≤ j < 768 → pde_of (with_bytes s a bs) pd j = pde_of s pd j).
  { intros j Hj. unfold pde_of. apply Hword. pose proof (Hbelow pd (pk_pd _ _ Hok)). lia. }
  assert (Hpte : ∀ va, user_addr va → pte_val (with_bytes s a bs) pd va = pte_val s pd va).
  { intros va Hva. destruct (user_index va Hva) as [Hj Hjk]. unfold pte_val, slot. rewrite Hpde by done.
    destruct (Z.eqb_spec (pde_of s pd (va `div` 4194304)) 0) as [|He]; [done|]. apply Hword.
    destruct (table_entry s pd _ Hok Hj He) as (Hu & _). pose proof (Hbelow _ Hu). lia. }
  assert (Hused : ∀ w p, used w (frames (with_bytes s a bs)) p ↔ used w (frames s) p) by (intros w p; apply used_ram).
  destruct (write_ram_ok (frames s) (write (mram s) a bs)) as [Hpal _];
    [intros x Hx; by apply write_mapped|apply (pk_pal _ _ Hok)|].
  split; [|done]. split.
  - exact Hpal.
  - by apply bytes_ok_write, Hbs; apply (pk_bytes _ _ Hok).
  - apply Hused, (pk_pd _ _ Hok).
  - intros j Hj. rewrite Hpde by done. destruct (pk_pde _ _ Hok j Hj) as [|[H1 H2]]; [by left|right].
    split; [by apply Hused|done].
  - intros j j' Hj Hj'. rewrite !Hpde by done. by apply (pk_inj _ _ Hok).
  - intros va Hva. rewrite Hpte by done. by apply (pk_pte _ _ Hok).
Qed.

(** A page for the process: none left, or a new one; the page tables stay. *)
Lemma wp_get_user_page s pd flags :
  pd_ok s pd → Z.land flags PAL_ASSERT = 0 → pool_of flags = UPool →
  wp (on_frames (palloc_get_page flags)) s (λ k s',
    (k = 0 ∧ s' = s ∧ no_group (used_map (user_pool (frames s))) 0 1 false) ∨
    (used UPool (frames s') k ∧ ¬ used UPool (frames s) k ∧ pd_ok s' pd ∧ cr3 s' = cr3 s ∧ k ≠ 0 ∧
     same_layout (frames s) (frames s') ∧ mram s' = ram_after flags 1 k (frames s) ∧
     (∀ w p, used w (frames s') p ↔ used w (frames s) p ∨ (w = UPool ∧ p = k)) ∧
     ∀ va, user_addr va → pte_val s' pd va = pte_val s pd va)).
Proof.
  intros Hok Hfl Hpool. unfold on_frames at 1, palloc_get_page. wp_step.
  eapply wp_mono; [apply wp_palloc_get_multiple; [apply (pk_pal _ _ Hok)|lia|by left]|].
  rewrite Hpool. intros k P' [(-> & -> & Hno)|(Hg & Hok' & Hlay & Hr)].
  { left. by destruct s. }
  right. destruct (got_new _ _ _ _ _ Hg k) as [Hin Hnu]; [exists 0; lia|].
  assert (Hpg : ∀ p, page_of k 1 p ↔ p = k).
  { intros p. split; [intros (i & Hi & ->); lia|intros ->; exists 0; lia]. }
  assert (Hused : ∀ w p, used w P' p ↔ used w (frames s) p ∨ (w = UPool ∧ p = k)).
  { intros w p. destruct w; [rewrite (got_frame _ _ _ _ _ Hg) by done; naive_solver|].
    rewrite (got_used _ _ _ _ _ Hg), Hpg. naive_solver. }
  assert (Hz : ∃ bs, Forall is_byte bs ∧ Z.of_nat (length bs) ≤ 4096 ∧ ram P' = write (mram s) k bs).
  { rewrite Hr. unfold ram_after. destruct (Z.land flags PAL_ZERO =? 0); [by exists []|].
    exists (replicate (Z.to_nat (4096 * 1)) 0). split_and!; [|rewrite length_replicate; lia|done]. apply Forall_replicate. unfold is_byte. lia. }
  destruct Hz as (bs & Hbs & Hl & Hw).
  destruct (with_bytes_ok s pd k k bs Hok Hin ltac:(lia) ltac:(lia) Hbs) as (Hok1 & Hpte1 & Hu1).
  destruct (pd_ok_pools (with_bytes s k bs) (Mmu P' (cr3 s) (cr3_loads s)) pd Hok1) as [Hok2 Hpte2]; [done|done| |].
  { intros p. rewrite Hu1. cbn [frames]. rewrite Hused. naive_solver. }
  pose proof (got_pos _ _ _ _ _ Hg). unfold PHYS_BASE in *.
  split_and!; [cbn [frames]; rewrite Hused; by right|done|done|done|lia|done|done|done|].
  intros va Hva. by rewrite Hpte2, Hpte1.
Qed.

(** Giving a page of the user pool back. *)
Lemma wp_put_user_page s pd k (Q : unit → mmu → Prop) :
  pd_ok s pd → used UPool (frames s) k →
  (∀ s', pd_ok s' pd → (∀ va, user_addr va → pte_val s' pd va = pte_val s pd va) → Q tt s') →
  wp (on_frames (palloc_free_page k)) s Q.
Proof.
  intros Hok Hk HQ. unfold on_frames at 1, palloc_free_page. wp_step.
  eapply wp_mono; [apply (wp_palloc_free_multiple _ UPool); [apply (pk_pal _ _ Hok)|lia|]|].
  { intros a (i & Hi & ->). by replace (k + 4096 * i) with k by lia. }
  intros [] P' ([_ Hfr] & Hok' & _ & Hr).
  destruct (with_bytes_ok s pd k k (replicate (Z.to_nat (4096 * 1)) 204) Hok (proj1 Hk)) as (Hok1 & Hpte1 & Hu1);
    [lia|rewrite length_replicate; lia|apply Forall_replicate; unfold is_byte; lia|].
  destruct (pd_ok_pools (with_bytes s k (replicate (Z.to_nat (4096 * 1)) 204)) (Mmu P' (cr3 s) (cr3_loads s)) pd Hok1) as [Hok2 Hpte2];
    [done|done| |].
  { intros p. rewrite Hu1. cbn [frames]. by apply Hfr. }
  apply HQ; [done|]. intros va Hva. by rewrite Hpte2, Hpte1.
Qed.
End access.

(** ** One page of a process *)

(** The page of [upage] is the frame [k] of the user pool, and writable. *)
Record user_page (s : mmu) (pd upage k : Z) : Prop := UserPage {
  up_loaded : loaded s pd;
  up_align : upage `mod` 4096 = 0;
  up_range : 0 ≤ upage ∧ upage + 4096 ≤ PHYS_BASE;
  up_frame : used UPool (frames s) k;
  up_pte : ∀ va, upage ≤ va < upage + 4096 → pte_val s pd va = k - PHYS_BASE + 7 }.

Section page.
Context (pd upage k : Z).
Implicit Types (s : mmu) (bs : list Z).

Lemma frame_entry s :
  user_page s pd upage k → present (k - PHYS_BASE + 7) = true ∧ writable (k - PHYS_BASE + 7) = true ∧
  ∀ va, upage ≤ va < upage + 4096 → translate (k - PHYS_BASE + 7) va = k + (va - upage).
Proof.
  intros [[Hok _] Hal Hr Hf _]. destruct (used_range_addr _ _ _ (pk_pal _ _ Hok) Hf) as (Hk & Hlo & Hhi & _).
  assert (Hm : (k - PHYS_BASE + 7) `mod` 4096 = 7).
  { rewrite Zplus_mod, Zminus_mod, Hk. done. }
  assert (Hbits : ∀ n, 0 ≤ n < 3 → Z.testbit (k - PHYS_BASE + 7) n = true).
  { intros n Hn. rewrite <-(Z.mod_pow2_bits_low _ 12) by lia. change (2 ^ 12) with 4096. rewrite Hm.
    assert (n = 0 ∨ n = 1 ∨ n = 2) as [->|[->| ->]] by lia; done. }
  assert (Hnz : ∀ n, 0 ≤ n < 3 → Z.land (k - PHYS_BASE + 7) (2 ^ n) ≠ 0).
  { intros n Hn E. pose proof (f_equal (λ x, Z.testbit x n) E) as E'. cbn beta in E'.
    rewrite Z.land_spec, Hbits, Z.pow2_bits_true, Z.bits_0 in E' by lia. done. }
  assert (present (k - PHYS_BASE + 7) = true) as Hp.
  { unfold present. apply negb_true_iff, Z.eqb_neq. by apply (Hnz 0). }
  split; [done|]. split; [unfold writable; apply negb_true_iff, Z.eqb_neq; by apply (Hnz 1)|].
  intros va Hva. unfold translate. rewrite Hp, Hm. assert (va `mod` 4096 = va - upage) as ->; [|lia].
  replace va with (va - upage + upage) at 1 by lia. rewrite Zplus_mod, Hal, Z.add_0_r, Z.mod_mod by lia. apply Z.mod_small. lia.
Qed.

Lemma user_page_with s a bs :
  user_page s pd upage k → k ≤ a → a + Z.of_nat (length bs) ≤ k + 4096 → Forall is_byte bs →
  user_page (with_bytes s a bs) pd upage k.
Proof.
  intros [[Hok Hcr] Hal Hr Hf Hpte] Ha Hb Hbs.
  destruct (with_bytes_ok s pd k a bs Hok (proj1 Hf) Ha Hb Hbs) as (Hok' & Hpte' & Hu). split; [done|done|done|by apply Hu|].
  intros va Hva. rewrite Hpte' by (unfold user_addr; lia). by apply Hpte.
Qed.

Lemma wp_user_store s va b (Q : unit → mmu → Prop) :
  user_page s pd upage k → upage ≤ va < upage + 4096 →
  Q tt (with_bytes s (k + (va - upage)) [b]) → wp (user_store va b) s Q.
Proof.
  intros Hpg Hva HQ. destruct (frame_entry s Hpg) as (Hp & Hw & Ht). pose proof Hpg as [Hl Hal Hr Hf Hpte].
  unfold user_store. wp_step. eapply wp_user_access; [exact Hl|unfold user_addr; lia|by rewrite Hpte|by rewrite Hpte|].
  rewrite Hpte, Ht by done. apply wp_on_mem, wp_store; [|exact HQ].
  destruct (used_range_addr _ _ _ (pk_pal _ _ (proj1 Hl)) Hf) as (_ & _ & _ & Hm). apply Hm. lia.
Qed.

Lemma wp_user_load s va (Q : Z → mmu → Prop) :
  user_page s pd upage k → upage ≤ va < upage + 4096 →
  Q (byte_of (mram s) (k + (va - upage))) s → wp (user_load va) s Q.
Proof.
  intros Hpg Hva HQ. destruct (frame_entry s Hpg) as (Hp & Hw & Ht). pose proof Hpg as [Hl Hal Hr Hf Hpte].
  unfold user_load. wp_step. eapply wp_user_access; [exact Hl|unfold user_addr; lia|by rewrite Hpte|done|].
  rewrite Hpte, Ht by done. apply wp_on_mem.
  destruct (used_range_addr _ _ _ (pk_pal _ _ (proj1 Hl)) Hf) as (_ & _ & _ & Hm).
  eapply wp_load; [apply byte_of_lookup, Hm; lia|]. by rewrite mmu_eta.
Qed.

Lemma with_bytes_nil s a : with_bytes s a [] = s.
Proof. unfold with_bytes. simpl. apply mmu_eta. Qed.
Lemma with_bytes_cons s a b bs : with_bytes (with_bytes s a [b]) (a + 1) bs = with_bytes s a (b :: bs).
Proof.
  unfold with_bytes, mram. cbn [frames ram kernel_pool user_pool cr3 cr3_loads]. f_equal. f_equal.
  apply map_eq. intros x. rewrite !lookup_write. simpl length.
  destruct (decide (a + 1 ≤ x < a + 1 + Z.of_nat (length bs))).
  - rewrite decide_True by lia. by replace (Z.to_nat (x - a)) with (S (Z.to_nat (x - (a + 1)))) by lia.
  - destruct (decide (a ≤ x < a + Z.of_nat 1)).
    + rewrite decide_True by lia. by replace (Z.to_nat (x - a)) with O by lia.
    + by rewrite decide_False by lia.
Qed.

Lemma wp_user_write bs s va (Q : unit → mmu → Prop) :
  user_page s pd upage k → Forall is_byte bs → upage ≤ va → va + Z.of_nat (length bs) ≤ upage + 4096 →
  Q tt (with_bytes s (k + (va - upage)) bs) → wp (user_write va bs) s Q.
Proof.
  intros Hpg Hbs. revert s va Hpg. induction Hbs as [|b bs Hb Hbs IH]; intros s va Hpg Hlo Hhi HQ; simpl in *.
  - wp_step. by rewrite with_bytes_nil in HQ.
  - wp_step. apply wp_user_store; [done|lia|]. pose proof (up_range _ _ _ _ Hpg) as [? ?]. unfold PHYS_BASE in *.
    rewrite u32_small by lia. apply IH; [|lia|lia|].
    + apply user_page_with; [done|lia|simpl; lia|by constructor].
    + replace (k + (va + 1 - upage)) with (k + (va - upage) + 1) by lia. by rewrite with_bytes_cons.
Qed.

Lemma wp_user_read (n : nat) s va (Q : list Z → mmu → Prop) :
  user_page s pd upage k → upage ≤ va → va + Z.of_nat n ≤ upage + 4096 →
  Q ((λ j, byte_of (mram s) (k + (va - upage) + Z.of_nat j)) <$> seq 0 n) s → wp (user_read n va) s Q.
Proof.
  intros Hpg. revert va Q. induction n as [|n IH]; intros va Q Hlo Hhi HQ; cbn [user_read].
  - wp_step. exact HQ.
  - wp_step. apply wp_user_load; [done|lia|]. wp_step. pose proof (up_range _ _ _ _ Hpg) as [? ?]. unfold PHYS_BASE in *.
    rewrite u32_small by lia. apply IH; [lia|lia|]. wp_step. cbn [seq fmap list_fmap] in HQ. rewrite Z.add_0_r in HQ.
    rewrite <-(fmap_S_seq 0 n), <-list_fmap_compose in HQ.
    replace ((λ j : nat, byte_of (mram s) (k + (va + 1 - upage) + Z.of_nat j)) <$> seq 0 n)
      with (((λ j : nat, byte_of (mram s) (k + (va - upage) + Z.of_nat j)) ∘ S) <$> seq 0 n); [exact HQ|].
    apply list_fmap_ext. intros i j _. simpl. f_equal. lia.
Qed.
End page.
