(* ===== verification/Syscall.v ===== *)
(** * userprog/syscall.c: system calls, and the end of exceptions

    The calls of a user process, on the state of a process of Loader.v.  A call
    may not return to the process: [exit], a bad pointer and an unknown descriptor
    end it, which is the result [None] here; [halt], [exec] and [wait] concern the
    machine and other processes, and are results of their own.

    Strings and buffers are in the memory of the process.  The kernel uses them
    through user addresses, so an address without a page is a page fault of the
    kernel, the error [EFault].  Strings are read when the call begins. *)
From stdpp Require Import strings.
From S2P Require Import Prelude Bitmap Mem CString CStringFacts CStdio Vaddr Palloc Pagedir Block Inode File Directory Filesys Loader.
Local Open Scope Z_scope.

(** ** Access to the memory of the process *)
Definition user_load32 (va : Z) : M mmu Z := bs ← user_read 4 va; mret (word_at bs 0).
(** A byte of memory is mapped at most twice, for the process and for the
    kernel, so a string is shorter than twice the memory. *)
Definition user_string (va : Z) : M mmu (list Z) :=
  n ← gets (λ s, size (ram (frames s)));
  loop (S (2 * n)) (λ '(va, cs),
    b ← user_load va;
    if b =? 0 then mret (inr (reverse cs)) else mret (inl (u32 (va + 1), b :: cs))) (va, []).
(** The bytes that can be read, at most [n]. *)
Fixpoint user_buffer (n : nat) (va : Z) : M mmu (list Z) := λ s,
  match n with
  | O => Ok ([], s)
  | S n =>
      match user_load va s with
      | Ok (b, s) => (bs ← user_buffer n (u32 (va + 1)); mret (b :: bs)) s
      | Err _ => Ok ([], s)
      end
  end.
(** [strcmp] with a literal, which stops at the first difference. *)
Fixpoint user_equal (va : Z) (cs : list Z) : M mmu bool :=
  b ← user_load va;
  match cs with
  | [] => mret (b =? 0)
  | c :: cs => if b =? c then user_equal (u32 (va + 1)) cs else mret false
  end.

(** ** Ending a process *)

(** Where [thread_name] points to, in a memory that holds nothing else. *)
Definition name_address : Z := 1.
Definition print (fmt args : list Z) : M proc unit :=
  zoom (λ s, (write ∅ name_address (name s ++ [0]), console s)) (λ c s, set_console c.2 s) (printf fmt args).
Definition exit_message (status : Z) : M proc unit :=
  print (chars "%s: exit(%d)" ++ [10]) [name_address; u32 status].

Definition close_file (file : Z) : M fs unit := file_close file.

(** The loop over the open files in [thread_exit]. *)
Fixpoint close_files (l : list file_info) : M proc unit :=
  match l with
  | [] => mret tt
  | f_i :: l =>
      modify (λ s, set_file_list l (fd s) s) ;;
      on_fs (close_file (file_temp f_i)) ;;
      close_files l
  end.

(** How a call ends for the process that made it. *)
Inductive outcome := Returns (eax : option Z) | Halts | Execs (cmd_line : list Z) | Waits (pid : Z).

(** Code that may end the process. *)
Definition bindx {A B} (m : M proc (option A)) (k : A → M proc (option B)) : M proc (option B) :=
  o ← m; match o with Some a => k a | None => mret None end.
Notation "x ⇐ m ; k" := (bindx m (λ x, k)) (at level 20, m at level 100, k at level 200, right associativity).
Definition value (v : Z) : M proc (option outcome) := mret (Some (Returns (Some (u32 v)))).
Definition truth (b : bool) : M proc (option outcome) := value (if b then 1 else 0).

Section syscalls.
Context (init_page_dir : Z).

(** [thread_exit] up to the point where the parent is told: the page tables,
    the open files, the executable. *)
Definition thread_exit : M proc unit :=
  process_exit init_page_dir ;;
  l ← gets file_list; close_files l ;;
  e ← gets executable; on_fs (close_file e).

Definition exit {A} (status : Z) : M proc (option A) :=
  exit_message status ;; modify (set_exit_status status) ;; thread_exit ;; mret None.

Definition check_esp (esp : Z) : M proc (option unit) :=
  pd ← gets pagedir;
  ok ← (if (esp =? 0) || negb (is_user_vaddr esp) then mret false
        else k ← on_mmu (pagedir_get_page pd esp); mret (negb (k =? 0)));
  if (ok : bool) then mret (Some tt) else exit (-1).

Definition get_file (d : Z) : M proc (option file_info) := gets (λ s, find (λ f_i, fi_fd f_i =? d) (file_list s)).
(** [get_file] and the end of the process if there is no such file. *)
Definition the_file (d : Z) : M proc (option file_info) :=
  o ← get_file d; match o with Some f_i => mret (Some f_i) | None => exit (-1) end.

(** ** userprog/exception.c

    The end of an exception, by the segment of the code that caused it; messages
    about the exception itself are left out.  [page_fault] comes to this, too. *)
Definition kill {A} (cs : Z) : M proc (option A) :=
  if cs =? SEL_UCSEG then exit (-1)
  else if cs =? SEL_KCSEG then PANIC
  else exit (-1).

(** ** The calls *)
Definition putbuf (buffer size : Z) : M proc unit :=
  loop (S (Z.to_nat size)) (λ '(buffer, n),
    if 0 <? n then
      b ← on_mmu (user_load buffer); modify (λ s, set_console (b :: console s) s) ;; mret (inl (u32 (buffer + 1), n - 1))
    else mret (inr tt)) (buffer, size).

Definition write (d buffer size : Z) : M proc (option outcome) :=
  if d =? 1 then putbuf buffer size ;; value size
  else if negb (d =? 0) then
    cur_info ⇐ the_file d;
    i ← on_fs (file_get_inode (file_temp cur_info));
    dir ← on_fs (inode_isdir i);
    if (dir : bool) then value (-1)
    else
      bytes ← on_mmu (user_buffer (Z.to_nat (s32 size)) buffer);
      n ← on_fs (file_write (file_temp cur_info) bytes (s32 size));
      value n
  else exit (-1).

Definition create (file initial_size : Z) : M proc (option outcome) :=
  name ← on_mmu (user_string file);
  ok ← on_fs (filesys_create name (s32 initial_size) false);
  truth ok.

Definition remove (file : Z) : M proc (option outcome) :=
  name ← on_mmu (user_string file); ok ← on_fs (filesys_remove name); truth ok.

Definition open (file : Z) : M proc (option outcome) :=
  name ← on_mmu (user_string file);
  if bool_decide (name = []) then value (-1)
  else
    cur ← on_fs (filesys_open name);
    if cur =? 0 then value (-1)
    else
      m ← on_fs malloc;
      if m =? 0 then value (-1)
      else
        inode ← on_fs (file_get_inode cur);
        dir ← (if negb (inode =? 0) then on_fs (inode_isdir inode) else mret false);
        dir_temp ← (if (dir : bool) then i ← on_fs (inode_reopen inode); on_fs (dir_open i) else mret 0);
        d ← gets fd;
        modify (λ s, set_file_list (file_list s ++ [FileInfo d cur dir_temp]) (s32 (d + 1)) s) ;;
        value d.

Definition filesize (d : Z) : M proc (option outcome) :=
  cur_info ⇐ the_file d; n ← on_fs (file_length (file_temp cur_info)); value n.

Definition read (d buffer size : Z) : M proc (option outcome) :=
  cur_info ⇐ the_file d;
  bytes ← on_fs (file_read (file_temp cur_info) (s32 size));
  on_mmu (user_write buffer bytes) ;;
  value (Z.of_nat (length bytes)).

Definition seek (d position : Z) : M proc (option outcome) :=
  cur_info ⇐ the_file d;
  on_fs (file_seek (file_temp cur_info) (s32 position)) ;;
  mret (Some (Returns None)).

Definition tell (d : Z) : M proc (option outcome) :=
  cur_info ⇐ the_file d; n ← on_fs (file_tell (file_temp cur_info)); value n.

(** [list_remove] of the element that [get_file] found. *)
Fixpoint remove_fd (d : Z) (l : list file_info) : list file_info :=
  match l with [] => [] | f_i :: l => if fi_fd f_i =? d then l else f_i :: remove_fd d l end.

Definition close (d : Z) : M proc (option outcome) :=
  cur_info ⇐ the_file d;
  modify (λ s, set_file_list (remove_fd d (file_list s)) (fd s) s) ;;
  on_fs (file_close (file_temp cur_info)) ;;
  (if negb (dir_temp cur_info =? 0) then on_fs (dir_close (dir_temp cur_info)) else mret tt) ;;
  mret (Some (Returns None)).

Definition chdir (dir : Z) : M proc (option outcome) :=
  name ← on_mmu (user_string dir); ok ← on_fs (filesys_chdir name); truth ok.

Definition mkdir (dir : Z) : M proc (option outcome) :=
  name ← on_mmu (user_string dir); ok ← on_fs (filesys_create name 0 true); truth ok.

(** [dir_readdir (cur_info->dir_temp, name)], with its store to [name]. *)
Definition next_entry (dir name : Z) : M proc bool :=
  o ← on_fs (dir_readdir dir);
  match o with Some e => on_mmu (user_write name (e ++ [0])) ;; mret true | None => mret false end.

Definition readdir (d name : Z) : M proc (option outcome) :=
  o ← get_file d;
  match o with
  | None => truth false
  | Some cur_info =>
      inode ← on_fs (file_get_inode (file_temp cur_info));
      if inode =? 0 then truth false
      else
        dir ← on_fs (inode_isdir inode);
        if negb dir then truth false
        else
          result ← next_entry (dir_temp cur_info) name;
          dot ← on_mmu (user_equal name (chars "."));
          if (dot : bool) then
            next_entry (dir_temp cur_info) name ;;
            result ← next_entry (dir_temp cur_info) name; truth result
          else
            dotdot ← on_mmu (user_equal name (chars ".."));
            if (dotdot : bool) then result ← next_entry (dir_temp cur_info) name; truth result
            else truth result
  end.

Definition isdir (d : Z) : M proc (option outcome) :=
  cur_info ⇐ the_file d;
  inode ← on_fs (file_get_inode (file_temp cur_info)); dir ← on_fs (inode_isdir inode); truth dir.

Definition inumber (d : Z) : M proc (option outcome) :=
  cur_info ⇐ the_file d;
  inode ← on_fs (file_get_inode (file_temp cur_info)); n ← on_fs (inode_get_inumber inode); value n.

(** ** The table of calls *)
Definition SYS_HALT : Z := 0.
Definition SYS_EXIT : Z := 1.
Definition SYS_EXEC : Z := 2.
Definition SYS_WAIT : Z := 3.
Definition SYS_CREATE : Z := 4.
Definition SYS_REMOVE : Z := 5.
Definition SYS_OPEN : Z := 6.
Definition SYS_FILESIZE : Z := 7.
Definition SYS_READ : Z := 8.
Definition SYS_WRITE : Z := 9.
Definition SYS_SEEK : Z := 10.
Definition SYS_TELL : Z := 11.
Definition SYS_CLOSE : Z := 12.
Definition SYS_CHDIR : Z := 15.
Definition SYS_MKDIR : Z := 16.
Definition SYS_READDIR : Z := 17.
Definition SYS_ISDIR : Z := 18.
Definition SYS_INUMBER : Z := 19.

(** The word [*(esp + i)], and the checks of its address and of the pointer that
    it is. *)
Definition arg (esp i : Z) : M proc Z := on_mmu (user_load32 (u32 (esp + 4 * i))).
Definition check_arg (esp i : Z) : M proc (option unit) := check_esp (u32 (esp + 4 * i)).
Definition check_pointer (esp i : Z) : M proc (option unit) := p ← arg esp i; check_esp p.

Definition syscall_handler (esp : Z) : M proc (option outcome) :=
  _ ⇐ check_esp esp;
  number ← arg esp 0;
  if number =? SYS_HALT then mret (Some Halts)
  else if number =? SYS_EXIT then
    _ ⇐ check_arg esp 1;
    status ← arg esp 1; exit (s32 status)
  else if number =? SYS_EXEC then
    _ ⇐ check_arg esp 1; _ ⇐ check_pointer esp 1;
    cmd_line ← arg esp 1; c ← on_mmu (user_string cmd_line); mret (Some (Execs c))
  else if number =? SYS_WAIT then
    _ ⇐ check_arg esp 1;
    pid ← arg esp 1; mret (Some (Waits (s32 pid)))
  else if number =? SYS_CREATE then
    _ ⇐ check_arg esp 1; _ ⇐ check_pointer esp 1; _ ⇐ check_arg esp 2;
    file ← arg esp 1; n ← arg esp 2; create file n
  else if number =? SYS_REMOVE then
    _ ⇐ check_arg esp 1; _ ⇐ check_pointer esp 1;
    file ← arg esp 1; remove file
  else if number =? SYS_OPEN then
    _ ⇐ check_arg esp 1; _ ⇐ check_pointer esp 1;
    file ← arg esp 1; open file
  else if number =? SYS_FILESIZE then
    _ ⇐ check_arg esp 1;
    d ← arg esp 1; filesize (s32 d)
  else if number =? SYS_READ then
    _ ⇐ check_arg esp 1; _ ⇐ check_arg esp 2; _ ⇐ check_pointer esp 2; _ ⇐ check_arg esp 3;
    d ← arg esp 1; buffer ← arg esp 2; n ← arg esp 3; read (s32 d) buffer n
  else if number =? SYS_WRITE then
    _ ⇐ check_arg esp 1; _ ⇐ check_arg esp 2; _ ⇐ check_pointer esp 2; _ ⇐ check_arg esp 3;
    d ← arg esp 1; buffer ← arg esp 2; n ← arg esp 3; write (s32 d) buffer n
  else if number =? SYS_SEEK then
    _ ⇐ check_arg esp 1; _ ⇐ check_arg esp 2;
    d ← arg esp 1; position ← arg esp 2; seek (s32 d) position
  else if number =? SYS_TELL then
    _ ⇐ check_arg esp 1;
    d ← arg esp 1; tell (s32 d)
  else if number =? SYS_CLOSE then
    _ ⇐ check_arg esp 1;
    d ← arg esp 1; close (s32 d)
  else if number =? SYS_CHDIR then
    _ ⇐ check_arg esp 1; _ ⇐ check_pointer esp 1;
    dir ← arg esp 1; chdir dir
  else if number =? SYS_MKDIR then
    _ ⇐ check_arg esp 1; _ ⇐ check_pointer esp 1;
    dir ← arg esp 1; mkdir dir
  else if number =? SYS_READDIR then
    _ ⇐ check_arg esp 1; _ ⇐ check_arg esp 2; _ ⇐ check_pointer esp 2;
    d ← arg esp 1; name ← arg esp 2; readdir (s32 d) name
  else if number =? SYS_ISDIR then
    _ ⇐ check_arg esp 1;
    d ← arg esp 1; isdir (s32 d)
  else if number =? SYS_INUMBER then
    _ ⇐ check_arg esp 1;
    d ← arg esp 1; inumber (s32 d)
  else
    print (chars "System Call not implemented." ++ [10]) [] ;; mret (Some (Returns None)).
End syscalls.
