(* ===== verification/InodeCheck.v ===== *)
(** * Checking a concrete file system

    [open_file] of InodeAlloc.v for files of up to nine sectors, as a boolean
    function, so that concrete states can be shown to satisfy it by evaluation;
    and a state that the file system's own operations lead to. *)
From stdpp Require Import strings.
From S2P Require Import Prelude Bitmap BitmapFacts CStdio Block BlockFacts Inode InodeFacts InodeBody FreeMap InodeAlloc File Directory Filesys.
Local Open Scope Z_scope.

Definition byteb (b : Z) : bool := (0 <=? b) && (b <? 256).
Definition wordb (w : Z) : bool := (0 <=? w) && (w <? 2 ^ 32).
Lemma byteb_sound bs : forallb byteb bs = true → Forall is_byte bs.
Proof.
  rewrite forallb_forall. intros H. apply Forall_forall. intros b Hb%list_elem_of_In. specialize (H b Hb).
  unfold byteb in H. rewrite andb_true_iff, Z.leb_le, Z.ltb_lt in H. exact H.
Qed.
Lemma wordb_sound bs : forallb wordb bs = true → Forall is_word bs.
Proof.
  rewrite forallb_forall. intros H. apply Forall_forall. intros b Hb%list_elem_of_In. specialize (H b Hb).
  unfold wordb in H. rewrite andb_true_iff, Z.leb_le, Z.ltb_lt in H. exact H.
Qed.

(** ** Disks *)
Definition sector_okb (s : fs) (k : Z) : bool :=
  match img s k with Some bs => (length bs =? 512)%nat && forallb byteb bs | None => false end.
(** The file system's device is a disk with a bit of the free map for each
    sector. *)
Definition disk_okb (s : fs) : bool :=
  match all_blocks (dev s) !! fs_device s with
  | Some b =>
      (bsize b =? bit_cnt (free_map s)) && (bsize b <=? 2 ^ 32) && negb (btype b =? BLOCK_FOREIGN) &&
      match ops b with Disk _ => true | Partition _ _ => false end &&
      forallb (sector_okb s) (seqZ 0 (bsize b))
  | None => false
  end.

Lemma disk_okb_sound s :
  disk_okb s = true → device (dev s) (fs_device s) ∧ disk_ok (img s) ∧
  ∀ k, is_Some (img s k) ↔ 0 ≤ k < bit_cnt (free_map s).
Proof.
  unfold disk_okb, device. cbn [writable].
  destruct (all_blocks (dev s) !! fs_device s) as [b|] eqn:Hb; [|done].
  rewrite !andb_true_iff, forallb_forall, Z.eqb_eq, Z.leb_le, negb_true_iff, Z.eqb_neq.
  intros ((((Hc & Hsz) & Hf) & Ho) & Hall).
  assert (Hin : ∀ k, 0 ≤ k < bsize b → ∃ bs, img s k = Some bs ∧ length bs = 512%nat ∧ Forall is_byte bs).
  { intros k Hk. specialize (Hall k). unfold sector_okb in Hall. destruct (img s k) as [bs|].
    - exists bs. split; [done|]. rewrite <-list_elem_of_In, elem_of_seqZ, andb_true_iff in Hall.
      destruct (Hall ltac:(lia)) as [Hl%Nat.eqb_eq Hbs]. split; [done|by apply byteb_sound].
    - exfalso. enough (false = true) by done. apply Hall. apply list_elem_of_In, elem_of_seqZ. lia. }
  assert (Hout : ∀ k, is_Some (img s k) → 0 ≤ k < bsize b).
  { intros k. unfold img, sector. cbn [resolve]. rewrite Hb. simpl. case_bool_decide; [done|]. simpl. by intros [? ?]. }
  split_and!.
  - done.
  - done.
  - by destruct (ops b).
  - intros k bs Hk. destruct (Hin k) as (bs' & Hk' & ? & ?); [apply Hout; by eexists|]. by simplify_eq.
  - intros k. rewrite <-Hc. split; [apply Hout|]. intros Hk. destruct (Hin k Hk) as (? & ? & _). by eexists.
Qed.

(** ** Small files *)
Definition small_sectors (d : list Z) (N : Z) : list Z := direct_block d <$> seqZ 0 N.
Definition laid_outb (s : fs) (isec : Z) (d : list Z) (N : Z) : bool :=
  (length d =? 128)%nat && forallb wordb d && (0 <=? N) && (N <? 10) &&
  bool_decide (NoDup (isec :: small_sectors d N)) &&
  forallb (λ k, bool_decide (is_Some (img s k))) (isec :: small_sectors d N).

Lemma small_owned g isec d N k :
  0 ≤ N < 10 → owned g isec d N k ↔ k ∈ isec :: small_sectors d N.
Proof.
  intros HN. unfold owned, small_sectors. rewrite elem_of_cons, list_elem_of_fmap.
  pose proof (tree_direct g d N k ltac:(lia)) as Ht. split.
  - intros [->|[(n & Hn & Hs)|?]]; [by left| |done]. right. exists n.
    rewrite (proj1 (sector_of_direct g d n ltac:(lia))) in Hs. simplify_eq. split; [done|]. apply elem_of_seqZ. lia.
  - intros [->|(n & -> & Hn%elem_of_seqZ)]; [by left|]. right; left. exists n. split; [lia|].
    by apply sector_of_direct; lia.
Qed.

Lemma laid_outb_sound s isec d N : laid_outb s isec d N = true → 0 ≤ N < 10 ∧ laid_out (img s) isec d N.
Proof.
  unfold laid_outb. rewrite !andb_true_iff, Nat.eqb_eq, Z.leb_le, Z.ltb_lt, bool_decide_eq_true.
  intros (((((Hl & Hw%wordb_sound) & H0) & H10) & Hnd) & Hall). rewrite forallb_forall in Hall. split; [lia|].
  assert (Hsome : ∀ k, k ∈ isec :: small_sectors d N → is_Some (img s k)).
  { intros k Hk%list_elem_of_In. specialize (Hall k Hk). by apply bool_decide_eq_true in Hall. }
  assert (Hnth : ∀ n, 0 ≤ n < N → small_sectors d N !! Z.to_nat n = Some (direct_block d n)).
  { intros n Hn. unfold small_sectors. rewrite list_lookup_fmap, lookup_seqZ_lt by lia. simpl. do 2 f_equal. lia. }
  apply NoDup_cons in Hnd as [Hni Hnd].
  assert (Hdata : ∀ n k, 0 ≤ n < N → sector_of (img s) d n = Some k → k = direct_block d n).
  { intros n k Hn Hs. rewrite (proj1 (sector_of_direct _ d n ltac:(lia))) in Hs. congruence. }
  split; [done|done|unfold MAX_SECTORS; lia| |apply Hsome; by left| |by apply tree_direct; lia|left; lia].
  - split.
    + intros n Hn. destruct (Hsome (direct_block d n)) as [b Hb].
      { right. by eapply list_elem_of_lookup_2, Hnth. }
      exists (direct_block d n), b. split; [by apply sector_of_direct; lia|done].
    + intros n m k Hn Hm Hsn Hsm. apply Hdata in Hsn, Hsm; [|done..].
      pose proof (Hnth n Hn) as H1. pose proof (Hnth m Hm) as H2. rewrite <-Hsn in H1. rewrite <-Hsm in H2.
      pose proof (NoDup_lookup _ _ _ _ Hnd H1 H2). lia.
    + intros k _. apply tree_direct. lia.
  - intros (n & Hn & Hs). apply Hdata in Hs; [|done]. apply Hni. rewrite Hs. by eapply list_elem_of_lookup_2, Hnth.
Qed.

Definition holdsb (s : fs) (isec : Z) (d bs : list Z) : bool :=
  laid_outb s isec d (sectors bs) && bool_decide (words_at (img s) isec = Some d) &&
  (eof d =? Z.of_nat (length bs)) && (length_of d =? Z.of_nat (length bs)) &&
  forallb (λ x, bool_decide (byte_at (img s) d x = Some (default 0 (bs !! Z.to_nat x)))) (seqZ 0 (512 * sectors bs)).
Lemma holdsb_sound s isec d bs :
  holdsb s isec d bs = true → 0 ≤ sectors bs < 10 ∧ holds (img s) isec d bs.
Proof.
  unfold holdsb. rewrite !andb_true_iff, bool_decide_eq_true, !Z.eqb_eq, forallb_forall.
  intros ((((Hl & Hw) & He) & Hlen) & Hall). apply laid_outb_sound in Hl as [HN Hl]. split; [done|].
  split; try done. intros x Hx. specialize (Hall x). rewrite bool_decide_eq_true in Hall.
  apply Hall, list_elem_of_In, elem_of_seqZ. lia.
Qed.

(** ** Open files *)
Definition may_lockb (i : inode) : bool := isdir (data i) || negb (inode_lock i).
Definition map_invb (s : fs) (pi : Z) (fi : inode) : bool :=
  negb (free_map_file s =? 0) &&
  match files s !! free_map_file s with Some f => finode f =? pi | None => false end &&
  negb (pi =? 0) && bool_decide (isector fi = 0) && (deny_write_cnt fi =? 0) && may_lockb fi &&
  (0 <=? bit_cnt (free_map s)) && (bit_cnt (free_map s) <? 2 ^ 32 - 31) &&
  (elem_cnt (bit_cnt (free_map s)) <=? Z.of_nat (length (bits (free_map s)))) && forallb wordb (bits (free_map s)) &&
  (byte_cnt (bit_cnt (free_map s)) <=? 512 * MAX_SECTORS) &&
  holdsb s (isector fi) (data fi) (map_bytes (free_map s)) &&
  forallb (bit (free_map s)) (isector fi :: small_sectors (data fi) (sectors (map_bytes (free_map s)))).

Lemma may_lockb_sound i : may_lockb i = true → may_lock i.
Proof. unfold may_lockb, may_lock. rewrite orb_true_iff, negb_true_iff. done. Qed.

Lemma map_invb_sound s pi fi :
  disk_okb s = true → inodes s !! pi = Some fi → map_invb s pi fi = true → map_inv s pi fi.
Proof.
  intros (_ & _ & Hdom)%disk_okb_sound Hi. unfold map_invb.
  rewrite !andb_true_iff, !negb_true_iff, !Z.eqb_neq, Z.eqb_eq, !Z.leb_le, Z.ltb_lt, bool_decide_eq_true.
  intros ((((((((((((Hff & Hf) & Hpi) & Hs0) & Hdeny) & Hlock) & H0) & H32) & Hel) & Hw) & Hby) & Hh) & Hmk).
  apply holdsb_sound in Hh as [HN Hh]. split; [|done|done|].
  - split; try done.
    + destruct (files s !! free_map_file s) as [f|]; [|done]. exists f. split; [done|]. by apply Z.eqb_eq.
    + by apply may_lockb_sound.
    + split; [lia|done|by apply wordb_sound].
  - intros k Hk. unfold map_owned in Hk. rewrite small_owned in Hk by done.
    rewrite forallb_forall in Hmk. by apply Hmk, list_elem_of_In.
Qed.

Definition open_fileb (s : fs) (pi p : Z) (bs : list Z) : bool :=
  match inodes s !! pi, inodes s !! p with
  | Some fi, Some i =>
      bool_decide (memory s = []) && (0 <? next s) && disk_okb s && map_invb s pi fi &&
      (length (stack s) =? 128)%nat && forallb wordb (stack s) && negb (p =? 0) && negb (p =? pi) && may_lockb i &&
      holdsb s (isector i) (data i) bs && (indirect_block (data i) =? 0) &&
      forallb (λ k, bit (free_map s) k &&
        negb (bool_decide (k ∈ isector fi :: small_sectors (data fi) (sectors (map_bytes (free_map s))))))
        (isector i :: small_sectors (data i) (sectors bs))
  | _, _ => false
  end.

Lemma open_fileb_sound s pi p bs :
  open_fileb s pi p bs = true →
  ∃ fi i, inodes s !! pi = Some fi ∧ inodes s !! p = Some i ∧ open_file s pi fi p i bs.
Proof.
  unfold open_fileb. destruct (inodes s !! pi) as [fi|] eqn:Hpi; [|done].
  destruct (inodes s !! p) as [i|] eqn:Hp; [|done].
  rewrite !andb_true_iff, bool_decide_eq_true, Z.ltb_lt, Nat.eqb_eq, !negb_true_iff, !Z.eqb_neq, Z.eqb_eq.
  intros (((((((((((Hme & Hn) & Hd) & Hm) & Hst) & Hsw) & Hp0) & Hppi) & Hl) & Hh) & Hib) & Hall).
  rewrite forallb_forall in Hall.
  pose proof (map_invb_sound s pi fi Hd Hpi Hm) as Hmap. destruct (disk_okb_sound s Hd) as (Hdev & Hdisk & _).
  apply holdsb_sound in Hh as [HN Hh]. exists fi, i. split_and!; [done..|]. split; try done.
  - split; [done|by apply wordb_sound].
  - by apply may_lockb_sound.
  - split; [apply Hh| | |done]; intros k Hk; rewrite small_owned in Hk by done; apply list_elem_of_In in Hk.
    + specialize (Hall k Hk). by apply andb_true_iff in Hall as [? _].
    + specialize (Hall k Hk). apply andb_true_iff in Hall as [_ Hno].
      apply negb_true_iff, bool_decide_eq_false in Hno. unfold map_owned. rewrite small_owned; [done|].
      unfold map_invb in Hm. apply andb_true_iff in Hm as [Hm _]. apply andb_true_iff in Hm as [_ Hm].
      by apply holdsb_sound in Hm as [? _].
Qed.

(** ** An example

    A disk of 40 sectors, formatted by [filesys_init]; the file [/a] is created
    and opened.  The stack holds arbitrary words. *)
Definition ex_blocks (n : nat) : blocks :=
  Blocks [Block (chars "hda") BLOCK_FILESYS (Z.of_nat n) (Disk (replicate n (replicate 512 0))) 0 0]
         [None; Some 0%nat; None; None].
Definition ex_boot (n : nat) : fs :=
  Fs (ex_blocks n) 0 (Bitmap 0 []) 0 ∅ [] ∅ ∅ 0 1 [] (replicate 128 3735928559).
Definition ex_open (n : nat) (path : list Z) : M fs Z :=
  filesys_init true ;; filesys_create path 0 false ;; filesys_open path.
Definition after {A} (m : M fs A) (s : fs) : fs := match m s with Ok (_, s') => s' | Err _ => s end.

Definition ex_fs : fs := after (ex_open 40 (chars "/a")) (ex_boot 40).

(** The file [/a] with something in it. *)
Definition ex_full : fs := after (inode_write_at 92 (chars "hello world") 11 0) ex_fs.

(** The files [/a] and [/b] are both open, and both have contents. *)
Definition ex_two : fs :=
  after (ex_open 40 (chars "/a") ;; filesys_create (chars "/b") 0 false ;; filesys_open (chars "/b") ;;
         inode_write_at 92 (chars "first") 5 0 ;; inode_write_at 133 (chars "second") 6 510) (ex_boot 40).
Definition ex_second : list Z := replicate 510 0 ++ chars "second".

Definition disjointb (s : fs) (i : inode) (bs : list Z) (j : inode) (cs : list Z) : bool :=
  (0 <=? sectors bs) && (sectors bs <? 10) && (0 <=? sectors cs) && (sectors cs <? 10) &&
  forallb (λ k, negb (bool_decide (k ∈ isector j :: small_sectors (data j) (sectors cs))))
    (isector i :: small_sectors (data i) (sectors bs)).
Lemma disjointb_sound s i bs j cs :
  disjointb s i bs j cs = true → ∀ k, file_owned s i bs k → ¬ file_owned s j cs k.
Proof.
  unfold disjointb. rewrite !andb_true_iff, !Z.leb_le, !Z.ltb_lt. intros ((((? & ?) & ?) & ?) & Hall) k.
  unfold file_owned. rewrite !small_owned by lia. intros Hk%list_elem_of_In.
  rewrite forallb_forall in Hall. specialize (Hall k Hk). by apply negb_true_iff, bool_decide_eq_false in Hall.
Qed.
