(* ===== verification/InodeProps.v ===== *)
(** * Properties of filesys/inode.c and filesys/free-map.c

    Files read and written through [inode_read_at] and [inode_write_at] are
    sequences of bytes, separate from each other.  At the end, what the code does
    in cases that it does not handle. *)
From stdpp Require Import strings.
From S2P Require Import Prelude Bitmap BitmapFacts CStdio Block BlockFacts Inode InodeFacts InodeBody FreeMap InodeAlloc File Directory Filesys InodeCheck.
Local Open Scope Z_scope.

(** The example's file [/a] is the inode at 92, the free map's is at 52. *)
Lemma ex_file : ∃ fi i, inodes ex_fs !! 52 = Some fi ∧ inodes ex_fs !! 92 = Some i ∧ open_file ex_fs 52 fi 92 i [].
Proof. apply open_fileb_sound. vm_compute. reflexivity. Qed.

Lemma ex_contents : ∃ fi i, open_file ex_full 52 fi 92 i (chars "hello world").
Proof. destruct (open_fileb_sound ex_full 52 92 (chars "hello world")) as (fi & i & _ & _ & H); [vm_compute; reflexivity|]. by exists fi, i. Qed.

(** C21: reading from an open file delivers the bytes of the file from the offset
    on, as many as are asked for or as there are, and changes nothing, whatever
    the offset (also past the end) and the size.  The file has at most 16522 sectors
    on a disk that holds it as [open_file] says, and malloc does not fail: for a
    sector that is read in part, the code takes a buffer of its own and would stop
    short without it. *)
Theorem inode_read_at_correct s pi fi p i bs size off :
  open_file s pi fi p i bs → 0 ≤ off < 2 ^ 31 → size < 2 ^ 31 →
  ∃ s', inode_read_at p size off s = Ok (piece bs off size, s') ∧ open_file s' pi fi p i bs ∧
    inodes s' = inodes s ∧ ∀ k, img s' k = img s k.
Proof.
  intros Hf Hoff Hsize.
  assert (Hw : wp (inode_read_at p size off) s (λ r s', r = piece bs off size ∧ quiet s s')).
  { eapply wp_read_file; [done..|]. intros s' Hq. done. }
  apply wp_ok in Hw as (r & s' & Hr & -> & Hq). exists s'.
  split_and!; [done|by eapply open_file_quiet|apply Hq|apply Hq].
Qed.

Lemma inode_read_at_correct_witness :
  ∃ s', inode_read_at 92 20 6 ex_full = Ok (chars "world", s') ∧ ∀ k, img s' k = img ex_full k.
Proof.
  destruct ex_contents as (fi & i & Hf).
  destruct (inode_read_at_correct ex_full 52 fi 92 i (chars "hello world") 20 6 Hf) as (s' & Hr & _ & _ & Hg); [lia|lia|].
  exists s'. split; [exact Hr|exact Hg].
Defined.

(** C7: writing to an open file, within it or beyond its end, writes all of the
    bytes (when memory and enough free sectors are there and the file stays
    below 138 sectors): afterwards the file's contents are the old ones with the
    bytes put in at the offset and a gap filled with zeros.  The sectors it has
    taken for this were free, they are marked in the free map, and no others
    are; every sector that belongs neither to the file nor to the free map's
    file keeps its contents. *)
Theorem inode_write_at_correct s pi fi p i bs buf off :
  let size := Z.of_nat (length buf) in
  let N' := Z.max (sectors bs) ((off + size + 511) `div` 512) in
  let bs' := overwrite bs (Z.to_nat off) buf in
  open_file s pi fi p i bs → deny_write_cnt i = 0 → 0 ≤ off → Forall is_byte buf → N' < 138 →
  (Z.to_nat (needed (sectors bs) N') ≤ length (free_bits (free_map s)))%nat →
  ∃ s' i', inode_write_at p buf size off s = Ok (size, s') ∧ open_file s' pi fi p i' bs' ∧
    (∀ k, 0 ≤ k → bit (free_map s') k = true ↔ bit (free_map s) k = true ∨ file_owned s' i' bs' k) ∧
    (∀ k, file_owned s' i' bs' k → file_owned s i bs k ∨ bit (free_map s) k = false) ∧
    (∀ k, ¬ map_owned s fi k → ¬ file_owned s' i' bs' k → img s' k = img s k).
Proof.
  intros size N' bs' Hf Hdeny Hoff Hbytes Hlim Hfree.
  assert (Hw : wp (inode_write_at p buf size off) s (λ r s', r = size ∧ ∃ i', written s s' pi fi p i bs i' bs')).
  { apply (wp_write_file 1 s pi fi p i bs Hf); [done|lia|lia|done|done|done|]. intros i' s' Hwr _.
    split; [done|]. exists i'. replace (piece buf 0 size) with buf in Hwr; [done|].
    unfold piece, size. by rewrite Nat2Z.id, take_ge by done. }
  apply wp_ok in Hw as (r & s' & Hr & -> & i' & [_ _ Ho _ Hb Ht Hfr]). exists s', i'. done.
Qed.

Lemma inode_write_at_correct_witness :
  ∃ fi i s' i', inode_write_at 92 [104; 105] 2 600 ex_fs = Ok (2, s') ∧
    open_file s' 52 fi 92 i' (replicate 600 0 ++ [104; 105]) ∧ inodes ex_fs !! 92 = Some i.
Proof.
  destruct ex_file as (fi & i & _ & Hi & Hf). exists fi, i.
  assert (deny_write_cnt i = 0) as Hd.
  { assert (deny_write_cnt <$> inodes ex_fs !! 92 = Some 0) as E by (vm_compute; reflexivity).
    rewrite Hi in E. by injection E. }
  destruct (inode_write_at_correct ex_fs 52 fi 92 i [] [104; 105] 600 Hf Hd) as (s' & i' & Hr & Ho & _).
  - lia.
  - repeat constructor; lia.
  - vm_compute. reflexivity.
  - apply Nat.leb_le. vm_compute. reflexivity.
  - exists s', i'. split; [exact Hr|]. split; [exact Ho|exact Hi].
Defined.

(** C8: files are isolated from each other: writing to one of two open files
    with no sector in common does not change the contents of the other, even when
    the file that is written to grows; the file written to has the new contents, and
    the two files, as they are on the disk then, still have no sector in common.
    This is for writes for which malloc does not fail, the free sectors suffice and
    the file stays below 138 sectors; on a full disk the code writes to sector 0
    instead, see [write_on_full_disk]. *)
Theorem inode_write_isolated s pi fi p i bs q j cs buf off :
  let size := Z.of_nat (length buf) in
  let N' := Z.max (sectors bs) ((off + size + 511) `div` 512) in
  let bs' := overwrite bs (Z.to_nat off) buf in
  open_file s pi fi p i bs → open_file s pi fi q j cs → p ≠ q →
  (∀ k, file_owned s i bs k → ¬ file_owned s j cs k) →
  deny_write_cnt i = 0 → 0 ≤ off → Forall is_byte buf → N' < 138 →
  (Z.to_nat (needed (sectors bs) N') ≤ length (free_bits (free_map s)))%nat →
  ∃ s' i', inode_write_at p buf size off s = Ok (size, s') ∧
    open_file s' pi fi p i' bs' ∧ open_file s' pi fi q j cs ∧
    (∀ k, file_owned s' i' bs' k → ¬ file_owned s' j cs k).
Proof.
  intros size N' bs' Hf Hq Hpq Hdisj Hdeny Hoff Hbytes Hlim Hfree.
  assert (Hw : wp (inode_write_at p buf size off) s (λ r s', r = size ∧ ∃ i', written s s' pi fi p i bs i' bs')).
  { apply (wp_write_file 1 s pi fi p i bs Hf); [done|lia|lia|done|done|done|]. intros i' s' Hwr _.
    split; [done|]. exists i'. replace (piece buf 0 size) with buf in Hwr; [done|].
    unfold piece, size. by rewrite Nat2Z.id, take_ge by done. }
  apply wp_ok in Hw as (r & s' & Hr & -> & i' & Hwr). exists s', i'. split; [done|].
  split; [by destruct Hwr|by eapply written_other].
Qed.

Lemma ex_two_files :
  ∃ fi i j, inodes ex_two !! 52 = Some fi ∧ inodes ex_two !! 92 = Some i ∧ inodes ex_two !! 133 = Some j ∧
    open_file ex_two 52 fi 92 i (chars "first") ∧ open_file ex_two 52 fi 133 j ex_second ∧ deny_write_cnt i = 0 ∧
    ∀ k, file_owned ex_two i (chars "first") k → ¬ file_owned ex_two j ex_second k.
Proof.
  destruct (open_fileb_sound ex_two 52 92 (chars "first")) as (fi & i & Hfi & Hi & Hf); [vm_compute; reflexivity|].
  destruct (open_fileb_sound ex_two 52 133 ex_second) as (fi' & j & Hfi' & Hj & Hf'); [vm_compute; reflexivity|].
  assert (fi' = fi) as -> by congruence. exists fi, i, j.
  refine (conj Hfi (conj Hi (conj Hj (conj Hf (conj Hf' (conj _ _)))))).
  - assert (deny_write_cnt <$> inodes ex_two !! 92 = Some 0) as E by (vm_compute; reflexivity).
    rewrite Hi in E. injection E as E. exact E.
  - apply disjointb_sound.
    assert (match inodes ex_two !! 92, inodes ex_two !! 133 with
            | Some i, Some j => disjointb ex_two i (chars "first") j ex_second | _, _ => false end = true) as E by (vm_compute; reflexivity).
    rewrite Hi, Hj in E. exact E.
Qed.

Lemma inode_write_isolated_witness :
  ∃ fi i' j s', inode_write_at 92 [104; 105] 2 600 ex_two = Ok (2, s') ∧
    open_file s' 52 fi 92 i' (chars "first" ++ replicate 595 0 ++ [104; 105]) ∧ open_file s' 52 fi 133 j ex_second ∧
    ∀ k, file_owned s' i' (chars "first" ++ replicate 595 0 ++ [104; 105]) k → ¬ file_owned s' j ex_second k.
Proof.
  destruct ex_two_files as (fi & i & j & _ & _ & _ & Hf & Hq & Hd & Hdis).
  destruct (inode_write_isolated ex_two 52 fi 92 i (chars "first") 133 j ex_second [104; 105] 600 Hf Hq) as (s' & i' & Hr & Ho & Hoq & Hs).
  - discriminate.
  - exact Hdis.
  - exact Hd.
  - lia.
  - repeat constructor; lia.
  - vm_compute. reflexivity.
  - apply Nat.leb_le. vm_compute. reflexivity.
  - exists fi, i', j, s'. split; [exact Hr|]. split; [exact Ho|]. split; [exact Hoq|exact Hs].
Defined.

(** ** What goes wrong

    Each of these follows the code on a freshly formatted disk. *)
Definition result {A} (m : M fs A) (s : fs) : A + err :=
  match m s with Ok (a, _) => inl a | Err e => inr e end.

(** Writing 4096 bytes to a disk of 8 sectors: [inode_write_at] ignores that
    [sector_allocate] failed, reports success, and has written the data over
    sector 0, the inode of the free map. *)
Lemma write_on_full_disk :
  result (f ← ex_open 8 (chars "/a"); n ← file_write f (replicate 4096 7) 4096; bs ← fs_read 0;
          mret (n, bs)) (ex_boot 8) = inl (4096, replicate 512 7).
Proof. vm_compute. reflexivity. Qed.

(** The words of a new indirect block that [memset (buffer, 0, 128)] does not
    clear go to the disk as the stack holds them. *)
Lemma indirect_block_garbage :
  result (f ← ex_open 40 (chars "/a"); file_write f (replicate (11 * 512) 7) 5632 ;; fl ← get_file f;
          i ← get_inode (finode fl); ws ← fs_read_words (indirect_block (data i)); mret (drop 32 ws)) (ex_boot 40)
  = inl (replicate 96 3735928559).
Proof. vm_compute. reflexivity. Qed.

(** A file of 11 sectors that grows past 138: [sector_allocate] asks for more
    sectors than are left in the indirect block, and writes past its buffer. *)
Lemma indirect_block_overflow :
  result (f ← ex_open 200 (chars "/a"); file_write f (replicate (11 * 512) 7) 5632 ;; file_seek f 70656 ;;
          file_write f [1] 1) (ex_boot 200) = inr EFault.
Proof. vm_compute. reflexivity. Qed.

(** Creating a file with [k] sectors and removing it. *)
Definition create_remove (k : Z) : M fs bool :=
  f ← ex_open 0 (chars "/a"); file_seek f (512 * k - 1) ;; file_write f [1] 1 ;; file_close f ;;
  filesys_remove (chars "/a").

(** With 41 sectors this works.  With 42, [inode_close] goes on into the
    uncleared words of the indirect block and releases sectors that were never
    allocated, which is an assertion failure; with 138 it reads past its
    buffer. *)
Lemma remove_large_file :
  result (create_remove 41) (ex_boot 60) = inl true ∧ result (create_remove 42) (ex_boot 60) = inr EAssert ∧
  result (create_remove 138) (ex_boot 200) = inr EFault.
Proof. vm_compute. done. Qed.
