(* ===== verification/DirectoryProps.v ===== *)
(** * Properties of filesys/directory.c and filesys/filesys.c

    A directory is a map from names to inode sectors.  At the end, what the code
    does in cases that it does not handle. *)
From stdpp Require Import strings.
From S2P Require Import Prelude Bitmap BitmapFacts CStdio Block BlockFacts Inode InodeFacts InodeBody FreeMap InodeAlloc File Directory DirectoryFacts Filesys InodeCheck InodeProps.
Local Open Scope Z_scope.

(** ** Checking a concrete directory *)
Definition entry_okb (e : list Z) : bool :=
  (length e =? 20)%nat && forallb byteb e && (negb (e_in_use e) || bool_decide (is_Some (c_string (e_name e)))).
Lemma entry_okb_sound es : forallb entry_okb es = true → Forall entry_ok es.
Proof.
  rewrite forallb_forall. intros H. apply Forall_forall. intros e He%list_elem_of_In. specialize (H e He).
  unfold entry_okb in H. rewrite !andb_true_iff, orb_true_iff, negb_true_iff, Nat.eqb_eq, bool_decide_eq_true in H.
  destruct H as [[Hl Hb%byteb_sound] Hn]. split; [done..|]. intros Hu. destruct Hn; [congruence|done].
Qed.

Definition open_dirb (s : fs) (pi dir p : Z) (es : list (list Z)) : bool :=
  negb (dir =? 0) && match dirs s !! dir with Some d => dinode d =? p | None => false end &&
  match inodes s !! p with
  | Some i => isdir (data i) && (deny_write_cnt i =? 0) && negb (inode_lock i)
  | None => false
  end && forallb entry_okb es && open_fileb s pi p (mjoin es).
Lemma open_dirb_sound s pi dir p es :
  open_dirb s pi dir p es = true →
  ∃ fi i, inodes s !! p = Some i ∧ inode_lock i = false ∧ open_dir s pi fi dir p i es.
Proof.
  unfold open_dirb. rewrite !andb_true_iff, negb_true_iff, Z.eqb_neq. intros ((((Hd & Hdir) & Hi) & Hes) & Hf).
  apply open_fileb_sound in Hf as (fi & i & _ & Hp & Hf). rewrite Hp in Hi. exists fi, i.
  rewrite !andb_true_iff, negb_true_iff, Z.eqb_eq in Hi. destruct Hi as [[Hisdir Hdeny] Hl].
  split; [done|]. split; [done|]. split; [done| |done|done|done|by apply entry_okb_sound].
  destruct (dirs s !! dir) as [[q pos]|]; [|done]. apply Z.eqb_eq in Hdir. simpl in Hdir. subst q. by exists pos.
Qed.

(** The root directory of the example is open. *)
Definition ex_dir : fs := after (ex_open 40 (chars "/a") ;; dir_open_root) (ex_boot 40).
Definition ex_entries : list (list Z) :=
  match (i ← dir_get_inode 95; inode_read_at i 320 0) ex_dir with
  | Ok (bs, _) => (λ k, take 20 (drop (20 * k) bs)) <$> seq 0 16
  | Err _ => []
  end.
Lemma ex_root : ∃ fi i, inodes ex_dir !! 94 = Some i ∧ inode_lock i = false ∧ open_dir ex_dir 52 fi 95 94 i ex_entries.
Proof. apply open_dirb_sound. vm_compute. reflexivity. Qed.

(** ** Names *)

(** Looking a name up in an open directory gives the first entry in use with
    that name and its offset, or nothing when there is none, and changes
    nothing: the directory is searched to its end, entries that are not in use
    are passed over. *)
Theorem lookup_correct s pi fi dir p i es name :
  open_dir s pi fi dir p i es → valid_name name →
  ∃ s', Directory.lookup dir name s = Ok ('(k, e) ← dir_find es name; Some (e, 20 * Z.of_nat k), s') ∧
    open_dir s' pi fi dir p i es ∧ ∀ k, img s' k = img s k.
Proof.
  intros Hdir Hname.
  assert (Hw : wp (Directory.lookup dir name) s (λ r s', r = ('(k, e) ← dir_find es name; Some (e, 20 * Z.of_nat k)) ∧ quiet s s')).
  { eapply wp_lookup; [done..|]. intros s' Hq. done. }
  apply wp_ok in Hw as (r & s' & Hr & -> & Hq). exists s'. split; [done|].
  split; [by eapply open_dir_quiet|apply Hq].
Qed.

Lemma lookup_correct_witness : ∃ e s', Directory.lookup 95 (chars "a") ex_dir = Ok (Some (e, 40), s') ∧ e_inode_sector e = 4.
Proof.
  destruct ex_root as (fi & i & _ & _ & Hdir).
  assert (valid_name (chars "a")) as Hn by (repeat constructor).
  destruct (lookup_correct ex_dir 52 fi 95 94 i ex_entries (chars "a") Hdir Hn) as (s' & Hl & _ & _).
  assert (('(k, e) ← dir_find ex_entries (chars "a"); Some (e_inode_sector e, 20 * Z.of_nat k)) = Some (4, 40)) as E
    by (vm_compute; reflexivity).
  destruct (dir_find ex_entries (chars "a")) as [[k e]|]; [|discriminate E]. simpl in Hl, E. injection E as E1 E2.
  exists e, s'. split; [|exact E1]. rewrite Hl, E2. reflexivity.
Defined.

(** C9: adding a name to an open directory refines inserting into a map from
    names to sectors.  It succeeds when the name has 1 to 14 characters and is
    not in the directory; then the name is found with the sector given, every
    other name is found as before, and every other open file that shares no
    sector with the directory keeps its contents, even when the directory's file
    grows.  Otherwise it fails, and the disk and the directory are as they
    were.  This is for a directory whose lock is free and that has room: malloc does
    not fail, two sectors are free and the directory stays below 138 sectors
    ([dir_room]).  Without room the code does not fail as its comment says, since
    [inode_write_at] ignores that the disk is full, see [write_on_full_disk]. *)
Theorem dir_add_correct s pi fi dir p i es name sector :
  open_dir s pi fi dir p i es → inode_lock i = false → dir_room s es → valid_name name → is_word sector →
  ∃ success s' i' es', dir_add dir name sector s = Ok (success, s') ∧
    success = name_ok name && bool_decide (dir_sector es name = None) ∧
    open_dir s' pi fi dir p i' es' ∧ inode_lock i' = false ∧
    (∀ nm, dir_sector es' nm = if success && bool_decide (nm = name) then Some sector else dir_sector es nm) ∧
    others_kept s s' pi fi p i (mjoin es) ∧
    (success = false → i' = i ∧ es' = es ∧ ∀ k, img s' k = img s k).
Proof.
  intros Hdir Hlk Hroom Hname Hsec.
  assert (addable es name = name_ok name && bool_decide (dir_sector es name = None)) as Ha.
  { unfold addable, dir_sector. f_equal. apply bool_decide_ext. by destruct (dir_find es name) as [[? ?]|]. }
  rewrite <-Ha.
  assert (Hw : wp (dir_add dir name sector) s (λ r s', ∃ i' es', r = addable es name ∧ open_dir s' pi fi dir p i' es' ∧
    inode_lock i' = false ∧ (∀ nm, dir_sector es' nm = if r && bool_decide (nm = name) then Some sector else dir_sector es nm) ∧
    others_kept s s' pi fi p i (mjoin es) ∧ (r = false → i' = i ∧ es' = es ∧ ∀ k, img s' k = img s k))).
  { eapply wp_dir_add; [done..| |].
    - intros s' E Ho Hg Hk. exists i, es. by rewrite E.
    - intros s' i' es' E Ho Hl Hadd Hk. exists i', es'. rewrite E. split_and!; try done.
      intros nm. rewrite (Hadd nm). simpl. destruct (decide (nm = name)) as [->|Hne].
      + by rewrite bool_decide_eq_true_2.
      + by rewrite bool_decide_eq_false_2. }
  apply wp_ok in Hw as (r & s' & Hr & i' & es' & -> & H). exists (addable es name), s', i', es'. split; [exact Hr|]. split; [done|exact H].
Qed.

Lemma dir_add_correct_witness :
  ∃ s' es' fi i', dir_add 95 (chars "b") 7 ex_dir = Ok (true, s') ∧ open_dir s' 52 fi 95 94 i' es' ∧
    dir_sector es' (chars "b") = Some 7 ∧ dir_sector es' (chars "a") = Some 4.
Proof.
  destruct ex_root as (fi & i & _ & Hl & Hdir).
  destruct (dir_add_correct ex_dir 52 fi 95 94 i ex_entries (chars "b") 7 Hdir Hl)
    as (r & s' & i' & es' & Hr & Hok & Ho & _ & Hsec & _).
  - split; [vm_compute; discriminate|]. apply Nat.leb_le. vm_compute. reflexivity.
  - repeat constructor.
  - split; [lia|vm_compute; reflexivity].
  - assert (r = true) as -> by (rewrite Hok; vm_compute; reflexivity).
    exists s', es', fi, i'. split; [exact Hr|]. split; [exact Ho|]. rewrite !Hsec. split; vm_compute; reflexivity.
Defined.

(** ** What goes wrong *)

(** Creating a directory closes its inode once with the [struct dir] and once
    more: the second time it is freed memory. *)
Lemma create_directory_fault :
  result (filesys_init true ;; filesys_create (chars "/d") 0 true) (ex_boot 40) = inr EFault.
Proof. vm_compute. reflexivity. Qed.

(** With a slash at the end of a path, [get_name] still gives the last name, but
    [dir_path] cuts the path as if the name were its last characters. *)
Lemma trailing_slash :
  result (n ← get_name (chars "ab/"); d ← dir_path (chars "ab/") n; mret (n, d)) (ex_boot 40) = inl (chars "ab", chars "a").
Proof. vm_compute. reflexivity. Qed.
