(* ===== verification/LoaderProps.v ===== *)
(** * Properties of the loader *)
From stdpp Require Import strings.
From S2P Require Import Prelude Bitmap BitmapFacts Mem CString CStringFacts CStdio Vaddr Block Inode File Filesys InodeCheck Palloc PallocFacts Pagedir PagedirFacts PagedirProps Loader UserMem.
Local Open Scope Z_scope.

(** ** The image of the stack

    What [setup_stack] leaves on the stack for the arguments [argv], from the
    stack pointer to the end of user memory. *)
Definition strings (argv : list (list Z)) : list Z := mjoin ((λ s, s ++ [0]) <$> argv).
Fixpoint addresses (argv : list (list Z)) : list Z :=
  match argv with [] => [] | _ :: r => (PHYS_BASE - Z.of_nat (length (strings argv))) :: addresses r end.
Definition words (ws : list Z) : list Z := mjoin (word_bytes <$> ws).
Definition padding (argv : list (list Z)) : list Z :=
  replicate (Z.to_nat ((PHYS_BASE - Z.of_nat (length (strings argv))) `mod` 4)) 0.
Definition vector (argv : list (list Z)) : list Z := words (addresses argv ++ [0]) ++ padding argv ++ strings argv.
Definition argv_address (argv : list (list Z)) : Z := PHYS_BASE - Z.of_nat (length (vector argv)).
Definition stack_image (argv : list (list Z)) : list Z :=
  words [0; Z.of_nat (length argv); argv_address argv] ++ vector argv.

Lemma length_words ws : length (words ws) = (4 * length ws)%nat.
Proof. induction ws as [|w ws IH]; [done|]. unfold words in *. rewrite fmap_cons, mjoin_cons, length_app, IH. simpl. lia. Qed.
Lemma stack_words_ok ws : Forall is_byte (words ws).
Proof.
  induction ws as [|w ws IH]; [constructor|]. unfold words in *. rewrite fmap_cons, mjoin_cons, Forall_app. split; [|done].
  repeat constructor; by apply Z.mod_pos_bound.
Qed.
Lemma strings_ok argv : Forall (Forall is_char) argv → Forall is_byte (strings argv).
Proof.
  induction 1 as [|s argv Hs _ IH]; [constructor|]. unfold strings in *. rewrite fmap_cons, mjoin_cons, !Forall_app.
  split_and!; [|repeat constructor; lia|done]. eapply Forall_impl; [exact Hs|]. unfold is_char, is_byte. simpl. lia.
Qed.

(** ** Pushing *)
Section push.
Context (pd k : Z).
Implicit Types (s : proc) (c bs : list Z).

(** The stack page holds [c] at its end. *)
Record stacked (s0 s : proc) (c : list Z) : Prop := Stacked {
  st_same : s = set_machine (machine s) s0;
  st_page : user_page (machine s) pd (PHYS_BASE - 4096) k;
  st_room : Z.of_nat (length c) ≤ 4096;
  st_bytes : bytes_at (mram (machine s)) (k + 4096 - Z.of_nat (length c)) c }.

Lemma stacked_push s0 s c bs :
  stacked s0 s c → Z.of_nat (length bs) + Z.of_nat (length c) ≤ 4096 → Forall is_byte bs →
  stacked s0 (set_machine (with_bytes (machine s) (k + 4096 - Z.of_nat (length c) - Z.of_nat (length bs)) bs) s) (bs ++ c).
Proof.
  intros [Hs Hp Hr Hb] Hl Hbs. split.
  - rewrite Hs. done.
  - cbn [machine set_machine]. apply user_page_with; [done|lia|lia|done].
  - rewrite length_app. lia.
  - cbn [machine set_machine]. unfold with_bytes, mram at 1. cbn [frames ram]. intros i b Hi.
    rewrite length_app. destruct (decide (i < length bs)%nat) as [Hlt|Hge].
    + rewrite lookup_app_l in Hi by done. rewrite <-(lookup_write_in (mram (machine s)) (k + 4096 - Z.of_nat (length c) - Z.of_nat (length bs)) bs i b Hi).
      f_equal. lia.
    + rewrite lookup_app_r in Hi by lia. rewrite lookup_write_out by lia. rewrite <-(Hb _ _ Hi). f_equal. lia.
Qed.

Lemma wp_push_bytes s0 s c bs esp (Q : unit → proc → Prop) :
  stacked s0 s c → Z.of_nat (length bs) + Z.of_nat (length c) ≤ 4096 → Forall is_byte bs →
  esp = PHYS_BASE - Z.of_nat (length c) - Z.of_nat (length bs) →
  (∀ s', stacked s0 s' (bs ++ c) → Q tt s') → wp (on_mmu (user_write esp bs)) s Q.
Proof.
  intros Hst Hl Hbs -> HQ. pose proof (stacked_push _ _ _ _ Hst Hl Hbs) as Hst'. destruct Hst as [Hs Hp Hr Hb].
  unfold on_mmu. wp_step. eapply wp_user_write; [exact Hp|done|lia|lia|]. apply HQ.
  replace (k + (PHYS_BASE - Z.of_nat (length c) - Z.of_nat (length bs) - (PHYS_BASE - 4096)))
    with (k + 4096 - Z.of_nat (length c) - Z.of_nat (length bs)) by lia. exact Hst'.
Qed.

Lemma wp_push_byte s0 s c b esp (Q : unit → proc → Prop) :
  stacked s0 s c → 1 + Z.of_nat (length c) ≤ 4096 → is_byte b → esp = PHYS_BASE - Z.of_nat (length c) - 1 →
  (∀ s', stacked s0 s' (b :: c) → Q tt s') → wp (on_mmu (user_store esp b)) s Q.
Proof.
  intros Hst Hl Hb -> HQ. assert (Forall is_byte [b]) as Hbs by (constructor; [done|constructor]).
  pose proof (stacked_push _ _ _ [b] Hst Hl Hbs) as Hst'. destruct Hst as [Hs Hp Hr Hby].
  unfold on_mmu. wp_step. eapply wp_user_store; [exact Hp|lia|]. apply HQ.
  replace (k + (PHYS_BASE - Z.of_nat (length c) - 1 - (PHYS_BASE - 4096))) with (k + 4096 - Z.of_nat (length c) - Z.of_nat (length [b])) by (simpl; lia).
  exact Hst'.
Qed.

Lemma wp_push_strings argv s0 s (Q : list Z * Z → proc → Prop) :
  stacked s0 s [] → Forall (Forall is_char) argv → Z.of_nat (length (strings argv)) ≤ 4096 →
  (∀ s', stacked s0 s' (strings argv) → Q (addresses argv, PHYS_BASE - Z.of_nat (length (strings argv))) s') →
  wp (push_strings argv PHYS_BASE) s Q.
Proof.
  intros Hst Hc. revert Q. induction Hc as [|a argv Ha Hc IH]; intros Q Hl HQ; cbn [push_strings].
  - wp_steps. specialize (HQ s Hst). unfold strings in HQ. simpl in HQ. by rewrite Z.sub_0_r in HQ.
  - assert (strings (a :: argv) = (a ++ [0]) ++ strings argv) as E by (unfold strings; by rewrite fmap_cons, mjoin_cons).
    assert (Z.of_nat (length (strings (a :: argv))) = Z.of_nat (length a) + 1 + Z.of_nat (length (strings argv))) as El
      by (rewrite E, !length_app; simpl; lia).
    wp_step. apply IH; [lia|]. intros s' Hs'. wp_step. rewrite u32_small by (unfold PHYS_BASE; lia).
    eapply (wp_push_bytes s0 _ (strings argv)); [exact Hs'|rewrite length_app; simpl; lia| |rewrite length_app; simpl; lia|].
    { apply Forall_app. split; [|repeat constructor; lia]. eapply Forall_impl; [exact Ha|]. unfold is_char, is_byte. simpl. lia. }
    intros s'' Hs''. wp_steps. rewrite <-E in Hs''. specialize (HQ s'' Hs''). cbn [addresses] in HQ.
    by replace (PHYS_BASE - Z.of_nat (length (strings argv)) - (Z.of_nat (length a) + 1))
      with (PHYS_BASE - Z.of_nat (length (strings (a :: argv)))) by lia.
Qed.

Lemma wp_align s0 s c (Q : Z → proc → Prop) :
  stacked s0 s c → Z.of_nat (length c) + 3 ≤ 4096 →
  let esp := PHYS_BASE - Z.of_nat (length c) in
  (∀ s', stacked s0 s' (replicate (Z.to_nat (esp `mod` 4)) 0 ++ c) → Q (esp - esp `mod` 4) s') →
  wp (word_align esp) s Q.
Proof.
  intros Hst Hl esp HQ. unfold word_align.
  assert (Hmod : 0 ≤ esp `mod` 4 < 4) by (apply Z.mod_pos_bound; lia).
  apply (wp_loop (λ (g : nat) e s', Z.of_nat g ≤ esp `mod` 4 ∧ e = esp - (esp `mod` 4 - Z.of_nat g) ∧
      stacked s0 s' (replicate (Z.to_nat (esp `mod` 4 - Z.of_nat g)) 0 ++ c)) (λ g, g)) with (g := Z.to_nat (esp `mod` 4)).
  2: { rewrite Z2Nat.id by lia. rewrite Z.sub_diag, Z.sub_0_r. done. } 2: lia.
  intros g e s' (Hg & -> & Hs').
  assert (Z.land (esp - (esp `mod` 4 - Z.of_nat g)) 3 = Z.of_nat g) as ->.
  { change 3 with (Z.ones 2). rewrite Z.land_ones by lia. change (2 ^ 2) with 4.
    replace (esp - (esp `mod` 4 - Z.of_nat g)) with (Z.of_nat g + (esp `div` 4) * 4)
      by (pose proof (Z.div_mod esp 4 ltac:(lia)); lia).
    rewrite Z_mod_plus_full. apply Z.mod_small. lia. }
  destruct (Z.eqb_spec (Z.of_nat g) 0) as [Hz|Hnz]; cbn [negb].
  - wp_steps. rewrite Hz, Z.sub_0_r in Hs' |- *. by apply HQ.
  - set (n := Z.to_nat (esp `mod` 4 - Z.of_nat g)) in *.
    assert (esp - (esp `mod` 4 - Z.of_nat g) = PHYS_BASE - Z.of_nat (length (replicate n 0 ++ c))) as Ee
      by (rewrite length_app, length_replicate; unfold n, esp in *; lia).
    rewrite Ee. rewrite u32_small by (rewrite length_app, length_replicate; unfold PHYS_BASE, n; lia). wp_step.
    eapply (wp_push_byte s0 s' (replicate n 0 ++ c)); [done|rewrite length_app, length_replicate; unfold n; lia|unfold is_byte; lia|done|].
    intros s'' Hs''. wp_steps. exists (g - 1)%nat. split; [|lia]. split_and!; [lia|rewrite <-Ee; lia|].
    replace (Z.to_nat (esp `mod` 4 - Z.of_nat (g - 1))) with (S n) by (unfold n; lia). exact Hs''.
Qed.

Lemma wp_push_words ws s0 s c (Q : Z → proc → Prop) :
  stacked s0 s c → Z.of_nat (4 * length ws) + Z.of_nat (length c) ≤ 4096 →
  (∀ s', stacked s0 s' (words ws ++ c) → Q (PHYS_BASE - Z.of_nat (length c) - Z.of_nat (4 * length ws)) s') →
  wp (push_words ws (PHYS_BASE - Z.of_nat (length c))) s Q.
Proof.
  intros Hst. revert Q. induction ws as [|w ws IH]; intros Q Hl HQ; cbn [push_words].
  - wp_steps. specialize (HQ s Hst). by rewrite Z.sub_0_r in HQ.
  - cbn [length] in *. wp_step. apply IH; [lia|]. intros s' Hs'. wp_step. rewrite u32_small by (unfold PHYS_BASE; lia).
    eapply (wp_push_bytes s0 s' (words ws ++ c)); [exact Hs'| | | |].
    + rewrite length_app, length_words. simpl. lia.
    + repeat constructor; by apply Z.mod_pos_bound.
    + rewrite length_app, length_words. simpl. lia.
    + intros s'' Hs''. wp_steps. rewrite app_assoc in Hs''. specialize (HQ s'' Hs'').
      by replace (PHYS_BASE - Z.of_nat (length c) - Z.of_nat (4 * length ws) - 4)
        with (PHYS_BASE - Z.of_nat (length c) - Z.of_nat (4 * S (length ws))) by lia.
Qed.

(** Everything that is pushed. *)
Definition push_all (argv : list (list Z)) : M proc (option Z) :=
  '(argv_addr, esp) ← push_strings argv PHYS_BASE;
  esp ← word_align esp;
  esp ← push_words (argv_addr ++ [0]) esp;
  let argv_esp := esp in
  esp ← push_words [argv_esp] esp;
  esp ← push_words [Z.of_nat (length argv)] esp;
  esp ← push_words [0] esp;
  mret (Some esp).

Lemma length_addresses argv : length (addresses argv) = length argv.
Proof. induction argv as [|a argv IH]; [done|]. simpl. by rewrite IH. Qed.

Lemma wp_push_all argv s0 s (Q : option Z → proc → Prop) :
  stacked s0 s [] → Forall (Forall is_char) argv → Z.of_nat (length (stack_image argv)) ≤ 4096 →
  (∀ s', stacked s0 s' (stack_image argv) → Q (Some (PHYS_BASE - Z.of_nat (length (stack_image argv)))) s') →
  wp (push_all argv) s Q.
Proof.
  intros Hst Hc Hl HQ. set (esp0 := PHYS_BASE - Z.of_nat (length (strings argv))).
  assert (He0 : esp0 = PHYS_BASE - Z.of_nat (length (strings argv))) by done.
  assert (Hmod : 0 ≤ esp0 `mod` 4 < 4) by (apply Z.mod_pos_bound; lia).
  assert (Hpad : length (padding argv) = Z.to_nat (esp0 `mod` 4)) by (unfold padding; by rewrite length_replicate).
  assert (Hvec : length (vector argv) = (4 * (length argv + 1) + Z.to_nat (esp0 `mod` 4) + length (strings argv))%nat).
  { unfold vector. rewrite !length_app, length_words, length_app, length_addresses, Hpad. simpl. lia. }
  assert (Himg : length (stack_image argv) = (12 + length (vector argv))%nat).
  { unfold stack_image. rewrite length_app, length_words. simpl. lia. }
  unfold push_all. wp_step. eapply wp_push_strings; [exact Hst|done|lia|]. intros s1 H1. cbn iota. wp_step.
  eapply wp_align; [exact H1|lia|]. intros s2 H2. fold esp0 in H2 |- *. fold (padding argv) in H2. wp_step.
  replace (esp0 - esp0 `mod` 4) with (PHYS_BASE - Z.of_nat (length (padding argv ++ strings argv)))
    by (rewrite length_app, Hpad; lia).
  eapply wp_push_words; [exact H2|rewrite !length_app, length_addresses, Hpad; simpl; lia|]. intros s3 H3. fold (vector argv) in H3.
  replace (PHYS_BASE - Z.of_nat (length (padding argv ++ strings argv)) - Z.of_nat (4 * length (addresses argv ++ [0])))
    with (PHYS_BASE - Z.of_nat (length (vector argv))) by (rewrite Hvec, !length_app, length_addresses, Hpad; simpl; lia).
  fold (argv_address argv). wp_step. unfold argv_address at 2. eapply wp_push_words; [exact H3|simpl; lia|]. intros s4 H4.
  wp_step. replace (PHYS_BASE - Z.of_nat (length (vector argv)) - Z.of_nat (4 * length [argv_address argv]))
    with (PHYS_BASE - Z.of_nat (length (words [argv_address argv] ++ vector argv))) by (rewrite length_app, length_words; simpl; lia).
  eapply wp_push_words; [exact H4|rewrite length_app, length_words; simpl; lia|]. intros s5 H5. wp_step.
  set (c5 := words [Z.of_nat (length argv)] ++ words [argv_address argv] ++ vector argv) in *.
  replace (PHYS_BASE - Z.of_nat (length (words [argv_address argv] ++ vector argv)) - Z.of_nat (4 * length [Z.of_nat (length argv)]))
    with (PHYS_BASE - Z.of_nat (length c5)) by (unfold c5; rewrite !length_app, !length_words; simpl; lia).
  eapply wp_push_words; [exact H5|unfold c5; rewrite !length_app, !length_words; simpl; lia|]. intros s6 H6. wp_steps.
  replace (PHYS_BASE - Z.of_nat (length c5) - Z.of_nat (4 * length [0])) with (PHYS_BASE - Z.of_nat (length (stack_image argv)))
    by (unfold c5; rewrite Himg, !length_app, !length_words; simpl; lia).
  apply HQ. exact H6.
Qed.
End push.

(** ** The first stack page *)

(** The frames of the user pool are memory that the machine has. *)
Definition ram_ok (init_ram_pages : Z) (P : pal) : Prop :=
  ∀ k, in_pool UPool P k → (k - PHYS_BASE) `div` 4096 < init_ram_pages.

(** All pages of a pool are in use. *)
Definition exhausted (w : pool_id) (P : pal) : Prop := ∀ p, in_pool w P p → used w P p.

Lemma no_page w P : no_group (used_map (get_pool w P)) 0 1 false → exhausted w P.
Proof.
  intros Hno p Hin. pose proof Hin as (i & Hi & ->). split; [done|].
  replace ((base (get_pool w P) + 4096 * i - base (get_pool w P)) `div` 4096) with i by (apply (Z.div_unique _ _ i 0); lia).
  destruct (bit (used_map (get_pool w P)) i) eqn:Eb; [done|]. destruct (Hno i ltac:(lia) ltac:(lia)).
  intros j Hj. by replace j with i by lia.
Qed.

Section setup.
Context (init_page_dir init_ram_pages : Z).
Implicit Types (s : proc).

(** The process runs on a page directory of its own. *)
Record running s : Prop := Running {
  ru_loaded : loaded (machine s) (pagedir s);
  ru_own : pagedir s ≠ init_page_dir;
  ru_ram : ram_ok init_ram_pages (frames (machine s)) }.

(** [install_page] for a page that the process does not have yet. *)
Lemma wp_install_page s upage k (w : bool) :
  running s → user_addr upage → upage `mod` 4096 = 0 → used UPool (frames (machine s)) k →
  present (pte_val (machine s) (pagedir s) upage) = false →
  wp (install_page init_page_dir init_ram_pages upage k w) s (λ r s',
    s' = set_machine (machine s') s ∧
    ((r = false ∧ machine s' = machine s ∧ no_group (used_map (kernel_pool (frames (machine s)))) 0 1 false) ∨
     (r = true ∧ pd_ok (machine s') (pagedir s) ∧ kept (machine s) (machine s') ∧
      ∀ va, user_addr va → pte_val (machine s') (pagedir s) va =
        if va `div` 4096 =? upage `div` 4096 then k - PHYS_BASE + (if w then 7 else 5)
        else pte_val (machine s) (pagedir s) va))).
Proof.
  intros [[Hok Hcr] Hown Hram] Hu Hal Hk Hnp.
  destruct (used_range_addr _ _ _ (pk_pal _ _ Hok) Hk) as (Hka & Hlo & Hhi & _).
  unfold install_page. wp_step. wp_step. wp_step. unfold on_mmu at 1. wp_step. apply wp_pagedir_get_page; [done|done|].
  unfold translate. rewrite Hnp, Z.eqb_refl. unfold on_mmu at 1. wp_step.
  eapply wp_mono; [apply wp_pagedir_set_page; try done; [unfold PHYS_BASE in *; lia|by apply Hram, Hk]|].
  intros r m' [(-> & -> & Hno)|(-> & Hok' & Hval & Hkept)]; (split; [done|]); [left|right]; done.
Qed.

Lemma stacked_read pd k s0 s c l bs l' :
  stacked pd k s0 s c → c = l ++ bs ++ l' →
  user_read (length bs) (PHYS_BASE - Z.of_nat (length c) + Z.of_nat (length l)) (machine s) = Ok (bs, machine s).
Proof.
  intros [_ Hp Hr Hb] ->. apply wp_det_ok. rewrite !length_app in *.
  eapply wp_user_read; [exact Hp|lia|lia|]. split; [|done].
  apply list_eq. intros i. destruct (bs !! i) as [b|] eqn:Ei.
  - pose proof (lookup_lt_Some _ _ _ Ei) as Hlt. rewrite list_lookup_fmap, lookup_seq_lt by done. cbn [fmap option_fmap option_map].
    f_equal. unfold byte_of. specialize (Hb (length l + i)%nat b).
    replace (k + (PHYS_BASE - Z.of_nat (length l + (length bs + length l')) + Z.of_nat (length l) - (PHYS_BASE - 4096)) + Z.of_nat (0 + i))
      with (k + 4096 - Z.of_nat (length l + (length bs + length l')) + Z.of_nat (length l + i)) by lia.
    rewrite Hb; [done|]. rewrite lookup_app_r by lia. rewrite lookup_app_l by lia. rewrite <-Ei. f_equal. lia.
  - apply lookup_ge_None in Ei. rewrite list_lookup_fmap, lookup_seq_ge by lia. done.
Qed.

(** The words of the image: the return address, the two arguments of [main] and
    the vector, whose elements are the addresses of the strings. *)
Lemma words_cons w ws : words (w :: ws) = word_bytes w ++ words ws.
Proof. unfold words. by rewrite fmap_cons, mjoin_cons. Qed.
Lemma words_app ws ws' : words (ws ++ ws') = words ws ++ words ws'.
Proof. unfold words. by rewrite fmap_app, join_app. Qed.

Lemma addresses_string argv i a :
  argv !! i = Some a →
  ∃ p l l', addresses argv !! i = Some p ∧ strings argv = l ++ (a ++ [0]) ++ l' ∧
    p = PHYS_BASE - Z.of_nat (length (strings argv)) + Z.of_nat (length l).
Proof.
  revert i. induction argv as [|b argv IH]; intros i Hi; [done|].
  assert (strings (b :: argv) = (b ++ [0]) ++ strings argv) as E by (unfold strings; by rewrite fmap_cons, mjoin_cons).
  destruct i as [|i]; simpl in Hi.
  - simplify_eq. exists (PHYS_BASE - Z.of_nat (length (strings (a :: argv)))), [], (strings argv).
    split_and!; [done|done|simpl; lia].
  - destruct (IH i Hi) as (p & l & l' & Hp & Hs & ->). exists (PHYS_BASE - Z.of_nat (length (strings argv)) + Z.of_nat (length l)), ((b ++ [0]) ++ l), l'.
    split_and!; [done|rewrite E, Hs, <-!app_assoc; done|]. rewrite E, !length_app. lia.
Qed.

Lemma image_length argv :
  length (stack_image argv) = (12 + length (vector argv))%nat ∧ Z.of_nat (length (stack_image argv)) `mod` 4 = 0.
Proof.
  assert (length (stack_image argv) = (12 + length (vector argv))%nat) as E
    by (unfold stack_image; rewrite length_app, length_words; simpl; lia).
  split; [done|]. rewrite E. unfold vector, padding. rewrite !length_app, length_words, length_app, length_addresses, length_replicate.
  set (n := Z.of_nat (length (strings argv))). unfold PHYS_BASE.
  pose proof (Z.mod_pos_bound (3221225472 - n) 4 ltac:(lia)). pose proof (Z.div_mod (3221225472 - n) 4 ltac:(lia)) as Hd.
  apply Z.mod_divide; [lia|].
  exists (3 + Z.of_nat (length argv) + 1 + 805306368 - (3221225472 - n) `div` 4). simpl length. unfold n in *. lia.
Qed.

Lemma wp_setup_stack s argv :
  running s → present (pte_val (machine s) (pagedir s) (PHYS_BASE - 4096)) = false →
  Forall (Forall is_char) argv → Z.of_nat (length (stack_image argv)) ≤ 4096 →
  wp (setup_stack init_page_dir init_ram_pages argv) s (λ r s',
    s' = set_machine (machine s') s ∧ pd_ok (machine s') (pagedir s) ∧
    match r with
    | None => ∃ w, exhausted w (frames (machine s))
    | Some esp => esp = PHYS_BASE - Z.of_nat (length (stack_image argv)) ∧ ∃ k, stacked (pagedir s) k s s' (stack_image argv)
    end).
Proof.
  intros Hrun Hnp Hc Hl. pose proof Hrun as [[Hok Hcr] Hown Hram].
  unfold setup_stack. wp_step. unfold on_mmu at 1. wp_step.
  eapply wp_mono; [by apply (wp_get_user_page (machine s) (pagedir s))|]. cbn beta.
  intros k m [(-> & -> & Hno)|(Hk & Hnk & Hok1 & Hcr1 & Hk0 & Hlay & Hr & Hused & Hpte)].
  { rewrite Z.eqb_refl. wp_steps. split_and!; [by destruct s|done|]. exists UPool. by apply no_page. }
  rewrite (proj2 (Z.eqb_neq k 0) Hk0). wp_step.
  assert (Hrun1 : running (set_machine m s)).
  { split; [split; [done|cbn [machine set_machine pagedir]; by rewrite Hcr1]|done|]. intros p Hp. apply Hram.
    by apply (in_pool_layout _ _ _ _ Hlay). }
  eapply wp_mono; [apply (wp_install_page (set_machine m s)); [done|by split|done|done|]|].
  { cbn [machine set_machine pagedir]. by rewrite Hpte. }
  cbn beta. cbn [machine set_machine pagedir].
  intros r s2 [Es2 [(-> & Hm & Hno)|(-> & Hok2 & (K1 & K2 & K3) & Hpte2)]].
  - wp_step. rewrite Hm in Es2. rewrite Es2. unfold on_mmu at 1. wp_step.
    apply (wp_put_user_page _ (pagedir s)); [done|done|]. intros m3 Hok3 _. wp_steps. split_and!; [done|done|].
    exists KPool. intros p Hp. apply (no_page KPool) in Hno. destruct (proj1 (Hused KPool p)) as [?|[? ?]]; [|done|done].
    by apply Hno, (in_pool_layout _ _ _ _ Hlay).
  - fold (push_all argv). rewrite Es2.
    eapply (wp_push_all (pagedir s) k argv s); [|done|done|].
    + split; [done| |simpl; lia|by intros i b].
      cbn [machine set_machine]. split; [split; [done|by rewrite K1, Hcr1]|done|unfold PHYS_BASE; lia|by apply K2|].
      intros va Hva. rewrite Hpte2 by (unfold user_addr, PHYS_BASE in *; lia).
      replace (va `div` 4096) with ((PHYS_BASE - PGSIZE) `div` 4096); [by rewrite Z.eqb_refl|].
      change ((PHYS_BASE - PGSIZE) `div` 4096) with 786431. apply (Z.div_unique _ _ _ (va - (PHYS_BASE - 4096))); unfold PHYS_BASE in *; lia.
    + intros s' Hst. split_and!; [by apply (st_same _ _ _ _ _ Hst)|by apply (st_page _ _ _ _ _ Hst)|done|by exists k].
Qed.

(** C12: for arguments that fit into one page together with the vector of their
    addresses (at most 4096 bytes in all), setup_stack gives the process a stack, or
    reports that a pool has no page left. (It does not check that they fit, see
    [arguments_overflow]; the process runs on a page directory of its own that has
    nothing at the stack page yet, and the frames of the user pool are memory that
    the machine has.) When it succeeds, what the process finds from its stack pointer on, which
    is a multiple of four, is what main expects: a return address of zero, the
    number of arguments, the address of the vector behind them, the vector of the
    addresses of the arguments with a null pointer at its end, and at each of these
    addresses the characters of the argument with a terminating zero. *)
Theorem setup_stack_correct s argv :
  running s → present (pte_val (machine s) (pagedir s) (PHYS_BASE - 4096)) = false →
  Forall (Forall is_char) argv → Z.of_nat (length (stack_image argv)) ≤ 4096 →
  ∃ r s', setup_stack init_page_dir init_ram_pages argv s = Ok (r, s') ∧
    s' = set_machine (machine s') s ∧ pd_ok (machine s') (pagedir s) ∧
    match r with
    | None => ∃ w, exhausted w (frames (machine s))
    | Some esp =>
        let reads n va bs := user_read n va (machine s') = Ok (bs, machine s') in
        esp `mod` 4 = 0 ∧ PHYS_BASE - 4096 ≤ esp < PHYS_BASE ∧
        reads 4%nat esp (word_bytes 0) ∧
        reads 4%nat (esp + 4) (word_bytes (Z.of_nat (length argv))) ∧
        reads 4%nat (esp + 8) (word_bytes (esp + 12)) ∧
        reads 4%nat (esp + 12 + 4 * Z.of_nat (length argv)) (word_bytes 0) ∧
        ∀ i a, argv !! i = Some a → ∃ p,
          reads 4%nat (esp + 12 + 4 * Z.of_nat i) (word_bytes p) ∧ reads (S (length a)) p (a ++ [0])
    end.
Proof.
  intros Hrun Hnp Hc Hl. pose proof (wp_setup_stack s argv Hrun Hnp Hc Hl) as Hwp.
  apply wp_ok in Hwp as (r & s' & E & Hs' & Hpd & Hr). exists r, s'. split_and!; [done..|].
  destruct r as [esp|]; [|done]. destruct Hr as [-> (k & Hst)]. destruct (image_length argv) as [Hil Him].
  set (n := Z.of_nat (length (stack_image argv))) in *.
  pose proof (λ l bs l', stacked_read _ _ _ _ _ l bs l' Hst) as Hread. fold n in Hread.
  assert (Hw : ∀ ws w ws' l, stack_image argv = words (ws ++ w :: ws') ++ l →
    user_read 4 (PHYS_BASE - n + 4 * Z.of_nat (length ws)) (machine s') = Ok (word_bytes w, machine s')).
  { intros ws w ws' l E'. rewrite words_app in E'.
    specialize (Hread (words ws) (word_bytes w) (words ws' ++ l)). rewrite length_words in Hread.
    replace (4 * Z.of_nat (length ws)) with (Z.of_nat (4 * length ws)) by lia. apply Hread. by rewrite E', words_cons, <-!app_assoc. }
  assert (Himg : stack_image argv = words ([0; Z.of_nat (length argv); argv_address argv] ++ addresses argv ++ [0]) ++ padding argv ++ strings argv)
    by (unfold stack_image, vector; rewrite (words_app [_; _; _]), <-app_assoc; done).
  cbn zeta. unfold PHYS_BASE in *. split_and!; [|lia|lia| | | | |].
  - rewrite Zminus_mod, Him. done.
  - rewrite <-(Z.add_0_r (3221225472 - n)). by apply (Hw [] _ _ _ Himg).
  - by apply (Hw [0] _ _ _ Himg).
  - replace (3221225472 - n + 12) with (argv_address argv) by (unfold argv_address, n, PHYS_BASE; lia).
    by apply (Hw [0; Z.of_nat (length argv)] _ _ _ Himg).
  - rewrite (app_assoc [_; _; _]) in Himg. pose proof (Hw _ _ _ _ Himg) as H0. rewrite length_app, length_addresses in H0. simpl length in H0.
    rewrite <-H0. f_equal. lia.
  - intros i a Hi. destruct (addresses_string argv i a Hi) as (p & l & l' & Hp & Hs & Ep). exists p.
    assert (Hlen : (i < length (addresses argv))%nat) by (eapply lookup_lt_Some; exact Hp).
    rewrite <-(take_drop_middle (addresses argv) i p Hp), <-(app_assoc (take i _)), (app_assoc [_; _; _]) in Himg.
    pose proof (Hw _ _ _ _ Himg) as Hpi. rewrite length_app, length_take in Hpi. split; [rewrite <-Hpi; simpl length; f_equal; lia|].
    assert (Hsuf : ∃ l0, stack_image argv = l0 ++ strings argv).
    { eexists. unfold stack_image, vector. rewrite !app_assoc. reflexivity. }
    destruct Hsuf as (l0 & El0). specialize (Hread (l0 ++ l) (a ++ [0]) l').
    assert (length (stack_image argv) = (length l0 + length (strings argv))%nat) as Eln by (by rewrite El0, length_app).
    rewrite !length_app in Hread. simpl length in Hread. rewrite Nat.add_1_r in Hread.
    replace p with (3221225472 - n + Z.of_nat (length l0 + length l)) by (rewrite Ep; unfold n, PHYS_BASE; lia).
    apply Hread. rewrite El0, Hs, <-!app_assoc. done.
Qed.
End setup.

(** ** Segments *)

(** The conditions that the comments of [validate_segment] list: the segment has the
    same offset in a page of the file as in a page of memory; its offset points into
    the file or at its end, whatever its length there ([load_segment] finds out if
    the file is too short); it is not empty, not shorter in memory than in the file,
    and its memory lies above the first page and ends below the kernel. *)
Definition segment_ok (len : Z) (phdr : Elf32_Phdr) : Prop :=
  p_offset phdr `mod` 4096 = p_vaddr phdr `mod` 4096 ∧ p_offset phdr ≤ len ∧ p_filesz phdr ≤ p_memsz phdr ∧
  0 < p_memsz phdr ∧ 4096 ≤ p_vaddr phdr ∧ p_vaddr phdr + p_memsz phdr < PHYS_BASE.
Record words_ok (phdr : Elf32_Phdr) : Prop := WordsOk {
  wo_offset : is_word (p_offset phdr); wo_vaddr : is_word (p_vaddr phdr);
  wo_filesz : is_word (p_filesz phdr); wo_memsz : is_word (p_memsz phdr) }.

#[export] Instance segment_ok_dec len phdr : Decision (segment_ok len phdr).
Proof. unfold segment_ok. apply _. Defined.

(** C34: validate_segment accepts exactly the segments that satisfy its conditions,
    read as conditions on numbers of any size: equal offsets in a page, an offset not
    beyond the end of the file, p_filesz at most p_memsz, p_memsz not zero, the first
    address not in page 0 and the end p_vaddr + p_memsz below the kernel. So a segment
    that wraps around the end of the 32-bit address space is refused. That the bytes
    of the segment lie in the file is not among the conditions. *)
Theorem validate_segment_correct s file len phdr :
  words_ok phdr → file_length file (fsys s) = Ok (len, fsys s) → 0 ≤ len < 2 ^ 31 →
  validate_segment phdr file s = Ok (bool_decide (segment_ok len phdr), s).
Proof.
  intros [Ho Hv Hf Hm] Hlen Hl. unfold is_word in *. apply wp_det_ok. unfold validate_segment.
  change PGMASK with (Z.ones 12). rewrite !Z.land_ones by lia. change (2 ^ 12) with 4096.
  destruct (Z.eqb_spec (p_offset phdr `mod` 4096) (p_vaddr phdr `mod` 4096)) as [Eo|Eo]; cbn [negb].
  2:{ wp_steps. split; [|done]. rewrite bool_decide_eq_false_2; [done|]. by intros []. }
  wp_step. unfold on_fs. wp_step. apply wp_ok. exists len, (fsys s). split; [done|].
  rewrite u32_small by lia. replace (set_fsys (fsys s) s) with s by (by destruct s).
  unfold is_user_vaddr.
  assert (Hu : u32 (p_vaddr phdr + p_memsz phdr) = p_vaddr phdr + p_memsz phdr ∨
    u32 (p_vaddr phdr + p_memsz phdr) = p_vaddr phdr + p_memsz phdr - 2 ^ 32 ∧ 2 ^ 32 ≤ p_vaddr phdr + p_memsz phdr).
  { unfold u32. destruct (decide (p_vaddr phdr + p_memsz phdr < 2 ^ 32)); [left; apply Z.mod_small; lia|right; split; [|lia]].
    symmetry. apply (Z.mod_unique _ _ 1); lia. }
  unfold segment_ok. change PGSIZE with 4096. unfold PHYS_BASE.
  repeat (match goal with |- context [if negb ?b then _ else _] => destruct b eqn:?
    | |- context [if ?b then _ else _] => destruct b eqn:? end; cbn [negb]);
    repeat match goal with
    | H : (_ <? _) = true |- _ => apply Z.ltb_lt in H | H : (_ <? _) = false |- _ => apply Z.ltb_ge in H
    | H : (_ =? _) = true |- _ => apply Z.eqb_eq in H | H : (_ =? _) = false |- _ => apply Z.eqb_neq in H end;
    wp_step; (split; [|done]); symmetry; first [apply bool_decide_eq_true_2; lia | apply bool_decide_eq_false_2; lia].
Qed.

(** ** Witnesses *)

(** A process with an empty page directory. *)
Definition ex_proc : proc := Proc ex_fs ex_mmu ex_pd 0 [] 2 0 (chars "echo") [].

Lemma ex_running : running 1 1000 ex_proc.
Proof.
  split; [split; [apply ex_pd_ok|reflexivity]|discriminate|].
  intros k (i & Hi & ->). cbn in *. unfold PHYS_BASE. replace i with 0 by lia. reflexivity.
Qed.

Definition ex_argv : list (list Z) := [chars "echo"; chars "x"].

Lemma setup_stack_correct_witness :
  ∃ s', setup_stack 1 1000 ex_argv ex_proc = Ok (Some (PHYS_BASE - 32), s') ∧
    user_read 4 (PHYS_BASE - 28) (machine s') = Ok ([2; 0; 0; 0], machine s') ∧
    ∃ p, user_read 2 p (machine s') = Ok ([120; 0], machine s').
Proof.
  assert (Ht : match setup_stack 1 1000 ex_argv ex_proc with Ok (Some e, _) => e | _ => 0 end = PHYS_BASE - 32) by (vm_compute; reflexivity).
  destruct (setup_stack_correct 1 1000 ex_proc ex_argv) as (r & s' & E & _ & _ & Hr).
  - exact ex_running.
  - unfold pte_val. replace (pde_of (machine ex_proc) (pagedir ex_proc) ((PHYS_BASE - 4096) `div` 4194304)) with 0; [reflexivity|].
    symmetry. unfold pde_of, mram, ex_mmu. cbn [frames ram machine ex_proc ex_mmu]. apply word_zeros; vm_compute; discriminate.
  - repeat constructor; vm_compute; try discriminate.
  - vm_compute. discriminate.
  - rewrite E in Ht. destruct r as [esp|]; [|discriminate Ht]. exists s'. rewrite Ht in E, Hr. split; [exact E|].
    destruct Hr as (_ & _ & _ & Hc & _ & _ & Ha). split; [exact Hc|].
    destruct (Ha 1%nat (chars "x") eq_refl) as (p & _ & Hp). exists p. exact Hp.
Defined.

Lemma validate_segment_correct_witness :
  validate_segment (Phdr PT_LOAD 0 0x8048000 0 4096 5) 93 ex_proc = Ok (true, ex_proc) ∧
  validate_segment (Phdr PT_LOAD 0 0x8048000 0 0xf8000000 5) 93 ex_proc = Ok (false, ex_proc).
Proof.
  assert (∀ v m, is_word v → is_word m → words_ok (Phdr PT_LOAD 0 v 0 m 5)) as Hw by (intros v m; by split).
  assert (0 ≤ 0 < 2 ^ 31) as H0 by lia.
  pose proof (Hw 0x8048000 4096 ltac:(by split) ltac:(by split)) as H1.
  pose proof (Hw 0x8048000 0xf8000000 ltac:(by split) ltac:(by split)) as H2.
  assert (file_length 93 (fsys ex_proc) = Ok (0, fsys ex_proc)) as Hl by (vm_compute; reflexivity).
  split.
  - eapply eq_trans; [exact (validate_segment_correct ex_proc 93 0 _ H1 Hl H0)|].
    exact (f_equal (λ b, Ok (b, ex_proc)) (eq_refl : bool_decide (segment_ok 0 (Phdr PT_LOAD 0 0x8048000 0 4096 5)) = true)).
  - eapply eq_trans; [exact (validate_segment_correct ex_proc 93 0 _ H2 Hl H0)|].
    exact (f_equal (λ b, Ok (b, ex_proc)) (eq_refl : bool_decide (segment_ok 0 (Phdr PT_LOAD 0 0x8048000 0 0xf8000000 5)) = false)).
Defined.

(** ** Too many arguments

    A command line of a page holds arguments that do not fit into the stack page
    together with their addresses: the kernel faults on the page below it. *)
Lemma arguments_overflow : setup_stack 1 1000 (replicate 1000 (chars "x")) ex_proc = Err EFault.
Proof. vm_compute. reflexivity. Qed.
