(* ===== verification/SyscallProps.v ===== *)
(** * Properties of the system calls

    The descriptor table of a process, what bad descriptors and bad pointers do,
    and what a call can do to the kernel. *)
From stdpp Require Import strings.
From S2P Require Import Prelude Bitmap BitmapFacts Mem CString CStringFacts CStdlibFacts Vaddr Palloc PallocFacts Pagedir PagedirFacts PagedirProps CStdio CStdioFacts Block Inode File Directory Filesys Loader UserMem Syscall InodeCheck.
Local Open Scope Z_scope.

(** ** What a program may change

    [within R m]: whenever [m] returns, the state has changed according to [R]. *)
Section within.
Context {S : Type} (R : S → S → Prop) `{!PreOrder R}.

Definition within {A} (m : M S A) : Prop := ∀ s a s', m s = Ok (a, s') → R s s'.

Lemma within_ret {A} (a : A) : within (mret a).
Proof. intros s a' s' [= <- <-]. reflexivity. Qed.
Lemma within_throw {A} e : within (throw (A:=A) e).
Proof. by intros s a s'. Qed.
Lemma within_gets {A} (f : S → A) : within (gets f).
Proof. intros s a s' [= <- <-]. reflexivity. Qed.
Lemma within_modify (f : S → S) : (∀ s, R s (f s)) → within (modify f).
Proof. intros Hf s a s' [= <- <-]. apply Hf. Qed.
Lemma within_bind {A B} (m : M S A) (k : A → M S B) : within m → (∀ a, within (k a)) → within (m ≫= k).
Proof.
  intros Hm Hk s b s'. unfold mbind, M_bind. destruct (m s) as [[a s1]|] eqn:E; [|done]. intros E'.
  etrans; [exact (Hm _ _ _ E)|exact (Hk _ _ _ _ E')].
Qed.
Lemma within_zoom {T A} (get : S → T) (put : T → S → S) (m : M T A) : (∀ t s, R s (put t s)) → within (zoom get put m).
Proof. intros Hp s a s'. unfold zoom. destruct (m (get s)) as [[b t]|]; [|done]. intros [= <- <-]. apply Hp. Qed.
Lemma within_loop {A B} n (body : A → M S (A + B)) a : (∀ a, within (body a)) → within (loop n body a).
Proof.
  intros Hb. unfold loop. revert a. induction n as [|n IH]; intros a; [apply within_throw|].
  apply within_bind; [apply Hb|]. intros [a'|b]; [apply IH|apply within_ret].
Qed.

End within.

(** The calls but [open] only take entries out of the descriptor table. *)
Definition shrinks (s s' : proc) : Prop := file_list s' `sublist_of` file_list s ∧ fd s' = fd s.
#[export] Instance shrinks_preorder : PreOrder shrinks.
Proof.
  split; [by intros s; split|]. intros s1 s2 s3 [H1 E1] [H2 E2]. split; [by etrans|congruence].
Qed.

Create HintDb within.
Ltac within_step := first
  [ solve [auto with within] | apply within_ret; apply _ | apply within_throw | apply within_gets; apply _
  | apply within_bind; [apply _| |intros ?] | apply within_zoom; [intros; by split]
  | apply within_loop; [apply _|intros ?] | apply within_modify; intros; by split
  | match goal with |- within _ (match ?x with _ => _ end) => destruct x end ].
Ltac within_steps := repeat within_step.

Section shrinking.
Context (init_page_dir : Z).

Lemma within_on_fs {A} (m : M fs A) : within shrinks (on_fs m).
Proof. apply within_zoom. by split. Qed.
Lemma within_on_mmu {A} (m : M mmu A) : within shrinks (on_mmu m).
Proof. apply within_zoom. by split. Qed.
Lemma within_print fmt args : within shrinks (print fmt args).
Proof. apply within_zoom. by split. Qed.
#[local] Hint Resolve within_on_fs within_on_mmu within_print : within.

Lemma within_close_files l s u s' :
  close_files l s = Ok (u, s') → file_list s = l → file_list s' = [] ∧ fd s' = fd s.
Proof.
  revert s. induction l as [|f l IH]; intros s E Hl; simpl in E.
  - injection E as <- <-. by split.
  - unfold mbind, M_bind, modify in E. unfold on_fs, zoom in E. cbn [fsys set_file_list] in E.
    destruct (close_file (file_temp f) (fsys s)) as [[v t]|]; [|done]. apply IH in E as [? ?]; [by split|done].
Qed.

Lemma within_process_exit : within shrinks (process_exit init_page_dir).
Proof. unfold process_exit. within_steps. Qed.

Lemma within_thread_exit : within shrinks (thread_exit init_page_dir).
Proof.
  unfold thread_exit. apply within_bind; [apply _|apply within_process_exit|]. intros _.
  intros s a s'. unfold mbind, M_bind, gets. destruct (close_files (file_list s) s) as [[v s1]|] eqn:E; [|done].
  apply within_close_files in E as [El Ef]; [|done]. unfold on_fs, zoom.
  destruct (close_file (executable s1) (fsys s1)) as [[w t]|]; [|done]. intros [= <- <-].
  split; [|done]. cbn. rewrite El. apply sublist_nil_l.
Qed.
#[local] Hint Resolve within_thread_exit : within.
Lemma within_exit {A} st : within shrinks (exit (A:=A) init_page_dir st).
Proof. unfold exit, exit_message. within_steps. Qed.
#[local] Hint Resolve within_exit : within.
Lemma within_check p : within shrinks (check_esp init_page_dir p).
Proof. unfold check_esp. within_steps. Qed.
Lemma within_the_file d : within shrinks (the_file init_page_dir d).
Proof. unfold the_file, get_file. within_steps. Qed.
#[local] Hint Resolve within_check within_the_file : within.

Lemma sublist_remove_fd d l : remove_fd d l `sublist_of` l.
Proof. induction l as [|f l IH]; simpl; [done|]. destruct (_ =? _); by constructor. Qed.
Lemma within_close d : within shrinks (close init_page_dir d).
Proof.
  unfold close, bindx. within_steps. apply within_modify. intros s. split; [apply sublist_remove_fd|done].
Qed.

#[local] Hint Resolve within_close : within.

Lemma within_read d b n : within shrinks (read init_page_dir d b n).
Proof. unfold read, bindx, value. within_steps. Qed.
Lemma within_putbuf b n : within shrinks (putbuf b n).
Proof. unfold putbuf. within_steps. Qed.
#[local] Hint Resolve within_putbuf : within.
Lemma within_write d b n : within shrinks (write init_page_dir d b n).
Proof. unfold write, bindx, value. within_steps. Qed.
Lemma within_next_entry d n : within shrinks (next_entry d n).
Proof. unfold next_entry. within_steps. Qed.
#[local] Hint Resolve within_next_entry : within.
Lemma within_readdir d n : within shrinks (readdir d n).
Proof. unfold readdir, get_file, truth, value. within_steps. Qed.
#[local] Hint Resolve within_read within_write within_readdir : within.
Lemma within_arg esp i : within shrinks (arg esp i).
Proof. unfold arg. auto with within. Qed.
Lemma within_check_pointer esp i : within shrinks (check_pointer init_page_dir esp i).
Proof. unfold check_pointer, arg. within_steps. Qed.
#[local] Hint Resolve within_arg within_check_pointer : within.

(** ** [open] *)

(** A new entry, with a descriptor that the process has not had before. *)
Definition opened (s s' : proc) (v : Z) : Prop :=
  ∃ f, file_list s' = file_list s ++ [f] ∧ fi_fd f = fd s ∧ fd s' = s32 (fd s + 1) ∧ v = u32 (fd s).
Definition unchanged (s s' : proc) : Prop := file_list s' = file_list s ∧ fd s' = fd s.
#[local] Instance unchanged_preorder : PreOrder unchanged.
Proof. split; [by intros s; split|]. intros s1 s2 s3 [] []. split; congruence. Qed.

Lemma open_table file s o s' :
  open file s = Ok (o, s') →
  (unchanged s s' ∧ o = Some (Returns (Some (u32 (-1))))) ∨ ∃ v, opened s s' v ∧ o = Some (Returns (Some v)).
Proof.
  intros E. unfold open in E.
  assert (Hfs : ∀ A (m : M fs A), within unchanged (on_fs m)) by (intros; apply within_zoom; by split).
  apply ok_bind in E as (nm & s1 & E1 & E).
  assert (H1 : unchanged s s1) by (eapply (within_zoom unchanged); [|exact E1]; by split).
  case_bool_decide; [injection E as <- <-; by left|].
  apply ok_bind in E as (cur & s2 & E2 & E). pose proof (transitivity H1 (Hfs _ _ _ _ _ E2)) as H2.
  destruct (cur =? 0); [injection E as <- <-; by left|].
  apply ok_bind in E as (m & s3 & E3 & E). pose proof (transitivity H2 (Hfs _ _ _ _ _ E3)) as H3.
  destruct (m =? 0); [injection E as <- <-; by left|].
  apply ok_bind in E as (i & s4 & E4 & E). pose proof (transitivity H3 (Hfs _ _ _ _ _ E4)) as H4.
  apply ok_bind in E as (dir & s5 & E5 & E).
  assert (H5 : unchanged s s5).
  { etrans; [exact H4|]. destruct (negb (i =? 0)); [exact (Hfs _ _ _ _ _ E5)|injection E5 as <- <-; reflexivity]. }
  apply ok_bind in E as (dt & s6 & E6 & E).
  assert (H6 : unchanged s s6).
  { etrans; [exact H5|]. destruct dir; [|injection E6 as <- <-; reflexivity].
    apply ok_bind in E6 as (? & ? & E6 & E7). etrans; [exact (Hfs _ _ _ _ _ E6)|exact (Hfs _ _ _ _ _ E7)]. }
  destruct H6 as [Hl Hd]. right. injection E as <- <-. exists (u32 (fd s6)). split; [|done].
  exists (FileInfo (fd s6) cur dt). cbn. by rewrite Hl, Hd.
Qed.

#[local] Opaque exit_message thread_exit.
(** A check that the process survives leaves its table alone. *)
Lemma exit_none {A} st s o s' : exit (A:=A) init_page_dir st s = Ok (o, s') → o = None.
Proof. intros E. unfold exit in E. do 3 apply ok_bind in E as (? & ? & _ & E). by injection E as <- _. Qed.
Lemma check_passes p s s' : check_esp init_page_dir p s = Ok (Some tt, s') → unchanged s s'.
Proof.
  intros E. unfold check_esp in E. apply ok_bind in E as (pd & s1 & [= <- <-] & E). apply ok_bind in E as (ok & s2 & E2 & E).
  destruct ok; [|by apply exit_none in E]. injection E as <-.
  destruct (_ || _); [by injection E2|]. apply ok_bind in E2 as (k & s3 & E3 & E2). injection E2 as _ <-.
  eapply (within_zoom unchanged); [|exact E3]. by split.
Qed.

Lemma open_handler esp s o s' :
  (_ ⇐ check_arg init_page_dir esp 1; _ ⇐ check_pointer init_page_dir esp 1; file ← arg esp 1; open file) s = Ok (o, s') →
  shrinks s s' ∨ ∃ v, opened s s' v ∧ o = Some (Returns (Some v)).
Proof.
  assert (Hu : ∀ A (m : M mmu A), within unchanged (on_mmu m)) by (intros; apply within_zoom; by split).
  intros E. unfold bindx in E. apply ok_bind in E as (o1 & s1 & E1 & E).
  destruct o1 as [[]|]; [|injection E as <- <-; left; by apply within_check in E1]. apply check_passes in E1 as [L1 D1].
  apply ok_bind in E as (o2 & s2 & E2 & E). apply ok_bind in E2 as (q & s3 & E3 & E2). destruct (Hu _ _ _ _ _ E3) as [L3 D3].
  destruct o2 as [[]|].
  2:{ injection E as <- <-. left. apply within_check in E2 as [L2 D2]. split; [by rewrite <-L1, <-L3|congruence]. }
  apply check_passes in E2 as [L2 D2]. apply ok_bind in E as (q' & s4 & E4 & E). destruct (Hu _ _ _ _ _ E4) as [L4 D4].
  apply open_table in E as [[[L D] _]|(v & (f & H1 & H2 & H3 & H4) & ->)].
  - left. assert (file_list s' = file_list s) as Hl by congruence. split; [rewrite Hl; reflexivity|congruence].
  - right. exists v. split; [|done]. exists f. split_and!; congruence.
Qed.

Lemma handler_table esp s o s' :
  syscall_handler init_page_dir esp s = Ok (o, s') →
  shrinks s s' ∨ ∃ v, opened s s' v ∧ o = Some (Returns (Some v)).
Proof.
  assert (Hu : ∀ A (m : M mmu A), within unchanged (on_mmu m)) by (intros; apply within_zoom; by split).
  intros E. unfold syscall_handler in E. unfold bindx at 1 in E. apply ok_bind in E as (o1 & s1 & E1 & E).
  destruct o1 as [[]|]; [|injection E as <- <-; left; by apply within_check in E1]. apply check_passes in E1 as [L1 D1].
  apply ok_bind in E as (q & s2 & E2 & E). destruct (Hu _ _ _ _ _ E2) as [L2 D2].
  assert (shrinks s2 s' ∨ ∃ v, opened s2 s' v ∧ o = Some (Returns (Some v))) as Hres.
  { destruct (q =? SYS_OPEN) eqn:Eo.
    { apply Z.eqb_eq in Eo as ->. cbn in E. by apply open_handler in E. }
    left. revert E. match goal with |- ?m s2 = _ → _ => generalize s2 o s'; change (within shrinks m) end.
    unfold check_arg, bindx, create, remove, filesize, seek, tell, chdir, mkdir, isdir, inumber, truth, value.
    within_steps. }
  destruct Hres as [[Hl Hd]|(v & (f & H1 & H2 & H3 & H4) & ->)].
  - left. split; [by rewrite <-L1, <-L2|congruence].
  - right. exists v. split; [|done]. exists f. split_and!; congruence.
Qed.
End shrinking.

(** ** The descriptor table *)

(** Descriptors are distinct, not those of the console, and below the next one. *)
Record table_ok (s : proc) : Prop := TableOk {
  ta_distinct : NoDup (fi_fd <$> file_list s);
  ta_range : ∀ f, f ∈ file_list s → 2 ≤ fi_fd f < fd s;
  ta_next : 2 ≤ fd s }.
Definition has_fd (s : proc) (d : Z) : Prop := d ∈ fi_fd <$> file_list s.

Section calls.
Context (init_page_dir : Z).
Implicit Types (s : proc) (d p esp : Z).
#[local] Opaque exit_message thread_exit.

(** Every system call that returns keeps the descriptors of a process distinct
    and away from those of the console. It only takes entries out of the table and
    leaves the next descriptor alone, or it is an open that adds one entry under
    the next descriptor, which it returns and counts up. *)
Theorem descriptor_table s esp o s' :
  table_ok s → fd s < 2 ^ 31 - 1 → syscall_handler init_page_dir esp s = Ok (o, s') →
  table_ok s' ∧
  ((file_list s' `sublist_of` file_list s ∧ fd s' = fd s) ∨
   (∃ f, file_list s' = file_list s ++ [f] ∧ fi_fd f = fd s ∧ ¬ has_fd s (fd s) ∧ fd s' = fd s + 1 ∧
         o = Some (Returns (Some (fd s))))).
Proof.
  intros [Hnd Hr Hn] Hmax E. apply handler_table in E as [[Hl Hd]|(v & (f & Hl & Hf & Hd & ->) & ->)].
  - split; [|by left]. split; [|intros f Hf; rewrite Hd; apply Hr; by eapply elem_of_sublist|by rewrite Hd].
    eapply sublist_NoDup; [exact Hnd|by apply fmap_sublist].
  - assert (Hnew : ¬ has_fd s (fd s)).
    { intros (g & Eg & Hg)%list_elem_of_fmap. apply Hr in Hg. lia. }
    rewrite s32_small in Hd by lia. split.
    + split; rewrite ?Hl, ?Hd; [|intros g [Hg| ->%list_elem_of_singleton]%elem_of_app; [apply Hr in Hg; lia|lia]|lia].
      rewrite fmap_app, NoDup_app. split_and!; [done| |apply NoDup_singleton].
      intros x Hx ->%list_elem_of_singleton. rewrite Hf in Hx. by apply Hnew.
    + right. exists f. split_and!; try done. by rewrite u32_small by lia.
Qed.

Lemma exit_bind {A B} (k : A → M proc (option B)) st s : (a ⇐ exit init_page_dir st; k a) s = exit init_page_dir st s.
Proof.
  unfold bindx, exit, mbind, M_bind. destruct (exit_message st s) as [[? ?]|]; [|done].
  unfold modify. by destruct (thread_exit _ _) as [[? ?]|].
Qed.

Lemma bindx_at {A B} (m m' : M proc (option A)) (k : A → M proc (option B)) s :
  m s = m' s → (a ⇐ m; k a) s = (a ⇐ m'; k a) s.
Proof. intros E. unfold bindx, mbind, M_bind. by rewrite E. Qed.

(** ** What calls do with a descriptor *)
Lemma find_fd s d : ¬ has_fd s d → find (λ f, fi_fd f =? d) (file_list s) = None.
Proof.
  intros Hd. destruct (find _ _) as [f|] eqn:E; [|done]. apply find_some in E as [Hin Hf%Z.eqb_eq]. destruct Hd.
  apply list_elem_of_fmap. exists f. split; [done|by apply list_elem_of_In].
Qed.
Lemma no_file {B} s d (k : file_info → M proc (option B)) :
  ¬ has_fd s d → (f ⇐ the_file init_page_dir d; k f) s = exit init_page_dir (-1) s.
Proof.
  intros Hd. etrans; [apply (bindx_at _ (exit init_page_dir (-1)))|apply exit_bind].
  unfold the_file, get_file, gets, mbind at 1, M_bind. cbn beta iota. by rewrite find_fd.
Qed.

(** A descriptor that the process does not have ends it with status -1 in
    filesize, read, write, seek, tell, close, isdir and inumber, before these calls
    do anything else; so do reading from descriptor 0 and 1 and writing to 0.
    readdir reports false and changes nothing. *)
Theorem descriptor_errors s d b n :
  ¬ has_fd s d →
  filesize init_page_dir d s = exit init_page_dir (-1) s ∧
  read init_page_dir d b n s = exit init_page_dir (-1) s ∧
  seek init_page_dir d n s = exit init_page_dir (-1) s ∧
  tell init_page_dir d s = exit init_page_dir (-1) s ∧
  close init_page_dir d s = exit init_page_dir (-1) s ∧
  isdir init_page_dir d s = exit init_page_dir (-1) s ∧
  inumber init_page_dir d s = exit init_page_dir (-1) s ∧
  (d ≠ 1 → write init_page_dir d b n s = exit init_page_dir (-1) s) ∧
  readdir d b s = Ok (Some (Returns (Some 0)), s).
Proof.
  intros Hd. split_and!; try (intros; by apply no_file).
  - intros Hd1. unfold write. rewrite (proj2 (Z.eqb_neq d 1) Hd1). destruct (negb (d =? 0)); [by apply no_file|done].
  - unfold readdir, get_file, gets, mbind at 1, M_bind. cbn beta iota. by rewrite find_fd.
Qed.

(** Where a process may point to. *)
Definition valid_pointer s p : Prop := p ≠ 0 ∧ user_addr p ∧ present (pte_val (machine s) (pagedir s) p) = true.
#[local] Instance valid_pointer_dec s p : Decision (valid_pointer s p).
Proof. unfold valid_pointer, user_addr. apply _. Defined.

(** The check, as it comes out. *)
Lemma check_esp_at s p :
  pd_ok (machine s) (pagedir s) → 0 ≤ p < 2 ^ 32 →
  check_esp init_page_dir p s = if bool_decide (valid_pointer s p) then Ok (Some tt, s) else exit init_page_dir (-1) s.
Proof.
  intros Hok Hp.
  unfold check_esp, is_user_vaddr, gets. unfold mbind at 1, M_bind. cbn beta iota.
  destruct (Z.eqb_spec p 0) as [->|Hnz]; [by rewrite bool_decide_eq_false_2 by (intros []; lia)|].
  destruct (Z.ltb_spec p PHYS_BASE) as [Hlt|Hge]; cbn [orb negb]; [|by rewrite bool_decide_eq_false_2 by (intros (_ & [? ?] & _); lia)].
  assert (Hg : on_mmu (pagedir_get_page (pagedir s) p) s = Ok (translate (pte_val (machine s) (pagedir s) p) p, s)).
  { unfold on_mmu, zoom. rewrite (wp_det_ok _ _ (translate (pte_val (machine s) (pagedir s) p) p) (machine s)); [by destruct s|].
    apply wp_pagedir_get_page; [done|split; lia|done]. }
  unfold mbind, M_bind. rewrite Hg. unfold translate.
  destruct (present (pte_val (machine s) (pagedir s) p)) eqn:Epr.
  - rewrite bool_decide_eq_true_2 by (split_and!; [done|split; lia|done]).
    assert (0 ≤ pte_val (machine s) (pagedir s) p).
    { unfold pte_val. destruct (_ =? _); [done|]. apply word_range, (pk_bytes _ _ Hok). }
    pose proof (Z.mod_le (pte_val (machine s) (pagedir s) p) 4096 ltac:(done) ltac:(lia)).
    pose proof (Z.mod_pos_bound p 4096 ltac:(lia)).
    rewrite (proj2 (Z.eqb_neq _ 0)) by (unfold PHYS_BASE; lia). done.
  - by rewrite bool_decide_eq_false_2 by (intros (_ & _ & ?); congruence).
Qed.

(** A bad stack pointer, as the handler sees it. *)
Lemma handler_bad_stack s esp :
  pd_ok (machine s) (pagedir s) → 0 ≤ esp < 2 ^ 32 → ¬ valid_pointer s esp →
  syscall_handler init_page_dir esp s = exit init_page_dir (-1) s.
Proof.
  intros Hok Hp Hv. pose proof (check_esp_at s esp Hok Hp) as Hc. rewrite bool_decide_eq_false_2 in Hc by done.
  unfold syscall_handler. etrans; [apply bindx_at; exact Hc|]. apply exit_bind.
Qed.

(** ** Calls that stop the kernel

    A position beyond [2^31] is negative for the file system, which asserts that it
    is not: any process can stop the machine with a seek. *)
Lemma seek_negative_panics s d f position :
  find (λ f, fi_fd f =? d) (file_list s) = Some f → file_temp f ≠ 0 → 2 ^ 31 ≤ position < 2 ^ 32 →
  seek init_page_dir d position s = Err EAssert.
Proof.
  intros Hf Hnz Hp. unfold seek, bindx, the_file, get_file, gets, mbind, M_bind. cbn beta iota. rewrite Hf. cbn beta iota.
  unfold on_fs, zoom, file_seek, ASSERT, mbind, M_bind, mret, M_ret. cbn beta iota. rewrite (proj2 (Z.eqb_neq _ 0) Hnz). cbn.
  assert (0 <=? s32 position = false) as ->; [|done]. apply Z.leb_gt. unfold s32, sext.
  replace ((position + 2 ^ (32 - 1)) `mod` 2 ^ 32) with (position - 2 ^ 31); [lia|].
  apply (Z.mod_unique _ _ 1); lia.
Qed.
End calls.

(** ** Witnesses *)

(** The stack page of a process, which ends in [bytes], and one page of the kernel
    that follows it. *)
Definition stack_machine (bytes : list Z) : mmu :=
  Mmu (Pal (Pool false (Bitmap 2 [1]) (PHYS_BASE + 4096)) (Pool false (Bitmap 1 [0]) (PHYS_BASE + 12288))
    (Mem.write (Mem.write (Mem.write (Mem.write (Mem.write (Mem.write ∅
       PHYS_BASE [42])
       (ex_pd + 4 * 767) (word_bytes (8192 + 7))) (ex_pd + 4 * 768) (word_bytes (16384 + 3)))
       (PHYS_BASE + 8192 + 4 * 1023) (word_bytes (12288 + 7)))
       (PHYS_BASE + 16384) (word_bytes 3))
       (PHYS_BASE + 16384 - Z.of_nat (length bytes)) bytes))
    4096 1.
Definition stack_proc (bytes : list Z) : proc :=
  Proc ex_fs (stack_machine bytes) ex_pd 0 [FileInfo 2 53 0] 3 0 (chars "prog") [].

(** The call [open ("/a")]. *)
Definition open_call : proc :=
  stack_proc (word_bytes SYS_OPEN ++ word_bytes (PHYS_BASE - 4) ++ chars "/a" ++ [0; 0]).

Lemma descriptor_table_witness :
  ∃ o s', syscall_handler 1 (PHYS_BASE - 12) open_call = Ok (o, s') ∧ table_ok s' ∧ fd s' = 4 ∧
    o = Some (Returns (Some 3)).
Proof.
  assert (Hrun : match syscall_handler 1 (PHYS_BASE - 12) open_call with Ok (_, s') => fd s' | Err _ => 0 end = 4) by (vm_compute; reflexivity).
  destruct (syscall_handler 1 (PHYS_BASE - 12) open_call) as [[o s']|e] eqn:E; [|discriminate Hrun].
  exists o, s'. split; [exact eq_refl|].
  destruct (descriptor_table 1 open_call (PHYS_BASE - 12) o s') as (Ht & [(_ & Hfd)|(f & _ & _ & _ & _ & Ho)]).
  - split; [apply NoDup_singleton|intros f ->%list_elem_of_singleton; simpl; lia|simpl; lia].
  - simpl. lia.
  - exact E.
  - rewrite Hfd in Hrun. discriminate Hrun.
  - split; [exact Ht|]. split; [exact Hrun|exact Ho].
Defined.

Lemma descriptor_errors_witness : filesize 1 5 open_call = exit 1 (-1) open_call.
Proof.
  destruct (descriptor_errors 1 open_call 5 0 0) as [H _]; [|exact H].
  unfold has_fd. intros (f & Ef & ->%list_elem_of_singleton)%list_elem_of_fmap. discriminate Ef.
Defined.

(** ** A buffer that begins in the last user page may end in the kernel

    Writing the last byte of the stack page and one more to the console prints a
    byte of the kernel. *)
Lemma write_leaks_kernel :
  match write 1 1 (PHYS_BASE - 1) 2 (stack_proc [7]) with Ok (o, s') => (o, console s') | Err _ => (None, []) end =
  (Some (Returns (Some 2)), [42; 7]).
Proof. vm_compute. reflexivity. Qed.
(** Reading two bytes of a file to the last byte of the stack
    page writes into the kernel. *)
Lemma read_overwrites_kernel :
  match read 1 2 (PHYS_BASE - 1) 2 (stack_proc [7]) with
  | Ok (o, s') => (o, bool_decide (ram (frames (machine s')) !! PHYS_BASE = Some 42))
  | Err _ => (None, true)
  end = (Some (Returns (Some 2)), false).
Proof. vm_compute. reflexivity. Qed.

(** ** The end of a process

    [exit] gives back everything the process has: its page tables and frames, its
    open files and its executable.  (Directories that it opened stay open, see
    [exit_leaks_directory].) *)

(** The files that a process holds. *)
Definition process_files (s : proc) : list Z :=
  (file_temp <$> file_list s) ++ (if executable s =? 0 then [] else [executable s]).

Section ending.
Context (init_page_dir : Z).
Implicit Types (s : proc).

Lemma name_string s : Forall is_char (name s) → cstr (Mem.write ∅ name_address (name s ++ [0])) name_address (name s).
Proof.
  intros Hn. split; [|done]. intros i b Hi. apply lookup_write_in. exact Hi.
Qed.

(** What is printed, the last character first. *)
Definition exit_line s (d : list Z) : list Z := name s ++ chars ": exit(" ++ d ++ chars ")" ++ [10].

Lemma wp_exit_message s status (Q : unit → proc → Prop) :
  Forall is_char (name s) → Z.of_nat (length (name s)) < 16 → - 2 ^ 31 ≤ status < 2 ^ 31 →
  (∀ d, decimal_of status d → Q tt (set_console (reverse (exit_line s d) ++ console s) s)) →
  wp (exit_message status) s Q.
Proof.
  intros Hn Hl Hst HQ. unfold exit_message, print. wp_step. unfold printf, vprintf.
  change (chars "%s: exit(%d)" ++ [10]) with [37; 115; 58; 32; 101; 120; 105; 116; 40; 37; 100; 41; 10].
  eapply wp_vprintf_s; [unfold name_address; lia|by apply name_string|lia|].
  do 7 (apply wp_vprintf_char; [done|]). apply wp_vprintf_d; [done|]. intros d Hd. do 2 (apply wp_vprintf_char; [done|]).
  cbn [__vprintf]. wp_step. cbn [snd]. specialize (HQ d Hd). unfold exit_line in HQ.
  change (chars ": exit(") with [58; 32; 101; 120; 105; 116; 40] in HQ. change (chars ")") with [41] in HQ.
  rewrite !reverse_app in HQ. simpl in HQ. rewrite <-!app_assoc in HQ. exact HQ.
Qed.

(** The page tables. *)
Lemma wp_process_exit s :
  pd_ok (machine s) (pagedir s) → owns_frames (machine s) (pagedir s) → pagedir s ≠ init_page_dir → PHYS_BASE ≤ init_page_dir < 2 ^ 32 →
  wp (process_exit init_page_dir) s (λ _ s', s' = set_machine (machine s') (set_pagedir 0 s) ∧
    cr3 (machine s') = init_page_dir - PHYS_BASE ∧ pal_ok (frames (machine s')) ∧
    ∀ w a, used w (frames (machine s')) a ↔ used w (frames (machine s)) a ∧ ¬ owned (machine s) (pagedir s) a).
Proof.
  intros Hok Hown Hne Hinit. destruct (used_range_addr _ _ _ (pk_pal _ _ Hok) (pk_pd _ _ Hok)) as (_ & Hpd & _).
  unfold process_exit. wp_step. wp_step. rewrite (proj2 (Z.eqb_neq (pagedir s) 0)) by (unfold PHYS_BASE in Hpd; lia). cbn [negb].
  wp_step. wp_step. wp_step. unfold on_mmu at 1. wp_step. unfold pagedir_activate. rewrite Z.eqb_refl. wp_step.
  apply wp_vtop; [done|]. wp_step. unfold on_mmu. wp_step. cbn [machine set_machine set_pagedir].
  set (s1 := Mmu (frames (machine s)) _ _).
  assert (Hpte : ∀ va, pte_val s1 (pagedir s) va = pte_val (machine s) (pagedir s) va) by (intros va; by apply pte_val_frames).
  eapply wp_mono; [apply (wp_pagedir_destroy init_page_dir s1); [by eapply pd_ok_frames; [|exact Hok]| |done]|].
  { destruct Hown as [H1 H2]. split; [intros va Hva|intros va va' Hva Hva']; rewrite ?Hpte; [by apply H1|by apply H2]. }
  intros [] m [W1 W2 _ W4]. split_and!; [done|done|done|]. intros w a. cbn [machine set_machine]. rewrite W2. cbn [frames s1].
  assert (Hiff : owned s1 (pagedir s) a ↔ owned (machine s) (pagedir s) a); [|by rewrite Hiff].
  unfold owned. apply or_iff_compat_l. split; intros (va & Hva & Hc); exists va; (split; [done|]); rewrite Hpte in *; exact Hc.
Qed.

(** The files, before the rest that is closed later. *)
Lemma wp_close_files l rest s (Q : unit → proc → Prop) :
  closable (fsys s) ((file_temp <$> l) ++ rest) → file_list s = l →
  (∀ F', closable F' rest → (∀ F'', closed F' F'' rest → closed (fsys s) F'' ((file_temp <$> l) ++ rest)) →
     Q tt (set_fsys F' (set_file_list [] (fd s) s))) →
  wp (close_files l) s Q.
Proof.
  revert s. induction l as [|f l IH]; intros s Hcl Hl HQ; cbn [close_files fmap list_fmap app] in *.
  - wp_step. replace s with (set_fsys (fsys s) (set_file_list [] (fd s) s)) by (destruct s; simpl in *; by subst). by apply HQ.
  - wp_step. wp_step. wp_step. unfold on_fs, close_file. wp_step. cbn [fsys set_file_list].
    eapply wp_mono; [by eapply wp_close_one|]. intros [] F1 H1.
    apply IH; [by eapply closable_cons|done|]. cbn [fsys set_fsys set_file_list]. intros F' HF' Hc'.
    apply HQ; [done|]. intros F'' H''. eapply closed_cons; [done|exact H1|by apply Hc'].
Qed.

Lemma wp_thread_exit s (Q : unit → proc → Prop) :
  pd_ok (machine s) (pagedir s) → owns_frames (machine s) (pagedir s) → pagedir s ≠ init_page_dir → PHYS_BASE ≤ init_page_dir < 2 ^ 32 →
  closable (fsys s) (process_files s) →
  (∀ F' m', closed (fsys s) F' (process_files s) → cr3 m' = init_page_dir - PHYS_BASE → pal_ok (frames m') →
     (∀ w a, used w (frames m') a ↔ used w (frames (machine s)) a ∧ ¬ owned (machine s) (pagedir s) a) →
     Q tt (set_fsys F' (set_file_list [] (fd s) (set_machine m' (set_pagedir 0 s))))) →
  wp (thread_exit init_page_dir) s Q.
Proof.
  intros Hok Hown Hne Hinit Hcl HQ. unfold thread_exit. wp_step.
  eapply wp_mono; [by apply wp_process_exit|]. intros [] s1 (E1 & Hcr & Hpal & Hu). rewrite E1. set (m' := machine s1) in *.
  wp_step. wp_step. wp_step. cbn [file_list set_machine set_pagedir].
  eapply wp_close_files; [exact Hcl|done|]. cbn [fsys set_machine set_pagedir fd]. intros F1 H1 Hc1.
  wp_step. wp_step. cbn [executable set_fsys set_file_list set_machine set_pagedir]. unfold on_fs. wp_step. cbn [fsys set_fsys].
  unfold process_files in HQ. destruct (Z.eqb_spec (executable s) 0) as [E0|E0].
  - rewrite E0. unfold close_file, file_close. rewrite Z.eqb_refl. wp_step. apply HQ; [|done..]. apply Hc1.
    split; [done| | |done]; [intros p; by destruct (inodes F1 !! p)|].
    intros p. split; [|by intros []]. intros Hp. split; [done|]. intros [[? E] E']. congruence.
  - unfold close_file. eapply wp_mono; [by eapply wp_close_one|]. intros [] F2 H2. apply HQ; [by apply Hc1|done..].
Qed.

(** What a process needs to end: a name, a page directory of its own whose frames
    are its own, and files that can be closed. *)
Record may_end s : Prop := MayEnd {
  me_name : Forall is_char (name s) ∧ Z.of_nat (length (name s)) < 16;
  me_pd : pd_ok (machine s) (pagedir s) ∧ owns_frames (machine s) (pagedir s) ∧ pagedir s ≠ init_page_dir;
  me_init : PHYS_BASE ≤ init_page_dir < 2 ^ 32;
  me_files : closable (fsys s) (process_files s) }.

(** The state that it leaves. *)
Record ended s (status : Z) s' : Prop := Ended {
  en_status : exit_status s' = status;
  en_pagedir : pagedir s' = 0;
  en_table : file_list s' = [];
  en_cr3 : cr3 (machine s') = init_page_dir - PHYS_BASE;
  en_frames : ∀ w a, used w (frames (machine s')) a ↔ used w (frames (machine s)) a ∧ ¬ owned (machine s) (pagedir s) a;
  en_files : closed (fsys s) (fsys s') (process_files s);
  en_message : ∃ d, decimal_of status d ∧ console s' = reverse (exit_line s d) ++ console s }.

Lemma exit_ends s status :
  may_end s → - 2 ^ 31 ≤ status < 2 ^ 31 →
  ∃ s', ended s status s' ∧ ∀ A, exit (A:=A) init_page_dir status s = Ok (None, s').
Proof.
  intros [[Hn Hl] (Hok & Hown & Hne) Hinit Hcl] Hst.
  assert (Hwp : wp (exit_message status ;; modify (set_exit_status status) ;; thread_exit init_page_dir) s (λ _ s', ended s status s')).
  { wp_step. apply wp_exit_message; [done..|]. intros d Hd. wp_step. wp_step.
    apply wp_thread_exit; [done..|]. intros F' m' Hc Hcr Hpal Hu. split; try done. by exists d. }
  apply wp_ok in Hwp as ([] & s' & E & H). exists s'. split; [done|]. intros A. unfold exit.
  apply ok_bind in E as (u1 & s1 & E1 & E). apply ok_bind in E as (u2 & s2 & E2 & E).
  rewrite (run_bind _ _ _ _ _ E1), (run_bind _ _ _ _ _ E2), (run_bind _ _ _ _ _ E). done.
Qed.


(** C33: the check of pointers accepts what the process may use and ends it for the
    rest. A block of memory that lies in pages of the process passes the check, as a
    string, a buffer or the stack pointer, and nothing changes. A null pointer, a
    pointer to the kernel and a pointer to a page that the process does not have end
    it with status -1: the call does not return, the message is printed, and the
    process gives back its pages and files. (A block that begins in a page of the
    process and ends outside is not covered, see [write_leaks_kernel].) The process
    has a name, frames and files of its own, as [may_end] says. *)
Theorem check_esp_correct s p :
  may_end s → 0 ≤ p < 2 ^ 32 →
  (∀ n, 0 < n → (∀ x, p ≤ x < p + n → valid_pointer s x) → check_esp init_page_dir p s = Ok (Some tt, s)) ∧
  (¬ valid_pointer s p → ∃ s', ended s (-1) s' ∧
     check_esp init_page_dir p s = Ok (None, s') ∧ syscall_handler init_page_dir p s = Ok (None, s')).
Proof.
  intros Hm Hp. pose proof Hm as [_ (Hok & _) _ _]. pose proof (check_esp_at init_page_dir s p Hok Hp) as Hc. split.
  - intros n Hn Hb. rewrite bool_decide_eq_true_2 in Hc; [done|]. apply Hb. lia.
  - intros Hv. destruct (exit_ends s (-1) Hm) as (s' & He & E); [lia|]. exists s'. split; [done|].
    rewrite bool_decide_eq_false_2 in Hc by done. rewrite Hc, handler_bad_stack by done. by split.
Qed.



(** A directory that the process opened, with the second reference to its inode
    that [open] takes for it, stays open when the process ends. *)
Lemma exit_leaks_directory s f d :
  pd_ok (machine s) (pagedir s) → owns_frames (machine s) (pagedir s) → pagedir s ≠ init_page_dir → PHYS_BASE ≤ init_page_dir < 2 ^ 32 →
  closable (fsys s) (process_files s) → f ∈ file_list s → dirs (fsys s) !! dir_temp f = Some d →
  ∃ s', thread_exit init_page_dir s = Ok (tt, s') ∧ file_list s' = [] ∧ dirs (fsys s') !! dir_temp f = Some d.
Proof.
  intros Hok Hown Hne Hinit Hcl _ Hd.
  assert (Hwp : wp (thread_exit init_page_dir) s (λ _ s', file_list s' = [] ∧ dirs (fsys s') !! dir_temp f = Some d)).
  { apply wp_thread_exit; [done..|]. intros F' m' [_ _ _ (_ & _ & E & _)] _ _ _. split; [done|]. cbn. by rewrite E. }
  apply wp_ok in Hwp as ([] & s' & E & H). exists s'. split; [exact E|exact H].
Qed.
End ending.

(** ** Witness: a process with one open file *)
Definition ex_exit : proc := Proc ex_fs ex_mmu ex_pd 0 [FileInfo 2 93 0] 3 0 (chars "echo") [].

Lemma ex_closable : closable ex_fs [93].
Proof.
  assert (Hall : map_Forall (λ p i, refs ex_fs [93] p ≤ open_cnt i ∧ open_cnt i < 2 ^ 31 ∧ denials ex_fs [93] p ≤ deny_write_cnt i ∧
    deny_write_cnt i - denials ex_fs [93] p ≤ open_cnt i - refs ex_fs [93] p) (inodes ex_fs)).
  { apply (bool_decide_unpack _). vm_compute. exact I. }
  split.
  - apply NoDup_singleton.
  - intros f ->%list_elem_of_singleton. split; [discriminate|].
    assert (Hx : files ex_fs !! 93 = Some (File 92 0 false)) by (vm_compute; reflexivity).
    assert (Hi : removed <$> inodes ex_fs !! 92 = Some false) by (vm_compute; reflexivity).
    apply fmap_Some in Hi as (i & Hi & Hr). exists (File 92 0 false), i. split_and!; [exact Hx|discriminate|exact Hi|by rewrite Hr].
  - intros p i Hi. destruct (Hall p i Hi) as (H1 & H2 & _). split; [exact H1|exact H2].
  - intros p i Hi. destruct (Hall p i Hi) as (_ & _ & H3). exact H3.
Qed.

Lemma ex_owns : owns_frames ex_mmu ex_pd.
Proof.
  assert (Hz : ∀ va, user_addr va → pte_val ex_mmu ex_pd va = 0).
  { intros va Hva. destruct (user_index va Hva) as [Hj _].
    assert (E : pde_of ex_mmu ex_pd (va `div` 4194304) = 0).
    { unfold pde_of, mram, ex_mmu. cbn [frames ram]. apply word_zeros; unfold ex_pd; lia. }
    unfold pte_val. rewrite E. reflexivity. }
  split; [intros va Hva Hp|intros va va' Hva _ Hp]; rewrite (Hz va Hva) in Hp; discriminate Hp.
Qed.


Lemma ex_may_end : may_end (PHYS_BASE + 65536) ex_exit.
Proof.
  split; [split; [repeat constructor; vm_compute; discriminate|reflexivity]| |split; [discriminate|reflexivity]|exact ex_closable].
  split; [exact ex_pd_ok|]. split; [|discriminate]. apply ex_owns.
Qed.

Lemma check_esp_correct_witness :
  ∃ s', syscall_handler (PHYS_BASE + 65536) PHYS_BASE ex_exit = Ok (None, s') ∧ exit_status s' = -1 ∧
    file_list s' = [] ∧ ¬ used KPool (frames (machine s')) ex_pd.
Proof.
  destruct (check_esp_correct (PHYS_BASE + 65536) ex_exit PHYS_BASE) as [_ Hc].
  - exact ex_may_end.
  - split; [discriminate|reflexivity].
  - destruct Hc as (s' & He & _ & E).
    + intros (_ & [_ H] & _). exact (Z.lt_irrefl _ H).
    + exists s'. split; [exact E|]. split; [exact (en_status _ _ _ _ He)|]. split; [exact (en_table _ _ _ _ He)|].
      intros H. apply (en_frames _ _ _ _ He) in H as [_ H]. apply H. left. reflexivity.
Defined.

