(* ===== verification/Process.v ===== *)
(** * Processes: exec, wait and exit

    userprog/process.c and the parts of threads/thread.c that start and end a
    process, as a machine of threads.  The parent and its child meet at three
    semaphores in the child's [struct thread]; a thread stands between two of the
    steps that other threads can observe, its place is [pc].  Pointers to threads
    are keys of [threads]; the structure of a thread that has ended is freed, and
    an access to it is the error [EFault].

    Scheduling is any interleaving of the steps.  What exec, wait and exit do to the
    memory and the files of one process is in Loader.v and Syscall.v. *)
From S2P Require Import Prelude.
Local Open Scope Z_scope.

(** Where a thread is: in its program, with the result of the last call; in
    [thread_create], behind [thread_unblock], before or after [sema_down]; in
    [start_process], before [load] has returned; in [process_wait], before or after
    [sema_down]; in [thread_exit], before [sema_up] and before [sema_down]. *)
Inductive place :=
  | Program (eax : option Z)
  | Created (child : Z) | AwaitLoad (child : Z) | CheckLoad (child : Z)
  | Loading
  | AwaitExit (child : Z) | Reaping (child : Z)
  | Exiting | AwaitReap.
#[export] Instance place_eq_dec : EqDecision place.
Proof. solve_decision. Defined.

(** The members of [struct thread] for processes. *)
Record thread := Thread {
  tid : Z; calling_exec : bool; child_list : list Z;
  load_mutex : Z; wait_mutex : Z; exit_mutex : Z;
  waited_once : bool; exit_status : Z; pc : place }.

Record system := System { threads : gmap Z thread; next_tid : Z; initial_thread : Z }.

Definition TID_ERROR : Z := -1.

Definition get (t : Z) : M system thread := m ← gets threads; the (m !! t).
Definition put (t : Z) (th : thread) : M system unit :=
  modify (λ s, System (<[t := th]> (threads s)) (next_tid s) (initial_thread s)).
Definition update (t : Z) (f : thread → thread) : M system unit := th ← get t; put t (f th).

Definition set_pc (p : place) (t : thread) : thread :=
  Thread (tid t) (calling_exec t) (child_list t) (load_mutex t) (wait_mutex t) (exit_mutex t) (waited_once t) (exit_status t) p.
Definition set_children (l : list Z) (t : thread) : thread :=
  Thread (tid t) (calling_exec t) l (load_mutex t) (wait_mutex t) (exit_mutex t) (waited_once t) (exit_status t) (pc t).
Definition set_exec (b : bool) (t : thread) : thread :=
  Thread (tid t) b (child_list t) (load_mutex t) (wait_mutex t) (exit_mutex t) (waited_once t) (exit_status t) (pc t).
Definition set_load (n : Z) (t : thread) : thread :=
  Thread (tid t) (calling_exec t) (child_list t) n (wait_mutex t) (exit_mutex t) (waited_once t) (exit_status t) (pc t).
Definition set_wait (n : Z) (t : thread) : thread :=
  Thread (tid t) (calling_exec t) (child_list t) (load_mutex t) n (exit_mutex t) (waited_once t) (exit_status t) (pc t).
Definition set_reap (n : Z) (t : thread) : thread :=
  Thread (tid t) (calling_exec t) (child_list t) (load_mutex t) (wait_mutex t) n (waited_once t) (exit_status t) (pc t).
Definition set_waited (t : thread) : thread :=
  Thread (tid t) (calling_exec t) (child_list t) (load_mutex t) (wait_mutex t) (exit_mutex t) true (exit_status t) (pc t).
Definition set_status (n : Z) (t : thread) : thread :=
  Thread (tid t) (calling_exec t) (child_list t) (load_mutex t) (wait_mutex t) (exit_mutex t) (waited_once t) n (pc t).
Definition set_tid (n : Z) (t : thread) : thread :=
  Thread n (calling_exec t) (child_list t) (load_mutex t) (wait_mutex t) (exit_mutex t) (waited_once t) (exit_status t) (pc t).

(** ** Creating a thread *)

(** [init_thread], for the members above. *)
Definition init_thread (id : Z) (p : place) : thread := Thread id false [] 0 0 0 false 0 p.
Definition allocate_tid : M system Z :=
  n ← gets next_tid; modify (λ s, System (threads s) (s32 (n + 1)) (initial_thread s)) ;; mret n.

(** [thread_create] up to [thread_unblock]: the new thread at [t], if there is a
    page for it, begins at [start]. *)
Definition thread_create (cur t : Z) (start : place) : M system unit :=
  id ← allocate_tid;
  put t (init_thread id start) ;;
  update cur (set_pc (Created t)).

(** [process_execute] up to there; [t] is null if [palloc_get_page] fails. *)
Definition process_execute (cur t : Z) : M system unit :=
  update cur (set_exec true) ;;
  if t =? 0 then update cur (λ th, set_exec false (set_pc (Program (Some TID_ERROR)) th))
  else thread_create cur t Loading.

(** [thread_create] behind [thread_unblock]. *)
Definition adopt (cur t : Z) : M system unit :=
  th ← get cur;
  if calling_exec th then update cur (λ th, set_pc (AwaitLoad t) (set_children (child_list th ++ [t]) th))
  else child ← get t; update cur (set_pc (Program (Some (tid child)))).
(** Behind [sema_down (&t->load_mutex)], and the end of [process_execute]. *)
Definition check_load (cur t : Z) : M system unit :=
  child ← get t;
  (if tid child =? TID_ERROR then update cur (λ th, set_children (filter (λ c, c ≠ t) (child_list th)) th) else mret tt) ;;
  update cur (λ th, set_exec false (set_pc (Program (Some (tid child))) th)).

(** ** [start_process], when [load] has returned *)
Definition start_process (cur : Z) (success : bool) : M system unit :=
  if success then update cur (λ th, set_pc (Program None) (set_load (load_mutex th + 1) th))
  else update cur (λ th, set_pc Exiting (set_status (-1) (set_load (load_mutex th + 1) (set_tid TID_ERROR th)))).

(** ** [process_wait] *)

(** The walk along the list of children. *)
Fixpoint find_child (child_tid : Z) (l : list Z) : M system (option Z) :=
  match l with
  | [] => mret None
  | c :: l => child ← get c; if tid child =? child_tid then mret (Some c) else find_child child_tid l
  end.
Definition process_wait (cur child_tid : Z) : M system unit :=
  th ← get cur;
  o ← find_child child_tid (child_list th);
  match o with
  | None => update cur (set_pc (Program (Some (-1))))
  | Some c =>
      child ← get c;
      if waited_once child then update cur (set_pc (Program (Some (-1))))
      else update c set_waited ;; update cur (set_pc (AwaitExit c))
  end.
(** Behind [sema_down (&child->wait_mutex)]. *)
Definition reap (cur c : Z) : M system unit :=
  child ← get c;
  update cur (λ th, set_children (filter (λ d, d ≠ c) (child_list th)) th) ;;
  update c (λ child, set_reap (exit_mutex child + 1) child) ;;
  update cur (set_pc (Program (Some (exit_status child)))).

(** ** [thread_exit] *)
Definition begin_exit (cur status : Z) : M system unit :=
  update cur (λ th, set_pc Exiting (set_status status th)).
(** One turn of the loop over the children, or what follows it. *)
Definition exit_step (cur : Z) : M system unit :=
  th ← get cur;
  match child_list th with
  | c :: l =>
      update cur (set_children l) ;;
      update c (λ child, set_reap (exit_mutex child + 1) child)
  | [] => update cur (λ th, set_pc AwaitReap (set_wait (wait_mutex th + 1) th))
  end.
(** [THREAD_DYING]: the next thread frees the page of the one that has ended, in
    [thread_schedule_tail].  The page of the initial thread is kept, but nothing may
    use it any more either; no new thread gets it, see [fresh]. *)
Definition free_thread (cur : Z) : M system unit :=
  modify (λ s, System (delete cur (threads s)) (next_tid s) (initial_thread s)).

(** ** Semaphores *)

(** [sema_down] and what follows it; the thread stays where it is while the value
    is zero. *)
Definition sema_down (value : thread → Z) (set : Z → thread → thread) (owner : Z) (next : M system unit) : M system unit :=
  th ← get owner;
  if value th =? 0 then mret tt else put owner (set (value th - 1) th) ;; next.

(** ** The machine *)
Inductive action :=
  | Exec (cur t : Z) | Spawn (cur t : Z) | Load (cur : Z) (success : bool)
  | Wait (cur child_tid : Z) | Exit (cur status : Z) | Continue (cur : Z).

Definition in_program (cur : Z) (m : M system unit) : M system unit :=
  th ← get cur; match pc th with Program _ => m | _ => mret tt end.

(** What a thread does next; a thread that cannot do it stays where it is. *)
Definition act (a : action) : M system unit :=
  match a with
  | Exec cur t => in_program cur (process_execute cur t)
  | Spawn cur t => in_program cur (thread_create cur t (Program None))
  | Load cur success => th ← get cur; match pc th with Loading => start_process cur success | _ => mret tt end
  | Wait cur child_tid => in_program cur (process_wait cur child_tid)
  | Exit cur status => in_program cur (begin_exit cur status)
  | Continue cur =>
      th ← get cur;
      match pc th with
      | Created t => adopt cur t
      | AwaitLoad t => sema_down load_mutex set_load t (update cur (set_pc (CheckLoad t)))
      | CheckLoad t => check_load cur t
      | AwaitExit c => sema_down wait_mutex set_wait c (update cur (set_pc (Reaping c)))
      | Reaping c => reap cur c
      | Exiting => exit_step cur
      | AwaitReap => sema_down exit_mutex set_reap cur (free_thread cur)
      | _ => mret tt
      end
  end.

(** The thread that acts, and the address of the new thread, which is a free page. *)
Definition actor (a : action) : Z :=
  match a with Exec c _ | Spawn c _ | Load c _ | Wait c _ | Exit c _ | Continue c => c end.
Definition fresh (s : system) (a : action) : Prop :=
  match a with
  | Exec _ t => t = 0 ∨ (threads s !! t = None ∧ t ≠ initial_thread s)
  | Spawn _ t => t ≠ 0 ∧ threads s !! t = None ∧ t ≠ initial_thread s
  | _ => True
  end.
Definition possible (s : system) (a : action) : Prop := is_Some (threads s !! actor a) ∧ fresh s a.

Definition initial (main : Z) : system := System {[main := init_thread 1 (Program None)]} 2 main.

Inductive reachable (main : Z) : system → Prop :=
  | reach_init : main ≠ 0 → reachable main (initial main)
  | reach_step s a s' : reachable main s → possible s a → act a s = Ok (tt, s') → reachable main s'.
