(* ===== verification/ProcessProps.v ===== *)
(** * Properties of the process machine *)
From S2P Require Import Prelude Process.
Local Open Scope Z_scope.

(** The threads that a thread has a pointer to and that wait for it to let them go. *)
Definition holds (P : thread) : list Z := child_list P ++ match pc P with Created c => [c] | _ => [] end.
(** The child that a thread is occupied with. *)
Definition tends (P : thread) (c : Z) : Prop :=
  pc P = AwaitLoad c ∨ pc P = CheckLoad c ∨ pc P = AwaitExit c ∨ pc P = Reaping c.
(** [P] waits until [C] has been loaded. *)
Definition awaits (P : thread) (c : Z) : Prop := pc P = AwaitLoad c ∨ (calling_exec P = true ∧ pc P = Created c).
Definition load_value (C : thread) : Z := match pc C with Loading => 0 | _ => 1 end.

(** Threads that are not in [process_execute]. *)
Definition calm (P : thread) : Prop := match pc P with Created _ | AwaitLoad _ | CheckLoad _ => False | _ => True end.

(** ** The invariant *)
Record inv (s : system) : Prop := Inv {
  in_alive : ∀ p P c, threads s !! p = Some P → c ∈ holds P → c ≠ p ∧ ∃ C, threads s !! c = Some C ∧ exit_mutex C = 0;
  in_once : ∀ p P, threads s !! p = Some P → NoDup (holds P);
  in_one : ∀ p q P Q c, threads s !! p = Some P → threads s !! q = Some Q → c ∈ holds P → c ∈ holds Q → p = q;
  in_tends : ∀ p P c, threads s !! p = Some P → tends P c → c ∈ child_list P;
  in_wait : ∀ p P, threads s !! p = Some P → wait_mutex P = 0 ∨ (wait_mutex P = 1 ∧ pc P = AwaitReap);
  in_reap : ∀ p P c C, threads s !! p = Some P → pc P = Reaping c → threads s !! c = Some C → pc C = AwaitReap;
  in_ready : ∀ p P c C, threads s !! p = Some P → c ∈ holds P → threads s !! c = Some C → pc C = AwaitReap →
    pc P ≠ Reaping c → wait_mutex C = 1;
  in_load : ∀ p P c C, threads s !! p = Some P → awaits P c → threads s !! c = Some C → load_mutex C = load_value C;
  in_exec : ∀ p P, threads s !! p = Some P → calm P → calling_exec P = false }.

(** A change of one thread. *)
Record change (s : system) (t : Z) (T T' : thread) : Prop := Change {
  ch_new : ∀ c, c ∈ holds T' → c ∈ holds T ∨
    (c ≠ t ∧ ∃ C, threads s !! c = Some C ∧ exit_mutex C = 0 ∧ ∀ q Q, threads s !! q = Some Q → c ∉ holds Q);
  ch_once : NoDup (holds T');
  ch_exit : exit_mutex T' = exit_mutex T ∨ ∀ q Q, threads s !! q = Some Q → t ∉ holds Q;
  ch_tends : ∀ c, tends T' c → c ∈ child_list T';
  ch_wait : wait_mutex T' = 0 ∨ (wait_mutex T' = 1 ∧ pc T' = AwaitReap);
  ch_reaped : pc T = AwaitReap → pc T' = AwaitReap;
  ch_reap : ∀ c C, pc T' = Reaping c → threads s !! c = Some C → pc C = AwaitReap;
  ch_ready : ∀ c C, c ∈ holds T' → threads s !! c = Some C → pc C = AwaitReap → pc T' ≠ Reaping c → wait_mutex C = 1;
  ch_parent : ∀ q Q, threads s !! q = Some Q → t ∈ holds Q → pc T' = AwaitReap → pc Q ≠ Reaping t → wait_mutex T' = 1;
  ch_load : ∀ c C, awaits T' c → threads s !! c = Some C → load_mutex C = load_value C;
  ch_loaded : ∀ q Q, threads s !! q = Some Q → awaits Q t → load_mutex T' = load_value T';
  ch_exec : calm T' → calling_exec T' = false }.

Definition with_thread (t : Z) (T : thread) (s : system) : system := System (<[t := T]> (threads s)) (next_tid s) (initial_thread s).

Lemma holds_child P c : c ∈ child_list P → c ∈ holds P.
Proof. intros Hc. apply elem_of_app. by left. Qed.
Lemma awaits_holds s p P c : inv s → threads s !! p = Some P → awaits P c → c ∈ holds P.
Proof.
  intros Hi Hp [Ha|[_ Ha]]; [apply holds_child; eapply in_tends; [done|done|by left]|].
  apply elem_of_app. right. rewrite Ha. by left.
Qed.

Lemma inv_change s t T T' : inv s → threads s !! t = Some T → change s t T T' → inv (with_thread t T' s).
Proof.
  intros Hi Ht Hc.
  assert (Hl : ∀ p P, threads (with_thread t T' s) !! p = Some P → (p = t ∧ P = T') ∨ (p ≠ t ∧ threads s !! p = Some P)).
  { intros p P. unfold with_thread. cbn. rewrite lookup_insert_Some. naive_solver. }
  assert (Hne : ∀ p, p ≠ t → threads (with_thread t T' s) !! p = threads s !! p).
  { intros p Hp. unfold with_thread. cbn. by apply lookup_insert_ne. }
  assert (Heq : threads (with_thread t T' s) !! t = Some T') by (unfold with_thread; cbn; apply lookup_insert_eq).
  split.
  - intros p P c Hp Hh. assert (c ≠ p ∧ ∃ C, threads s !! c = Some C ∧ exit_mutex C = 0 ∧ (c = t → exit_mutex T' = exit_mutex T)) as (Hcp & C & HC & HeC & HcT).
    { destruct (Hl p P Hp) as [[-> ->]|[Hpt Hp']].
      - destruct (ch_new _ _ _ _ Hc c Hh) as [Hh'|(Hct & C & HC & He & _)].
        + destruct (in_alive _ Hi t T c Ht Hh') as (? & C & HC & He). split; [done|]. exists C. split_and!; [done|done|done].
        + split; [done|]. exists C. split_and!; done.
      - destruct (in_alive _ Hi p P c Hp' Hh) as (? & C & HC & He). split; [done|]. exists C. split_and!; [done|done|].
        intros ->. destruct (ch_exit _ _ _ _ Hc) as [?|Hno]; [done|]. by destruct (Hno p P Hp'). }
    split; [done|]. destruct (decide (c = t)) as [->|Hct]; [|exists C; by rewrite Hne].
    exists T'. split; [done|]. rewrite HcT by done. congruence.
  - intros p P Hp. destruct (Hl p P Hp) as [[-> ->]|[_ Hp']]; [apply (ch_once _ _ _ _ Hc)|by eapply in_once].
  - assert (Ho : ∀ q Q c, threads s !! q = Some Q → q ≠ t → c ∈ holds T' → c ∈ holds Q → False).
    { intros q Q c Hq Hqt Hh Hh'. destruct (ch_new _ _ _ _ Hc c Hh) as [Hh2|(_ & _ & _ & _ & Hno)]; [|by apply (Hno q Q Hq)].
      apply Hqt. by eapply (in_one _ Hi q t Q T). }
    intros p q P Q c Hp Hq Hh Hh'. destruct (Hl p P Hp) as [[-> ->]|[Hpt Hp']], (Hl q Q Hq) as [[-> ->]|[Hqt Hq']];
      [done|destruct (Ho q Q c); done|destruct (Ho p P c); done|by eapply (in_one _ Hi p q P Q)].
  - intros p P c Hp Hh. destruct (Hl p P Hp) as [[-> ->]|[_ Hp']]; [by apply (ch_tends _ _ _ _ Hc)|by eapply in_tends].
  - intros p P Hp. destruct (Hl p P Hp) as [[-> ->]|[_ Hp']]; [apply (ch_wait _ _ _ _ Hc)|by eapply in_wait].
  - intros p P c C Hp Hr HC. destruct (Hl c C HC) as [[-> ->]|[Hct HC']].
    + destruct (Hl p P Hp) as [[-> ->]|[Hpt Hp']].
      * apply (ch_reaped _ _ _ _ Hc). by apply (ch_reap _ _ _ _ Hc t T).
      * apply (ch_reaped _ _ _ _ Hc). by eapply (in_reap _ Hi p P).
    + destruct (Hl p P Hp) as [[-> ->]|[Hpt Hp']]; [by apply (ch_reap _ _ _ _ Hc c C)|by eapply (in_reap _ Hi p P)].
  - intros p P c C Hp Hk HC Hpc Hnr. destruct (Hl c C HC) as [[-> ->]|[Hct HC']].
    + destruct (Hl p P Hp) as [[-> ->]|[Hpt Hp']].
      * exfalso. destruct (ch_new _ _ _ _ Hc t Hk) as [Hh|[? _]]; [|done]. by destruct (in_alive _ Hi t T t Ht Hh).
      * by eapply (ch_parent _ _ _ _ Hc p P).
    + destruct (Hl p P Hp) as [[-> ->]|[Hpt Hp']]; [by apply (ch_ready _ _ _ _ Hc c C)|by eapply (in_ready _ Hi p P)].
  - intros p P c C Hp Ha HC. destruct (Hl c C HC) as [[-> ->]|[Hct HC']].
    + destruct (Hl p P Hp) as [[-> ->]|[Hpt Hp']]; [|by eapply (ch_loaded _ _ _ _ Hc p P)].
      exfalso. assert (Hh : t ∈ holds T').
      { destruct Ha as [Ha|[_ Ha]]; [apply holds_child; eapply ch_tends; [done|by left]|apply elem_of_app; right; rewrite Ha; by left]. }
      destruct (ch_new _ _ _ _ Hc t Hh) as [Hh'|[? _]]; [|done]. by destruct (in_alive _ Hi t T t Ht Hh').
    + destruct (Hl p P Hp) as [[-> ->]|[Hpt Hp']]; [by apply (ch_load _ _ _ _ Hc c C)|by eapply (in_load _ Hi p P)].
  - intros p P Hp Hpc. destruct (Hl p P Hp) as [[-> ->]|[Hpt Hp']]; [by apply (ch_exec _ _ _ _ Hc)|by eapply in_exec].
Qed.

(** A thread goes on, and may let go of threads that it holds. *)
Lemma change_plain s t T T' :
  inv s → threads s !! t = Some T → pc T ≠ AwaitReap → pc T' ≠ AwaitReap →
  (∀ c, c ∈ holds T' → c ∈ holds T ∧ pc T ≠ Reaping c) → NoDup (holds T') →
  exit_mutex T' = exit_mutex T → wait_mutex T' = wait_mutex T → load_mutex T' - load_value T' = load_mutex T - load_value T →
  (∀ c, tends T' c → c ∈ child_list T') → (∀ c, pc T' ≠ Reaping c) → (∀ c, awaits T' c → awaits T c) →
  (calm T' → calling_exec T' = false) → change s t T T'.
Proof.
  intros Hi Ht Hp Hp' Hh Hnd He Hw Hlo Htd Hnr Ha Hx. split; try done.
  - intros c Hc. left. by apply Hh.
  - by left.
  - left. rewrite Hw. destruct (in_wait _ Hi t T Ht) as [?|[_ ?]]; done.
  - intros c C Hr. by destruct (Hnr c).
  - intros c C Hc HC Hpc _. destruct (Hh c Hc). by eapply (in_ready _ Hi t T c C).
  - intros c C Hac. by apply (in_load _ Hi t T c C Ht), Ha.
  - intros q Q Hq Haq. pose proof (in_load _ Hi q Q t T Hq Haq Ht). lia.
Qed.

(** A change that the invariant does not speak of. *)
Lemma change_same s t T T' :
  inv s → threads s !! t = Some T → pc T' = pc T → child_list T' = child_list T → calling_exec T' = calling_exec T →
  exit_mutex T' = exit_mutex T → wait_mutex T' = wait_mutex T → load_mutex T' = load_mutex T → change s t T T'.
Proof.
  intros Hi Ht Hp Hk Hx He Hw Hl. assert (Hh : holds T' = holds T) by (unfold holds; by rewrite Hp, Hk).
  split; unfold tends, awaits, load_value; rewrite ?Hh, ?Hp, ?Hk, ?Hx, ?Hw, ?Hl.
  - intros c Hc. by left.
  - by eapply in_once.
  - by left.
  - intros c. exact (in_tends _ Hi t T c Ht).
  - by eapply in_wait.
  - done.
  - intros c C. exact (in_reap _ Hi t T c C Ht).
  - intros c C. exact (in_ready _ Hi t T c C Ht).
  - intros q Q Hq Hh' Hr Hnr. by eapply (in_ready _ Hi q Q t T).
  - intros c C. exact (in_load _ Hi t T c C Ht).
  - intros q Q Hq Ha. exact (in_load _ Hi q Q t T Hq Ha Ht).
  - unfold calm. rewrite Hp. exact (in_exec _ Hi t T Ht).
Qed.

(** A new thread. *)
Lemma inv_create s t T n :
  inv s → threads s !! t = None → child_list T = [] → exit_mutex T = 0 → wait_mutex T = 0 →
  calling_exec T = false → (pc T = Loading ∨ ∃ e, pc T = Program e) → inv (System (<[t := T]> (threads s)) n (initial_thread s)).
Proof.
  intros Hi Hn Hk He Hw Hx Hpc.
  assert (Hl : ∀ p P, (<[t := T]> (threads s)) !! p = Some P → (p = t ∧ P = T) ∨ (p ≠ t ∧ threads s !! p = Some P)).
  { intros p P. rewrite lookup_insert_Some. naive_solver. }
  assert (Hno : ∀ c, c ∉ holds T).
  { intros c. unfold holds. rewrite Hk. destruct Hpc as [->|[e ->]]; simpl; apply not_elem_of_nil. }
  assert (Hnt : ∀ q Q, threads s !! q = Some Q → t ∉ holds Q).
  { intros q Q Hq Hh. destruct (in_alive _ Hi q Q t Hq Hh) as (_ & C & HC & _). congruence. }
  assert (Haw : ∀ c, ¬ awaits T c ∧ ¬ tends T c ∧ pc T ≠ Reaping c ∧ pc T ≠ AwaitReap).
  { intros c. unfold awaits, tends. destruct Hpc as [->|[e ->]]; naive_solver. }
  split; cbn [threads].
  - intros p P c Hp Hh. destruct (Hl p P Hp) as [[-> ->]|[_ Hp']]; [by destruct (Hno c)|].
    destruct (in_alive _ Hi p P c Hp' Hh) as (? & C & HC & HeC). split; [done|]. exists C. split; [|done]. rewrite lookup_insert_ne; [done|congruence].
  - intros p P Hp. destruct (Hl p P Hp) as [[-> ->]|[_ Hp']]; [|by eapply in_once].
    destruct (holds T) as [|c l] eqn:E; [constructor|]. destruct (Hno c). by left.
  - intros p q P Q c Hp Hq Hh Hh'. destruct (Hl p P Hp) as [[-> ->]|[_ Hp']]; [by destruct (Hno c)|].
    destruct (Hl q Q Hq) as [[-> ->]|[_ Hq']]; [by destruct (Hno c)|]. by eapply (in_one _ Hi p q P Q).
  - intros p P c Hp Htd. destruct (Hl p P Hp) as [[-> ->]|[_ Hp']]; [by destruct (Haw c) as (_ & ? & _)|by eapply in_tends].
  - intros p P Hp. destruct (Hl p P Hp) as [[-> ->]|[_ Hp']]; [by left|by eapply in_wait].
  - intros p P c C Hp Hr HC. destruct (Hl p P Hp) as [[-> ->]|[_ Hp']]; [by destruct (Haw c) as (_ & _ & ? & _)|].
    destruct (Hl c C HC) as [[-> ->]|[_ HC']]; [|by eapply (in_reap _ Hi p P)].
    destruct (Hnt p P Hp'). apply holds_child. eapply in_tends; [done|done|]. by do 3 right.
  - intros p P c C Hp Hh HC Hr Hnr. destruct (Hl p P Hp) as [[-> ->]|[_ Hp']]; [by destruct (Hno c)|].
    destruct (Hl c C HC) as [[-> ->]|[_ HC']]; [by destruct (Haw 0) as (_ & _ & _ & ?)|by eapply (in_ready _ Hi p P c C)].
  - intros p P c C Hp Ha HC. destruct (Hl p P Hp) as [[-> ->]|[_ Hp']]; [by destruct (Haw c) as (? & _)|].
    destruct (Hl c C HC) as [[-> ->]|[_ HC']]; [|by eapply (in_load _ Hi p P)].
    destruct (Hnt p P Hp'). by eapply awaits_holds.
  - intros p P Hp Hpe. destruct (Hl p P Hp) as [[-> ->]|[_ Hp']]; [done|by eapply in_exec].
Qed.

(** The structure of a thread that nobody holds is freed. *)
Lemma inv_free s t n :
  inv s → (∀ q Q, threads s !! q = Some Q → t ∉ holds Q) → inv (System (delete t (threads s)) n (initial_thread s)).
Proof.
  intros Hi Hno.
  assert (Hl : ∀ p P, delete t (threads s) !! p = Some P → threads s !! p = Some P) by (intros p P; rewrite lookup_delete_Some; by intros []).
  split; cbn [threads].
  - intros p P c Hp%Hl Hh. destruct (in_alive _ Hi p P c Hp Hh) as (? & C & HC & HeC). split; [done|]. exists C. split; [|done].
    rewrite lookup_delete_ne; [done|]. intros ->. by destruct (Hno p P Hp).
  - intros p P Hp%Hl. by eapply in_once.
  - intros p q P Q c Hp%Hl Hq%Hl. by eapply (in_one _ Hi p q P Q).
  - intros p P c Hp%Hl. by eapply in_tends.
  - intros p P Hp%Hl. by eapply in_wait.
  - intros p P c C Hp%Hl Hr HC%Hl. by eapply (in_reap _ Hi p P c C).
  - intros p P c C Hp%Hl Hh HC%Hl. by eapply (in_ready _ Hi p P c C).
  - intros p P c C Hp%Hl Hh HC%Hl. by eapply (in_load _ Hi p P c C).
  - intros p P Hp%Hl. by eapply in_exec.
Qed.

(** ** Steps keep the invariant *)
Lemma wp_get s t T (Q : thread → system → Prop) : threads s !! t = Some T → Q T s → wp (get t) s Q.
Proof. intros Ht HQ. unfold get. wp_steps. by eapply wp_the. Qed.
Lemma wp_update s t T f (Q : unit → system → Prop) : threads s !! t = Some T → Q tt (with_thread t (f T) s) → wp (update t f) s Q.
Proof. intros Ht HQ. unfold update, put. wp_step. eapply wp_get; [done|]. wp_step. exact HQ. Qed.
Lemma with_eq t T s : threads (with_thread t T s) !! t = Some T.
Proof. apply lookup_insert_eq. Qed.
Lemma with_ne t u T s : u ≠ t → threads (with_thread t T s) !! u = threads s !! u.
Proof. intros Hu. by apply lookup_insert_ne. Qed.
Lemma with_twice t T T' s : with_thread t T' (with_thread t T s) = with_thread t T' s.
Proof. unfold with_thread. cbn. by rewrite insert_insert_eq. Qed.
Lemma with_comm t u T U s : t ≠ u → with_thread t T (with_thread u U s) = with_thread u U (with_thread t T s).
Proof. intros Hn. unfold with_thread. cbn. by rewrite insert_insert_ne. Qed.

Lemma holds_other s t T T' u :
  threads s !! t = Some T → (∀ c, c ∈ holds T' → c ∈ holds T) → u ∉ holds T' →
  (∀ q Q, q ≠ t → threads s !! q = Some Q → u ∉ holds Q) → ∀ q Q, threads (with_thread t T' s) !! q = Some Q → u ∉ holds Q.
Proof.
  intros Ht Hh Hu Ho q Q. destruct (decide (q = t)) as [->|Hq]; [rewrite with_eq; by intros [= <-]|rewrite with_ne by done; by apply Ho].
Qed.

(** Letting go of a child: [T'] holds it no more, and it may go. *)
Lemma inv_release s t T T' c C :
  inv s → threads s !! t = Some T → change s t T T' → threads s !! c = Some C → c ∈ holds T → c ∉ holds T' →
  (∀ d, d ∈ holds T' → d ∈ holds T) → inv (with_thread c (set_reap (exit_mutex C + 1) C) (with_thread t T' s)).
Proof.
  intros Hi Ht Hc HC Hh Hh' Hsub. pose proof (inv_change s t T T' Hi Ht Hc) as Hi'.
  destruct (in_alive _ Hi t T c Ht Hh) as [Hne _]. assert (HC' : threads (with_thread t T' s) !! c = Some C) by (by rewrite with_ne).
  assert (Hno : ∀ q Q, threads (with_thread t T' s) !! q = Some Q → c ∉ holds Q).
  { eapply holds_other; [done..|]. intros q Q Hq HQ HhQ. apply Hq. by eapply (in_one _ Hi q t Q T). }
  eapply inv_change; [done|exact HC'|]. split; try done.
  - intros d Hd. by left.
  - exact (in_once _ Hi' c C HC').
  - by right.
  - intros d. exact (in_tends _ Hi' c C d HC').
  - exact (in_wait _ Hi' c C HC').
  - intros d D. exact (in_reap _ Hi' c C d D HC').
  - intros d D. exact (in_ready _ Hi' c C d D HC').
  - intros q Q HQ HhQ. by destruct (Hno q Q HQ).
  - intros d D. exact (in_load _ Hi' c C d D HC').
  - intros q Q HQ Ha. destruct (Hno q Q HQ). by eapply awaits_holds.
  - exact (in_exec _ Hi' c C HC').
Qed.

Ltac places := unfold holds, tends, awaits, load_value; cbn; intros; repeat match goal with
  | H : pc _ = _ |- _ => rewrite H in * | H : _ ∨ _ |- _ => destruct H | H : _ ∧ _ |- _ => destruct H end; try done; try congruence.

Section steps.
Context (s : system) (Hi : inv s) (cur : Z) (T : thread) (Hcur : threads s !! cur = Some T).

Lemma holds_program e : pc T = Program e → holds T = child_list T.
Proof. intros Hp. unfold holds. rewrite Hp. apply app_nil_r. Qed.

Lemma not_exec e : pc T = Program e → calling_exec T = false.
Proof. intros Hp. eapply in_exec; [done|done|]. unfold calm. by rewrite Hp. Qed.
Lemma same_children e T' : pc T = Program e → child_list T' = child_list T → (∀ c, pc T' ≠ Created c) → holds T' = holds T.
Proof.
  intros Hp Hk Hn. rewrite (holds_program e Hp). unfold holds. rewrite Hk. destruct (pc T') as [| t | | | | | | |]; try apply app_nil_r. by destruct (Hn t).
Qed.

(** [cur] enters [thread_create] with the new thread [t]. *)
Lemma inv_created t U n (x : bool) :
  threads s !! t = None → child_list U = [] → exit_mutex U = 0 → wait_mutex U = 0 → calling_exec U = false →
  (pc U = Loading ∨ ∃ e, pc U = Program e) → (x = true → load_mutex U = load_value U) → (∃ e, pc T = Program e) →
  inv (with_thread cur (set_exec x (set_pc (Created t) T)) (System (<[t := U]> (threads s)) n (initial_thread s))).
Proof.
  intros Hn Hk He Hw Hx Hpc Hl [e HpT]. pose proof (inv_create s t U n Hi Hn Hk He Hw Hx Hpc) as Hi'.
  assert (Hct : cur ≠ t) by congruence.
  assert (Hcur' : threads (System (<[t := U]> (threads s)) n (initial_thread s)) !! cur = Some T) by (cbn; by rewrite lookup_insert_ne).
  assert (Hnt : ∀ q Q, threads s !! q = Some Q → t ∉ holds Q).
  { intros q Q Hq Hh. destruct (in_alive _ Hi q Q t Hq Hh) as (_ & C & HC & _). congruence. }
  assert (HUh : t ∉ holds U) by (unfold holds; rewrite Hk; destruct Hpc as [->|[? ->]]; apply not_elem_of_nil).
  eapply inv_change; [done|exact Hcur'|].
  assert (Hh : holds (set_exec x (set_pc (Created t) T)) = holds T ++ [t]) by (rewrite (holds_program e HpT); done).
  assert (Hnone : ∀ q Q, threads (System (<[t := U]> (threads s)) n (initial_thread s)) !! q = Some Q → t ∉ holds Q).
  { cbn. intros q Q [[<- <-]|[_ Hq]]%lookup_insert_Some; [done|by eapply Hnt]. }
  split; rewrite ?Hh; try done.
  - intros c [Hc| ->%list_elem_of_singleton]%elem_of_app; [by left|right]. split; [done|]. exists U. cbn. rewrite lookup_insert_eq. done.
  - apply NoDup_app. split_and!; [by eapply in_once|intros c Hc ->%list_elem_of_singleton; by eapply Hnt|apply NoDup_singleton].
  - by left.
  - places.
  - left. destruct (in_wait _ Hi cur T Hcur) as [?|[_ ?]]; [done|congruence].
  - congruence.
  - intros c C [Hc| ->%list_elem_of_singleton]%elem_of_app HC Hr _.
    + eapply (in_ready _ Hi' cur T c C); [done|done|done|done|congruence].
    + cbn in HC. rewrite lookup_insert_eq in HC. injection HC as <-. destruct Hpc as [?|[? ?]]; congruence.
  - intros c C [[=]|[Hxt [= <-]]] HC. cbn in Hxt, HC. rewrite lookup_insert_eq in HC. injection HC as <-. by apply Hl.
  - intros q Q HQ Ha. pose proof (in_load _ Hi' q Q cur T HQ Ha Hcur') as E. unfold load_value in E. rewrite HpT in E. exact E.
Qed.

(** Steps in which [cur] alone changes, and may let go of threads. *)
Lemma inv_plain T' :
  pc T ≠ AwaitReap → pc T' ≠ AwaitReap →
  (∀ c, c ∈ holds T' → c ∈ holds T ∧ pc T ≠ Reaping c) → NoDup (holds T') →
  exit_mutex T' = exit_mutex T → wait_mutex T' = wait_mutex T → load_mutex T' - load_value T' = load_mutex T - load_value T →
  (∀ c, tends T' c → c ∈ child_list T') → (∀ c, pc T' ≠ Reaping c) → (∀ c, awaits T' c → awaits T c) →
  (calm T' → calling_exec T' = false) → inv (with_thread cur T' s).
Proof. intros. eapply inv_change; [done|done|]. by apply change_plain. Qed.

Lemma inv_program e T' :
  pc T = Program e → holds T' = holds T → exit_mutex T' = exit_mutex T → wait_mutex T' = wait_mutex T → load_mutex T' = load_mutex T →
  calling_exec T' = false → (∃ e', pc T' = Program e') ∨ pc T' = Exiting ∨ (∃ c, pc T' = AwaitExit c ∧ c ∈ child_list T') →
  inv (with_thread cur T' s).
Proof.
  intros Hp Hh He Hw Hl Hx Hpc.
  apply inv_plain; rewrite ?Hh, ?He, ?Hw, ?Hl; unfold tends, awaits, load_value; rewrite ?Hp; try done.
  - destruct Hpc as [(e' & ->)|[->|(c & -> & _)]]; done.
  - by eapply in_once.
  - destruct Hpc as [(e' & ->)|[->|(c & -> & _)]]; done.
  - intros c Ht. destruct Hpc as [(e' & E)|[E|(d & E & Hd)]]; rewrite E in Ht; naive_solver.
  - intros c. destruct Hpc as [(e' & ->)|[->|(d & -> & _)]]; done.
  - intros c Ha. destruct Hpc as [(e' & E)|[E|(d & E & _)]]; rewrite E in Ha; naive_solver.
Qed.

Lemma wp_process_execute t e :
  pc T = Program e → t = 0 ∨ (threads s !! t = None ∧ t ≠ initial_thread s) → wp (process_execute cur t) s (λ _ s', inv s').
Proof.
  intros Hp Ht. unfold process_execute. wp_step. eapply wp_update; [done|]. destruct (Z.eqb_spec t 0) as [->|H0].
  - eapply wp_update; [apply with_eq|]. rewrite with_twice. eapply inv_program; [done|by apply (same_children e)|done..|]. left. by eexists.
  - destruct Ht as [?|[Ht _]]; [done|]. unfold thread_create, allocate_tid, put. wp_steps. cbn [threads with_thread].
    assert (cur ≠ t) by congruence.
    eapply wp_update; [cbn; rewrite lookup_insert_ne by done; apply lookup_insert_eq|].
    pose proof (inv_created t (init_thread (next_tid s) Loading) (s32 (next_tid s + 1)) true) as H'. unfold with_thread in *. cbn in *.
    rewrite insert_insert_ne, insert_insert_eq, insert_insert_ne by done. apply H'; try done; [by left|by eexists].
Qed.
Lemma wp_spawn t e :
  pc T = Program e → threads s !! t = None → wp (thread_create cur t (Program None)) s (λ _ s', inv s').
Proof.
  intros Hp Ht. assert (cur ≠ t) by congruence. unfold thread_create, allocate_tid, put. wp_steps.
  eapply wp_update; [cbn; by rewrite lookup_insert_ne|].
  pose proof (inv_created t (init_thread (next_tid s) (Program None)) (s32 (next_tid s + 1)) false) as H'. unfold with_thread in *. cbn in *.
  replace (set_pc (Created t) T) with (set_exec false (set_pc (Created t) T)); [apply H'; try done; [right|]; by eexists|].
  unfold set_exec, set_pc. cbn. by rewrite (not_exec e).
Qed.

(** [process_wait] finds a child or none. *)
Lemma wp_find_child id l (Q : option Z → system → Prop) :
  (∀ c, c ∈ l → is_Some (threads s !! c)) → (∀ o, (∀ c, o = Some c → c ∈ l) → Q o s) → wp (find_child id l) s Q.
Proof.
  revert Q. induction l as [|c l IH]; intros Q Hl HQ; cbn [find_child]; [wp_step; by apply HQ|].
  destruct (Hl c) as [C HC]; [by left|]. wp_step. eapply wp_get; [done|]. destruct (tid C =? id).
  - wp_step. apply HQ. intros d [= <-]. by left.
  - apply IH; [intros d Hd; apply Hl; by right|]. intros o Ho. apply HQ. intros d Hd. right. by apply Ho.
Qed.

Lemma wp_process_wait id e : pc T = Program e → wp (process_wait cur id) s (λ _ s', inv s').
Proof.
  intros Hp. unfold process_wait. wp_step. eapply wp_get; [done|]. wp_step.
  assert (Hkid : ∀ c, c ∈ child_list T → c ≠ cur ∧ is_Some (threads s !! c)).
  { intros c Hc. destruct (in_alive _ Hi cur T c Hcur (holds_child _ _ Hc)) as (? & C & HC & _). split; [done|by exists C]. }
  assert (Hfail : wp (update cur (set_pc (Program (Some (-1))))) s (λ _ s', inv s')).
  { eapply wp_update; [done|]. eapply inv_program; [done|by apply (same_children e)|done..|by apply (not_exec e)|]. left. by eexists. }
  apply wp_find_child; [intros c Hc; by apply Hkid|]. intros [c|] Ho; [|exact Hfail].
  specialize (Ho c eq_refl). destruct (Hkid c Ho) as [Hcc [C HC]]. wp_step. eapply wp_get; [done|].
  destruct (waited_once C); [exact Hfail|]. wp_step. eapply wp_update; [done|]. eapply wp_update; [by rewrite with_ne|].
  rewrite with_comm by done.
  assert (Hi' : inv (with_thread cur (set_pc (AwaitExit c) T) s)).
  { eapply inv_program; [done|by apply (same_children e)|done..|by apply (not_exec e)|]. right. right. by exists c. }
  eapply (inv_change _ c C); [exact Hi'|by rewrite with_ne|]. by apply (change_same _ _ _ _ Hi'); [rewrite with_ne|..].
Qed.

Lemma wp_begin_exit st e : pc T = Program e → wp (begin_exit cur st) s (λ _ s', inv s').
Proof.
  intros Hp. unfold begin_exit. eapply wp_update; [done|]. eapply inv_program; [done|by apply (same_children e)|done..|by apply (not_exec e)|]. by right; left.
Qed.

Lemma wp_start_process ok : pc T = Loading → wp (start_process cur ok) s (λ _ s', inv s').
Proof.
  intros Hp. assert (Hh : holds T = child_list T) by (unfold holds; rewrite Hp; apply app_nil_r).
  assert (Hx : calling_exec T = false) by (eapply in_exec; [done|done|]; unfold calm; by rewrite Hp).
  assert (Hn : NoDup (child_list T)) by (rewrite <-Hh; by eapply in_once).
  unfold start_process. destruct ok; (eapply wp_update; [done|]); apply inv_plain; rewrite ?Hh; unfold holds, tends, awaits, load_value; cbn;
    rewrite ?Hp, ?app_nil_r; try done; try (intros; lia); naive_solver.
Qed.

Lemma held c : c ∈ holds T → c ≠ cur ∧ ∃ C, threads s !! c = Some C ∧ exit_mutex C = 0.
Proof. by apply (in_alive _ Hi cur T c). Qed.
Lemma tended c : tends T c → c ∈ holds T ∧ c ∈ child_list T.
Proof. intros Ht. pose proof (in_tends _ Hi cur T c Hcur Ht). split; [by apply holds_child|done]. Qed.
Lemma my_children : NoDup (child_list T).
Proof. pose proof (in_once _ Hi cur T Hcur) as H. unfold holds in H. by apply NoDup_app in H as [? _]. Qed.

Lemma wp_adopt t : pc T = Created t → wp (adopt cur t) s (λ _ s', inv s').
Proof.
  intros Hp. assert (Hh : holds T = child_list T ++ [t]) by (unfold holds; by rewrite Hp).
  destruct (held t) as (Hne & C & HC & _); [rewrite Hh; apply elem_of_app; right; by left|].
  pose proof (in_once _ Hi cur T Hcur) as Hnd. rewrite Hh in Hnd.
  unfold adopt. wp_step. eapply wp_get; [done|]. destruct (calling_exec T) eqn:Hx.
  - eapply wp_update; [done|]. apply inv_plain; rewrite ?Hh; unfold holds, tends, awaits, load_value, calm; cbn; rewrite ?Hp, ?app_nil_r; try done.
    + intros c [[= <-]|[|[|]]]; try done. apply elem_of_app. right. by left.
    + intros c [[= <-]|[_ ?]]; [by right|done].
  - wp_step. eapply wp_get; [done|]. eapply wp_update; [done|].
    apply inv_plain; rewrite ?Hh; unfold holds, tends, awaits, load_value, calm; cbn; rewrite ?Hp, ?app_nil_r; try done.
    + intros c Hc. split; [apply elem_of_app; by left|done].
    + by apply NoDup_app in Hnd as [? _].
    + intros c [|[|[|]]]; done.
    + intros c [|[_ ?]]; done.
Qed.

Lemma wp_await_load t : pc T = AwaitLoad t →
  wp (sema_down load_mutex set_load t (update cur (set_pc (CheckLoad t)))) s (λ _ s', inv s').
Proof.
  intros Hp. destruct (tended t) as [Hh Hk]; [by left|]. destruct (held t Hh) as (Hne & C & HC & HeC).
  unfold sema_down. wp_step. eapply wp_get; [done|]. destruct (Z.eqb_spec (load_mutex C) 0) as [E|E]; [by wp_step|].
  unfold put. wp_step. wp_step. fold (with_thread t (set_load (load_mutex C - 1) C) s). eapply wp_update; [by rewrite with_ne|].
  rewrite with_comm by done.
  assert (Hh' : holds T = child_list T) by (unfold holds; rewrite Hp; apply app_nil_r).
  assert (Hi' : inv (with_thread cur (set_pc (CheckLoad t) T) s)).
  { apply inv_plain; rewrite ?Hh'; unfold holds, tends, awaits, load_value, calm; cbn; rewrite ?Hp, ?app_nil_r; try done.
    - apply my_children.
    - intros c [|[[= <-]|[|]]]; done.
    - intros c [|[_ ?]]; done. }
  eapply (inv_change _ t C); [exact Hi'|by rewrite with_ne|].
  assert (HC' : threads (with_thread cur (set_pc (CheckLoad t) T) s) !! t = Some C) by (by rewrite with_ne).
  split.
  - intros c Hc. by left.
  - exact (in_once _ Hi' t C HC').
  - by left.
  - intros c. exact (in_tends _ Hi' t C c HC').
  - exact (in_wait _ Hi' t C HC').
  - done.
  - intros c D. exact (in_reap _ Hi' t C c D HC').
  - intros c D. exact (in_ready _ Hi' t C c D HC').
  - intros q Q Hq Hhq Hr Hnr. by eapply (in_ready _ Hi' q Q t C).
  - intros c D. exact (in_load _ Hi' t C c D HC').
  - intros q Q Hq Ha. exfalso. destruct (decide (q = cur)) as [->|Hqc].
    + rewrite with_eq in Hq. injection Hq as <-. destruct Ha as [|[_ ?]]; done.
    + rewrite with_ne in Hq by done. apply Hqc. exact (in_one _ Hi q cur Q T t Hq Hcur (awaits_holds s q Q t Hi Hq Ha) Hh).
  - exact (in_exec _ Hi' t C HC').
Qed.

Lemma wp_check_load t : pc T = CheckLoad t → wp (check_load cur t) s (λ _ s', inv s').
Proof.
  intros Hp. destruct (tended t) as [Hh Hk]; [by right; left|]. destruct (held t Hh) as (Hne & C & HC & HeC).
  assert (Hh' : holds T = child_list T) by (unfold holds; rewrite Hp; apply app_nil_r).
  assert (Hgo : ∀ l, (∀ c, c ∈ l → c ∈ child_list T) → NoDup l →
    inv (with_thread cur (set_exec false (set_pc (Program (Some (tid C))) (set_children l T))) s)).
  { intros l Hl Hnd. apply inv_plain; rewrite ?Hh'; unfold holds, tends, awaits, load_value, calm; cbn; rewrite ?Hp, ?app_nil_r; try done.
    - intros c Hc. split; [by apply Hl|done].
    - intros c [|[|[|]]]; done.
    - intros c [|[_ ?]]; done. }
  unfold check_load. wp_step. eapply wp_get; [done|]. wp_step. destruct (tid C =? TID_ERROR).
  - eapply wp_update; [done|]. eapply wp_update; [apply with_eq|]. rewrite with_twice.
    apply (Hgo (filter (λ c, c ≠ t) (child_list T))); [intros c Hc; by apply list_elem_of_filter in Hc as [_ ?]|apply NoDup_filter, my_children].
  - wp_step. eapply wp_update; [done|]. replace T with (set_children (child_list T) T) at 1 by (by destruct T).
    apply Hgo; [done|apply my_children].
Qed.

Lemma wp_await_exit c : pc T = AwaitExit c →
  wp (sema_down wait_mutex set_wait c (update cur (set_pc (Reaping c)))) s (λ _ s', inv s').
Proof.
  intros Hp. destruct (tended c) as [Hh Hk]; [by do 2 right; left|]. destruct (held c Hh) as (Hne & C & HC & HeC).
  unfold sema_down. wp_step. eapply wp_get; [done|]. destruct (Z.eqb_spec (wait_mutex C) 0) as [E|E]; [by wp_step|].
  destruct (in_wait _ Hi c C HC) as [?|[Hw1 HpC]]; [done|].
  unfold put. wp_step. wp_step. fold (with_thread c (set_wait (wait_mutex C - 1) C) s). eapply wp_update; [by rewrite with_ne|].
  rewrite with_comm by done.
  assert (Hh' : holds T = child_list T) by (unfold holds; rewrite Hp; apply app_nil_r).
  assert (Hi' : inv (with_thread cur (set_pc (Reaping c) T) s)).
  { eapply inv_change; [done|done|]. split; unfold holds, tends, awaits, load_value, calm; cbn; rewrite ?Hp, ?app_nil_r; try done.
    - intros d Hd. left. exact Hd.
    - apply my_children.
    - by left.
    - intros d [|[|[|[= <-]]]]; done.
    - left. destruct (in_wait _ Hi cur T Hcur) as [?|[_ ?]]; [done|congruence].
    - intros d D [= <-] HD. congruence.
    - intros d D Hd HD HpD _. eapply (in_ready _ Hi cur T d D); [done|by apply holds_child|done|done|congruence].
    - intros d D [|[_ ?]]; done.
    - intros q Q Hq Ha. pose proof (in_load _ Hi q Q cur T Hq Ha Hcur) as El. unfold load_value in El. by rewrite Hp in El.
    - intros _. eapply in_exec; [done|done|]. unfold calm. by rewrite Hp. }
  assert (HC' : threads (with_thread cur (set_pc (Reaping c) T) s) !! c = Some C) by (by rewrite with_ne).
  eapply (inv_change _ c C); [exact Hi'|exact HC'|]. split.
  - intros d Hd. by left.
  - exact (in_once _ Hi' c C HC').
  - by left.
  - intros d. exact (in_tends _ Hi' c C d HC').
  - left. cbn. lia.
  - done.
  - intros d D. exact (in_reap _ Hi' c C d D HC').
  - intros d D. exact (in_ready _ Hi' c C d D HC').
  - intros q Q Hq Hhq _ Hnr. exfalso. destruct (decide (q = cur)) as [->|Hqc].
    + rewrite with_eq in Hq. injection Hq as <-. by apply Hnr.
    + rewrite with_ne in Hq by done. apply Hqc. exact (in_one _ Hi q cur Q T c Hq Hcur Hhq Hh).
  - intros d D. exact (in_load _ Hi' c C d D HC').
  - intros q Q Hq Ha. exact (in_load _ Hi' q Q c C Hq Ha HC').
  - exact (in_exec _ Hi' c C HC').
Qed.

Lemma wp_reap c C : pc T = Reaping c → threads s !! c = Some C →
  wp (reap cur c) s (λ _ s', inv s' ∧ s' = with_thread c (set_reap (exit_mutex C + 1) C)
    (with_thread cur (set_pc (Program (Some (exit_status C))) (set_children (filter (λ d, d ≠ c) (child_list T)) T)) s)).
Proof.
  intros Hp HC. destruct (tended c) as [Hh Hk]; [by do 3 right|]. destruct (held c Hh) as (Hne & C0 & HC0 & HeC). simplify_eq.
  assert (Hh' : holds T = child_list T) by (unfold holds; rewrite Hp; apply app_nil_r).
  set (T' := set_pc (Program (Some (exit_status C))) (set_children (filter (λ d, d ≠ c) (child_list T)) T)).
  assert (HhT' : holds T' = filter (λ d, d ≠ c) (child_list T)) by (unfold holds; cbn; apply app_nil_r).
  assert (Hch : change s cur T T').
  { apply change_plain; rewrite ?HhT', ?Hh'; unfold tends, awaits, load_value, calm; cbn; rewrite ?Hp; try done.
    - intros d [Hd ?]%list_elem_of_filter. split; [done|]. intros [= ->]. done.
    - apply NoDup_filter, my_children.
    - intros d [|[|[|]]]; done.
    - intros d [|[_ ?]]; done.
    - intros _. eapply in_exec; [done|done|]. unfold calm. by rewrite Hp. }
  unfold reap. wp_step. eapply wp_get; [done|]. wp_step. eapply wp_update; [done|]. wp_step. eapply wp_update; [by rewrite with_ne|].
  eapply wp_update; [rewrite with_ne by done; apply with_eq|]. rewrite with_comm, with_twice by done. split; [|done].
  eapply inv_release; [done|done|exact Hch|done|by rewrite Hh'| |].
  - fold T'. rewrite HhT'. by intros [? _]%list_elem_of_filter.
  - intros d. fold T'. rewrite HhT', Hh'. by intros [_ ?]%list_elem_of_filter.
Qed.

Lemma wp_exit_step : pc T = Exiting → wp (exit_step cur) s (λ _ s', inv s').
Proof.
  intros Hp. assert (Hh : holds T = child_list T) by (unfold holds; rewrite Hp; apply app_nil_r).
  assert (Hx : calling_exec T = false) by (eapply in_exec; [done|done|]; unfold calm; by rewrite Hp).
  pose proof my_children as Hnd. unfold exit_step. wp_step. eapply wp_get; [done|]. destruct (child_list T) as [|c l] eqn:Hk.
  - eapply wp_update; [done|]. eapply inv_change; [done|done|].
    assert (Hw : wait_mutex T = 0) by (destruct (in_wait _ Hi cur T Hcur) as [?|[_ ?]]; [done|congruence]).
    split; unfold holds, tends, awaits, load_value; cbn; rewrite ?Hk; try done.
    + intros d Hd. by apply not_elem_of_nil in Hd.
    + by left.
    + intros d [|[|[|]]]; done.
    + right. split; [lia|done].
    + intros d D Hd. by apply not_elem_of_nil in Hd.
    + intros q Q Hq Hhq _ _. lia.
    + intros d D [|[_ ?]]; done.
    + intros q Q Hq Ha. pose proof (in_load _ Hi q Q cur T Hq Ha Hcur) as El. unfold load_value in El. by rewrite Hp in El.
  - apply NoDup_cons in Hnd as [Hcl Hnd]. assert (Hc : c ∈ holds T) by (rewrite Hh; by left). destruct (held c Hc) as (Hne & C & HC & HeC).
    wp_step. eapply wp_update; [done|]. eapply wp_update; [by rewrite with_ne|].
    assert (HhT' : holds (set_children l T) = l) by (unfold holds; cbn; rewrite Hp; apply app_nil_r).
    assert (Hsub : ∀ d, d ∈ holds (set_children l T) → d ∈ holds T) by (intros d; rewrite HhT', Hh; by right).
    eapply inv_release; [done|done| |done|done|by rewrite HhT'|done].
    apply change_plain; rewrite ?HhT'; unfold tends, awaits, load_value; cbn; rewrite ?Hp; try done.
    + intros d Hd. split; [apply Hsub; by rewrite HhT'|done].
    + intros d [|[|[|]]]; done.
Qed.

Lemma wp_await_reap : pc T = AwaitReap → wp (sema_down exit_mutex set_reap cur (free_thread cur)) s (λ _ s', inv s').
Proof.
  intros Hp. unfold sema_down. wp_step. eapply wp_get; [done|]. destruct (Z.eqb_spec (exit_mutex T) 0) as [E|E]; [by wp_step|].
  unfold put, free_thread. wp_steps. cbn. rewrite delete_insert_eq. apply inv_free; [done|].
  intros q Q Hq Hh. destruct (in_alive _ Hi q Q cur Hq Hh) as (_ & C & HC & HeC). congruence.
Qed.
End steps.

(** Every step that a thread can take returns, and keeps the invariant. *)
Lemma wp_act s a : inv s → possible s a → wp (act a) s (λ _ s', inv s').
Proof.
  intros Hi [[T HT] Hf]. unfold act, in_program.
  destruct a as [cur t|cur t|cur ok|cur id|cur st|cur]; cbn [actor fresh] in *; wp_step; (eapply wp_get; [done|]);
    destruct (pc T) eqn:Hp; try (by wp_step).
  - by eapply wp_process_execute.
  - by eapply wp_spawn; [..|apply Hf].
  - by eapply wp_start_process.
  - by eapply wp_process_wait.
  - by eapply wp_begin_exit.
  - by eapply wp_adopt.
  - by eapply wp_await_load.
  - by eapply wp_check_load.
  - by eapply wp_await_exit.
  - destruct (held s Hi cur T HT child) as (_ & C & HC & _); [apply holds_child; eapply in_tends; [done|done|by do 3 right]|].
    eapply wp_mono; [by eapply wp_reap|]. by intros [] s' [? _].
  - by eapply wp_exit_step.
  - by eapply wp_await_reap.
Qed.

Lemma initial_inv main : inv (initial main).
Proof.
  unfold initial. change ({[main := init_thread 1 (Program None)]}) with (<[main := init_thread 1 (Program None)]> (∅ : gmap Z thread)).
  apply (inv_create (System ∅ 2 main)); [|apply lookup_empty|done|done|done|done|right; by eexists].
  split; cbn [threads]; intros *; by rewrite lookup_empty.
Qed.
Lemma reachable_states_inv main s : reachable main s → inv s.
Proof.
  induction 1 as [|s a s' _ IH Hp E]; [apply initial_inv|].
  apply wp_act in Hp; [|done]. apply wp_ok in Hp as ([] & s'' & E' & Hi). congruence.
Qed.

(** ** Results *)
Section results.
Context (main : Z).
Implicit Types (s : system).

(** C10: exec, wait and exit never touch the structure of a thread that has been
    freed, however the steps of the threads are interleaved: in every state that can
    be reached, every step that a thread can take returns. *)
Theorem process_safe s a : reachable main s → possible s a → ∃ s', act a s = Ok (tt, s') ∧ reachable main s'.
Proof.
  intros Hr Hp. destruct (proj1 (wp_ok _ _ _) (wp_act s a (reachable_states_inv main s Hr) Hp)) as ([] & s' & E & _).
  exists s'. split; [done|]. by eapply reach_step.
Qed.

(** C16: a parent that waits for a child goes on as soon as the child has ended, its
    call returns the status with which the child ended, the child leaves the list of
    children and its structure may be freed; while the child has not ended, the
    parent stays where it is. *)
Theorem wait_status s p P c C :
  reachable main s → threads s !! p = Some P → threads s !! c = Some C → pc P = AwaitExit c →
  if decide (pc C = AwaitReap) then
    ∃ s1 s2 P2 C2, act (Continue p) s = Ok (tt, s1) ∧ act (Continue p) s1 = Ok (tt, s2) ∧
      threads s2 !! p = Some P2 ∧ threads s2 !! c = Some C2 ∧
      pc P2 = Program (Some (exit_status C)) ∧ c ∉ child_list P2 ∧ exit_mutex C2 = 1
  else act (Continue p) s = Ok (tt, s).
Proof.
  intros Hr HP HC Hpc. pose proof (reachable_states_inv main s Hr) as Hi.
  assert (Hk : c ∈ child_list P) by (eapply in_tends; [done|done|by do 2 right; left]).
  destruct (in_alive _ Hi p P c HP (holds_child _ _ Hk)) as (Hne & C0 & HC0 & HeC). simplify_eq.
  assert (Hact : ∀ s T, threads s !! p = Some T → act (Continue p) s = match pc T with
      | Created t => adopt p t | AwaitLoad t => sema_down load_mutex set_load t (update p (set_pc (CheckLoad t)))
      | CheckLoad t => check_load p t | AwaitExit c => sema_down wait_mutex set_wait c (update p (set_pc (Reaping c)))
      | Reaping c => reap p c | Exiting => exit_step p | AwaitReap => sema_down exit_mutex set_reap p (free_thread p)
      | _ => mret tt end s).
  { intros s0 T HT. unfold act, get, gets, mbind at 1, M_bind at 1. cbn. unfold mbind, M_bind. cbn. by rewrite HT. }
  destruct (decide (pc C = AwaitReap)) as [Hend|Hend].
  - assert (Hw : wait_mutex C = 1) by (eapply (in_ready _ Hi p P c C); [done|by apply holds_child|done|done|congruence]).
    set (s1 := with_thread p (set_pc (Reaping c) P) (with_thread c (set_wait 0 C) s)).
    assert (E1 : act (Continue p) s = Ok (tt, s1)).
    { rewrite (Hact s P HP), Hpc. apply wp_det_ok. unfold sema_down. wp_step. eapply wp_get; [done|]. rewrite Hw. cbn.
      unfold put. wp_step. wp_step. eapply wp_update; [cbn; by rewrite lookup_insert_ne|]. done. }
    assert (Hr1 : reachable main s1) by (eapply reach_step; [exact Hr| |exact E1]; split; [by exists P|done]).
    assert (HP1 : threads s1 !! p = Some (set_pc (Reaping c) P)) by apply with_eq.
    assert (HC1 : threads s1 !! c = Some (set_wait 0 C)) by (unfold s1; rewrite with_ne by done; apply with_eq).
    destruct (proj1 (wp_ok _ _ _) (wp_reap s1 (reachable_states_inv _ _ Hr1) p _ HP1 c _ eq_refl HC1)) as ([] & s2 & E2 & _ & ->).
    eexists s1, _, _, _. split_and!; [exact E1|rewrite (Hact s1 _ HP1); exact E2|rewrite with_ne by done; apply with_eq|apply with_eq|done| |].
    + cbn. by intros [? _]%list_elem_of_filter.
    + cbn. lia.
  - rewrite (Hact s P HP), Hpc. apply wp_det_ok. unfold sema_down. wp_step. eapply wp_get; [done|].
    destruct (in_wait _ Hi c C HC) as [->|[_ ?]]; [|done]. rewrite Z.eqb_refl. by wp_step.
Qed.
End results.

(** ** Runs *)
Definition possibleb (s : system) (a : action) : bool :=
  bool_decide (is_Some (threads s !! actor a)) &&
  match a with
  | Exec _ t => (t =? 0) || bool_decide (threads s !! t = None ∧ t ≠ initial_thread s)
  | Spawn _ t => negb (t =? 0) && bool_decide (threads s !! t = None ∧ t ≠ initial_thread s)
  | _ => true
  end.
Fixpoint run (l : list action) (s : system) : option system :=
  match l with
  | [] => Some s
  | a :: l => if possibleb s a then match act a s with Ok (_, s') => run l s' | Err _ => None end else None
  end.

#[local] Instance thread_eq_dec : EqDecision thread.
Proof. solve_decision. Defined.

Lemma possibleb_sound s a : possibleb s a = true → possible s a.
Proof.
  unfold possibleb, possible, fresh. rewrite andb_true_iff, bool_decide_eq_true. intros [H1 H2]. split; [done|].
  destruct a; try done; [apply orb_true_iff in H2 as [?%Z.eqb_eq|?%bool_decide_eq_true]; [by left|by right]|].
  apply andb_true_iff in H2 as [?%negb_true_iff%Z.eqb_neq ?%bool_decide_eq_true]. done.
Qed.
Lemma run_reachable main l s s' : reachable main s → run l s = Some s' → reachable main s'.
Proof.
  revert s. induction l as [|a l IH]; intros s Hr E; simpl in E; [by injection E as <-|].
  destruct (possibleb s a) eqn:Hp; [|done]. destruct (act a s) as [[[] s1]|] eqn:Ea; [|done].
  eapply IH; [|exact E]. eapply reach_step; [exact Hr|by apply possibleb_sound|done].
Qed.

(** Thread 1 executes 2, which exits with 7 while 1 waits for it. *)
Definition ex_run : list action :=
  [Exec 1 2; Continue 1; Load 2 true; Continue 1; Continue 1; Wait 1 2; Exit 2 7; Continue 2].

Lemma process_safe_witness : ∃ s', act (Exec 1 2) (initial 1) = Ok (tt, s') ∧ reachable 1 s'.
Proof.
  apply (process_safe 1 (initial 1) (Exec 1 2)).
  - apply reach_init. discriminate.
  - apply possibleb_sound. reflexivity.
Defined.

Lemma wait_status_witness :
  ∃ s s1 s2 P2, run ex_run (initial 1) = Some s ∧ act (Continue 1) s = Ok (tt, s1) ∧ act (Continue 1) s1 = Ok (tt, s2) ∧
    threads s2 !! 1 = Some P2 ∧ pc P2 = Program (Some 7).
Proof.
  destruct (run ex_run (initial 1)) as [s|] eqn:E; [|discriminate E].
  assert (Hr : reachable 1 s) by (eapply run_reachable; [apply reach_init; discriminate|exact E]).
  injection E as <-. cbn in Hr.
  match type of Hr with reachable _ ?x => set (s := x) in * end.
  destruct (threads s !! 1) as [P|] eqn:HP; [|discriminate HP]. destruct (threads s !! 2) as [C|] eqn:HC; [|discriminate HC].
  pose proof (wait_status 1 s 1 P 2 C Hr HP HC) as H. injection HP as <-. injection HC as <-. specialize (H eq_refl). cbn in H.
  destruct H as (s1 & s2 & P2 & C2 & E1 & E2 & HP2 & _ & Hpc & _).
  exists s, s1, s2, P2. split; [reflexivity|]. split; [exact E1|]. split; [exact E2|]. split; [exact HP2|exact Hpc].
Defined.

(** A child that cannot be loaded, and a thread that was not started by exec, wait
    for ever to be let go, and their pages are never freed: all threads have ended,
    and nobody has a pointer to 2 and 3. *)
Lemma orphans_stay :
  match run [Exec 1 2; Continue 1; Load 2 false; Continue 1; Continue 1; Continue 2; Spawn 1 3; Continue 1; Exit 3 0; Continue 3;
             Exit 1 0; Continue 1; Continue 2; Continue 3] (initial 1) with
  | Some s => forallb (λ t, match threads s !! t with
      | Some T => bool_decide (pc T = AwaitReap) && (exit_mutex T =? 0) && bool_decide (child_list T = [])
      | None => false end) [1; 2; 3]
  | None => false
  end = true.
Proof. vm_compute. reflexivity. Qed.
