(* ===== verification/Boot.v ===== *)
(** * threads/init.c: starting the kernel

    The page tables of the kernel ([paging_init]) on the memory of the page
    allocator; the command line that the loader leaves, its options and its actions;
    and the choice of block devices.  Symbols of the linker and the addresses of
    string literals are arguments.  Messages on the console are left out. *)
From stdpp Require Import strings.
From S2P Require Import Prelude Bitmap Mem CString CStdlib CStdio Vaddr Palloc Pagedir Random Block.
Local Open Scope Z_scope.

(** ** Page tables *)
Section paging.
Context (_start _end_kernel_text init_ram_pages : Z).

(** One turn of the loop; [pt] is the variable of [paging_init]. *)
Definition map_page (pd page pt : Z) : M mmu Z :=
  let paddr := u32 (page * PGSIZE) in
  vaddr ← ptov paddr;
  let pde_idx := pd_no vaddr in
  let pte_idx := pt_no vaddr in
  let in_kernel_text := (_start <=? vaddr) && (vaddr <? _end_kernel_text) in
  e ← on_mem (load32 (pd + 4 * pde_idx));
  pt ← (if e =? 0 then
          pt ← on_frames (palloc_get_page (Z.lor PAL_ASSERT PAL_ZERO));
          v ← pde_create pt;
          on_mem (store32 (pd + 4 * pde_idx) v) ;;
          mret pt
        else mret pt);
  v ← pte_create_kernel vaddr (negb in_kernel_text);
  on_mem (store32 (pt + 4 * pte_idx) v) ;;
  mret pt.

(** The result is [init_page_dir]. *)
Definition paging_init : M mmu Z :=
  pd ← on_frames (palloc_get_page (Z.lor PAL_ASSERT PAL_ZERO));
  loop (S (Z.to_nat init_ram_pages)) (λ '(page, pt),
    if page <? init_ram_pages then
      pt ← map_page pd page pt;
      mret (inl (page + 1, pt))
    else mret (inr tt)) (0, 0) ;;
  p ← vtop pd;
  modify (λ s, Mmu (frames s) p (cr3_loads s + 1)) ;;
  mret pd.
End paging.

(** ** The command line *)
Definition LOADER_END : Z := 32256.
Definition LOADER_SIG_LEN : Z := 2.
Definition LOADER_PARTS_LEN : Z := 64.
Definition LOADER_ARGS_LEN : Z := 128.
Definition LOADER_ARG_CNT_LEN : Z := 4.
Definition LOADER_SIG : Z := LOADER_END - LOADER_SIG_LEN.
Definition LOADER_PARTS : Z := LOADER_SIG - LOADER_PARTS_LEN.
Definition LOADER_ARGS : Z := LOADER_PARTS - LOADER_ARGS_LEN.
Definition LOADER_ARG_CNT : Z := LOADER_ARGS - LOADER_ARG_CNT_LEN.

Definition SHUTDOWN_NONE : Z := 0.
Definition SHUTDOWN_POWER_OFF : Z := 1.
Definition SHUTDOWN_REBOOT : Z := 2.

(** The memory with the command line, the static array [argv] of
    [read_command_line], and the variables that options set: those of init.c,
    [thread_mlfqs] of thread.c, [how] of shutdown.c, the generator of random.c. *)
Record startup := Startup {
  low : mem; argv : list Z;
  format_filesys : bool; filesys_bdev_name : Z; scratch_bdev_name : Z; user_page_limit : Z;
  thread_mlfqs : bool; how : Z; rnd : rng }.

Definition set_low (m : mem) (b : startup) : startup :=
  Startup m (argv b) (format_filesys b) (filesys_bdev_name b) (scratch_bdev_name b) (user_page_limit b) (thread_mlfqs b) (how b) (rnd b).
Definition set_argv (l : list Z) (b : startup) : startup :=
  Startup (low b) l (format_filesys b) (filesys_bdev_name b) (scratch_bdev_name b) (user_page_limit b) (thread_mlfqs b) (how b) (rnd b).
Definition set_format (f : bool) (b : startup) : startup :=
  Startup (low b) (argv b) f (filesys_bdev_name b) (scratch_bdev_name b) (user_page_limit b) (thread_mlfqs b) (how b) (rnd b).
Definition set_filesys (p : Z) (b : startup) : startup :=
  Startup (low b) (argv b) (format_filesys b) p (scratch_bdev_name b) (user_page_limit b) (thread_mlfqs b) (how b) (rnd b).
Definition set_scratch (p : Z) (b : startup) : startup :=
  Startup (low b) (argv b) (format_filesys b) (filesys_bdev_name b) p (user_page_limit b) (thread_mlfqs b) (how b) (rnd b).
Definition set_limit (n : Z) (b : startup) : startup :=
  Startup (low b) (argv b) (format_filesys b) (filesys_bdev_name b) (scratch_bdev_name b) n (thread_mlfqs b) (how b) (rnd b).
Definition set_mlfqs (f : bool) (b : startup) : startup :=
  Startup (low b) (argv b) (format_filesys b) (filesys_bdev_name b) (scratch_bdev_name b) (user_page_limit b) f (how b) (rnd b).
Definition shutdown_configure (type : Z) : M startup unit :=
  modify (λ b, Startup (low b) (argv b) (format_filesys b) (filesys_bdev_name b) (scratch_bdev_name b) (user_page_limit b)
    (thread_mlfqs b) type (rnd b)).
Definition set_rnd (r : rng) (b : startup) : startup :=
  Startup (low b) (argv b) (format_filesys b) (filesys_bdev_name b) (scratch_bdev_name b) (user_page_limit b) (thread_mlfqs b) (how b) r.

Definition on_low {A} (m : M mem A) : M startup A := zoom low set_low m.
Definition on_rnd {A} (m : M rng A) : M startup A := zoom rnd set_rnd m.

(** [argv[i] = p] *)
Definition put_arg (i p : Z) : M startup unit :=
  a ← gets argv;
  if decide (0 ≤ i < Z.of_nat (length a)) then modify (set_argv (<[Z.to_nat i := p]> a)) else throw EFault.

(** The result is an index of [argv], as in the functions below. *)
Definition read_command_line : M startup nat :=
  c ← ptov LOADER_ARG_CNT;
  argc ← on_low (load32 c);
  let argc := s32 argc in
  args ← ptov LOADER_ARGS;
  let end_ := args + LOADER_ARGS_LEN in
  loop (S (Z.to_nat argc)) (λ '(i, p),
    if i <? argc then
      if end_ <=? p then PANIC
      else
        put_arg i p ;;
        n ← on_low (strnlen p (end_ - p));
        mret (inl (i + 1, p + n + 1))
    else mret (inr tt)) (0, args) ;;
  put_arg argc 0 ;;
  mret O.

Section command_line.
(** Where the string literals of the program are, and the time of [rtc_get_time]. *)
Context (lit : string → Z) (now : Z).

(** A chain of [if (!strcmp (name, ...)) ... else], with the [PANIC] at its end. *)
Fixpoint dispatch {A} (name : Z) (cases : list (string * M startup A)) : M startup A :=
  match cases with
  | [] => PANIC
  | (s, act) :: cases =>
      c ← on_low (strcmp name (lit s));
      if c =? 0 then act else dispatch name cases
  end.

(** One option; the result is false when [usage] has powered off the machine. *)
Definition parse_option (arg : Z) : M startup bool :=
  '(name, save_ptr) ← on_low (strtok_r arg (lit "=") 0);
  '(value, _) ← on_low (strtok_r 0 (lit "") save_ptr);
  dispatch name
    [("-h", mret false);
     ("-q", shutdown_configure SHUTDOWN_POWER_OFF ;; mret true);
     ("-r", shutdown_configure SHUTDOWN_REBOOT ;; mret true);
     ("-f", modify (set_format true) ;; mret true);
     ("-filesys", modify (set_filesys value) ;; mret true);
     ("-scratch", modify (set_scratch value) ;; mret true);
     ("-rs", n ← on_low (atoi value); on_rnd (random_init (u32 n)) ;; mret true);
     ("-mlfqs", modify (set_mlfqs true) ;; mret true);
     ("-ul", n ← on_low (atoi value); modify (set_limit (u32 n)) ;; mret true)]%string.

Definition parse_options (i : nat) : M startup (option nat) :=
  n ← gets (λ b, length (argv b));
  r ← loop (S n) (λ i,
    a ← gets argv;
    p ← the (a !! i);
    if p =? 0 then mret (inr (Some i))
    else
      c ← on_low (load p);
      if c =? 45 then
        go_on ← parse_option p;
        mret (if (go_on : bool) then inl (S i) else inr None)
      else mret (inr (Some i))) i;
  match (r : option nat) with
  | Some i => on_rnd (random_init (u32 now)) ;; mret (Some i)
  | None => mret None
  end.

(** [run_task] and the functions of fsutil.c, which get the place of the action in
    [argv]. *)
Context (function : string → nat → M startup unit).

Definition actions : list (string * nat) :=
  [("run", 2%nat); ("ls", 1%nat); ("cat", 2%nat); ("rm", 2%nat); ("extract", 1%nat); ("append", 2%nat)]%string.

(** The check for required arguments. *)
Fixpoint check_args (i n : nat) : M startup unit :=
  match n with
  | O => mret tt
  | S n =>
      a ← gets argv;
      p ← the (a !! i);
      if p =? 0 then PANIC else check_args (S i) n
  end.

Definition run_actions (i : nat) : M startup unit :=
  n ← gets (λ b, length (argv b));
  loop (S n) (λ i,
    a ← gets argv;
    p ← the (a !! i);
    if p =? 0 then mret (inr tt)
    else
      '(name, argc) ← dispatch p ((λ '(name, argc), (name, mret (name, argc))) <$> actions);
      check_args (S i) (pred argc) ;;
      function name i ;;
      mret (inl (i + argc)%nat)) i.
End command_line.

(** ** The roles of block devices *)

(** The first device from [block] on that has the type [role]. *)
Fixpoint find_type (fuel : nat) (role : Z) (block : option nat) : M blocks (option nat) :=
  match fuel, block with
  | _, None => mret None
  | O, Some _ => throw EFuel
  | S fuel, Some b =>
      t ← block_type b;
      if t =? role then mret (Some b)
      else next ← block_next b; find_type fuel role next
  end.

(** [name] is the string of the option, if there was one. *)
Definition locate_block_device (role : Z) (name : option (list Z)) : M blocks unit :=
  block ← match name with
    | Some name =>
        block ← block_get_by_name name;
        match (block : option nat) with Some b => mret (Some b) | None => PANIC end
    | None =>
        n ← gets (λ t, length (all_blocks t));
        first ← block_first;
        find_type n role first
    end;
  match (block : option nat) with
  | Some b => block_set_role role (Some b)
  | None => mret tt
  end.

Definition locate_block_devices (filesys scratch : option (list Z)) : M blocks unit :=
  locate_block_device BLOCK_FILESYS filesys ;;
  locate_block_device BLOCK_SCRATCH scratch.
