(* ===== verification/BootProps.v ===== *)
(** * The page tables of the kernel

    What [paging_init] leaves, as the processor reads it, and that the directories of
    processes share it. *)
From stdpp Require Import strings.
From S2P Require Import Prelude Bitmap BitmapFacts BitmapProps Mem CString CStringFacts CStdlib CStdlibFacts Random Vaddr Palloc PallocFacts PallocProps Pagedir PagedirFacts PagedirProps CStdio Block Boot.
Local Open Scope Z_scope.

(** ** What the processor makes of the page tables

    Physical memory is mapped at [PHYS_BASE], so the word at the physical address
    [p] is the one at [p + PHYS_BASE]. *)
Record access := Access { acc_phys : Z; acc_write : bool; acc_user : bool }.

Definition flag (mask e : Z) : bool := negb (Z.land e mask =? 0).
Definition hw_walk (s : mmu) (va : Z) : option access :=
  let pde := word (mram s) (cr3 s + PHYS_BASE + 4 * (va `div` 4194304)) in
  if flag PTE_P pde then
    let pte := word (mram s) (Z.land pde PTE_ADDR + PHYS_BASE + 4 * ((va `div` 4096) `mod` 1024)) in
    if flag PTE_P pte then
      Some (Access (Z.land pte PTE_ADDR + va `mod` 4096) (flag PTE_W pde && flag PTE_W pte) (flag PTE_U pde && flag PTE_U pte))
    else None
  else None.

Section paging.
Context (_start _end_kernel_text init_ram_pages : Z).
Implicit Types (pd pt va : Z).

Definition in_text (va : Z) : bool := (_start <=? va) && (va <? _end_kernel_text).
(** The entry of page [i] of the physical memory. *)
Definition kernel_pte (i : Z) : Z := 4096 * i + (if in_text (PHYS_BASE + 4096 * i) then 1 else 3).

(** The first [k] pages are mapped by the directory [pd] and the tables [ts]. *)
Record mapped_upto (s0 : pal) (pd : Z) (ts : list Z) (k : Z) (s : mmu) : Prop := {
  mu_pal : pal_ok (frames s);
  mu_bytes : bytes_ok (mram s);
  mu_layout : same_layout s0 (frames s);
  mu_nodup : NoDup (pd :: ts);
  mu_new : ∀ a, a ∈ pd :: ts → ¬ used KPool s0 a;
  mu_used : ∀ a, used KPool (frames s) a ↔ used KPool s0 a ∨ a ∈ pd :: ts;
  mu_user : ∀ a, used UPool (frames s) a ↔ used UPool s0 a;
  mu_pd : ∀ j, 0 ≤ j < 1024 →
    word (mram s) (pd + 4 * j) = if j <? 768 then 0 else match ts !! Z.to_nat (j - 768) with Some t => t - PHYS_BASE + 7 | None => 0 end;
  mu_pt : ∀ i t q, ts !! i = Some t → 0 ≤ q < 1024 →
    word (mram s) (t + 4 * q) = let n := 1024 * Z.of_nat i + q in if n <? k then kernel_pte n else 0;
  mu_frame : ∀ x, (∀ a, a ∈ pd :: ts → ¬ a ≤ x < a + 4096) → mram s !! x = ram s0 !! x;
}.

Lemma wp_pte_create_kernel {S} pg (w : bool) (s : S) (Q : Z → S → Prop) :
  pg `mod` 4096 = 0 → PHYS_BASE ≤ pg < 2 ^ 32 → Q (pg - PHYS_BASE + (if w then 3 else 1)) s →
  wp (pte_create_kernel pg w) s Q.
Proof.
  intros Hal Hr HQ. unfold pte_create_kernel. wp_step. apply wp_assert; [rewrite pg_ofs_mod; by apply Z.eqb_eq|].
  wp_step. apply wp_vtop; [done|]. wp_steps. rewrite <- !Z.lor_assoc.
  assert (Z.lor PTE_P (if w then PTE_W else 0) = if w then 3 else 1) as -> by (by destruct w).
  rewrite lor_flags; [done| |destruct w; lia]. unfold PHYS_BASE. rewrite Zminus_mod, Hal. done.
Qed.

(** A free page of the kernel pool is found. *)
Definition room (P : pal) (n : nat) : Prop :=
  ∃ fr, NoDup fr ∧ length fr = n ∧ ∀ a, a ∈ fr → in_pool KPool P a ∧ ¬ used KPool P a.

Lemma free_page_group P a : pal_ok P → in_pool KPool P a → ¬ used KPool P a → ¬ no_group (used_map (kernel_pool P)) 0 1 false.
Proof.
  intros Hok (i & Hi & ->) Hnu Hno. apply (Hno i); [lia|simpl in Hi; lia|]. intros k Hk.
  replace k with i by lia. destruct (bit (used_map (kernel_pool P)) i) eqn:E; [|done]. destruct Hnu.
  split; [by exists i|]. simpl. replace ((Palloc.base (kernel_pool P) + 4096 * i - Palloc.base (kernel_pool P)) `div` 4096) with i; [done|].
  apply (Z.div_unique _ _ i 0); lia.
Qed.

(** Room for more than has been taken leaves a free page. *)
Lemma room_left P0 P n l :
  room P0 n → same_layout P0 P → (∀ a, used KPool P a ↔ used KPool P0 a ∨ a ∈ l) → (length l < n)%nat → pal_ok P →
  ¬ no_group (used_map (kernel_pool P)) 0 1 false.
Proof.
  intros (fr & Hnd & Hlen & Hfr) Hl Hu Hlt Hok.
  destruct (decide (Forall (λ a, a ∈ l) fr)) as [Hall|Hnot].
  - assert (fr ⊆+ l) as Hsub%submseteq_length by (apply NoDup_submseteq; [done|]; by apply Forall_forall). lia.
  - apply not_Forall_Exists in Hnot; [|apply _]. apply Exists_exists in Hnot as (a & Ha & Hnl). destruct (Hfr a Ha) as [Hin Hnu].
    apply (free_page_group P a Hok); [by apply (in_pool_layout _ _ _ _ Hl)|]. rewrite Hu. cbn in Hnl. tauto.
Qed.

Section core.
Context (s0 : pal) (pd : Z) (ts : list Z) (k : Z) (s : mmu) (H : mapped_upto s0 pd ts k s).

Lemma mu_page a : a ∈ pd :: ts → a `mod` 4096 = 0 ∧ PHYS_BASE < a ∧ a + 4096 ≤ 2 ^ 32 ∧ mapped (mram s) a 4096.
Proof. intros Ha. eapply used_range_addr; [apply (mu_pal _ _ _ _ _ H)|]. apply (mu_used _ _ _ _ _ H). by right. Qed.
Lemma mu_apart a b : a ∈ pd :: ts → b ∈ pd :: ts → a ≠ b → a + 4096 ≤ b ∨ b + 4096 ≤ a.
Proof. intros [Ha _]%mu_page [Hb _]%mu_page. by apply pages_apart. Qed.

(** Storing the entry of page [k]. *)
Lemma mapped_store t :
  ts !! Z.to_nat (k `div` 1024) = Some t → 0 ≤ k < 262144 →
  mapped_upto s0 pd ts (k + 1) (with_word s (t + 4 * (k `mod` 1024)) (kernel_pte k)).
Proof.
  intros Ht Hk. pose proof (Z.mod_pos_bound k 1024 ltac:(lia)) as Hq. pose proof (Z.div_mod k 1024 ltac:(lia)) as Ek.
  assert (0 ≤ k `div` 1024) by (apply Z.div_pos; lia).
  assert (t ∈ pd :: ts) as Hin by (right; by eapply list_elem_of_lookup_2).
  destruct (mu_page t Hin) as (Hal & Hlo & Hhi & Hm).
  assert (0 ≤ kernel_pte k < 2 ^ 32) as Hv by (unfold kernel_pte; case_match; lia).
  assert (t ≠ pd) as Hpd.
  { intros ->. pose proof (mu_nodup _ _ _ _ _ H) as [Hn _]%NoDup_cons. apply Hn. by eapply list_elem_of_lookup_2. }
  split.
  - apply with_word_pal, (mu_pal _ _ _ _ _ H).
  - apply bytes_ok_write; [apply (mu_bytes _ _ _ _ _ H)|apply word_bytes4_ok].
  - destruct (mu_layout _ _ _ _ _ H) as [Hl Hr]. split; [intros w; specialize (Hl w); by destruct w|].
    intros x Hx. unfold with_word. cbn [frames ram]. apply write_mapped, Hr, Hx.
  - apply (mu_nodup _ _ _ _ _ H).
  - apply (mu_new _ _ _ _ _ H).
  - intros a. unfold with_word. cbn [frames]. rewrite used_ram. apply (mu_used _ _ _ _ _ H).
  - intros a. unfold with_word. cbn [frames]. rewrite used_ram. apply (mu_user _ _ _ _ _ H).
  - intros j Hj. rewrite <-(mu_pd _ _ _ _ _ H j Hj). unfold mram, with_word. cbn [frames ram]. apply word_write_ne.
    pose proof (mu_apart t pd Hin ltac:(by left) Hpd). lia.
  - intros i t' q Ht' Hq'. unfold mram, with_word. cbn [frames ram]. cbv zeta.
    destruct (decide (i = Z.to_nat (k `div` 1024))) as [->|Hne].
    + assert (t' = t) as -> by congruence. destruct (decide (q = k `mod` 1024)) as [->|Hnq].
      * rewrite word_write_eq by done. replace (1024 * Z.of_nat (Z.to_nat (k `div` 1024)) + k `mod` 1024) with k by lia.
        by rewrite (proj2 (Z.ltb_lt _ _)) by lia.
      * rewrite word_write_ne by lia. pose proof (mu_pt _ _ _ _ _ H _ _ q Ht Hq') as E. rewrite E. cbv zeta.
        destruct (Z.ltb_spec (1024 * Z.of_nat (Z.to_nat (k `div` 1024)) + q) k), (Z.ltb_spec (1024 * Z.of_nat (Z.to_nat (k `div` 1024)) + q) (k + 1)); lia || done.
    + assert (t' ≠ t).
      { intros ->. apply Hne. pose proof (mu_nodup _ _ _ _ _ H) as [_ Hn]%NoDup_cons. by eapply NoDup_lookup. }
      pose proof (mu_apart t t' Hin ltac:(right; by eapply list_elem_of_lookup_2) ltac:(done)).
      rewrite word_write_ne by lia. pose proof (mu_pt _ _ _ _ _ H _ _ q Ht' Hq') as E. rewrite E. cbv zeta.
      destruct (Z.ltb_spec (1024 * Z.of_nat i + q) k), (Z.ltb_spec (1024 * Z.of_nat i + q) (k + 1)); lia || done.
  - intros x Hx. rewrite <-(mu_frame _ _ _ _ _ H x Hx). unfold mram, with_word. cbn [frames ram]. apply lookup_write_out.
    specialize (Hx t Hin). simpl. lia.
Qed.

(** A new table, as yet empty. *)
Lemma mapped_table t P' :
  k = 1024 * Z.of_nat (length ts) → 0 ≤ k < 262144 →
  got KPool (frames s) 1 t P' → pal_ok P' → same_layout (frames s) P' →
  ram P' = write (mram s) t (replicate (Z.to_nat (4096 * 1)) 0) →
  mapped_upto s0 pd (ts ++ [t]) k
    (with_word (Mmu P' (cr3 s) (cr3_loads s)) (pd + 4 * (768 + Z.of_nat (length ts))) (t - PHYS_BASE + 7)).
Proof.
  intros Ek Hk Hg Hok' Hl' Hr.
  assert (∀ a, page_of t 1 a ↔ a = t) as Hpt by (intros a; split; [intros (i & Hi & ->); lia|intros ->; exists 0; lia]).
  assert (used KPool P' t) as Hut by (apply (got_used _ _ _ _ _ Hg); right; by apply Hpt).
  assert (∀ a, a ∈ pd :: ts → a ≠ t) as Hnt.
  { intros a Ha ->. destruct (got_new _ _ _ _ _ Hg t) as [_ []]; [by apply Hpt|]. apply (mu_used _ _ _ _ _ H). by right. }
  destruct (used_range_addr _ _ _ Hok' Hut) as (Hal & Hlo & Hhi & _).
  assert (∀ a, a ∈ pd :: ts → t + 4096 ≤ a ∨ a + 4096 ≤ t) as Hap.
  { intros a Ha. destruct (mu_page a Ha) as (Ha' & _). apply pages_apart; [done..|]. by apply not_eq_sym, Hnt. }
  assert (∀ a, a ∈ pd :: ts ++ [t] ↔ a ∈ pd :: ts ∨ a = t) as Hel by (intros a; rewrite !elem_of_cons, elem_of_app, list_elem_of_singleton; tauto).
  set (s' := with_word _ _ _).
  assert (∀ a, a + 4 ≤ t ∨ t + 4096 ≤ a → a + 4 ≤ pd + 4 * (768 + Z.of_nat (length ts)) ∨ pd + 4 * (768 + Z.of_nat (length ts)) + 4 ≤ a →
    word (mram s') a = word (mram s) a) as Hw.
  { intros a H1 H2. unfold s', with_word, mram at 1. cbn [frames ram]. rewrite word_write_ne by lia.
    unfold mram. cbn [frames]. rewrite Hr. apply word_write_out. rewrite length_replicate. lia. }
  pose proof (Hap pd ltac:(by left)) as Hpd. split.
  - by apply with_word_pal.
  - apply bytes_ok_write; [|apply word_bytes4_ok]. unfold mram. cbn [frames]. rewrite Hr.
    apply bytes_ok_write; [apply (mu_bytes _ _ _ _ _ H)|]. apply Forall_replicate. lia.
  - eapply same_layout_trans; [apply (mu_layout _ _ _ _ _ H)|]. destruct Hl' as [Hl1 Hl2].
    split; [intros w; specialize (Hl1 w); by destruct w|]. intros x Hx. unfold s', with_word. cbn [frames ram]. by apply write_mapped, Hl2.
  - rewrite app_comm_cons. apply NoDup_app. split_and!; [apply (mu_nodup _ _ _ _ _ H)| |by apply NoDup_singleton].
    intros a Ha ->%list_elem_of_singleton. by apply (Hnt t).
  - intros a [Ha| ->]%Hel; [by apply (mu_new _ _ _ _ _ H)|]. intros Hu. destruct (got_new _ _ _ _ _ Hg t) as [_ []]; [by apply Hpt|].
    apply (mu_used _ _ _ _ _ H). by left.
  - intros a. unfold s', with_word. cbn [frames]. rewrite used_ram, (got_used _ _ _ _ _ Hg), (mu_used _ _ _ _ _ H), Hpt, Hel. tauto.
  - intros a. unfold s', with_word. cbn [frames]. rewrite used_ram, (got_frame _ _ _ _ _ Hg) by done. apply (mu_user _ _ _ _ _ H).
  - intros j Hj. destruct (decide (j = 768 + Z.of_nat (length ts))) as [->|Hne].
    + unfold s', with_word, mram. cbn [frames ram]. rewrite word_write_eq by (unfold PHYS_BASE in *; lia).
      rewrite (proj2 (Z.ltb_ge _ _)) by lia. replace (Z.to_nat (768 + Z.of_nat (length ts) - 768)) with (length ts) by lia.
      by rewrite lookup_app_r, Nat.sub_diag by lia.
    + rewrite Hw, (mu_pd _ _ _ _ _ H) by lia. destruct (Z.ltb_spec j 768); [done|].
      destruct (decide (j < 768 + Z.of_nat (length ts))).
      * by rewrite lookup_app_l by lia.
      * rewrite lookup_ge_None_2 by lia. rewrite lookup_ge_None_2; [done|]. rewrite length_app. simpl. lia.
  - intros i u q Hi Hq. cbv zeta. destruct (decide (i < length ts)%nat).
    + rewrite lookup_app_l in Hi by done. assert (u ∈ pd :: ts) as Hu by (right; by eapply list_elem_of_lookup_2).
      pose proof (Hap u Hu). assert (u ≠ pd) as Hup.
      { intros ->. pose proof (mu_nodup _ _ _ _ _ H) as [Hn _]%NoDup_cons. apply Hn. by eapply list_elem_of_lookup_2. }
      pose proof (mu_apart u pd Hu ltac:(by left) Hup). rewrite Hw by lia. by apply (mu_pt _ _ _ _ _ H).
    + rewrite lookup_app_r in Hi by lia. apply list_lookup_singleton_Some in Hi as [Hi <-].
      rewrite (proj2 (Z.ltb_ge _ _)) by lia. unfold s', with_word, mram. cbn [frames ram]. rewrite word_write_ne by lia.
      unfold mram. cbn [frames]. rewrite Hr. apply word_zeros; lia.
  - intros x Hx. unfold s', with_word, mram at 1. cbn [frames ram].
    rewrite lookup_write_out by (specialize (Hx pd ltac:(by left)); simpl; lia).
    unfold mram. cbn [frames]. rewrite Hr, lookup_write_out.
    + apply (mu_frame _ _ _ _ _ H). intros a Ha. apply Hx, Hel. by left.
    + rewrite length_replicate. specialize (Hx t ltac:(apply Hel; by right)). lia.
Qed.
End core.

Lemma frame_address k :
  0 ≤ k < 262144 → let va := PHYS_BASE + 4096 * k in
  u32 (k * PGSIZE) + PHYS_BASE = va ∧ 0 ≤ u32 (k * PGSIZE) < 2 ^ 32 - PHYS_BASE ∧ PHYS_BASE ≤ va < 2 ^ 32 ∧ va `mod` 4096 = 0
  ∧ pd_no va = 768 + k `div` 1024 ∧ pt_no va = k `mod` 1024.
Proof.
  intros Hk va. change PGSIZE with 4096. rewrite u32_small by lia. unfold va, PHYS_BASE.
  assert ((3221225472 + 4096 * k) `div` 4096 = 786432 + k) as E by (symmetry; apply (Z.div_unique _ _ _ 0); lia).
  split_and!; try lia.
  - change 3221225472 with (786432 * 4096). rewrite Z.add_comm, Z_mod_plus_full, Z.mul_comm. apply Z_mod_mult.
  - rewrite pd_no_div. change 4194304 with (4096 * 1024). rewrite <-Z.div_div, E by lia.
    change 786432 with (768 * 1024). by rewrite Z.div_add_l by lia.
  - rewrite pt_no_div, E by lia. change 786432 with (768 * 1024). by rewrite Z.add_comm, Z_mod_plus_full.
Qed.

(** One turn of the loop. *)
Lemma wp_map_page (s0 : pal) pd ts k pt s N :
  mapped_upto s0 pd ts k s → k ≤ 1024 * Z.of_nat (length ts) < k + 1024 → (k < 1024 * Z.of_nat (length ts) → last ts = Some pt) →
  0 ≤ k < 262144 → room s0 N → (1 + Z.to_nat (k `div` 1024) < N)%nat →
  wp (map_page _start _end_kernel_text pd k pt) s (λ pt' s', ∃ ts', mapped_upto s0 pd ts' (k + 1) s' ∧
    k + 1 ≤ 1024 * Z.of_nat (length ts') < k + 1025 ∧ last ts' = Some pt').
Proof.
  intros H Hc Hpt Hk Hroom HN. destruct (frame_address k Hk) as (Ep & Hp & Hva & Hal & Epd & Ept).
  pose proof (Z.div_mod k 1024 ltac:(lia)) as Ek. pose proof (Z.mod_pos_bound k 1024 ltac:(lia)) as Hq.
  assert (0 ≤ k `div` 1024 < 256) as Hi by (split; [apply Z.div_pos|apply Z.div_lt_upper_bound]; lia).
  unfold map_page. wp_step. apply wp_ptov; [done|]. rewrite Ep, Epd, Ept.
  (* The rest of the turn, once there is a table. *)
  assert (∀ ts' s', mapped_upto s0 pd ts' k s' → k < 1024 * Z.of_nat (length ts') < k + 1025 → ∀ t, last ts' = Some t →
    wp (v ← pte_create_kernel (PHYS_BASE + 4096 * k) (negb (in_text (PHYS_BASE + 4096 * k)));
        on_mem (store32 (t + 4 * (k `mod` 1024)) v) ;; mret t) s'
      (λ pt' s', ∃ ts', mapped_upto s0 pd ts' (k + 1) s' ∧ k + 1 ≤ 1024 * Z.of_nat (length ts') < k + 1025 ∧ last ts' = Some pt')) as Hrest.
  { intros ts' s' H' Hc' t Ht. wp_step. apply wp_pte_create_kernel; [done|done|]. wp_step.
    assert (ts' !! Z.to_nat (k `div` 1024) = Some t) as Hl.
    { rewrite last_lookup in Ht. by replace (Z.to_nat (k `div` 1024)) with (pred (length ts')) by lia. }
    apply wp_write.
    { destruct (mu_page _ _ _ _ _ H' t) as (_ & _ & _ & Hm); [right; by eapply list_elem_of_lookup_2|].
      intros x Hx. apply Hm. lia. }
    wp_step. exists ts'. split_and!; [|lia|lia|done].
    replace (PHYS_BASE + 4096 * k - PHYS_BASE + _) with (kernel_pte k) by (unfold kernel_pte; destruct (in_text _); simpl; lia).
    by apply mapped_store. }
  wp_step. apply wp_read.
  { destruct (mu_page _ _ _ _ _ H pd) as (_ & _ & _ & Hm); [by left|]. intros x Hx. apply Hm. lia. }
  rewrite (mu_pd _ _ _ _ _ H), (proj2 (Z.ltb_ge (768 + k `div` 1024) 768)) by lia. replace (768 + k `div` 1024 - 768) with (k `div` 1024) by lia.
  wp_step. destruct (ts !! Z.to_nat (k `div` 1024)) as [t|] eqn:Et.
  - pose proof (lookup_lt_Some _ _ _ Et).
    destruct (mu_page _ _ _ _ _ H t) as (_ & Ht & _); [right; by eapply list_elem_of_lookup_2|].
    rewrite (proj2 (Z.eqb_neq _ 0)) by lia. wp_step. apply (Hrest ts); [done|lia|]. apply Hpt. lia.
  - apply lookup_ge_None in Et. rewrite Z.eqb_refl. wp_step. unfold on_frames at 1, palloc_get_page. wp_step.
    eapply wp_mono; [apply wp_palloc_get_multiple; [apply (mu_pal _ _ _ _ _ H)|lia|right]|].
    { eapply (room_left s0 _ N (pd :: ts)); [done|apply (mu_layout _ _ _ _ _ H)|apply (mu_used _ _ _ _ _ H)|simpl; lia|apply (mu_pal _ _ _ _ _ H)]. }
    intros t P' [(_ & _ & Hno)|(Hg & Hok' & Hl' & Hr)].
    { destruct (room_left s0 (frames s) N (pd :: ts)); [done|apply (mu_layout _ _ _ _ _ H)|apply (mu_used _ _ _ _ _ H)|simpl; lia|apply (mu_pal _ _ _ _ _ H)|done]. }
    destruct (used_range_addr KPool P' t Hok') as (Ha & Hlo & Hhi & _); [apply (got_used _ _ _ _ _ Hg); right; exists 0; lia|].
    wp_step. apply wp_pde_create; [done|lia|]. wp_step. replace (768 + k `div` 1024) with (768 + Z.of_nat (length ts)) by lia. apply wp_write.
    { destruct (used_range_addr KPool P' pd Hok') as (_ & _ & _ & Hm).
      - apply (got_used _ _ _ _ _ Hg). left. apply (mu_used _ _ _ _ _ H). right. by left.
      - intros x Hx. apply Hm. lia. }
    wp_step. apply (Hrest (ts ++ [t])); [|rewrite length_app; simpl; lia|by rewrite last_snoc].
    apply mapped_table; [done|lia|done|done|done|done|exact Hr].
Qed.

(** The pages that [paging_init] takes: the directory and a table for each 4 MB. *)
Definition boot_pages : nat := S (Z.to_nat ((init_ram_pages + 1023) `div` 1024)).

Lemma mapped_start s pd P' :
  pal_ok (frames s) → bytes_ok (mram s) → got KPool (frames s) 1 pd P' → pal_ok P' → same_layout (frames s) P' →
  ram P' = write (mram s) pd (replicate (Z.to_nat (4096 * 1)) 0) →
  mapped_upto (frames s) pd [] 0 (Mmu P' (cr3 s) (cr3_loads s)).
Proof.
  intros Hok Hb Hg Hok' Hl Hr.
  assert (∀ a, page_of pd 1 a ↔ a ∈ [pd]) as Hpt.
  { intros a. rewrite list_elem_of_singleton. split; [intros (i & Hi & ->); lia|intros ->; exists 0; lia]. }
  split; unfold mram; cbn [frames]; [done| |done| | | | | | |].
  - rewrite Hr. apply bytes_ok_write; [done|]. apply Forall_replicate. lia.
  - apply NoDup_singleton.
  - intros a Ha%Hpt. apply (got_new _ _ _ _ _ Hg a Ha).
  - intros a. by rewrite (got_used _ _ _ _ _ Hg), Hpt.
  - intros a. by apply (got_frame _ _ _ _ _ Hg).
  - intros j Hj. rewrite Hr, word_zeros by lia. by case_match.
  - intros i t q Hi. by rewrite lookup_nil in Hi.
  - intros x Hx. rewrite Hr. apply lookup_write_out. rewrite length_replicate. specialize (Hx pd ltac:(by left)). lia.
Qed.

Lemma wp_paging_init s :
  pal_ok (frames s) → bytes_ok (mram s) → 0 ≤ init_ram_pages ≤ 262144 → room (frames s) boot_pages →
  wp (paging_init _start _end_kernel_text init_ram_pages) s (λ pd s', ∃ ts,
    mapped_upto (frames s) pd ts init_ram_pages s' ∧ init_ram_pages ≤ 1024 * Z.of_nat (length ts) ∧ cr3 s' = pd - PHYS_BASE).
Proof.
  intros Hok Hb Hn Hroom. unfold paging_init, palloc_get_page. wp_step. unfold on_frames at 1. wp_step.
  assert (¬ no_group (used_map (kernel_pool (frames s))) 0 1 false) as Hfree.
  { apply (room_left (frames s) _ boot_pages []); [done|apply same_layout_refl| |unfold boot_pages; simpl; lia|done].
    intros a. rewrite elem_of_nil. tauto. }
  eapply wp_mono; [apply wp_palloc_get_multiple; [done|lia|by right]|].
  intros pd P' [(_ & _ & Hno)|(Hg & Hok' & Hl' & Hr)]; [done|].
  pose proof (mapped_start s pd P' Hok Hb Hg Hok' Hl' Hr) as H0. wp_step.
  apply (wp_loop (λ '(k, ts) '(page, pt) s', page = k ∧ 0 ≤ k ≤ init_ram_pages ∧ mapped_upto (frames s) pd ts k s' ∧
      k ≤ 1024 * Z.of_nat (length ts) < k + 1024 ∧ (k < 1024 * Z.of_nat (length ts) → last ts = Some pt))
    (λ '(k, _), Z.to_nat (init_ram_pages - k))) with (g := (0, [])); [|simpl; split_and!; [done|lia|lia|done|lia|lia|lia]|lia].
  intros [k ts] [page pt] s' (-> & Hk & H & Hc & Hpt). cbn beta iota. destruct (Z.ltb_spec k init_ram_pages) as [Hlt|Hge].
  - wp_step. eapply wp_mono; [eapply (wp_map_page (frames s)); [done|done|done|lia|exact Hroom|]|].
    + unfold boot_pages. assert (k `div` 1024 + 1 ≤ (init_ram_pages + 1023) `div` 1024).
      { replace (init_ram_pages + 1023) with (init_ram_pages - 1 + 1 * 1024) by lia. rewrite Z.div_add by lia.
        pose proof (Z.div_le_mono k (init_ram_pages - 1) 1024). lia. }
      assert (0 ≤ k `div` 1024) by (apply Z.div_pos; lia). lia.
    + intros pt' s'' (ts' & H' & Hc' & Hl). wp_step. exists (k + 1, ts'). split_and!; done || lia.
  - assert (k = init_ram_pages) as -> by lia. wp_step. wp_step.
    destruct (mu_page _ _ _ _ _ H pd) as (_ & Hlo & Hhi & _); [by left|].
    apply wp_vtop; [lia|]. wp_steps. exists ts. split_and!; [|lia|done].
    destruct H. by split.
Qed.

(** ** Reading the tables *)
Lemma entry_flags a f :
  a `mod` 4096 = 0 → 0 ≤ a < 2 ^ 32 → 0 ≤ f < 8 →
  Z.land (a + f) PTE_ADDR = a ∧ ∀ mask, mask ∈ [PTE_P; PTE_W; PTE_U] → flag mask (a + f) = flag mask f.
Proof.
  intros Ha Hr Hf.
  assert ((a + f) `mod` 4096 = f) as Hm by (rewrite <-Zplus_mod_idemp_l, Ha; apply Z.mod_small; lia).
  assert (a + f < 2 ^ 32).
  { pose proof (Z.div_mod a 4096 ltac:(lia)). assert (a `div` 4096 < 1048576) by (apply Z.div_lt_upper_bound; lia). lia. }
  split; [rewrite pte_addr_sub by lia; lia|]. intros mask Hmask. unfold flag.
  assert (mask = Z.land (2 ^ 12 - 1) mask) as E by (repeat (apply elem_of_cons in Hmask as [-> |Hmask]; [done|]); by apply elem_of_nil in Hmask).
  rewrite E, !Z.land_assoc, !land_low by lia. change (2 ^ 12) with 4096. by rewrite Hm, (Z.mod_small f) by lia.
Qed.

Lemma walk_mapped s0 pd ts s va :
  mapped_upto s0 pd ts init_ram_pages s → init_ram_pages ≤ 1024 * Z.of_nat (length ts) → 0 ≤ init_ram_pages ≤ 262144 →
  cr3 s = pd - PHYS_BASE → 0 ≤ va < 2 ^ 32 →
  hw_walk s va = if (PHYS_BASE <=? va) && (va <? PHYS_BASE + 4096 * init_ram_pages)
    then Some (Access (va - PHYS_BASE) (negb (in_text (pg_round_down va))) false) else None.
Proof.
  intros H Hc Hn Hcr Hva. unfold hw_walk. rewrite Hcr. replace (pd - PHYS_BASE + PHYS_BASE) with pd by lia.
  set (i := va `div` 4096). pose proof (Z.div_mod va 4096 ltac:(lia)) as Ei. fold i in Ei.
  pose proof (Z.mod_pos_bound va 4096 ltac:(lia)) as Hofs. pose proof (Z.div_mod i 1024 ltac:(lia)) as Ej.
  pose proof (Z.mod_pos_bound i 1024 ltac:(lia)) as Hq.
  assert (va `div` 4194304 = i `div` 1024) as -> by (unfold i; rewrite Z.div_div by lia; done).
  assert (0 ≤ i < 1048576) as Hi by (unfold i; split; [apply Z.div_pos|apply Z.div_lt_upper_bound]; lia).
  assert (0 ≤ i `div` 1024 < 1024) as Hj by (split; [apply Z.div_pos|apply Z.div_lt_upper_bound]; lia).
  rewrite (mu_pd _ _ _ _ _ H) by done. destruct (Z.ltb_spec (i `div` 1024) 768) as [Hlow|Hhigh].
  { rewrite (proj2 (Z.leb_gt PHYS_BASE va)); [done|]. unfold PHYS_BASE. lia. }
  rewrite (proj2 (Z.leb_le PHYS_BASE va)) by (unfold PHYS_BASE; lia). cbn [andb].
  destruct (ts !! Z.to_nat (i `div` 1024 - 768)) as [t|] eqn:Et.
  2:{ apply lookup_ge_None in Et. rewrite (proj2 (Z.ltb_ge va _)); [done|]. unfold PHYS_BASE. lia. }
  assert (t ∈ pd :: ts) as Hin by (right; by eapply list_elem_of_lookup_2).
  destruct (mu_page _ _ _ _ _ H t Hin) as (Hal & Hlo & Hhi & _).
  destruct (entry_flags (t - PHYS_BASE) 7) as [Ead Efl]; [unfold PHYS_BASE; by rewrite Zminus_mod, Hal|unfold PHYS_BASE in *; lia|lia|].
  rewrite !Efl, Ead by set_solver. change (flag PTE_P 7) with true. cbn [andb].
  replace (t - PHYS_BASE + PHYS_BASE) with t by lia. rewrite (mu_pt _ _ _ _ _ H _ _ _ Et) by done. cbv zeta.
  replace (1024 * Z.of_nat (Z.to_nat (i `div` 1024 - 768)) + i `mod` 1024) with (i - 786432) by lia.
  destruct (Z.ltb_spec (i - 786432) init_ram_pages) as [Hin'|Hout].
  2:{ rewrite (proj2 (Z.ltb_ge va _)); [done|]. unfold PHYS_BASE. lia. }
  rewrite (proj2 (Z.ltb_lt va _)) by (unfold PHYS_BASE; lia). unfold kernel_pte.
  assert (PHYS_BASE + 4096 * (i - 786432) = pg_round_down va) as -> by (rewrite pg_round_down_sub by done; unfold PHYS_BASE; lia).
  destruct (entry_flags (4096 * (i - 786432)) (if in_text (pg_round_down va) then 1 else 3)) as [Ead' Efl'];
    [by rewrite Z.mul_comm, Z_mod_mult|lia|case_match; lia|].
  rewrite !Efl', Ead' by set_solver. replace (4096 * (i - 786432) + va `mod` 4096) with (va - PHYS_BASE) by (unfold PHYS_BASE; lia).
  by destruct (in_text (pg_round_down va)).
Qed.

(** ** Directories of processes *)
Definition page_bytes (m : mem) (a : Z) : list Z := (λ i, byte_of m (a + i)) <$> seqZ 0 4096.
Lemma length_page_bytes m a : Z.of_nat (length (page_bytes m a)) = 4096.
Proof. unfold page_bytes. by rewrite length_fmap, length_seqZ. Qed.
Lemma page_bytes_at m a : mapped m a 4096 → bytes_at m a (page_bytes m a).
Proof.
  intros Hm i b Hi. apply list_lookup_fmap_Some in Hi as (x & -> & Hx). apply lookup_seqZ in Hx as [-> Hi].
  replace (0 + Z.of_nat i) with (Z.of_nat i) by lia. apply byte_of_lookup, Hm. lia.
Qed.
Lemma word_page_bytes m dst src j :
  0 ≤ j < 1024 → word (write m dst (page_bytes m src)) (dst + 4 * j) = word m (src + 4 * j).
Proof.
  intros Hj. assert (∀ i, 0 ≤ i < 4096 → byte_of (write m dst (page_bytes m src)) (dst + i) = byte_of m (src + i)) as Hb.
  { intros i Hi. unfold byte_of at 1. rewrite lookup_write, length_page_bytes, decide_True by lia.
    replace (dst + i - dst) with i by lia. unfold page_bytes. rewrite list_lookup_fmap, lookup_seqZ_lt by lia. simpl. f_equal. lia. }
  unfold word. rewrite <-!Z.add_assoc, !Hb by lia. done.
Qed.

(** The directory of a process: as the kernel's, in a page of its own. *)
Record copied (s0 : pal) pd ts s p s' : Prop := {
  cp_ok : pd_ok s' p;
  cp_user : ∀ va, user_addr va → pte_val s' p va = 0;
  cp_pd : ∀ j, 0 ≤ j < 1024 → word (mram s') (p + 4 * j) = word (mram s) (pd + 4 * j);
  cp_tables : ∀ a i, a ∈ pd :: ts → 0 ≤ i < 1024 → word (mram s') (a + 4 * i) = word (mram s) (a + 4 * i);
}.

Lemma wp_pagedir_create s0 pd ts s :
  mapped_upto s0 pd ts init_ram_pages s →
  wp (pagedir_create pd) s (λ p s', p = 0 ∧ s' = s ∨ copied s0 pd ts s p s').
Proof.
  intros H. unfold pagedir_create, palloc_get_page. wp_step. unfold on_frames at 1. wp_step.
  eapply wp_mono; [apply wp_palloc_get_multiple; [apply (mu_pal _ _ _ _ _ H)|lia|by left]|].
  intros p P' [(-> & -> & _)|(Hg & Hok' & Hl' & Hr)].
  { rewrite Z.eqb_refl. cbn [negb]. wp_steps. left. split; [done|]. by destruct s. }
  change (ram_after 0 1 p (frames s)) with (mram s) in Hr.
  assert (used KPool P' p) as Hu by (apply (got_used _ _ _ _ _ Hg); right; exists 0; lia).
  destruct (used_range_addr KPool P' p Hok' Hu) as (Hal & Hlo & Hhi & Hm). rewrite Hr in Hm.
  assert (∀ a, a ∈ pd :: ts → p + 4096 ≤ a ∨ a + 4096 ≤ p) as Hap.
  { intros a Ha. destruct (mu_page _ _ _ _ _ H a Ha) as (Ha' & _). apply pages_apart; [done..|]. intros <-.
    destruct (got_new _ _ _ _ _ Hg p) as [_ []]; [exists 0; lia|]. apply (mu_used _ _ _ _ _ H). by right. }
  destruct (mu_page _ _ _ _ _ H pd) as (_ & Hlo' & _ & Hmpd); [by left|]. pose proof (Hap pd ltac:(by left)).
  rewrite (proj2 (Z.eqb_neq p 0)) by (unfold PHYS_BASE in *; lia). cbn [negb]. wp_step. wp_step.
  apply wp_on_mem. unfold mram at 1. cbn [frames]. rewrite Hr.
  change PGSIZE with 4096. eapply (wp_memcpy _ _ _ (page_bytes (mram s) pd)); [by rewrite length_page_bytes|by apply page_bytes_at|done|unfold PHYS_BASE in *; lia..|].
  wp_steps. right. set (s' := Mmu _ _ _).
  assert (∀ j, 0 ≤ j < 1024 → word (mram s') (p + 4 * j) = word (mram s) (pd + 4 * j)) as Hpd by (intros j Hj; by apply word_page_bytes).
  assert (∀ j, 0 ≤ j < 768 → pde_of s' p j = 0) as Hz.
  { intros j Hj. unfold pde_of. rewrite Hpd, (mu_pd _ _ _ _ _ H), (proj2 (Z.ltb_lt j 768)) by lia. done. }
  assert (∀ va, user_addr va → pte_val s' p va = 0) as Hpte.
  { intros va Hva. unfold pte_val. rewrite Hz by apply (user_index va Hva). done. }
  assert (pal_ok (frames s')) as Hok2.
  { by destruct (write_ram_ok P' (write (mram s) p (page_bytes (mram s) pd))); [intros x; rewrite Hr; apply write_mapped|done|]. }
  split; [split|done|done|].
  - done.
  - apply bytes_ok_write; [apply (mu_bytes _ _ _ _ _ H)|]. apply Forall_fmap, Forall_true. intros i. apply byte_of_range, (mu_bytes _ _ _ _ _ H).
  - by apply used_ram.
  - intros j Hj. left. by apply Hz.
  - intros j j' Hj Hj' Hne. by rewrite Hz in Hne.
  - intros va Hva. by rewrite Hpte.
  - intros a i Ha Hi. unfold s', mram at 1. cbn [frames ram]. apply word_write_out. rewrite length_page_bytes.
    pose proof (Hap a Ha). lia.
Qed.

Lemma walk_copied s0 pd ts s p s' n va :
  mapped_upto s0 pd ts init_ram_pages s → copied s0 pd ts s p s' → cr3 s = pd - PHYS_BASE → 0 ≤ va < 2 ^ 32 →
  hw_walk (Mmu (frames s') (p - PHYS_BASE) n) va = hw_walk s va.
Proof.
  intros H C Hcr Hva. unfold hw_walk. cbn [cr3]. rewrite Hcr. change (mram (Mmu (frames s') (p - PHYS_BASE) n)) with (mram s').
  replace (p - PHYS_BASE + PHYS_BASE) with p by lia. replace (pd - PHYS_BASE + PHYS_BASE) with pd by lia.
  assert (0 ≤ va `div` 4194304 < 1024) as Hj by (split; [apply Z.div_pos|apply Z.div_lt_upper_bound]; lia).
  rewrite (cp_pd _ _ _ _ _ _ C) by done. rewrite (mu_pd _ _ _ _ _ H) by done.
  destruct (Z.ltb_spec (va `div` 4194304) 768); [done|]. destruct (ts !! _) as [t|] eqn:Et; [|done].
  assert (t ∈ pd :: ts) as Hin by (right; by eapply list_elem_of_lookup_2).
  destruct (mu_page _ _ _ _ _ H t Hin) as (Hal & Hlo & Hhi & _).
  destruct (entry_flags (t - PHYS_BASE) 7) as [Ead _]; [unfold PHYS_BASE; by rewrite Zminus_mod, Hal|unfold PHYS_BASE in *; lia|lia|].
  rewrite Ead. replace (t - PHYS_BASE + PHYS_BASE) with t by lia.
  rewrite (cp_tables _ _ _ _ _ _ C); [done|done|]. apply Z.mod_pos_bound. lia.
Qed.
End paging.

(** C15: with enough free pages for its tables, [paging_init] maps exactly the physical
    memory at [PHYS_BASE]: the processor, which reads the tables through CR3,
    translates the kernel addresses of the memory to their physical address, lets
    nobody write to the pages of the kernel's text, gives user code no access, and
    faults on every other address.  No page in use is touched. *)
Theorem paging_init_correct (start end_text pages : Z) s :
  pal_ok (frames s) → bytes_ok (mram s) → 0 ≤ pages ≤ 262144 → room (frames s) (boot_pages pages) →
  ∃ pd s', paging_init start end_text pages s = Ok (pd, s') ∧ pal_ok (frames s') ∧ used KPool (frames s') pd
    ∧ (∀ va, 0 ≤ va < 2 ^ 32 → hw_walk s' va =
         if (PHYS_BASE <=? va) && (va <? PHYS_BASE + 4096 * pages)
         then Some (Access (va - PHYS_BASE) (negb (in_text start end_text (pg_round_down va))) false) else None)
    ∧ ∀ w a x, used w (frames s) a → a ≤ x < a + 4096 → used w (frames s') a ∧ mram s' !! x = mram s !! x.
Proof.
  intros Hok Hb Hn Hroom.
  pose proof (wp_paging_init start end_text pages s Hok Hb Hn Hroom) as (pd & s' & E & ts & H & Hc & Hcr)%wp_ok.
  exists pd, s'. split_and!; [done|apply (mu_pal _ _ _ _ _ _ _ H)|apply (mu_used _ _ _ _ _ _ _ H); right; by left| |].
  - intros va Hva. by eapply walk_mapped.
  - intros w a x Ha Hx. split; [destruct w; [apply (mu_used _ _ _ _ _ _ _ H); by left|by apply (mu_user _ _ _ _ _ _ _ H)]|].
    apply (mu_frame _ _ _ _ _ _ _ H). intros b Hbin Hxb.
    destruct (mu_page _ _ _ _ _ _ _ H b Hbin) as (Hal & _). destruct (used_range_addr w _ a Hok Ha) as (Hal' & _).
    destruct (decide (a = b)) as [->|Hne]; [|destruct (pages_apart a b Hal' Hal Hne); lia].
    destruct w; [by apply (mu_new _ _ _ _ _ _ _ H b)|].
    pose proof (kernel_page_below s' b b (mu_pal _ _ _ _ _ _ _ H)) as Hbelow. enough (b + 4096 ≤ b) by lia. apply Hbelow.
    + apply (mu_used _ _ _ _ _ _ _ H). by right.
    + apply (mu_user _ _ _ _ _ _ _ H). done.
Qed.

(** A directory that [pagedir_create] makes for a process after [paging_init], when
    there is a page for it, has no user pages, and once it is activated the processor
    translates every address as with the kernel's own directory. *)
Theorem process_directory (start end_text pages : Z) s :
  pal_ok (frames s) → bytes_ok (mram s) → 0 ≤ pages ≤ 262144 → room (frames s) (boot_pages pages) →
  ∃ pd s1 p s2, paging_init start end_text pages s = Ok (pd, s1) ∧ pagedir_create pd s1 = Ok (p, s2) ∧
    (p = 0 ∧ s2 = s1 ∨
     pd_ok s2 p ∧ (∀ va, user_addr va → pte_val s2 p va = 0) ∧
     ∃ s3, pagedir_activate pd p s2 = Ok (tt, s3) ∧ ∀ va, 0 ≤ va < 2 ^ 32 → hw_walk s3 va = hw_walk s1 va).
Proof.
  intros Hok Hb Hn Hroom.
  pose proof (wp_paging_init start end_text pages s Hok Hb Hn Hroom) as (pd & s1 & E & ts & H & Hc & Hcr)%wp_ok.
  pose proof (wp_pagedir_create start end_text pages (frames s) pd ts s1 H) as (p & s2 & E2 & HC)%wp_ok.
  exists pd, s1, p, s2. split; [done|]. split; [done|]. destruct HC as [|C]; [by left|right].
  split; [apply (cp_ok _ _ _ _ _ _ C)|]. split; [apply (cp_user _ _ _ _ _ _ C)|].
  destruct (used_range_addr KPool _ p (pk_pal _ _ (cp_ok _ _ _ _ _ _ C)) (pk_pd _ _ (cp_ok _ _ _ _ _ _ C))) as (_ & Hlo & Hhi & _).
  exists (Mmu (frames s2) (p - PHYS_BASE) (cr3_loads s2 + 1)). split.
  - apply wp_det_ok. unfold pagedir_activate. rewrite (proj2 (Z.eqb_neq p 0)) by (unfold PHYS_BASE in *; lia).
    wp_step. apply wp_vtop; [lia|]. by wp_step.
  - intros va Hva. by eapply walk_copied.
Qed.

(** ** Example: three kernel pages and one user page, text in the first page *)
Definition ex_paging : mmu :=
  Mmu (Pal (Pool false (Bitmap 3 [0]) (PHYS_BASE + 4096)) (Pool false (Bitmap 1 [0]) (PHYS_BASE + 16384))
         (write ∅ (PHYS_BASE + 4096) (replicate (Z.to_nat 16384) 255)))
      0 0.

Lemma ex_boot_pal : pal_ok (frames ex_paging).
Proof.
  split.
  - intros []; (split; [reflexivity|apply wfb_sound; reflexivity|reflexivity|reflexivity|vm_compute; discriminate]).
  - cbn. unfold PHYS_BASE. lia.
  - intros w x Hx. unfold ex_paging. cbn [ram frames]. rewrite lookup_write, length_replicate.
    rewrite decide_True by (destruct w; cbn in Hx; unfold PHYS_BASE in *; lia).
    apply lookup_lt_is_Some. rewrite length_replicate. destruct w; cbn in Hx; unfold PHYS_BASE in *; lia.
Qed.
Lemma ex_boot_bytes : bytes_ok (mram ex_paging).
Proof.
  unfold mram, ex_paging. cbn [frames ram]. apply bytes_ok_write; [intros a b; by rewrite lookup_empty|].
  apply Forall_replicate. lia.
Qed.
Lemma ex_boot_room : room (frames ex_paging) (boot_pages 5).
Proof.
  exists [PHYS_BASE + 4096; PHYS_BASE + 8192]. split_and!; [by apply (bool_decide_unpack (NoDup _))|done|].
  intros a [-> |[-> |[]%elem_of_nil]%elem_of_cons]%elem_of_cons;
    (split; [|intros [_ Hbit]; discriminate Hbit]); [exists 0|exists 1]; (split; [simpl; lia|reflexivity]).
Qed.

Lemma paging_init_correct_witness : ∃ pd s', paging_init PHYS_BASE (PHYS_BASE + 100) 5 ex_paging = Ok (pd, s')
  ∧ hw_walk s' (PHYS_BASE + 17) = Some (Access 17 false false) ∧ hw_walk s' (PHYS_BASE + 5000) = Some (Access 5000 true false)
  ∧ hw_walk s' (PHYS_BASE + 20480) = None ∧ hw_walk s' 4096 = None.
Proof.
  destruct (paging_init_correct PHYS_BASE (PHYS_BASE + 100) 5 ex_paging ex_boot_pal ex_boot_bytes ltac:(lia) ex_boot_room)
    as (pd & s' & E & _ & _ & Hw & _).
  exists pd, s'. split; [exact E|]. rewrite !Hw by (unfold PHYS_BASE; lia). split_and!; reflexivity.
Defined.

Lemma process_directory_witness : ∃ pd s1 p s2, paging_init PHYS_BASE (PHYS_BASE + 100) 5 ex_paging = Ok (pd, s1) ∧
  pagedir_create pd s1 = Ok (p, s2) ∧ pd_ok s2 p ∧ ∃ s3, pagedir_activate pd p s2 = Ok (tt, s3) ∧ hw_walk s3 (PHYS_BASE + 17) = hw_walk s1 (PHYS_BASE + 17).
Proof.
  assert (Ht : match paging_init PHYS_BASE (PHYS_BASE + 100) 5 ex_paging with
    | Ok (pd, s1) => match pagedir_create pd s1 with Ok (p, _) => negb (p =? 0) | _ => false end | _ => false end = true)
    by (vm_compute; reflexivity).
  destruct (process_directory PHYS_BASE (PHYS_BASE + 100) 5 ex_paging ex_boot_pal ex_boot_bytes ltac:(lia) ex_boot_room)
    as (pd & s1 & p & s2 & E1 & E2 & [[-> _]|(Hok & _ & s3 & E3 & Hw)]).
  - rewrite E1, E2 in Ht. discriminate Ht.
  - exists pd, s1, p, s2. split_and!; [exact E1|exact E2|exact Hok|]. exists s3. split; [exact E3|]. apply Hw. unfold PHYS_BASE. lia.
Defined.

(** ** The command line of the kernel

    Options set what they say and actions run in their order; the roles of block
    devices. *)

(** ** Splitting an option *)
Lemma span_split (P : Z → bool) t z :
  Forall (λ x, P x = true) t → (∀ y, head z = Some y → P y = false) → span P (t ++ z) = (t, z).
Proof.
  intros Ht Hz. induction Ht as [|x t Hx Ht IH]; simpl.
  - destruct z as [|y z]; [done|]. simpl. by rewrite (Hz y).
  - by rewrite Hx, IH.
Qed.

Lemma wp_strtok_token m a save p b d t z (Q : Z * Z → mem → Prop) :
  p = (if a =? 0 then save else a) → cstr m p (t ++ z) → cstr m b d → 0 < p → 0 < b → t ≠ [] →
  Forall (λ x, is_delim d x = false) t → (∀ y, head z = Some y → is_delim d y = true) →
  Q (p, p + Z.of_nat (length t) + (if z is [] then 0 else 1))
    (if z is [] then m else <[p + Z.of_nat (length t) := 0]> m) →
  wp (strtok_r a b save) m Q.
Proof.
  intros Hpa Hs Hd Hp Hb Hne Ht Hz HQ. unfold strtok_r. wp_step. apply wp_assert; [by apply nonnull|]. rewrite <-Hpa.
  wp_step. apply wp_assert; [by apply nonnull|]. wp_step.
  assert (span (is_delim d) (t ++ z) = ([], t ++ z)) as Hsp.
  { destruct t as [|x t]; [done|]. apply Forall_cons in Ht as [Hx _]. simpl. by rewrite Hx. }
  eapply (wp_skip_delims m p (t ++ z) b d); [done..|].
  replace (match t ++ z with [] => _ | _ => _ end) with (inr p : Z + Z) by (destruct t; [done|simpl; f_equal; lia]). cbn beta iota.
  wp_step. eapply (wp_skip_nondelims m p (t ++ z) b d _ t z); [done..| |].
  { apply span_split; [eapply Forall_impl; [exact Ht|]; simpl; by intros ? ->|]. intros y Hy. by rewrite (Hz y). }
  assert (cstr m (p + Z.of_nat (length t)) z) as Hsz.
  { apply cstr_drop with (i := length t) in Hs; [|rewrite length_app; lia]. by rewrite drop_app_length in Hs. }
  wp_step. destruct z as [|y z].
  - apply cstr_nil in Hsz. eapply wp_load; [done|]. wp_steps. by rewrite Z.add_0_r in HQ.
  - apply cstr_cons in Hsz as (Hy & Hcy & Hsz). eapply wp_load; [done|]. rewrite (char_nonzero y Hcy). cbn [negb].
    wp_step. apply wp_store; [eauto|]. by wp_steps.
Qed.

Lemma wp_strtok_none m a save p b d (Q : Z * Z → mem → Prop) :
  p = (if a =? 0 then save else a) → cstr m p [] → cstr m b d → 0 < p → 0 < b → Q (0, p) m →
  wp (strtok_r a b save) m Q.
Proof.
  intros Hpa Hs Hd Hp Hb HQ. unfold strtok_r. wp_step. apply wp_assert; [by apply nonnull|]. rewrite <-Hpa.
  wp_step. apply wp_assert; [by apply nonnull|]. wp_step. eapply (wp_skip_delims m p [] b d); [done..|].
  wp_steps. by rewrite Z.add_0_r.
Qed.

(** An option is a name and, after the first equals sign, a value. *)
Definition option_name (w : list Z) : list Z := (span (λ x, negb (x =? 61)) w).1.
Definition option_value (w : list Z) : option (list Z) :=
  match (span (λ x, negb (x =? 61)) w).2 with [] | [_] => None | _ :: v => Some v end.

(** Strings that a change of memory leaves alone. *)
Lemma cstr_same m m' a s :
  cstr m a s → (∀ x, a ≤ x ≤ a + Z.of_nat (length s) → m' !! x = m !! x) → cstr m' a s.
Proof.
  intros [H Hc] Heq. split; [|done]. intros i c Hi. rewrite Heq; [by apply H|].
  apply lookup_lt_Some in Hi. rewrite length_app in Hi. simpl in Hi. lia.
Qed.

(** ** What options mean *)
Record settings := Settings {
  o_format : bool; o_filesys : option (list Z); o_scratch : option (list Z); o_limit : Z; o_mlfqs : bool; o_how : Z }.

(** A decimal number at the start of a string, as [atoi] reads it. *)
Definition number (v : list Z) (n : Z) : Prop :=
  ∃ sp sg negative ds rest, v = sp ++ sg ++ ds ++ rest ∧ Forall (λ c, isspace c = true) sp ∧ (sg, negative) ∈ signs ∧
    Forall (λ c, isdigit c = true) ds ∧ ds ≠ [] ∧ ends_with isdigit rest ∧
    n = s32 (if (negative : bool) then - digits_value ds else digits_value ds).

Inductive set_option : list Z → option (list Z) → settings → settings → Prop :=
| Set_q v f fs sc l m h : set_option (chars "-q") v (Settings f fs sc l m h) (Settings f fs sc l m SHUTDOWN_POWER_OFF)
| Set_r v f fs sc l m h : set_option (chars "-r") v (Settings f fs sc l m h) (Settings f fs sc l m SHUTDOWN_REBOOT)
| Set_f v f fs sc l m h : set_option (chars "-f") v (Settings f fs sc l m h) (Settings true fs sc l m h)
| Set_filesys v f fs sc l m h : set_option (chars "-filesys") v (Settings f fs sc l m h) (Settings f v sc l m h)
| Set_scratch v f fs sc l m h : set_option (chars "-scratch") v (Settings f fs sc l m h) (Settings f fs v l m h)
| Set_rs v n o : number v n → set_option (chars "-rs") (Some v) o o
| Set_mlfqs v f fs sc l m h : set_option (chars "-mlfqs") v (Settings f fs sc l m h) (Settings f fs sc l true h)
| Set_ul v n f fs sc l m h : number v n → set_option (chars "-ul") (Some v) (Settings f fs sc l m h) (Settings f fs sc (u32 n) m h).

Inductive set_options : list (list Z) → settings → settings → Prop :=
| Set_nil o : set_options [] o o
| Set_cons w ws o o' o'' :
    head w = Some 45 → set_option (option_name w) (option_value w) o o' → set_options ws o' o'' → set_options (w :: ws) o o''.

(** A pointer to the value of an option, below [hi]. *)
Definition value_at (m : mem) (lo hi p : Z) (v : option (list Z)) : Prop :=
  match v with Some v => cstr m p v ∧ lo ≤ p ∧ p + Z.of_nat (length v) < hi | None => p = 0 end.

Record matches (lo hi : Z) (o : settings) (b : startup) : Prop := {
  mt_format : format_filesys b = o_format o;
  mt_filesys : value_at (low b) lo hi (filesys_bdev_name b) (o_filesys o);
  mt_scratch : value_at (low b) lo hi (scratch_bdev_name b) (o_scratch o);
  mt_limit : user_page_limit b = o_limit o;
  mt_mlfqs : thread_mlfqs b = o_mlfqs o;
  mt_how : how b = o_how o;
}.

(** The strings of a command line one after the other, and the pointers to them. *)
Fixpoint args_at (m : mem) (p : Z) (ws : list (list Z)) : Prop :=
  match ws with [] => True | w :: ws => cstr m p w ∧ args_at m (p + Z.of_nat (length w) + 1) ws end.
Fixpoint pointers (p : Z) (ws : list (list Z)) : list Z :=
  match ws with [] => [] | w :: ws => p :: pointers (p + Z.of_nat (length w) + 1) ws end.
Definition args_size (ws : list (list Z)) : Z := foldr (λ w n, Z.of_nat (length w) + 1 + n) 0 ws.

Definition literals : list string :=
  ["="; ""; "-h"; "-q"; "-r"; "-f"; "-filesys"; "-scratch"; "-rs"; "-mlfqs"; "-ul"; "run"; "ls"; "cat"; "rm"; "extract"; "append"]%string.

(** ** The generator of random numbers after seeding depends on the seed only *)
Definition seed_turn (seed : Z) : Z * Z → M rng ((Z * Z) + unit) := λ '(i, j),
  if i <? 256 then
    v ← get_s i;
    let j := u8 (j + (v + seed_byte seed (i `mod` 4))) in
    swap_byte i j ;;
    mret (inl (i + 1, j))
  else mret (inr tt).

(** The same with other values of the other variables. *)
Definition with_vars {A} (a b : Z) (c : bool) (r : res (A * rng)) : res (A * rng) :=
  match r with Ok (x, r) => Ok (x, Rng (Random.s r) a b c) | Err e => Err e end.

Lemma seed_turn_vars seed p l a b c : seed_turn seed p (Rng l a b c) = with_vars a b c (seed_turn seed p (Rng l 0 0 false)).
Proof.
  destruct p as [i j]. unfold seed_turn. destruct (i <? 256); [|done].
  unfold swap_byte, set_s, get_s, mbind, M_bind, gets, modify, mret, M_ret, the, throw, id. cbn.
  repeat (match goal with |- context [?l !! ?k] => destruct (l !! k) eqn:?; cbn; try done end).
Qed.
Lemma seed_loop_vars seed n p l a b c :
  loop n (seed_turn seed) p (Rng l a b c) = with_vars a b c (loop n (seed_turn seed) p (Rng l 0 0 false)).
Proof.
  revert p l a b c. induction n as [|n IH]; intros p l a b c; [done|]. unfold loop. fold (@loop rng (Z * Z) unit).
  unfold mbind, M_bind. rewrite seed_turn_vars.
  destruct (seed_turn seed p (Rng l 0 0 false)) as [[[p'|[]] [l' a' b' c']]|e]; simpl; [|done|done].
  rewrite IH, (IH p' l' a' b' c'). by destruct (loop n (seed_turn seed) p' (Rng l' 0 0 false)) as [[? ?]|?].
Qed.

Lemma random_init_seed seed r : length (Random.s r) = 256%nat → random_init seed r = random_init seed (Rng all_bytes 0 0 false).
Proof.
  intros Hl. unfold random_init. fold (seed_turn seed).
  assert (∀ r, length (Random.s r) = 256%nat → for_upto 256 (λ i, set_s (Z.of_nat i) (u8 (Z.of_nat i))) r
    = Ok (tt, Rng all_bytes (s_i r) (s_j r) (inited r))) as Hf by (intros; apply wp_det_ok; by apply wp_fill).
  unfold mbind, M_bind. rewrite !Hf by done. cbn [s_i s_j inited]. rewrite (seed_loop_vars _ _ _ _ (s_i r)).
  destruct (loop 257 (seed_turn seed) (0, 0) (Rng all_bytes 0 0 false)) as [[[] r']|e]; [|done].
  by destruct r'.
Qed.

Lemma wp_seed seed r (Q : unit → rng → Prop) :
  length (Random.s r) = 256%nat → (∀ r', random_init seed (Rng all_bytes 0 0 false) = Ok (tt, r') → Q tt r') →
  wp (random_init seed) r Q.
Proof.
  intros Hl HQ. pose proof (wp_random_init r seed (λ _ _, True) Hl ltac:(done)) as ([] & r' & E & _)%wp_ok.
  unfold wp. rewrite E. apply HQ. by rewrite <-(random_init_seed seed r).
Qed.

Section line.
Context (lit : string → Z) (now : Z).

(** The literals are in memory, outside of the command line from [lo] to [hi]. *)
Definition lits_at (lo hi : Z) (m : mem) : Prop :=
  ∀ s, s ∈ literals → cstr m (lit s) (chars s) ∧ 0 < lit s ∧ (lit s + Z.of_nat (length (chars s)) < lo ∨ hi ≤ lit s).

Lemma lits_same lo hi m m' :
  lits_at lo hi m → (∀ x, x < lo ∨ hi ≤ x → m' !! x = m !! x) → lits_at lo hi m'.
Proof.
  intros H Heq s Hs. destruct (H s Hs) as (Hc & Hp & Ho). split_and!; [|done|done].
  eapply cstr_same; [done|]. intros x Hx. apply Heq. lia.
Qed.
Lemma value_same m m' lo mid hi p v :
  value_at m lo mid p v → (∀ x, lo ≤ x < mid → m' !! x = m !! x) → mid ≤ hi → value_at m' lo hi p v.
Proof.
  destruct v as [v|]; simpl; [|done]. intros (Hc & Hl & Hh) Heq Hm. split_and!; [|done|lia].
  eapply cstr_same; [done|]. intros x Hx. apply Heq. lia.
Qed.
Lemma args_same m m' p ws :
  args_at m p ws → (∀ x, p ≤ x → m' !! x = m !! x) → args_at m' p ws.
Proof.
  revert p. induction ws as [|w ws IH]; simpl; [done|]. intros p [Hc Ha] Heq. split.
  - eapply cstr_same; [done|]. intros; apply Heq; lia.
  - apply IH; [done|]. intros; apply Heq; lia.
Qed.

(** The first case whose name is [n]. *)
Fixpoint pick {A} (n : list Z) (cases : list (string * M startup A)) : M startup A :=
  match cases with [] => PANIC | (s, act) :: cases => if decide (chars s = n) then act else pick n cases end.

Lemma wp_dispatch {A} lo hi name n (cases : list (string * M startup A)) b Q :
  cstr (low b) name n → 0 < name → lits_at lo hi (low b) → Forall (λ c, c.1 ∈ literals) cases →
  wp (pick n cases) b Q → wp (dispatch lit name cases) b Q.
Proof.
  intros Hn Hp Hl Hc. induction Hc as [|[s act] cases Hs Hc IH]; intros HQ; simpl in *; [done|].
  destruct (Hl s Hs) as (Hcs & Hps & _). wp_step. unfold on_low. wp_step. eapply wp_strcmp; [done..|].
  replace (set_low (low b) b) with b by (by destruct b).
  destruct (Z.eqb_spec (str_cmp n (chars s)) 0) as [E|E].
  - apply str_cmp_eq in E as ->. by rewrite decide_True in HQ.
  - rewrite decide_False in HQ; [by apply IH|]. intros <-. apply E, str_cmp_eq. done.
Qed.

Lemma delim_eq x : is_delim [61] x = (x =? 61).
Proof.
  unfold is_delim. destruct (Z.eqb_spec x 61) as [->|Hne]; [done|]. apply bool_decide_eq_false.
  rewrite list_elem_of_singleton. done.
Qed.

(** The two calls of [strtok_r]. *)
Lemma wp_split lo hi m p w (k : Z → Z → M startup bool) b (R : bool → startup → Prop) :
  low b = m → cstr m p w → head w = Some 45 → 0 < lo ≤ p → p + Z.of_nat (length w) < hi → lits_at lo hi m →
  (∀ value m', cstr m' p (option_name w) → value_at m' (p + 1) (p + Z.of_nat (length w) + 1) value (option_value w) →
     (∀ x, x < p ∨ p + Z.of_nat (length w) ≤ x → m' !! x = m !! x) → wp (k p value) (set_low m' b) R) →
  wp ('(name, save_ptr) ← on_low (strtok_r p (lit "=") 0); '(value, _) ← on_low (strtok_r 0 (lit "") save_ptr); k name value) b R.
Proof.
  intros Hb Hw Hh Hlo Hhi Hl HR.
  destruct (Hl "="%string) as (Heq & Hpe & _); [by left|]. destruct (Hl ""%string) as (Hem & Hpm & Hom); [by right; left|].
  unfold option_name, option_value in HR. destruct (span (λ x, negb (x =? 61)) w) as [t z] eqn:Hsp.
  pose proof (span_app (λ x, negb (x =? 61)) w) as Hspl. rewrite Hsp in Hspl. destruct Hspl as (-> & Ht & Hz). simpl in HR.
  assert (t ≠ []) as Hne.
  { intros ->. simpl in *. destruct z as [|y z]; [done|]. simpl in Hh. injection Hh as ->. done. }
  assert (0 < length t)%nat by (destruct t; [done|simpl; lia]). rewrite length_app in *.
  wp_step. unfold on_low at 1. wp_step. rewrite Hb. eapply (wp_strtok_token m p 0 p _ [61] t z); [by rewrite (proj2 (Z.eqb_neq p 0)) by lia|done..|lia|done|done| | |].
  { eapply Forall_impl; [exact Ht|]. intros y Hy. rewrite delim_eq. by apply negb_true_iff in Hy. }
  { intros y Hy. rewrite delim_eq. destruct z as [|y' z]; [done|]. simplify_eq/=. by apply negb_false_iff in Hz. }
  set (m1 := if z is [] then m else _).
  assert (∀ x, x ≠ p + Z.of_nat (length t) → m1 !! x = m !! x) as Hm1 by (intros x Hx; unfold m1; destruct z; [done|]; by rewrite lookup_insert_ne by lia).
  assert (m1 !! (p + Z.of_nat (length t)) = Some 0) as Hm0.
  { unfold m1. destruct z as [|y z]; [apply cstr_end in Hw; by rewrite app_nil_r in Hw|by rewrite lookup_insert_eq]. }
  assert (cstr m1 p t) as Hname.
  { destruct Hw as [Hb1 Hc1]. apply Forall_app in Hc1 as [Hc1 _]. rewrite <-app_assoc in Hb1. apply bytes_at_app in Hb1 as [Hb1 _].
    split; [|done]. apply bytes_at_app. split.
    - intros i c Hi. rewrite Hm1; [by apply Hb1|]. apply lookup_lt_Some in Hi. lia.
    - apply bytes_at_cons. split; [done|apply bytes_at_nil]. }
  assert (∀ x, x < p ∨ p + Z.of_nat (length t + length z) ≤ x → m1 !! x = m !! x) as Hout.
  { intros x Hx. unfold m1. destruct z; [done|]. simpl in Hx. by rewrite lookup_insert_ne by lia. }
  assert (cstr m1 (lit "") []) as Hem1 by (eapply cstr_same; [exact Hem|]; simpl in *; intros x Hx; apply Hout; lia).
  wp_step. unfold on_low at 1. wp_step. change (low (set_low m1 b)) with m1.
  assert (match z with y :: v => cstr m1 (p + Z.of_nat (length t) + 1) v | [] => True end) as Hv.
  { destruct z as [|y v]; [done|]. apply cstr_drop with (i := length t) in Hw; [|rewrite length_app; lia].
    rewrite drop_app_length in Hw. apply cstr_cons in Hw as (_ & _ & Hw). eapply cstr_same; [exact Hw|].
    intros x Hx. apply Hm1. lia. }
  destruct z as [|y [|c v]].
  - apply (wp_strtok_none m1 0 _ (p + Z.of_nat (length t) + 0) (lit "") []); [done| |done|lia|done|].
    { apply cstr_nil. by rewrite Z.add_0_r. }
    by apply HR.
  - apply (wp_strtok_none m1 0 _ (p + Z.of_nat (length t) + 1) (lit "") []); [done..|lia|done|]. by apply HR.
  - eapply (wp_strtok_token m1 0 _ (p + Z.of_nat (length t) + 1) (lit "") [] (c :: v) []); [done|by rewrite app_nil_r|done|lia|done|done| |done|].
    { apply Forall_true. intros x. apply bool_decide_eq_false, not_elem_of_nil. }
    apply HR; [done| |done]. simpl. split_and!; [done|lia|simpl; lia].
Qed.

(** What one option leaves alone, with [p] and [q] the ends of its string. *)
Record kept_by (p q : Z) (b b' : startup) : Prop := {
  kb_argv : argv b' = argv b;
  kb_low : ∀ x, x < p ∨ q ≤ x → low b' !! x = low b !! x;
  kb_rnd : length (s (rnd b')) = 256%nat;
}.

Lemma wp_number m p v n (Q : Z → mem → Prop) : cstr m p v → 0 < p → number v n → Q n m → wp (atoi p) m Q.
Proof. intros Hc Hp (sp & sg & negative & ds & rest & -> & Hsp & Hsg & Hds & Hne & He & ->) HQ. by eapply wp_atoi. Qed.

Lemma pick_next {A} n s act (cases : list (string * M startup A)) : chars s ≠ n → pick n ((s, act) :: cases) = pick n cases.
Proof. intros H. simpl. by rewrite decide_False. Qed.
Lemma pick_here {A} s act (cases : list (string * M startup A)) : pick (chars s) ((s, act) :: cases) = act.
Proof. simpl. by rewrite decide_True. Qed.

Lemma wp_parse_option lo hi p w o o' b :
  cstr (low b) p w → head w = Some 45 → 0 < lo ≤ p → p + Z.of_nat (length w) < hi → lits_at lo hi (low b) →
  set_option (option_name w) (option_value w) o o' → matches lo p o b → length (s (rnd b)) = 256%nat →
  wp (parse_option lit p) b (λ go b', go = true ∧ matches lo (p + Z.of_nat (length w) + 1) o' b' ∧
    kept_by p (p + Z.of_nat (length w)) b b').
Proof.
  intros Hw Hh Hlo Hhi Hl Ho Hm Hr. unfold parse_option. eapply (wp_split lo hi (low b)); [done..|].
  intros value m' Hn Hv Hout.
  assert (0 < length w)%nat by (destruct w; [done|simpl; lia]).
  assert (∀ q v, value_at (low b) lo p q v → value_at m' lo (p + Z.of_nat (length w) + 1) q v) as Hold.
  { intros q v Hqv. eapply value_same; [done| |lia]. intros x Hx. apply Hout. lia. }
  assert (value_at m' lo (p + Z.of_nat (length w) + 1) value (option_value w)) as Hnew.
  { destruct (option_value w); [|done]. destruct Hv as (? & ? & ?). split_and!; [done|lia|done]. }
  destruct Hm as [H1 H2 H3 H4 H5 H6]. apply Hold in H2, H3.
  eapply (wp_dispatch lo hi _ (option_name w)); [done|lia| |repeat constructor; set_solver|].
  { eapply lits_same; [done|]. intros x Hx. apply Hout. simpl. lia. }
  assert (∀ n, number (default [] (option_value w)) n → is_Some (option_value w) → ∀ Q : Z → mem → Prop, Q n m' → wp (atoi value) m' Q) as Hnum.
  { intros n Hnum [v Ev] Q HQ. rewrite Ev in *. destruct Hnew as (Hc & Hp & _). eapply wp_number; [done|lia|done|done]. }
  destruct Ho; cbn [o_format o_filesys o_scratch o_limit o_mlfqs o_how] in *;
    repeat (rewrite pick_next by discriminate); rewrite pick_here;
    try (unfold shutdown_configure; wp_steps; split_and!; [done|by split|by split]).
  - wp_step. unfold on_low. wp_step. apply (Hnum n); [done|by eexists|]. wp_step. unfold on_rnd. wp_step.
    apply wp_random_init; [done|]. intros r' Hok _. wp_step. split_and!; [done|by split|].
    split; [done|done|]. simpl. by rewrite (ok_s _ Hok).
  - wp_step. unfold on_low. wp_step. apply (Hnum n); [done|by eexists|]. wp_steps. split_and!; [done|split; try done|by split].
Qed.

Lemma args_size_nonneg ws : 0 ≤ args_size ws.
Proof. induction ws; simpl; lia. Qed.

Lemma length_pointers p ws : length (pointers p ws) = length ws.
Proof. revert p. induction ws as [|w ws IH]; intros p; simpl; [done|]. by rewrite IH. Qed.

Lemma wp_parse_options p hi ws1 ws2 o o' junk b :
  argv b = pointers p (ws1 ++ ws2) ++ 0 :: junk → args_at (low b) p (ws1 ++ ws2) → 0 < p → p + args_size (ws1 ++ ws2) ≤ hi →
  lits_at p hi (low b) → set_options ws1 o o' → (∀ w, head ws2 = Some w → head w ≠ Some 45) →
  matches p p o b → length (s (rnd b)) = 256%nat →
  wp (parse_options lit now 0) b (λ r b', r = Some (length ws1) ∧ matches p (p + args_size ws1) o' b' ∧ argv b' = argv b ∧
    args_at (low b') (p + args_size ws1) ws2 ∧ random_init (u32 now) (Rng all_bytes 0 0 false) = Ok (tt, rnd b')).
Proof.
  intros Ha Hargs Hp Hhi Hl Hset Hend Hm Hr. unfold parse_options. wp_step. wp_step. wp_step.
  apply (wp_loop (λ '(rs, q, oc) i b', argv b' = argv b ∧ drop i (argv b) = pointers q (rs ++ ws2) ++ 0 :: junk ∧
      args_at (low b') q (rs ++ ws2) ∧ p ≤ q ∧ q + args_size rs = p + args_size ws1 ∧ q + args_size (rs ++ ws2) ≤ hi ∧ lits_at p hi (low b') ∧
      set_options rs oc o' ∧ matches p q oc b' ∧ length (s (rnd b')) = 256%nat ∧ (i + length rs = length ws1)%nat)
    (λ '(rs, _, _), length rs)) with (g := (ws1, p, o)); [|split_and!; done || lia|].
  2:{ rewrite Ha, length_app. rewrite length_pointers, length_app. simpl. lia. }
  intros [[rs q] oc] i b' (Ea & Hd & Hat & Hq & Es & Hh & Hl' & Hs & Hmt & Hrn & Hi). wp_step. wp_step. rewrite Ea.
  assert (∀ x t, drop i (argv b) = x :: t → argv b !! i = Some x ∧ drop (S i) (argv b) = t) as Hdrop.
  { intros x t Hx. split; [by rewrite <-(Nat.add_0_r i), <-lookup_drop, Hx|]. replace (S i) with (i + 1)%nat by lia. by rewrite <-drop_drop, Hx. }
  destruct rs as [|w rs]; simpl in Hs, Hd, Hat, Es.
  - inversion Hs; subst. rewrite Nat.add_0_r in Hi. rewrite Z.add_0_r in Es. subst i q.
    assert (wp (on_rnd (random_init (u32 now)) ;; mret (Some (length ws1))) b' (λ r b', r = Some (length ws1) ∧ matches p (p + args_size ws1) o' b' ∧
      argv b' = argv b ∧ args_at (low b') (p + args_size ws1) ws2 ∧ random_init (u32 now) (Rng all_bytes 0 0 false) = Ok (tt, rnd b'))) as Hfin.
    { wp_step. unfold on_rnd. wp_step. apply wp_seed; [done|]. intros r Er. wp_step. destruct Hmt. by split_and!; [|split|..]. }
    destruct ws2 as [|w ws2]; simpl in Hd; destruct (Hdrop _ _ Hd) as [E0 _]; wp_step; (eapply wp_the; [exact E0|]).
    + rewrite Z.eqb_refl. wp_step. exact Hfin.
    + pose proof (args_size_nonneg ws1). rewrite (proj2 (Z.eqb_neq _ 0)) by lia. destruct Hat as [Hc Hat].
      assert (∃ c, low b' !! (p + args_size ws1) = Some c ∧ c ≠ 45) as (c & Ec & Hne).
      { destruct w as [|c w]; [apply cstr_nil in Hc; by exists 0|]. apply cstr_cons in Hc as (Hc & _ & _). exists c. split; [done|].
        intros ->. by apply (Hend (45 :: w)). }
      wp_step. unfold on_low at 1. wp_step. eapply wp_load; [exact Ec|]. replace (set_low (low b') b') with b' by (by destruct b').
      rewrite (proj2 (Z.eqb_neq c 45)) by done. wp_step. exact Hfin.
  - destruct (Hdrop _ _ Hd) as [E0 Hd']. destruct Hat as [Hc Hat]. inversion Hs as [|? ? ? o1 ? Hdash Ho Hs']; subst.
    wp_step. eapply wp_the; [exact E0|]. rewrite (proj2 (Z.eqb_neq q 0)) by lia.
    assert (low b' !! q = Some 45) as Eq by (destruct w as [|c w]; [done|]; simplify_eq/=; by apply cstr_cons in Hc as (Hc & _ & _)).
    wp_step. unfold on_low at 1. wp_step. eapply wp_load; [exact Eq|]. replace (set_low (low b') b') with b' by (by destruct b').
    rewrite Z.eqb_refl. wp_step. pose proof (args_size_nonneg (rs ++ ws2)). simpl in Hh.
    eapply wp_mono; [eapply (wp_parse_option p hi q w); try done; lia|].
    intros go b2 (-> & Hmt2 & [K1 K2 K3]). wp_step. exists (rs, q + Z.of_nat (length w) + 1, o1). simpl in Hi. split; [|simpl; lia].
    split_and!; [congruence|done| |lia|lia|lia| |done|done|done|lia].
    + eapply args_same; [done|]. intros x Hx. apply K2. lia.
    + eapply lits_same; [done|]. intros x Hx. apply K2. lia.
Qed.

(** ** Actions *)
Lemma dispatch_pick {A} lo hi name n (cases : list (string * M startup A)) b :
  cstr (low b) name n → 0 < name → lits_at lo hi (low b) → Forall (λ c, c.1 ∈ literals) cases →
  dispatch lit name cases b = pick n cases b.
Proof.
  intros Hn Hp Hl Hc. induction Hc as [|[s act] cases Hs Hc IH]; simpl in *; [done|].
  destruct (Hl s Hs) as (Hcs & Hps & _).
  assert (on_low (strcmp name (lit s)) b = Ok (str_cmp n (chars s), b)) as E.
  { apply wp_det_ok. unfold on_low. wp_step. eapply wp_strcmp; [done..|]. split; [done|by destruct b]. }
  unfold mbind, M_bind. rewrite E. destruct (Z.eqb_spec (str_cmp n (chars s)) 0) as [E'|E'].
  - apply str_cmp_eq in E' as ->. by rewrite decide_True.
  - rewrite decide_False; [done|]. intros <-. apply E', str_cmp_eq. done.
Qed.

(** The calls that a list of words asks for, and whether it is without errors. *)
Definition find_action (w : list Z) : option (string * nat) := snd <$> list_find (λ a, chars a.1 = w) actions.
Fixpoint plan (fuel : nat) (ws : list (list Z)) (i : nat) : list (string * nat) * bool :=
  match fuel, ws with
  | _, [] => ([], true)
  | O, _ => ([], false)
  | S fuel, w :: ws =>
      match find_action w with
      | None => ([], false)
      | Some (name, argc) =>
          if decide (length ws < pred argc)%nat then ([], false)
          else let '(cs, ok) := plan fuel (drop (pred argc) ws) (i + argc) in ((name, i) :: cs, ok)
      end
  end.

Context (function : string → nat → M startup unit).
Fixpoint do_calls (cs : list (string * nat)) (ok : bool) : M startup unit :=
  match cs with
  | [] => if ok then mret tt else PANIC
  | (name, i) :: cs => function name i ;; do_calls cs ok
  end.

Lemma pick_actions w b :
  pick w ((λ '(name, argc), (name, mret (name, argc))) <$> actions) b
  = match find_action w with Some a => Ok (a, b) | None => Err EPanic end.
Proof.
  unfold find_action. induction actions as [|[name argc] l IH]; [done|]. rewrite fmap_cons. cbn [pick list_find fst].
  destruct (decide (chars name = w)) as [E|E]; [done|]. rewrite IH. by destruct (list_find _ l) as [[? ?]|].
Qed.
Lemma actions_argc w name argc : find_action w = Some (name, argc) → (0 < argc)%nat.
Proof.
  unfold find_action. intros ([k a] & (Hk & _ & _)%list_find_Some & E)%fmap_Some. simpl in E. subst a.
  assert (Forall (λ a, 0 < a.2)%nat actions) as Ha by (repeat constructor). by apply (Forall_lookup_1 _ _ _ _ Ha Hk).
Qed.

Lemma wp_check_args b q ws junk i n :
  drop i (argv b) = pointers q ws ++ 0 :: junk → args_at (low b) q ws → 0 < q →
  check_args i n b = if decide (length ws < n)%nat then Err EPanic else Ok (tt, b).
Proof.
  revert i q ws. induction n as [|n IH]; intros i q ws Hd Ha Hq; simpl; [done|].
  unfold mbind, M_bind, gets. destruct ws as [|w ws]; simpl in Hd.
  - assert (argv b !! i = Some 0) as -> by (by rewrite <-(Nat.add_0_r i), <-lookup_drop, Hd). done.
  - assert (argv b !! i = Some q) as -> by (by rewrite <-(Nat.add_0_r i), <-lookup_drop, Hd). cbn [the].
    unfold mret at 1, M_ret at 1. rewrite (proj2 (Z.eqb_neq q 0)) by lia.
    rewrite (IH (S i) (q + Z.of_nat (length w) + 1) ws); [|replace (S i) with (i + 1)%nat by lia; by rewrite <-drop_drop, Hd|apply Ha|lia].
    simpl. repeat case_decide; done || lia.
Qed.

Lemma args_drop m q ws k :
  args_at m q ws → 0 < q → (k ≤ length ws)%nat → ∃ q', 0 < q' ∧ args_at m q' (drop k ws) ∧ drop k (pointers q ws) = pointers q' (drop k ws).
Proof.
  revert q ws. induction k as [|k IH]; intros q ws Ha Hq Hk; [by exists q|].
  destruct ws as [|w ws]; simpl in *; [lia|]. apply IH; [apply Ha|lia|lia].
Qed.

(** The functions of the actions leave the command line alone. *)
Definition keeps_line : Prop :=
  ∀ name i b b', function name i b = Ok (tt, b') → argv b' = argv b ∧ low b' = low b.

Lemma run_actions_loop lo hi junk fuel n :
  keeps_line → ∀ b i q ws, lits_at lo hi (low b) → drop i (argv b) = pointers q ws ++ 0 :: junk → args_at (low b) q ws → 0 < q →
  (length ws ≤ n)%nat → (length ws < fuel)%nat →
  loop fuel (λ i,
    a ← gets argv;
    p ← the (a !! i);
    if p =? 0 then mret (inr tt)
    else
      '(name, argc) ← dispatch lit p ((λ '(name, argc), (name, mret (name, argc))) <$> actions);
      check_args (S i) (pred argc) ;;
      function name i ;;
      mret (inl (i + argc)%nat)) i b
  = (let '(cs, ok) := plan n ws i in do_calls cs ok) b.
Proof.
  intros Hk. revert n. induction fuel as [|fuel IH]; intros n b i q ws Hl Hd Ha Hq Hn Hf; [lia|].
  unfold loop. fold (@loop startup nat unit).
  assert (∀ x t, drop i (argv b) = x :: t → the (argv b !! i) b = Ok (x, b) ∧ ∀ k, drop (i + S k) (argv b) = drop k t) as Hdrop.
  { intros x t Hx. split; [by rewrite <-(Nat.add_0_r i), <-lookup_drop, Hx|]. intros k. by rewrite <-drop_drop, Hx. }
  destruct ws as [|w ws]; simpl in Hd; destruct (Hdrop _ _ Hd) as [Ei Hd'].
  { erewrite run_bind; [|erewrite run_bind by done; erewrite run_bind by exact Ei; by rewrite Z.eqb_refl]. by destruct n. }
  destruct Ha as [Hc Ha]. simpl in Hn, Hf. destruct n as [|n]; [lia|]. cbn [plan].
  assert (dispatch lit q ((λ '(name, argc), (name, mret (name, argc))) <$> actions) b
    = match find_action w with Some a => Ok (a, b) | None => Err EPanic end) as Ed.
  { rewrite (dispatch_pick lo hi q w); [apply pick_actions|done..|]. repeat constructor; set_solver. }
  assert ((q =? 0) = false) as Eq0 by (apply Z.eqb_neq; lia).
  destruct (find_action w) as [[name argc]|] eqn:Ef.
  2:{ erewrite run_bind_err; [done|]. erewrite run_bind by done. erewrite run_bind by exact Ei. rewrite Eq0. by erewrite run_bind_err. }
  apply actions_argc in Ef.
  assert (check_args (S i) (pred argc) b = if decide (length ws < pred argc)%nat then Err EPanic else Ok (tt, b)) as Ec.
  { apply (wp_check_args b (q + Z.of_nat (length w) + 1) ws junk); [|done|lia]. specialize (Hd' 0%nat). by rewrite Nat.add_1_r in Hd'. }
  destruct (decide (length ws < pred argc)%nat) as [|Hlen].
  { erewrite run_bind_err; [done|]. erewrite run_bind by done. erewrite run_bind by exact Ei. rewrite Eq0. erewrite run_bind by exact Ed. cbn beta iota.
    by erewrite run_bind_err. }
  destruct (args_drop (low b) (q + Z.of_nat (length w) + 1) ws (pred argc) Ha ltac:(lia) ltac:(lia)) as (q' & Hq' & Ha' & Hp').
  destruct (plan n (drop (pred argc) ws) (i + argc)) as [cs ok] eqn:Ep. cbn [do_calls].
  destruct (function name i b) as [[[] b']|e] eqn:Efn.
  2:{ erewrite run_bind_err; [symmetry; by apply run_bind_err|]. erewrite run_bind by done. erewrite run_bind by exact Ei. rewrite Eq0.
      erewrite run_bind by exact Ed. cbn beta iota. erewrite run_bind by exact Ec. by apply run_bind_err. }
  rewrite (run_bind _ _ _ _ _ Efn). destruct (Hk _ _ _ _ Efn) as [Ea El].
  erewrite run_bind; [|erewrite run_bind by done; erewrite run_bind by exact Ei; rewrite Eq0; erewrite run_bind by exact Ed; cbn beta iota;
    erewrite run_bind by exact Ec; erewrite run_bind by exact Efn; done].
  cbn beta iota. pose proof (length_drop ws (pred argc)) as Hld.
  specialize (IH n b' (i + argc)%nat q' (drop (pred argc) ws)). rewrite Ep, Ea, El in IH. apply IH; try done; [|lia|lia].
  replace argc with (S (pred argc)) at 1 by lia. rewrite Hd', drop_app_le, Hp'; [done|rewrite length_pointers; lia].
Qed.
End line.

(** ** Finding the arguments *)
Definition args_base : Z := PHYS_BASE + LOADER_ARGS.
Definition count_base : Z := PHYS_BASE + LOADER_ARG_CNT.

(** What the loader leaves in memory. *)
Record loader_left (ws : list (list Z)) (b : startup) : Prop := {
  ld_argv : length (argv b) = 65%nat;
  ld_mapped : mapped (low b) count_base 4;
  ld_count : word (low b) count_base = Z.of_nat (length ws);
  ld_args : args_at (low b) args_base ws;
  ld_size : args_size ws ≤ LOADER_ARGS_LEN;
}.

Lemma pointers_drop p ws1 ws2 : drop (length ws1) (pointers p (ws1 ++ ws2)) = pointers (p + args_size ws1) ws2.
Proof.
  revert p. induction ws1 as [|w ws1 IH]; intros p; simpl; [by rewrite Z.add_0_r|]. rewrite IH. f_equal. lia.
Qed.
Lemma args_length ws : Z.of_nat (length ws) ≤ args_size ws.
Proof. induction ws; simpl; lia. Qed.
Lemma args_size_app ws1 ws2 : args_size (ws1 ++ ws2) = args_size ws1 + args_size ws2.
Proof. induction ws1 as [|w ws1 IH]; simpl; [done|]. rewrite IH. lia. Qed.

Lemma set_arg_snoc (l : list Z) ps i x : take i l = ps → (i < length l)%nat → take (S i) (<[i := x]> l) = ps ++ [x].
Proof.
  intros Ht Hi. rewrite (take_S_r _ _ x); [|by apply list_lookup_insert_eq]. by rewrite take_insert_ge, Ht.
Qed.

Lemma wp_put_arg b i x (Q : unit → startup → Prop) :
  (Z.to_nat i < length (argv b))%nat → 0 ≤ i → Q tt (set_argv (<[Z.to_nat i := x]> (argv b)) b) → wp (put_arg i x) b Q.
Proof. intros Hi H0 HQ. unfold put_arg. wp_steps. rewrite decide_True by lia. by wp_step. Qed.

Lemma wp_read_command_line ws b (Q : nat → startup → Prop) :
  loader_left ws b → (length ws ≤ 64)%nat → (∀ junk, Q O (set_argv (pointers args_base ws ++ 0 :: junk) b)) →
  wp read_command_line b Q.
Proof.
  intros [Ha Hm Hc Hat Hsz] Hlen HQ. unfold read_command_line.
  wp_step. apply wp_ptov; [done|]. wp_step. unfold on_low at 1. wp_step.
  change (LOADER_ARG_CNT + PHYS_BASE) with count_base. apply wp_load32; [done|]. rewrite Hc.
  replace (set_low (low b) b) with b by (by destruct b). rewrite s32_small by lia.
  wp_step. apply wp_ptov; [done|]. change (LOADER_ARGS + PHYS_BASE) with args_base. change LOADER_ARGS_LEN with 128 in *.
  wp_step. rewrite Nat2Z.id.
  apply (wp_loop (λ rs '(i, p) b', ∃ ds l, ws = ds ++ rs ∧ i = Z.of_nat (length ds) ∧ p = args_base + args_size ds ∧
      b' = set_argv l b ∧ length l = 65%nat ∧ take (length ds) l = take (length ds) (pointers args_base ws)) length) with (g := ws).
  - intros rs [i p] b' (ds & l & Ews & -> & -> & -> & Hl & Ht). rewrite Ews, length_app, args_size_app in *.
    destruct rs as [|w rs].
    + rewrite (proj2 (Z.ltb_ge _ _)) by (simpl; lia). wp_steps. rewrite app_nil_r, Nat.add_0_r in *.
      apply wp_put_arg; [simpl; lia|lia|]. wp_step. cbn [argv set_argv]. rewrite Nat2Z.id.
      assert (<[length ds := 0]> l = pointers args_base ds ++ 0 :: drop (S (length ds)) l) as ->.
      { rewrite insert_take_drop by lia. rewrite Ht, take_ge; [done|by rewrite length_pointers]. }
      apply HQ.
    + assert (args_at (low b) (args_base + args_size ds) (w :: rs)) as [Hw Hrs].
      { clear -Hat. revert Hat. generalize args_base. induction ds as [|d ds IH]; intros p; simpl; [by rewrite Z.add_0_r|].
        intros [_ H]. apply IH in H. by replace (p + (Z.of_nat (length d) + 1 + args_size ds)) with (p + Z.of_nat (length d) + 1 + args_size ds) by lia. }
      rewrite (proj2 (Z.ltb_lt _ _)) by (simpl; lia). simpl in Hsz, Hlen. pose proof (args_size_nonneg rs). pose proof (args_size_nonneg ds).
      rewrite (proj2 (Z.leb_gt _ _)) by lia. wp_step. apply wp_put_arg; [simpl; lia|lia|]. cbn [argv set_argv]. rewrite Nat2Z.id.
      wp_step. unfold on_low at 1. wp_step. eapply wp_strnlen; [done|lia|]. wp_step. exists rs.
      rewrite Z.min_l by lia. split; [|simpl; lia]. exists (ds ++ [w]), (<[length ds := args_base + args_size ds]> l).
      rewrite <-app_assoc, length_app, args_size_app, length_insert. split_and!; [done|simpl; lia|simpl; lia|done|done|].
      simpl. rewrite Nat.add_1_r. rewrite (set_arg_snoc l _ _ _ Ht) by lia. symmetry. apply take_S_r.
      by rewrite <-(Nat.add_0_r (length ds)), <-lookup_drop, pointers_drop.
  - exists [], (argv b). split_and!; [done|done|simpl; lia|by destruct b|done|done].
  - lia.
Qed.

(** ** Theorems *)

(** Reading the command line, with the state of the generator: [parse_options] seeds
    it with the time at the end, so that a seed given with -rs is lost. *)
Lemma command_line lit now ws1 ws2 o o' b :
  loader_left (ws1 ++ ws2) b → (length (ws1 ++ ws2) ≤ 64)%nat → lits_at lit args_base (args_base + LOADER_ARGS_LEN) (low b) →
  matches args_base args_base o b → length (s (rnd b)) = 256%nat →
  set_options ws1 o o' → (∀ w, head ws2 = Some w → head w ≠ Some 45) →
  ∃ b', (i ← read_command_line; parse_options lit now i) b = Ok (Some (length ws1), b') ∧
    matches args_base (args_base + args_size ws1) o' b' ∧ args_at (low b') (args_base + args_size ws1) ws2 ∧
    (∃ junk, drop (length ws1) (argv b') = pointers (args_base + args_size ws1) ws2 ++ 0 :: junk) ∧
    random_init (u32 now) (Rng all_bytes 0 0 false) = Ok (tt, rnd b').
Proof.
  intros Hld Hlen Hlit Hm Hr Ho Hend.
  assert (wp (i ← read_command_line; parse_options lit now i) b (λ r b', r = Some (length ws1) ∧
    matches args_base (args_base + args_size ws1) o' b' ∧ args_at (low b') (args_base + args_size ws1) ws2 ∧
    (∃ junk, drop (length ws1) (argv b') = pointers (args_base + args_size ws1) ws2 ++ 0 :: junk) ∧
    random_init (u32 now) (Rng all_bytes 0 0 false) = Ok (tt, rnd b'))) as (r & b' & E & -> & H)%wp_ok; [|by exists b'].
  wp_step. eapply wp_read_command_line; [done|done|]. intros junk.
  eapply wp_mono; [eapply (wp_parse_options lit now args_base (args_base + LOADER_ARGS_LEN) ws1 ws2 o o' junk); try done|].
  - apply (ld_args _ _ Hld).
  - pose proof (ld_size _ _ Hld). lia.
  - by destruct Hm.
  - intros r b' (-> & Hm' & Ea & Hat & Hrn). cbn [argv set_argv] in Ea. split_and!; [done|done|done| |done].
    exists junk. rewrite Ea, drop_app_le by (rewrite length_pointers, length_app; lia). by rewrite pointers_drop.
Qed.

(** C30: the kernel understands its command line.  Of the strings that the loader
    leaves, at most 64 in 128 bytes, those up to the first that does not begin with a
    dash are options.  If all of them are known options other than -h, with a decimal
    number where the option takes one, then every variable has afterwards the value
    that the last option for it gives, names of devices point at their strings, the
    words after the options are as they were, and without -rs among the options the
    generator of random numbers is in the state that the time of the clock gives. *)
Theorem command_line_correct lit now ws1 ws2 o o' b :
  loader_left (ws1 ++ ws2) b → (length (ws1 ++ ws2) ≤ 64)%nat → lits_at lit args_base (args_base + LOADER_ARGS_LEN) (low b) →
  matches args_base args_base o b → length (s (rnd b)) = 256%nat →
  set_options ws1 o o' → (∀ w, head ws2 = Some w → head w ≠ Some 45) →
  ∃ b', (i ← read_command_line; parse_options lit now i) b = Ok (Some (length ws1), b') ∧
    matches args_base (args_base + args_size ws1) o' b' ∧ args_at (low b') (args_base + args_size ws1) ws2 ∧
    (∃ junk, drop (length ws1) (argv b') = pointers (args_base + args_size ws1) ws2 ++ 0 :: junk) ∧
    (Forall (λ w, option_name w ≠ chars "-rs") ws1 →
     random_init (u32 now) (Rng all_bytes 0 0 false) = Ok (tt, rnd b')).
Proof.
  intros Hld Hlen Hlit Hm Hr Ho Hend.
  destruct (command_line lit now ws1 ws2 o o' b Hld Hlen Hlit Hm Hr Ho Hend) as (b' & E & H1 & H2 & H3 & H4).
  exists b'. split; [exact E|]. split; [exact H1|]. split; [exact H2|]. split; [exact H3|]. intros _. exact H4.
Qed.

(** The words after the options are actions; [run_actions] calls their functions
    one after the other, each with its place in the command line, as long as they are
    known and have their arguments, and panics at the first that is not. *)
Theorem run_actions_correct lit function lo hi junk b i q ws :
  keeps_line function → lits_at lit lo hi (low b) → drop i (argv b) = pointers q ws ++ 0 :: junk → args_at (low b) q ws → 0 < q →
  run_actions lit function i b = (let '(cs, ok) := plan (length ws) ws i in do_calls function cs ok) b.
Proof.
  intros Hk Hl Hd Ha Hq. unfold run_actions. unfold mbind at 1, M_bind at 1, gets at 1.
  eapply (run_actions_loop lit function lo hi junk); [done..|lia|].
  assert (length (drop i (argv b)) = length (pointers q ws ++ 0 :: junk)) as E by (by rewrite Hd).
  rewrite length_drop, length_app, length_pointers in E. simpl in E. lia.
Qed.

(** ** The roles of block devices *)
Lemma find_type_spec t role n i :
  (length (all_blocks t) ≤ n + i)%nat → (i ≤ length (all_blocks t))%nat →
  find_type n role (if decide (i = length (all_blocks t)) then None else Some i) t
  = Ok ((λ k, (i + k)%nat) ∘ fst <$> list_find (λ b, btype b = role) (drop i (all_blocks t)), t).
Proof.
  revert i. induction n as [|n IH]; intros i Hn Hi; case_decide as Ei; [by rewrite Ei, drop_ge|lia|by rewrite Ei, drop_ge|].
  destruct (lookup_lt_is_Some_2 (all_blocks t) i) as [b Hb]; [lia|]. cbn [find_type].
  rewrite (run_bind _ _ t (btype b) t); [|unfold block_type, get_block, mbind, M_bind, gets; rewrite Hb; done].
  rewrite (drop_S _ _ _ Hb). cbn [list_find]. destruct (Z.eqb_spec (btype b) role) as [Et|Et].
  - rewrite decide_True by done. simpl. by rewrite Nat.add_0_r.
  - rewrite decide_False by done. rewrite (run_bind _ _ t (if decide (S i = length (all_blocks t)) then None else Some (S i)) t); [|done].
    rewrite IH by lia. destruct (list_find _ _) as [[k ?]|]; simpl; [|done]. do 3 f_equal. lia.
Qed.

(** The device that should play [role]. *)
Definition chosen (t : blocks) (role : Z) (name : option (list Z)) : option nat :=
  match name with
  | Some n => fst <$> list_find (λ b, bname b = n) (all_blocks t)
  | None => fst <$> list_find (λ b, btype b = role) (all_blocks t)
  end.

(** A role goes to the device that the command line names, and the kernel panics
    if there is none of that name; without a name it goes to the first device of the
    type, and stays free if there is none.  No other role changes. *)
Theorem locate_block_device_correct t role name :
  0 ≤ role < BLOCK_ROLE_CNT →
  locate_block_device role name t = match chosen t role name, name with
    | Some k, _ => Ok (tt, Blocks (all_blocks t) (<[Z.to_nat role := Some k]> (block_by_role t)))
    | None, Some _ => Err EPanic
    | None, None => Ok (tt, t)
    end.
Proof.
  intros Hrole.
  assert (∀ k, block_set_role role (Some k) t = Ok (tt, Blocks (all_blocks t) (<[Z.to_nat role := Some k]> (block_by_role t)))) as Hset.
  { intros k. apply wp_det_ok. unfold block_set_role. wp_step. apply wp_assert; [apply Z.ltb_lt; lia|]. by wp_step. }
  unfold locate_block_device, chosen. destruct name as [n|].
  - destruct (list_find (λ b, bname b = n) (all_blocks t)) as [[k b]|] eqn:E; simpl.
    + rewrite (run_bind _ _ t (Some k) t); [by apply Hset|]. unfold block_get_by_name, mbind, M_bind, gets. by rewrite E.
    + apply run_bind_err. unfold block_get_by_name, mbind, M_bind, gets. by rewrite E.
  - pose proof (find_type_spec t role (length (all_blocks t)) 0 ltac:(lia) ltac:(lia)) as Ef. rewrite drop_0 in Ef.
    erewrite run_bind; [|erewrite run_bind by done; erewrite run_bind by done; exact Ef].
    destruct (list_find _ _) as [[k b]|]; simpl; [apply Hset|done].
Qed.

(** ** Examples *)
Definition cstr_check (m : mem) (a : Z) (s : list Z) : bool :=
  bool_decide ((λ i, m !! (a + Z.of_nat i)) <$> seq 0 (S (length s)) = Some <$> (s ++ [0])) && forallb (λ c, (0 <? c) && (c <? 256)) s.
Lemma cstr_check_sound m a s : cstr_check m a s = true → cstr m a s.
Proof.
  intros [H1 H2]%andb_true_iff. apply bool_decide_eq_true in H1. split.
  - intros i c Hi. assert ((Some <$> (s ++ [0])) !! i = Some (Some c)) as E by (by rewrite list_lookup_fmap, Hi).
    rewrite <-H1, list_lookup_fmap in E. apply lookup_lt_Some in Hi. rewrite length_app in Hi. simpl in Hi.
    rewrite lookup_seq_lt in E by lia. simpl in E. by injection E.
  - apply Forall_forall. intros c Hc%list_elem_of_In. rewrite forallb_forall in H2. specialize (H2 c Hc). unfold is_char. lia.
Qed.

Definition ex_lit (s : string) : Z :=
  match list_find (λ x, x = s) literals with Some (k, _) => 1000 + 20 * Z.of_nat k | None => 0 end.
Definition ex_words : list (list Z) := [chars "-filesys=hdb1"; chars "-ul=7"; chars "-q"; chars "run"; chars "echo x"].
Definition ex_low : mem :=
  write (foldr (λ s m, write m (ex_lit s) (chars s ++ [0])) ∅ literals) count_base
    (word_bytes4 5 ++ mjoin ((λ w, w ++ [0]) <$> ex_words)).
Definition ex_start : startup := Startup ex_low (replicate 65 0) false 0 0 4294967295 false 0 (Rng (replicate 256 0) 0 0 false).

Lemma ex_loaded : loader_left ex_words ex_start.
Proof.
  split; [done| |vm_compute; reflexivity| |vm_compute; discriminate].
  - assert (forallb (λ x, bool_decide (is_Some (low ex_start !! x))) (seqZ count_base 4) = true) as H by (vm_compute; reflexivity).
    rewrite forallb_forall in H. intros x Hx. apply (bool_decide_eq_true _), H, list_elem_of_In, elem_of_seqZ. lia.
  - cbn [args_at ex_words]. split_and!; [..|exact I]; apply cstr_check_sound; vm_compute; reflexivity.
Qed.
Lemma ex_lits : lits_at ex_lit args_base (args_base + LOADER_ARGS_LEN) ex_low.
Proof.
  assert (forallb (λ s, cstr_check ex_low (ex_lit s) (chars s) && (0 <? ex_lit s) && (ex_lit s + Z.of_nat (length (chars s)) <? args_base)) literals = true)
    as H by (vm_compute; reflexivity).
  rewrite forallb_forall in H. intros s Hs%list_elem_of_In. apply H in Hs. apply andb_true_iff in Hs as [[Hc Hp]%andb_true_iff Ho].
  split_and!; [by apply cstr_check_sound|by apply Z.ltb_lt|left; by apply Z.ltb_lt].
Qed.

Lemma command_line_correct_witness :
  ∃ b', (i ← read_command_line; parse_options ex_lit 1000 i) ex_start = Ok (Some 3%nat, b') ∧
    how b' = SHUTDOWN_POWER_OFF ∧ user_page_limit b' = 7 ∧ cstr (low b') (filesys_bdev_name b') (chars "hdb1") ∧
    args_at (low b') (args_base + 23) [chars "run"; chars "echo x"] ∧ random_init 1000 (Rng all_bytes 0 0 false) = Ok (tt, rnd b').
Proof.
  destruct (command_line_correct ex_lit 1000 (take 3 ex_words) (drop 3 ex_words)
    (Settings false None None 4294967295 false 0) (Settings false (Some (chars "hdb1")) None 7 false SHUTDOWN_POWER_OFF) ex_start)
    as (b' & E & [_ Hf _ Hul _ Hh] & Ha & _ & Hrs).
  - apply ex_loaded.
  - simpl. lia.
  - apply ex_lits.
  - by split.
  - done.
  - apply (Set_cons _ _ _ (Settings false (Some (chars "hdb1")) None 4294967295 false 0)); [done|apply (Set_filesys (Some (chars "hdb1")))|].
    eapply Set_cons; [done|apply (Set_ul [55] 7)|].
    { exists [], [], false, [55], []. split_and!; try done; [by left|by repeat constructor]. }
    eapply Set_cons; [done|apply (Set_q None)|]. apply Set_nil.
  - intros w [= <-]. done.
  - exists b'. split; [exact E|]. split; [exact Hh|]. split; [exact Hul|]. split; [apply Hf|]. split; [exact Ha|].
    apply Hrs. repeat constructor; discriminate.
Defined.

(** Actions that record their places in the variable [how]. *)
Definition ex_function (name : string) (i : nat) : M startup unit :=
  b ← gets id; shutdown_configure (10 * how b + Z.of_nat i).
Definition ex_actions : startup :=
  Startup (write (foldr (λ s m, write m (ex_lit s) (chars s ++ [0])) ∅ literals) 5000 (mjoin ((λ w, w ++ [0]) <$> [chars "ls"; chars "run"; chars "echo"; chars "cat"])))
    (pointers 5000 [chars "ls"; chars "run"; chars "echo"; chars "cat"] ++ [0]) false 0 0 0 false 0 (Rng [] 0 0 false).

Lemma run_actions_correct_witness :
  run_actions ex_lit ex_function 0 ex_actions = do_calls ex_function [("ls", 0%nat); ("run", 1%nat)]%string false ex_actions ∧
  do_calls ex_function [("ls", 0%nat); ("run", 1%nat)]%string false ex_actions = Err EPanic.
Proof.
  split; [|reflexivity].
  apply (run_actions_correct ex_lit ex_function 5000 5100 [] ex_actions 0 5000 [chars "ls"; chars "run"; chars "echo"; chars "cat"]).
  - intros name i b b' [= <-]. done.
  - assert (forallb (λ s, cstr_check (low ex_actions) (ex_lit s) (chars s) && (0 <? ex_lit s) && (ex_lit s + Z.of_nat (length (chars s)) <? 5000)) literals = true)
      as H by (vm_compute; reflexivity).
    rewrite forallb_forall in H. intros s Hs%list_elem_of_In. apply H in Hs. apply andb_true_iff in Hs as [[Hc Hp]%andb_true_iff Ho].
    split_and!; [by apply cstr_check_sound|by apply Z.ltb_lt|left; by apply Z.ltb_lt].
  - reflexivity.
  - cbn [args_at]. split_and!; [..|exact I]; apply cstr_check_sound; vm_compute; reflexivity.
  - lia.
Defined.

Definition ex_device_table : blocks :=
  Blocks [Block (chars "hda") BLOCK_RAW 8 (Disk []) 0 0; Block (chars "hda2") BLOCK_FILESYS 4 (Partition 0 1) 0 0;
          Block (chars "hda3") BLOCK_FILESYS 2 (Partition 0 5) 0 0] [None; None; None; None].
Lemma locate_block_device_correct_witness :
  locate_block_device BLOCK_FILESYS None ex_device_table = Ok (tt, Blocks (all_blocks ex_device_table) [None; Some 1%nat; None; None]) ∧
  locate_block_device BLOCK_FILESYS (Some (chars "hda3")) ex_device_table = Ok (tt, Blocks (all_blocks ex_device_table) [None; Some 2%nat; None; None]) ∧
  locate_block_device BLOCK_SCRATCH (Some (chars "hdb")) ex_device_table = Err EPanic.
Proof.
  split_and!.
  - exact (locate_block_device_correct ex_device_table BLOCK_FILESYS None ltac:(by split)).
  - exact (locate_block_device_correct ex_device_table BLOCK_FILESYS (Some (chars "hda3")) ltac:(by split)).
  - exact (locate_block_device_correct ex_device_table BLOCK_SCRATCH (Some (chars "hdb")) ltac:(by split)).
Defined.

(** An option that needs a value, without one: [atoi] is called with a null pointer. *)
Example option_without_value :
  parse_option ex_lit 5000 (set_low (write ex_low 5000 (chars "-ul" ++ [0])) ex_start) = Err EAssert.
Proof. vm_compute. reflexivity. Qed.

(** 65 empty arguments fit into the 128 bytes, but their null pointer does not fit
    into [argv]. *)
Example too_many_words : read_command_line (set_low (write ∅ count_base (word_bytes4 65 ++ replicate 128 0)) ex_start) = Err EFault.
Proof. vm_compute. reflexivity. Qed.
