(* ===== verification/UserLib.v ===== *)
(** * The user library: lib/user/syscall.c and lib/user/console.c

    The functions of lib/user/syscall.c push their arguments and the number of the
    call on the stack of the process and enter the kernel, where [syscall_handler] of
    Syscall.v takes them from there; [esp] is the stack pointer.  Formatted output of a
    process goes through a buffer of 64 bytes. *)
From stdpp Require Import strings.
From S2P Require Import Prelude Bitmap BitmapFacts Mem CString CStringFacts CStdlib Vaddr Palloc PallocFacts Pagedir PagedirFacts PagedirProps CStdio CStdioFacts Block Inode File Directory Filesys Loader UserMem Syscall LoaderProps SyscallProps.
Local Open Scope Z_scope.

Lemma run_bindx {A B} (m : M proc (option A)) (k : A → M proc (option B)) s a s' : m s = Ok (Some a, s') → bindx m k s = k a s'.
Proof. unfold bindx, mbind, M_bind. by intros ->. Qed.

(** ** System calls *)
Definition SYS_MMAP : Z := 13.
Definition SYS_MUNMAP : Z := 14.

Definition pushl (v esp : Z) : M proc Z :=
  let esp := u32 (esp - 4) in
  on_mmu (user_write32 esp (u32 v)) ;; mret esp.

Section calls.
Context (init_page_dir : Z).

(** [int $0x30]; the value is that of the register EAX. *)
Definition syscall0 (number esp : Z) : M proc (option outcome) :=
  esp ← pushl number esp; syscall_handler init_page_dir esp.

Definition syscall1 (number arg0 esp : Z) : M proc (option outcome) :=
  esp ← pushl arg0 esp; esp ← pushl number esp; syscall_handler init_page_dir esp.

Definition syscall2 (number arg0 arg1 esp : Z) : M proc (option outcome) :=
  esp ← pushl arg1 esp; esp ← pushl arg0 esp; esp ← pushl number esp; syscall_handler init_page_dir esp.

Definition syscall3 (number arg0 arg1 arg2 esp : Z) : M proc (option outcome) :=
  esp ← pushl arg2 esp; esp ← pushl arg1 esp; esp ← pushl arg0 esp; esp ← pushl number esp;
  syscall_handler init_page_dir esp.

Definition halt : Z → M proc (option outcome) := syscall0 SYS_HALT.
Definition exit (status : Z) : Z → M proc (option outcome) := syscall1 SYS_EXIT status.
Definition exec (file : Z) : Z → M proc (option outcome) := syscall1 SYS_EXEC file.
Definition wait (pid : Z) : Z → M proc (option outcome) := syscall1 SYS_WAIT pid.
Definition create (file initial_size : Z) : Z → M proc (option outcome) := syscall2 SYS_CREATE file initial_size.
Definition remove (file : Z) : Z → M proc (option outcome) := syscall1 SYS_REMOVE file.
Definition open (file : Z) : Z → M proc (option outcome) := syscall1 SYS_OPEN file.
Definition filesize (fd : Z) : Z → M proc (option outcome) := syscall1 SYS_FILESIZE fd.
Definition read (fd buffer size : Z) : Z → M proc (option outcome) := syscall3 SYS_READ fd buffer size.
Definition write (fd buffer size : Z) : Z → M proc (option outcome) := syscall3 SYS_WRITE fd buffer size.
Definition seek (fd position : Z) : Z → M proc (option outcome) := syscall2 SYS_SEEK fd position.
Definition tell (fd : Z) : Z → M proc (option outcome) := syscall1 SYS_TELL fd.
Definition close (fd : Z) : Z → M proc (option outcome) := syscall1 SYS_CLOSE fd.
Definition mmap (fd addr : Z) : Z → M proc (option outcome) := syscall2 SYS_MMAP fd addr.
Definition munmap (mapid : Z) : Z → M proc (option outcome) := syscall1 SYS_MUNMAP mapid.
Definition chdir (dir : Z) : Z → M proc (option outcome) := syscall1 SYS_CHDIR dir.
Definition mkdir (dir : Z) : Z → M proc (option outcome) := syscall1 SYS_MKDIR dir.
Definition readdir (fd name : Z) : Z → M proc (option outcome) := syscall2 SYS_READDIR fd name.
Definition isdir (fd : Z) : Z → M proc (option outcome) := syscall1 SYS_ISDIR fd.
Definition inumber (fd : Z) : Z → M proc (option outcome) := syscall1 SYS_INUMBER fd.
End calls.

(** ** Formatted output

    [written] is the list of the calls of [write] with their handles. *)
Record vhprintf_aux := HAux { h_mem : mem; h_buf : list Z; h_cnt : Z; h_handle : Z; written : list (Z * list Z) }.

(** [h_buf] is the part of the buffer before [p]. *)
Definition flush : M vhprintf_aux unit :=
  a ← gets id;
  (if decide (h_buf a ≠ []) then
     modify (λ a, HAux (h_mem a) (h_buf a) (h_cnt a) (h_handle a) (written a ++ [(h_handle a, h_buf a)]))
   else mret tt) ;;
  modify (λ a, HAux (h_mem a) [] (h_cnt a) (h_handle a) (written a)).

Definition add_char (c : Z) : M vhprintf_aux unit :=
  a ← gets id;
  (* [*aux->p++ = c] into [char buf[64]] *)
  (if decide (length (h_buf a) < 64)%nat then mret tt else throw EFault) ;;
  modify (λ a, HAux (h_mem a) (h_buf a ++ [c]) (h_cnt a) (h_handle a) (written a)) ;;
  n ← gets (λ a, length (h_buf a));
  (if decide (64 ≤ n)%nat then flush else mret tt) ;;
  modify (λ a, HAux (h_mem a) (h_buf a) (s32 (h_cnt a + 1)) (h_handle a) (written a)).

(** The calls of [write] and the result. *)
Definition vhprintf (handle : Z) (fmt args : list Z) (m : mem) : res (Z * list (Z * list Z)) :=
  match (vprintf h_mem add_char fmt args ;; flush) (HAux m [] 0 handle []) with
  | Ok (_, a) => Ok (h_cnt a, written a)
  | Err e => Err e
  end.
Definition hprintf (handle : Z) (fmt args : list Z) (m : mem) : res (Z * list (Z * list Z)) := vhprintf handle fmt args m.
Definition STDOUT_FILENO : Z := 1.
Definition user_putchar (c : Z) : Z * list (Z * list Z) := (c, [(STDOUT_FILENO, [u8 c])]).
Definition user_puts (s : Z) : M mem (Z * list (Z * list Z)) :=
  n ← strlen s; bs ← load_bytes s (Z.to_nat n);
  mret (0, (STDOUT_FILENO, bs) :: (user_putchar 10).2).
Definition user_vprintf (fmt args : list Z) (m : mem) : res (Z * list (Z * list Z)) := vhprintf STDOUT_FILENO fmt args m.

(** ** What formatted output writes *)
Definition buffering (h : Z) (s : CStdio.console) (a : vhprintf_aux) : Prop :=
  h_mem a = s.1 ∧ h_cnt a = Z.of_nat (length s.2) ∧ h_handle a = h ∧ (length (h_buf a) < 64)%nat ∧
  reverse s.2 = mjoin (written a).*2 ++ h_buf a ∧ Forall (λ w, w.1 = h ∧ (0 < length w.2 ≤ 64)%nat) (written a).

Lemma flush_buffering h s a :
  h_mem a = s.1 → h_handle a = h → (length (h_buf a) ≤ 64)%nat →
  reverse s.2 = mjoin (written a).*2 ++ h_buf a → Forall (λ w, w.1 = h ∧ (0 < length w.2 ≤ 64)%nat) (written a) →
  ∃ w, flush a = Ok (tt, HAux (h_mem a) [] (h_cnt a) h w) ∧ reverse s.2 = mjoin w.*2 ∧
    Forall (λ w, w.1 = h ∧ (0 < length w.2 ≤ 64)%nat) w.
Proof.
  intros Hm Hh Hl Hr Hw. destruct a as [m buf cnt h' w]. cbn in *. subst h'. destruct (decide (buf ≠ [])) as [Hne|He].
  - exists (w ++ [(h, buf)]). split_and!.
    + unfold flush, mbind, M_bind, gets, modify, mret, M_ret, id. cbn. by rewrite decide_True by done.
    + by rewrite fmap_app, join_app, Hr; cbn; rewrite app_nil_r.
    + apply Forall_app. split; [done|]. apply Forall_singleton. cbn. split; [done|]. destruct buf; [done|simpl in *; lia].
  - apply dec_stable in He as ->. exists w. split_and!; [done|by rewrite Hr, app_nil_r|done].
Qed.

Lemma sim_add_char h c : sim (buffering h) int_length (putchar c) (add_char c).
Proof.
  intros [m1 out] [] s1' [= <-]. split; [unfold int_length; simpl; lia|].
  intros [m buf cnt h' w] (Hm & Hc & Hh & Hl & Hr & Hw) Hs. cbn [fst snd h_mem h_buf h_cnt h_handle written] in *. subst h' cnt m1. unfold int_length in Hs. cbn [snd length] in Hs.
  assert (reverse (c :: out) = mjoin w.*2 ++ (buf ++ [c])) as Hr' by (by rewrite reverse_cons, Hr, app_assoc).
  assert (s32 (Z.of_nat (length out) + 1) = Z.of_nat (S (length out))) as Hn by (rewrite s32_small; lia).
  set (a1 := HAux m (buf ++ [c]) (Z.of_nat (length out)) h w).
  assert (add_char c (HAux m buf (Z.of_nat (length out)) h w) =
    ((if decide (64 ≤ length (buf ++ [c]))%nat then flush else mret tt) ;;
     modify (λ a, HAux (h_mem a) (h_buf a) (s32 (h_cnt a + 1)) (h_handle a) (written a))) a1) as ->.
  { unfold add_char, mbind, M_bind, gets, modify, mret, M_ret, id. cbn [h_buf]. by rewrite decide_True by done. }
  destruct (decide (64 ≤ length (buf ++ [c]))%nat) as [Hfull|Hroom]; rewrite length_app in *; cbn [length] in *.
  - destruct (flush_buffering h (m, c :: out) a1) as (w' & E & Hr2 & Hw'); unfold a1; cbn [fst snd h_mem h_buf h_cnt h_handle written]; [done|done|rewrite length_app; simpl; lia|done|done|].
    unfold mbind, M_bind. unfold a1 in E. rewrite E. eexists. split; [done|]. unfold buffering. cbn [fst snd h_mem h_buf h_cnt h_handle written]. rewrite Hn. split_and!; try done; [simpl; lia|]. by rewrite app_nil_r.
  - eexists. split; [done|]. unfold buffering, a1. cbn [fst snd h_mem h_buf h_cnt h_handle written]. rewrite Hn. split_and!; try done. rewrite length_app. simpl. lia.
Qed.

(** Formatted output of a process to a handle is that of the console, in calls of
    [write] with 1 to 64 bytes each, and the result is the number of characters. *)
Theorem vhprintf_correct h fmt args m out :
  printf fmt args (m, []) = Ok (tt, (m, reverse out)) → Z.of_nat (length out) < 2 ^ 31 →
  ∃ w, vhprintf h fmt args m = Ok (Z.of_nat (length out), w) ∧ mjoin w.*2 = out ∧
    Forall (λ x, x.1 = h ∧ (0 < length x.2 ≤ 64)%nat) w.
Proof.
  unfold vhprintf, printf, vprintf. generalize (32 + length fmt)%nat as fuel. intros fuel Hp Hlen.
  destruct (sim_vprintf (buffering h) int_length fst h_mem putchar add_char (sim_add_char h)
    ltac:(intros s a (-> & _); done) fuel fmt args _ _ _ Hp) as [_ Hsim].
  destruct (Hsim (HAux m [] 0 h [])) as (a & E & Hm & Hc & Hh & Hl & Hr & Hw).
  - by split_and!; try done; simpl; lia.
  - unfold int_length. cbn [snd]. by rewrite length_reverse.
  - destruct (flush_buffering h (m, reverse out) a) as (w & Ef & Hr2 & Hw'); [done|done|lia|done|done|].
    unfold mbind, M_bind. rewrite E, Ef. exists w. cbn [fst snd h_mem h_buf h_cnt h_handle written] in *. rewrite Hc, length_reverse, <-Hr2, reverse_involutive. done.
Qed.

Lemma vhprintf_correct_witness :
  ∃ w, vhprintf 5 (chars "%70d|") [7] ∅ = Ok (71, w) ∧ w.*2 = [replicate 64 32; replicate 5 32 ++ chars "7|"].
Proof.
  destruct (vhprintf_correct 5 (chars "%70d|") [7] ∅ (replicate 69 32 ++ chars "7|")) as (w & E & _).
  - vm_compute. reflexivity.
  - vm_compute. reflexivity.
  - exists w. split; [exact E|]. assert (vhprintf 5 (chars "%70d|") [7] ∅ = Ok (71, [(5, replicate 64 32); (5, replicate 5 32 ++ chars "7|")])) as E2
      by (vm_compute; reflexivity).
    rewrite E2 in E. injection E as <-. reflexivity.
Defined.

(** ** System calls reach the kernel with their arguments

    The calls that the kernel implements: all but [mmap] and [munmap]. *)
Inductive call :=
  | Halt | Exit (status : Z) | Exec (file : Z) | Wait (pid : Z) | Create (file size : Z) | Remove (file : Z) | Open (file : Z)
  | Filesize (fd : Z) | Read (fd buffer size : Z) | Write (fd buffer size : Z) | Seek (fd position : Z) | Tell (fd : Z) | Close (fd : Z)
  | Chdir (dir : Z) | Mkdir (dir : Z) | Readdir (fd name : Z) | Isdir (fd : Z) | Inumber (fd : Z).

(** The call in the user library; the number and the arguments that it pushes; what
    the kernel is to do. *)
Section refinement.
Context (init_page_dir : Z).

Definition stub (c : call) : Z → M proc (option outcome) :=
  match c with
  | Halt => halt init_page_dir | Exit st => exit init_page_dir st | Exec f => exec init_page_dir f | Wait p => wait init_page_dir p
  | Create f n => create init_page_dir f n | Remove f => remove init_page_dir f | Open f => open init_page_dir f
  | Filesize d => filesize init_page_dir d | Read d b n => read init_page_dir d b n | Write d b n => write init_page_dir d b n
  | Seek d n => seek init_page_dir d n | Tell d => tell init_page_dir d | Close d => close init_page_dir d
  | Chdir f => chdir init_page_dir f
  | Mkdir f => mkdir init_page_dir f | Readdir d b => readdir init_page_dir d b | Isdir d => isdir init_page_dir d
  | Inumber d => inumber init_page_dir d
  end.

Definition call_words (c : call) : list Z :=
  match c with
  | Halt => [SYS_HALT] | Exit st => [SYS_EXIT; st] | Exec f => [SYS_EXEC; f] | Wait p => [SYS_WAIT; p]
  | Create f n => [SYS_CREATE; f; n] | Remove f => [SYS_REMOVE; f] | Open f => [SYS_OPEN; f] | Filesize d => [SYS_FILESIZE; d]
  | Read d b n => [SYS_READ; d; b; n] | Write d b n => [SYS_WRITE; d; b; n] | Seek d n => [SYS_SEEK; d; n] | Tell d => [SYS_TELL; d]
  | Close d => [SYS_CLOSE; d] | Chdir f => [SYS_CHDIR; f]
  | Mkdir f => [SYS_MKDIR; f] | Readdir d b => [SYS_READDIR; d; b] | Isdir d => [SYS_ISDIR; d] | Inumber d => [SYS_INUMBER; d]
  end.

(** Descriptors, statuses and process numbers are [int], the rest is unsigned. *)
Definition is_int (x : Z) : Prop := - 2 ^ 31 ≤ x < 2 ^ 31.
Definition well_typed (c : call) : Prop :=
  match c with
  | Halt => True
  | Exit x | Wait x | Filesize x | Tell x | Close x | Isdir x | Inumber x => is_int x
  | Exec f | Remove f | Open f | Chdir f | Mkdir f => is_word f
  | Create f n => is_word f ∧ is_word n
  | Read d b n | Write d b n => is_int d ∧ is_word b ∧ is_word n
  | Seek d n | Readdir d n => is_int d ∧ is_word n
  end.

(** With a pointer that the process may use. *)
Definition with_pointer (p : Z) (m : M proc (option outcome)) : M proc (option outcome) :=
  bindx (check_esp init_page_dir p) (λ _, m).
Definition kernel_call (c : call) : M proc (option outcome) :=
  match c with
  | Halt => mret (Some Halts)
  | Exit st => Syscall.exit init_page_dir st
  | Exec f => with_pointer f (cmd ← on_mmu (user_string f); mret (Some (Execs cmd)))
  | Wait p => mret (Some (Waits p))
  | Create f n => with_pointer f (Syscall.create f n)
  | Remove f => with_pointer f (Syscall.remove f)
  | Open f => with_pointer f (Syscall.open f)
  | Filesize d => Syscall.filesize init_page_dir d
  | Read d b n => with_pointer b (Syscall.read init_page_dir d b n)
  | Write d b n => with_pointer b (Syscall.write init_page_dir d b n)
  | Seek d n => Syscall.seek init_page_dir d n
  | Tell d => Syscall.tell init_page_dir d
  | Close d => Syscall.close init_page_dir d
  | Chdir f => with_pointer f (Syscall.chdir f)
  | Mkdir f => with_pointer f (Syscall.mkdir f)
  | Readdir d b => with_pointer b (Syscall.readdir d b)
  | Isdir d => Syscall.isdir init_page_dir d
  | Inumber d => Syscall.inumber init_page_dir d
  end.

Section frame.
Context (upage k : Z) (s0 : proc).
Hypothesis Hpage : user_page (machine s0) (pagedir s0) upage k.

(** The state with the words [vs] on the stack. *)
Definition frame (esp : Z) (vs : list Z) : proc :=
  set_machine (with_bytes (machine s0) (k + (esp - upage)) (mjoin (word_bytes <$> vs))) s0.
Definition fits (esp : Z) (vs : list Z) : Prop :=
  upage ≤ esp ∧ esp + 4 * Z.of_nat (length vs) ≤ upage + 4096 ∧ Forall is_word vs.

Lemma frame_bytes vs : Z.of_nat (length (mjoin (word_bytes <$> vs))) = 4 * Z.of_nat (length vs).
Proof. induction vs as [|v vs IH]; [done|]. rewrite fmap_cons, mjoin_cons, length_app. change (length (word_bytes v)) with 4%nat. cbn [length]. lia. Qed.
Lemma frame_is_byte vs : Forall is_byte (mjoin (word_bytes <$> vs)).
Proof.
  induction vs as [|v vs IH]; [by constructor|]. rewrite fmap_cons, mjoin_cons. apply Forall_app. split; [apply word_bytes4_ok|done].
Qed.
Lemma frame_page esp vs : fits esp vs → user_page (machine (frame esp vs)) (pagedir s0) upage k.
Proof.
  intros (Hlo & Hhi & _). apply user_page_with; [done|lia|rewrite frame_bytes; lia|apply frame_is_byte].
Qed.
Lemma frame_nil esp : frame esp [] = s0.
Proof. unfold frame. cbn. rewrite with_bytes_nil. by destruct s0. Qed.

Lemma write_below (m : mem) a xs ys : Mem.write (Mem.write m (a + Z.of_nat (length xs)) ys) a xs = Mem.write m a (xs ++ ys).
Proof.
  apply map_eq. intros x. rewrite !lookup_write, length_app.
  destruct (decide (a ≤ x < a + Z.of_nat (length xs))).
  - rewrite decide_True by lia. by rewrite lookup_app_l by lia.
  - destruct (decide (a + Z.of_nat (length xs) ≤ x < a + Z.of_nat (length xs) + Z.of_nat (length ys))).
    + rewrite decide_True by lia. rewrite lookup_app_r by lia. f_equal. lia.
    + by rewrite decide_False by lia.
Qed.

Lemma push_frame v esp vs :
  fits esp vs → upage + 4 ≤ esp → pushl v esp (frame esp vs) = Ok (esp - 4, frame (esp - 4) (u32 v :: vs)).
Proof.
  intros Hf Hesp. pose proof (frame_page esp vs Hf) as Hp. destruct Hf as (Hlo & Hhi & Hvs).
  pose proof (up_range _ _ _ _ Hpage) as [? ?]. unfold PHYS_BASE in *.
  apply wp_det_ok. unfold pushl. rewrite u32_small by lia. wp_step. unfold on_mmu. wp_step. unfold user_write32.
  eapply (wp_user_write (pagedir s0) upage k); [exact Hp|apply word_bytes4_ok|lia|simpl; lia|]. wp_step. split; [done|].
  unfold frame at 1, frame. rewrite fmap_cons, mjoin_cons. unfold with_bytes, mram. cbn [machine set_machine frames ram kernel_pool user_pool cr3 cr3_loads].
  rewrite <-(write_below _ _ (word_bytes (u32 v))). simpl length.
  by replace (k + (esp - 4 - upage) + Z.of_nat 4) with (k + (esp - upage)) by lia.
Qed.

Lemma word_frame vs (m : mem) a i v :
  Forall is_word vs → vs !! i = Some v → PagedirFacts.word (Mem.write m a (mjoin (word_bytes <$> vs))) (a + 4 * Z.of_nat i) = v.
Proof.
  intros Hvs. revert a i. induction Hvs as [|x vs Hx Hvs IH]; intros a i Hi; [done|].
  rewrite fmap_cons, mjoin_cons, <-write_below. change (length (word_bytes x)) with 4%nat. change word_bytes with word_bytes4.
  destruct i as [|i]; simpl in Hi.
  - injection Hi as ->. rewrite Z.add_0_r. by apply word_write_eq.
  - rewrite word_write_ne by lia. replace (a + 4 * Z.of_nat (S i)) with (a + Z.of_nat 4 + 4 * Z.of_nat i) by lia. by apply IH.
Qed.

Lemma arg_frame esp vs i v :
  fits esp vs → vs !! i = Some v → arg esp (Z.of_nat i) (frame esp vs) = Ok (v, frame esp vs).
Proof.
  intros Hf Hi. pose proof (frame_page esp vs Hf) as Hp. destruct Hf as (Hlo & Hhi & Hvs).
  pose proof (up_range _ _ _ _ Hpage) as [? ?]. unfold PHYS_BASE in *. apply lookup_lt_Some in Hi as Hlt.
  apply wp_det_ok. unfold arg, on_mmu. rewrite u32_small by lia. wp_step. unfold user_load32. wp_step.
  eapply (wp_user_read (pagedir s0) upage k); [exact Hp|lia|lia|]. wp_step.
  split; [|by destruct s0]. cbn [seq fmap list_fmap]. unfold word_at, half_at.
  rewrite <-(word_frame vs (mram (machine s0)) (k + (esp - upage)) i v Hvs Hi).
  unfold PagedirFacts.word. replace (k + (esp + 4 * Z.of_nat i - upage)) with (k + (esp - upage) + 4 * Z.of_nat i) by lia.
  unfold frame, with_bytes. cbn [machine set_machine mram frames ram]. rewrite Z.add_0_r.
  change (Z.of_nat 1) with 1. change (Z.of_nat 2) with 2. change (Z.of_nat 3) with 3.
  repeat match goal with |- context [byte_of ?m ?x] => generalize (byte_of m x); intros ? end. cbn. lia.
Qed.

Lemma check_frame esp vs i :
  fits esp vs → 0 < upage → (i < length vs)%nat → check_arg init_page_dir esp (Z.of_nat i) (frame esp vs) = Ok (Some tt, frame esp vs).
Proof.
  intros Hf H0 Hi. pose proof (frame_page esp vs Hf) as Hp. destruct Hf as (Hlo & Hhi & Hvs).
  pose proof (up_range _ _ _ _ Hpage) as [? ?]. unfold check_arg. rewrite u32_small by (unfold PHYS_BASE in *; lia).
  rewrite check_esp_at; [|apply (proj1 (up_loaded _ _ _ _ Hp))|unfold PHYS_BASE in *; lia].
  rewrite bool_decide_eq_true_2; [done|]. split; [lia|]. split; [unfold user_addr; lia|].
  change (pagedir (frame esp vs)) with (pagedir s0). rewrite (up_pte _ _ _ _ Hp) by lia. by apply (frame_entry _ _ _ _ Hp).
Qed.

Lemma pointer_frame esp vs p (m m' : M proc (option outcome)) :
  fits esp vs → is_word p → m (frame esp vs) = m' (frame esp vs) →
  bindx (check_esp init_page_dir p) (λ _, m) (frame esp vs) = with_pointer p m' (frame esp vs).
Proof.
  intros Hf Hw Hm. unfold with_pointer.
  pose proof (check_esp_at init_page_dir (frame esp vs) p (proj1 (up_loaded _ _ _ _ (frame_page esp vs Hf))) Hw) as E.
  unfold bindx, mbind, M_bind. rewrite E. destruct (bool_decide _); [done|].
  unfold Syscall.exit, mbind, M_bind. destruct (exit_message (-1) _) as [[? ?]|]; [|done]. unfold modify.
  by destruct (thread_exit _ _) as [[? ?]|].
Qed.

Lemma fits_push esp vs v : fits esp vs → upage + 4 ≤ esp → fits (esp - 4) (u32 v :: vs).
Proof. intros (Hlo & Hhi & Hvs) H. split_and!; [lia|cbn [length]; lia|]. constructor; [apply u32_range|done]. Qed.
Lemma fits_nil esp : upage ≤ esp ≤ upage + 4096 → fits esp [].
Proof. intros H. split_and!; [lia|simpl; lia|constructor]. Qed.

Section calls.
Context (esp : Z) (Hesp : upage + 16 ≤ esp ≤ upage + 4096).

Lemma syscall0_frame n : syscall0 init_page_dir n esp s0 = syscall_handler init_page_dir (esp - 4) (frame (esp - 4) [u32 n]).
Proof.
  pose proof (fits_nil esp ltac:(lia)) as F0. unfold syscall0. rewrite <-(frame_nil esp) at 1.
  by erewrite run_bind by (apply push_frame; [exact F0|lia]).
Qed.
Lemma syscall1_frame n a0 :
  syscall1 init_page_dir n a0 esp s0 = syscall_handler init_page_dir (esp - 8) (frame (esp - 8) [u32 n; u32 a0]).
Proof.
  pose proof (fits_nil esp ltac:(lia)) as F0. pose proof (fits_push _ _ a0 F0 ltac:(lia)) as F1.
  unfold syscall1. rewrite <-(frame_nil esp) at 1. erewrite run_bind by (apply push_frame; [exact F0|lia]).
  erewrite run_bind by (apply push_frame; [exact F1|lia]). by replace (esp - 4 - 4) with (esp - 8) by lia.
Qed.
Lemma syscall2_frame n a0 a1 :
  syscall2 init_page_dir n a0 a1 esp s0 = syscall_handler init_page_dir (esp - 12) (frame (esp - 12) [u32 n; u32 a0; u32 a1]).
Proof.
  pose proof (fits_nil esp ltac:(lia)) as F0. pose proof (fits_push _ _ a1 F0 ltac:(lia)) as F1. pose proof (fits_push _ _ a0 F1 ltac:(lia)) as F2.
  unfold syscall2. rewrite <-(frame_nil esp) at 1. erewrite run_bind by (apply push_frame; [exact F0|lia]).
  erewrite run_bind by (apply push_frame; [exact F1|lia]). erewrite run_bind by (apply push_frame; [exact F2|lia]).
  by replace (esp - 4 - 4 - 4) with (esp - 12) by lia.
Qed.
Lemma syscall3_frame n a0 a1 a2 :
  syscall3 init_page_dir n a0 a1 a2 esp s0
  = syscall_handler init_page_dir (esp - 16) (frame (esp - 16) [u32 n; u32 a0; u32 a1; u32 a2]).
Proof.
  pose proof (fits_nil esp ltac:(lia)) as F0. pose proof (fits_push _ _ a2 F0 ltac:(lia)) as F1. pose proof (fits_push _ _ a1 F1 ltac:(lia)) as F2.
  pose proof (fits_push _ _ a0 F2 ltac:(lia)) as F3.
  unfold syscall3. rewrite <-(frame_nil esp) at 1. erewrite run_bind by (apply push_frame; [exact F0|lia]).
  erewrite run_bind by (apply push_frame; [exact F1|lia]). erewrite run_bind by (apply push_frame; [exact F2|lia]).
  erewrite run_bind by (apply push_frame; [exact F3|lia]). by replace (esp - 4 - 4 - 4 - 4) with (esp - 16) by lia.
Qed.
End calls.

Lemma check_top e vs : fits e vs → 0 < upage → (0 < length vs)%nat → check_esp init_page_dir e (frame e vs) = Ok (Some tt, frame e vs).
Proof.
  intros Hf H0 Hl. pose proof (check_frame e vs 0 Hf H0 Hl) as E. unfold check_arg in E.
  rewrite Z.mul_0_r, Z.add_0_r, u32_small in E; [done|]. pose proof (up_range _ _ _ _ Hpage). destruct Hf. unfold PHYS_BASE in *. lia.
Qed.
Lemma check_pointer_frame e vs i v (m m' : M proc (option outcome)) :
  fits e vs → vs !! i = Some v → m (frame e vs) = m' (frame e vs) →
  bindx (check_pointer init_page_dir e (Z.of_nat i)) (λ _, m) (frame e vs) = with_pointer v m' (frame e vs).
Proof.
  intros Hf Hi Hm. rewrite (bindx_at _ (check_esp init_page_dir v)); [apply pointer_frame; [done| |done]|].
  - destruct Hf as (_ & _ & Hvs). by apply (Forall_lookup_1 _ _ _ _ Hvs Hi).
  - unfold check_pointer. by erewrite run_bind by (by apply arg_frame).
Qed.
End frame.

Lemma s32_of_u32 x : is_int x → s32 (u32 x) = x.
Proof.
  intros Hx. unfold s32, sext, u32. rewrite Zplus_mod_idemp_l. change (2 ^ (32 - 1)) with 2147483648. unfold is_int in Hx.
  rewrite Z.mod_small; lia.
Qed.
Lemma u32_word x : is_word x → u32 x = x.
Proof. apply u32_small. Qed.

Ltac enter Hp Hf :=
  unfold syscall_handler; erewrite run_bindx by (apply (check_top _ _ _ Hp); [exact Hf|lia|simpl; lia]);
  erewrite run_bind by (apply (arg_frame _ _ _ Hp _ _ 0); [exact Hf|reflexivity]);
  repeat (lazymatch goal with |- (if ?a =? ?b then _ else _) _ = _ =>
    let r := eval vm_compute in (a =? b) in change (a =? b) with r; cbv iota end).
Ltac chk Hp Hf i := erewrite run_bindx by (apply (check_frame _ _ _ Hp _ _ i); [exact Hf|lia|simpl; lia]).
Ltac ptr Hp Hf i := eapply (check_pointer_frame _ _ _ Hp _ _ i); [exact Hf|reflexivity|].
Ltac argn Hp Hf i := erewrite run_bind by (apply (arg_frame _ _ _ Hp _ _ i); [exact Hf|reflexivity]).
(** The checks and the arguments in the order of the handler. *)
Ltac carry Hp Hf :=
  repeat match goal with
  | |- bindx (check_arg _ _ ?i) _ _ = _ => let n := eval vm_compute in (Z.to_nat i) in chk Hp Hf n
  | |- bindx (check_pointer _ _ ?i) _ _ = _ => let n := eval vm_compute in (Z.to_nat i) in ptr Hp Hf n
  | |- (arg _ ?i ≫= _) _ = _ => let n := eval vm_compute in (Z.to_nat i) in argn Hp Hf n
  end.

(** C17: every function of the user library but mmap and munmap makes the kernel carry
    out its call: it pushes the number and the arguments in the order in which the
    handler takes them from the stack, a pointer among them is checked first, and
    signed arguments keep their sign.  Only the words below the stack pointer change
    before the call is carried out.  The process has a page at its stack pointer that
    it may write to, with room for 16 bytes below the pointer in it, and arguments are
    in the range of their types. *)
Theorem stub_correct c esp upage k s :
  user_page (machine s) (pagedir s) upage k → 0 < upage → upage + 16 ≤ esp ≤ upage + 4096 → well_typed c →
  stub c esp s = kernel_call c (frame upage k s (esp - 4 * Z.of_nat (length (call_words c))) (u32 <$> call_words c)).
Proof.
  intros Hp H0 Hesp Hc.
  assert (∀ vs, (length vs ≤ 4)%nat → Forall is_word vs → fits upage (esp - 4 * Z.of_nat (length vs)) vs) as Hfit
    by (intros vs Hl Hvs; split_and!; [lia|lia|done]).
  destruct c; cbn [stub call_words kernel_call well_typed length] in *;
    unfold halt, exit, exec, wait, create, remove, open, filesize, read, write, seek, tell, close, chdir, mkdir, readdir, isdir, inumber;
    rewrite ?(syscall0_frame _ _ _ Hp), ?(syscall1_frame _ _ _ Hp), ?(syscall2_frame _ _ _ Hp), ?(syscall3_frame _ _ _ Hp) by done;
    cbn [fmap list_fmap].
  all: match goal with |- syscall_handler _ _ (frame _ _ _ _ ?vs) = _ =>
    pose proof (Hfit vs ltac:(simpl; lia) ltac:(repeat constructor; apply u32_range)) as Hf; simpl in Hf end.
  all: repeat match type of Hc with _ ∧ _ => destruct Hc as [? Hc] end.
  all: rewrite ?(u32_word file), ?(u32_word size), ?(u32_word buffer), ?(u32_word position), ?(u32_word dir), ?(u32_word name) in * by done.
  all: enter Hp Hf; carry Hp Hf; rewrite ?s32_of_u32 by done; try reflexivity.
Qed.

(** The kernel has no [mmap] and no [munmap]: all that they do is a message. *)
Lemma mmap_not_implemented fd addr esp upage k s :
  user_page (machine s) (pagedir s) upage k → 0 < upage → upage + 16 ≤ esp ≤ upage + 4096 →
  let message := print (chars "System Call not implemented." ++ [10]) [] ;; mret (Some (Returns None)) in
  mmap init_page_dir fd addr esp s = message (frame upage k s (esp - 12) [SYS_MMAP; u32 fd; u32 addr]) ∧
  munmap init_page_dir fd esp s = message (frame upage k s (esp - 8) [SYS_MUNMAP; u32 fd]).
Proof.
  intros Hp H0 Hesp message. unfold mmap, munmap. rewrite (syscall2_frame _ _ _ Hp), (syscall1_frame _ _ _ Hp) by done.
  pose proof (u32_range fd). pose proof (u32_range addr).
  assert (fits upage (esp - 12) [u32 SYS_MMAP; u32 fd; u32 addr]) as Hf by (split_and!; [lia|simpl; lia|repeat constructor; apply u32_range]).
  assert (fits upage (esp - 8) [u32 SYS_MUNMAP; u32 fd]) as Hf' by (split_and!; [lia|simpl; lia|repeat constructor; apply u32_range]).
  split; [enter Hp Hf|enter Hp Hf']; reflexivity.
Qed.
End refinement.

(** A process with its stack page. *)
Lemma stack_page s argv esp s' :
  running 1 1000 s → present (pte_val (machine s) (pagedir s) (PHYS_BASE - 4096)) = false →
  Forall (Forall is_char) argv → Z.of_nat (length (stack_image argv)) ≤ 4096 →
  setup_stack 1 1000 argv s = Ok (Some esp, s') → ∃ k, user_page (machine s') (pagedir s') (PHYS_BASE - 4096) k.
Proof.
  intros H1 H2 H3 H4 E. pose proof (wp_setup_stack 1 1000 s argv H1 H2 H3 H4) as H. unfold wp in H. rewrite E in H.
  destruct H as (Es & _ & _ & k & Hst). exists k. rewrite Es. apply (st_page _ _ _ _ _ Hst).
Qed.
Lemma ex_stack : ∃ k s, user_page (machine s) (pagedir s) (PHYS_BASE - 4096) k.
Proof.
  assert (Ht : match setup_stack 1 1000 ex_argv ex_proc with Ok (Some e, _) => e | _ => 0 end = PHYS_BASE - 32) by (vm_compute; reflexivity).
  destruct (setup_stack 1 1000 ex_argv ex_proc) as [[[esp|] s']|] eqn:E; [|discriminate Ht..].
  destruct (stack_page ex_proc ex_argv esp s') as [k Hp].
  - exact ex_running.
  - unfold pte_val. replace (pde_of (machine ex_proc) (pagedir ex_proc) ((PHYS_BASE - 4096) `div` 4194304)) with 0; [reflexivity|].
    symmetry. unfold pde_of, mram, ex_mmu. cbn [frames ram machine ex_proc ex_mmu]. apply word_zeros; vm_compute; discriminate.
  - repeat constructor; vm_compute; try discriminate.
  - vm_compute. discriminate.
  - exact E.
  - exists k, s'. exact Hp.
Qed.

Lemma stub_correct_witness : ∃ k s, user_page (machine s) (pagedir s) (PHYS_BASE - 4096) k ∧
  stub 1 (Wait (-5)) PHYS_BASE s = Ok (Some (Waits (-5)), frame (PHYS_BASE - 4096) k s (PHYS_BASE - 8) [SYS_WAIT; 4294967291]).
Proof.
  destruct ex_stack as (k & s & Hp). exists k, s. split; [exact Hp|].
  exact (stub_correct 1 (Wait (-5)) PHYS_BASE (PHYS_BASE - 4096) k s Hp ltac:(unfold PHYS_BASE; lia) ltac:(unfold PHYS_BASE; lia) ltac:(unfold well_typed, is_int; lia)).
Defined.
