(* ===== verification/Devices.v ===== *)
(** * The clock, the screen and the keyboard

    devices/rtc.c, devices/vga.c, devices/kbd.c and devices/input.c, each on a state
    of its own.  What the code reads from a port is an argument or a parameter. *)
From stdpp Require Import strings.
From S2P Require Import Prelude CStdlib CStdio Intq.
Local Open Scope Z_scope.

(** ** The real-time clock: devices/rtc.c *)
Section rtc.
(** What the [n]th read finds in a register of the CMOS. *)
Context (cmos : nat → Z → Z).

Definition RTC_REG_SEC : Z := 0.
Definition RTC_REG_MIN : Z := 2.
Definition RTC_REG_HOUR : Z := 4.
Definition RTC_REG_MDAY : Z := 7.
Definition RTC_REG_MON : Z := 8.
Definition RTC_REG_YEAR : Z := 9.

Definition bcd_to_bin (x : Z) : Z := Z.land x 15 + Z.shiftr x 4 * 10.
(** The state is the number of reads so far. *)
Definition cmos_read (index : Z) : M nat Z := n ← gets id; modify S ;; mret (cmos n index).

Definition days_per_month : list Z := [31; 28; 31; 30; 31; 30; 31; 31; 30; 31; 30; 31].

Record rtc_fields := Rtc { f_sec : Z; f_min : Z; f_hour : Z; f_mday : Z; f_mon : Z; f_year : Z }.

(** One turn of the loop that reads until the seconds are stable. *)
Definition read_fields : M nat (unit + rtc_fields) :=
  sec ← cmos_read RTC_REG_SEC; min ← cmos_read RTC_REG_MIN; hour ← cmos_read RTC_REG_HOUR;
  mday ← cmos_read RTC_REG_MDAY; mon ← cmos_read RTC_REG_MON; year ← cmos_read RTC_REG_YEAR;
  again ← cmos_read RTC_REG_SEC;
  mret (if bcd_to_bin sec =? bcd_to_bin again
        then inr (Rtc (bcd_to_bin sec) (bcd_to_bin min) (bcd_to_bin hour) (bcd_to_bin mday) (bcd_to_bin mon) (bcd_to_bin year))
        else inl tt).

(** The days of the months that the code adds; a month beyond December is read past the table. *)
Definition month_days (mon : Z) : option Z :=
  if mon <? 1 then Some 0
  else if mon <=? 12 then Some (foldr Z.add 0 (take (Z.to_nat mon) days_per_month))
  else None.

(** [time_t] is an unsigned 32-bit number; the sums of [int] do not overflow before 2038. *)
Definition rtc_time (f : rtc_fields) : option Z :=
  let year := (if f_year f <? 70 then f_year f + 100 else f_year f) - 70 in
  md ← month_days (f_mon f);
  Some (u32 (s32 ((year * 365 + (year - 1) ÷ 4) * 24 * 60 * 60)
    + md * 24 * 60 * 60
    + (if (2 <? f_mon f) && (Z.rem year 4 =? 0) then 24 * 60 * 60 else 0)
    + (f_mday f - 1) * 24 * 60 * 60
    + f_hour f * 60 * 60
    + f_min f * 60
    + f_sec f)).

Definition rtc_get_time (turns : nat) : M nat Z :=
  f ← loop turns (λ _ : unit, read_fields) tt;
  the (rtc_time f).
End rtc.

(** ** The text screen: devices/vga.c *)

Definition COL_CNT : Z := 80.
Definition ROW_CNT : Z := 25.
Definition GRAY_ON_BLACK : Z := 7.

(** The frame buffer as rows of characters with their attributes; [cursor] is the
    position that the hardware was given last. *)
Record vga := Vga { fb : list (list (Z * Z)); cx : Z; cy : Z; cursor : Z }.

Definition set_fb (f : list (list (Z * Z))) (v : vga) : vga := Vga f (cx v) (cy v) (cursor v).
Definition set_pos (x y : Z) (v : vga) : vga := Vga (fb v) x y (cursor v).

Definition blank_row : list (Z * Z) := replicate (Z.to_nat COL_CNT) (32, GRAY_ON_BLACK).
(** Rows outside the frame buffer are other memory. *)
Definition clear_row (y : Z) : M vga unit :=
  f ← gets fb;
  the (f !! Z.to_nat y) ;;
  modify (set_fb (<[Z.to_nat y := blank_row]> f)).

Definition move_cursor : M vga unit := modify (λ v, Vga (fb v) (cx v) (cy v) ((cx v + COL_CNT * cy v) `mod` 65536)).
Definition find_cursor (cp : Z) : Z * Z := (Z.rem cp COL_CNT, cp ÷ COL_CNT).
(** [init] on its first call, with the position that the hardware reports. *)
Definition vga_init (cp : Z) : M vga unit := let '(x, y) := find_cursor cp in modify (set_pos x y).

Definition cls : M vga unit :=
  for_upto (Z.to_nat ROW_CNT) (λ y, clear_row (Z.of_nat y)) ;;
  modify (set_pos 0 0) ;; move_cursor.

Definition newline : M vga unit :=
  modify (λ v, set_pos 0 (cy v + 1) v) ;;
  y ← gets cy;
  if ROW_CNT <=? y then
    modify (set_pos 0 (ROW_CNT - 1)) ;;
    f ← gets fb;
    (* memmove (&fb[0], &fb[1], ...) *)
    modify (set_fb (take (Z.to_nat (ROW_CNT - 1)) (drop 1 f) ++ drop (Z.to_nat (ROW_CNT - 1)) f)) ;;
    clear_row (ROW_CNT - 1)
  else mret tt.

Definition put_cell (c : Z) : M vga unit :=
  v ← gets id;
  row ← the (fb v !! Z.to_nat (cy v));
  the (row !! Z.to_nat (cx v)) ;;
  modify (set_fb (<[Z.to_nat (cy v) := <[Z.to_nat (cx v) := (c `mod` 256, GRAY_ON_BLACK)]> row]> (fb v))).

Definition vga_putc (c : Z) : M vga unit :=
  v ← gets id;
  (if c =? 10 then newline
   else if c =? 12 then cls
   else if c =? 8 then (if 0 <? cx v then modify (set_pos (cx v - 1) (cy v)) else mret tt)
   else if c =? 13 then modify (set_pos 0 (cy v))
   else if c =? 9 then
     modify (set_pos ((cx v + 1 + 7) `div` 8 * 8) (cy v)) ;;
     x ← gets cx; if COL_CNT <=? x then newline else mret tt
   else if c =? 7 then mret tt (* speaker_beep *)
   else
     put_cell c ;;
     modify (set_pos (cx v + 1) (cy v)) ;;
     x ← gets cx; if COL_CNT <=? x then newline else mret tt) ;;
  move_cursor.

(** ** The keyboard: devices/kbd.c and devices/input.c *)

Record keymap := Keymap { first_scancode : Z; kchars : list Z }.

Definition invariant_keymap : list keymap :=
  [Keymap 1 [27]; Keymap 14 [8]; Keymap 15 (9 :: chars "QWERTYUIOP"); Keymap 28 [13]; Keymap 30 (chars "ASDFGHJKL");
   Keymap 44 (chars "ZXCVBNM"); Keymap 55 (chars "*"); Keymap 57 (chars " "); Keymap 83 [127]].
Definition unshifted_keymap : list keymap :=
  [Keymap 2 (chars "1234567890-="); Keymap 26 (chars "[]"); Keymap 39 (chars ";'`"); Keymap 43 [92]; Keymap 51 (chars ",./")].
Definition shifted_keymap : list keymap :=
  [Keymap 2 (chars "!@#$%^&*()_+"); Keymap 26 (chars "{}"); Keymap 39 [58; 34; 126]; Keymap 43 (chars "|"); Keymap 51 (chars "<>?")].

Fixpoint map_key (k : list keymap) (scancode : Z) : option Z :=
  match k with
  | [] => None
  | m :: k =>
      if (first_scancode m <=? scancode) && (scancode <? first_scancode m + Z.of_nat (length (kchars m)))
      then kchars m !! Z.to_nat (scancode - first_scancode m)
      else map_key k scancode
  end.

Record kbd := Kbd {
  left_shift : bool; right_shift : bool; left_alt : bool; right_alt : bool; left_ctrl : bool; right_ctrl : bool;
  caps_lock : bool; key_cnt : Z; buffer : intq; reboots : nat (** calls of [shutdown_reboot] *) }.

Definition isupper (c : Z) : bool := (65 <=? c) && (c <=? 90).
Definition tolower (c : Z) : Z := if isupper c then c - 65 + 97 else c.

Definition on_buffer {A} (m : M intq A) : M kbd A :=
  zoom buffer (λ q k, Kbd (left_shift k) (right_shift k) (left_alt k) (right_alt k) (left_ctrl k) (right_ctrl k) (caps_lock k)
    (key_cnt k) q (reboots k)) m.
Definition input_full : M kbd bool := on_buffer (gets intq_full).
(** In an interrupt handler, where interrupts are off. *)
Definition input_putc (key : Z) : M kbd unit :=
  f ← input_full; ASSERT (negb f) ;; on_buffer (handler_putc key).

Definition set_key_cnt (n : Z) (k : kbd) : kbd :=
  Kbd (left_shift k) (right_shift k) (left_alt k) (right_alt k) (left_ctrl k) (right_ctrl k) (caps_lock k) n (buffer k) (reboots k).
Definition set_caps (b : bool) (k : kbd) : kbd :=
  Kbd (left_shift k) (right_shift k) (left_alt k) (right_alt k) (left_ctrl k) (right_ctrl k) b (key_cnt k) (buffer k) (reboots k).
Definition set_reboots (n : nat) (k : kbd) : kbd :=
  Kbd (left_shift k) (right_shift k) (left_alt k) (right_alt k) (left_ctrl k) (right_ctrl k) (caps_lock k) (key_cnt k) (buffer k) n.

(** The table of shift keys. *)
Definition shift_key (code : Z) (down : bool) (k : kbd) : kbd :=
  let '(Kbd ls rs la ra lc rc cl n q r) := k in
  if code =? 42 then Kbd down rs la ra lc rc cl n q r
  else if code =? 54 then Kbd ls down la ra lc rc cl n q r
  else if code =? 56 then Kbd ls rs down ra lc rc cl n q r
  else if code =? 57400 then Kbd ls rs la down lc rc cl n q r
  else if code =? 29 then Kbd ls rs la ra down rc cl n q r
  else if code =? 57373 then Kbd ls rs la ra lc down cl n q r
  else k.

Definition shift (k : kbd) : bool := left_shift k || right_shift k.
Definition alt (k : kbd) : bool := left_alt k || right_alt k.
Definition ctrl (k : kbd) : bool := left_ctrl k || right_ctrl k.

(** The character of a key, without regard to Ctrl, Alt and Caps Lock. *)
Definition key_char (k : kbd) (code : Z) : option Z :=
  match map_key invariant_keymap code with
  | Some c => Some c
  | None => if shift k then map_key shifted_keymap code else map_key unshifted_keymap code
  end.
(** With Ctrl, Shift and Caps Lock, then Alt. *)
Definition modified (k : kbd) (c : Z) : Z :=
  let c := if ctrl k && (64 <=? c) && (c <? 96) then c - 64
           else if Bool.eqb (shift k) (caps_lock k) then tolower c else c in
  if alt k then (c + 128) `mod` 256 else c.

(** [byte] and, after a prefix, [byte2] are what reading the data register delivers. *)
Definition keyboard_interrupt (byte byte2 : Z) : M kbd unit :=
  let code0 := if byte =? 224 then Z.lor (Z.shiftl byte 8) byte2 else byte in
  let release := negb (Z.land code0 128 =? 0) in
  let code := Z.land code0 (u32 (Z.lnot 128)) in
  k ← gets id;
  if code =? 58 then (if release then mret tt else modify (set_caps (negb (caps_lock k))))
  else
    match key_char k code with
    | Some c =>
        if release then mret tt
        else
          (* shutdown_reboot does not return *)
          if (c =? 127) && ctrl k && alt k then modify (set_reboots (S (reboots k)))
          else
            full ← input_full;
            if (full : bool) then mret tt
            else modify (set_key_cnt (s64 (key_cnt k + 1))) ;; input_putc (modified k c)
    | None => modify (shift_key code (negb release))
    end.
