(* ===== verification/DeviceProps.v ===== *)
(** * Properties of the clock, the screen and the keyboard *)
From stdpp Require Import strings.
From S2P Require Import Prelude CStdlib CStdio Intq IntqProps Devices.
Local Open Scope Z_scope.

(** ** The clock *)

(** A date, and the registers that hold it. *)
Record date := Date { d_year : Z; d_mon : Z; d_day : Z; d_hour : Z; d_min : Z; d_sec : Z }.
Definition to_bcd (n : Z) : Z := 16 * (n `div` 10) + n `mod` 10.
Definition registers (d : date) (r : Z) : Z :=
  if r =? RTC_REG_SEC then to_bcd (d_sec d) else if r =? RTC_REG_MIN then to_bcd (d_min d)
  else if r =? RTC_REG_HOUR then to_bcd (d_hour d) else if r =? RTC_REG_MDAY then to_bcd (d_day d)
  else if r =? RTC_REG_MON then to_bcd (d_mon d) else if r =? RTC_REG_YEAR then to_bcd (d_year d `mod` 100) else 0.
Record valid_date (d : date) : Prop := ValidDate {
  vd_year : 1970 ≤ d_year d < 2038; vd_mon : 1 ≤ d_mon d ≤ 12; vd_day : 1 ≤ d_day d ≤ 31;
  vd_hour : 0 ≤ d_hour d < 24; vd_min : 0 ≤ d_min d < 60; vd_sec : 0 ≤ d_sec d < 60 }.

(** Seconds since January 1, 1970; between 1970 and 2099 every fourth year is a leap year. *)
Definition leap (y : Z) : bool := y `mod` 4 =? 0.
Definition days_in_month (y m : Z) : Z := default 0 (days_per_month !! Z.to_nat (m - 1)) + if leap y && (m =? 2) then 1 else 0.
Definition days_before (y m : Z) : Z :=
  365 * (y - 1970) + (y - 1969) `div` 4 + foldr Z.add 0 ((λ k, days_in_month y (Z.of_nat k)) <$> seq 1 (Z.to_nat (m - 1))).
Definition epoch_seconds (d : date) : Z :=
  86400 * (days_before (d_year d) (d_mon d) + d_day d - 1) + 3600 * d_hour d + 60 * d_min d + d_sec d.

(** The days by which the code differs. *)
Definition rtc_error (y m : Z) : Z :=
  default 0 (days_per_month !! Z.to_nat (m - 1))
  + ((y - 1971) ÷ 4 - (y - 1969) `div` 4)
  + (if (2 <? m) && (Z.rem (y - 1970) 4 =? 0) then 1 else 0) - (if (2 <? m) && leap y then 1 else 0).

Lemma bcd_roundtrip n : 0 ≤ n < 100 → bcd_to_bin (to_bcd n) = n.
Proof.
  intros H. unfold bcd_to_bin, to_bcd. change 15 with (Z.ones 4). rewrite Z.land_ones, Z.shiftr_div_pow2 by lia. change (2 ^ 4) with 16.
  Z.to_euclidean_division_equations. lia.
Qed.

Lemma month_days_leap y m :
  1 ≤ m ≤ 12 →
  month_days m = Some (default 0 (days_per_month !! Z.to_nat (m - 1))
    + foldr Z.add 0 ((λ k, days_in_month y (Z.of_nat k)) <$> seq 1 (Z.to_nat (m - 1))) - if (2 <? m) && leap y then 1 else 0).
Proof.
  intros Hm. assert (m ∈ [1; 2; 3; 4; 5; 6; 7; 8; 9; 10; 11; 12]) as Hin.
  { rewrite !elem_of_cons. lia. }
  unfold days_in_month. repeat (apply elem_of_cons in Hin as [->|Hin]; [by destruct (leap y); vm_compute|]). by apply elem_of_nil in Hin.
Qed.

Lemma month_bounds y m :
  1 ≤ m ≤ 12 →
  0 ≤ foldr Z.add 0 ((λ k, days_in_month y (Z.of_nat k)) <$> seq 1 (Z.to_nat (m - 1))) ≤ 335
  ∧ 28 ≤ default 0 (days_per_month !! Z.to_nat (m - 1)) ≤ 31.
Proof.
  intros Hm. assert (m ∈ [1; 2; 3; 4; 5; 6; 7; 8; 9; 10; 11; 12]) as Hin.
  { rewrite !elem_of_cons. lia. }
  unfold days_in_month. repeat (apply elem_of_cons in Hin as [->|Hin]; [by destruct (leap y); vm_compute|]). by apply elem_of_nil in Hin.
Qed.

Lemma rtc_time_registers d :
  valid_date d →
  rtc_time (Rtc (d_sec d) (d_min d) (d_hour d) (d_day d) (d_mon d) (d_year d `mod` 100))
  = Some (epoch_seconds d + 86400 * rtc_error (d_year d) (d_mon d)).
Proof.
  intros [Hy Hm Hd Hh Hmi Hs]. unfold rtc_time. cbn [f_year f_mon f_mday f_hour f_min f_sec].
  assert ((if d_year d `mod` 100 <? 70 then d_year d `mod` 100 + 100 else d_year d `mod` 100) - 70 = d_year d - 1970) as ->.
  { destruct (Z.ltb_spec (d_year d `mod` 100) 70); Z.to_euclidean_division_equations; lia. }
  rewrite (month_days_leap (d_year d)) by done. cbn [mbind option_bind]. f_equal.
  unfold epoch_seconds, days_before, rtc_error. replace (d_year d - 1970 - 1) with (d_year d - 1971) by lia.
  set (B := foldr Z.add 0 _). set (L := if (2 <? d_mon d) && leap (d_year d) then 1 else 0).
  set (Lc := (2 <? d_mon d) && (Z.rem (d_year d - 1970) 4 =? 0)).
  set (D := default 0 (days_per_month !! Z.to_nat (d_mon d - 1))).
  destruct (month_bounds (d_year d) (d_mon d) Hm) as [HB HD]. fold B D in HB, HD.
  assert (0 ≤ L ≤ 1) as HL by (unfold L; destruct (_ && _); lia).
  rewrite s32_small by (Z.to_euclidean_division_equations; lia).
  rewrite u32_small by (destruct Lc; Z.to_euclidean_division_equations; lia). destruct Lc; lia.
Qed.

(** With the registers of a date between 1970 and 2037, rtc_get_time returns the
    seconds since the epoch plus a whole number of days: those of the current month,
    which it counts as past, corrected by the leap days that it counts in other
    years than the calendar. *)
Theorem rtc_get_time_value d turns n :
  valid_date d → (0 < turns)%nat →
  ∃ n', rtc_get_time (λ _, registers d) turns n = Ok (epoch_seconds d + 86400 * rtc_error (d_year d) (d_mon d), n').
Proof.
  intros Hd Ht. pose proof Hd as [Hy Hm Hday Hh Hmi Hs]. exists (7 + n)%nat. apply wp_det_ok. unfold rtc_get_time. wp_step.
  destruct turns as [|turns]; [lia|].
  assert (∀ r n (Q : Z → nat → Prop), Q (registers d r) (S n) → wp (cmos_read (λ _, registers d) r) n Q) as Hread by done.
  assert (0 ≤ d_year d `mod` 100 < 100) by (by apply Z.mod_pos_bound).
  unfold loop. wp_step. unfold read_fields. do 7 (wp_step; apply Hread). apply wp_ret. rewrite Z.eqb_refl. apply wp_ret.
  eapply wp_the; [|done]. rewrite <-(rtc_time_registers d Hd).
  change (registers d RTC_REG_SEC) with (to_bcd (d_sec d)). change (registers d RTC_REG_MIN) with (to_bcd (d_min d)).
  change (registers d RTC_REG_HOUR) with (to_bcd (d_hour d)). change (registers d RTC_REG_MDAY) with (to_bcd (d_day d)).
  change (registers d RTC_REG_MON) with (to_bcd (d_mon d)). change (registers d RTC_REG_YEAR) with (to_bcd (d_year d `mod` 100)).
  by rewrite !bcd_roundtrip by lia.
Qed.
Definition ex_date : date := Date 2018 4 17 12 30 59.
Lemma rtc_get_time_value_witness :
  ∃ n', rtc_get_time (λ _, registers ex_date) 1 0%nat = Ok (epoch_seconds ex_date + 86400 * rtc_error 2018 4, n').
Proof. apply (rtc_get_time_value ex_date 1 0); [split; vm_compute; intuition congruence|lia]. Defined.

(** The time is wrong by about a month on every day. *)
Lemma rtc_time_ahead y m : 1970 ≤ y < 2038 → 1 ≤ m ≤ 12 → 27 ≤ rtc_error y m ≤ 32.
Proof.
  intros Hy Hm. destruct (month_bounds y m Hm) as [_ HD]. unfold rtc_error, leap.
  assert (-1 ≤ (y - 1971) ÷ 4 - (y - 1969) `div` 4 + (if Z.rem (y - 1970) 4 =? 0 then 1 else 0) - (if y `mod` 4 =? 0 then 1 else 0) ≤ 1
          ∧ -1 ≤ (y - 1971) ÷ 4 - (y - 1969) `div` 4 ≤ 0) as [H1 H2].
  { destruct (Z.eqb_spec (Z.rem (y - 1970) 4) 0), (Z.eqb_spec (y `mod` 4) 0); Z.to_euclidean_division_equations; lia. }
  destruct (2 <? m); cbn [andb]; lia.
Qed.

(** ** The screen

    A terminal that never forgets: its page grows by a row whenever a new line is
    started below the last one.  The screen shows the last 25 rows. *)
Record term := Term { page : list (list (Z * Z)); trow : nat; tcol : Z }.

Definition term_newline (t : term) : term :=
  Term (if decide (S (trow t) < length (page t))%nat then page t else page t ++ [blank_row]) (S (trow t)) 0.
Definition term_wrap (t : term) : term := if 80 <=? tcol t then term_newline t else t.
Definition term_putc (t : term) (c : Z) : term :=
  if c =? 10 then term_newline t
  else if c =? 12 then Term (replicate 25 blank_row) 0 0
  else if c =? 8 then Term (page t) (trow t) (Z.max 0 (tcol t - 1))
  else if c =? 13 then Term (page t) (trow t) 0
  else if c =? 9 then term_wrap (Term (page t) (trow t) (8 * (tcol t `div` 8 + 1)))
  else if c =? 7 then t
  else term_wrap (Term (alter (λ row, <[Z.to_nat (tcol t) := (c `mod` 256, GRAY_ON_BLACK)]> row) (trow t) (page t)) (trow t) (tcol t + 1)).

(** Rows that are above the screen. *)
Definition above (t : term) : nat := (length (page t) - 25)%nat.
Record displays (v : vga) (t : term) : Prop := Displays {
  dp_rows : (25 ≤ length (page t))%nat;
  dp_cols : Forall (λ row, length row = 80%nat) (page t);
  dp_fb : fb v = drop (above t) (page t);
  dp_row : (above t ≤ trow t < length (page t))%nat;
  dp_cy : cy v = Z.of_nat (trow t - above t);
  dp_cx : cx v = tcol t }.

Lemma blank_length : length blank_row = 80%nat.
Proof. done. Qed.
Lemma displays_rows v t : displays v t → length (fb v) = 25%nat.
Proof. intros []. rewrite dp_fb0, length_drop. unfold above. lia. Qed.

Lemma wp_clear_row v y (Q : unit → vga → Prop) :
  0 ≤ y < Z.of_nat (length (fb v)) → Q tt (set_fb (<[Z.to_nat y := blank_row]> (fb v)) v) → wp (clear_row y) v Q.
Proof.
  intros Hy HQ. unfold clear_row. wp_steps. destruct (lookup_lt_is_Some_2 (fb v) (Z.to_nat y)) as [r Hr]; [lia|].
  eapply wp_the; [done|]. by wp_steps.
Qed.

Lemma wp_newline v t (Q : unit → vga → Prop) :
  displays v (Term (page t) (trow t) (cx v)) → (∀ v', displays v' (term_newline t) → Q tt v') → wp newline v Q.
Proof.
  intros [Hr Hc Hf Ht Hy Hx] HQ. cbn in *. unfold newline. wp_steps. cbn [cy set_pos].
  destruct t as [p r c]. unfold term_newline, above in *. cbn [page trow tcol] in *. destruct (Z.leb_spec ROW_CNT (cy v + 1)) as [Hge|Hlt].
  - unfold ROW_CNT in Hge. assert (S r = length p) as Er by lia. rewrite decide_False in HQ by lia. wp_steps.
    assert (length (fb v) = 25%nat) as Hl by (rewrite Hf, length_drop; lia).
    apply wp_clear_row; cbn [fb set_fb set_pos].
    { rewrite length_app, length_take, !length_drop. unfold ROW_CNT. rewrite Hl. simpl. lia. }
    apply HQ. split; cbn [page trow tcol fb cx cy set_fb set_pos].
    + rewrite length_app. simpl. lia.
    + apply Forall_app. split; [done|]. by constructor.
    + unfold above. cbn [page]. rewrite length_app. simpl length. change (Z.to_nat (ROW_CNT - 1)) with 24%nat.
      assert (length (take 24 (drop 1 (fb v))) = 24%nat) as H24 by (rewrite length_take, length_drop; lia).
      rewrite insert_app_r_alt by lia. rewrite H24. change (24 - 24)%nat with 0%nat.
      destruct (drop 24 (fb v)) as [|x [|]] eqn:Ed; [apply (f_equal length) in Ed; rewrite length_drop in Ed; simpl in Ed; lia| |apply (f_equal length) in Ed; rewrite length_drop in Ed; simpl in Ed; lia].
      simpl. rewrite take_ge by (rewrite length_drop; lia). rewrite Hf, drop_drop, drop_app_le by lia. do 2 f_equal. lia.
    + unfold above. cbn [page]. rewrite length_app. simpl. lia.
    + unfold above. cbn [page]. rewrite length_app. unfold ROW_CNT. simpl. lia.
    + done.
  - unfold ROW_CNT in Hlt. rewrite decide_True in HQ by lia. wp_steps. apply HQ. split; cbn [page trow tcol fb cx cy set_pos]; try done.
    + unfold above. cbn [page]. lia.
    + unfold above. cbn [page]. rewrite Hy. lia.
Qed.

Lemma wp_wrap v t (Q : unit → vga → Prop) :
  displays v t → (∀ v', displays v' (term_wrap t) → Q tt v') → wp (x ← gets cx; if COL_CNT <=? x then newline else mret tt) v Q.
Proof.
  intros Hd HQ. wp_steps. unfold term_wrap in HQ. pose proof (dp_cx v t Hd) as Ex. rewrite <-Ex in HQ. unfold COL_CNT.
  destruct (80 <=? cx v); [|wp_steps; by apply HQ]. apply (wp_newline v t); [|done]. destruct t; cbn in *. by rewrite Ex.
Qed.

Lemma wp_put_cell v t c (Q : unit → vga → Prop) :
  displays v t → 0 ≤ tcol t < 80 →
  (∀ v', displays v' (Term (alter (λ row, <[Z.to_nat (tcol t) := (c `mod` 256, GRAY_ON_BLACK)]> row) (trow t) (page t)) (trow t) (tcol t))
     → cx v' = cx v → cy v' = cy v → Q tt v') →
  wp (put_cell c) v Q.
Proof.
  intros [Hr Hc Hf Ht Hy Hx] Hcol HQ. unfold put_cell. wp_steps. unfold id. destruct (lookup_lt_is_Some_2 (page t) (trow t)) as [row Hrow]; [lia|].
  assert (length row = 80%nat) as Hlen by (by eapply (Forall_lookup_1 _ _ _ _ Hc)).
  eapply wp_the; [rewrite Hf, Hy, Nat2Z.id, lookup_drop; by replace (above t + (trow t - above t))%nat with (trow t) by lia|].
  wp_step. destruct (lookup_lt_is_Some_2 row (Z.to_nat (cx v))) as [cell Hcell]; [rewrite Hx; lia|]. eapply wp_the; [done|]. wp_steps.
  apply HQ; [|done..].
  assert (alter (λ row, <[Z.to_nat (tcol t) := (c `mod` 256, GRAY_ON_BLACK)]> row) (trow t) (page t)
    = <[trow t := <[Z.to_nat (tcol t) := (c `mod` 256, GRAY_ON_BLACK)]> row]> (page t)) as E.
  { apply list_eq. intros i. destruct (decide (i = trow t)) as [->|Hne].
    - by rewrite list_lookup_alter_eq, Hrow, list_lookup_insert_eq by lia.
    - by rewrite list_lookup_alter_ne, list_lookup_insert_ne by done. }
  split; cbn [page trow tcol fb cx cy set_fb]; unfold above in *; cbn [page] in *; rewrite ?length_alter, ?E; try done.
  - apply Forall_insert; [done|]. by rewrite length_insert.
  - rewrite drop_insert_ge by lia. rewrite <-Hf, Hy, Nat2Z.id, Hx. done.
Qed.

Lemma wp_cls v t (Q : unit → vga → Prop) :
  displays v t → (∀ v', displays v' (Term (replicate 25 blank_row) 0 0) → Q tt v') → wp cls v Q.
Proof.
  intros Hd HQ. pose proof (displays_rows v t Hd) as Hl. unfold cls. wp_step.
  apply (wp_for_upto (λ k v', length (fb v') = 25%nat ∧ ∀ i, (i < k)%nat → fb v' !! i = Some blank_row)).
  - split; [done|lia].
  - intros k v' Hk [Hl' Hb]. apply wp_clear_row; [rewrite Hl'; change (Z.to_nat ROW_CNT) with 25%nat in Hk; lia|]. simpl. rewrite length_insert, Nat2Z.id.
    split; [done|]. intros i Hi. change (Z.to_nat ROW_CNT) with 25%nat in Hk. destruct (decide (i = k)) as [->|Hne].
    + apply list_lookup_insert_eq. lia.
    + rewrite list_lookup_insert_ne by done. apply Hb. lia.
  - intros v' [Hl' Hb]. change (Z.to_nat ROW_CNT) with 25%nat in Hb. unfold move_cursor. wp_steps. apply HQ.
    split; cbn [page trow tcol fb cx cy set_pos]; try done.
    + by apply Forall_replicate.
    + apply list_eq. intros i. change (drop (above _) _) with (replicate 25 blank_row). destruct (decide (i < 25)%nat) as [Hi|Hi].
      * rewrite Hb by done. symmetry. by apply lookup_replicate_2.
      * rewrite !lookup_ge_None_2; [done|rewrite length_replicate; lia|lia].
    + unfold above. simpl. lia.
Qed.

Lemma displays_cursor v t : displays v t → displays (Vga (fb v) (cx v) (cy v) ((cx v + COL_CNT * cy v) `mod` 65536)) t.
Proof. by intros []. Qed.

Lemma wp_vga_putc v t c :
  displays v t → 0 ≤ tcol t < 80 →
  wp (vga_putc c) v (λ _ v', displays v' (term_putc t c) ∧ 0 ≤ tcol (term_putc t c) < 80 ∧ cursor v' = cx v' + 80 * cy v').
Proof.
  intros Hd Hcol.
  assert (∀ v', displays v' (term_putc t c) → 0 ≤ tcol (term_putc t c) < 80 →
    wp move_cursor v' (λ _ v', displays v' (term_putc t c) ∧ 0 ≤ tcol (term_putc t c) < 80 ∧ cursor v' = cx v' + 80 * cy v')) as Hend.
  { intros v' Hd' Hc'. unfold move_cursor. wp_steps. split_and!; [by apply displays_cursor|lia..|]. cbn. unfold COL_CNT.
    destruct Hd' as [Hr _ _ Ht Hy Hx]. unfold above in *. apply Z.mod_small. lia. }
  assert (∀ t', tcol (term_wrap t') = if 80 <=? tcol t' then 0 else tcol t') as Hwrap by (intros t'; unfold term_wrap; by destruct (80 <=? tcol t')).
  assert (cx v = tcol t) as Ex by apply Hd. unfold vga_putc. wp_steps. unfold id.
  destruct (Z.eqb_spec c 10) as [->|?].
  { apply (wp_newline v t); [destruct t; cbn in *; by rewrite Ex|]. intros v' H'. apply Hend; [done|]. cbn. lia. }
  destruct (Z.eqb_spec c 12) as [->|?]; [apply (wp_cls v t); [done|]; intros v' H'; apply Hend; [done|cbn; lia]|].
  assert (term_putc t c = if c =? 8 then Term (page t) (trow t) (Z.max 0 (tcol t - 1))
    else if c =? 13 then Term (page t) (trow t) 0
    else if c =? 9 then term_wrap (Term (page t) (trow t) (8 * (tcol t `div` 8 + 1)))
    else if c =? 7 then t
    else term_wrap (Term (alter (λ row, <[Z.to_nat (tcol t) := (c `mod` 256, GRAY_ON_BLACK)]> row) (trow t) (page t)) (trow t) (tcol t + 1)))
    as E by (unfold term_putc; by rewrite !(proj2 (Z.eqb_neq c _)) by done).
  destruct (Z.eqb_spec c 8) as [->|?].
  { destruct (Z.ltb_spec 0 (cx v)) as [Hpos|Hz]; wp_steps; (apply Hend; rewrite E; [|cbn; lia]); destruct Hd; split; cbn; try done; lia. }
  destruct (Z.eqb_spec c 13) as [->|?].
  { wp_steps. apply Hend; rewrite E; [|cbn; lia]. destruct Hd; by split. }
  destruct (Z.eqb_spec c 9) as [->|?].
  { wp_steps. eapply wp_wrap; [|intros v' H'; apply Hend; rewrite E; [exact H'|]].
    - destruct Hd; split; cbn; try done. rewrite dp_cx0. Z.to_euclidean_division_equations; lia.
    - rewrite Hwrap. cbn [tcol]. destruct (Z.leb_spec 80 (8 * (tcol t `div` 8 + 1))); Z.to_euclidean_division_equations; lia. }
  destruct (Z.eqb_spec c 7) as [->|?]; [wp_steps; apply Hend; by rewrite E|].
  wp_step. apply (wp_put_cell v t); [done|done|]. intros v' Hd' Ex' Ey'. wp_steps.
  eapply wp_wrap; [|intros v2 H2; apply Hend; rewrite E; [exact H2|]].
  - destruct Hd'; split; cbn in *; try done; [by rewrite <-Ey'|by rewrite Ex].
  - rewrite Hwrap. cbn [tcol]. destruct (Z.leb_spec 80 (tcol t + 1)); lia.
Qed.

Fixpoint vga_puts (cs : list Z) : M vga unit :=
  match cs with [] => mret tt | c :: cs => vga_putc c ;; vga_puts cs end.

(** C32: whatever bytes are written to it, the screen shows the last 25 rows of a
    terminal that keeps everything: lines wrap after 80 columns and scroll up, and
    the cursor stays on the screen, where the hardware is told it is; no write
    misses the frame buffer. *)
Theorem vga_refines cs v t :
  displays v t → 0 ≤ tcol t < 80 → cursor v = cx v + 80 * cy v →
  ∃ v', vga_puts cs v = Ok (tt, v') ∧ displays v' (fold_left term_putc cs t)
    ∧ 0 ≤ cx v' < 80 ∧ 0 ≤ cy v' < 25 ∧ cursor v' = cx v' + 80 * cy v'.
Proof.
  revert v t. induction cs as [|c cs IH]; intros v t Hd Hc Hcur.
  - exists v. pose proof Hd as [? ? ? Ht Hy Hx]. unfold above in *. split_and!; [done|done|lia..].
  - pose proof (wp_vga_putc v t c Hd Hc) as ([] & v1 & E & Hd1 & Hc1 & Hcur1)%wp_ok.
    destruct (IH v1 _ Hd1 Hc1 Hcur1) as (v' & E' & H'). exists v'. split; [|exact H']. simpl. unfold mbind, M_bind. by rewrite E.
Qed.
Definition ex_vga : vga := Vga (replicate 25 blank_row) 0 0 0.
Definition ex_text : list Z := replicate 30 10 ++ [65].
Definition ex_term : term := Term (replicate 25 blank_row) 0 0.
Lemma ex_displays : displays ex_vga ex_term.
Proof. split; try (vm_compute; lia); try reflexivity. by apply Forall_replicate. Qed.
Lemma vga_refines_witness :
  ∃ v', vga_puts ex_text ex_vga = Ok (tt, v') ∧ displays v' (fold_left term_putc ex_text ex_term) ∧ 0 ≤ cx v' < 80 ∧ 0 ≤ cy v' < 25
    ∧ cursor v' = cx v' + 80 * cy v'.
Proof. apply (vga_refines ex_text ex_vga ex_term ex_displays); [split; [discriminate|reflexivity]|reflexivity]. Defined.
Lemma ex_text_screen :
  match vga_puts ex_text ex_vga with Ok (_, v) => cx v = 1 ∧ cy v = 24 ∧ (fb v !! 24%nat ≫= λ row, row !! 0%nat) = Some (65, 7) | Err _ => False end.
Proof. vm_compute. done. Qed.

(** A cursor below the screen, as the hardware may report it, makes the first
    character miss the frame buffer. *)
Lemma vga_cursor_off_screen : (vga_init 2000 ;; vga_putc 65) ex_vga = Err EFault.
Proof. vm_compute. reflexivity. Qed.

(** ** The keyboard *)

Lemma wp_handler_putc t q b (Q : unit → intq → Prop) :
  client_ok t q → handler q = false → intq_full q = false →
  (∀ q', client_ok t q' → handler q' = false → contents q' = contents q ++ [b] → Q tt q') → wp (handler_putc b) q Q.
Proof.
  intros Hc Hh Hf HQ.
  pose proof (wp_client t (IrqPutc b) q Hc Hh I ltac:(simpl; by rewrite Hf)) as Hw. pose proof (wlp_perform (IrqPutc b) q) as Hm.
  cbn [perform] in Hw, Hm. unfold wp, wlp, mbind, M_bind in *. destruct (handler_putc b q) as [[[] q']|]; [|done]. cbn in Hw, Hm.
  destruct Hw as [Hc' Hh']. apply HQ; [done..|]. destruct (Hm (co_ring t q Hc)) as [_ E]. simpl in E. done.
Qed.

(** The key that a scancode stands for, and whether it was let go. *)
Definition scancode (byte byte2 : Z) : Z :=
  Z.land (if byte =? 224 then Z.lor (Z.shiftl byte 8) byte2 else byte) (u32 (Z.lnot 128)).
Definition released (byte byte2 : Z) : bool := negb (Z.land (if byte =? 224 then Z.lor (Z.shiftl byte 8) byte2 else byte) 128 =? 0).
(** The character that goes into the buffer, if there is room. *)
Definition typed (k : kbd) (byte byte2 : Z) : list Z :=
  match (if scancode byte byte2 =? 58 then None else key_char k (scancode byte byte2)) with
  | Some c => if released byte byte2 || ((c =? 127) && ctrl k && alt k) || intq_full (buffer k) then [] else [modified k c]
  | None => []
  end.

(** The handler of the keyboard never blocks or fails, whatever the scancodes: it
    appends the character of a key that is pressed to the input buffer, unless the
    buffer is full, and nothing for other codes, so the buffer stays one that a
    reader can wait on. *)
Theorem keyboard_interrupt_correct t k byte byte2 :
  client_ok t (buffer k) → handler (buffer k) = false →
  ∃ k', keyboard_interrupt byte byte2 k = Ok (tt, k') ∧ client_ok t (buffer k') ∧ handler (buffer k') = false
    ∧ contents (buffer k') = contents (buffer k) ++ typed k byte byte2.
Proof.
  intros Hc Hh.
  assert (wp (keyboard_interrupt byte byte2) k (λ _ k', client_ok t (buffer k') ∧ handler (buffer k') = false
    ∧ contents (buffer k') = contents (buffer k) ++ typed k byte byte2)) as ([] & k' & E & H)%wp_ok; [|by exists k'].
  unfold keyboard_interrupt. fold (scancode byte byte2). fold (released byte byte2). unfold typed. cbv zeta. wp_steps. unfold id.
  destruct (scancode byte byte2 =? 58).
  { destruct (released byte byte2); wp_steps; by rewrite app_nil_r. }
  destruct (key_char k (scancode byte byte2)) as [c|].
  - destruct (released byte byte2); cbn [orb]; [wp_steps; by rewrite app_nil_r|].
    destruct ((c =? 127) && ctrl k && alt k); cbn [orb]; [wp_steps; by rewrite app_nil_r|].
    unfold input_full, on_buffer. wp_steps. destruct (intq_full (buffer k)) eqn:Hf; wp_steps; [by rewrite app_nil_r|].
    unfold input_putc, input_full, on_buffer. wp_steps. cbn. apply wp_assert; [by rewrite Hf|]. wp_steps. cbn.
    by apply (wp_handler_putc t).
  - wp_steps. rewrite app_nil_r. unfold shift_key. destruct k as [ls rs la ra lc rc cl n q r].
    repeat (destruct (_ =? _); [done|]). done.
Qed.

Definition ex_kbd (ls : bool) : kbd := Kbd ls false false false false false false 0 ex_queue 0.
Lemma ex_kbd_ok ls : client_ok 1 (buffer (ex_kbd ls)).
Proof. split; [split; vm_compute; intuition congruence|]. vm_compute. done. Qed.
Lemma keyboard_interrupt_correct_witness :
  ∃ k', keyboard_interrupt 30 0 (ex_kbd true) = Ok (tt, k') ∧ client_ok 1 (buffer k') ∧ handler (buffer k') = false
    ∧ contents (buffer k') = [65].
Proof. apply (keyboard_interrupt_correct 1 (ex_kbd true) 30 0 (ex_kbd_ok true)). reflexivity. Defined.

(** Every printable character has a key, with or without Shift. *)
Lemma keyboard_types_ascii c :
  32 ≤ c < 127 → ∃ ls code, 0 < code < 128 ∧ typed (ex_kbd ls) code 0 = [c].
Proof.
  intros Hc.
  assert (forallb (λ c, existsb (λ p, bool_decide (typed (ex_kbd p.1) p.2 0 = [c]))
    (list_prod [false; true] (seqZ 1 127))) (seqZ 32 95) = true) as Hall by (vm_compute; reflexivity).
  rewrite forallb_forall in Hall. assert (In c (seqZ 32 95)) as Hin0 by (apply list_elem_of_In, elem_of_seqZ; lia). specialize (Hall c Hin0).
  apply existsb_exists in Hall as ([ls code] & Hin & E%bool_decide_eq_true). apply in_prod_iff in Hin as [_ Hin].
  apply list_elem_of_In, elem_of_seqZ in Hin. exists ls, code. split; [lia|done].
Qed.
