(* ===== verification/Interrupts.v ===== *)
(** * Descriptor tables and the interrupt system

    threads/interrupt.c (the parts that are not in Kernel.v), userprog/gdt.c,
    userprog/tss.c, devices/pit.c, and the functions of the drivers that register
    handlers.  Descriptors are 64-bit numbers, put together the way the code does;
    [ports] is what was written to I/O ports, in order.

    The addresses of the entry points of intr-stubs.S are the parameter [stubs];
    what a handler does is the parameter [call], [thread_yield] the parameter
    [yield]. *)
From stdpp Require Import strings.
From S2P Require Import Prelude Vaddr Kernel.
Local Open Scope Z_scope.

(** ** Segments: userprog/gdt.c *)

Definition SEL_CNT : nat := 6.

Inductive seg_class := CLS_SYSTEM | CLS_CODE_DATA.
Inductive seg_granularity := GRAN_BYTE | GRAN_PAGE.
Definition class_bit (c : seg_class) : Z := match c with CLS_SYSTEM => 0 | CLS_CODE_DATA => 1 end.
Definition gran_bit (g : seg_granularity) : Z := match g with GRAN_BYTE => 0 | GRAN_PAGE => 1 end.

Definition make_seg_desc {S} (base limit : Z) (class : seg_class) (type dpl : Z) (granularity : seg_granularity) : M S Z :=
  ASSERT (limit <=? 1048575) ;;
  ASSERT ((0 <=? type) && (type <=? 15)) ;;
  ASSERT ((0 <=? dpl) && (dpl <=? 3)) ;;
  let e0 := u32 (Z.lor (Z.land limit 65535) (u32 (Z.shiftl base 16))) in
  let e1 := u32 (Z.lor (Z.lor (Z.lor (Z.lor (Z.lor (Z.lor (Z.lor (Z.lor
              (Z.land (Z.shiftr base 16) 255)
              (Z.shiftl type 8))
              (Z.shiftl (class_bit class) 12))
              (Z.shiftl dpl 13))
              (Z.shiftl 1 15))
              (Z.land limit 983040))
              (Z.shiftl 1 22))
              (Z.shiftl (gran_bit granularity) 23))
              (Z.land base 4278190080)) in
  mret (Z.lor e0 (Z.shiftl e1 32)).
Definition make_code_desc {S} (dpl : Z) : M S Z := make_seg_desc 0 1048575 CLS_CODE_DATA 10 dpl GRAN_PAGE.
Definition make_data_desc {S} (dpl : Z) : M S Z := make_seg_desc 0 1048575 CLS_CODE_DATA 2 dpl GRAN_PAGE.
Definition make_tss_desc {S} (laddr : Z) : M S Z := make_seg_desc laddr 103 CLS_SYSTEM 9 0 GRAN_BYTE.
Definition make_gdtr_operand (limit base : Z) : Z := Z.lor limit (Z.shiftl base 16).

(** ** The task-state segment: userprog/tss.c *)

(** The members that are used; the page of the TSS is zero otherwise. *)
Record tss := Tss { tss_addr : Z; esp0 : Z; ss0 : Z; bitmap : Z }.

Inductive intr_handler_func :=
  f_kill | f_page_fault | f_syscall_handler | f_timer_interrupt | f_keyboard_interrupt | f_serial_interrupt | f_interrupt_handler.

Definition INTR_CNT : nat := 256.

Record intr := Intr {
  idt : list Z; idtr : Z;
  intr_handlers : list (option intr_handler_func);
  intr_names : list string;
  unexpected_cnt : list Z;
  in_external_intr : bool; yield_on_return : bool;
  intr_flag : intr_level;
  ports : list (Z * Z);
  messages : list (Z * string); (** of [unexpected_interrupt] *)
  the_tss : option tss; gdt : list Z; gdtr : Z; task_register : Z }.

Definition set_idt (l : list Z) (h : list (option intr_handler_func)) (n : list string) (s : intr) : intr :=
  Intr l (idtr s) h n (unexpected_cnt s) (in_external_intr s) (yield_on_return s) (intr_flag s) (ports s) (messages s)
    (the_tss s) (gdt s) (gdtr s) (task_register s).
Definition set_idtr (x : Z) (s : intr) : intr :=
  Intr (idt s) x (intr_handlers s) (intr_names s) (unexpected_cnt s) (in_external_intr s) (yield_on_return s) (intr_flag s) (ports s)
    (messages s) (the_tss s) (gdt s) (gdtr s) (task_register s).
Definition set_context (ext y : bool) (s : intr) : intr :=
  Intr (idt s) (idtr s) (intr_handlers s) (intr_names s) (unexpected_cnt s) ext y (intr_flag s) (ports s) (messages s)
    (the_tss s) (gdt s) (gdtr s) (task_register s).
Definition set_flag (l : intr_level) (s : intr) : intr :=
  Intr (idt s) (idtr s) (intr_handlers s) (intr_names s) (unexpected_cnt s) (in_external_intr s) (yield_on_return s) l (ports s)
    (messages s) (the_tss s) (gdt s) (gdtr s) (task_register s).
Definition set_ports (p : list (Z * Z)) (s : intr) : intr :=
  Intr (idt s) (idtr s) (intr_handlers s) (intr_names s) (unexpected_cnt s) (in_external_intr s) (yield_on_return s) (intr_flag s) p
    (messages s) (the_tss s) (gdt s) (gdtr s) (task_register s).
Definition set_unexpected (c : list Z) (m : list (Z * string)) (s : intr) : intr :=
  Intr (idt s) (idtr s) (intr_handlers s) (intr_names s) c (in_external_intr s) (yield_on_return s) (intr_flag s) (ports s) m
    (the_tss s) (gdt s) (gdtr s) (task_register s).
Definition set_segments (t : option tss) (g : list Z) (r tr : Z) (s : intr) : intr :=
  Intr (idt s) (idtr s) (intr_handlers s) (intr_names s) (unexpected_cnt s) (in_external_intr s) (yield_on_return s) (intr_flag s)
    (ports s) (messages s) t g r tr.

(** threads/io.h *)
Definition outb (port data : Z) : M intr unit := modify (λ s, set_ports (ports s ++ [(port, data `mod` 256)]) s).

Definition tss_get : M intr tss := t ← gets the_tss; ASSERT (bool_decide (is_Some t)) ;; the t.
(** [cur] is the page of the running thread. *)
Definition tss_update (cur : Z) : M intr unit :=
  t ← tss_get;
  modify (λ s, set_segments (Some (Tss (tss_addr t) (u32 (cur + PGSIZE)) (ss0 t) (bitmap t))) (gdt s) (gdtr s) (task_register s) s).
(** [page] is what [palloc_get_page (PAL_ASSERT | PAL_ZERO)] returns. *)
Definition tss_init (page cur : Z) : M intr unit :=
  modify (λ s, set_segments (Some (Tss page 0 SEL_KDSEG 57343)) (gdt s) (gdtr s) (task_register s) s) ;;
  tss_update cur.

(** [gdt[sel / sizeof *gdt] = desc]; [addr] is the address of the table. *)
Definition set_desc (sel desc : Z) (g : list Z) : list Z := <[Z.to_nat (sel `div` 8) := desc]> g.
Definition gdt_init (addr : Z) : M intr unit :=
  kc ← make_code_desc 0; kd ← make_data_desc 0; uc ← make_code_desc 3; ud ← make_data_desc 3;
  t ← tss_get;
  td ← make_tss_desc (tss_addr t);
  modify (λ s, set_segments (the_tss s)
    (set_desc SEL_TSS td (set_desc SEL_UDSEG ud (set_desc SEL_UCSEG uc (set_desc SEL_KDSEG kd (set_desc SEL_KCSEG kc
      (set_desc SEL_NULL 0 (gdt s)))))))
    (make_gdtr_operand (8 * Z.of_nat SEL_CNT - 1) addr) SEL_TSS s).

(** ** Interrupt gates *)

Definition make_gate {S} (function dpl type : Z) : M S Z :=
  ASSERT (negb (function =? 0)) ;;
  ASSERT ((0 <=? dpl) && (dpl <=? 3)) ;;
  ASSERT ((0 <=? type) && (type <=? 15)) ;;
  let e0 := u32 (Z.lor (Z.land function 65535) (Z.shiftl SEL_KCSEG 16)) in
  let e1 := u32 (Z.lor (Z.lor (Z.lor (Z.lor
              (Z.land function 4294901760)
              (Z.shiftl 1 15))
              (u32 (Z.shiftl dpl 13)))
              (Z.shiftl 0 12))
              (u32 (Z.shiftl type 8))) in
  mret (Z.lor e0 (Z.shiftl e1 32)).
Definition make_intr_gate {S} (function dpl : Z) : M S Z := make_gate function dpl 14.
Definition make_trap_gate {S} (function dpl : Z) : M S Z := make_gate function dpl 15.
Definition make_idtr_operand (limit base : Z) : Z := Z.lor limit (Z.shiftl base 16).

(** ** The interrupt controllers *)

Definition PIC0_CTRL : Z := 32.
Definition PIC0_DATA : Z := 33.
Definition PIC1_CTRL : Z := 160.
Definition PIC1_DATA : Z := 161.

Definition pic_init : M intr unit :=
  outb PIC0_DATA 255 ;; outb PIC1_DATA 255 ;;
  outb PIC0_CTRL 17 ;; outb PIC0_DATA 32 ;; outb PIC0_DATA 4 ;; outb PIC0_DATA 1 ;;
  outb PIC1_CTRL 17 ;; outb PIC1_DATA 40 ;; outb PIC1_DATA 2 ;; outb PIC1_DATA 1 ;;
  outb PIC0_DATA 0 ;; outb PIC1_DATA 0.

Definition pic_end_of_interrupt (irq : Z) : M intr unit :=
  ASSERT ((32 <=? irq) && (irq <? 48)) ;;
  outb 32 32 ;;
  if 40 <=? irq then outb 160 32 else mret tt.

(** ** Registering handlers *)
Section tables.
Context (stubs : nat → Z).

(** The processor's exceptions by name. *)
Definition exception_names : list (nat * string) :=
  [(0%nat, "#DE Divide Error"); (1%nat, "#DB Debug Exception"); (2%nat, "NMI Interrupt"); (3%nat, "#BP Breakpoint Exception");
   (4%nat, "#OF Overflow Exception"); (5%nat, "#BR BOUND Range Exceeded Exception"); (6%nat, "#UD Invalid Opcode Exception");
   (7%nat, "#NM Device Not Available Exception"); (8%nat, "#DF Double Fault Exception"); (9%nat, "Coprocessor Segment Overrun");
   (10%nat, "#TS Invalid TSS Exception"); (11%nat, "#NP Segment Not Present"); (12%nat, "#SS Stack Fault Exception");
   (13%nat, "#GP General Protection Exception"); (14%nat, "#PF Page-Fault Exception"); (16%nat, "#MF x87 FPU Floating-Point Error");
   (17%nat, "#AC Alignment Check Exception"); (18%nat, "#MC Machine-Check Exception"); (19%nat, "#XF SIMD Floating-Point Exception")].

(** [addr] is the address of the table. *)
Definition intr_init (addr : Z) : M intr unit :=
  pic_init ;;
  for_upto INTR_CNT (λ i, g ← make_intr_gate (stubs i) 0;
    modify (λ s, set_idt (<[i := g]> (idt s)) (intr_handlers s) (intr_names s) s)) ;;
  modify (set_idtr (make_idtr_operand (8 * Z.of_nat INTR_CNT - 1) addr)) ;;
  modify (λ s, set_idt (idt s) (intr_handlers s)
    (fold_left (λ l n, <[n.1 := n.2]> l) exception_names (replicate INTR_CNT "unknown")) s).

Definition register_handler (vec_no : nat) (dpl : Z) (level : intr_level) (handler : intr_handler_func) (name : string) : M intr unit :=
  h ← gets intr_handlers;
  old ← the (h !! vec_no);
  ASSERT (bool_decide (old = None)) ;;
  g ← (if decide (level = INTR_ON) then make_trap_gate (stubs vec_no) dpl else make_intr_gate (stubs vec_no) dpl);
  modify (λ s, set_idt (<[vec_no := g]> (idt s)) (<[vec_no := Some handler]> (intr_handlers s)) (<[vec_no := name]> (intr_names s)) s).

Definition intr_register_ext (vec_no : nat) (handler : intr_handler_func) (name : string) : M intr unit :=
  ASSERT (bool_decide (32 ≤ vec_no ∧ vec_no ≤ 47)%nat) ;;
  register_handler vec_no 0 INTR_OFF handler name.
Definition intr_register_int (vec_no : nat) (dpl : Z) (level : intr_level) (handler : intr_handler_func) (name : string) : M intr unit :=
  ASSERT (bool_decide (vec_no < 32 ∨ 47 < vec_no)%nat) ;;
  register_handler vec_no dpl level handler name.

Definition intr_name (vec : nat) : M intr string := n ← gets intr_names; the (n !! vec).

(** ** The handlers of the kernel *)

Definition PIT_PORT_CONTROL : Z := 67.
Definition PIT_PORT_COUNTER (channel : Z) : Z := 64 + channel.
Definition PIT_HZ : Z := 1193180.
Definition TIMER_FREQ : Z := 100.

Definition pit_count (frequency : Z) : Z :=
  (if frequency <? 19 then 0
   else if PIT_HZ <? frequency then 2
   else (PIT_HZ + frequency ÷ 2) ÷ frequency) `mod` 65536.
Definition pit_configure_channel (channel mode frequency : Z) : M intr unit :=
  ASSERT ((channel =? 0) || (channel =? 2)) ;;
  ASSERT ((mode =? 2) || (mode =? 3)) ;;
  let count := pit_count frequency in
  old_level ← gets intr_flag; modify (set_flag INTR_OFF) ;;
  outb PIT_PORT_CONTROL (Z.lor (Z.lor (Z.shiftl channel 6) 48) (Z.shiftl mode 1)) ;;
  outb (PIT_PORT_COUNTER channel) count ;;
  outb (PIT_PORT_COUNTER channel) (Z.shiftr count 8) ;;
  modify (set_flag old_level).

(** [timer_init] but for its list of sleeping threads. *)
Definition timer_init : M intr unit :=
  pit_configure_channel 0 2 TIMER_FREQ ;;
  intr_register_ext 32 f_timer_interrupt "8254 Timer".
Definition kbd_init : M intr unit := intr_register_ext 33 f_keyboard_interrupt "8042 Keyboard".
Definition exception_init : M intr unit :=
  intr_register_int 3 3 INTR_ON f_kill "#BP Breakpoint Exception" ;;
  intr_register_int 4 3 INTR_ON f_kill "#OF Overflow Exception" ;;
  intr_register_int 5 3 INTR_ON f_kill "#BR BOUND Range Exceeded Exception" ;;
  intr_register_int 0 0 INTR_ON f_kill "#DE Divide Error" ;;
  intr_register_int 1 0 INTR_ON f_kill "#DB Debug Exception" ;;
  intr_register_int 6 0 INTR_ON f_kill "#UD Invalid Opcode Exception" ;;
  intr_register_int 7 0 INTR_ON f_kill "#NM Device Not Available Exception" ;;
  intr_register_int 11 0 INTR_ON f_kill "#NP Segment Not Present" ;;
  intr_register_int 12 0 INTR_ON f_kill "#SS Stack Fault Exception" ;;
  intr_register_int 13 0 INTR_ON f_kill "#GP General Protection Exception" ;;
  intr_register_int 16 0 INTR_ON f_kill "#MF x87 FPU Floating-Point Error" ;;
  intr_register_int 19 0 INTR_ON f_kill "#XF SIMD Floating-Point Exception" ;;
  intr_register_int 14 0 INTR_OFF f_page_fault "#PF Page-Fault Exception".
Definition syscall_init : M intr unit := intr_register_int 48 3 INTR_ON f_syscall_handler "syscall".
(** Where [serial_init_queue] and [ide_init] register their handlers. *)
Definition serial_register : M intr unit := intr_register_ext 36 f_serial_interrupt "serial".
Definition ide_register : M intr unit :=
  intr_register_ext 46 f_interrupt_handler "ide0" ;; intr_register_ext 47 f_interrupt_handler "ide1".

(** The interrupt system as [main] of threads/init.c sets it up. *)
Definition boot_interrupts (addr : Z) : M intr unit :=
  intr_init addr ;; timer_init ;; kbd_init ;; exception_init ;; syscall_init ;; serial_register ;; ide_register.
End tables.

(** ** Handling an interrupt *)
Section dispatch.
Context (call : intr_handler_func → Z → M intr unit) (yield : M intr unit).

Definition unexpected_interrupt (vec_no : Z) : M intr unit :=
  cnt ← gets unexpected_cnt;
  n0 ← the (cnt !! Z.to_nat vec_no);
  let n := u32 (n0 + 1) in
  names ← gets intr_names;
  name ← the (names !! Z.to_nat vec_no);
  modify (λ s, set_unexpected (<[Z.to_nat vec_no := n]> cnt)
    (if Z.land n (u32 (n - 1)) =? 0 then messages s ++ [(vec_no, name)] else messages s) s).

Definition intr_handler (vec_no : Z) : M intr unit :=
  let external := (32 <=? vec_no) && (vec_no <? 48) in
  (if external then
     l ← gets intr_flag; ASSERT (bool_decide (l = INTR_OFF)) ;;
     ext ← gets in_external_intr; ASSERT (negb ext) ;;
     modify (set_context true false)
   else mret tt) ;;
  hs ← gets intr_handlers;
  h ← the (hs !! Z.to_nat vec_no);
  match h with
  | Some handler => call handler vec_no
  | None => if (vec_no =? 39) || (vec_no =? 47) then mret tt else unexpected_interrupt vec_no
  end ;;
  if external then
    l ← gets intr_flag; ASSERT (bool_decide (l = INTR_OFF)) ;;
    ext ← gets in_external_intr; ASSERT ext ;;
    modify (λ s, set_context false (yield_on_return s) s) ;;
    pic_end_of_interrupt vec_no ;;
    y ← gets yield_on_return;
    if (y : bool) then yield else mret tt
  else mret tt.
End dispatch.

(** ** Delays: the rest of devices/timer.c

    Whether a number of turns of an empty loop lasts longer than a tick is for the
    processor to say; the state is the variable [loops_per_tick]. *)
Section calibration.
Context (too_many_loops : Z → bool).

Definition timer_calibrate (intr_on : bool) : M Z unit :=
  ASSERT intr_on ;;
  modify (λ _, Z.shiftl 1 10) ;;
  loop 33 (λ _ : unit,
    loops_per_tick ← gets id;
    if too_many_loops (u32 (Z.shiftl loops_per_tick 1)) then mret (inr tt)
    else
      modify (λ l, u32 (Z.shiftl l 1)) ;;
      l ← gets id; ASSERT (negb (l =? 0)) ;;
      mret (inl tt)) tt ;;
  high_bit ← gets id;
  loop 33 (λ test_bit,
    if test_bit =? Z.shiftr high_bit 10 then mret (inr tt)
    else
      (if too_many_loops (Z.lor high_bit test_bit) then mret tt else modify (λ l, Z.lor l test_bit)) ;;
      mret (inl (Z.shiftr test_bit 1))) (Z.shiftr high_bit 1).
End calibration.

(** A call of [timer_sleep] or of [busy_wait]. *)
Inductive pause := Sleep (ticks : Z) | Busy (loops : Z).

Definition real_time_delay (loops_per_tick num denom : Z) : res pause :=
  if negb (Z.rem denom 1000 =? 0) then Err EAssert
  else Ok (Busy (Z.quot (s64 (Z.quot (s64 (loops_per_tick * num)) 1000 * TIMER_FREQ)) (Z.quot denom 1000))).
Definition real_time_sleep (intr_on : bool) (loops_per_tick num denom : Z) : res pause :=
  let ticks := Z.quot (s64 (num * TIMER_FREQ)) denom in
  if negb intr_on then Err EAssert
  else if 0 <? ticks then Ok (Sleep ticks) else real_time_delay loops_per_tick num denom.

Definition timer_msleep (intr_on : bool) (loops_per_tick ms : Z) : res pause := real_time_sleep intr_on loops_per_tick ms 1000.
Definition timer_usleep (intr_on : bool) (loops_per_tick us : Z) : res pause := real_time_sleep intr_on loops_per_tick us 1000000.
Definition timer_nsleep (intr_on : bool) (loops_per_tick ns : Z) : res pause := real_time_sleep intr_on loops_per_tick ns 1000000000.
Definition timer_mdelay (loops_per_tick ms : Z) : res pause := real_time_delay loops_per_tick ms 1000.
Definition timer_udelay (loops_per_tick us : Z) : res pause := real_time_delay loops_per_tick us 1000000.
Definition timer_ndelay (loops_per_tick ns : Z) : res pause := real_time_delay loops_per_tick ns 1000000000.
