(* ===== verification/InterruptProps.v ===== *)
(** * Properties of descriptor tables and of the interrupt system *)
From stdpp Require Import strings.
From S2P Require Import Prelude Vaddr Kernel Interrupts.
Local Open Scope Z_scope.

(** ** Descriptors as the processor reads them *)

(** [w] bits of [d] from bit [lo] on. *)
Definition field (d lo w : Z) : Z := (d `div` 2 ^ lo) `mod` 2 ^ w.

Record gate_view := GateView { g_offset : Z; g_selector : Z; g_type : Z; g_system : Z; g_dpl : Z; g_present : Z }.
Definition decode_gate (d : Z) : gate_view :=
  GateView (field d 0 16 + 65536 * field d 48 16) (field d 16 16) (field d 40 4) (field d 44 1) (field d 45 2) (field d 47 1).

Record seg_view := SegView { v_base : Z; v_limit : Z; v_type : Z; v_class : Z; v_dpl : Z; v_present : Z; v_32bit : Z; v_gran : Z }.
Definition decode_seg (d : Z) : seg_view :=
  SegView (field d 16 24 + 2 ^ 24 * field d 56 8) (field d 0 16 + 65536 * field d 48 4)
    (field d 40 4) (field d 44 1) (field d 45 2) (field d 47 1) (field d 54 1) (field d 55 1).

Lemma lor_add k a b : 0 ≤ k → a `mod` 2 ^ k = 0 → 0 ≤ b < 2 ^ k → Z.lor a b = a + b.
Proof.
  intros Hk Ha Hb. symmetry. apply Z.add_nocarry_lor. apply Z.bits_inj'. intros i Hi.
  rewrite Z.land_spec, Z.testbit_0_l. destruct (Z.lt_ge_cases i k).
  - replace (Z.testbit a i) with false; [done|].
    rewrite (Z.div_mod a (2 ^ k)), Ha, Z.add_0_r by lia. rewrite Z.mul_comm, Z.mul_pow2_bits_low by lia. done.
  - replace (Z.testbit b i) with false; [apply andb_false_r|]. symmetry.
    destruct (decide (b = 0)) as [->|]; [apply Z.testbit_0_l|].
    apply Z.bits_above_log2; [lia|]. enough (Z.log2 b < k) by lia. apply Z.log2_lt_pow2; lia.
Qed.
Lemma lor_add_high k a b : 0 ≤ k → 0 ≤ a < 2 ^ k → b `mod` 2 ^ k = 0 → Z.lor a b = a + b.
Proof. intros. rewrite Z.lor_comm, (lor_add k) by done. lia. Qed.

(** A gate in numbers. *)
Definition gate (f dpl type : Z) : Z :=
  f `mod` 65536 + 524288 + 2 ^ 32 * (f - f `mod` 65536 + 32768 + dpl * 8192 + type * 256).

Lemma land_16 f : Z.land f 65535 = f `mod` 65536.
Proof. apply (land_low f 16). lia. Qed.

Lemma land_hi f : 0 ≤ f < 2 ^ 32 → Z.land f 4294901760 = f - f `mod` 65536.
Proof. apply (land_high f 16). lia. Qed.

(** Linear arithmetic with division by constants. *)
Ltac powers :=
  repeat match goal with
         | |- context [2 ^ Zpos ?k] => let v := eval compute in (2 ^ Zpos k) in change (2 ^ Zpos k) with v
         | |- context [2 ^ 0] => change (2 ^ 0) with 1
         | H : context [2 ^ Zpos ?k] |- _ => let v := eval compute in (2 ^ Zpos k) in change (2 ^ Zpos k) with v in H
         end.
Ltac bits := powers; Z.to_euclidean_division_equations; lia.

Lemma gate_high hi dpl type :
  0 ≤ hi < 65536 → 0 ≤ dpl ≤ 3 → 0 ≤ type ≤ 15 →
  Z.lor (Z.lor (Z.lor (Z.lor (65536 * hi) 32768) (dpl * 8192)) 0) (type * 256) = 65536 * hi + 32768 + dpl * 8192 + type * 256.
Proof.
  intros Hh Hd Ht. rewrite (lor_add 16 (65536 * hi)) by bits. rewrite (lor_add 15 _ (dpl * 8192)) by bits.
  rewrite Z.lor_0_r. by rewrite (lor_add 13) by bits.
Qed.

Lemma wp_make_gate {S} f dpl type (s : S) (Q : Z → S → Prop) :
  0 < f < 2 ^ 32 → 0 ≤ dpl ≤ 3 → 0 ≤ type ≤ 15 → Q (gate f dpl type) s → wp (make_gate f dpl type) s Q.
Proof.
  intros Hf Hd Ht HQ. unfold make_gate. wp_step. apply wp_assert; [apply negb_true_iff, Z.eqb_neq; lia|].
  do 2 (wp_step; apply wp_assert; [apply andb_true_iff; split; apply Z.leb_le; lia|]). apply wp_ret.
  rewrite land_16, land_hi by lia. replace (f - f `mod` 65536) with (65536 * (f `div` 65536)) by bits.
  rewrite !Z.shiftl_mul_pow2 by lia. change (1 * 2 ^ 15) with 32768. change (0 * 2 ^ 12) with 0.
  change (SEL_KCSEG * 2 ^ 16) with 524288. change (2 ^ 13) with 8192. change (2 ^ 8) with 256.
  rewrite (u32_small (dpl * 8192)), (u32_small (type * 256)), gate_high by bits.
  rewrite (lor_add_high 16 (f `mod` 65536)) by bits. rewrite !u32_small by bits. rewrite (lor_add_high 32) by bits.
  replace (_ + _) with (gate f dpl type); [done|]. unfold gate. bits.
Qed.

Lemma decode_gate_gate f dpl type :
  0 < f < 2 ^ 32 → 0 ≤ dpl ≤ 3 → 0 ≤ type ≤ 15 →
  decode_gate (gate f dpl type) = GateView f SEL_KCSEG type 0 dpl 1.
Proof.
  intros Hf Hd Ht. unfold decode_gate, field, gate, SEL_KCSEG. f_equal; bits.
Qed.

(** A segment descriptor in numbers. *)
Definition seg_high (base limit class type dpl gran : Z) : Z :=
  (base `div` 65536) `mod` 256 + type * 256 + class * 4096 + dpl * 8192 + 32768 + 65536 * (limit `div` 65536) + 4194304
  + gran * 8388608 + 16777216 * (base `div` 16777216).
Definition seg_desc (base limit class type dpl gran : Z) : Z :=
  limit `mod` 65536 + (base `mod` 65536) * 65536 + 2 ^ 32 * seg_high base limit class type dpl gran.

Lemma seg_high_lor base limit class type dpl gran :
  0 ≤ base < 2 ^ 32 → 0 ≤ limit < 2 ^ 20 → 0 ≤ class ≤ 1 → 0 ≤ type ≤ 15 → 0 ≤ dpl ≤ 3 → 0 ≤ gran ≤ 1 →
  Z.lor (Z.lor (Z.lor (Z.lor (Z.lor (Z.lor (Z.lor (Z.lor ((base `div` 65536) `mod` 256) (type * 256)) (class * 4096)) (dpl * 8192))
    32768) (65536 * (limit `div` 65536))) 4194304) (gran * 8388608)) (16777216 * (base `div` 16777216))
  = seg_high base limit class type dpl gran.
Proof.
  intros Hb Hl Hc Ht Hd Hg. unfold seg_high.
  rewrite (lor_add_high 8 _ (type * 256)) by bits. rewrite (lor_add_high 12 _ (class * 4096)) by bits.
  rewrite (lor_add_high 13 _ (dpl * 8192)) by bits. rewrite (lor_add_high 15 _ 32768) by bits.
  rewrite (lor_add_high 16 _ (65536 * _)) by bits. rewrite (lor_add_high 22 _ 4194304) by bits.
  rewrite (lor_add_high 23 _ (gran * 8388608)) by bits. by rewrite (lor_add_high 24 _ (16777216 * _)) by bits.
Qed.

Lemma class_range c : 0 ≤ class_bit c ≤ 1.
Proof. destruct c; simpl; lia. Qed.
Lemma gran_range g : 0 ≤ gran_bit g ≤ 1.
Proof. destruct g; simpl; lia. Qed.

Lemma land_limit limit : 0 ≤ limit < 2 ^ 20 → Z.land limit 983040 = 65536 * (limit `div` 65536).
Proof.
  intros H. replace (Z.land limit 983040) with (Z.land limit 4294901760).
  - rewrite land_hi by bits. bits.
  - change 983040 with (Z.land 1048575 4294901760). rewrite Z.land_assoc. f_equal.
    symmetry. etrans; [exact (land_low limit 20 ltac:(lia))|]. apply Z.mod_small. lia.
Qed.

Lemma wp_make_seg_desc {S} base limit class type dpl gran (s : S) (Q : Z → S → Prop) :
  0 ≤ base < 2 ^ 32 → 0 ≤ limit < 2 ^ 20 → 0 ≤ type ≤ 15 → 0 ≤ dpl ≤ 3 →
  Q (seg_desc base limit (class_bit class) type dpl (gran_bit gran)) s → wp (make_seg_desc base limit class type dpl gran) s Q.
Proof.
  intros Hb Hl Ht Hd HQ. pose proof (class_range class). pose proof (gran_range gran).
  unfold make_seg_desc. wp_step. apply wp_assert; [apply Z.leb_le; bits|].
  do 2 (wp_step; apply wp_assert; [apply andb_true_iff; split; apply Z.leb_le; lia|]). apply wp_ret.
  rewrite land_16, land_limit by done. rewrite Z.shiftr_div_pow2, !Z.shiftl_mul_pow2 by lia.
  change (2 ^ 16) with 65536. replace (Z.land (base `div` 65536) 255) with ((base `div` 65536) `mod` 256)
    by (symmetry; exact (land_low (base `div` 65536) 8 ltac:(lia))).
  replace (Z.land base 4278190080) with (base - base `mod` 2 ^ 24) by (symmetry; exact (land_high base 24 ltac:(lia) Hb)).
  change (2 ^ 8) with 256. change (2 ^ 12) with 4096. change (2 ^ 13) with 8192. change (1 * 2 ^ 15) with 32768.
  change (1 * 2 ^ 22) with 4194304. change (2 ^ 23) with 8388608.
  replace (base - base `mod` 2 ^ 24) with (16777216 * (base `div` 16777216)) by bits.
  rewrite seg_high_lor by done. replace (u32 (base * 65536)) with (base `mod` 65536 * 65536) by (unfold u32; bits).
  rewrite (lor_add_high 16 (limit `mod` 65536)) by bits. unfold seg_desc in HQ.
  rewrite (u32_small (seg_high _ _ _ _ _ _)) by (unfold seg_high; bits). rewrite u32_small by bits.
  rewrite (lor_add_high 32) by bits. replace (2 ^ 32) with 4294967296 in * by done. by rewrite (Z.mul_comm (seg_high _ _ _ _ _ _)).
Qed.

Lemma decode_seg_desc base limit class type dpl gran :
  0 ≤ base < 2 ^ 32 → 0 ≤ limit < 2 ^ 20 → 0 ≤ class ≤ 1 → 0 ≤ type ≤ 15 → 0 ≤ dpl ≤ 3 → 0 ≤ gran ≤ 1 →
  decode_seg (seg_desc base limit class type dpl gran) = SegView base limit type class dpl 1 1 gran.
Proof.
  intros Hb Hl Hc Ht Hd Hg. unfold decode_seg, seg_desc, seg_high.
  assert (base = base `mod` 65536 + 65536 * ((base `div` 65536) `mod` 256) + 16777216 * (base `div` 16777216)) as Eb by bits.
  assert (limit = limit `mod` 65536 + 65536 * (limit `div` 65536)) as El by bits.
  assert (0 ≤ base `mod` 65536 < 65536 ∧ 0 ≤ (base `div` 65536) `mod` 256 < 256 ∧ 0 ≤ base `div` 16777216 < 256
    ∧ 0 ≤ limit `mod` 65536 < 65536 ∧ 0 ≤ limit `div` 65536 < 16) as Hr by bits.
  revert Eb El Hr. generalize (base `mod` 65536) as b0, ((base `div` 65536) `mod` 256) as b1, (base `div` 16777216) as b2,
    (limit `mod` 65536) as l0, (limit `div` 65536) as l1. intros l1 l0 b2 b1 b0 -> -> Hr. clear Hb Hl.
  unfold field. f_equal; bits.
Qed.

(** ** The interrupt descriptor table *)
Section tables.
Context (stubs : nat → Z).
Hypothesis stubs_ok : ∀ v, 0 < stubs v < 2 ^ 32.

(** The table holds a gate for every vector; [tbl] lists privilege level and type. *)
Record shows (s : intr) (tbl : list (Z * Z)) : Prop := Shows {
  sh_idt : length (idt s) = INTR_CNT;
  sh_handlers : length (intr_handlers s) = INTR_CNT;
  sh_tbl : length tbl = INTR_CNT;
  sh_gate : ∀ v d t, tbl !! v = Some (d, t) → 0 ≤ d ≤ 3 ∧ (t = 14 ∨ t = 15) ∧ idt s !! v = Some (gate (stubs v) d t) }.

Definition gate_type (level : intr_level) : Z := if decide (level = INTR_ON) then 15 else 14.

Lemma wp_outb p d s Q : (∀ x, Q tt (set_ports x s)) → wp (outb p d) s Q.
Proof. intros HQ. apply HQ. Qed.

Lemma wp_pic_init s Q : (∀ x, Q tt (set_ports x s)) → wp pic_init s Q.
Proof. intros HQ. unfold pic_init. do 11 (wp_step; apply wp_outb; intros ?). apply wp_outb. intros y. apply (HQ y). Qed.

Lemma wp_intr_init addr s Q :
  length (idt s) = INTR_CNT → length (intr_handlers s) = INTR_CNT →
  (∀ s', shows s' (replicate INTR_CNT (0, 14)) → intr_handlers s' = intr_handlers s → Q tt s') →
  wp (intr_init stubs addr) s Q.
Proof.
  intros Hi Hh HQ. unfold intr_init. wp_step. apply wp_pic_init. intros x. wp_step.
  apply (wp_for_upto (λ k s', length (idt s') = INTR_CNT ∧ intr_handlers s' = intr_handlers s
    ∧ ∀ v, (v < k)%nat → idt s' !! v = Some (gate (stubs v) 0 14))).
  - split_and!; [done..|lia].
  - intros k s' Hk (Hl & Hh' & Hg). wp_step. apply wp_make_gate; [apply stubs_ok|lia..|]. wp_steps. simpl.
    split_and!; [by rewrite length_insert|done|]. intros v Hv. destruct (decide (v = k)) as [->|Hne].
    + apply list_lookup_insert_eq. lia.
    + rewrite list_lookup_insert_ne by done. apply Hg. lia.
  - intros s' (Hl & Hh' & Hg). wp_steps. apply HQ; [|done]. split; cbn [idt intr_handlers set_idt set_idtr]; [done|by rewrite Hh'|done|].
    intros v d t [[= -> ->] Hv]%lookup_replicate. split_and!; [lia|lia|by left|]. by apply Hg.
Qed.

Lemma wp_register_handler v dpl level h name s tbl Q :
  shows s tbl → intr_handlers s !! v = Some None → 0 ≤ dpl ≤ 3 →
  (∀ s', shows s' (<[v := (dpl, gate_type level)]> tbl) → intr_handlers s' = <[v := Some h]> (intr_handlers s) → Q tt s') →
  wp (register_handler stubs v dpl level h name) s Q.
Proof.
  intros [Hi Hh Ht Hg] Hv Hd HQ. unfold register_handler. wp_steps. eapply wp_the; [done|]. wp_step. apply wp_assert; [done|].
  wp_step. apply wp_mono with (Q := λ g s', s' = s ∧ g = gate (stubs v) dpl (gate_type level)).
  { unfold gate_type. destruct (decide _); (apply wp_make_gate; [apply stubs_ok|lia..|done]). }
  intros g s' [-> ->]. wp_steps. pose proof (lookup_lt_Some _ _ _ Hv) as Hlt. rewrite Hh in Hlt.
  apply HQ; [|done]. split; simpl; rewrite ?length_insert; try done. intros w d t Hw. destruct (decide (v = w)) as [<-|Hne].
  - rewrite list_lookup_insert_eq in Hw by lia. injection Hw as <- <-. rewrite list_lookup_insert_eq by lia.
    split_and!; [lia|lia| |done]. unfold gate_type. destruct (decide _); auto.
  - rewrite list_lookup_insert_ne in Hw by done. rewrite list_lookup_insert_ne by done. by apply Hg.
Qed.

(** What a registration that returns says about its arguments. *)
Lemma register_handler_ok v dpl level h name s s' :
  register_handler stubs v dpl level h name s = Ok (tt, s') → intr_handlers s !! v = Some None ∧ 0 ≤ dpl ≤ 3.
Proof.
  intros E. apply ok_bind in E as (hs & s1 & [= <- <-] & E). apply ok_bind in E as (old & s2 & [Hv ->]%ok_the & E).
  apply ok_bind in E as (? & s3 & [Hold ->]%ok_assert & E). apply bool_decide_eq_true in Hold as ->. split; [done|].
  apply ok_bind in E as (g & s4 & E & _).
  assert (∀ ty s5, make_gate (stubs v) dpl ty s = Ok (g, s5) → 0 ≤ dpl ≤ 3) as Hgate.
  { intros ty s5 H. apply ok_bind in H as (? & ? & [_ ->]%ok_assert & H).
    apply ok_bind in H as (? & ? & [Hd ->]%ok_assert & _). apply andb_true_iff in Hd as [?%Z.leb_le ?%Z.leb_le]. lia. }
  destruct (decide _); by eapply Hgate.
Qed.
Lemma register_ext_ok v h name s s' :
  intr_register_ext stubs v h name s = Ok (tt, s') → (32 ≤ v ≤ 47)%nat ∧ register_handler stubs v 0 INTR_OFF h name s = Ok (tt, s').
Proof. unfold intr_register_ext. case_bool_decide; [|done]. intros H'. split; [lia|exact H']. Qed.
Lemma register_int_ok v dpl l h name s s' :
  intr_register_int stubs v dpl l h name s = Ok (tt, s') →
  ¬ (32 ≤ v ≤ 47)%nat ∧ register_handler stubs v dpl l h name s = Ok (tt, s').
Proof. unfold intr_register_int. case_bool_decide; [|done]. intros H'. split; [lia|exact H']. Qed.

(** Every way to set up the table. *)
Inductive configured : intr → Prop :=
  | conf_init addr s s' :
      length (idt s) = INTR_CNT → length (intr_handlers s) = INTR_CNT →
      intr_init stubs addr s = Ok (tt, s') → configured s'
  | conf_ext v h name s s' : configured s → intr_register_ext stubs v h name s = Ok (tt, s') → configured s'
  | conf_int v dpl l h name s s' : configured s → intr_register_int stubs v dpl l h name s = Ok (tt, s') → configured s'.

Lemma registered_shows v dpl l h name s s' tbl :
  shows s tbl → register_handler stubs v dpl l h name s = Ok (tt, s') → shows s' (<[v := (dpl, gate_type l)]> tbl).
Proof.
  intros Hs E. destruct (register_handler_ok _ _ _ _ _ _ _ E) as [Hv Hd].
  assert (wp (register_handler stubs v dpl l h name) s (λ _ s1, shows s1 (<[v := (dpl, gate_type l)]> tbl))) as H
    by (eapply wp_register_handler; eauto).
  unfold wp in H. by rewrite E in H.
Qed.

Lemma configured_shows s :
  configured s → ∃ tbl, shows s tbl ∧ ∀ v d t, tbl !! v = Some (d, t) → (32 ≤ v ≤ 47)%nat → d = 0 ∧ t = 14.
Proof.
  induction 1 as [addr s s' Hi Hh E|v h name s s' _ (tbl & Hs & Hext) [Hv E]%register_ext_ok
    |v dpl l h name s s' _ (tbl & Hs & Hext) [Hv E]%register_int_ok].
  - exists (replicate INTR_CNT (0, 14)). split; [|by intros v d t [[= -> ->] _]%lookup_replicate].
    assert (wp (intr_init stubs addr) s (λ _ s1, shows s1 (replicate INTR_CNT (0, 14)))) as H by (apply wp_intr_init; auto).
    unfold wp in H. by rewrite E in H.
  - exists (<[v := (0, gate_type INTR_OFF)]> tbl). split; [by eapply registered_shows|]. intros w d t Hw Hr.
    apply list_lookup_insert_Some in Hw as [(<- & [= <- <-] & _)|[_ Hw]]; [done|]. by eapply Hext.
  - exists (<[v := (dpl, gate_type l)]> tbl). split; [by eapply registered_shows|]. intros w d t Hw Hr.
    apply list_lookup_insert_Some in Hw as [(<- & _ & _)|[_ Hw]]; [done|]. by eapply Hext.
Qed.

(** ** Booting *)

(** [regs] are the vectors that have a handler. *)
Definition st (s : intr) (tbl : list (Z * Z)) (regs : list nat) : Prop :=
  shows s tbl ∧ ∀ v, (v < INTR_CNT)%nat → v ∉ regs → intr_handlers s !! v = Some None.
Definition unused (v : nat) (regs : list nat) : bool := bool_decide (v < INTR_CNT)%nat && bool_decide (v ∉ regs).

Lemma st_same s s' tbl regs : st s tbl regs → idt s' = idt s → intr_handlers s' = intr_handlers s → st s' tbl regs.
Proof. intros [[? ? ? ?] ?] Ei Eh. split; [split|]; by rewrite ?Ei, ?Eh. Qed.

Lemma wp_register v dpl l h name s tbl regs Q :
  st s tbl regs → unused v regs = true → 0 ≤ dpl ≤ 3 →
  (∀ s', st s' (<[v := (dpl, gate_type l)]> tbl) (v :: regs) → Q tt s') → wp (register_handler stubs v dpl l h name) s Q.
Proof.
  intros [Hs Hh] [Hv%bool_decide_eq_true Hn%bool_decide_eq_true]%andb_true_iff Hd HQ.
  eapply wp_register_handler; [done|by apply Hh|done|]. intros s' Hs' Hh'. apply HQ. split; [done|].
  intros w Hw Hin. rewrite Hh', list_lookup_insert_ne by set_solver. apply Hh; set_solver.
Qed.
Lemma wp_register_int v dpl l h name s tbl regs Q :
  st s tbl regs → bool_decide (v < 32 ∨ 47 < v)%nat && unused v regs = true → 0 ≤ dpl ≤ 3 →
  (∀ s', st s' (<[v := (dpl, gate_type l)]> tbl) (v :: regs) → Q tt s') → wp (intr_register_int stubs v dpl l h name) s Q.
Proof.
  intros Hs [Hv Hn]%andb_true_iff Hd HQ. unfold intr_register_int. wp_step. apply wp_assert; [done|]. by eapply wp_register.
Qed.
Lemma wp_register_ext v h name s tbl regs Q :
  st s tbl regs → bool_decide (32 ≤ v ∧ v ≤ 47)%nat && unused v regs = true →
  (∀ s', st s' (<[v := (0, 14)]> tbl) (v :: regs) → Q tt s') → wp (intr_register_ext stubs v h name) s Q.
Proof.
  intros Hs [Hv Hn]%andb_true_iff HQ. unfold intr_register_ext. wp_step. apply wp_assert; [done|]. eapply wp_register; [done..|lia|done].
Qed.

Lemma wp_timer_init s tbl regs Q :
  st s tbl regs → unused 32 regs = true →
  (∀ s', st s' (<[32%nat := (0, 14)]> tbl) (32%nat :: regs) → Q tt s') → wp (timer_init stubs) s Q.
Proof.
  intros Hs Hn HQ. unfold timer_init, pit_configure_channel. wp_steps. do 2 (apply wp_assert; [done|]; wp_steps).
  apply wp_outb. intros ?. do 2 (wp_steps; apply wp_outb; intros ?). wp_steps.
  eapply wp_register_ext; [by eapply st_same|by rewrite Hn|done].
Qed.

(** Run the next registration. *)
Ltac register Hs :=
  first [eapply wp_register_int; [exact Hs|vm_compute; reflexivity|lia|]
        |eapply wp_register_ext; [exact Hs|vm_compute; reflexivity|]];
  clear Hs; intros ? Hs.

(** Privilege and type of every gate, in the order of registration. *)
Definition trap (dpl : Z) : Z * Z := (dpl, gate_type INTR_ON).
Definition boot_table : list (Z * Z) :=
  fold_left (λ l r, <[r.1 := r.2]> l)
    ([(32%nat, (0, 14)); (33%nat, (0, 14)); (3%nat, trap 3); (4%nat, trap 3); (5%nat, trap 3); (0%nat, trap 0); (1%nat, trap 0);
      (6%nat, trap 0); (7%nat, trap 0); (11%nat, trap 0); (12%nat, trap 0); (13%nat, trap 0); (16%nat, trap 0); (19%nat, trap 0);
      (14%nat, (0, gate_type INTR_OFF)); (48%nat, trap 3); (36%nat, (0, 14)); (46%nat, (0, 14)); (47%nat, (0, 14))])
    (replicate INTR_CNT (0, 14)).

Lemma wp_boot_interrupts addr s Q :
  length (idt s) = INTR_CNT → intr_handlers s = replicate INTR_CNT None →
  (∀ s', shows s' boot_table → Q tt s') → wp (boot_interrupts stubs addr) s Q.
Proof.
  intros Hi Hh HQ. unfold boot_interrupts. wp_step. apply wp_intr_init; [done|by rewrite Hh|]. intros s1 Hs1 Hh1. rewrite Hh in Hh1.
  wp_step. eapply (wp_timer_init _ _ []); [split; [exact Hs1|]|done|].
  { intros v Hv _. rewrite Hh1. by apply lookup_replicate_2. }
  intros s2 Hs. unfold kbd_init, exception_init, syscall_init, serial_register, ide_register.
  wp_step. register Hs. wp_step. do 12 (wp_step; register Hs). register Hs.
  do 3 (wp_step; register Hs). register Hs. apply HQ. exact (proj1 Hs).
Qed.
End tables.

(** ** Results *)

(** The processor reads back from a segment descriptor exactly the base, limit,
    type, class, privilege level and granularity that make_seg_desc was given, and
    from a gate exactly the entry point, type and privilege level that make_gate was
    given, with the kernel's code segment; both mark the descriptor as present. *)
Theorem descriptor_roundtrip {S} (s : S) base limit class type dpl gran f :
  0 ≤ base < 2 ^ 32 → 0 ≤ limit < 2 ^ 20 → 0 ≤ type ≤ 15 → 0 ≤ dpl ≤ 3 → 0 < f < 2 ^ 32 →
  (∃ d, make_seg_desc base limit class type dpl gran s = Ok (d, s)
     ∧ decode_seg d = SegView base limit type (class_bit class) dpl 1 1 (gran_bit gran))
  ∧ ∃ d, make_gate f dpl type s = Ok (d, s) ∧ decode_gate d = GateView f SEL_KCSEG type 0 dpl 1.
Proof.
  intros Hb Hl Ht Hd Hf. split.
  - exists (seg_desc base limit (class_bit class) type dpl (gran_bit gran)). split.
    + apply wp_det_ok. by apply wp_make_seg_desc.
    + apply decode_seg_desc; try done; [apply class_range|apply gran_range].
  - exists (gate f dpl type). split; [apply wp_det_ok; by apply wp_make_gate|by apply decode_gate_gate].
Qed.
Lemma descriptor_roundtrip_witness :
  (∃ d, make_seg_desc 3222274048 103 CLS_SYSTEM 9 0 GRAN_BYTE tt = Ok (d, tt)
     ∧ decode_seg d = SegView 3222274048 103 9 0 0 1 1 0)
  ∧ ∃ d, make_gate 3221356544 0 9 tt = Ok (d, tt) ∧ decode_gate d = GateView 3221356544 SEL_KCSEG 9 0 0 1.
Proof. apply (descriptor_roundtrip tt 3222274048 103 CLS_SYSTEM 9 0 GRAN_BYTE 3221356544); lia. Defined.

(** C31: however handlers are registered, the interrupt descriptor table stays well
    typed: each of its 256 entries is a present interrupt or trap gate to the stub of
    its own vector in the kernel's code segment, and the vectors of external
    interrupts have interrupt gates that user code cannot call, so that their
    handlers start with interrupts off. *)
Theorem idt_well_typed stubs s v :
  (∀ v, 0 < stubs v < 2 ^ 32) → configured stubs s → (v < INTR_CNT)%nat →
  ∃ d g, idt s !! v = Some d ∧ decode_gate d = g ∧ g_offset g = stubs v ∧ g_selector g = SEL_KCSEG ∧ g_system g = 0 ∧ g_present g = 1
    ∧ 0 ≤ g_dpl g ≤ 3 ∧ (g_type g = 14 ∨ g_type g = 15) ∧ ((32 ≤ v ≤ 47)%nat → g_dpl g = 0 ∧ g_type g = 14).
Proof.
  intros Hstubs Hs Hv. destruct (configured_shows stubs Hstubs s Hs) as (tbl & [_ _ Ht Hg] & Hext).
  destruct (lookup_lt_is_Some_2 tbl v) as [[d t] Hvt]; [by rewrite Ht|]. destruct (Hg v d t Hvt) as (Hd & Hty & E).
  exists (gate (stubs v) d t), (GateView (stubs v) SEL_KCSEG t 0 d 1).
  rewrite decode_gate_gate by (try apply Hstubs; lia). cbn. split_and!; try done; try lia; by eapply Hext.
Qed.

(** C20: after the kernel has registered its handlers, which it does without a clash,
    user code can call the gates 3, 4, 5 and 0x30 and no others. The gates that leave
    interrupts on are exactly 0x30 and those of the twelve exceptions that end the
    process: 0, 1, 3 to 7, 11 to 13, 16 and 19. All other vectors are entered with
    interrupts off: page faults (14), external interrupts, and the exceptions and
    software interrupts for which no handler is registered, such as 2, 8, 10, 17 and
    18. *)
Theorem user_vectors stubs addr s :
  (∀ v, 0 < stubs v < 2 ^ 32) → length (idt s) = INTR_CNT → intr_handlers s = replicate INTR_CNT None →
  ∃ s', boot_interrupts stubs addr s = Ok (tt, s') ∧
    ∀ v, (v < INTR_CNT)%nat → ∃ d, idt s' !! v = Some d ∧ g_offset (decode_gate d) = stubs v
      ∧ (g_dpl (decode_gate d) = 3 ↔ v ∈ [3; 4; 5; 48]%nat) ∧ (g_dpl (decode_gate d) ≠ 3 → g_dpl (decode_gate d) = 0)
      ∧ (g_type (decode_gate d) = 15 ↔ v ∈ [0; 1; 3; 4; 5; 6; 7; 11; 12; 13; 16; 19; 48]%nat)
      ∧ (g_type (decode_gate d) ≠ 15 → g_type (decode_gate d) = 14).
Proof.
  intros Hstubs Hi Hh.
  assert (wp (boot_interrupts stubs addr) s (λ _ s', shows stubs s' boot_table)) as ([] & s' & E & Hs')%wp_ok
    by (apply wp_boot_interrupts; auto).
  exists s'. split; [done|]. intros v Hv.
  assert (forallb (λ v, match boot_table !! v with
    | Some (d, t) => bool_decide ((d = 3 ↔ v ∈ [3; 4; 5; 48]%nat) ∧ (d ≠ 3 → d = 0)
        ∧ (t = 15 ↔ v ∈ [0; 1; 3; 4; 5; 6; 7; 11; 12; 13; 16; 19; 48]%nat) ∧ (t ≠ 15 → t = 14))
    | None => false end) (seq 0 INTR_CNT) = true) as Hall by (vm_compute; reflexivity).
  rewrite forallb_forall in Hall. specialize (Hall v ltac:(apply in_seq; unfold INTR_CNT in *; lia)).
  destruct (boot_table !! v) as [[d t]|] eqn:Et; [|done]. apply bool_decide_eq_true in Hall.
  destruct (sh_gate stubs s' _ Hs' v d t Et) as (Hd & Hty & Eg). exists (gate (stubs v) d t).
  rewrite decode_gate_gate by (try apply Hstubs; lia). split; [exact Eg|]. split; [done|exact Hall].
Qed.

(** ** Examples *)

Definition ex_stubs (v : nat) : Z := 3221356544 + 16 * (Z.of_nat v `mod` 256).
Lemma ex_stubs_ok v : 0 < ex_stubs v < 2 ^ 32.
Proof. unfold ex_stubs. pose proof (Z.mod_pos_bound (Z.of_nat v) 256 ltac:(lia)). lia. Qed.
(** The machine before [intr_init]. *)
Definition cold : intr :=
  Intr (replicate INTR_CNT 0) 0 (replicate INTR_CNT None) (replicate INTR_CNT EmptyString) (replicate INTR_CNT 0) false false INTR_OFF [] []
    None (replicate SEL_CNT 0) 0 0.
Definition after_init : intr :=
  match intr_init ex_stubs 3221372928 cold with Ok (_, s) => s | Err _ => cold end.
Lemma ex_configured : configured ex_stubs after_init.
Proof. apply (conf_init ex_stubs 3221372928 cold); vm_compute; reflexivity. Qed.

Lemma idt_well_typed_witness :
  ∃ d g, idt after_init !! 32%nat = Some d ∧ decode_gate d = g ∧ g_offset g = ex_stubs 32 ∧ g_selector g = SEL_KCSEG ∧ g_system g = 0
    ∧ g_present g = 1 ∧ 0 ≤ g_dpl g ≤ 3 ∧ (g_type g = 14 ∨ g_type g = 15) ∧ ((32 ≤ 32 ≤ 47)%nat → g_dpl g = 0 ∧ g_type g = 14).
Proof. apply (idt_well_typed ex_stubs after_init 32 ex_stubs_ok ex_configured). vm_compute. lia. Defined.
Lemma user_vectors_witness :
  ∃ s' d, boot_interrupts ex_stubs 3221372928 cold = Ok (tt, s') ∧ idt s' !! 48%nat = Some d ∧
    g_dpl (decode_gate d) = 3 ∧ g_type (decode_gate d) = 15.
Proof.
  destruct (user_vectors ex_stubs 3221372928 cold ex_stubs_ok) as (s' & E & Hv); [reflexivity..|].
  destruct (Hv 48%nat) as (d & Hd & _ & Hdpl & _ & Hty & _); [vm_compute; lia|].
  exists s', d. split; [exact E|]. split; [exact Hd|]. split.
  - apply Hdpl. right. right. right. left.
  - apply Hty. do 12 right. left.
Defined.

(** ** The segments *)

(** [gdt_init]: the kernel's segments are closed to user code, the user's open, and
    the task register points at the TSS. *)
Lemma gdt_init_segments s t addr :
  the_tss s = Some t → 0 ≤ tss_addr t < 2 ^ 32 → length (gdt s) = SEL_CNT →
  ∃ s', gdt_init addr s = Ok (tt, s') ∧ decode_seg <$> gdt s' =
    [decode_seg 0; SegView 0 1048575 10 1 0 1 1 1; SegView 0 1048575 2 1 0 1 1 1; SegView 0 1048575 10 1 3 1 1 1;
     SegView 0 1048575 2 1 3 1 1 1; SegView (tss_addr t) 103 9 0 0 1 1 0].
Proof.
  intros Ht Ha Hl.
  assert (wp (gdt_init addr) s (λ _ s', gdt s' = [0; seg_desc 0 1048575 1 10 0 1; seg_desc 0 1048575 1 2 0 1; seg_desc 0 1048575 1 10 3 1;
     seg_desc 0 1048575 1 2 3 1; seg_desc (tss_addr t) 103 0 9 0 0])) as ([] & s' & E & Eg)%wp_ok.
  { unfold gdt_init, make_code_desc, make_data_desc, make_tss_desc, tss_get.
    do 4 (wp_step; apply wp_make_seg_desc; [lia..|]). wp_steps. rewrite Ht. apply wp_assert; [done|]. wp_steps. eapply wp_the; [done|].
    wp_step. apply wp_make_seg_desc; [lia..|]. wp_steps. simpl. unfold SEL_CNT in Hl.
    destruct (gdt s) as [|x0 [|x1 [|x2 [|x3 [|x4 [|x5 [|]]]]]]]; try done. }
  exists s'. split; [done|]. rewrite Eg. cbn [fmap list_fmap]. by rewrite !decode_seg_desc by lia.
Qed.

(** ** The timer chip *)

(** For every frequency the chip can reach, the count that pit_configure_channel
    loads fits the counter and is the integer nearest to the ratio of the frequencies. *)
Theorem pit_count_nearest f :
  19 ≤ f ≤ PIT_HZ → 1 ≤ pit_count f < 65536 ∧ 2 * Z.abs (pit_count f * f - PIT_HZ) ≤ f.
Proof.
  intros Hf. unfold pit_count, PIT_HZ in *. rewrite (proj2 (Z.ltb_ge f 19)), (proj2 (Z.ltb_ge 1193180 f)) by lia.
  rewrite (Z.quot_div_nonneg f 2) by lia. rewrite Z.quot_div_nonneg by (pose proof (Z.div_pos f 2); lia).
  pose proof (Z.div_mod f 2 ltac:(lia)) as E2. pose proof (Z.mod_pos_bound f 2 ltac:(lia)).
  set (q := (1193180 + f `div` 2) `div` f). assert (q * f ≤ 1193180 + f `div` 2 < q * f + f) as Hq.
  { pose proof (Z.div_mod (1193180 + f `div` 2) f ltac:(lia)). pose proof (Z.mod_pos_bound (1193180 + f `div` 2) f ltac:(lia)). lia. }
  assert (1 ≤ q < 65536) as Hr by nia. rewrite Z.mod_small by lia. split; [done|]. lia.
Qed.
Lemma pit_count_nearest_witness : 1 ≤ pit_count TIMER_FREQ < 65536 ∧ 2 * Z.abs (pit_count TIMER_FREQ * TIMER_FREQ - PIT_HZ) ≤ TIMER_FREQ.
Proof. apply (pit_count_nearest TIMER_FREQ). unfold TIMER_FREQ, PIT_HZ. lia. Defined.

(** The count 1, which the comment calls illegal in mode 2, is not avoided. *)
Lemma pit_count_illegal : pit_count PIT_HZ = 1 ∧ pit_count 795454 = 1.
Proof. vm_compute. done. Qed.

(** ** Handling an interrupt *)

(** A spurious interrupt is acknowledged at the controllers that saw it and changes
    nothing else. *)
Lemma spurious_interrupt call yield v s :
  (v = 39 ∨ v = 47) → intr_handlers s !! Z.to_nat v = Some None → intr_flag s = INTR_OFF → in_external_intr s = false →
  intr_handler call yield v s =
    Ok (tt, set_ports (ports s ++ (32, 32) :: if decide (v = 47) then [(160, 32)] else []) (set_context false false s)).
Proof.
  intros Hv Hh Hf Hc. apply wp_det_ok. unfold intr_handler.
  replace ((32 <=? v) && (v <? 48)) with true by (by destruct Hv as [-> | ->]). cbv zeta iota. wp_steps.
  apply wp_assert; [by rewrite Hf|]. wp_steps. apply wp_assert; [by rewrite Hc|]. wp_steps. eapply wp_the; [exact Hh|].
  replace ((v =? 39) || (v =? 47)) with true by (by destruct Hv as [-> | ->]). wp_steps.
  apply wp_assert; [simpl; by rewrite Hf|]. wp_steps. apply wp_assert; [done|]. wp_steps. unfold pic_end_of_interrupt, outb. wp_steps.
  destruct Hv as [-> | ->]; (apply wp_assert; [done|]); wp_steps; cbn; rewrite <-?app_assoc; by destruct s.
Qed.

(** ** Delays *)

(** [loops_per_tick] has the highest bit [k] and, below it, those of the next bits
    from [j] on that are short enough when they are tried with the highest one alone. *)
Definition calibrated (T k j l : Z) : Prop :=
  ∀ i, 0 ≤ i → Z.testbit l i = (i =? k) || ((j <=? i) && (i <? k) && (2 ^ k + 2 ^ i <=? T)).

Lemma lor_two j k : 0 ≤ j < k → Z.lor (2 ^ k) (2 ^ j) = 2 ^ k + 2 ^ j.
Proof.
  intros Hj. symmetry. apply Z.add_nocarry_lor. apply Z.bits_inj'. intros i Hi.
  rewrite Z.land_spec, Z.bits_0, !Z.pow2_bits_eqb by lia. destruct (Z.eqb_spec k i), (Z.eqb_spec j i); lia || done.
Qed.

Lemma calibrated_bit T k j l :
  0 ≤ j < k → calibrated T k (j + 1) l → calibrated T k j (if T <? 2 ^ k + 2 ^ j then l else Z.lor l (2 ^ j)).
Proof.
  intros Hj Hl i Hi. destruct (Z.ltb_spec T (2 ^ k + 2 ^ j)) as [Hlt|Hge].
  - rewrite Hl by done. destruct (Z.eqb_spec i k) as [|]; [done|]. cbn [orb].
    destruct (Z.leb_spec (j + 1) i), (Z.leb_spec j i); cbn [andb]; try lia; try done.
    assert (i = j) as -> by lia. symmetry. rewrite (proj2 (Z.leb_gt _ _)) by lia. apply andb_false_r.
  - rewrite Z.lor_spec, Hl, Z.pow2_bits_eqb by lia. destruct (Z.eqb_spec j i) as [<-|Hne].
    + rewrite orb_true_r. symmetry. rewrite (proj2 (Z.leb_le j j)), (proj2 (Z.ltb_lt j k)), (proj2 (Z.leb_le _ T)) by lia. apply orb_true_r.
    + rewrite orb_false_r. destruct (Z.leb_spec (j + 1) i), (Z.leb_spec j i); try lia; done.
Qed.

(** Calibration ends for every processor whose tick lasts from 2^10 to 2^31 turns
    of the loop: the result has the highest bit of that number, and each of the
    nine bits below it exactly if the loop is short enough with the highest bit and
    this one. *)
Theorem timer_calibrate_correct T l0 :
  1024 ≤ T < 2 ^ 31 →
  ∃ l, timer_calibrate (λ loops, T <? loops) true l0 = Ok (tt, l) ∧ calibrated T (Z.log2 T) (Z.log2 T - 9) l.
Proof.
  intros HT. set (k := Z.log2 T). destruct (Z.log2_spec T ltac:(lia)) as [Hlo Hhi]. fold k in Hlo, Hhi.
  assert (10 ≤ k < 31) as Hk.
  { split; [by apply (Z.log2_le_pow2 T 10); lia|apply Z.log2_lt_pow2; lia]. }
  assert (wp (timer_calibrate (λ loops, T <? loops) true) l0 (λ _ l, calibrated T k (k - 9) l)) as ([] & l & E & H)%wp_ok; [|by exists l].
  unfold timer_calibrate. wp_step. apply wp_assert; [done|]. wp_step. wp_step. wp_step.
  apply (wp_loop (λ i (_ : unit) l, l = 2 ^ i ∧ 10 ≤ i ≤ k) (λ i, Z.to_nat (k - i))) with (g := 10); [|by split; [|lia]|lia].
  - intros i [] l [-> Hi]. wp_steps. unfold id. rewrite Z.shiftl_mul_pow2, <-Z.pow_add_r by lia.
    assert (2 ^ (i + 1) ≤ 2 ^ 31) by (apply Z.pow_le_mono_r; lia). assert (0 < 2 ^ (i + 1)) by (apply Z.pow_pos_nonneg; lia).
    rewrite u32_small by lia. destruct (Z.ltb_spec T (2 ^ (i + 1))) as [Hlt|Hge].
    + assert (k < i + 1) by (apply (Z.pow_lt_mono_r_iff 2); lia). assert (i = k) as -> by lia. wp_steps. unfold id.
      rewrite !Z.shiftr_div_pow2, <-(Z.pow_sub_r 2 k 10), <-(Z.pow_sub_r 2 k 1) by lia.
      apply (wp_loop (λ j b l, b = 2 ^ j ∧ k - 10 ≤ j < k ∧ calibrated T k (j + 1) l) (λ j, Z.to_nat (j - (k - 10)))) with (g := k - 1).
      * intros j b l (-> & Hj & Hl). destruct (decide (j = k - 10)) as [->|Hne].
        { rewrite Z.eqb_refl. wp_step. by replace (k - 9) with (k - 10 + 1) by lia. }
        rewrite (proj2 (Z.eqb_neq _ _)) by (intros Ej%Z.pow_inj_r; lia). rewrite lor_two by lia.
        pose proof (calibrated_bit T k j l ltac:(lia) Hl) as Hb.
        rewrite Z.shiftr_div_pow2, <-(Z.pow_sub_r 2 j 1) by lia.
        destruct (T <? 2 ^ k + 2 ^ j); wp_steps; (exists (j - 1); split_and!; [done|lia|lia| |lia]; by replace (j - 1 + 1) with j by lia).
      * split_and!; [done|lia|lia|]. intros i Hi'. rewrite Z.pow2_bits_eqb by lia. rewrite (Z.eqb_sym k i).
        destruct (Z.leb_spec (k - 1 + 1) i), (Z.ltb_spec i k); cbn [andb]; try lia; by rewrite orb_false_r.
      * lia.
    + wp_steps. unfold id. rewrite Z.shiftl_mul_pow2, <-Z.pow_add_r, u32_small by lia. apply wp_assert; [apply negb_true_iff, Z.eqb_neq; lia|].
      wp_step. exists (i + 1). assert (i + 1 ≤ k) by (apply Z.lt_succ_r, (Z.pow_lt_mono_r_iff 2); lia). split_and!; [done|lia|lia|lia].
Qed.
Lemma timer_calibrate_correct_witness : ∃ l, timer_calibrate (λ loops, 1536 <? loops) true 0 = Ok (tt, l) ∧ Z.testbit l 9 = true.
Proof.
  destruct (timer_calibrate_correct 1536 0 ltac:(lia)) as (l & E & H). exists l. split; [exact E|]. exact (H 9 ltac:(lia)).
Defined.

(** Bits are not tried together: with a tick of 1536 turns the result is 2046. *)
Example calibration_overshoots : timer_calibrate (λ loops, 1536 <? loops) true 0 = Ok (tt, 2046).
Proof. vm_compute. reflexivity. Qed.

(** A delay of [num] / [denom] seconds is, when it is a tick or longer, a sleep of
    the whole ticks in it, and otherwise a loop of at most as many turns as last that
    long, and of less than 100000 / [denom] + 1 turns less. *)
Theorem real_time_sleep_correct lpt num denom :
  0 ≤ num → num * TIMER_FREQ < 2 ^ 63 → 0 ≤ lpt < 2 ^ 32 → denom ∈ [1000; 1000000; 1000000000] →
  (denom ≤ num * 100 ∧ real_time_sleep true lpt num denom = Ok (Sleep ((num * 100) `div` denom))) ∨
  (num * 100 < denom ∧ ∃ n, real_time_sleep true lpt num denom = Ok (Busy n) ∧
     0 ≤ n ∧ n * denom ≤ lpt * num * 100 < (n + 1) * denom + 100000).
Proof.
  intros Hn Hov Hl Hd. unfold TIMER_FREQ in *.
  assert (∃ d, denom = 1000 * d ∧ 0 < d ≤ 1000000) as (d & -> & Hd').
  { repeat (apply elem_of_cons in Hd as [-> |Hd]; [by (exists 1 + exists 1000 + exists 1000000)|]). by apply elem_of_nil in Hd. }
  clear Hd. unfold real_time_sleep, real_time_delay, TIMER_FREQ.
  rewrite (s64_small (num * 100)), (Z.quot_div_nonneg (num * 100)) by lia. cbn [negb].
  destruct (Z.lt_ge_cases (num * 100) (1000 * d)) as [Hlt|Hge]; [right|left].
  2:{ assert (0 < (num * 100) `div` (1000 * d)) by (apply Z.div_str_pos; lia). rewrite (proj2 (Z.ltb_lt _ _)) by done. by split. }
  rewrite (Z.div_small (num * 100)) by lia. cbn [Z.ltb Z.compare]. split; [done|].
  assert (Z.rem (1000 * d) 1000 = 0) as -> by (rewrite Z.mul_comm; apply Z.rem_mul; lia).
  assert (Z.quot (1000 * d) 1000 = d) as -> by (rewrite Z.mul_comm; apply Z.quot_mul; lia). cbn [negb Z.eqb].
  assert (0 ≤ lpt * num < 2 ^ 32 * 10000000) as Hp by nia.
  rewrite (s64_small (lpt * num)), (Z.quot_div_nonneg (lpt * num)) by lia.
  pose proof (Z.div_mod (lpt * num) 1000 ltac:(lia)) as E1. pose proof (Z.mod_pos_bound (lpt * num) 1000 ltac:(lia)) as H1.
  set (q := (lpt * num) `div` 1000) in *. assert (0 ≤ q) by (apply Z.div_pos; lia).
  rewrite s64_small, Z.quot_div_nonneg by lia.
  pose proof (Z.div_mod (q * 100) d ltac:(lia)) as E2. pose proof (Z.mod_pos_bound (q * 100) d ltac:(lia)) as H2.
  exists ((q * 100) `div` d). split; [done|]. set (n := (q * 100) `div` d) in *. assert (0 ≤ n) by (apply Z.div_pos; lia). nia.
Qed.
Lemma real_time_sleep_correct_witness :
  timer_msleep true 20000 25 = Ok (Sleep 2) ∧ ∃ n, timer_usleep true 20000 30 = Ok (Busy n) ∧ 0 ≤ n.
Proof.
  split.
  - destruct (real_time_sleep_correct 20000 25 1000) as [[_ H]|[H _]]; [lia|unfold TIMER_FREQ; lia|lia|by left|exact H|discriminate H].
  - destruct (real_time_sleep_correct 20000 30 1000000) as [[H _]|(_ & n & E & Hn & _)];
      [lia|unfold TIMER_FREQ; lia|lia|by right; left|exfalso; apply H; reflexivity|exists n; split; [exact E|exact Hn]].
Defined.
