(* ===== verification/Shell.v ===== *)
(** * The shell of project0: jobs, command lines and signals

    src/project0/jobs.c, util.c and msh.c.  The table of jobs is the list [jobs] of
    [MAXJOBS] entries and a pointer to an entry is its index.  The host is seen
    through [procs], the children that have not been waited for (with the process
    group that each has set), and [reports], what [waitpid] has to tell about them.

    Signals are handled between the steps of the shell: [place] is where it stands
    when SIGCHLD is not blocked.  A handler runs as one step, and so does a search in
    the table of jobs (entries only disappear while it goes on, so what it finds is
    what it would find at one moment); writing to the standard output succeeds.  What the child does after [fork] is left to the host,
    but for [setpgid], which is a step of its own. *)
From stdpp Require Import strings pretty.
From S2P Require Import Prelude CStdio.
Local Open Scope Z_scope.

Definition MAXLINE : nat := 1024.
Definition MAXARGS : nat := 128.
Definition MAXJOBS : nat := 16.

Definition UNDEF : Z := 0.
Definition FG : Z := 1.
Definition BG : Z := 2.
Definition ST : Z := 3.

Record job_t := Job { pid : Z; jid : Z; state : Z; cmdline : list Z }.

(** What [waitpid] reports: the status of WIFEXITED, WIFSIGNALED, WIFSTOPPED. *)
Inductive wstatus := Exited (code : Z) | Signaled (sig : Z) | Stopped (sig : Z).

(** At the prompt; in [do_bgfg] between the test that there is a job with the number
    and the second search for it, with the pointer that this has given, before signals
    are blocked, and after they are unblocked again; in [waitfg]; gone. *)
Inductive place :=
  | Prompt
  | Checked (by_jid : bool) (number : Z) (argv0 : list Z)
  | Found (job : option nat) (argv0 : list Z)
  | Continued (job : nat) (fg : bool)
  | Waiting (p : Z)
  | Gone (status : Z).
#[export] Instance place_eq_dec : EqDecision place.
Proof. solve_decision. Defined.

Record shell := Shell {
  jobs : list job_t; nextjid : Z; verbose : bool;
  array : list Z; (** the static buffer of [parseline] *)
  stdout : list Z;
  procs : gmap Z bool; reports : list (Z * wstatus);
  pc : place }.

Definition set_jobs (l : list job_t) (n : Z) (s : shell) : shell :=
  Shell l n (verbose s) (array s) (stdout s) (procs s) (reports s) (pc s).
Definition set_array (a : list Z) (s : shell) : shell :=
  Shell (jobs s) (nextjid s) (verbose s) a (stdout s) (procs s) (reports s) (pc s).
Definition set_stdout (o : list Z) (s : shell) : shell :=
  Shell (jobs s) (nextjid s) (verbose s) (array s) o (procs s) (reports s) (pc s).
Definition set_host (p : gmap Z bool) (r : list (Z * wstatus)) (s : shell) : shell :=
  Shell (jobs s) (nextjid s) (verbose s) (array s) (stdout s) p r (pc s).
Definition set_pc (p : place) (s : shell) : shell :=
  Shell (jobs s) (nextjid s) (verbose s) (array s) (stdout s) (procs s) (reports s) p.

Definition print (cs : list Z) : M shell unit := modify (λ s, set_stdout (stdout s ++ cs) s).
Definition goto (p : place) : M shell unit := modify (set_pc p).
(** [%d] *)
Definition dec (n : Z) : list Z := chars (pretty n).

(** ** jobs.c *)

Definition clearjob (job : job_t) : job_t := Job 0 0 UNDEF [].
Definition initjobs (l : list job_t) : list job_t := clearjob <$> l.

Definition maxjid (l : list job_t) : Z :=
  fold_left (λ max job, if max <? jid job then jid job else max) l 0.

(** The loops over the table: the first entry with a property. *)
Definition first (P : job_t → bool) (l : list job_t) : option nat :=
  fst <$> list_find (λ job, P job = true) l.

Definition get_job (i : nat) : M shell job_t := l ← gets jobs; the (l !! i).
Definition put_job (i : nat) (job : job_t) : M shell unit :=
  modify (λ s, set_jobs (<[i := job]> (jobs s)) (nextjid s) s).

Definition addjob (p st : Z) (cmd : list Z) : M shell bool :=
  if p <? 1 then mret false
  else
    l ← gets jobs;
    match first (λ job, pid job =? 0) l with
    | Some i =>
        n ← gets nextjid;
        (* strcpy into cmdline[MAXLINE] *)
        (if decide (length cmd < MAXLINE)%nat then mret tt else throw EFault) ;;
        let n' := s32 (n + 1) in
        modify (set_jobs (<[i := Job p n st cmd]> l) (if Z.of_nat MAXJOBS <? n' then 1 else n')) ;;
        v ← gets verbose;
        (if (v : bool) then print (chars "Added job [" ++ dec n ++ chars "] " ++ dec p ++ chars " " ++ cmd ++ [10])
         else mret tt) ;;
        mret true
    | None =>
        print (chars "Tried to create too many jobs" ++ [10]) ;; mret false
    end.

Definition deletejob (p : Z) : M shell bool :=
  if p <? 1 then mret false
  else
    l ← gets jobs;
    match first (λ job, pid job =? p) l with
    | Some i =>
        job ← get_job i;
        let l' := <[i := clearjob job]> l in
        modify (set_jobs l' (s32 (maxjid l' + 1))) ;; mret true
    | None => mret false
    end.

Definition fgpid (l : list job_t) : Z :=
  match first (λ job, state job =? FG) l with
  | Some i => match l !! i with Some job => pid job | None => 0 end
  | None => 0
  end.

Definition getjobpid (l : list job_t) (p : Z) : option nat :=
  if p <? 1 then None else first (λ job, pid job =? p) l.
Definition getjobjid (l : list job_t) (n : Z) : option nat :=
  if n <? 1 then None else first (λ job, jid job =? n) l.

Definition pid2jid (l : list job_t) (p : Z) : Z :=
  if p <? 1 then 0
  else match first (λ job, pid job =? p) l with
       | Some i => match l !! i with Some job => jid job | None => 0 end
       | None => 0
       end.

Definition state_name (i : nat) (job : job_t) : list Z :=
  if state job =? BG then chars "Running "
  else if state job =? FG then chars "Foreground "
  else if state job =? ST then chars "Stopped "
  else chars "listjobs: Internal error: job[" ++ dec (Z.of_nat i) ++ chars "].state=" ++ dec (state job) ++ chars " ".

Definition listjobs (l : list job_t) : list Z :=
  mjoin (imap (λ i job,
    if pid job =? 0 then []
    else chars "[" ++ dec (jid job) ++ chars "] (" ++ dec (pid job) ++ chars ") " ++ state_name i job ++ cmdline job) l).

(** ** [parseline] of util.c

    [buf] and [delim] are indices of [array]; [argv] is the list of the pointers
    stored so far. *)
Definition char_at (p : nat) : M shell Z := a ← gets array; the (a !! p).
Definition put_char (p : nat) (c : Z) : M shell unit :=
  char_at p ;; modify (λ s, set_array (<[p := c]> (array s)) s).

Definition skip_spaces (buf : nat) : M shell nat :=
  loop (S MAXLINE) (λ b, c ← char_at b; mret (if negb (c =? 0) && (c =? 32) then inl (S b) else inr b)) buf.

(** [strchr] of the C library. *)
Definition find_char (s : nat) (c : Z) : M shell (option nat) :=
  loop (S MAXLINE) (λ p, d ← char_at p;
    mret (if d =? c then inr (Some p) else if d =? 0 then inr None else inl (S p))) s.

(** The start of the next argument and the delimiter behind it. *)
Definition next_arg (buf : nat) : M shell (nat * option nat) :=
  c ← char_at buf;
  if c =? 39 then d ← find_char (S buf) 39; mret (S buf, d)
  else d ← find_char buf 32; mret (buf, d).

(** [strcpy (buf, cmdline)] and the replacement of the last character. *)
Definition copy_line (cmd : list Z) : M shell unit :=
  a ← gets array;
  (if decide (length cmd < length a)%nat then mret tt else throw EFault) ;;
  modify (set_array (cmd ++ [0] ++ drop (S (length cmd)) a)) ;;
  (if decide (cmd = []) then throw EFault else put_char (length cmd - 1) 32).

Definition store_arg (argv : list nat) (buf : nat) : M shell (list nat) :=
  if decide (length argv < MAXARGS)%nat then mret (argv ++ [buf]) else throw EFault.

Definition parse_args (buf : nat) : M shell (list nat) :=
  r ← next_arg buf;
  loop (S MAXLINE) (λ '(argv, (buf, delim)),
    match (delim : option nat) with
    | None => mret (inr argv)
    | Some d =>
        argv ← store_arg argv buf;
        put_char d 0 ;;
        b ← skip_spaces (S d);
        r ← next_arg b;
        mret (inl (argv, r))
    end) ([], r).

Definition parseline (cmd : list Z) : M shell (list nat * bool) :=
  copy_line cmd ;;
  buf ← skip_spaces 0;
  argv ← parse_args buf;
  (* argv[argc] = NULL *)
  (if decide (length argv < MAXARGS)%nat then mret tt else throw EFault) ;;
  match last argv with
  | None => mret (argv, true)
  | Some p =>
      c ← char_at p;
      mret (if c =? 38 then (removelast argv, true) else (argv, false))
  end.

(** The string at a pointer into [array]. *)
Fixpoint c_string (l : list Z) : list Z :=
  match l with
  | [] => []
  | c :: l => if c =? 0 then [] else c :: c_string l
  end.
Definition arg_string (a : list Z) (p : nat) : list Z := c_string (drop p a).

(** ** msh.c *)

Definition leave (status : Z) : M shell unit := goto (Gone status).

(** [errno] is part of the host: its message is left out. *)
Definition unix_error (msg : string) : M shell unit := print (chars msg ++ chars ": ") ;; leave 1.

(** [atoi] of the C library: an optional sign and digits; a [long] in between. *)
Fixpoint digits (v : Z) (l : list Z) : Z :=
  match l with
  | c :: l => if (48 <=? c) && (c <=? 57) then digits (10 * v + (c - 48)) l else v
  | [] => v
  end.
Fixpoint skip_blanks (l : list Z) : list Z :=
  match l with
  | c :: l' => if (c =? 32) || ((9 <=? c) && (c <=? 13)) then skip_blanks l' else l
  | [] => []
  end.
Definition string_to_int (l : list Z) : Z :=
  match skip_blanks l with
  | c :: l' =>
      if c =? 45 then s32 (Z.max (- 2 ^ 63) (- digits 0 l'))
      else if c =? 43 then s32 (Z.min (2 ^ 63 - 1) (digits 0 l'))
      else s32 (Z.min (2 ^ 63 - 1) (digits 0 (c :: l')))
  | [] => 0
  end.

(** [kill (-p, ...)] finds a process: the group of the shell itself if [p] is 0. *)
Definition group_exists (p : Z) (s : shell) : bool := (p =? 0) || bool_decide (procs s !! p = Some true).

(** [do_bgfg] up to the test that the job exists. *)
Definition bgfg_find (argv : list (list Z)) : M shell unit :=
  let name := default [] (argv !! 0%nat) in
  l ← gets jobs;
  match argv !! 1%nat with
  | None => print (name ++ chars " command requires PID or %jobid argument" ++ [10]) ;; goto Prompt
  | Some arg =>
      match arg with
      | 37 :: number =>
          if string_to_int number =? 0 then print (name ++ chars ": argument must be a PID or %jobid" ++ [10]) ;; goto Prompt
          else match getjobjid l (string_to_int number) with
               | None => print (chars "%" ++ dec (string_to_int number) ++ chars ": No such job" ++ [10]) ;; goto Prompt
               | Some _ => goto (Checked true (string_to_int number) name)
               end
      | _ =>
          if string_to_int arg =? 0 then print (name ++ chars ": argument must be a PID or %jobid" ++ [10]) ;; goto Prompt
          else match getjobpid l (string_to_int arg) with
               | None => print (chars "(" ++ dec (string_to_int arg) ++ chars "): No such process" ++ [10]) ;; goto Prompt
               | Some _ => goto (Checked false (string_to_int arg) name)
               end
      end
  end.

(** The second search, which sets [currjob]. *)
Definition bgfg_lookup (by_jid : bool) (number : Z) (name : list Z) : M shell unit :=
  l ← gets jobs;
  goto (Found (if by_jid then getjobjid l number else getjobpid l number) name).

Definition set_state (st : Z) (job : job_t) : job_t := Job (pid job) (jid job) st (cmdline job).

(** With all signals blocked: continue the job and note its state.  The pointer is
    not tested. *)
Definition bgfg_signal (currjob : option nat) (name : list Z) : M shell unit :=
  k ← the currjob;
  job ← get_job k;
  ok ← gets (group_exists (pid job));
  if negb ok then unix_error "do_bgfg: kill error"
  else if decide (name = chars "bg") then put_job k (set_state BG job) ;; goto (Continued k false)
  else put_job k (set_state FG job) ;; goto (Continued k true).

(** After that. *)
Definition bgfg_end (k : nat) (fg : bool) : M shell unit :=
  job ← get_job k;
  if fg then goto (Waiting (pid job))
  else print (chars "[" ++ dec (jid job) ++ chars "] (" ++ dec (pid job) ++ chars ") " ++ cmdline job) ;; goto Prompt.

(** One turn of the loop of [waitfg]: [sigsuspend], or back to the prompt. *)
Definition waitfg (p : Z) : M shell unit :=
  l ← gets jobs; if fgpid l =? p then mret tt else goto Prompt.

Definition builtin_cmd (argv : list (list Z)) : M shell bool :=
  let name := default [] (argv !! 0%nat) in
  if decide (name = chars "quit") then leave 0 ;; mret true
  else if decide (name = chars "fg") then bgfg_find argv ;; mret true
  else if decide (name = chars "bg") then bgfg_find argv ;; mret true
  else if decide (name = chars "jobs") then l ← gets jobs; print (listjobs l) ;; mret true
  else mret (bool_decide (name = chars "&")).

(** [eval], with the result of [fork]; a child is in the group of the shell at
    first.  The parent then waits in [waitfg] for a job in the foreground. *)
Definition eval (cmd : list Z) (forked : Z) : M shell unit :=
  r ← parseline cmd;
  let '(argv, bg) := r in
  a ← gets array;
  if decide (argv = []) then mret tt
  else
    b ← builtin_cmd (arg_string a <$> argv);
    if (b : bool) then mret tt
    else if forked <? 0 then unix_error "eval: fork error"
    else
      modify (λ s, set_host (<[forked := false]> (procs s)) (reports s) s) ;;
      if negb bg then addjob forked FG cmd ;; goto (Waiting forked)
      else
        addjob forked BG cmd ;;
        l ← gets jobs;
        print (chars "[" ++ dec (pid2jid l forked) ++ chars "] (" ++ dec forked ++ chars ") " ++ cmd).

(** ** Signal handlers *)

(** [waitpid (-1, &status, WNOHANG | WUNTRACED)]: a child that has ended is gone
    once it is reported. *)
Definition ended (st : wstatus) : bool := match st with Stopped _ => false | _ => true end.
Definition waitpid : M shell (option (Z * wstatus)) := λ s,
  match reports s with
  | [] => Ok (None, s)
  | (p, st) :: r => Ok (Some (p, st), set_host (if ended st then delete p (procs s) else procs s) r s)
  end.

Definition report (job : job_t) (what : string) (sig : Z) : M shell unit :=
  print (chars "Job [" ++ dec (jid job) ++ chars "] (" ++ dec (pid job) ++ chars ") " ++ chars what ++ chars " by signal "
         ++ dec sig ++ [10]).

Definition sigchld_turn (p : Z) (st : wstatus) : M shell unit :=
  l ← gets jobs;
  k ← the (getjobpid l p);
  job ← get_job k;
  match st with
  | Signaled sig => report job "terminated" sig ;; deletejob (pid job) ;; mret tt
  | Exited _ => deletejob (pid job) ;; mret tt
  | Stopped sig => report job "stopped" sig ;; put_job k (set_state ST job)
  end.

Definition sigchld_handler : M shell unit :=
  n ← gets (λ s, length (reports s));
  loop (S n) (λ _ : unit,
    r ← waitpid;
    match (r : option (Z * wstatus)) with
    | None => mret (inr tt)
    | Some (p, st) => sigchld_turn p st ;; mret (inl tt)
    end) tt.

(** The signal is passed on to the group of the job in the foreground. *)
Definition pass_on (msg : string) : M shell unit :=
  l ← gets jobs;
  if fgpid l =? 0 then mret tt
  else ok ← gets (group_exists (fgpid l)); if (ok : bool) then mret tt else unix_error msg.
Definition sigint_handler : M shell unit := pass_on "sigint_handler: kill error".
Definition sigtstp_handler : M shell unit := pass_on "sigtstp_handler: kill error".
Definition sigquit_handler : M shell unit :=
  print (chars "Terminating after receipt of SIGQUIT signal" ++ [10; 0]) ;; leave 1.

(** ** The shell as a machine *)

(** A line and the result of [fork], should it be called; the next step of the
    shell itself; the signals; a child sets its group; a child stops or ends. *)
Inductive label :=
  | Line (cmd : list Z) (forked : Z)
  | Continue
  | SigChld | SigInt | SigTstp | SigQuit
  | ChildGroup (p : Z)
  | ChildReport (p : Z) (st : wstatus).

Definition continue : M shell unit :=
  p ← gets pc;
  match p with
  | Checked by_jid number name => bgfg_lookup by_jid number name
  | Found k name => bgfg_signal k name
  | Continued k fg => bgfg_end k fg
  | Waiting p => waitfg p
  | Prompt | Gone _ => mret tt
  end.

(** A newer report about a child takes the place of an older one. *)
Definition perform (l : label) : M shell unit :=
  match l with
  | Line cmd forked => eval cmd forked
  | Continue => continue
  | SigChld => sigchld_handler
  | SigInt => sigint_handler
  | SigTstp => sigtstp_handler
  | SigQuit => sigquit_handler
  | ChildGroup p => modify (λ s, set_host (<[p := true]> (procs s)) (reports s) s)
  | ChildReport p st => modify (λ s, set_host (procs s) (filter (λ r, r.1 ≠ p) (reports s) ++ [(p, st)]) s)
  end.

(** The reference for [parseline]: the arguments of a line.  The state is the
    delimiter and the characters so far of the argument that is being read. *)
Fixpoint words (st : option (Z * list Z)) (l : list Z) : list (list Z) :=
  match l with
  | [] => []
  | c :: l =>
      match st with
      | None => if c =? 32 then words None l
                else if c =? 39 then words (Some (39, [])) l
                else words (Some (32, [c])) l
      | Some (q, w) => if c =? q then w :: words None l else words (Some (q, w ++ [c])) l
      end
  end.

(** A line as [fgets] reads it: it ends with a newline, which [parseline] replaces. *)
Definition is_line (cmd : list Z) : Prop :=
  ∃ s, cmd = s ++ [10] ∧ Forall (λ c, 0 < c < 256) s ∧ (length s < MAXLINE - 1)%nat.
Definition line_words (cmd : list Z) : list (list Z) := words None (removelast cmd ++ [32]).

(** When a step can happen. *)
Definition enabled (l : label) (s : shell) : Prop :=
  match l with
  | Line cmd forked => pc s = Prompt ∧ is_line cmd ∧ forked ≠ 0 ∧ (0 < forked → procs s !! forked = None)
  | Continue => pc s ≠ Prompt
  | ChildGroup p => is_Some (procs s !! p)
  | ChildReport p _ => is_Some (procs s !! p) ∧ ∀ st, (p, st) ∈ reports s → ended st = false
  | _ => True
  end ∧ ∀ n, pc s ≠ Gone n.

(** What the shell does not check itself: there is room for another job and for the
    arguments of a line. *)
Definition fits (l : label) (s : shell) : Prop :=
  match l with
  | Line cmd _ => (∃ job, job ∈ jobs s ∧ pid job = 0) ∧ (length (line_words cmd) < MAXARGS)%nat
  | _ => True
  end.

Definition step (s : shell) (l : label) (s' : shell) : Prop := enabled l s ∧ perform l s = Ok (tt, s').

(** [main] up to the first prompt. *)
Definition start (v : bool) : shell :=
  Shell (initjobs (replicate MAXJOBS (Job 0 0 0 []))) 1 v (replicate MAXLINE 0) [] ∅ [] Prompt.

Inductive reachable (v : bool) : shell → Prop :=
  | reach_start : reachable v (start v)
  | reach_step s l s' : reachable v s → fits l s → step s l s' → reachable v s'.
