(* ===== verification/ShellProps.v ===== *)
(** * Properties of the shell of project0 *)
From stdpp Require Import strings.
From S2P Require Import Prelude CStdio Shell.
Local Open Scope Z_scope.

(** ** Command lines *)

Definition chars_ok (r : list Z) : Prop := Forall (λ c, c ≠ 0) r.
(** The characters [r] and a terminator stand in [a] from [p] on. *)
Definition line_at (a : list Z) (p : nat) (r : list Z) : Prop :=
  ∀ i c, (r ++ [0]) !! i = Some c → a !! (p + i)%nat = Some c.

Lemma line_head a p r : line_at a p r → a !! p = Some (hd 0 r).
Proof. intros H. specialize (H 0%nat). rewrite Nat.add_0_r in H. apply H. by destruct r. Qed.
Lemma line_tail a p c r : line_at a p (c :: r) → line_at a (S p) r.
Proof. intros H i d Hi. rewrite Nat.add_succ_comm. by apply H. Qed.
Lemma line_length a p r : line_at a p r → (p + length r < length a)%nat.
Proof.
  intros H. apply lookup_lt_is_Some. exists 0. apply H. rewrite lookup_app_r by lia. by rewrite Nat.sub_diag.
Qed.
Lemma line_app a p w r : line_at a p (w ++ r) → line_at a (p + length w) r.
Proof.
  intros H i d Hi. rewrite <-Nat.add_assoc. apply H. rewrite <-app_assoc, lookup_app_r by lia.
  by replace (length w + i - length w)%nat with i by lia.
Qed.
Lemma line_string a p w : line_at a p w → chars_ok w → arg_string a p = w.
Proof.
  unfold arg_string. intros H Hw. revert p H. induction Hw as [|c w Hc Hw IH]; intros p H.
  - rewrite (drop_S a 0 p) by (by apply line_head in H). done.
  - rewrite (drop_S a c p) by (by apply line_head in H). simpl. rewrite (proj2 (Z.eqb_neq _ _)) by done.
    f_equal. apply IH. by eapply line_tail.
Qed.

Lemma line_char_nonzero c r : chars_ok (c :: r) → (c =? 0) = false.
Proof. intros [H _]%Forall_cons. by apply Z.eqb_neq. Qed.

Lemma wp_char_at s p c Q : array s !! p = Some c → Q c s → wp (char_at p) s Q.
Proof. intros H HQ. unfold char_at. wp_steps. by eapply wp_the. Qed.

Lemma wp_find_char s p c r Q :
  line_at (array s) p r → chars_ok r → c ≠ 0 → (length r ≤ MAXLINE)%nat →
  (c ∉ r → Q None s) →
  (∀ w r', r = w ++ c :: r' → c ∉ w → Q (Some (p + length w)%nat) s) →
  wp (find_char p c) s Q.
Proof.
  intros Hr Hok Hc Hlen HN HS.
  apply (wp_loop (λ g q s', s' = s ∧ ∃ w r', r = w ++ r' ∧ c ∉ w ∧ q = (p + length w)%nat ∧ g = length r') (λ g, g))
    with (g := length r); [|split; [done|]; exists [], r; split_and!; [done|set_solver|simpl; lia|done]|lia].
  clear Hlen. intros g q s' (-> & w & r' & -> & Hw & -> & ->).
  pose proof (line_app _ _ _ _ Hr) as Hr'. apply Forall_app in Hok as [Hok Hok']. wp_step.
  eapply wp_char_at; [by apply line_head|]. apply wp_ret. destruct r' as [|d r']; cbn [hd].
  - rewrite (proj2 (Z.eqb_neq 0 c)) by done. cbn. apply HN. by rewrite app_nil_r.
  - destruct (Z.eqb_spec d c) as [->|Hd]; [by apply (HS w r')|]. rewrite (line_char_nonzero d r') by done.
    exists (length r'). split; [|simpl; lia]. split; [done|]. exists (w ++ [d]), r'. rewrite <-app_assoc, length_app. simpl.
    split_and!; [done|set_solver|lia|done].
Qed.

(** The state of [words] inside an argument. *)
Lemma words_in q acc w r : q ∉ w → words (Some (q, acc)) (w ++ q :: r) = (acc ++ w) :: words None r.
Proof.
  revert acc. induction w as [|c w IH]; intros acc Hq; simpl; [by rewrite Z.eqb_refl, app_nil_r|].
  rewrite (proj2 (Z.eqb_neq c q)) by set_solver. rewrite IH by set_solver. by rewrite <-app_assoc.
Qed.
Lemma words_open q acc r : q ∉ r → words (Some (q, acc)) r = [].
Proof.
  revert acc. induction r as [|c r IH]; intros acc Hq; [done|]. simpl.
  rewrite (proj2 (Z.eqb_neq c q)) by set_solver. apply IH. set_solver.
Qed.
Lemma words_plain c r : c ≠ 32 → c ≠ 39 → words None (c :: r) = words (Some (32, [])) (c :: r).
Proof. intros H1 H2. simpl. by rewrite !(proj2 (Z.eqb_neq c _)) by done. Qed.

Lemma wp_skip_spaces s b r Q :
  line_at (array s) b r → chars_ok r → (length r < MAXLINE)%nat →
  (∀ w r', r = w ++ r' → words None r' = words None r → head r' ≠ Some 32 → Q (b + length w)%nat s) →
  wp (skip_spaces b) s Q.
Proof.
  intros Hr Hok Hlen HQ.
  apply (wp_loop (λ g q s', s' = s ∧ ∃ w r', r = w ++ r' ∧ words None r' = words None r ∧ q = (b + length w)%nat ∧ g = length r')
    (λ g, g)) with (g := length r); [|split; [done|]; exists [], r; split_and!; [done..|simpl; lia|done]|lia].
  clear Hlen. intros g q s' (-> & w & r' & -> & Hw & -> & ->).
  pose proof (line_app _ _ _ _ Hr) as Hr'. apply Forall_app in Hok as [Hok Hok']. wp_step.
  eapply wp_char_at; [by apply line_head|]. apply wp_ret. destruct r' as [|d r']; cbn [hd].
  - by apply (HQ w []).
  - rewrite (line_char_nonzero d r') by done. cbn [negb andb]. destruct (Z.eqb_spec d 32) as [->|Hd].
    + exists (length r'). split; [|simpl; lia]. split; [done|]. exists (w ++ [32]), r'. rewrite <-app_assoc, length_app. simpl.
      split_and!; [done| |lia|done]. by rewrite <-Hw.
    + apply (HQ w (d :: r')); [done|done|naive_solver].
Qed.

(** What [next_arg] finds: the next argument and what is behind it, or no more. *)
Definition arg_found (a : list Z) (W : list (list Z)) (b : nat) (buf : nat) (delim : option nat) (g : nat) : Prop :=
  match delim with
  | None => W = []
  | Some d => ∃ w q r, W = w :: words None r ∧ (b ≤ buf)%nat ∧ line_at a buf (w ++ q :: r) ∧ chars_ok (w ++ q :: r)
      ∧ d = (buf + length w)%nat ∧ (length r < g)%nat
  end.

Lemma wp_next_arg s b r Q :
  line_at (array s) b r → chars_ok r → head r ≠ Some 32 → (length r < MAXLINE)%nat →
  (∀ buf d, arg_found (array s) (words None r) b buf d (length r) → Q (buf, d) s) →
  wp (next_arg b) s Q.
Proof.
  intros Hr Hok Hhd Hlen HQ. unfold next_arg. wp_step. eapply wp_char_at; [by apply line_head|].
  destruct r as [|c r].
  { simpl. wp_step. eapply wp_find_char; [done..|simpl; lia| |]; [|by intros [] ?]. intros _. apply wp_ret. by apply HQ. }
  cbn [hd]. destruct (Z.eqb_spec c 39) as [->|Hc].
  - pose proof (line_tail _ _ _ _ Hr) as Hr'. apply Forall_cons in Hok as [_ Hok]. simpl in Hlen. wp_step.
    eapply wp_find_char; [done..|lia| |].
    + intros Hq. apply wp_ret, HQ. simpl. by apply words_open.
    + intros w r' -> Hq. apply wp_ret, HQ. exists w, 39, r'.
      split_and!; [simpl; by rewrite words_in|lia|done|done|lia|rewrite !length_cons, length_app; simpl; lia].
  - assert (c ≠ 32) by naive_solver. rewrite words_plain in HQ by done. wp_step.
    eapply wp_find_char; [done..|simpl in *; lia| |].
    + intros Hq. apply wp_ret, HQ. simpl in *. by apply (words_open 32 [] (c :: r)).
    + intros w r' E Hq. apply wp_ret, HQ. rewrite E in *. exists w, 32, r'.
      split_and!; [by rewrite words_in|lia|done|done|lia|rewrite length_app; simpl; lia].
Qed.

Lemma line_kept a p w d c : line_at a p w → (p + length w < d)%nat ∨ (d < p)%nat → line_at (<[d := c]> a) p w.
Proof.
  intros H Hd i x Hi. pose proof (lookup_lt_Some _ _ _ Hi) as Hlt. rewrite length_app in Hlt. simpl in Hlt.
  rewrite list_lookup_insert_ne by lia. by apply H.
Qed.
Lemma line_cut a p w q r : line_at a p (w ++ q :: r) → line_at (<[(p + length w)%nat := 0]> a) p w.
Proof.
  intros H i x Hi. pose proof (line_length _ _ _ H) as Hlen. rewrite length_app in Hlen. simpl in Hlen.
  destruct (decide (i = length w)) as [->|Hne].
  - rewrite lookup_app_r, Nat.sub_diag in Hi by lia. injection Hi as <-. apply list_lookup_insert_eq. lia.
  - pose proof (lookup_lt_Some _ _ _ Hi) as Hlt. rewrite length_app in Hlt. simpl in Hlt.
    rewrite lookup_app_l in Hi by lia. rewrite list_lookup_insert_ne by lia. apply H.
    rewrite <-app_assoc. by rewrite lookup_app_l by lia.
Qed.

(** The arguments found so far stand before [b]. *)
Definition arg_at (a : list Z) (b p : nat) (w : list Z) : Prop := line_at a p w ∧ chars_ok w ∧ (p + length w < b)%nat.

Lemma wp_put_char s p c Q :
  (p < length (array s))%nat → Q tt (set_array (<[p := c]> (array s)) s) → wp (put_char p c) s Q.
Proof.
  intros [x Hx]%lookup_lt_is_Some HQ. unfold put_char. wp_step. eapply wp_char_at; [done|]. by wp_steps.
Qed.

Lemma wp_store_arg s argv p Q : (length argv < MAXARGS)%nat → Q (argv ++ [p]) s → wp (store_arg argv p) s Q.
Proof. intros H HQ. unfold store_arg. by rewrite decide_True. Qed.

Section parse.
Context (s0 : shell) (W : list (list Z)).
Hypothesis few : (length W < MAXARGS)%nat.

Definition parsing (g : nat) (x : list nat * (nat * option nat)) (s : shell) : Prop :=
  ∃ a b ws W', s = set_array a s0 ∧ length a = MAXLINE ∧ Forall2 (arg_at a b) x.1 ws ∧ W = ws ++ W'
    ∧ arg_found a W' b x.2.1 x.2.2 g.

Lemma wp_parse_turn g argv buf d s :
  parsing g (argv, (buf, Some d)) s →
  wp (argv ← store_arg argv buf; put_char d 0 ;; b ← skip_spaces (S d); r ← next_arg b; mret (inl (argv, r) : _ + list nat)) s
    (λ r s', match r with inl x => ∃ g', parsing g' x s' ∧ (g' < g)%nat | inr _ => False end).
Proof.
  intros (a & b & ws & W' & -> & Hlen & Hws & HW & w & q & r & -> & Hb & Hl & Hok & -> & Hg). simpl in *.
  apply Forall_app in Hok as [Hokw [_ Hokr]%Forall_cons].
  pose proof (line_length _ _ _ Hl) as Hll. rewrite length_app, length_cons, Hlen in Hll.
  wp_step. apply wp_store_arg; [rewrite (Forall2_length _ _ _ Hws); rewrite HW, length_app in few; lia|].
  wp_step. apply wp_put_char; [simpl; lia|]. simpl. set (e := (buf + length w)%nat) in *. set (a' := <[e := 0]> a).
  change (wp _ _ _) with (wp (b0 ← skip_spaces (S e); r0 ← next_arg b0; mret (inl (argv ++ [buf], r0) : _ + list nat)) (set_array a' s0)
    (λ r1 s', match r1 with inl x => ∃ g', parsing g' x s' ∧ (g' < g)%nat | inr _ => False end)).
  assert (line_at a' (S e) r) as Hr.
  { apply line_kept; [|lia]. pose proof (line_app _ _ _ _ Hl) as H. by apply line_tail in H. }
  assert (Forall2 (arg_at a' (S e)) (argv ++ [buf]) (ws ++ [w])) as Hws'.
  { apply Forall2_app.
    - eapply Forall2_impl; [done|]. intros p v (Hv & Hvok & Hp). split_and!; [apply line_kept; [done|lia]|done|lia].
    - constructor; [|done]. split_and!; [by eapply line_cut|done|lia]. }
  wp_step. eapply wp_skip_spaces; [done..|lia|]. intros v r' E Hr' Hhd. subst r. rewrite length_app in Hll, Hg.
  apply Forall_app in Hokr as [_ Hokr]. wp_step. eapply wp_next_arg; [by eapply line_app|done|done|lia|].
  intros buf' delim' Hf. apply wp_ret. exists (length r'). split; [|lia].
  exists a', (S e), (ws ++ [w]), (words None (v ++ r')). split_and!; [done|by unfold a'; rewrite length_insert|done| |].
  - by rewrite <-app_assoc.
  - rewrite <-Hr'. unfold arg_found in *. simpl in *. destruct delim' as [d'|]; [|done].
    destruct Hf as (w' & q' & r2 & ? & ? & ? & ? & ? & ?). exists w', q', r2. split_and!; try done. lia.
Qed.

Lemma wp_parse_args b r (Q : list nat → shell → Prop) :
  line_at (array s0) b r → chars_ok r → head r ≠ Some 32 → length (array s0) = MAXLINE → (length r < MAXLINE)%nat →
  W = words None r →
  (∀ a argv c, length a = MAXLINE → Forall2 (arg_at a c) argv W → Q argv (set_array a s0)) →
  wp (parse_args b) s0 Q.
Proof.
  intros Hr Hok Hhd Hlen Hlr HW HQ. unfold parse_args. wp_step. eapply wp_next_arg; [done..|]. intros buf d Hf.
  apply (wp_loop parsing (λ g, g)) with (g := length r).
  - intros g [argv [buf' [d'|]]] s Hs.
    + eapply wp_mono; [by apply wp_parse_turn|]. by intros [x|l] s'.
    + destruct Hs as (a & b' & ws & W' & -> & Ha & Hws & HW' & HN). simpl in *. subst W'. rewrite app_nil_r in HW'. subst ws.
      apply wp_ret. by eapply HQ.
  - exists (array s0), b, [], W. split_and!; [by destruct s0|done|constructor|done|]. by rewrite HW.
  - lia.
Qed.
End parse.

(** The arguments and whether the last one asks for the background; a line without
    arguments counts as one in the background. *)
Definition parsed (W : list (list Z)) : list (list Z) * bool :=
  match last W with
  | None => ([], true)
  | Some w => if decide (head w = Some 38) then (removelast W, true) else (W, false)
  end.

Lemma removelast_fmap {A B} (f : A → B) l : f <$> removelast l = removelast (f <$> l).
Proof. induction l as [|x [|y l] IH]; [done..|]. simpl in *. by rewrite <-IH. Qed.

Lemma args_string a b argv W : Forall2 (arg_at a b) argv W → arg_string a <$> argv = W.
Proof. induction 1 as [|p w argv W (Hl & Hok & _) _ IH]; [done|]. rewrite fmap_cons, IH. f_equal. by apply line_string. Qed.

Lemma wp_copy_line s cmd l Q :
  cmd = l ++ [10] → chars_ok l → (length l < MAXLINE - 1)%nat → length (array s) = MAXLINE →
  (∀ a, length a = MAXLINE → line_at a 0 (l ++ [32]) → Q tt (set_array a s)) →
  wp (copy_line cmd) s Q.
Proof.
  intros -> Hok Hl Hlen HQ. unfold copy_line. wp_steps. rewrite length_app. cbn [length]. unfold MAXLINE in *.
  rewrite decide_True by lia. wp_steps. rewrite decide_False by (by destruct l).
  apply wp_put_char; cbn [array set_array]; [rewrite !length_app, length_drop; simpl; lia|].
  set (a := <[_ := _]> _).
  assert (a = l ++ [32; 0] ++ drop (length l + 2) (array s)) as E.
  { unfold a. rewrite Nat.add_sub, <-app_assoc, <-(Nat.add_0_r (length l)) at 1. rewrite insert_app_r. simpl.
    do 4 f_equal. lia. }
  change (Q tt (set_array a s)). apply HQ.
  - rewrite E, !length_app, length_drop. simpl. lia.
  - intros i c Hi. rewrite E. simpl. replace (l ++ 32 :: 0 :: drop (length l + 2) (array s)) with (((l ++ [32]) ++ [0]) ++ drop (length l + 2) (array s))
      by (by rewrite <-!app_assoc). by apply lookup_app_l_Some.
Qed.

Lemma last_arg a b argv W p :
  Forall2 (arg_at a b) argv W → last argv = Some p → ∃ w, last W = Some w ∧ a !! p = Some (hd 0 w) ∧ chars_ok w.
Proof.
  intros H Hp. apply last_Some in Hp as [l ->]. apply Forall2_app_inv_l in H as (W1 & W2 & _ & H2 & ->).
  apply Forall2_cons_inv_l in H2 as (w & W3 & (Hl & Hok & _) & H3 & ->). apply Forall2_nil_inv_l in H3 as ->.
  exists w. rewrite last_snoc. split_and!; [done|by apply line_head|done].
Qed.

Lemma wp_parseline s cmd Q :
  is_line cmd → length (array s) = MAXLINE → (length (line_words cmd) < MAXARGS)%nat →
  (∀ a argv, length a = MAXLINE → arg_string a <$> argv = (parsed (line_words cmd)).1 →
     Q (argv, (parsed (line_words cmd)).2) (set_array a s)) →
  wp (parseline cmd) s Q.
Proof.
  intros (l & -> & Hl & Hlen) Ha Hfew HQ. unfold line_words in *. rewrite removelast_last in *.
  assert (chars_ok l) as Hok by (eapply Forall_impl; [done|]; simpl; lia).
  assert (chars_ok (l ++ [32])) as Hok' by (apply Forall_app; by repeat constructor).
  unfold parseline. wp_step. eapply wp_copy_line; [done..|]. intros a1 Ha1 Hl1. unfold MAXLINE in Hlen.
  wp_step. eapply wp_skip_spaces; [done..|rewrite length_app; unfold MAXLINE; simpl; lia|]. intros w r E Er Hhd.
  rewrite <-Er in *. rewrite E in Hl1, Hok'. apply Forall_app in Hok' as [_ Hokr]. pose proof (line_app _ _ _ _ Hl1) as Hlr.
  pose proof (line_length _ _ _ Hlr) as Hlt. rewrite Ha1 in Hlt.
  wp_step. eapply (wp_parse_args (set_array a1 s) (words None r)); [done..|lia|done|]. intros a argv c Hla Hargs.
  rewrite (Forall2_length _ _ _ Hargs), decide_True by done. wp_step. apply wp_ret.
  pose proof (args_string _ _ _ _ Hargs) as Hstr. unfold parsed in HQ. destruct (last argv) as [p|] eqn:Hp.
  - destruct (last_arg _ _ _ _ _ Hargs Hp) as (v & Hv & Hc & Hvok). rewrite Hv in HQ. wp_step.
    eapply wp_char_at; [done|]. apply wp_ret. specialize (HQ a). destruct (Z.eqb_spec (hd 0 v) 38) as [E38|N38].
    + rewrite decide_True in HQ by (destruct v; naive_solver). apply HQ; [done|]. simpl. by rewrite removelast_fmap, Hstr.
    + rewrite decide_False in HQ by (destruct v; naive_solver). by apply HQ.
  - apply last_None in Hp as ->. apply Forall2_nil_inv_l in Hargs as E0. rewrite E0 in HQ. by apply HQ.
Qed.

(** ** The table of jobs *)

Lemma first_Some P l i :
  first P l = Some i ↔ ∃ job, l !! i = Some job ∧ P job = true ∧ ∀ k job', l !! k = Some job' → (k < i)%nat → P job' = false.
Proof.
  unfold first. rewrite fmap_Some. split.
  - intros ([i' job] & (H1 & H2 & H3)%list_find_Some & ->). exists job. split_and!; [done..|].
    intros k job' Hk Hlt. apply not_true_iff_false. by eapply H3.
  - intros (job & H1 & H2 & H3). exists (i, job). split; [|done]. apply list_find_Some. split_and!; [done..|].
    intros k job' Hk Hlt. apply not_true_iff_false. by eapply H3.
Qed.
Lemma first_None P l : first P l = None ↔ ∀ i job, l !! i = Some job → P job = false.
Proof.
  unfold first. rewrite fmap_None, list_find_None, Forall_lookup. by setoid_rewrite not_true_iff_false.
Qed.
Lemma first_is_Some P l job : job ∈ l → P job = true → ∃ i, first P l = Some i.
Proof.
  intros [k Hk]%list_elem_of_lookup HP. destruct (first P l) as [i|] eqn:E; [by exists i|].
  rewrite first_None in E. by rewrite (E _ _ Hk) in HP.
Qed.

(** An entry in use. *)
Definition job_at (l : list job_t) (i : nat) (p : Z) : Prop := ∃ job, l !! i = Some job ∧ pid job = p.
Definition distinct_pids (l : list job_t) : Prop := ∀ i k p, job_at l i p → job_at l k p → p ≠ 0 → i = k.

Lemma job_at_insert l i job k p :
  (i < length l)%nat → job_at (<[i := job]> l) k p ↔ (k = i ∧ pid job = p) ∨ (k ≠ i ∧ job_at l k p).
Proof.
  intros Hi. unfold job_at. destruct (decide (k = i)) as [->|Hne].
  - rewrite list_lookup_insert_eq by done. naive_solver.
  - rewrite list_lookup_insert_ne by done. naive_solver.
Qed.

Lemma distinct_insert l i job :
  (i < length l)%nat → distinct_pids l → (pid job = 0 ∨ ∀ k, k ≠ i → ¬ job_at l k (pid job)) →
  distinct_pids (<[i := job]> l).
Proof.
  intros Hi Hd Hp k k' p Hk Hk' Hne. rewrite job_at_insert in Hk by done. rewrite job_at_insert in Hk' by done.
  destruct Hk as [[-> <-]|[? Hk]], Hk' as [[-> E]|[? Hk']]; try subst p; [done|naive_solver|naive_solver|by eapply Hd].
Qed.

Lemma getjobpid_first l p i : getjobpid l p = Some i → job_at l i p ∧ 1 ≤ p.
Proof.
  unfold getjobpid. destruct (Z.ltb_spec p 1) as [?|?]; [done|]. intros (job & Hi & E & _)%first_Some. split; [|done].
  exists job. split; [done|]. by apply Z.eqb_eq.
Qed.
Lemma getjobpid_found l p i : distinct_pids l → job_at l i p → 1 ≤ p → getjobpid l p = Some i.
Proof.
  intros Hd (job & Hi & E) Hp. unfold getjobpid. rewrite (proj2 (Z.ltb_ge p 1)) by done. apply first_Some.
  exists job. split_and!; [done|by apply Z.eqb_eq|]. intros k job' Hk Hlt. apply Z.eqb_neq. intros E'.
  assert (k = i); [|lia]. apply (Hd k i p); [by exists job'|by exists job|lia].
Qed.

(** The job in the foreground, if there is at most one. *)
Definition fg_at (l : list job_t) (i : nat) : Prop := ∃ job, l !! i = Some job ∧ state job = FG.
Lemma fgpid_found l i job :
  (∀ k, fg_at l k → k = i) → l !! i = Some job → state job = FG → fgpid l = pid job.
Proof.
  intros Hu Hi Hs. unfold fgpid. replace (first _ l) with (Some i); [by rewrite Hi|]. symmetry. apply first_Some.
  exists job. split_and!; [done|by apply Z.eqb_eq|]. intros k job' Hk Hlt. apply Z.eqb_neq. intros E.
  assert (k = i); [|lia]. apply Hu. by exists job'.
Qed.
Lemma fgpid_none l : (∀ k, ¬ fg_at l k) → fgpid l = 0.
Proof.
  intros H. unfold fgpid. replace (first _ l) with (@None nat); [done|]. symmetry. apply first_None.
  intros i job Hi. apply Z.eqb_neq. intros E. apply (H i). by exists job.
Qed.
Lemma fg_at_insert l i job k :
  (i < length l)%nat → fg_at (<[i := job]> l) k ↔ (k = i ∧ state job = FG) ∨ (k ≠ i ∧ fg_at l k).
Proof.
  intros Hi. unfold fg_at. destruct (decide (k = i)) as [->|Hne].
  - rewrite list_lookup_insert_eq by done. naive_solver.
  - rewrite list_lookup_insert_ne by done. naive_solver.
Qed.

(** ** The invariant of the shell *)

(** Where the shell stands while there is a job in the foreground. *)
Definition fg_place (q : place) (i : nat) (p : Z) : Prop :=
  match q with
  | Continued k true => i = k
  | Waiting p' => p = p'
  | Gone _ => True
  | _ => False
  end.
Definition place_ok (q : place) : Prop :=
  match q with Found (Some k) _ | Continued k _ => (k < MAXJOBS)%nat | _ => True end.

Record inv (s : shell) : Prop := Inv {
  inv_length : length (jobs s) = MAXJOBS;
  inv_array : length (array s) = MAXLINE;
  inv_place : place_ok (pc s);
  (** no two jobs for one process *)
  inv_distinct : distinct_pids (jobs s);
  (** the jobs are the children *)
  inv_jobs : ∀ i p, job_at (jobs s) i p → p ≠ 0 → is_Some (procs s !! p);
  inv_procs : ∀ p, is_Some (procs s !! p) → 1 ≤ p ∧ ∃ i, job_at (jobs s) i p;
  inv_reports : ∀ p st, (p, st) ∈ reports s → is_Some (procs s !! p);
  inv_once : NoDup (reports s).*1;
  (** at most one job is in the foreground, and the shell is busy with it *)
  inv_fg : ∀ i p, fg_at (jobs s) i → job_at (jobs s) i p → fg_place (pc s) i p;
  inv_one : ∀ i k, fg_at (jobs s) i → fg_at (jobs s) k → i = k }.

(** Output and the buffer do not matter. *)
Definition same_table (s s' : shell) : Prop :=
  jobs s' = jobs s ∧ procs s' = procs s ∧ reports s' = reports s ∧ pc s' = pc s ∧ array s' = array s.
Lemma inv_same s s' : same_table s s' → inv s → inv s'.
Proof. intros (E1 & E2 & E3 & E4 & E5) [? ? ? ? ? ? ? ? ? ?]. split; by rewrite ?E1, ?E2, ?E3, ?E4, ?E5. Qed.

Lemma same_print s o : same_table s (set_stdout o s).
Proof. done. Qed.
Lemma wp_print s cs Q : Q tt (set_stdout (stdout s ++ cs) s) → wp (print cs) s Q.
Proof. done. Qed.

Lemma inv_start v : inv (start v).
Proof.
  assert (∀ i job, jobs (start v) !! i = Some job → job = Job 0 0 UNDEF []) as H.
  { intros i job Hi. cbn [jobs start] in Hi. unfold initjobs in Hi. apply list_lookup_fmap_Some in Hi as (x & -> & _). done. }
  split; try done.
  - intros i k p (j1 & Hi & <-) _ Hne. by rewrite (H _ _ Hi) in Hne.
  - intros i p (j1 & Hi & <-) Hne. by rewrite (H _ _ Hi) in Hne.
  - intros p [x Hx]. cbn [procs start] in Hx. by rewrite lookup_empty in Hx.
  - intros p st Hin. cbn [reports start] in Hin. by apply elem_of_nil in Hin.
  - constructor.
  - intros i p (j1 & Hi & E) _. by rewrite (H _ _ Hi) in E.
  - intros i k (j1 & Hi & E) _. by rewrite (H _ _ Hi) in E.
Qed.

(** ** Steps of the shell keep the invariant *)

Lemma job_at_state l k job st i p :
  l !! k = Some job → job_at (<[k := set_state st job]> l) i p ↔ job_at l i p.
Proof.
  intros Hk. rewrite job_at_insert by (by eapply lookup_lt_Some). simpl. split.
  - intros [[-> <-]|[_ H]]; [by exists job|done].
  - intros H. destruct (decide (i = k)) as [->|?]; [left|by right].
    destruct H as (job' & Hk' & <-). by simplify_eq.
Qed.

(** The state of a job changes. *)
Lemma inv_restate s k job st q :
  inv s → jobs s !! k = Some job → place_ok q →
  (st = FG → (∀ i, fg_at (jobs s) i → i = k) ∧ fg_place q k (pid job)) →
  (∀ i p, i ≠ k → fg_at (jobs s) i → job_at (jobs s) i p → fg_place q i p) →
  inv (set_pc q (set_jobs (<[k := set_state st job]> (jobs s)) (nextjid s) s)).
Proof.
  intros [] Hk Hq Hnew Hold. pose proof (lookup_lt_Some _ _ _ Hk) as Hlt.
  split; cbn [jobs procs reports pc array set_pc set_jobs]; try done.
  - by rewrite length_insert.
  - intros i k' p Hi Hk' Hne. rewrite job_at_state in Hi by done. rewrite job_at_state in Hk' by done. by eapply inv_distinct0.
  - intros i p Hi Hne. rewrite job_at_state in Hi by done. by eapply inv_jobs0.
  - intros p Hp. destruct (inv_procs0 p Hp) as [? [i Hi]]. split; [done|]. exists i. by rewrite job_at_state.
  - intros i p Hf Hi. rewrite fg_at_insert in Hf by done. rewrite job_at_state in Hi by done.
    destruct Hf as [[-> E]|[? Hf]]; [|by apply Hold]. destruct (Hnew E) as [_ H]. destruct Hi as (job' & Hi & <-). by simplify_eq.
  - intros i i' Hf Hf'. rewrite fg_at_insert in Hf by done. rewrite fg_at_insert in Hf' by done.
    destruct Hf as [[-> E]|[? Hf]], Hf' as [[-> E']|[? Hf']]; [done| | |by apply inv_one0];
      destruct (Hnew ltac:(done)) as [Hu _]; naive_solver.
Qed.

(** The shell goes on while no job is in the foreground. *)
Lemma inv_goto s q : inv s → place_ok q → (∀ i p, fg_at (jobs s) i → job_at (jobs s) i p → fg_place q i p) → inv (set_pc q s).
Proof. intros [] Hq Hf. by split. Qed.
Lemma inv_gone s n : inv s → inv (set_pc (Gone n) s).
Proof. intros H. by apply inv_goto. Qed.
Lemma inv_no_fg s : inv s → (∀ i p, ¬ fg_place (pc s) i p) → ∀ i, ¬ fg_at (jobs s) i.
Proof. intros H Hp i Hf. pose proof Hf as (job & Hi & _). apply (Hp i (pid job)). apply (inv_fg s H); [done|by exists job]. Qed.

Lemma wp_get_job s k job Q : jobs s !! k = Some job → Q job s → wp (get_job k) s Q.
Proof. intros H HQ. unfold get_job. wp_steps. by eapply wp_the. Qed.
Lemma wp_unix_error s msg : inv s → wp (unix_error msg) s (λ _ s', inv s').
Proof. intros H. unfold unix_error, leave, goto. wp_steps. by apply inv_gone, (inv_same s). Qed.

Lemma wp_bgfg_signal s k name : inv s → pc s = Found (Some k) name → wp (bgfg_signal (Some k) name) s (λ _ s', inv s').
Proof.
  intros H Hpc. pose proof (inv_place s H) as Hk. rewrite Hpc in Hk. simpl in Hk.
  assert (∀ i, ¬ fg_at (jobs s) i) as Hno by (apply inv_no_fg; [done|]; intros i p; rewrite Hpc; tauto).
  destruct (lookup_lt_is_Some_2 (jobs s) k) as [job Hjob]; [by rewrite (inv_length s H)|].
  unfold bgfg_signal. wp_step. apply wp_the with (a := k); [done|]. wp_step. eapply wp_get_job; [done|]. wp_steps. destruct (group_exists _ _); cbn [negb]; [|by apply wp_unix_error].
  destruct (decide _); unfold put_job, goto; wp_steps; (apply inv_restate; [done..| |]);
    try (intros i p _ Hf; by destruct (Hno i)); [done|]. intros _. split; [|done]. intros i Hf. by destruct (Hno i).
Qed.

Lemma wp_bgfg_end s k fg : inv s → pc s = Continued k fg → wp (bgfg_end k fg) s (λ _ s', inv s').
Proof.
  intros H Hpc. pose proof (inv_place s H) as Hk. rewrite Hpc in Hk. simpl in Hk.
  destruct (lookup_lt_is_Some_2 (jobs s) k) as [job Hjob]; [by rewrite (inv_length s H)|].
  unfold bgfg_end. wp_step. eapply wp_get_job; [done|]. destruct fg; unfold goto; wp_steps.
  - apply inv_goto; [done..|]. intros i p Hf Hi. pose proof (inv_fg s H i p Hf Hi) as Hp. rewrite Hpc in Hp. simpl in *. subst i.
    destruct Hi as (job' & Hi & <-). by simplify_eq.
  - apply wp_print. wp_steps. apply inv_goto; [by apply (inv_same s)|done|].
    intros i p Hf Hi. pose proof (inv_fg s H i p Hf Hi) as Hp. by rewrite Hpc in Hp.
Qed.

Lemma wp_waitfg s p : inv s → pc s = Waiting p → wp (waitfg p) s (λ _ s', inv s').
Proof.
  intros H Hpc. unfold waitfg. wp_steps. destruct (Z.eqb_spec (fgpid (jobs s)) p) as [E|N]; unfold goto; wp_steps; [done|].
  apply inv_goto; [done..|]. intros i p' Hf Hi. exfalso. apply N. pose proof (inv_fg s H i p' Hf Hi) as Hp. rewrite Hpc in Hp.
  simpl in Hp. subst p'. pose proof Hf as (job & Hjob & Hs). rewrite (fgpid_found _ i job); [|intros; by apply (inv_one s H)|done..].
  destruct Hi as (job' & Hi & <-). by simplify_eq.
Qed.

(** The pointer of [do_bgfg] is null: its job has gone between the two searches. *)
Definition lost_job (s : shell) : Prop := ∃ name, pc s = Found None name.

Lemma getjob_lt l (by_jid : bool) n k : (if by_jid then getjobjid l n else getjobpid l n) = Some k → (k < length l)%nat.
Proof.
  assert (∀ P k, first P l = Some k → (k < length l)%nat) as Hlt.
  { intros P i (job & Hi & _)%first_Some. by eapply lookup_lt_Some. }
  destruct by_jid; unfold getjobjid, getjobpid; destruct (_ <? _); (done || apply Hlt).
Qed.

Lemma wp_bgfg_lookup s by_jid n name : inv s → pc s = Checked by_jid n name → wp (bgfg_lookup by_jid n name) s (λ _ s', inv s').
Proof.
  intros H Hpc. unfold bgfg_lookup, goto. wp_steps. apply inv_goto; [done| |].
  - destruct (if by_jid then _ else _) as [k|] eqn:E; [|done]. simpl. rewrite <-(inv_length s H). by eapply getjob_lt.
  - intros i p Hf Hi. pose proof (inv_fg s H i p Hf Hi) as Hp. by rewrite Hpc in Hp.
Qed.

Lemma wp_continue s : inv s → ¬ lost_job s → wp continue s (λ _ s', inv s').
Proof.
  intros H Hl. unfold continue. wp_steps. destruct (pc s) as [|by_jid n name|[k|] name| | |] eqn:E; [by wp_steps|..|by wp_steps].
  - by apply wp_bgfg_lookup.
  - by apply wp_bgfg_signal.
  - destruct Hl. by exists name.
  - by apply wp_bgfg_end.
  - by apply wp_waitfg.
Qed.

Lemma wp_pass_on s msg : inv s → wp (pass_on msg) s (λ _ s', inv s').
Proof.
  intros H. unfold pass_on. wp_steps. destruct (_ =? _); wp_steps; [done|].
  destruct (group_exists _ _); [by wp_steps|by apply wp_unix_error].
Qed.

(** ** Adding and deleting jobs *)

Definition same_rest (s s' : shell) : Prop :=
  procs s' = procs s ∧ reports s' = reports s ∧ pc s' = pc s ∧ array s' = array s.

Lemma wp_addjob s p st cmd (Q : bool → shell → Prop) :
  1 ≤ p → (∃ job, job ∈ jobs s ∧ pid job = 0) → (length cmd < MAXLINE)%nat →
  (∀ i s', job_at (jobs s) i 0 → jobs s' = <[i := Job p (nextjid s) st cmd]> (jobs s) → same_rest s s' → Q true s') →
  wp (addjob p st cmd) s Q.
Proof.
  intros Hp (job & Hin & E0) Hlen HQ. unfold addjob. rewrite (proj2 (Z.ltb_ge p 1)) by done. wp_steps.
  destruct (first_is_Some (λ job, pid job =? 0) (jobs s) job Hin) as [i Hi]; [by apply Z.eqb_eq|]. rewrite Hi.
  apply first_Some in Hi as (job' & Hi & E & _). wp_steps. rewrite decide_True by done. wp_steps. simpl.
  assert (job_at (jobs s) i 0) as Hat by (exists job'; split; [done|]; by apply Z.eqb_eq).
  destruct (verbose s); [apply wp_print|apply wp_ret]; wp_steps; by apply (HQ i).
Qed.

Lemma wp_deletejob s k p (Q : bool → shell → Prop) :
  distinct_pids (jobs s) → job_at (jobs s) k p → 1 ≤ p →
  (∀ s', jobs s' = <[k := Job 0 0 UNDEF []]> (jobs s) → same_rest s s' → Q true s') →
  wp (deletejob p) s Q.
Proof.
  intros Hd Hk Hp HQ. pose proof (getjobpid_found _ _ _ Hd Hk Hp) as E. unfold getjobpid in E. unfold deletejob.
  rewrite (proj2 (Z.ltb_ge p 1)) in * by done. wp_steps. rewrite E. destruct Hk as (job & Hk & _).
  wp_step. eapply wp_get_job; [done|]. wp_steps. by apply HQ.
Qed.

Lemma inv_added s s' p b st n cmd i q :
  inv s → (∀ k, ¬ fg_at (jobs s) k) → procs s !! p = None → 1 ≤ p → job_at (jobs s) i 0 →
  jobs s' = <[i := Job p n st cmd]> (jobs s) → procs s' = <[p := b]> (procs s) → reports s' = reports s →
  length (array s') = MAXLINE → pc s' = q → place_ok q → (st = FG → q = Waiting p) → inv s'.
Proof.
  intros [] Hno Hp Hp1 Hi Ej Ep Er Ha Eq Hq Hfg. pose proof Hi as (job & Hjob & E0).
  pose proof (lookup_lt_Some _ _ _ Hjob) as Hlt.
  split; rewrite ?Ej, ?Ep, ?Er, ?Eq; try done.
  - by rewrite length_insert.
  - apply distinct_insert; [done..|]. right. intros k Hne Hk. simpl in Hk. destruct (inv_jobs0 k p Hk) as [? ?]; [lia|by simplify_eq].
  - intros k p' Hk Hne. rewrite job_at_insert in Hk by done. rewrite lookup_insert_is_Some. simpl in Hk.
    destruct Hk as [[-> <-]|[_ Hk]]; [by left|]. destruct (decide (p = p')); [by left|right]. split; [done|]. by eapply inv_jobs0.
  - intros p' Hp'. rewrite lookup_insert_is_Some in Hp'. destruct (decide (p = p')) as [<-|Hne].
    + split; [done|]. exists i. rewrite job_at_insert by done. by left.
    + destruct Hp' as [?|[_ Hp']]; [done|]. destruct (inv_procs0 p' Hp') as [? [k Hk]]. split; [done|]. exists k.
      rewrite job_at_insert by done. right. split; [|done]. intros ->. destruct Hk as (job' & Hk & E). simplify_eq. lia.
  - intros p' st' Hin. rewrite lookup_insert_is_Some. destruct (decide (p = p')); [by left|right]. split; [done|]. by eapply inv_reports0.
  - intros k p' Hf Hk. rewrite fg_at_insert in Hf by done. rewrite job_at_insert in Hk by done. simpl in *.
    destruct Hf as [[-> E]|[_ Hf]]; [|by destruct (Hno k)]. rewrite (Hfg E). destruct Hk as [[_ <-]|[? _]]; done.
  - intros k k' Hf Hf'. rewrite fg_at_insert in Hf by done. rewrite fg_at_insert in Hf' by done.
    destruct Hf as [[-> _]|[_ Hf]]; [|by destruct (Hno k)]. destruct Hf' as [[-> _]|[_ Hf']]; [done|by destruct (Hno k')].
Qed.

(** A job whose process has been waited for goes away. *)
Lemma inv_deleted s s' k p st r :
  inv s → reports s = (p, st) :: r → job_at (jobs s) k p →
  jobs s' = <[k := Job 0 0 UNDEF []]> (jobs s) → procs s' = delete p (procs s) → reports s' = r →
  array s' = array s → pc s' = pc s → inv s'.
Proof.
  intros [] Hr Hk Ej Ep Er Ea Eq. pose proof Hk as (job & Hjob & E). pose proof (lookup_lt_Some _ _ _ Hjob) as Hlt.
  destruct (inv_procs0 p) as [Hp _]; [apply (inv_reports0 p st); rewrite Hr; by left|].
  rewrite Hr in inv_once0, inv_reports0. apply NoDup_cons in inv_once0 as [Hfresh Honce].
  split; rewrite ?Ej, ?Ep, ?Er, ?Ea, ?Eq; try done.
  - by rewrite length_insert.
  - apply distinct_insert; [done..|by left].
  - intros i p' Hi Hne. rewrite job_at_insert in Hi by done. destruct Hi as [[-> <-]|[Hik Hi]]; [done|].
    rewrite lookup_delete_is_Some. split; [|by eapply inv_jobs0]. intros <-. apply Hik. eapply inv_distinct0; done.
  - intros p' Hp'. rewrite lookup_delete_is_Some in Hp'. destruct Hp' as [Hne Hp']. destruct (inv_procs0 p' Hp') as [? [i Hi]].
    split; [done|]. exists i. rewrite job_at_insert by done. right. split; [|done]. intros ->.
    destruct Hi as (job' & Hi & <-). by simplify_eq.
  - intros p' st' Hin. rewrite lookup_delete_is_Some. split; [|apply (inv_reports0 p' st'); by right].
    intros <-. apply Hfresh. apply list_elem_of_fmap. by exists (p, st').
  - intros i p' Hf Hi. rewrite fg_at_insert in Hf by done. rewrite job_at_insert in Hi by done.
    destruct Hf as [[-> E']|[Hik Hf]]; [done|]. destruct Hi as [[? _]|[_ Hi]]; [done|]. by apply inv_fg0.
  - intros i i' Hf Hf'. rewrite fg_at_insert in Hf by done. rewrite fg_at_insert in Hf' by done.
    destruct Hf as [[-> E']|[Hik Hf]]; [done|]. destruct Hf' as [[-> E']|[Hik' Hf']]; [done|]. by apply inv_one0.
Qed.

(** ** SIGCHLD *)

(** [deletejob] after the report has been taken. *)
Lemma wp_delete_reported s s1 k p st r job :
  inv s → reports s = (p, st) :: r → job_at (jobs s) k p → pid job = p → 1 ≤ p →
  jobs s1 = jobs s → procs s1 = delete p (procs s) → reports s1 = r → array s1 = array s → pc s1 = pc s →
  wp (deletejob (pid job) ;; mret tt) s1 (λ _ s', inv s' ∧ reports s' = r ∧ pc s' = pc s ∧ ¬ fg_at (jobs s') k
    ∧ ∀ i, i ≠ k → jobs s' !! i = jobs s !! i).
Proof.
  intros H Hr Hk -> Hp Ej Ep Er Ea Eq. pose proof Hk as (job' & Hjob & _). pose proof (lookup_lt_Some _ _ _ Hjob) as Hlt.
  wp_step. apply (wp_deletejob s1 k p); rewrite ?Ej; [apply H|done..|].
  intros s' Ej' (Ep' & Er' & Eq' & Ea'). wp_steps. split_and!; [|congruence..| |].
  - eapply (inv_deleted s s' k p st r); congruence.
  - rewrite Ej', fg_at_insert by done. intros [[_ ?]|[? _]]; done.
  - intros i Hi. rewrite Ej'. by apply list_lookup_insert_ne.
Qed.

(** The report is taken, the child goes on. *)
Lemma inv_reported s p st r o : inv s → reports s = (p, st) :: r → inv (set_stdout o (set_host (procs s) r s)).
Proof.
  intros [] Hr. rewrite Hr in inv_reports0, inv_once0. apply NoDup_cons in inv_once0 as [_ ?]. split; try done.
  intros p' st' Hin. apply (inv_reports0 p' st'). by right.
Qed.

(** The job at [k] has left the foreground; the other jobs are as before. *)
Definition handled (s s' : shell) (p : Z) (r : list (Z * wstatus)) : Prop :=
  inv s' ∧ reports s' = r ∧ pc s' = pc s ∧ 1 ≤ p ∧
  ∃ k, job_at (jobs s) k p ∧ ¬ fg_at (jobs s') k ∧ ∀ i, i ≠ k → jobs s' !! i = jobs s !! i.

Lemma wp_sigchld_turn s p st r :
  inv s → reports s = (p, st) :: r →
  wp (r ← waitpid; match r with None => mret (inr tt) | Some (p, st) => sigchld_turn p st ;; mret (inl tt : () + ()) end) s
    (λ x s', x = inl tt ∧ handled s s' p r).
Proof.
  intros H Hr. assert (is_Some (procs s !! p)) as Hp by (apply (inv_reports s H p st); rewrite Hr; by left).
  destruct (inv_procs s H p Hp) as [Hp1 [k Hk]]. pose proof Hk as (job & Hjob & E).
  wp_step. unfold wp at 1, waitpid. rewrite Hr. set (s1 := set_host _ _ s). wp_step.
  apply wp_mono with (Q := λ _ s', handled s s' p r); [|intros ? s' ?; by wp_steps].
  unfold sigchld_turn. wp_steps. eapply wp_the; [by apply (getjobpid_found _ p k); [apply H|..]|].
  wp_step. eapply (wp_get_job s1); [done|].
  destruct st as [c|sig|sig].
  - eapply wp_mono; [eapply (wp_delete_reported s s1 k p); done|]. intros ? s' (? & ? & ? & ? & ?). split_and!; [done..|]. by exists k.
  - wp_step. apply wp_print. eapply wp_mono; [eapply (wp_delete_reported s _ k p); done|]. intros ? s' (? & ? & ? & ? & ?).
    split_and!; [done..|]. by exists k.
  - wp_step. apply wp_print. unfold put_job. wp_steps. split_and!; [|done|done|done|].
    + apply (inv_restate (set_stdout (stdout s1 ++ _) s1) k job ST (pc s)); [by eapply inv_reported|done|apply H|done|].
      intros i p' _ Hf Hi. by apply (inv_fg s H).
    + exists k. split_and!; [done| |]; simpl.
      * rewrite fg_at_insert by (by eapply lookup_lt_Some). intros [[_ ?]|[? _]]; done.
      * intros i Hi. by apply list_lookup_insert_ne.
Qed.

(** The handler takes all reports; jobs that are not reported stay as they are. *)
Definition after_reports (s s' : shell) (rs : list Z) : Prop :=
  ∀ i p, job_at (jobs s) i p → if decide (p ∈ rs) then ¬ fg_at (jobs s') i else jobs s' !! i = jobs s !! i.

Lemma after_turn s s1 s2 done p r :
  inv s1 → p ∉ done → after_reports s s1 done → handled s1 s2 p r → after_reports s s2 (p :: done).
Proof.
  intros H1 Hnew Ha (_ & _ & _ & Hp1 & k & Hk & Hnot & Hsame) i p' Hi. specialize (Ha i p' Hi).
  destruct (decide (p' ∈ done)) as [Hd|Hd].
  - rewrite decide_True by set_solver. destruct (decide (i = k)) as [->|Hne]; [done|].
    intros Hf. apply Ha. unfold fg_at in *. by rewrite <-Hsame.
  - assert (job_at (jobs s1) i p') as Hi' by (unfold job_at in *; by rewrite Ha).
    destruct (decide (p' = p)) as [->|Hne].
    + rewrite decide_True by set_solver. assert (i = k) as -> by (apply (inv_distinct s1 H1 i k p); [done..|lia]). done.
    + rewrite decide_False by set_solver. rewrite Hsame; [done|]. intros ->.
      destruct Hi' as (j1 & ? & <-), Hk as (j2 & ? & <-). by simplify_eq.
Qed.

Lemma wp_sigchld_handler s :
  inv s → wp sigchld_handler s (λ _ s', inv s' ∧ reports s' = [] ∧ pc s' = pc s ∧ after_reports s s' (reports s).*1).
Proof.
  intros H. unfold sigchld_handler. wp_steps.
  apply (wp_loop (λ r (_ : unit) s1, inv s1 ∧ reports s1 = r ∧ pc s1 = pc s
      ∧ ∃ d, (∀ p, p ∈ d ∨ p ∈ r.*1 ↔ p ∈ (reports s).*1) ∧ (∀ p, p ∈ d → p ∉ r.*1) ∧ after_reports s s1 d) length)
    with (g := reports s); [|split_and!; [done..|]; exists []|lia].
  - intros r [] s1 (H1 & Hr & Hpc & d & Hall & Hnew & Ha). destruct r as [|[p st] r].
    + wp_step. unfold wp at 1, waitpid. rewrite Hr. wp_steps. split_and!; [done..|]. intros i p Hi. specialize (Ha i p Hi).
      destruct (decide (p ∈ d)) as [?|?]; [rewrite decide_True by (apply Hall; by left); done|].
      rewrite decide_False; [done|]. intros [?|?%elem_of_nil]%Hall; done.
    + pose proof (inv_once s1 H1) as Hnd. rewrite Hr in Hnd. apply NoDup_cons in Hnd as [Hp _].
      eapply wp_mono; [by eapply wp_sigchld_turn|]. intros ? s2 (-> & Hh). exists r. split; [|simpl; lia].
      pose proof Hh as (H2 & Hr2 & Hpc2 & _). split_and!; [done..|congruence|]. exists (p :: d). split_and!.
      * intros p'. rewrite <-Hall. simpl. set_solver.
      * intros p' [->|Hd]%elem_of_cons; [done|]. pose proof (Hnew p' Hd). set_solver.
      * eapply after_turn; [exact H1| |done|done]. intros Hd. apply (Hnew p Hd). set_solver.
  - split_and!; [set_solver..|]. intros i p _. by rewrite decide_False by set_solver.
Qed.

(** ** Command lines are evaluated *)

Lemma inv_quiet s q : inv s → (∀ k, ¬ fg_at (jobs s) k) → place_ok q → inv (set_pc q s).
Proof. intros H Hno Hq. apply inv_goto; [done..|]. intros i p Hf. by destruct (Hno i). Qed.

Lemma wp_complain s cs : inv s → (∀ k, ¬ fg_at (jobs s) k) → wp (print cs ;; goto Prompt) s (λ _ s', inv s').
Proof. intros H Hno. wp_step. apply wp_print. unfold goto. wp_steps. apply inv_quiet; [by apply (inv_same s)|done..]. Qed.

Lemma wp_bgfg_find s argv : inv s → (∀ k, ¬ fg_at (jobs s) k) → wp (bgfg_find argv) s (λ _ s', inv s').
Proof.
  intros H Hno.
  unfold bgfg_find. wp_steps. destruct (argv !! 1%nat) as [arg|]; [|by apply wp_complain].
  assert (∀ cs (k : option nat) (b : bool) cs' by_jid n name,
    wp (if b then print cs ;; goto Prompt else match k with None => print cs' ;; goto Prompt | Some _ => goto (Checked by_jid n name) end)
      s (λ _ s', inv s')) as Hboth.
  { intros cs [k|] [] cs' by_jid n name; try by apply wp_complain. unfold goto. wp_steps. by apply inv_quiet. }
  destruct arg as [|[|c|c] arg]; try apply Hboth.
  repeat (destruct c as [c|c|]; try apply Hboth).
Qed.

Lemma is_line_length cmd : is_line cmd → (length cmd < MAXLINE)%nat.
Proof. intros (l & -> & _ & H). rewrite length_app. unfold MAXLINE in *. simpl. lia. Qed.

Lemma wp_launch s (bg : bool) cmd p :
  inv s → pc s = Prompt → procs s !! p = None → 1 ≤ p → (∃ job, job ∈ jobs s ∧ pid job = 0) → (length cmd < MAXLINE)%nat →
  wp (modify (λ s, set_host (<[p := false]> (procs s)) (reports s) s) ;;
      if negb bg then addjob p FG cmd ;; goto (Waiting p)
      else addjob p BG cmd ;; l ← gets jobs;
        print (chars "[" ++ dec (pid2jid l p) ++ chars "] (" ++ dec p ++ chars ") " ++ cmd)) s (λ _ s', inv s').
Proof.
  intros H Hpc Hp Hp1 Hfree Hlen.
  assert (∀ i, ¬ fg_at (jobs s) i) as Hno by (apply inv_no_fg; [done|]; intros i x; rewrite Hpc; tauto).
  wp_steps. destruct bg; cbn [negb].
  - wp_step. apply wp_addjob; [done..|]. intros i s' Hi Ej (Ep & Er & Eq & Ea). wp_steps. apply wp_print.
    apply (inv_added s _ p false BG (nextjid s) cmd i Prompt); simpl; try done; [by rewrite Ea; apply H|rewrite Eq; exact Hpc].
  - wp_step. apply wp_addjob; [done..|]. intros i s' Hi Ej (Ep & Er & Eq & Ea). unfold goto. wp_steps.
    apply (inv_added s _ p false FG (nextjid s) cmd i (Waiting p)); simpl; try done. by rewrite Ea; apply H.
Qed.

Lemma wp_builtin_cmd s argv (Q : bool → shell → Prop) :
  inv s → pc s = Prompt → (∀ s', inv s' → Q true s') → Q false s → wp (builtin_cmd argv) s Q.
Proof.
  intros H Hpc HT HF.
  assert (∀ i, ¬ fg_at (jobs s) i) as Hno by (apply inv_no_fg; [done|]; intros i x; rewrite Hpc; tauto).
  assert (wp (bgfg_find argv ;; mret true) s Q) as Hbgfg.
  { wp_step. eapply wp_mono; [by apply wp_bgfg_find|]. intros ? s' H'. wp_steps. by apply HT. }
  unfold builtin_cmd. destruct (decide _) as [_|_].
  { unfold leave, goto. wp_steps. apply HT. by apply inv_gone. }
  do 2 (destruct (decide _) as [_|_]; [exact Hbgfg|]).
  destruct (decide _) as [_|_]; [wp_steps; apply wp_print; wp_steps; apply HT; by apply (inv_same s)|].
  apply wp_ret. case_bool_decide; [by apply HT|done].
Qed.

Lemma wp_eval s cmd p : inv s → enabled (Line cmd p) s → fits (Line cmd p) s → wp (eval cmd p) s (λ _ s', inv s').
Proof.
  intros H ((Hpc & Hline & Hp0 & Hp) & _) (Hfree & Hfew). unfold eval. wp_step.
  apply wp_parseline; [done|apply H|done|]. intros a argv Ha Hargv. wp_steps.
  set (s1 := set_array a s). assert (inv s1) as H1 by (destruct H; by split).
  destruct (decide _) as [_|_]; [by wp_steps|]. wp_step. apply wp_builtin_cmd; [done..|intros s' H'; by wp_steps|].
  destruct (Z.ltb_spec p 0) as [Hneg|Hpos]; [by apply wp_unix_error|].
  apply (wp_launch s1); [done..|apply Hp; lia|lia|done|by apply is_line_length].
Qed.

Lemma wp_perform s l :
  inv s → enabled l s → fits l s → (l = Continue → ¬ lost_job s) → wp (perform l) s (λ _ s', inv s').
Proof.
  intros H He Hf Hl. destruct l as [cmd p| | | | | |p|p st]; simpl.
  - by apply wp_eval.
  - by apply wp_continue, Hl.
  - eapply wp_mono; [by apply wp_sigchld_handler|]. by intros ? s' (? & _).
  - by apply wp_pass_on.
  - by apply wp_pass_on.
  - unfold sigquit_handler, leave, goto. wp_steps. apply wp_print. wp_steps. by apply inv_gone, (inv_same s).
  - wp_steps. destruct He as [Hp _]. destruct H.
    assert (∀ x, is_Some (<[p := true]> (procs s) !! x) ↔ is_Some (procs s !! x)) as E.
    { intros x. rewrite lookup_insert_is_Some'. naive_solver. }
    split; try done; simpl; intros *; rewrite E; eauto.
  - wp_steps. destruct He as [[Hp _] _]. destruct H. split; try done; simpl.
    + intros p' st' [[_ Hin]%list_elem_of_filter|Hin%list_elem_of_singleton]%elem_of_app; [by eapply inv_reports0|by simplify_eq].
    + rewrite fmap_app. apply NoDup_app. split_and!; [|intros x Hx|apply NoDup_singleton].
      * eapply sublist_NoDup; [exact inv_once0|]. apply fmap_sublist, sublist_filter.
      * apply list_elem_of_fmap in Hx as (y & -> & [Hy _]%list_elem_of_filter). simpl. by rewrite list_elem_of_singleton.
Qed.

Lemma lost_job_faults s : lost_job s → perform Continue s = Err EFault.
Proof. intros [name E]. simpl. unfold continue, mbind, M_bind, gets. by rewrite E. Qed.

Lemma reachable_shell_inv v s : reachable v s → inv s.
Proof.
  induction 1 as [|s l s' _ H Hf [He Hs]]; [apply inv_start|].
  assert (l = Continue → ¬ lost_job s) as Hl by (intros -> Hl%lost_job_faults; congruence).
  pose proof (wp_perform s l H He Hf Hl) as Hw. unfold wp in Hw. by rewrite Hs in Hw.
Qed.

(** The jobs of the table, by process: number, state and command line. *)
Definition job_map (l : list job_t) : gmap Z (Z * Z * list Z) :=
  list_to_map ((λ job, (pid job, (jid job, state job, cmdline job))) <$> filter (λ job, pid job ≠ 0) l).

Lemma job_map_lookup l p x :
  distinct_pids l → job_map l !! p = Some x ↔ p ≠ 0 ∧ ∃ i job, l !! i = Some job ∧ pid job = p ∧ (jid job, state job, cmdline job) = x.
Proof.
  intros Hd. unfold job_map. rewrite <-elem_of_list_to_map.
  - rewrite list_elem_of_fmap. setoid_rewrite list_elem_of_filter. setoid_rewrite list_elem_of_lookup. naive_solver.
  - rewrite <-list_fmap_compose. induction l as [|job l IH]; [constructor|].
    assert (distinct_pids l) as Hd'.
    { intros i k p' Hi Hk Hne. assert (S i = S k); [|lia]. by apply (Hd _ _ p'). }
    rewrite filter_cons. destruct (decide _) as [Hj|Hj]; [|by apply IH]. rewrite fmap_cons. constructor; [|by apply IH].
    rewrite list_elem_of_fmap. intros (job' & E & [_ Hin]%list_elem_of_filter). apply list_elem_of_lookup in Hin as [k Hk].
    assert (0%nat = S k); [|done]. apply (Hd _ _ (pid job)); [by exists job|by exists job'|done].
Qed.

Lemma job_map_insert l i job :
  distinct_pids l → job_at l i 0 → pid job ≠ 0 → (∀ k, ¬ job_at l k (pid job)) →
  job_map (<[i := job]> l) = <[pid job := (jid job, state job, cmdline job)]> (job_map l).
Proof.
  intros Hd (j0 & Hi & E0) Hp Hnew. pose proof (lookup_lt_Some _ _ _ Hi) as Hlt.
  assert (distinct_pids (<[i := job]> l)) as Hd' by (apply distinct_insert; [done..|]; right; intros k _; apply Hnew).
  apply map_eq. intros p. apply option_eq. intros x. rewrite job_map_lookup, lookup_insert_Some, job_map_lookup by done. split.
  - intros (Hne & k & j & Hk & Ep & Ex). destruct (decide (k = i)) as [->|Hki].
    + rewrite list_lookup_insert_eq in Hk by done. left. by simplify_eq.
    + rewrite list_lookup_insert_ne in Hk by done. right. split; [|by eauto 10]. intros E. apply (Hnew k). exists j. by rewrite E.
  - intros [[<- <-]|(Hne & Hp0 & k & j & Hk & Ep & Ex)].
    + split; [done|]. exists i, job. by rewrite list_lookup_insert_eq.
    + split; [done|]. exists k, j. rewrite list_lookup_insert_ne; [done|]. intros ->. by simplify_eq.
Qed.

Lemma job_map_clear l i p :
  distinct_pids l → job_at l i p → p ≠ 0 → job_map (<[i := Job 0 0 UNDEF []]> l) = delete p (job_map l).
Proof.
  intros Hd Hi Hp. pose proof Hi as (j0 & Hi0 & E0). pose proof (lookup_lt_Some _ _ _ Hi0) as Hlt.
  apply map_eq. intros q. apply option_eq. intros x.
  rewrite lookup_delete_Some, !job_map_lookup by (try apply distinct_insert; auto). split.
  - intros (Hne & k & j & Hk & Eq & Ex). destruct (decide (i = k)) as [<-|Hik].
    + rewrite list_lookup_insert_eq in Hk by done. by simplify_eq.
    + rewrite list_lookup_insert_ne in Hk by done. split; [|by eauto 10]. intros ->. apply Hik. by apply (Hd i k q); [..|exists j|].
  - intros (Hne & Hq & k & j & Hk & Eq & Ex). split; [done|]. exists k, j. rewrite list_lookup_insert_ne; [done|].
    intros ->. by simplify_eq.
Qed.

Lemma job_map_get l p :
  distinct_pids l → 1 ≤ p →
  job_map l !! p = (λ job, (jid job, state job, cmdline job)) <$> (getjobpid l p ≫= λ i, l !! i).
Proof.
  intros Hd Hp. apply option_eq. intros x. rewrite job_map_lookup by done. rewrite fmap_Some. setoid_rewrite bind_Some. split.
  - intros (_ & i & job & Hi & Ep & <-). exists job. split; [|done]. exists i. split; [|done].
    apply getjobpid_found; [done|by exists job|done].
  - intros (job & (i & (Hat & _)%getjobpid_first & Hi) & ->). destruct Hat as (j & Hj & Ej). simplify_eq.
    split; [lia|]. eauto 10.
Qed.

(** The table of jobs refines a map from processes to job number, state and
    command line: getjobpid looks up, deletejob deletes and says whether there was
    such a job, and addjob inserts unless every entry is taken. *)
Theorem jobs_refine s p st cmd :
  distinct_pids (jobs s) → 1 ≤ p → (length cmd < MAXLINE)%nat →
  job_map (jobs s) !! p = (λ job, (jid job, state job, cmdline job)) <$> (getjobpid (jobs s) p ≫= λ i, jobs s !! i)
  ∧ (∃ s', deletejob p s = Ok (bool_decide (is_Some (job_map (jobs s) !! p)), s')
       ∧ distinct_pids (jobs s') ∧ job_map (jobs s') = delete p (job_map (jobs s)))
  ∧ (job_map (jobs s) !! p = None → ∃ b s', addjob p st cmd s = Ok (b, s') ∧ distinct_pids (jobs s')
       ∧ if (b : bool) then job_map (jobs s') = <[p := (nextjid s, st, cmd)]> (job_map (jobs s))
         else jobs s' = jobs s ∧ ∀ job, job ∈ jobs s → pid job ≠ 0).
Proof.
  intros Hd Hp Hlen. split_and!; [by apply job_map_get| |].
  - rewrite job_map_get by done. destruct (getjobpid (jobs s) p) as [k|] eqn:E.
    + destruct (getjobpid_first _ _ _ E) as [Hk _]. pose proof Hk as (job & Hjob & _). pose proof (lookup_lt_Some _ _ _ Hjob) as Hlt.
      assert (wp (deletejob p) s (λ b s', b = true ∧ jobs s' = <[k := Job 0 0 UNDEF []]> (jobs s))) as (b & s' & Es & -> & Ej)%wp_ok
        by (eapply wp_deletejob; done).
      exists s'. rewrite Es, Ej. simpl. rewrite Hjob. split_and!; [by rewrite bool_decide_eq_true_2 by (by eexists)|apply distinct_insert; auto|by apply job_map_clear; [..|lia]].
    + exists s. unfold getjobpid in E. rewrite (proj2 (Z.ltb_ge p 1)) in E by done.
      split_and!; [apply wp_det_ok; unfold deletejob; rewrite (proj2 (Z.ltb_ge p 1)) by done; wp_steps; by rewrite E|done|]. rewrite delete_id; [done|]. rewrite job_map_get by done. unfold getjobpid.
      rewrite (proj2 (Z.ltb_ge p 1)) by done. by rewrite E.
  - intros Hnew. destruct (first (λ job, pid job =? 0) (jobs s)) as [i|] eqn:E.
    + pose proof E as (job & Hi & E0 & _)%first_Some.
      assert (∀ k, ¬ job_at (jobs s) k p) as Hno.
      { intros k (j & Hk & Ek). apply eq_None_not_Some in Hnew. apply Hnew. eexists. apply job_map_lookup; [done|].
        split; [lia|]. by exists k, j. }
      assert (wp (addjob p st cmd) s (λ b s', b = true ∧ ∃ i, job_at (jobs s) i 0 ∧ jobs s' = <[i := Job p (nextjid s) st cmd]> (jobs s)))
        as (b & s' & Es & -> & k & Hk & Ej)%wp_ok.
      { apply wp_addjob; [done| |done|by eauto]. exists job. split; [by eapply list_elem_of_lookup_2|by apply Z.eqb_eq]. }
      exists true, s'. rewrite Es, Ej. pose proof Hk as (j' & Hj' & _). split_and!; [done| |].
      * apply distinct_insert; [by eapply lookup_lt_Some|done|]. right. intros k' _. apply Hno.
      * by rewrite job_map_insert by (simpl; auto with lia).
    + assert (wp (addjob p st cmd) s (λ b s', b = false ∧ jobs s' = jobs s)) as (b & s' & Es & -> & Ej)%wp_ok
        by (unfold addjob; rewrite (proj2 (Z.ltb_ge p 1)) by done; wp_steps; rewrite E; wp_steps; apply wp_print; by wp_steps).
      exists false, s'. rewrite Ej. split_and!; [done..|].
      intros job [k Hk]%list_elem_of_lookup. rewrite first_None in E. apply Z.eqb_neq. by eapply E.
Qed.

(** C18: in every run of the shell in which there is room for another job and for the
    arguments whenever a line is read, under any interleaving with signals and
    children, every step but one returns, and the table keeps its invariant: no
    process has two jobs, the jobs are exactly the children, at most one job is in
    the foreground, and then the shell is waiting for it.  The one step that fails is
    the use of a null pointer in fg and bg, when the handler has deleted the job
    between the test that it exists and the second search for it (see
    [job_lost_between_searches]). *)
Theorem shell_safe v s l :
  reachable v s → enabled l s → fits l s →
  (∃ s', step s l s' ∧ inv s') ∨
  (perform l s = Err EFault ∧ l = Continue ∧ ∃ name, pc s = Found None name).
Proof.
  intros Hr He Hf.
  assert (l = Continue ∧ lost_job s ∨ (l = Continue → ¬ lost_job s)) as [[-> Hl]|Hl].
  { destruct l; try (by right). destruct (pc s) as [| |[k|] name| | |] eqn:Epc; try (right; intros _ [nm E]; congruence).
    left. split; [done|by exists name]. }
  - right. split_and!; [by apply lost_job_faults|done|done].
  - left. pose proof (wp_perform s l (reachable_shell_inv v s Hr) He Hf Hl) as ([] & s' & E & H)%wp_ok. by exists s'.
Qed.

(** C19: a shell that waits for its job in the foreground comes back to the prompt
    when the handler of SIGCHLD has been told that this job has ended or stopped,
    and goes on waiting whatever it is told about other jobs. *)
Theorem foreground_wait v s p :
  reachable v s → pc s = Waiting p → fgpid (jobs s) = p → 1 ≤ p →
  ∃ s', (sigchld_handler ;; waitfg p) s = Ok (tt, s') ∧ pc s' = if decide (p ∈ (reports s).*1) then Prompt else Waiting p.
Proof.
  intros Hr Hpc Hfg Hp. pose proof (reachable_shell_inv v s Hr) as H.
  assert (∃ i job, jobs s !! i = Some job ∧ state job = FG ∧ pid job = p) as (i & job & Hi & Hs & Ep).
  { unfold fgpid in Hfg. destruct (first _ _) as [i|] eqn:E; [|lia]. apply first_Some in E as (job & Hi & E & _).
    rewrite Hi in Hfg. exists i, job. split_and!; [done|by apply Z.eqb_eq|done]. }
  assert (job_at (jobs s) i p) as Hat by (by exists job).
  assert (wp (sigchld_handler ;; waitfg p) s (λ _ s', pc s' = if decide (p ∈ (reports s).*1) then Prompt else Waiting p)) as Hw.
  { wp_step. eapply wp_mono; [by apply wp_sigchld_handler|]. intros ? s' (H' & _ & Hpc' & Ha). unfold waitfg. wp_steps.
    destruct (decide (p ∈ (reports s).*1)) as [Hin|Hout].
    - rewrite fgpid_none; [rewrite (proj2 (Z.eqb_neq 0 p)) by lia; done|]. intros k Hk.
      destruct (lookup_lt_is_Some_2 (jobs s) k) as [jk Hjk].
      { destruct Hk as (j' & Hk & _). rewrite (inv_length s H), <-(inv_length s' H'). by eapply lookup_lt_Some. }
      specialize (Ha k (pid jk) ltac:(by exists jk)) as Hak. destruct (decide _) as [|Hnot]; [done|].
      assert (k = i) as -> by (apply (inv_one s H); [unfold fg_at in *; by rewrite <-Hak|by exists job]).
      apply Hnot. assert (jk = job) as -> by congruence. by rewrite Ep.
    - specialize (Ha i p Hat). rewrite decide_False in Ha by done.
      rewrite (fgpid_found _ i job); [rewrite (proj2 (Z.eqb_eq _ _)) by done; by wp_steps; rewrite Hpc'| |by rewrite Ha|done].
      intros k Hk. apply (inv_one s' H'); [done|]. exists job. by rewrite Ha. }
  apply wp_ok in Hw as ([] & s' & E & Hs'). by exists s'.
Qed.

(** Parseline cuts a line of at most 1022 characters and less than 128
    arguments into its arguments, quoted ones whole, and recognises a last argument
    that begins with an ampersand. *)
Theorem parseline_correct s cmd :
  is_line cmd → length (array s) = MAXLINE → (length (line_words cmd) < MAXARGS)%nat →
  ∃ a argv, parseline cmd s = Ok ((argv, (parsed (line_words cmd)).2), set_array a s)
    ∧ arg_string a <$> argv = (parsed (line_words cmd)).1.
Proof.
  intros Hl Ha Hfew.
  assert (wp (parseline cmd) s (λ r s', ∃ a, s' = set_array a s ∧ r.2 = (parsed (line_words cmd)).2
    ∧ arg_string a <$> r.1 = (parsed (line_words cmd)).1)) as Hw by (apply wp_parseline; eauto).
  apply wp_ok in Hw as ([argv b] & s' & E & a & -> & Hb & Hargv). simpl in *. subst b. by exists a, argv.
Qed.

(** ** Concrete runs *)

Fixpoint run (ls : list label) : M shell unit :=
  match ls with [] => mret tt | l :: ls => perform l ;; run ls end.

(** Steps that are possible, decided. *)
Definition lineb (cmd : list Z) : bool :=
  bool_decide (cmd = removelast cmd ++ [10] ∧ Forall (λ c, 0 < c < 256) (removelast cmd)
               ∧ (length (removelast cmd) < MAXLINE - 1)%nat).
Definition enabledb (l : label) (s : shell) : bool :=
  match l with
  | Line cmd p => bool_decide (pc s = Prompt ∧ p ≠ 0 ∧ procs s !! p = None) && lineb cmd
  | Continue => bool_decide (pc s ≠ Prompt)
  | ChildGroup p => bool_decide (is_Some (procs s !! p))
  | ChildReport p _ => bool_decide (is_Some (procs s !! p)) && forallb (λ r, negb (r.1 =? p) || negb (ended r.2)) (reports s)
  | _ => true
  end && match pc s with Gone _ => false | _ => true end.
Definition fitsb (l : label) (s : shell) : bool :=
  match l with
  | Line cmd _ => existsb (λ job, pid job =? 0) (jobs s) && bool_decide (length (line_words cmd) < MAXARGS)%nat
  | _ => true
  end.
Fixpoint play (ls : list label) (s : shell) : option shell :=
  match ls with
  | [] => Some s
  | l :: ls => if enabledb l s && fitsb l s then match perform l s with Ok (_, s') => play ls s' | Err _ => None end else None
  end.

Lemma lineb_sound cmd : lineb cmd = true → is_line cmd.
Proof. intros H%bool_decide_eq_true. by exists (removelast cmd). Qed.
Lemma enabledb_sound l s : enabledb l s = true → enabled l s.
Proof.
  unfold enabledb, enabled. intros [Hl Hg]%andb_true_iff. split; [|intros n E; by rewrite E in Hg].
  destruct l as [cmd p| | | | | |p|p st]; try done; try (by apply bool_decide_eq_true in Hl).
  - apply andb_true_iff in Hl as [Hl Hc]. apply bool_decide_eq_true in Hl as (? & ? & ?). split_and!; try done. by apply lineb_sound.
  - apply andb_true_iff in Hl as [Hl Hr]. apply bool_decide_eq_true in Hl. split; [done|]. intros st' Hin.
    rewrite forallb_forall in Hr. apply list_elem_of_In in Hin. specialize (Hr _ Hin). simpl in Hr.
    rewrite Z.eqb_refl in Hr. by apply negb_true_iff.
Qed.
Lemma fitsb_sound l s : fitsb l s = true → fits l s.
Proof.
  destruct l as [cmd p| | | | | | |]; simpl; try done. intros [Hj Hw]%andb_true_iff. apply bool_decide_eq_true in Hw. split; [|done].
  apply existsb_exists in Hj as (job & Hin & E). exists job. split; [by apply list_elem_of_In|by apply Z.eqb_eq].
Qed.
Lemma play_reaches v ls s s' : reachable v s → play ls s = Some s' → reachable v s'.
Proof.
  revert s. induction ls as [|l ls IH]; intros s Hr; simpl; [by intros [= <-]|].
  destruct (enabledb l s && fitsb l s) eqn:E; [|done]. apply andb_true_iff in E as [He Hf].
  destruct (perform l s) as [[[] s1]|] eqn:Hp; [|done]. apply IH. eapply reach_step; [done|by apply fitsb_sound|].
  split; [by apply enabledb_sound|done].
Qed.

Definition ex_line : list Z := chars "ls 'a b' &x" ++ [10].
Lemma parseline_correct_witness :
  line_words ex_line = [chars "ls"; chars "a b"; chars "&x"] ∧
  ∃ a argv, parseline ex_line (start false) = Ok ((argv, true), set_array a (start false))
    ∧ arg_string a <$> argv = [chars "ls"; chars "a b"].
Proof. split; [vm_compute; reflexivity|]. apply (parseline_correct (start false) ex_line); [apply lineb_sound; vm_compute; reflexivity|reflexivity|vm_compute; lia]. Defined.

(** A shell that waits for its first job, process 100, which has been stopped. *)
Definition ex_run : list label :=
  [Line (chars "yes &" ++ [10]) 99; Line (chars "cat" ++ [10]) 100; ChildGroup 100; SigTstp; ChildReport 100 (Stopped 20)].
Definition ex_shell : shell := default (start false) (play ex_run (start false)).
Lemma ex_shell_reachable : reachable false ex_shell.
Proof. apply (play_reaches false ex_run (start false)); [constructor|vm_compute; reflexivity]. Qed.

Lemma shell_safe_witness : ∃ s', step ex_shell SigChld s' ∧ inv s'.
Proof.
  destruct (shell_safe false ex_shell SigChld) as [H|(_ & Hl & _)].
  - exact ex_shell_reachable.
  - apply enabledb_sound. vm_compute. reflexivity.
  - exact I.
  - exact H.
  - discriminate Hl.
Defined.
Lemma foreground_wait_witness :
  ∃ s', (sigchld_handler ;; waitfg 100) ex_shell = Ok (tt, s') ∧ pc s' = Prompt.
Proof.
  apply (foreground_wait false ex_shell 100); [exact ex_shell_reachable|vm_compute; reflexivity|vm_compute; reflexivity|lia].
Defined.
Lemma jobs_refine_witness :
  ∃ s', deletejob 100 ex_shell = Ok (true, s') ∧ job_map (jobs s') = delete 100 (job_map (jobs ex_shell)).
Proof.
  assert (distinct_pids (jobs ex_shell)) as Hd by (apply inv_distinct, (reachable_shell_inv false), ex_shell_reachable).
  destruct (jobs_refine ex_shell 100 BG (chars "x") Hd) as (_ & (s' & E & _ & Hm) & _); [lia|vm_compute; lia|].
  exists s'. split; [|exact Hm]. rewrite E. vm_compute. reflexivity.
Defined.

(** ** What goes wrong *)

(** Once it waits for process 0, the shell never comes back to the prompt. *)
Lemma waiting_for_nothing v s l s' :
  reachable v s → pc s = Waiting 0 → step s l s' → l = SigQuit ∨ pc s' = Waiting 0.
Proof.
  intros Hr Hpc [He Hs]. pose proof (reachable_shell_inv v s Hr) as H.
  assert (fgpid (jobs s) = 0) as Hfg.
  { unfold fgpid. destruct (first _ _) as [i|] eqn:E; [|done]. apply first_Some in E as (job & Hi & E & _). rewrite Hi.
    pose proof (inv_fg s H i (pid job)) as Hf. rewrite Hpc in Hf. apply Hf; exists job; [|done]. split; [done|]. by apply Z.eqb_eq. }
  destruct l as [cmd p| | | | | |p|p st]; simpl in Hs; [| | | | |by left|by right; injection Hs as <-..]; right.
  - destruct He as [[Hp _] _]. congruence.
  - assert (wp continue s (λ _ s', pc s' = Waiting 0)) as Hw by (unfold continue; wp_steps; rewrite Hpc; unfold waitfg; wp_steps; by rewrite Hfg).
    unfold wp in Hw. by rewrite Hs in Hw.
  - pose proof (wp_sigchld_handler s H) as Hw. unfold wp in Hw. rewrite Hs in Hw. destruct Hw as (_ & _ & E & _). congruence.
  - assert (wp sigint_handler s (λ _ s', pc s' = Waiting 0)) as Hw by (unfold sigint_handler, pass_on; wp_steps; by rewrite Hfg).
    unfold wp in Hw. by rewrite Hs in Hw.
  - assert (wp sigtstp_handler s (λ _ s', pc s' = Waiting 0)) as Hw by (unfold sigtstp_handler, pass_on; wp_steps; by rewrite Hfg).
    unfold wp in Hw. by rewrite Hs in Hw.
Qed.
(** That happens when a job ends while fg brings it to the foreground. *)
Lemma fg_of_ending_job :
  match play [Line (chars "cat &" ++ [10]) 100; ChildGroup 100; Line (chars "fg %1" ++ [10]) 101; Continue; Continue;
              ChildReport 100 (Exited 0); SigChld; Continue] (start false) with
  | Some s => pc s = Waiting 0
  | None => False
  end.
Proof. vm_compute. reflexivity. Qed.

(** A job that ends between the test of [do_bgfg] that it exists and the second search:
    the null pointer is used. *)
Lemma job_lost_between_searches :
  run [Line (chars "cat &" ++ [10]) 100; ChildGroup 100; Line (chars "fg %1" ++ [10]) 101;
       ChildReport 100 (Exited 0); SigChld; Continue; Continue] (start false) = Err EFault.
Proof. vm_compute. reflexivity. Qed.

Definition many (n : nat) : list label := (λ i, Line (chars "cat &" ++ [10]) (Z.of_nat i)) <$> seq 100 n.
(** With sixteen jobs, another process gets no entry, and its end brings the shell down. *)
Lemma too_many_jobs : run (many 17 ++ [ChildReport 116 (Exited 0); SigChld]) (start false) = Err EFault.
Proof. vm_compute. reflexivity. Qed.
(** After two of sixteen jobs have ended, the next two get numbers that are too large or in use. *)
Lemma job_number_twice :
  match run (many 16 ++ [ChildReport 102 (Exited 0); ChildReport 103 (Exited 0); SigChld;
                         Line (chars "cat &" ++ [10]) 200; Line (chars "cat &" ++ [10]) 201]) (start false) with
  | Ok (_, s) => getjobpid (jobs s) 100 ≠ getjobpid (jobs s) 201 ∧ pid2jid (jobs s) 100 = pid2jid (jobs s) 201 ∧ pid2jid (jobs s) 200 = 17
  | Err _ => False
  end.
Proof. vm_compute. done. Qed.
(** A ctrl-c before the child has its own process group ends the shell. *)
Lemma early_interrupt :
  match run [Line (chars "cat" ++ [10]) 100; SigInt] (start false) with Ok (_, s) => pc s = Gone 1 | Err _ => False end.
Proof. vm_compute. reflexivity. Qed.
(** A line of 128 arguments is stored past the end of [argv]. *)
Lemma too_many_arguments :
  parseline (mjoin (replicate 128 (chars "a ")) ++ [10]) (start false) = Err EFault.
Proof. vm_compute. reflexivity. Qed.
